(* ===== verification/_CoqProject ===== *)
-Q . S2P
Prelude.v
ByteOrder.v
GoIO.v
Varint.v
HostPort.v
NetIP.v
Strconv.v
Utf8.v
Unicode.v
UnicodeTables.v
Strings.v
Url.v
UrlParse.v
UrlText.v
TextProto.v
PathClean.v
UrlResolve.v
Bufio.v
TextReader.v
Chunked.v
Transfer.v
Pattern.v
Routing.v
Mux.v
ReadRequest.v
Body.v
Flags.v
NetipAddr.v
NetipProps.v
NetipText.v
NetipPrefix.v
Wire.v
HttpServe.v
RateLimiter.v
SyncMap.v
Mutex.v
MutexInv.v
MutexLive.v
Resolve.v
Proxy.v
ProxyTyping.v
ProxyInv.v
ProxyProps.v
ProxyLive.v
Server.v
Main.v
