(* ===== verification/Prelude.v ===== *)
(** * friscy-proxy and the Go library code under it

    friscy runs RISC-V programs in the browser.  Its network bridge is a Go program,
    [src/proxy/main.go]: a server that takes WebTransport sessions from browsers and opens
    TCP and UDP sockets for them, and a small HTTP API that fetches container images.  This
    library models that program, and the parts of the Go distribution of the repository
    ([src/tools/go-patched/src]) that it stands on, as far as its behaviour depends on them.

    ** The program

    [main] reads flags, makes a [RateLimiter] and a [Server] and starts two listeners.  A
    request to /connect runs in a goroutine of its own: it takes a session slot from the
    limiter, upgrades the connection, starts [acceptStreams] and waits; every stream that a
    client opens carries one message (a varint type, then fixed fields) and is handled by a
    goroutine of its own.  A connect message is checked by [isPrivateAddr], paid for with
    the limiter and dialled by a further goroutine, which then runs [readLoop]; a listen
    message starts an accepting goroutine.  Connections are kept in a [sync.Map] per
    session; each has a mutex and an atomic flag [closed], and [Close] may race with all
    the others.  When a session ends its connections are closed and its slot is returned.
    The API asks the same limiter before it goes to the registry.

    ** Files

    The proxy:
    - [Wire]: the message types, the readers of the five requests ([read_connect] and so on:
      the part of a handler up to the decoded fields; a run-time panic is [Panicked]), the
      events of [sendEvent] and the payload of an accept event, the %d of fmt.
    - [RateLimiter]: the type and its methods; each runs under its mutex and is one step.
    - [Resolve]: [isPrivateAddr] and what net does with a host: [LookupIP], [LookupPort],
      [internetAddrList], [isDomainName], [parsePort]; the name service is a parameter, one
      for the lookup of the filter and another for the later one of the dialler.
    - [Proxy]: every handler and goroutine body as a program [prog], a tree of the
      operations on shared state in the order of the source; [perform] is their meaning on
      a [world] (heap of connections, open sockets, sessions, limiter, clock, log); [step]
      interleaves goroutines, with arbitrary answers of clients, network and clock.
    - [ProxyTyping], [ProxyInv], [ProxyProps], [ProxyLive]: a discipline of roles (which
      mutex, which socket, which obligation a goroutine has) that every function of the
      proxy respects; the invariants that it carries through every interleaving; what they
      mean for the program; and progress.
    - [Server]: [NewServer], the origin check, the API handlers, [api_serve], their routes
      through the multiplexer of net/http, and [api_conn], one request on a connection.
    - [Main]: [main] up to the listeners.

    The Go packages:
    - [ByteOrder], [Varint]: encoding/binary.  [GoIO]: [ReadFull] and [ReadAtLeast], readers
      as a class with its law, streams cut into chunks as an instance.
    - [HostPort], [NetIP]: net, host and port strings, addresses, masks and networks.
    - [NetipAddr], [NetipProps], [NetipText], [NetipPrefix]: net/netip, addresses, their
      order and classes, their text, prefixes and address-port pairs.
    - [Strconv]: strconv and internal/itoa, integers as text.
    - [Utf8], [Unicode], [Strings]: unicode/utf8, unicode, strings and internal/bytealg.
    - [UnicodeTables]: the tables of letters and digits.
    - [Url], [UrlParse], [UrlText], [UrlResolve]: net/url, escaping and query strings, whole
      URLs, their text, references.  [PathClean]: path.  [Flags]: flag.
    - [TextProto], [TextReader]: net/textproto, header keys and the map of headers, and the
      reader of lines, continued lines and headers.  [Bufio]: the buffered reader of bufio.
    - [Chunked], [Transfer], [ReadRequest], [Body]: net/http, the chunked encoding, how a
      message says where its body ends, the reading of a request from a connection with
      the checks of the server, and the body that a handler reads and closes.
    - [Pattern], [Routing], [Mux], [HttpServe]: net/http, the patterns of a request
      multiplexer and their comparison, the routing tree and the index of patterns,
      [ServeMux] itself, the answers that the server gives on its own, and one round of
      [conn.serve]: read a request, look at its Expect header, call the handler.
    - [SyncMap]: sync.Map, the two-level representation with its entries in a store.
    - [Mutex], [MutexInv], [MutexLive]: sync.Mutex over the semaphores of the runtime, as
      goroutines that take turns between any two accesses to shared memory; the invariant
      of the state word, the queue and the semaphore; that a waiter is always woken.

    This file has the conventions: bytes, strings and integers of Go as [Z] and lists of
    [Z] with the wrap-around of their width written out ([u8], [u16], [u32], [u64], [s64]);
    indexing and slicing that panic out of range as [option]; errors as values of
    [error]; the tactics and lemmas that the files share.

    ** What the theorems show

    - Every interleaving ([ProxyProps], [ProxyLive]): sockets are not leaked by the races of
      [Close]; mutexes are used as mutexes; slots are returned; nothing is dialled that was
      not checked and granted; only one message can crash the process; no goroutine waits
      for ever on another, and from every state all sessions can come to their end.
    - Wire format: requests and events are decoded exactly, however a stream is cut; the
      host length that makes [handleConnect] panic is characterised.
    - The filter of private addresses is sound for address literals, and for plain host
      names as far as the dialler's lookup answers nothing new; every answer that is new is
      dialled, and the hosts in brackets that pass the filter are characterised.
    - Limits: what the counters of the rate limiter mean, and how many connections a day
      they grant; a pull spends quota once.
    - Start-up: the parser of flags accepts exactly its grammar and keeps variables typed;
      [main] starts with the settings of the command line or exits; the origins given are
      the ones admitted, however the header is spelled.
    - The API: which requests reach which handler, which the server answers itself ([*], an
      unknown Expect, what cannot be read), and that no request makes it panic, from the
      bytes of the connection on; a search asks once, only ever hub.docker.com, and what it
      asks.
    - The connection: a buffered reader refines the bytes left to read, whatever the reads
      of its source are; on top of it, requests, bodies and trailers are read back exactly
      as they were written, reading ends for every input, what it accepts is well formed,
      the end of a body is never ambiguous, and the next request is found behind a body of
      a declared length or of chunks with their trailer.
    - Routing: patterns are compared as the sets of requests that they match.  For patterns
      without a literal segment that is empty or [*], a pattern is refused exactly when it
      conflicts, and a request without a segment [*] goes to the most specific pattern or is
      redirected; examples show that this fails for other segments.
    - The mutex refines a lock and loses no wake-up.  [Proxy] uses its contract: a step
      [Lock] that waits until the mutex is free, and [Unlock].
    - Libraries: parsers accept exactly the texts they document (addresses, prefixes,
      integers, host and port, UTF-8), printing and parsing are inverse (addresses, integers,
      URLs), optimised routines equal their definition (searches, [path.Clean]), [sync.Map]
      refines a finite map.

    ** Fuel and bounds

    Loops are structural where the code goes through a string; where not, their fuel is a
    bound that is proved to be enough, or a number of rounds that the code itself bounds:
    [ReadAtLeast] the missing bytes and the chunks of the stream, [ReadUvarint] and [Uvarint]
    10 bytes, decimal printing 20 digits, [formatBits] 64, [parseIPv6] 8 fields, the loops of
    strings, utf8 and url the length of the string, binary search the length of the table,
    [FlagSet.Parse] the number of arguments and one more, [matchPath] and [parse_segments] the
    length of the path, [Clean] that of the path and for one [..] that of the buffer,
    [resolvePath] one more than the path.  The loops of [Bufio] that fill the buffer are
    bounded by its size; reading lines, headers and requests takes more rounds than there
    are bytes left, and a chunked read 101 rounds for a byte left, since a source may
    return nothing up to 99 times in a row.  Integers are 64 bits wide.  The theorems on
    [sync.Mutex] are for fewer than 2^28 - 1 goroutines, the capacity of its state word, and
    those on [ServeMux] for fewer than 2^62 patterns, the bound of the index's minimum.

    ** Not modelled

    TLS, listeners, logging, usage texts and the delivery of bytes are input and output.
    webtransport-go and go-containerregistry are not part of the repository: they answer
    arbitrarily, as parameters or as answers in [perform]; so does the HTTP client behind
    the address that it is given.  The write of an event to a stream is one step of [Proxy],
    with the mutex of the stream.  Of net/http the writing of responses, deadlines and
    limits of connections, the reader that sends 100 Continue, the body that the handler of
    [OPTIONS *] throws away, HTTP/2, the client, the older multiplexer that GODEBUG selects,
    the lock of [ServeMux] and the text that describes a conflict are left out; of the
    semaphores the treap that finds the queue of an address.
    The methods of [sync.Map] are one step each in [Proxy]; [SyncMap] shows that one after the
    other they are a finite map, and interference between them is left out.  Assembly
    versions of searches are not Go code; the generic ones are modelled.  The rest of the
    Go tree (compiler, runtime, packages the proxy does not use), the emulator (C++), the
    translator (Rust), the browser code (JavaScript) and the test programs are not modelled.
    The theorems on sessions show that an end can be reached; that it is reached needs
    assumptions on the scheduler, which are not made. *)

From Stdlib Require Export ZArith Lia Ascii String.
From stdpp Require Export base numbers list gmap strings.

#[global] Open Scope Z_scope.

(** ** Go data *)

(** A Go [byte] is a [Z] in [[0,256)]; a Go [string] and a [[]byte] are the
    list of their bytes. *)
Notation gostring := (list Z) (only parsing).
Notation gobytes := (list Z) (only parsing).

Definition is_byte (b : Z) : Prop := 0 <= b < 256.
Notation bytes_ok := (Forall is_byte).

#[global] Instance is_byte_dec b : Decision (is_byte b).
Proof. unfold is_byte. apply _. Defined.

(** The bytes of a literal. *)
Definition ascii_byte (a : ascii) : Z := Z.of_N (N_of_ascii a).
Fixpoint str (s : string) : gostring :=
  match s with
  | EmptyString => []
  | String a s' => ascii_byte a :: str s'
  end.

(** Conversions to the fixed width integer types: wrap-around modulo the width. *)
Definition u8 (x : Z) : Z := x mod 2 ^ 8.
Definition u16 (x : Z) : Z := x mod 2 ^ 16.
Definition u32 (x : Z) : Z := x mod 2 ^ 32.
Definition u64 (x : Z) : Z := x mod 2 ^ 64.
Definition s64 (x : Z) : Z := (x + 2 ^ 63) mod 2 ^ 64 - 2 ^ 63.

Notation is_u16 x := (0 <= x < 65536).
Notation is_u32 x := (0 <= x < 4294967296).
Notation is_u64 x := (0 <= x < 18446744073709551616).
Notation is_s64 x := (-9223372036854775808 <= x < 9223372036854775808).

(** Length of a slice as the [int] that [len] returns. *)
Definition len {A} (l : list A) : Z := Z.of_nat (length l).
#[global] Arguments len {A} l : simpl never.

(** Indexing and slicing; [None] is Go's run-time panic. *)
Definition index {A} (l : list A) (i : Z) : option A :=
  if decide (0 <= i) then l !! Z.to_nat i else None.

Definition slice {A} (l : list A) (lo hi : Z) : option (list A) :=
  if decide (0 <= lo <= hi /\ hi <= len l)
  then Some (take (Z.to_nat (hi - lo)) (drop (Z.to_nat lo) l))
  else None.

Definition update {A} (l : list A) (i : Z) (x : A) : option (list A) :=
  if decide (0 <= i < len l) then Some (<[Z.to_nat i := x]> l) else None.

(** Indexing where the source has checked the bounds. *)
Definition at_ (l : gobytes) (i : nat) : Z := nth i l 0.

(** Go's operators on integers. *)
Declare Scope go_scope.
Delimit Scope go_scope with go.
Notation "a << n" := (Z.shiftl a n) (at level 32, left associativity) : go_scope.
Notation "a >> n" := (Z.shiftr a n) (at level 32, left associativity) : go_scope.
Notation "a .& b" := (Z.land a b) (at level 34, left associativity) : go_scope.
Notation "a .| b" := (Z.lor a b) (at level 51, left associativity) : go_scope.

(** ** Automation *)

Create HintDb go.

(** Linear arithmetic with division and remainder by constants. *)
Ltac zlia := Z.div_mod_to_equations; lia.

(** Equality of explicit lists of integers, cell by cell. *)
Ltac cells_eq := repeat (apply (f_equal2 cons); [zlia|]); reflexivity.

(** Expose the bounds hidden behind the width predicates. *)
Ltac widths :=
  unfold is_byte, u8, u16, u32, u64, s64 in *;
  change (2 ^ 8) with 256 in *; change (2 ^ 16) with 65536 in *;
  change (2 ^ 32) with 4294967296 in *;
  change (2 ^ 63) with 9223372036854775808 in *;
  change (2 ^ 64) with 18446744073709551616 in *.

(** Shifts by literals as multiplication and division by literals. *)
Ltac shifts :=
  repeat first [rewrite Z.shiftl_mul_pow2 by lia | rewrite Z.shiftr_div_pow2 by lia];
  repeat match goal with
  | |- context [2 ^ Zpos ?p] =>
      let v := eval vm_compute in (2 ^ Zpos p) in change (2 ^ Zpos p) with v
  end.

(** A decidable proposition about literals. *)
Ltac lit := apply (bool_decide_eq_true_1 _); vm_compute; reflexivity.

(** Case split on every boolean test and decision in sight. *)
Ltac split_ifs :=
  repeat match goal with
  | |- context [if decide ?P then _ else _] => destruct (decide P)
  | |- context [if ?b then _ else _] => let E := fresh "E" in destruct b eqn:E
  end.

Ltac zbool :=
  repeat match goal with
  | H : (_ =? _) = true |- _ => apply Z.eqb_eq in H
  | H : (_ =? _) = false |- _ => apply Z.eqb_neq in H
  | H : (_ <? _) = true |- _ => apply Z.ltb_lt in H
  | H : (_ <? _) = false |- _ => apply Z.ltb_ge in H
  | H : (_ <=? _) = true |- _ => apply Z.leb_le in H
  | H : (_ <=? _) = false |- _ => apply Z.leb_gt in H
  | H : (_ && _) = true |- _ => apply andb_true_iff in H as [??]
  | H : (_ || _) = false |- _ => apply orb_false_iff in H as [??]
  | H : negb _ = true |- _ => apply negb_true_iff in H
  | H : negb _ = false |- _ => apply negb_false_iff in H
  end.

(** ** Integers *)

Lemma testbit_above n x i : 0 <= x < 2 ^ n -> n <= i -> Z.testbit x i = false.
Proof.
  intros Hx Hi. destruct (decide (0 <= n)) as [Hn|Hn].
  - rewrite <- (Z.mod_small x (2 ^ n)) by lia. by apply Z.mod_pow2_bits_high.
  - rewrite Z.pow_neg_r in Hx by lia. lia.
Qed.

(** Joining a low field with a shifted high one is addition. *)
Lemma lor_shiftl_add a b n :
  0 <= n -> 0 <= a < 2 ^ n -> Z.lor a (Z.shiftl b n) = a + b * 2 ^ n.
Proof.
  intros Hn Ha. rewrite <- Z.shiftl_mul_pow2 by lia.
  rewrite Z.add_nocarry_lxor.
  - apply Z.bits_inj'. intros i Hi.
    rewrite Z.lor_spec, Z.lxor_spec, Z.shiftl_spec by lia.
    destruct (decide (i < n)).
    + rewrite (Z.testbit_neg_r b) by lia. by destruct (Z.testbit a i).
    + rewrite (testbit_above n a i) by lia. by destruct (Z.testbit b (i - n)).
  - apply Z.bits_inj'. intros i Hi.
    rewrite Z.land_spec, Z.shiftl_spec, Z.bits_0 by lia.
    destruct (decide (i < n)).
    + rewrite (Z.testbit_neg_r b) by lia. by rewrite andb_false_r.
    + by rewrite (testbit_above n a i) by lia.
Qed.

Lemma shiftl_lor_add a b n :
  0 <= n -> 0 <= a < 2 ^ n -> Z.lor (Z.shiftl b n) a = b * 2 ^ n + a.
Proof. intros. rewrite Z.lor_comm, lor_shiftl_add by done. lia. Qed.

(** Joining fields that do not overlap is addition. *)
Lemma lor_disjoint a b n :
  0 <= n -> 0 <= b < 2 ^ n -> a mod 2 ^ n = 0 -> Z.lor a b = a + b.
Proof.
  intros Hn Hb Ha. assert (a = Z.shiftl (a / 2 ^ n) n) as E.
  { rewrite Z.shiftl_mul_pow2 by lia. pose proof (Z.div_mod a (2 ^ n)). lia. }
  rewrite E at 1. rewrite shiftl_lor_add by lia. rewrite <- Z.shiftl_mul_pow2 by lia. by rewrite <- E.
Qed.

Lemma land_ones_mod x n : 0 <= n -> Z.land x (2 ^ n - 1) = x mod 2 ^ n.
Proof.
  intros. rewrite <- Z.land_ones by lia. f_equal. rewrite Z.ones_equiv. lia.
Qed.

(** ** Lists *)

Lemma len_nonneg {A} (l : list A) : 0 <= len l.
Proof. unfold len. lia. Qed.

Lemma len_app {A} (l1 l2 : list A) : len (l1 ++ l2) = len l1 + len l2.
Proof. unfold len. rewrite length_app. lia. Qed.

Lemma len_cons {A} (x : A) l : len (x :: l) = 1 + len l.
Proof. unfold len. simpl. lia. Qed.

Lemma len_nil {A} : len (@nil A) = 0.
Proof. done. Qed.

#[export] Hint Rewrite @len_app @len_cons @len_nil : go.

Lemma slice_app_l {A} (l1 l2 : list A) : slice (l1 ++ l2) 0 (len l1) = Some l1.
Proof.
  unfold slice. rewrite decide_True by (rewrite len_app; pose proof (len_nonneg l1);
    pose proof (len_nonneg l2); lia).
  rewrite drop_0, Z.sub_0_r. unfold len. rewrite Nat2Z.id. by rewrite take_app_length.
Qed.

Lemma slice_app_r {A} (l1 l2 : list A) :
  slice (l1 ++ l2) (len l1) (len (l1 ++ l2)) = Some l2.
Proof.
  unfold slice. rewrite decide_True by (rewrite len_app; pose proof (len_nonneg l1);
    pose proof (len_nonneg l2); lia).
  rewrite len_app. replace (len l1 + len l2 - len l1) with (len l2) by lia.
  unfold len. rewrite !Nat2Z.id, drop_app_length. by rewrite firstn_all.
Qed.

Lemma slice_mid {A} (l1 l2 l3 : list A) lo hi :
  lo = len l1 -> hi = len l1 + len l2 -> slice (l1 ++ l2 ++ l3) lo hi = Some l2.
Proof.
  intros -> ->. pose proof (len_nonneg l1). pose proof (len_nonneg l2). pose proof (len_nonneg l3).
  unfold slice. rewrite decide_True by (rewrite !len_app; lia).
  replace (len l1 + len l2 - len l1) with (len l2) by lia.
  unfold len. by rewrite !Nat2Z.id, drop_app_length, take_app_length.
Qed.

Lemma slice_end {A} (l1 l2 : list A) lo hi :
  lo = len l1 -> hi = len l1 + len l2 -> slice (l1 ++ l2) lo hi = Some l2.
Proof. intros. rewrite <- (app_nil_r l2) at 1. by apply slice_mid. Qed.

Lemma index_mid {A} (l1 l2 : list A) x i : i = len l1 -> index (l1 ++ x :: l2) i = Some x.
Proof.
  intros ->. unfold index. rewrite decide_True by apply len_nonneg.
  unfold len. rewrite Nat2Z.id. by apply list_lookup_middle.
Qed.

Lemma slice_length {A} (l : list A) lo hi r : slice l lo hi = Some r -> len r = hi - lo.
Proof.
  unfold slice. case_decide as H; [|done]. intros [= <-].
  unfold len in *. rewrite length_take, length_drop. lia.
Qed.

Lemma str_bytes_ok s : bytes_ok (str s).
Proof.
  induction s as [|a s IH]; simpl; constructor; auto.
  unfold is_byte, ascii_byte. pose proof (N_ascii_bounded a). lia.
Qed.
#[export] Hint Resolve str_bytes_ok : go.

Lemma index_Some {A} (l : list A) i x :
  0 <= i -> l !! Z.to_nat i = Some x -> index l i = Some x.
Proof. intros. unfold index. by rewrite decide_True. Qed.

Lemma index_None {A} (l : list A) i : len l <= i -> index l i = None.
Proof.
  unfold index, len. intros. case_decide; [|done]. apply lookup_ge_None. lia.
Qed.

Lemma update_Some {A} (l : list A) i x :
  0 <= i < len l -> update l i x = Some (<[Z.to_nat i := x]> l).
Proof. intros. unfold update. by rewrite decide_True. Qed.

(** Evaluate indexing and updating of a list whose first cells are explicit. *)
Ltac go_len :=
  autorewrite with go; repeat match goal with
  | |- context [len ?l] =>
      lazymatch goal with
      | _ : 0 <= len l |- _ => fail
      | _ => pose proof (len_nonneg l)
      end
  end; try lia.
Ltac go_index :=
  repeat first
    [ rewrite index_None by (unfold len; simpl; lia)
    | erewrite index_Some by first [lia | reflexivity]
    | rewrite update_Some by go_len
    | progress simpl ].

(** Assembling an integer from its bytes, least significant first. *)
Lemma byte_join v k :
  0 <= k -> Z.lor (v mod 2 ^ k) (Z.shiftl (u8 (Z.shiftr v k)) k) = v mod 2 ^ (k + 8).
Proof.
  intros Hk. unfold u8. apply Z.bits_inj'. intros i Hi.
  rewrite Z.lor_spec, Z.shiftl_spec by lia.
  destruct (decide (i < k)) as [H1|H1].
  { rewrite (Z.mod_pow2_bits_low v k), (Z.mod_pow2_bits_low v (k + 8)) by lia.
    rewrite (Z.testbit_neg_r _ (i - k)) by lia. by rewrite orb_false_r. }
  rewrite (Z.mod_pow2_bits_high v k) by lia. simpl.
  destruct (decide (i < k + 8)).
  - rewrite !Z.mod_pow2_bits_low, Z.shiftr_spec by lia. f_equal. lia.
  - by rewrite !Z.mod_pow2_bits_high by lia.
Qed.

Lemma byte_split_high x b k :
  0 <= k -> 0 <= x < 2 ^ k -> is_byte b -> u8 (Z.shiftr (Z.lor x (Z.shiftl b k)) k) = b.
Proof.
  intros. unfold u8. rewrite Z.shiftr_lor, Z.shiftr_shiftl_l by lia.
  rewrite Z.sub_diag, Z.shiftl_0_r, Z.shiftr_div_pow2, Z.div_small by lia.
  rewrite Z.lor_0_l. apply Z.mod_small. by change (2 ^ 8) with 256.
Qed.

Lemma byte_split_low x b k j :
  0 <= j -> j + 8 <= k ->
  u8 (Z.shiftr (Z.lor x (Z.shiftl b k)) j) = u8 (Z.shiftr x j).
Proof.
  intros. unfold u8. apply Z.bits_inj'. intros i Hi.
  destruct (decide (i < 8)).
  - rewrite !Z.mod_pow2_bits_low, !Z.shiftr_spec, Z.lor_spec, Z.shiftl_spec by lia.
    rewrite (Z.testbit_neg_r b) by lia. by rewrite orb_false_r.
  - by rewrite !Z.mod_pow2_bits_high by lia.
Qed.

Lemma byte_join_bound x b k :
  0 <= k -> 0 <= x < 2 ^ k -> is_byte b -> 0 <= Z.lor x (Z.shiftl b k) < 2 ^ (k + 8).
Proof.
  unfold is_byte. intros. rewrite lor_shiftl_add by lia.
  rewrite Z.pow_add_r by lia. change (2 ^ 8) with 256. nia.
Qed.

Lemma u8_byte b : is_byte b -> u8 b = b.
Proof. unfold is_byte, u8. intros. apply Z.mod_small. by change (2 ^ 8) with 256. Qed.

Lemma u8_is_byte x : is_byte (u8 x).
Proof. unfold is_byte, u8. change (2 ^ 8) with 256. zlia. Qed.
#[export] Hint Resolve u8_is_byte : go.

Lemma byte_enum (P : Z -> bool) :
  forallb P (seqZ 0 256) = true -> forall b, is_byte b -> P b = true.
Proof.
  intros H b Hb. rewrite forallb_forall in H. apply H, list_elem_of_In, elem_of_seqZ.
  unfold is_byte in Hb. lia.
Qed.

(** ** Errors

    The error values that the modelled functions return.  ParseAddrNested is a
    netip.parseAddrError whose message is the text of another error.  A message that
    is put together is kept as its parts: [inl] for text and [inr] for what goes
    through strconv.Quote; ParsePrefixNested is the message of ParsePrefix that ends
    in the text of another error. *)
Inductive error : Type :=
  | EOF
  | ErrUnexpectedEOF
  | ErrShortBuffer
  | errOverflow
  | AddrError (why addr : gostring)
  | ParseAddrError (inp msg at_ : gostring)
  | ParseAddrNested (inp : gostring) (e : error) (at_ : gostring)
  | DNSError (msg name : gostring)
  | QuotedError (parts : list (gostring + gostring))
  | ParsePrefixNested (inp : gostring) (e : error)
  | EscapeError (s : gostring)
  | InvalidHostError (s : gostring)
  | UrlError (op url : gostring) (err : error)
  | ErrNoProgress
  | ErrBufferFull
  | ErrNegativeCount
  | ErrInvalidUnreadByte
  | ErrInvalidUnreadRune
  | errMessageTooLarge
  | ProtocolError (parts : list (gostring + gostring))
  | unsupportedTEError (parts : list (gostring + gostring))
  | badRequestError (msg : gostring)
  | statusError (code : Z) (text : gostring)
  | OtherError (msg : gostring).

#[global] Instance error_eq_dec : EqDecision error.
Proof. solve_decision. Defined.

(** A Go result: a value, or the error returned in its place. *)
Inductive result (A : Type) : Type :=
  | Ok (a : A)
  | Err (e : error).
Arguments Ok {A} a.
Arguments Err {A} e.

(** [x, err := e; if err != nil { return err }; k] *)
Notation "'try' x ':=' e 'in' k" := (match e with Ok x => k | Err err => Err err end)
  (at level 200, x pattern, right associativity) : go_scope.
