(* ===== verification/ByteOrder.v ===== *)
(** * encoding/binary: the byte orders

    [tools/go-patched/src/encoding/binary/binary.go], the methods of
    [littleEndian] and [bigEndian].  The proxy reads and writes every header
    field of its protocol through [binary.BigEndian]. *)

From S2P Require Import Prelude.
Local Open Scope go_scope.

(** ** The interface [ByteOrder] (and [AppendByteOrder]) *)
Class ByteOrder : Type := {
  Uint16 : gobytes -> option Z;
  Uint32 : gobytes -> option Z;
  Uint64 : gobytes -> option Z;
  PutUint16 : gobytes -> Z -> option gobytes;
  PutUint32 : gobytes -> Z -> option gobytes;
  PutUint64 : gobytes -> Z -> option gobytes;
  AppendUint16 : gobytes -> Z -> gobytes;
  AppendUint32 : gobytes -> Z -> gobytes;
  AppendUint64 : gobytes -> Z -> gobytes;
}.

(** ** Operations

    [None] is the panic of the bounds check; [PutUintN] returns the slice
    after the assignments. *)
Module LittleEndian.

Definition Uint16 (b : gobytes) : option Z :=
  _ ← index b 1;
  b0 ← index b 0; b1 ← index b 1;
  Some (b0 .| b1 << 8).

Definition PutUint16 (b : gobytes) (v : Z) : option gobytes :=
  _ ← index b 1;
  b ← update b 0 (u8 v);
  update b 1 (u8 (v >> 8)).

Definition AppendUint16 (b : gobytes) (v : Z) : gobytes :=
  b ++ [u8 v; u8 (v >> 8)].

Definition Uint32 (b : gobytes) : option Z :=
  _ ← index b 3;
  b0 ← index b 0; b1 ← index b 1; b2 ← index b 2; b3 ← index b 3;
  Some (b0 .| b1 << 8 .| b2 << 16 .| b3 << 24).

Definition PutUint32 (b : gobytes) (v : Z) : option gobytes :=
  _ ← index b 3;
  b ← update b 0 (u8 v);
  b ← update b 1 (u8 (v >> 8));
  b ← update b 2 (u8 (v >> 16));
  update b 3 (u8 (v >> 24)).

Definition AppendUint32 (b : gobytes) (v : Z) : gobytes :=
  b ++ [u8 v; u8 (v >> 8); u8 (v >> 16); u8 (v >> 24)].

Definition Uint64 (b : gobytes) : option Z :=
  _ ← index b 7;
  b0 ← index b 0; b1 ← index b 1; b2 ← index b 2; b3 ← index b 3;
  b4 ← index b 4; b5 ← index b 5; b6 ← index b 6; b7 ← index b 7;
  Some (b0 .| b1 << 8 .| b2 << 16 .| b3 << 24 .|
        b4 << 32 .| b5 << 40 .| b6 << 48 .| b7 << 56).

Definition PutUint64 (b : gobytes) (v : Z) : option gobytes :=
  _ ← index b 7;
  b ← update b 0 (u8 v);
  b ← update b 1 (u8 (v >> 8));
  b ← update b 2 (u8 (v >> 16));
  b ← update b 3 (u8 (v >> 24));
  b ← update b 4 (u8 (v >> 32));
  b ← update b 5 (u8 (v >> 40));
  b ← update b 6 (u8 (v >> 48));
  update b 7 (u8 (v >> 56)).

Definition AppendUint64 (b : gobytes) (v : Z) : gobytes :=
  b ++ [u8 v; u8 (v >> 8); u8 (v >> 16); u8 (v >> 24);
        u8 (v >> 32); u8 (v >> 40); u8 (v >> 48); u8 (v >> 56)].

End LittleEndian.

Module BigEndian.

Definition Uint16 (b : gobytes) : option Z :=
  _ ← index b 1;
  b0 ← index b 0; b1 ← index b 1;
  Some (b1 .| b0 << 8).

Definition PutUint16 (b : gobytes) (v : Z) : option gobytes :=
  _ ← index b 1;
  b ← update b 0 (u8 (v >> 8));
  update b 1 (u8 v).

Definition AppendUint16 (b : gobytes) (v : Z) : gobytes :=
  b ++ [u8 (v >> 8); u8 v].

Definition Uint32 (b : gobytes) : option Z :=
  _ ← index b 3;
  b0 ← index b 0; b1 ← index b 1; b2 ← index b 2; b3 ← index b 3;
  Some (b3 .| b2 << 8 .| b1 << 16 .| b0 << 24).

Definition PutUint32 (b : gobytes) (v : Z) : option gobytes :=
  _ ← index b 3;
  b ← update b 0 (u8 (v >> 24));
  b ← update b 1 (u8 (v >> 16));
  b ← update b 2 (u8 (v >> 8));
  update b 3 (u8 v).

Definition AppendUint32 (b : gobytes) (v : Z) : gobytes :=
  b ++ [u8 (v >> 24); u8 (v >> 16); u8 (v >> 8); u8 v].

Definition Uint64 (b : gobytes) : option Z :=
  _ ← index b 7;
  b0 ← index b 0; b1 ← index b 1; b2 ← index b 2; b3 ← index b 3;
  b4 ← index b 4; b5 ← index b 5; b6 ← index b 6; b7 ← index b 7;
  Some (b7 .| b6 << 8 .| b5 << 16 .| b4 << 24 .|
        b3 << 32 .| b2 << 40 .| b1 << 48 .| b0 << 56).

Definition PutUint64 (b : gobytes) (v : Z) : option gobytes :=
  _ ← index b 7;
  b ← update b 0 (u8 (v >> 56));
  b ← update b 1 (u8 (v >> 48));
  b ← update b 2 (u8 (v >> 40));
  b ← update b 3 (u8 (v >> 32));
  b ← update b 4 (u8 (v >> 24));
  b ← update b 5 (u8 (v >> 16));
  b ← update b 6 (u8 (v >> 8));
  update b 7 (u8 v).

Definition AppendUint64 (b : gobytes) (v : Z) : gobytes :=
  b ++ [u8 (v >> 56); u8 (v >> 48); u8 (v >> 40); u8 (v >> 32);
        u8 (v >> 24); u8 (v >> 16); u8 (v >> 8); u8 v].

End BigEndian.

#[export] Instance littleEndian : ByteOrder := {
  Uint16 := LittleEndian.Uint16; Uint32 := LittleEndian.Uint32;
  Uint64 := LittleEndian.Uint64; PutUint16 := LittleEndian.PutUint16;
  PutUint32 := LittleEndian.PutUint32; PutUint64 := LittleEndian.PutUint64;
  AppendUint16 := LittleEndian.AppendUint16;
  AppendUint32 := LittleEndian.AppendUint32;
  AppendUint64 := LittleEndian.AppendUint64 }.

#[export] Instance bigEndian : ByteOrder := {
  Uint16 := BigEndian.Uint16; Uint32 := BigEndian.Uint32;
  Uint64 := BigEndian.Uint64; PutUint16 := BigEndian.PutUint16;
  PutUint32 := BigEndian.PutUint32; PutUint64 := BigEndian.PutUint64;
  AppendUint16 := BigEndian.AppendUint16;
  AppendUint32 := BigEndian.AppendUint32;
  AppendUint64 := BigEndian.AppendUint64 }.

(** ** What the interface promises

    For each width [n]: appending and putting produce the same [n] bytes,
    reading them gives the integer back, reading is a left inverse that
    ignores what follows, and a short slice panics. *)
Class ByteOrderLaws (o : ByteOrder) : Prop := {
  Uint16_Append v rest :
    is_u16 v -> Uint16 (AppendUint16 [] v ++ rest) = Some v;
  Uint32_Append v rest :
    is_u32 v -> Uint32 (AppendUint32 [] v ++ rest) = Some v;
  Uint64_Append v rest :
    is_u64 v -> Uint64 (AppendUint64 [] v ++ rest) = Some v;
  PutUint16_Append b v :
    2 <= len b -> PutUint16 b v = Some (AppendUint16 [] v ++ drop 2 b);
  PutUint32_Append b v :
    4 <= len b -> PutUint32 b v = Some (AppendUint32 [] v ++ drop 4 b);
  PutUint64_Append b v :
    8 <= len b -> PutUint64 b v = Some (AppendUint64 [] v ++ drop 8 b);
  Append_Uint16 b v :
    bytes_ok b -> Uint16 b = Some v -> is_u16 v /\ AppendUint16 [] v = take 2 b;
  Append_Uint32 b v :
    bytes_ok b -> Uint32 b = Some v -> is_u32 v /\ AppendUint32 [] v = take 4 b;
  Append_Uint64 b v :
    bytes_ok b -> Uint64 b = Some v -> is_u64 v /\ AppendUint64 [] v = take 8 b;
  Uint16_short b : len b < 2 <-> Uint16 b = None;
  Uint32_short b : len b < 4 <-> Uint32 b = None;
  Uint64_short b : len b < 8 <-> Uint64 b = None;
  AppendUint16_app b v : AppendUint16 b v = b ++ AppendUint16 [] v;
  AppendUint32_app b v : AppendUint32 b v = b ++ AppendUint32 [] v;
  AppendUint64_app b v : AppendUint64 b v = b ++ AppendUint64 [] v;
  AppendUint_length v :
    length (AppendUint16 [] v) = 2%nat /\ length (AppendUint32 [] v) = 4%nat /\
    length (AppendUint64 [] v) = 8%nat;
}.

(** ** Proof of the laws *)

Lemma u8_mod v : u8 v = v mod 2 ^ 8.
Proof. done. Qed.

(** A chain of [byte_join]s from [u8 v] upwards. *)
Ltac join_bytes v :=
  rewrite (u8_mod v);
  repeat match goal with
  | |- context [Z.lor (v mod 2 ^ ?k) _] =>
      rewrite (byte_join v k) by lia;
      let k' := eval vm_compute in (k + 8) in change (k + 8) with k'
  end;
  rewrite Z.mod_small; [reflexivity | assumption].

(** Expose the first cells of a slice that is long enough, or conclude that it
    is short. *)
Ltac cells n b :=
  lazymatch n with
  | O => idtac
  | S ?m => destruct b as [|? b]; [|cells m b]
  end.

(** The bytes of a joined integer, most significant first. *)
Ltac split_bytes :=
  repeat first
    [ rewrite byte_split_high by (first [lia | assumption | (repeat apply byte_join_bound;
        first [lia | assumption])])
    | rewrite byte_split_low by lia ].

Ltac bytes_hyps :=
  repeat match goal with
  | H : Forall is_byte (_ :: _) |- _ => apply Forall_cons_1 in H as [? H]
  end.

Lemma lor2_bound a b : is_byte a -> is_byte b -> 0 <= Z.lor a (Z.shiftl b 8) < 2 ^ 16.
Proof. intros. apply (byte_join_bound a b 8); [lia|assumption|assumption]. Qed.

Lemma lor4_bound a b c d :
  is_byte a -> is_byte b -> is_byte c -> is_byte d ->
  0 <= Z.lor (Z.lor (Z.lor a (Z.shiftl b 8)) (Z.shiftl c 16)) (Z.shiftl d 24) < 2 ^ 32.
Proof.
  intros. apply (byte_join_bound _ d 24); [lia| |assumption].
  apply (byte_join_bound _ c 16); [lia| |assumption]. by apply lor2_bound.
Qed.

Lemma lor8_bound a b c d e f g h :
  is_byte a -> is_byte b -> is_byte c -> is_byte d ->
  is_byte e -> is_byte f -> is_byte g -> is_byte h ->
  0 <= Z.lor (Z.lor (Z.lor (Z.lor (Z.lor (Z.lor (Z.lor a (Z.shiftl b 8)) (Z.shiftl c 16))
    (Z.shiftl d 24)) (Z.shiftl e 32)) (Z.shiftl f 40)) (Z.shiftl g 48)) (Z.shiftl h 56)
  < 2 ^ 64.
Proof.
  intros. apply (byte_join_bound _ h 56); [lia| |assumption].
  apply (byte_join_bound _ g 48); [lia| |assumption].
  apply (byte_join_bound _ f 40); [lia| |assumption].
  apply (byte_join_bound _ e 32); [lia| |assumption]. by apply lor4_bound.
Qed.

(** The [k]-th byte of [a | b<<8], of the four- and of the eight-byte chain. *)
Lemma lor2_bytes a b :
  is_byte a -> is_byte b ->
  let v := Z.lor a (Z.shiftl b 8) in u8 v = a /\ u8 (Z.shiftr v 8) = b.
Proof.
  intros Ha Hb v. split.
  - unfold v. rewrite <- (Z.shiftr_0_r (Z.lor _ _)), byte_split_low, Z.shiftr_0_r by lia.
    by apply u8_byte.
  - apply byte_split_high; [lia | assumption | assumption].
Qed.

Lemma lor_low_bytes x b k j :
  0 <= j -> j + 8 <= k ->
  u8 (Z.shiftr (Z.lor x (Z.shiftl b k)) j) = u8 (Z.shiftr x j)
  /\ u8 (Z.lor x (Z.shiftl b k)) = u8 x.
Proof.
  intros. split; [by apply byte_split_low|].
  rewrite <- (Z.shiftr_0_r (Z.lor _ _)), byte_split_low by lia. by rewrite Z.shiftr_0_r.
Qed.

Lemma lor4_bytes a b c d :
  is_byte a -> is_byte b -> is_byte c -> is_byte d ->
  let v := Z.lor (Z.lor (Z.lor a (Z.shiftl b 8)) (Z.shiftl c 16)) (Z.shiftl d 24) in
  u8 v = a /\ u8 (Z.shiftr v 8) = b /\ u8 (Z.shiftr v 16) = c /\ u8 (Z.shiftr v 24) = d.
Proof.
  intros Ha Hb Hc Hd v. unfold v.
  destruct (lor2_bytes a b Ha Hb) as [E1 E2]. pose proof (lor2_bound a b Ha Hb).
  pose proof (byte_join_bound _ c 16 ltac:(lia) H Hc).
  repeat split.
  - rewrite (proj2 (lor_low_bytes _ d 24 0 ltac:(lia) ltac:(lia))).
    by rewrite (proj2 (lor_low_bytes _ c 16 0 ltac:(lia) ltac:(lia))).
  - by rewrite !byte_split_low by lia.
  - rewrite byte_split_low by lia. apply byte_split_high; [lia|assumption..].
  - apply byte_split_high; [lia|assumption..].
Qed.

Lemma lor8_bytes a b c d e f g h :
  is_byte a -> is_byte b -> is_byte c -> is_byte d ->
  is_byte e -> is_byte f -> is_byte g -> is_byte h ->
  let v := Z.lor (Z.lor (Z.lor (Z.lor (Z.lor (Z.lor (Z.lor a (Z.shiftl b 8))
    (Z.shiftl c 16)) (Z.shiftl d 24)) (Z.shiftl e 32)) (Z.shiftl f 40)) (Z.shiftl g 48))
    (Z.shiftl h 56) in
  u8 v = a /\ u8 (Z.shiftr v 8) = b /\ u8 (Z.shiftr v 16) = c /\ u8 (Z.shiftr v 24) = d /\
  u8 (Z.shiftr v 32) = e /\ u8 (Z.shiftr v 40) = f /\ u8 (Z.shiftr v 48) = g /\
  u8 (Z.shiftr v 56) = h.
Proof.
  intros Ha Hb Hc Hd He Hf Hg Hh v. unfold v.
  destruct (lor4_bytes a b c d Ha Hb Hc Hd) as (E1 & _).
  pose proof (lor2_bound a b Ha Hb) as B2.
  pose proof (byte_join_bound _ c 16 ltac:(lia) B2 Hc) as B3.
  pose proof (lor4_bound a b c d Ha Hb Hc Hd) as B4.
  pose proof (byte_join_bound _ e 32 ltac:(lia) B4 He) as B5.
  pose proof (byte_join_bound _ f 40 ltac:(lia) B5 Hf) as B6.
  pose proof (byte_join_bound _ g 48 ltac:(lia) B6 Hg) as B7.
  repeat split.
  1: rewrite (proj2 (lor_low_bytes _ h 56 0 ltac:(lia) ltac:(lia))),
       (proj2 (lor_low_bytes _ g 48 0 ltac:(lia) ltac:(lia))),
       (proj2 (lor_low_bytes _ f 40 0 ltac:(lia) ltac:(lia))),
       (proj2 (lor_low_bytes _ e 32 0 ltac:(lia) ltac:(lia))); exact E1.
  all: rewrite ?byte_split_low by lia; apply byte_split_high; [lia|assumption..].
Qed.

(** Both byte orders satisfy the laws; the proofs differ only in which end the
    chain starts from. *)
Ltac law_append :=
  intros v ? ?; go_index; f_equal; join_bytes v.
Ltac law_short n :=
  let b := fresh "b" in let E := fresh "E" in
  intros b; cells n b; split; intros E; try (autorewrite with go; lia);
  try (exfalso; autorewrite with go in E; pose proof (len_nonneg b); lia);
  first [go_index; reflexivity | exfalso; revert E; go_index; discriminate].
Ltac law_put n :=
  let b := fresh "b" in
  intros b ? ?; cells n b; try (exfalso; autorewrite with go in *; lia);
  go_index; reflexivity.
Ltac law_read n bound :=
  let b := fresh "b" in let E := fresh "E" in
  intros b ? ? E; cells n b; revert E; go_index; try discriminate;
  intros [= <-]; bytes_hyps; split; [by apply bound|].

Ltac solve_laws :=
  split; simpl;
  unfold BigEndian.Uint16, BigEndian.Uint32, BigEndian.Uint64,
    BigEndian.PutUint16, BigEndian.PutUint32, BigEndian.PutUint64,
    BigEndian.AppendUint16, BigEndian.AppendUint32, BigEndian.AppendUint64,
    LittleEndian.Uint16, LittleEndian.Uint32, LittleEndian.Uint64,
    LittleEndian.PutUint16, LittleEndian.PutUint32, LittleEndian.PutUint64,
    LittleEndian.AppendUint16, LittleEndian.AppendUint32, LittleEndian.AppendUint64;
  [ law_append | law_append | law_append
  | law_put 2%nat | law_put 4%nat | law_put 8%nat
  | law_read 2%nat lor2_bound;
    edestruct lor2_bytes as (-> & ->); [eassumption..|reflexivity]
  | law_read 4%nat lor4_bound;
    edestruct lor4_bytes as (-> & -> & -> & ->); [eassumption..|reflexivity]
  | law_read 8%nat lor8_bound;
    edestruct lor8_bytes as (-> & -> & -> & -> & -> & -> & -> & ->);
    [eassumption..|reflexivity]
  | law_short 2%nat | law_short 4%nat | law_short 8%nat
  | done | done | done | done ].

#[export] Instance littleEndian_laws : ByteOrderLaws littleEndian.
Proof. solve_laws. Qed.

#[export] Instance bigEndian_laws : ByteOrderLaws bigEndian.
Proof. solve_laws. Qed.

(** Reading an integer in one order and the reversed bytes in the other. *)
Lemma byte_order_reverse v :
  BigEndian.AppendUint32 [] v = reverse (LittleEndian.AppendUint32 [] v) /\
  BigEndian.AppendUint64 [] v = reverse (LittleEndian.AppendUint64 [] v).
Proof. done. Qed.

(** ** Claims *)

(** A family of accessors for [w]-byte integers, and what makes it a codec:
    storing needs [w] bytes of room, writes only them, and is read back; a short
    slice panics both ways; appending writes the same [w] bytes; and a value that
    was read is the one whose bytes are there. *)
Definition codec (w : nat) (get : gobytes -> option Z)
    (put : gobytes -> Z -> option gobytes) (app : gobytes -> Z -> gobytes) : Prop :=
  (forall b, len b < Z.of_nat w -> get b = None) /\
  (forall b v, 0 <= v < 2 ^ (8 * Z.of_nat w) -> Z.of_nat w <= len b ->
     exists b', put b v = Some b' /\ length b' = length b /\ drop w b' = drop w b /\
       get b' = Some v /\ app [] v = take w b') /\
  (forall b v, app b v = b ++ app [] v) /\
  (forall b v, bytes_ok b -> get b = Some v -> app [] v = take w b).

Lemma codec_of_laws (w : nat) get put app :
  (forall v rest, 0 <= v < 2 ^ (8 * Z.of_nat w) -> get (app [] v ++ rest) = Some v) ->
  (forall b v, Z.of_nat w <= len b -> put b v = Some (app [] v ++ drop w b)) ->
  (forall b v, app b v = b ++ app [] v) ->
  (forall b v, bytes_ok b -> get b = Some v -> app [] v = take w b) ->
  (forall b, len b < Z.of_nat w -> get b = None) ->
  (forall v, length (app [] v) = w) ->
  codec w get put app.
Proof.
  intros Hget Hput Happ Hinj Hshort Hlen. split_and!; [done| |done..].
  intros b v Hv Hb. exists (app [] v ++ drop w b). rewrite length_app, length_drop, Hlen.
  unfold len in Hb. split_and!.
  - by apply Hput.
  - lia.
  - by rewrite drop_app_ge, Hlen, Nat.sub_diag, drop_0 by (by rewrite Hlen).
  - by apply Hget.
  - rewrite take_app_le by (rewrite Hlen; lia). by rewrite take_ge by (rewrite Hlen; lia).
Qed.

Lemma codecs_of_laws (o : ByteOrder) :
  ByteOrderLaws o ->
  codec 2 Uint16 PutUint16 AppendUint16 /\
  codec 4 Uint32 PutUint32 AppendUint32 /\
  codec 8 Uint64 PutUint64 AppendUint64.
Proof.
  intros Ho. split_and!; apply codec_of_laws;
    eauto using Uint16_Append, Uint32_Append, Uint64_Append, PutUint16_Append, PutUint32_Append,
      PutUint64_Append, AppendUint16_app, AppendUint32_app, AppendUint64_app;
    try (intros; apply AppendUint_length);
    try (intros b v Hb Hv; by apply Append_Uint16 || by apply Append_Uint32 || by apply Append_Uint64);
    intros b; first [apply Uint16_short | apply Uint32_short | apply Uint64_short].
Qed.

(** Both byte orders of encoding/binary are codecs at 16, 32 and 64 bits:
    what PutUintN stores, UintN reads back, AppendUintN appends the same bytes,
    nothing else of the buffer changes, and a slice that is too short panics. *)
Theorem byte_order_codecs :
  codec 2 LittleEndian.Uint16 LittleEndian.PutUint16 LittleEndian.AppendUint16 /\
  codec 4 LittleEndian.Uint32 LittleEndian.PutUint32 LittleEndian.AppendUint32 /\
  codec 8 LittleEndian.Uint64 LittleEndian.PutUint64 LittleEndian.AppendUint64 /\
  codec 2 BigEndian.Uint16 BigEndian.PutUint16 BigEndian.AppendUint16 /\
  codec 4 BigEndian.Uint32 BigEndian.PutUint32 BigEndian.AppendUint32 /\
  codec 8 BigEndian.Uint64 BigEndian.PutUint64 BigEndian.AppendUint64.
Proof.
  destruct (codecs_of_laws littleEndian _) as (? & ? & ?).
  destruct (codecs_of_laws bigEndian _) as (? & ? & ?). done.
Qed.
