(* ===== verification/GoIO.v ===== *)
(** * io: readers, ReadAtLeast and ReadFull

    [tools/go-patched/src/io/io.go], and the byte reader that the proxy wraps
    around a stream ([proxy/main.go], [byteReader]).  A WebTransport stream is
    third-party code: the functions below are stated for any reader, and
    [stream] is the reader used to run them, a byte stream that arrives cut in
    arbitrary chunks. *)

From S2P Require Import Prelude.

(** ** Interfaces

    [Read r n] is [r.Read(p)] with [len(p) = n]: the bytes it stored in [p]
    (their number is the returned count) and the error. *)
Class Reader (R : Type) : Type :=
  Read : R -> Z -> R * (gobytes * option error).

Class ByteReader (R : Type) : Type :=
  ReadByte : R -> R * (Z * option error).

(** What a caller relies on: no more bytes than asked for, and a bound on the
    number of reads that neither fill the buffer nor report an error. *)
Class ReaderLaws (R : Type) `{Reader R} : Type := {
  reads_left : R -> nat;
  Read_len r n r' d e : 0 <= n -> Read r n = (r', (d, e)) -> len d <= n;
  Read_progress r n r' d :
    Read r n = (r', (d, None)) -> len d < n -> (reads_left r' < reads_left r)%nat;
}.

(** ** ReadAtLeast and ReadFull *)
Section ReadAtLeast.
Context {R : Type} `{Reader R}.

(** The loop [for n < min && err == nil]; [acc] is [buf[:n]].  [None] is
    exhausted fuel. *)
Fixpoint ReadAtLeast_loop (fuel : nat) (r : R) (acc : gobytes) (err : option error)
    (buflen min : Z) : option (R * (gobytes * option error)) :=
  match fuel with
  | O => None
  | S fuel =>
      if (len acc <? min) && bool_decide (err = None) then
        let '(r, (d, err)) := Read r (buflen - len acc) in
        ReadAtLeast_loop fuel r (acc ++ d) err buflen min
      else Some (r, (acc, err))
  end.

Definition ReadAtLeast (fuel : nat) (r : R) (buflen min : Z)
    : option (R * (gobytes * option error)) :=
  if buflen <? min then Some (r, ([], Some ErrShortBuffer)) else
  '(r, (d, err)) ← ReadAtLeast_loop fuel r [] None buflen min;
  let err :=
    if min <=? len d then None
    else if (0 <? len d) && bool_decide (err = Some EOF) then Some ErrUnexpectedEOF
    else err in
  Some (r, (d, err)).

Definition ReadFull (fuel : nat) (r : R) (buflen : Z)
    : option (R * (gobytes * option error)) :=
  ReadAtLeast fuel r buflen buflen.

Context `{!ReaderLaws R}.

(** Enough fuel for a reader: one more than the reads it may still need. *)
Definition fuel_for (r : R) : nat := S (S (reads_left r)).

Lemma ReadAtLeast_loop_spec fuel r acc err buflen min :
  len acc <= buflen -> min <= buflen ->
  (err = None -> (S (reads_left r) < fuel)%nat) -> (0 < fuel)%nat ->
  exists r' d e,
    ReadAtLeast_loop fuel r acc err buflen min = Some (r', (acc ++ d, e)) /\
    len (acc ++ d) <= buflen /\ (len (acc ++ d) < min -> e <> None).
Proof.
  revert r acc err. induction fuel as [|fuel IH]; [lia|].
  intros r acc err Hacc Hmin Hf _. simpl.
  destruct (len acc <? min) eqn:Hlt; simpl; zbool.
  2:{ exists r, [], err. rewrite app_nil_r. split_and!; [done..|intros; lia]. }
  case_bool_decide as He.
  2:{ exists r, [], err. rewrite app_nil_r. by split_and!. }
  subst err. destruct (Read r (buflen - len acc)) as [r1 [d e]] eqn:HR.
  pose proof (Read_len r (buflen - len acc) _ _ _ ltac:(lia) HR) as Hl.
  destruct fuel as [|fuel]; [specialize (Hf eq_refl); lia|].
  destruct (decide (e = None)) as [->|He].
  - destruct (decide (len (acc ++ d) < min)) as [Hs|Hs].
    + pose proof (Read_progress _ _ _ _ HR) as Hp.
      destruct (IH r1 (acc ++ d) None) as (r' & d' & e' & -> & ? & ?).
      * rewrite len_app. lia.
      * done.
      * intros _. specialize (Hf eq_refl). rewrite len_app in Hs. specialize (Hp ltac:(lia)). lia.
      * lia.
      * exists r', (d ++ d'), e'. by rewrite app_assoc.
    + exists r1, d, None. simpl. rewrite (proj2 (Z.ltb_ge _ _)) by lia. simpl.
      rewrite len_app in *. split_and!; [done|lia..].
  - exists r1, d, e. simpl. rewrite bool_decide_false by done. rewrite andb_false_r.
    rewrite len_app. split_and!; [done|lia|done].
Qed.

(** The documented contract: it returns; [n >= min] exactly when the error is
    nil (for a buffer of at least [min]); the error is EOF only when nothing was
    read. *)
Lemma ReadAtLeast_spec r buflen min :
  0 <= min <= buflen ->
  exists r' d e,
    ReadAtLeast (fuel_for r) r buflen min = Some (r', (d, e)) /\
    len d <= buflen /\ (e = None <-> min <= len d) /\ (e = Some EOF -> d = []).
Proof.
  intros Hm. unfold ReadAtLeast. rewrite (proj2 (Z.ltb_ge _ _)) by lia.
  destruct (ReadAtLeast_loop_spec (fuel_for r) r [] None buflen min)
    as (r' & d & e & -> & Hle & He); unfold fuel_for; [rewrite len_nil; lia|lia..|].
  simpl. eexists _, _, _. split; [done|]. simpl in *. split; [done|].
  destruct (min <=? len d) eqn:E1; zbool.
  { split; [by split|done]. }
  specialize (He E1).
  destruct (0 <? len d) eqn:E2; zbool; simpl.
  - case_bool_decide as E3; split; try split; try done; try lia; congruence.
  - split; [split; [done|lia]|]. intros _. destruct d; [done|].
    rewrite len_cons in E2. pose proof (len_nonneg d). lia.
Qed.

End ReadAtLeast.

(** ** byteReader (proxy/main.go)

    [ReadByte] reads into a one-byte array and returns its cell: the count that
    [Read] returns is not looked at. *)
Record byteReader (R : Type) := byteReader_of { inner : R }.
Arguments byteReader_of {R} inner.
Arguments inner {R} _.

#[export] Instance byteReader_ReadByte {R} `{Reader R} : ByteReader (byteReader R) :=
  fun b =>
    let '(r, (d, err)) := Read (inner b) 1 in
    (byteReader_of r, (default 0 (head d), err)).

(** ** A concrete reader: a stream that arrives in chunks

    [with_last]: whether the final error comes with the last chunk or alone in
    a later read; both are allowed by the contract of [io.Reader]. *)
Record stream := mk_stream {
  chunks : list gobytes;
  fin : error;
  with_last : bool;
}.

#[export] Instance stream_Reader : Reader stream := fun s n =>
  match chunks s with
  | [] => (s, ([], Some (fin s)))
  | c :: cs =>
      if n <? len c then
        (mk_stream (drop (Z.to_nat n) c :: cs) (fin s) (with_last s),
         (take (Z.to_nat n) c, None))
      else
        (mk_stream cs (fin s) (with_last s),
         (c, if with_last s && bool_decide (cs = []) then Some (fin s) else None))
  end.

#[export, refine] Instance stream_laws : ReaderLaws stream :=
  {| reads_left := fun s => length (chunks s) |}.
Proof.
  all: intros [[|c cs] f w] n r' d; unfold Read, stream_Reader; simpl.
  - intros e Hn [= <- <- <-]. rewrite len_nil. lia.
  - intros e Hn. destruct (n <? len c) eqn:E; zbool; intros [= <- <- <-].
    + unfold len in *. rewrite length_take. lia.
    + lia.
  - done.
  - destruct (n <? len c) eqn:E; zbool.
    + intros [= <- <-]. unfold len in *. rewrite length_take. lia.
    + intros [= <- <- ?] _. simpl. lia.
Defined.

(** The bytes that a stream still holds. *)
Definition pending (s : stream) : gobytes := concat (chunks s).

(** No empty chunk: every read of a non-empty buffer makes progress. *)
Definition stream_wf (s : stream) : Prop := Forall (fun c => c <> []) (chunks s).

#[export] Instance stream_wf_dec s : Decision (stream_wf s).
Proof. unfold stream_wf. apply _. Defined.

(** One read: a prefix of what is pending is delivered, the rest stays, and the
    final error is reported only with or after the last byte. *)
Lemma stream_Read_spec s n :
  0 <= n ->
  exists s' d e,
    Read s n = (s', (d, e)) /\ pending s = d ++ pending s' /\
    fin s' = fin s /\ with_last s' = with_last s /\
    (e <> None -> e = Some (fin s) /\ pending s' = []) /\
    (stream_wf s -> stream_wf s') /\
    (stream_wf s -> 0 < n -> pending s <> [] -> d <> []) /\
    (pending s <> [] -> with_last s = false -> e = None).
Proof.
  intros Hn. destruct s as [[|c cs] f w]; unfold Read, stream_Reader, pending, stream_wf; simpl.
  { eexists _, _, _. split; [done|]. simpl. naive_solver. }
  destruct (n <? len c) eqn:E; zbool.
  - eexists _, _, _. split; [done|]. simpl. rewrite app_assoc, take_drop.
    repeat split; try done.
    + intros Hw. apply Forall_cons in Hw as [Hc Hcs]. constructor; [|done].
      intros Hd. apply (f_equal length) in Hd. rewrite length_drop in Hd.
      unfold len in E. simpl in Hd. lia.
    + intros _ Hpos _ Ht. apply (f_equal length) in Ht. rewrite length_take in Ht.
      unfold len in E. simpl in Ht. lia.
  - eexists _, _, _. split; [done|]. simpl. repeat split.
    + destruct w; simpl in *; [|done]. case_bool_decide; done.
    + destruct w; simpl in *; [|done]. case_bool_decide; by subst.
    + by intros [_ ?]%Forall_cons.
    + by intros [? _]%Forall_cons.
    + intros _ ->. done.
Qed.

Lemma ReadAtLeast_loop_stream fuel s acc err buflen min s' acc' e :
  len acc <= buflen -> min <= buflen ->
  (err <> None -> err = Some (fin s) /\ pending s = []) ->
  ReadAtLeast_loop fuel s acc err buflen min = Some (s', (acc', e)) ->
  acc' ++ pending s' = acc ++ pending s /\ fin s' = fin s /\ with_last s' = with_last s /\
  (e <> None -> e = Some (fin s) /\ pending s' = []).
Proof.
  revert s acc err. induction fuel as [|fuel IH]; [done|].
  intros s acc err Hacc Hmin Herr. simpl.
  destruct (len acc <? min) eqn:Hlt; simpl; zbool; [|by intros [= <- <- <-]].
  case_bool_decide as He; [|by intros [= <- <- <-]].
  destruct (stream_Read_spec s (buflen - len acc)) as (s1 & d & e1 & HR & Hp & Hf & Hw & He1 & _);
    [lia|].
  pose proof (Read_len s (buflen - len acc) _ _ _ ltac:(lia) HR). rewrite HR. intros Hl.
  apply IH in Hl as (? & ? & ? & ?).
  - rewrite Hf, Hw in *. split_and!; try done. rewrite Hp, app_assoc. done.
  - rewrite len_app. lia.
  - done.
  - rewrite Hf. done.
Qed.

(** ReadFull on a stream: exactly the next [n] bytes when they are there,
    otherwise all that is left, with the final error turned into
    ErrUnexpectedEOF when it is EOF and something was read. *)
Lemma ReadFull_stream s n :
  0 <= n ->
  exists s',
    fin s' = fin s /\ with_last s' = with_last s /\
    if decide (n <= len (pending s)) then
      ReadFull (fuel_for s) s n = Some (s', (take (Z.to_nat n) (pending s), None)) /\
      pending s' = drop (Z.to_nat n) (pending s)
    else
      ReadFull (fuel_for s) s n =
        Some (s', (pending s,
          Some (if bool_decide (pending s = []) then fin s
                else if bool_decide (fin s = EOF) then ErrUnexpectedEOF else fin s))) /\
      pending s' = [].
Proof.
  intros Hn. unfold ReadFull, ReadAtLeast. rewrite Z.ltb_irrefl.
  destruct (ReadAtLeast_loop_spec (fuel_for s) s [] None n n)
    as (s' & d & e & HL & Hle & He); [rewrite len_nil; lia|lia|unfold fuel_for; lia|unfold fuel_for; lia|].
  cbn [app] in *. apply ReadAtLeast_loop_stream in HL as HS; [|rewrite len_nil; lia|lia|done].
  destruct HS as (Hp & Hf & Hw & Hfin). cbn [app] in Hp.
  exists s'. split_and!; [done..|]. rewrite HL. cbn [mbind option_bind].
  assert (len (pending s) = len d + len (pending s')) by (by rewrite <- Hp, len_app).
  pose proof (len_nonneg (pending s')).
  destruct (n <=? len d) eqn:E; zbool.
  - assert (len d = n) as Hd by lia. rewrite decide_True by lia.
    unfold len in Hd. rewrite <- Hp.
    assert (Z.to_nat n = length d) as -> by lia.
    rewrite take_app_length, drop_app_length. done.
  - specialize (He E). destruct (Hfin He) as [-> Hnil].
    rewrite Hnil, app_nil_r in Hp. subst d.
    rewrite decide_False by (rewrite Hnil, len_nil in *; lia).
    split; [|done]. do 4 f_equal.
    destruct (pending s) as [|b l] eqn:Hps; [done|].
    rewrite (proj2 (Z.ltb_lt _ _)) by (rewrite len_cons; pose proof (len_nonneg l); lia).
    cbn [andb]. repeat case_bool_decide; try done; congruence.
Qed.

(** ** Claims *)

(** The documented contract of io.ReadAtLeast, for every reader that keeps
    the io.Reader contract and cannot return nothing forever: it returns; with a
    buffer shorter than [min] it reads nothing and reports ErrShortBuffer;
    otherwise it stores at most the length of the buffer, the error is nil
    exactly when at least [min] bytes were read, and it is EOF only when no byte
    was read. *)
Theorem read_at_least_contract {R : Type} `{ReaderLaws R} (r : R) (buflen min : Z) :
  0 <= min ->
  (buflen < min -> ReadAtLeast (fuel_for r) r buflen min = Some (r, ([], Some ErrShortBuffer))) /\
  (min <= buflen -> exists r' d e,
     ReadAtLeast (fuel_for r) r buflen min = Some (r', (d, e)) /\
     len d <= buflen /\ (e = None <-> min <= len d) /\ (e = Some EOF -> d = [])).
Proof.
  intros Hm. split; intros Hl.
  - unfold ReadAtLeast. by rewrite (proj2 (Z.ltb_lt _ _)).
  - by apply ReadAtLeast_spec.
Qed.

Lemma read_at_least_contract_witness :
  exists r' d e,
    ReadAtLeast (fuel_for (mk_stream [[1; 2]; [3]] EOF true)) (mk_stream [[1; 2]; [3]] EOF true) 8 3
      = Some (r', (d, e)) /\
    len d <= 8 /\ (e = None <-> 3 <= len d) /\ (e = Some EOF -> d = []).
Proof. apply (read_at_least_contract (mk_stream [[1; 2]; [3]] EOF true) 8 3); lia. Defined.

(** io.ReadFull does not see how a stream was cut into chunks, nor whether
    its end came with the last chunk or after it: two streams with the same bytes
    and the same end give the same bytes and the same error and leave the same
    bytes; it succeeds exactly when the buffer can be filled; and what it
    returned followed by what is left is what there was. *)
Theorem read_full_chunking (s1 s2 : stream) (n : Z) :
  0 <= n -> pending s1 = pending s2 -> fin s1 = fin s2 ->
  exists s1' s2' d e,
    ReadFull (fuel_for s1) s1 n = Some (s1', (d, e)) /\
    ReadFull (fuel_for s2) s2 n = Some (s2', (d, e)) /\
    pending s1' = pending s2' /\ d ++ pending s1' = pending s1 /\
    (e = None <-> n <= len (pending s1)) /\ (e = None -> len d = n) /\
    (e = Some EOF -> fin s1 = EOF /\ d = []).
Proof.
  intros Hn Hp Hf.
  destruct (ReadFull_stream s1 n Hn) as (s1' & _ & _ & H1).
  destruct (ReadFull_stream s2 n Hn) as (s2' & _ & _ & H2).
  rewrite <- Hp, <- Hf in H2. destruct (decide (n <= len (pending s1))) as [Hl|Hl].
  - destruct H1 as [-> E1], H2 as [-> E2]. eexists _, _, _, _. rewrite E1, E2.
    do 3 (split; [done|]). split; [apply take_drop|]. split; [done|]. split; [|done].
    intros _. unfold len in *. rewrite length_take. lia.
  - destruct H1 as [-> E1], H2 as [-> E2]. eexists _, _, _, _. rewrite E1, E2.
    do 3 (split; [done|]). split; [by rewrite app_nil_r|]. do 2 (split; [done|]).
    case_bool_decide as E; [by intros [= ->]|]. case_bool_decide; [done|]. congruence.
Qed.

Lemma read_full_chunking_witness :
  exists s1' s2' d e,
    ReadFull (fuel_for (mk_stream [[1; 2; 3]] EOF true)) (mk_stream [[1; 2; 3]] EOF true) 2
      = Some (s1', (d, e)) /\
    ReadFull (fuel_for (mk_stream [[1]; []; [2; 3]] EOF false)) (mk_stream [[1]; []; [2; 3]] EOF false) 2
      = Some (s2', (d, e)) /\
    pending s1' = pending s2' /\ d ++ pending s1' = [1; 2; 3] /\
    (e = None <-> 2 <= 3) /\ (e = None -> len d = 2) /\ (e = Some EOF -> EOF = EOF /\ d = []).
Proof.
  apply (read_full_chunking (mk_stream [[1; 2; 3]] EOF true) (mk_stream [[1]; []; [2; 3]] EOF false) 2);
    [lia|reflexivity|reflexivity].
Defined.
