(* ===== verification/Varint.v ===== *)
(** * encoding/binary: varints

    [tools/go-patched/src/encoding/binary/varint.go].  The proxy reads the
    type of each message with [ReadUvarint]. *)

From S2P Require Import Prelude GoIO.
Local Open Scope go_scope.

Definition MaxVarintLen16 : Z := 3.
Definition MaxVarintLen32 : Z := 5.
Definition MaxVarintLen64 : Z := 10.

(** ** Encoding

    The loops divide a uint64 by 128: ten rounds are enough
    ([digits_fuel], [uvarint_bytes_unfold]). *)
Fixpoint AppendUvarint_loop (fuel : nat) (buf : gobytes) (x : Z) : gobytes :=
  match fuel with
  | O => buf
  | S fuel =>
      if 128 <=? x then AppendUvarint_loop fuel (buf ++ [u8 x .| 128]) (x >> 7)
      else buf ++ [u8 x]
  end.

Definition AppendUvarint (buf : gobytes) (x : Z) : gobytes :=
  AppendUvarint_loop 10 buf x.

(** [None] is the panic of a write past the end of [buf]; the result is the
    buffer after the writes and the count. *)
Fixpoint PutUvarint_loop (fuel : nat) (buf : gobytes) (i x : Z) : option (gobytes * Z) :=
  match fuel with
  | O => None
  | S fuel =>
      if 128 <=? x then
        buf ← update buf i (u8 x .| 128);
        PutUvarint_loop fuel buf (i + 1) (x >> 7)
      else
        buf ← update buf i (u8 x);
        Some (buf, i + 1)
  end.

Definition PutUvarint (buf : gobytes) (x : Z) : option (gobytes * Z) :=
  PutUvarint_loop 10 buf 0 x.

(** The zig-zag step shared by AppendVarint and PutVarint:
    [ux := uint64(x) << 1; if x < 0 { ux = ^ux }]. *)
Definition zigzag (x : Z) : Z :=
  let ux := u64 (u64 x << 1) in
  if x <? 0 then u64 (Z.lnot ux) else ux.

Definition AppendVarint (buf : gobytes) (x : Z) : gobytes := AppendUvarint buf (zigzag x).
Definition PutVarint (buf : gobytes) (x : Z) : option (gobytes * Z) := PutUvarint buf (zigzag x).

(** ** Decoding *)

(** The loop over [buf]; [i] is the index of the head of the remaining bytes. *)
Fixpoint Uvarint_loop (buf : gobytes) (i x s : Z) : Z * Z :=
  match buf with
  | [] => (0, 0)
  | b :: buf =>
      if i =? MaxVarintLen64 then (0, - (i + 1)) else
      if b <? 128 then
        if (i =? MaxVarintLen64 - 1) && (1 <? b) then (0, - (i + 1))
        else (x .| u64 (b << s), i + 1)
      else Uvarint_loop buf (i + 1) (x .| u64 ((b .& 127) << s)) (s + 7)
  end.

Definition Uvarint (buf : gobytes) : Z * Z := Uvarint_loop buf 0 0 0.

(** [x := int64(ux >> 1); if ux&1 != 0 { x = ^x }]. *)
Definition unzigzag (ux : Z) : Z :=
  let x := s64 (ux >> 1) in
  if negb (ux .& 1 =? 0) then s64 (Z.lnot x) else x.

Definition Varint (buf : gobytes) : Z * Z :=
  let '(ux, n) := Uvarint buf in (unzigzag ux, n).

Section ReadUvarint.
Context {R : Type} `{ByteReader R}.

(** [k] counts the rounds of [for i := 0; i < MaxVarintLen64; i++] that are
    left, so [i] is [MaxVarintLen64 - k]. *)
Fixpoint ReadUvarint_loop (k : nat) (r : R) (i x s : Z) : R * (Z * option error) :=
  match k with
  | O => (r, (x, Some errOverflow))
  | S k =>
      let '(r, (b, err)) := ReadByte r in
      match err with
      | Some err =>
          let err := if (0 <? i) && bool_decide (err = EOF) then ErrUnexpectedEOF else err in
          (r, (x, Some err))
      | None =>
          if b <? 128 then
            if (i =? MaxVarintLen64 - 1) && (1 <? b) then (r, (x, Some errOverflow))
            else (r, (x .| u64 (b << s), None))
          else ReadUvarint_loop k r (i + 1) (x .| u64 ((b .& 127) << s)) (s + 7)
      end
  end.

Definition ReadUvarint (r : R) : R * (Z * option error) := ReadUvarint_loop 10 r 0 0 0.

Definition ReadVarint (r : R) : R * (Z * option error) :=
  let '(r, (ux, err)) := ReadUvarint r in (r, (unzigzag ux, err)).

End ReadUvarint.

(** ** The abstract encoding

    Base-128 digits, least significant first, all but the last with the
    continuation bit. *)
Fixpoint digits (fuel : nat) (x : Z) : gobytes :=
  match fuel with
  | O => []
  | S fuel => if x <? 128 then [x] else (x mod 128 + 128) :: digits fuel (x / 128)
  end.

Definition uvarint_bytes (x : Z) : gobytes := digits 10 x.

(** Value of a digit string; [None] unless it is one encoding exactly. *)
Fixpoint digits_value (l : gobytes) : option Z :=
  match l with
  | [] => None
  | [b] => if b <? 128 then Some b else None
  | b :: l => if b <? 128 then None else v ← digits_value l; Some (b - 128 + 128 * v)
  end.

Lemma u8_cont x : 0 <= x -> Z.lor (u8 x) 128 = x mod 128 + 128.
Proof.
  intros Hx. replace 128 with (Z.shiftl 1 7) at 1 by done.
  unfold u8. apply Z.bits_inj'. intros i Hi.
  assert (x mod 128 + 128 = Z.lor (x mod 2 ^ 7) (Z.shiftl 1 7)) as ->.
  { rewrite lor_shiftl_add; [done|lia|]. apply Z.mod_pos_bound. lia. }
  rewrite !Z.lor_spec, Z.shiftl_spec by lia.
  destruct (decide (i < 7)).
  - by rewrite !Z.mod_pow2_bits_low by lia.
  - rewrite (Z.mod_pow2_bits_high x 7) by lia.
    destruct (decide (i < 8)).
    + assert (i = 7) as -> by lia. by rewrite orb_true_r.
    + by rewrite (Z.mod_pow2_bits_high x 8) by lia.
Qed.

Lemma u8_small x : 0 <= x < 128 -> u8 x = x.
Proof. intros. apply u8_byte. unfold is_byte. lia. Qed.

Lemma AppendUvarint_loop_digits fuel buf x :
  0 <= x -> AppendUvarint_loop fuel buf x = buf ++ digits fuel x.
Proof.
  revert buf x. induction fuel as [|fuel IH]; intros buf x Hx; simpl.
  { by rewrite app_nil_r. }
  destruct (128 <=? x) eqn:E; zbool.
  - rewrite (proj2 (Z.ltb_ge _ _)) by lia. rewrite IH by (apply Z.shiftr_nonneg; lia).
    rewrite <- app_assoc. simpl. rewrite u8_cont by lia. by rewrite Z.shiftr_div_pow2 by lia.
  - rewrite (proj2 (Z.ltb_lt _ _)) by lia. by rewrite u8_small by lia.
Qed.

(** With as much fuel as the size of [x] calls for, more fuel changes nothing. *)
Lemma digits_fuel fuel x :
  0 <= x < 2 ^ (7 * Z.of_nat fuel) -> digits (S fuel) x = digits fuel x \/ fuel = O.
Proof.
  revert x. induction fuel as [|fuel IH]; [by right|]. intros x Hx. left.
  change (digits (S (S fuel)) x) with
    (if x <? 128 then [x] else (x mod 128 + 128) :: digits (S fuel) (x / 128)).
  simpl (digits (S fuel) x). destruct (x <? 128) eqn:E; zbool; [done|]. f_equal.
  destruct (IH (x / 128)) as [->| ->]; [|done|].
  - rewrite Nat2Z.inj_succ, Z.mul_succ_r, Z.add_comm, Z.pow_add_r in Hx by lia.
    change (2 ^ 7) with 128 in Hx. split; [zlia|]. apply Z.div_lt_upper_bound; lia.
  - change (2 ^ (7 * Z.of_nat 1)) with 128 in Hx. lia.
Qed.

Lemma uvarint_bytes_unfold x :
  is_u64 x ->
  uvarint_bytes x =
    if x <? 128 then [x] else (x mod 128 + 128) :: uvarint_bytes (x / 128).
Proof.
  intros Hx. unfold uvarint_bytes. change (digits 10 x) with
    (if x <? 128 then [x] else (x mod 128 + 128) :: digits 9 (x / 128)).
  destruct (x <? 128) eqn:E; [done|]. f_equal. symmetry.
  destruct (digits_fuel 9 (x / 128)); [|done|done].
  split; [zlia|]. change (2 ^ (7 * Z.of_nat 9)) with 9223372036854775808. zlia.
Qed.

(** Decoding is the inverse of encoding. *)
Lemma digits_value_digits fuel x :
  (fuel <> O) -> 0 <= x < 2 ^ (7 * Z.of_nat fuel) -> digits_value (digits fuel x) = Some x.
Proof.
  revert x. induction fuel as [|fuel IH]; [done|]. intros x _ Hx. simpl.
  destruct (x <? 128) eqn:E; zbool.
  { simpl. by rewrite (proj2 (Z.ltb_lt _ _)) by lia. }
  rewrite Nat2Z.inj_succ, Z.mul_succ_r, Z.add_comm, Z.pow_add_r in Hx by lia.
  change (2 ^ 7) with 128 in Hx.
  destruct fuel as [|fuel]; [simpl in Hx; lia|].
  assert (digits_value (digits (S fuel) (x / 128)) = Some (x / 128)) as IH'.
  { apply IH; [done|]. split; [zlia|]. apply Z.div_lt_upper_bound; lia. }
  remember (digits (S fuel) (x / 128)) as l eqn:El.
  destruct l as [|b l].
  { simpl in El. destruct (_ <? _); done. }
  cbn [digits_value]. cbn [digits_value] in IH'.
  rewrite (proj2 (Z.ltb_ge _ _)) by zlia. rewrite IH'. simpl. f_equal. zlia.
Qed.

(** ** The decoders *)

Lemma land_127 b : Z.land b 127 = b mod 128.
Proof. exact (land_ones_mod b 7 ltac:(lia)). Qed.

Lemma is_byte_cont b : is_byte b -> (b <? 128) = false -> b mod 128 = b - 128.
Proof. unfold is_byte. intros. zbool. zlia. Qed.

(** One digit joined to the [7*i]-bit accumulator. *)
Lemma join_digit acc d s :
  0 <= s -> 0 <= acc < 2 ^ s -> 0 <= d -> acc + d * 2 ^ s < 2 ^ 64 ->
  Z.lor acc (u64 (Z.shiftl d s)) = acc + d * 2 ^ s.
Proof.
  intros. unfold u64. rewrite Z.mod_small.
  - by apply lor_shiftl_add.
  - rewrite Z.shiftl_mul_pow2 by lia. nia.
Qed.

Lemma digits_value_cons b l :
  l <> [] -> digits_value (b :: l) =
    if b <? 128 then None else v ← digits_value l; Some (b - 128 + 128 * v).
Proof. by destruct l. Qed.

Lemma digits_value_nonneg l v : bytes_ok l -> digits_value l = Some v -> 0 <= v.
Proof.
  revert v. induction l as [|b l IH]; [done|]. intros v [Hb Hl]%Forall_cons.
  destruct l as [|b' l].
  - simpl. destruct (b <? 128); [|done]. intros [= <-]. unfold is_byte in Hb. lia.
  - rewrite digits_value_cons by done. destruct (b <? 128) eqn:E; [done|]. zbool.
    destruct (digits_value (b' :: l)) as [w|]; simpl; [|done]. intros [= <-].
    specialize (IH w Hl eq_refl). lia.
Qed.

(** What Uvarint answers, on every input.  The three outcomes are: a terminated
    digit string whose value fits, an unterminated one, and one that does not fit
    in 64 bits. *)
Inductive uvarint_outcome (buf : gobytes) (i acc : Z) : Z * Z -> Prop :=
  | outcome_value pre rest v :
      buf = pre ++ rest -> digits_value pre = Some v ->
      acc + v * 2 ^ (7 * i) < 2 ^ 64 -> i + len pre <= MaxVarintLen64 ->
      uvarint_outcome buf i acc (acc + v * 2 ^ (7 * i), i + len pre)
  | outcome_short :
      Forall (fun b => 128 <= b) buf -> i + len buf <= MaxVarintLen64 ->
      uvarint_outcome buf i acc (0, 0)
  | outcome_overflow pre b rest :
      buf = pre ++ b :: rest -> Forall (fun b => 128 <= b) pre ->
      (i + len pre = 10 \/ (i + len pre = 9 /\ 1 < b < 128)) ->
      uvarint_outcome buf i acc (0, - (i + len pre + 1)).

Lemma uvarint_outcome_cons b buf i acc r :
  is_byte b -> 128 <= b -> 0 <= i ->
  uvarint_outcome buf (i + 1) (acc + (b - 128) * 2 ^ (7 * i)) r ->
  uvarint_outcome (b :: buf) i acc r.
Proof.
  intros Hb Hc Hi [pre rest v -> Hv Hlt Hle | Hs Hl | pre c rest -> Hpre Hov].
  - assert (acc + (b - 128) * 2 ^ (7 * i) + v * 2 ^ (7 * (i + 1)) =
            acc + (b - 128 + 128 * v) * 2 ^ (7 * i)) as E.
    { replace (7 * (i + 1)) with (7 + 7 * i) by lia. rewrite Z.pow_add_r by lia.
      change (2 ^ 7) with 128. lia. }
    rewrite E in *. replace (i + 1 + len pre) with (i + len (b :: pre)) in * by (rewrite len_cons; lia).
    apply outcome_value with rest; [done| |done|done].
    rewrite digits_value_cons by (by intros ->).
    rewrite (proj2 (Z.ltb_ge _ _)) by lia. by rewrite Hv.
  - apply outcome_short; [by constructor|]. rewrite len_cons. lia.
  - replace (- (i + 1 + len pre + 1)) with (- (i + len (b :: pre) + 1)) by (rewrite len_cons; lia).
    apply outcome_overflow with c rest; [done|by constructor|]. rewrite len_cons. lia.
Qed.

Lemma uvarint_outcome_10 buf acc acc' r :
  uvarint_outcome buf 10 acc r -> uvarint_outcome buf 10 acc' r.
Proof.
  intros [pre rest v -> Hv _ Hle | Hs Hl | pre c rest -> Hpre Hov].
  - exfalso. destruct pre as [|b pre]; [done|]. rewrite len_cons in Hle.
    unfold MaxVarintLen64 in Hle. pose proof (len_nonneg pre). lia.
  - by apply outcome_short.
  - by apply outcome_overflow with c rest.
Qed.

(** A last digit that passes the overflow check fits in 64 bits. *)
Lemma last_digit_fits acc b i :
  0 <= i <= 9 -> 0 <= acc < 2 ^ (7 * i) -> 0 <= b < 128 -> (i = 9 -> b <= 1) ->
  acc + b * 2 ^ (7 * i) < 2 ^ 64.
Proof.
  intros Hi Hacc Hb H9. change (2 ^ 64) with 18446744073709551616.
  destruct (decide (i = 9)) as [->|].
  - specialize (H9 eq_refl). change (2 ^ (7 * 9)) with 9223372036854775808 in *. lia.
  - assert (2 ^ (7 * i) <= 2 ^ 56) by (apply Z.pow_le_mono_r; lia).
    change (2 ^ 56) with 72057594037927936 in *. nia.
Qed.

Lemma Uvarint_loop_outcome buf i acc s :
  bytes_ok buf -> 0 <= i <= 10 -> s = 7 * i ->
  (i <= 9 -> 0 <= acc < 2 ^ (7 * i)) ->
  uvarint_outcome buf i acc (Uvarint_loop buf i acc s).
Proof.
  revert i acc s. induction buf as [|b buf IH]; intros i acc s Hb Hi -> Hacc; simpl.
  { apply outcome_short; [constructor|]. rewrite len_nil. unfold MaxVarintLen64. lia. }
  apply Forall_cons in Hb as [Hb Hbuf]. unfold MaxVarintLen64 in *.
  destruct (i =? 10) eqn:E10; zbool.
  { replace i with (i + len (@nil Z)) at 2 by (rewrite len_nil; lia).
    apply outcome_overflow with b buf; [done|constructor|]. rewrite len_nil. lia. }
  specialize (Hacc ltac:(lia)).
  assert (0 < 2 ^ (7 * i)) by (apply Z.pow_pos_nonneg; lia).
  destruct (b <? 128) eqn:Eb; zbool.
  - destruct ((i =? 10 - 1) && (1 <? b)) eqn:Eo; zbool.
    { replace i with (i + len (@nil Z)) at 2 by (rewrite len_nil; lia).
      apply outcome_overflow with b buf; [done|constructor|]. rewrite len_nil. lia. }
    unfold is_byte in Hb. assert (acc + b * 2 ^ (7 * i) < 2 ^ 64) as Hfit.
    { apply last_digit_fits; [lia..|]. intros ->. apply andb_false_iff in Eo as [?|?]; zbool; lia. }
    rewrite join_digit by lia.
    replace (i + 1) with (i + len [b]) by (rewrite len_cons, len_nil; lia).
    apply outcome_value with buf; [done| |done|].
    + simpl. by rewrite (proj2 (Z.ltb_lt _ _)) by lia.
    + rewrite len_cons, len_nil. unfold MaxVarintLen64. lia.
  - apply uvarint_outcome_cons; [done|lia|lia|].
    rewrite land_127, is_byte_cont by (done || by apply Z.ltb_ge). unfold is_byte in Hb.
    destruct (decide (i = 9)) as [->|Hi9].
    { eapply uvarint_outcome_10, IH; [done|lia..]. }
    rewrite join_digit; [| lia | lia | lia | apply last_digit_fits; lia].
    apply IH; [done|lia|lia|]. intros _.
    replace (7 * (i + 1)) with (7 + 7 * i) by lia. rewrite Z.pow_add_r by lia.
    change (2 ^ 7) with 128. nia.
Qed.

Lemma Uvarint_outcome buf : bytes_ok buf -> uvarint_outcome buf 0 0 (Uvarint buf).
Proof. intros. apply Uvarint_loop_outcome; simpl; [done|lia..]. Qed.

(** A digit string ends at its first byte without the continuation bit, so no
    encoding is a proper prefix of another. *)
Lemma digits_value_shape l v :
  bytes_ok l -> digits_value l = Some v ->
  exists pre b, l = pre ++ [b] /\ Forall (fun b => 128 <= b) pre /\ b < 128 /\
    b * 2 ^ (7 * len pre) <= v.
Proof.
  revert v. induction l as [|b l IH]; [done|]. intros v [Hb Hl]%Forall_cons.
  destruct l as [|b' l].
  - simpl. destruct (b <? 128) eqn:E; [|done]. intros [= <-]. zbool.
    exists [], b. split_and!; [done|constructor|done|]. unfold len. simpl. lia.
  - rewrite digits_value_cons by done. destruct (b <? 128) eqn:E; [done|]. zbool.
    destruct (digits_value (b' :: l)) as [w|]; simpl; [|done]. intros [= <-].
    destruct (IH w Hl eq_refl) as (pre & c & Heq & Hpre & Hc & Hle). rewrite Heq in *.
    exists (b :: pre), c. split_and!; [done|by constructor|done|].
    rewrite len_cons. pose proof (len_nonneg pre).
    replace (7 * (1 + len pre)) with (7 + 7 * len pre) by lia.
    rewrite Z.pow_add_r by lia. change (2 ^ 7) with 128. lia.
Qed.

Lemma cont_prefix_unique (p1 p2 r1 r2 : gobytes) b1 b2 :
  Forall (fun b => 128 <= b) p1 -> Forall (fun b => 128 <= b) p2 -> b1 < 128 -> b2 < 128 ->
  p1 ++ b1 :: r1 = p2 ++ b2 :: r2 -> p1 = p2 /\ b1 = b2 /\ r1 = r2.
Proof.
  intros H1. revert p2. induction H1 as [|c p1 Hc H1 IH]; intros p2 H2 Hb1 Hb2.
  - destruct H2; simpl; intros [= ??]; [done|lia].
  - destruct H2 as [|c' p2 Hc' H2]; simpl; intros [= ??]; [lia|]. subst.
    destruct (IH p2) as (? & ? & ?); [done..|]. by subst.
Qed.

Lemma digits_length fuel x : (length (digits fuel x) <= fuel)%nat.
Proof. revert x. induction fuel; intros x; simpl; [lia|]. case_match; simpl; [lia|]. specialize (IHfuel (x/128)). lia. Qed.

Lemma uvarint_bytes_length x : is_u64 x -> 1 <= len (uvarint_bytes x) <= MaxVarintLen64.
Proof.
  intros. unfold len, MaxVarintLen64.
  pose proof (digits_length 10 x) as Hle. fold (uvarint_bytes x) in Hle.
  assert (uvarint_bytes x <> []) by (unfold uvarint_bytes; simpl; by destruct (x <? 128)).
  destruct (uvarint_bytes x); simpl in *; [done|lia].
Qed.

Lemma digits_bytes_ok fuel x : 0 <= x -> bytes_ok (digits fuel x).
Proof.
  revert x. induction fuel as [|fuel IH]; intros x Hx; simpl; [constructor|].
  destruct (x <? 128) eqn:E; zbool.
  - repeat constructor; lia.
  - constructor; [unfold is_byte; zlia|]. apply IH. zlia.
Qed.

Lemma uvarint_bytes_value x : is_u64 x -> digits_value (uvarint_bytes x) = Some x.
Proof.
  intros. apply digits_value_digits; [done|].
  change (2 ^ (7 * Z.of_nat 10)) with 1180591620717411303424. lia.
Qed.

(** Uvarint decodes every digit string that fits. *)
Lemma Uvarint_value pre rest v :
  bytes_ok pre -> bytes_ok rest -> digits_value pre = Some v ->
  len pre <= MaxVarintLen64 -> v < 2 ^ 64 -> Uvarint (pre ++ rest) = (v, len pre).
Proof.
  intros Hok Hr Hv Hlen Hlt.
  destruct (digits_value_shape _ _ Hok Hv) as (p & t & -> & Hp & Ht & Hle).
  pose proof (Uvarint_outcome ((p ++ [t]) ++ rest) ltac:(by apply Forall_app)) as Ho.
  rewrite <- app_assoc in *. simpl in Ho |- *.
  inversion Ho as [pre rest' v' E Hv' _ _ HU | Hall _ HU | pre b rest' E Hpre Hov HU].
  - assert (bytes_ok (pre ++ rest')) as Hok'.
    { rewrite <- E. apply Forall_app in Hok as [? [? _]%Forall_cons]. apply Forall_app. split; [done|]. by constructor. }
    apply Forall_app in Hok' as [Hok' _].
    destruct (digits_value_shape _ _ Hok' Hv') as (q & u & -> & Hq & Hu & _).
    rewrite <- app_assoc in E. simpl in E.
    destruct (cont_prefix_unique p q rest rest' t u) as (-> & -> & ->); [done..|].
    rewrite Hv in Hv'. injection Hv' as <-. f_equal; lia.
  - exfalso. apply Forall_app in Hall as [_ [? _]%Forall_cons]. lia.
  - exfalso. autorewrite with go in *. unfold MaxVarintLen64 in Hlen.
    assert (len p < len pre \/ (len p = len pre /\ b < 128)) as [Hl|[Hlp Hb]].
    { destruct Hov as [?|[? [? ?]]]; [left; lia|].
      destruct (decide (len p = len pre)); [right; lia|left; lia]. }
    + assert ((p ++ t :: rest) !! length p = Some t) as Ht1 by (by apply list_lookup_middle).
      rewrite E in Ht1. rewrite lookup_app_l in Ht1 by (unfold len in Hl; lia).
      eapply Forall_lookup_1 in Ht1; [|exact Hpre]. simpl in Ht1. lia.
    + destruct (cont_prefix_unique p pre rest rest' t b) as (-> & -> & ->); [done..|].
      destruct Hov as [?|[H9 [? ?]]]; [lia|].
      replace (len pre) with 9 in Hle by lia. change (2 ^ (7 * 9)) with 9223372036854775808 in Hle.
      change (2 ^ 64) with 18446744073709551616 in Hlt. lia.
Qed.

Lemma Uvarint_uvarint_bytes x rest :
  is_u64 x -> bytes_ok rest ->
  Uvarint (uvarint_bytes x ++ rest) = (x, len (uvarint_bytes x)).
Proof.
  intros Hx Hr. apply Uvarint_value; [apply digits_bytes_ok; lia|done|by apply uvarint_bytes_value| |].
  - by apply uvarint_bytes_length.
  - change (2 ^ 64) with 18446744073709551616. lia.
Qed.

Lemma AppendUvarint_bytes buf x : 0 <= x -> AppendUvarint buf x = buf ++ uvarint_bytes x.
Proof. apply AppendUvarint_loop_digits. Qed.

(** ** Zig-zag *)

Lemma zigzag_spec x : is_s64 x -> zigzag x = if x <? 0 then -2 * x - 1 else 2 * x.
Proof.
  intros Hx. unfold zigzag. widths. rewrite Z.shiftl_mul_pow2 by lia. change (2 ^ 1) with 2.
  destruct (x <? 0) eqn:E; zbool.
  - unfold Z.lnot. zlia.
  - zlia.
Qed.

Lemma zigzag_u64 x : is_s64 x -> is_u64 (zigzag x).
Proof. intros. rewrite zigzag_spec by done. split_ifs; zbool; lia. Qed.

Lemma unzigzag_zigzag x : is_s64 x -> unzigzag (zigzag x) = x.
Proof.
  intros Hx. rewrite zigzag_spec by done. unfold unzigzag. widths.
  rewrite Z.shiftr_div_pow2 by lia. change (2 ^ 1) with 2.
  rewrite (land_ones_mod _ 1) by lia. change (2 ^ 1) with 2.
  destruct (x <? 0) eqn:E; zbool;
    match goal with |- (if negb (?a =? 0) then _ else _) = _ => destruct (a =? 0) eqn:E2 end;
    simpl; zbool; unfold Z.lnot; zlia.
Qed.

(** ** PutUvarint *)

Lemma PutUvarint_loop_spec fuel buf i x :
  0 <= i <= len buf -> 0 <= x < 2 ^ (7 * Z.of_nat fuel) -> fuel <> O ->
  PutUvarint_loop fuel buf i x =
    let d := digits fuel x in
    if decide (i + len d <= len buf)
    then Some (take (Z.to_nat i) buf ++ d ++ drop (Z.to_nat (i + len d)) buf, i + len d)
    else None.
Proof.
  revert buf i x. induction fuel as [|fuel IH]; [done|]. intros buf i x Hi Hx _. simpl.
  assert (forall b, 0 <= i < len buf -> <[Z.to_nat i := b]> buf =
      take (Z.to_nat i) buf ++ b :: drop (S (Z.to_nat i)) buf) as Hins.
  { intros b Hlt. apply insert_take_drop. unfold len in Hlt. lia. }
  destruct (128 <=? x) eqn:E; zbool.
  2:{ rewrite (proj2 (Z.ltb_lt _ _)) by lia. rewrite u8_small by lia.
      unfold update. change (len [x]) with 1.
      destruct (decide (0 <= i < len buf)); [|by rewrite decide_False by lia].
      rewrite decide_True by lia. simpl. rewrite Hins by lia.
      by replace (Z.to_nat (i + 1)) with (S (Z.to_nat i)) by lia. }
  rewrite (proj2 (Z.ltb_ge _ _)) by lia.
  rewrite Nat2Z.inj_succ, Z.mul_succ_r, Z.add_comm, Z.pow_add_r in Hx by lia.
  change (2 ^ 7) with 128 in Hx.
  destruct fuel as [|fuel]; [simpl in Hx; lia|].
  rewrite u8_cont by lia. unfold update. rewrite len_cons.
  set (d := digits (S fuel) (x / 128)) in *. pose proof (len_nonneg d).
  destruct (decide (0 <= i < len buf)) as [Hlt|Hlt]; [|by rewrite decide_False by lia].
  cbn [mbind option_bind].
  set (buf' := <[Z.to_nat i:=x mod 128 + 128]> buf) in *.
  assert (len buf' = len buf) as Hlen by (unfold len, buf'; by rewrite length_insert).
  rewrite IH; [|lia| |done].
  2:{ rewrite Z.shiftr_div_pow2 by lia. change (2 ^ 7) with 128.
      split; [zlia|]. apply Z.div_lt_upper_bound; lia. }
  rewrite Z.shiftr_div_pow2 by lia. change (2 ^ 7) with 128. fold d. cbv zeta. rewrite Hlen.
  destruct (decide (i + 1 + len d <= len buf)); [|by rewrite decide_False by lia].
  rewrite decide_True by lia. do 2 f_equal; [|lia].
  replace (Z.to_nat (i + 1)) with (S (Z.to_nat i)) by lia.
  unfold buf'. rewrite Hins by lia. unfold len in Hlt.
  assert (length (take (Z.to_nat i) buf) = Z.to_nat i) as Ht by (rewrite length_take; lia).
  rewrite take_app_ge, Ht by lia. replace (S (Z.to_nat i) - Z.to_nat i)%nat with 1%nat by lia.
  simpl. rewrite take_0. rewrite drop_app_ge, Ht by lia.
  replace (Z.to_nat (i + 1 + len d) - Z.to_nat i)%nat with (S (Z.to_nat (len d))) by lia.
  simpl. rewrite drop_drop. rewrite <- app_assoc. simpl. repeat f_equal. lia.
Qed.

(** ** ReadUvarint

    What a byte reader promises: the bytes of [content] one by one, then
    [final]; [br_ok] is the condition under which it does. *)
Class ByteReaderLaws (R : Type) `{ByteReader R} : Type := {
  br_ok : R -> Prop;
  content : R -> gobytes;
  final : R -> error;
  ReadByte_cons r b l :
    br_ok r -> content r = b :: l ->
    exists r', ReadByte r = (r', (b, None)) /\ br_ok r' /\ content r' = l /\ final r' = final r;
  ReadByte_nil r :
    br_ok r -> content r = [] ->
    exists r' b, ReadByte r = (r', (b, Some (final r))) /\ br_ok r' /\ content r' = [];
}.

(** The answer that ReadUvarint gives when Uvarint finds no terminator: the end
    of the stream, unless ten bytes have already been read. *)
Definition read_short (n : Z) (e : error) : error :=
  if n <? MaxVarintLen64 then
    if (0 <? n) && bool_decide (e = EOF) then ErrUnexpectedEOF else e
  else errOverflow.

Section ReadUvarint_proofs.
Context {R : Type} `{ByteReaderLaws R}.

Lemma Uvarint_loop_count buf i x s :
  0 <= i -> let n := (Uvarint_loop buf i x s).2 in n <= 0 \/ i + 1 <= n.
Proof.
  revert i x s. induction buf as [|b buf IH]; intros i x s Hi; simpl; [lia|].
  destruct (i =? _); [simpl; lia|]. destruct (b <? 128).
  - destruct (_ && _); simpl; lia.
  - pose proof (IH (i + 1) (Z.lor x (u64 (Z.shiftl (Z.land b 127) s))) (s + 7) ltac:(lia)) as H'.
    cbv zeta in H'. lia.
Qed.

(** ReadUvarint is Uvarint on the content of the reader. *)
Lemma ReadUvarint_loop_spec k (r : R) i x s :
  br_ok r -> 0 <= i -> Z.of_nat k = MaxVarintLen64 - i ->
  let '(v, n) := Uvarint_loop (content r) i x s in
  exists r' a, ReadUvarint_loop k r i x s = (r', a) /\ br_ok r' /\
    (0 < n -> a = (v, None) /\ content r' = drop (Z.to_nat (n - i)) (content r)) /\
    (n < 0 -> a.2 = Some errOverflow) /\
    (n = 0 -> a.2 = Some (read_short (i + len (content r)) (final r))).
Proof.
  revert r i x s. induction k as [|k IH]; intros r i x s Hok Hi Hk.
  { simpl. assert (i = 10) as -> by (unfold MaxVarintLen64 in Hk; lia).
    destruct (content r) as [|b l] eqn:Hc; simpl; eexists _, _; (split; [done|]);
      (split; [done|]); (split_and!; [lia|done|]); [done|lia]. }
  assert (i < 10) as Hi10 by (unfold MaxVarintLen64 in Hk; lia).
  destruct (content r) as [|b l] eqn:Hc.
  - destruct (ReadByte_nil r Hok Hc) as (r' & b & Hr & Hok' & Hc'). simpl. rewrite Hr.
    eexists _, _. split; [done|]. split; [done|]. split_and!; [lia|lia|]. intros _. simpl.
    unfold read_short. change (@len Z []) with 0. rewrite Z.add_0_r.
    by rewrite (proj2 (Z.ltb_lt i MaxVarintLen64)) by (unfold MaxVarintLen64; lia).
  - destruct (ReadByte_cons r b l Hok Hc) as (r' & Hr & Hok' & Hc' & Hf').
    simpl. rewrite (proj2 (Z.eqb_neq i _)) by (unfold MaxVarintLen64; lia). rewrite Hr.
    destruct (b <? 128) eqn:Eb.
    + destruct ((i =? _) && _) eqn:Eo.
      * eexists _, _. split; [done|]. split; [done|]. split_and!; [lia|done|lia].
      * eexists _, _. split; [done|]. split; [done|]. split_and!; [|lia|lia]. intros _. split; [done|].
        by replace (Z.to_nat (i + 1 - i)) with 1%nat by lia.
    + specialize (IH r' (i + 1) (Z.lor x (u64 (Z.shiftl (Z.land b 127) s))) (s + 7) Hok').
      rewrite Hc' in IH. specialize (IH ltac:(lia) ltac:(lia)).
      destruct (Uvarint_loop l (i + 1) _ _) as [v n] eqn:EU.
      destruct IH as (r'' & a & Hr'' & Hok'' & Hpos & Hneg & Hzero).
      exists r'', a. split; [done|]. split; [done|]. split_and!.
      * intros Hn. destruct (Hpos Hn) as [-> ->]. split; [done|].
        pose proof (Uvarint_loop_count l (i + 1) (Z.lor x (u64 (Z.shiftl (Z.land b 127) s)))
          (s + 7) ltac:(lia)) as Hc1. rewrite EU in Hc1. simpl in Hc1.
        by replace (Z.to_nat (n - i)) with (S (Z.to_nat (n - (i + 1)))) by lia.
      * done.
      * intros Hn. rewrite (Hzero Hn), len_cons, Hf'. f_equal. f_equal. lia.
Qed.

End ReadUvarint_proofs.

(** The proxy's byte reader over a stream without empty chunks, whose end is
    reported by a read of its own, delivers the bytes of the stream. *)
#[export, refine] Instance byteReader_stream_laws : ByteReaderLaws (byteReader stream) := {|
  br_ok r := stream_wf (inner r) /\ with_last (inner r) = false;
  content r := pending (inner r);
  final r := fin (inner r);
|}.
Proof.
  - intros [s] b l [Hwf Hlast] Hc. simpl in *.
    destruct (stream_Read_spec s 1 ltac:(lia)) as (s' & d & e & HR & Hp & Hf & Hl & _ & Hwf' & Hd & He).
    unfold ReadByte, byteReader_ReadByte. simpl. rewrite HR.
    rewrite Hc in *. rewrite (He ltac:(done) Hlast). specialize (Hd Hwf ltac:(lia) ltac:(done)).
    pose proof (Read_len s 1 _ _ _ ltac:(lia) HR) as Hlen.
    destruct d as [|b' [|b'' d]]; [done| |]; simpl in *.
    + injection Hp as <- ->. eexists. split; [done|]. simpl. rewrite Hl. auto.
    + exfalso. rewrite !len_cons in Hlen. pose proof (len_nonneg d). lia.
  - intros [s] [Hwf Hlast] Hc. simpl in *. destruct s as [[|c cs] f w]; simpl in *.
    + by eexists _, _.
    + exfalso. unfold pending, stream_wf in *. simpl in *. apply Forall_cons in Hwf as [? _].
      by destruct c.
Defined.

Lemma ReadUvarint_spec {R} `{ByteReaderLaws R} (r : R) :
  br_ok r ->
  exists r' a, ReadUvarint r = (r', a) /\ br_ok r' /\
    let '(v, n) := Uvarint (content r) in
    (0 < n -> a = (v, None) /\ content r' = drop (Z.to_nat n) (content r)) /\
    (n < 0 -> a.2 = Some errOverflow) /\
    (n = 0 -> a.2 = Some (read_short (len (content r)) (final r))).
Proof.
  intros Hok. pose proof (ReadUvarint_loop_spec 10 r 0 0 0 Hok ltac:(lia) eq_refl) as HR.
  fold (Uvarint (content r)) (ReadUvarint r) in HR. destruct (Uvarint (content r)) as [v n].
  destruct HR as (r' & a & ? & ? & Hpos & ? & ?). exists r', a.
  rewrite Z.sub_0_r in Hpos. done.
Qed.

(** ** Claims *)

(** Unsigned varints round trip.  For every 64-bit [x]: appending emits at
    most ten bytes after the buffer; [PutUvarint] stores the same bytes and
    returns their number when they fit in the buffer and panics otherwise; and
    [Uvarint], whatever follows, returns [x] and exactly that number. *)
Theorem uvarint_round_trip x (rest : gobytes) :
  is_u64 x -> bytes_ok rest ->
  let enc := AppendUvarint [] x in
  1 <= len enc <= MaxVarintLen64 /\
  (forall buf, AppendUvarint buf x = buf ++ enc) /\
  (forall buf, PutUvarint buf x =
    if decide (len enc <= len buf) then Some (enc ++ drop (length enc) buf, len enc) else None) /\
  Uvarint (enc ++ rest) = (x, len enc).
Proof.
  intros Hx Hr. cbv zeta. rewrite AppendUvarint_bytes by lia. cbn [app]. split_and!.
  - by apply uvarint_bytes_length.
  - by apply uvarint_bytes_length.
  - intros buf. apply AppendUvarint_bytes. lia.
  - intros buf. unfold PutUvarint. rewrite PutUvarint_loop_spec; [|pose proof (len_nonneg buf); lia| |done].
    + fold (uvarint_bytes x). cbv zeta. rewrite Z.add_0_l. cbn [take app].
      by replace (Z.to_nat (len (uvarint_bytes x))) with (length (uvarint_bytes x)) by (unfold len; lia).
    + change (2 ^ (7 * Z.of_nat 10)) with 1180591620717411303424. lia.
  - by apply Uvarint_uvarint_bytes.
Qed.

Lemma uvarint_round_trip_witness :
  AppendUvarint [] 300 = [172; 2] /\ Uvarint ([172; 2] ++ [7]) = (300, 2).
Proof.
  split; [reflexivity|].
  apply (uvarint_round_trip 300 [7]); [lia|repeat constructor; lia].
Defined.

(** Signed varints round trip through the zig-zag encoding, for every
    64-bit value, the most negative one included. *)
Theorem varint_round_trip x (rest : gobytes) :
  is_s64 x -> bytes_ok rest ->
  Varint (AppendVarint [] x ++ rest) = (x, len (AppendVarint [] x)) /\
  (forall buf, AppendVarint buf x = buf ++ AppendVarint [] x).
Proof.
  intros Hx Hr. pose proof (zigzag_u64 x Hx). unfold AppendVarint.
  rewrite AppendUvarint_bytes by lia. cbn [app]. split.
  - unfold Varint. rewrite Uvarint_uvarint_bytes by done. by rewrite unzigzag_zigzag.
  - intros buf. apply AppendUvarint_bytes. lia.
Qed.

Lemma varint_round_trip_witness :
  Varint (AppendVarint [] (-9223372036854775808) ++ [1]) = (-9223372036854775808, 10).
Proof.
  apply (varint_round_trip (-9223372036854775808) [1]); [lia|repeat constructor; lia].
Defined.

(** What [Uvarint] accepts.  It answers [(v, n)] with [n > 0] exactly when
    the first [n] bytes (at most ten) are a digit string of value [v < 2^64]; it
    answers 0 (buffer too small) exactly when no byte ends the number and there
    are at most ten of them; every other input is an overflow, reported with a
    negative count and value 0. *)
Theorem uvarint_decode_complete (buf : gobytes) :
  bytes_ok buf ->
  (forall v n, 0 < n -> Uvarint buf = (v, n) <->
     n <= MaxVarintLen64 /\ n <= len buf /\ digits_value (take (Z.to_nat n) buf) = Some v /\ is_u64 v) /\
  ((Uvarint buf).2 = 0 <-> Forall (fun b => 128 <= b) buf /\ len buf <= MaxVarintLen64) /\
  ((Uvarint buf).2 <= 0 -> (Uvarint buf).1 = 0).
Proof.
  intros Hok. split; [intros v n Hn; split|split; [split|]].
  - destruct (Uvarint_outcome buf Hok) as [pre rest w E Hv Hlt Hle | Hall Hl | pre b rest E Hpre Hov].
    + rewrite !Z.mul_1_r, !Z.add_0_l in *. intros [= <- <-]. subst buf.
      assert (Z.to_nat (len pre) = length pre) as -> by (unfold len; lia).
      rewrite take_app_length, len_app. pose proof (len_nonneg rest). split_and!; [done|lia|done| |done].
      apply Forall_app in Hok as [Hok _]. by apply (digits_value_nonneg pre).
    + intros [= _ <-]. lia.
    + intros [= _ <-]. pose proof (len_nonneg pre). lia.
  - intros (H10 & Hl & Hv & Hu). rewrite <- (take_drop (Z.to_nat n) buf) in Hok |- * at 1.
    apply Forall_app in Hok as [??].
    assert (len (take (Z.to_nat n) buf) = n) as Hlen by (unfold len in *; rewrite length_take; lia).
    rewrite (Uvarint_value _ _ v); [by rewrite Hlen|done|done|done|lia|].
    change (2 ^ 64) with 18446744073709551616. lia.
  - destruct (Uvarint_outcome buf Hok) as [pre rest w E Hv Hlt Hle | Hall Hl | pre b rest E Hpre Hov]; simpl.
    + intros Hlen. destruct pre; [done|]. rewrite len_cons in Hlen. pose proof (len_nonneg pre). lia.
    + done.
    + pose proof (len_nonneg pre). lia.
  - intros [Hall Hl]. destruct (Uvarint_outcome buf Hok) as [pre rest w -> Hv | |pre b rest -> Hpre Hov]; [|done|].
    + exfalso. apply Forall_app in Hok as [Hok _], Hall as [Hall _].
      destruct (digits_value_shape _ _ Hok Hv) as (p & t & -> & _ & Ht & _).
      apply Forall_app in Hall as [_ [? _]%Forall_cons]. lia.
    + exfalso. apply Forall_app in Hall as [_ [? _]%Forall_cons].
      rewrite len_app, len_cons in Hl. pose proof (len_nonneg rest). unfold MaxVarintLen64 in Hl. lia.
  - destruct (Uvarint_outcome buf Hok) as [pre rest w E Hv | | ]; [|done|done]. simpl.
    destruct pre; [done|]. rewrite len_cons. pose proof (len_nonneg pre). lia.
Qed.

Lemma uvarint_decode_complete_witness :
  (Uvarint [255; 255]).2 = 0 /\ Uvarint [128; 1] = (128, 2).
Proof.
  split.
  - apply (proj2 (proj1 (proj2 (uvarint_decode_complete [255; 255] ltac:(repeat constructor; lia))))).
    split; [repeat constructor; lia|vm_compute; discriminate].
  - apply (proj1 (uvarint_decode_complete [128; 1] ltac:(repeat constructor; lia)) 128 2); [lia|].
    split_and!; [vm_compute; discriminate..|reflexivity|lia|lia].
Defined.

(** Reading a varint from the proxy's byte reader is decoding the bytes of
    the stream: the same value, leaving the stream right behind it; overflow
    where the decoder reports overflow; and where the stream ends inside the
    number, its error, with EOF turned into ErrUnexpectedEOF after the first
    byte. *)
Theorem read_uvarint_refines (s : stream) :
  stream_wf s -> with_last s = false ->
  exists s' a, ReadUvarint (byteReader_of s) = (byteReader_of s', a) /\
    let '(v, n) := Uvarint (pending s) in
    (0 < n -> a = (v, None) /\ pending s' = drop (Z.to_nat n) (pending s)) /\
    (n < 0 -> a.2 = Some errOverflow) /\
    (n = 0 -> a.2 = Some (read_short (len (pending s)) (fin s))).
Proof.
  intros Hwf Hl. destruct (ReadUvarint_spec (byteReader_of s)) as ([s'] & a & HR & _ & H);
    [by split|].
  exists s', a. split; [exact HR|exact H].
Qed.

Lemma read_uvarint_refines_witness :
  exists s' a, ReadUvarint (byteReader_of (mk_stream [[172]; [2; 9]] EOF false)) = (byteReader_of s', a)
    /\ a = (300, None) /\ pending s' = [9].
Proof.
  destruct (read_uvarint_refines (mk_stream [[172]; [2; 9]] EOF false)) as (s' & a & HR & H).
  - repeat constructor; discriminate.
  - reflexivity.
  - exists s', a. split; [exact HR|]. exact (proj1 H eq_refl).
Defined.
