(* ===== verification/HostPort.v ===== *)
(** * net: host and port

    [tools/go-patched/src/net/ipsock.go] (SplitHostPort, splitHostZone,
    JoinHostPort) and the byte searches of
    [tools/go-patched/src/internal/bytealg].  The proxy keys its per-client
    counters by the host part of the remote address. *)

From S2P Require Import Prelude.

(** ** bytealg *)

(** The scan of IndexByteString from index [i]. *)
Fixpoint IndexByteString_from (s : gostring) (c i : Z) : Z :=
  match s with
  | [] => -1
  | x :: s => if x =? c then i else IndexByteString_from s c (i + 1)
  end.

Definition IndexByteString (s : gostring) (c : Z) : Z := IndexByteString_from s c 0.

(** The scan of LastIndexByteString from index [k - 1] downwards. *)
Fixpoint LastIndexByteString_from (s : gostring) (c : Z) (k : nat) : Z :=
  match k with
  | O => -1
  | S i => if bool_decide (s !! i = Some c) then Z.of_nat i
           else LastIndexByteString_from s c i
  end.

Definition LastIndexByteString (s : gostring) (c : Z) : Z :=
  LastIndexByteString_from s c (length s).

(** ** net *)

Notation colon := 58 (only parsing).
Notation lbracket := 91 (only parsing).
Notation rbracket := 93 (only parsing).
Notation percent := 37 (only parsing).

Definition missingPort : gostring := str "missing port in address".
Definition tooManyColons : gostring := str "too many colons in address".

(** [None] is a run-time panic (an index or slice out of range). *)
Definition SplitHostPort (hostport : gostring) : option (result (gostring * gostring)) :=
  let addrErr why := Some (Err (AddrError why hostport)) in
  let i := LastIndexByteString hostport colon in
  if i <? 0 then addrErr missingPort else
  c0 ← index hostport 0;
  (* the checks that set host, j and k *)
  let finish (host : gostring) (j k : Z) : option (result (gostring * gostring)) :=
    sj ← slice hostport j (len hostport);
    if 0 <=? IndexByteString sj lbracket then addrErr (str "unexpected '[' in address") else
    sk ← slice hostport k (len hostport);
    if 0 <=? IndexByteString sk rbracket then addrErr (str "unexpected ']' in address") else
    port ← slice hostport (i + 1) (len hostport);
    Some (Ok (host, port)) in
  if c0 =? lbracket then
    let e := IndexByteString hostport rbracket in
    if e <? 0 then addrErr (str "missing ']' in address") else
    if e + 1 =? len hostport then addrErr missingPort else
    if e + 1 =? i then
      host ← slice hostport 1 e;
      finish host 1 (e + 1)
    else
      c ← index hostport (e + 1);
      if c =? colon then addrErr tooManyColons else addrErr missingPort
  else
    host ← slice hostport 0 i;
    if 0 <=? IndexByteString host colon then addrErr tooManyColons else
    finish host 0 0.

Definition splitHostZone (s : gostring) : option (gostring * gostring) :=
  let i := LastIndexByteString s percent in
  if 0 <? i then
    host ← slice s 0 i; zone ← slice s (i + 1) (len s); Some (host, zone)
  else Some (s, []).

Definition JoinHostPort (host port : gostring) : gostring :=
  if 0 <=? IndexByteString host colon then str "[" ++ host ++ str "]:" ++ port
  else host ++ str ":" ++ port.

(** ** The searches *)

Lemma IndexByteString_from_spec s c i :
  (c ∉ s /\ IndexByteString_from s c i = -1) \/
  (exists l1 l2, s = l1 ++ c :: l2 /\ c ∉ l1 /\ IndexByteString_from s c i = i + len l1).
Proof.
  revert i. induction s as [|x s IH]; intros i; simpl.
  { left. split; [apply not_elem_of_nil|done]. }
  destruct (x =? c) eqn:E; zbool.
  - right. subst. exists [], s. split_and!; [done|apply not_elem_of_nil|]. unfold len. simpl. lia.
  - destruct (IH (i + 1)) as [[Hn ->]|(l1 & l2 & -> & Hn & ->)].
    + left. split; [|done]. rewrite not_elem_of_cons. split; [congruence|done].
    + right. exists (x :: l1), l2. split_and!; [done| |rewrite len_cons; lia].
      rewrite not_elem_of_cons. split; [congruence|done].
Qed.

Lemma IndexByteString_spec s c :
  (c ∉ s /\ IndexByteString s c = -1) \/
  (exists l1 l2, s = l1 ++ c :: l2 /\ c ∉ l1 /\ IndexByteString s c = len l1).
Proof. apply (IndexByteString_from_spec s c 0). Qed.

Lemma IndexByteString_neg s c : (0 <=? IndexByteString s c) = false <-> c ∉ s.
Proof.
  destruct (IndexByteString_spec s c) as [[Hn ->]|(l1 & l2 & -> & Hn & ->)]; [done|].
  rewrite Z.leb_gt. pose proof (len_nonneg l1). split; [lia|]. set_solver.
Qed.

Lemma LastIndexByteString_from_spec s c k :
  (k <= length s)%nat ->
  (c ∉ take k s /\ LastIndexByteString_from s c k = -1) \/
  (exists l1 l2, take k s = l1 ++ c :: l2 /\ c ∉ l2 /\ LastIndexByteString_from s c k = len l1).
Proof.
  induction k as [|k IH]; intros Hk; simpl.
  { left. rewrite take_0. split; [apply not_elem_of_nil|done]. }
  destruct (lookup_lt_is_Some_2 s k ltac:(lia)) as [x Hx].
  rewrite (take_S_r _ _ _ Hx). case_bool_decide as E.
  - right. assert (x = c) as -> by congruence.
    exists (take k s), []. split_and!; [done|apply not_elem_of_nil|].
    unfold len. rewrite length_take. lia.
  - destruct IH as [[Hn ->]|(l1 & l2 & Heq & Hn & ->)]; [lia| |].
    + left. split; [|done]. rewrite elem_of_app, list_elem_of_singleton.
      intros [?| ->]; congruence.
    + right. exists l1, (l2 ++ [x]). rewrite Heq, <- app_assoc. simpl. split_and!; [done| |done].
      rewrite elem_of_app, list_elem_of_singleton. intros [?| ->]; congruence.
Qed.

Lemma LastIndexByteString_spec s c :
  (c ∉ s /\ LastIndexByteString s c = -1) \/
  (exists l1 l2, s = l1 ++ c :: l2 /\ c ∉ l2 /\ LastIndexByteString s c = len l1).
Proof.
  destruct (LastIndexByteString_from_spec s c (length s)) as [H|H]; [lia| |];
    rewrite firstn_all in H; [left|right]; exact H.
Qed.

(** The last occurrence, given the split around it. *)
Lemma LastIndexByteString_last l1 l2 c :
  c ∉ l2 -> LastIndexByteString (l1 ++ c :: l2) c = len l1.
Proof.
  intros Hn. destruct (LastIndexByteString_spec (l1 ++ c :: l2) c) as [[H _]|(k1 & k2 & E & Hk & ->)].
  { set_solver. }
  f_equal. revert k1 E. induction l1 as [|x l1 IH]; intros [|y k1]; simpl; intros E; simplify_eq.
  - done.
  - set_solver.
  - exfalso. apply Hk. set_solver.
  - f_equal. by apply IH.
Qed.

Lemma IndexByteString_first l1 l2 c :
  c ∉ l1 -> IndexByteString (l1 ++ c :: l2) c = len l1.
Proof.
  intros Hn. destruct (IndexByteString_spec (l1 ++ c :: l2) c) as [[H _]|(k1 & k2 & E & Hk & ->)].
  { set_solver. }
  f_equal. revert k1 E Hk. induction l1 as [|x l1 IH]; intros [|y k1]; simpl; intros E Hk; simplify_eq.
  - done.
  - set_solver.
  - set_solver.
  - f_equal. apply IH; set_solver.
Qed.

(** ** SplitHostPort *)

Definition no_brackets (s : gostring) : Prop := lbracket ∉ s /\ rbracket ∉ s.

#[export] Instance no_brackets_dec s : Decision (no_brackets s).
Proof. unfold no_brackets. apply _. Defined.

(** The forms that a host and a port may be joined in. *)
Definition hostport_of (s h p : gostring) : Prop :=
  (s = h ++ colon :: p /\ colon ∉ h) \/ s = lbracket :: h ++ rbracket :: colon :: p.

(** The common tail of the two branches. *)
Lemma SplitHostPort_finish (s host l1 port a b : gostring) (j k : Z) :
  s = l1 ++ colon :: port -> s = a ++ drop (Z.to_nat j) s -> j = len a ->
  s = b ++ drop (Z.to_nat k) s -> k = len b ->
  let addrErr why := Some (Err (AddrError why s)) in
  exists r,
  (sj ← slice s j (len s);
   if 0 <=? IndexByteString sj lbracket then addrErr (str "unexpected '[' in address") else
   sk ← slice s k (len s);
   if 0 <=? IndexByteString sk rbracket then addrErr (str "unexpected ']' in address") else
   port ← slice s (len l1 + 1) (len s);
   Some (Ok (host, port))) = Some r /\
  (forall h p, r = Ok (h, p) ->
     h = host /\ p = port /\ lbracket ∉ drop (Z.to_nat j) s /\ rbracket ∉ drop (Z.to_nat k) s) /\
  (lbracket ∉ drop (Z.to_nat j) s -> rbracket ∉ drop (Z.to_nat k) s -> r = Ok (host, port)).
Proof.
  intros Es Ea Ej Eb Ek addrErr.
  assert (forall q m, s = q ++ drop (Z.to_nat m) s -> m = len q ->
    slice s m (len s) = Some (drop (Z.to_nat m) s)) as Hslice.
  { intros q m Eq Em. rewrite Eq at 1 2. rewrite len_app. by apply slice_end. }
  rewrite (Hslice a j), (Hslice b k) by done. cbn [mbind option_bind].
  assert (slice s (len l1 + 1) (len s) = Some port) as ->.
  { rewrite Es. replace (l1 ++ colon :: port) with ((l1 ++ [colon]) ++ port) by (by rewrite <- app_assoc).
    apply slice_end; rewrite !len_app; reflexivity. }
  destruct (0 <=? IndexByteString (drop (Z.to_nat j) s) lbracket) eqn:E1.
  { eexists. split; [done|]. split; [done|]. intros H%IndexByteString_neg. congruence. }
  destruct (0 <=? IndexByteString (drop (Z.to_nat k) s) rbracket) eqn:E2.
  { eexists. split; [done|]. split; [done|]. intros _ H%IndexByteString_neg. congruence. }
  apply IndexByteString_neg in E1, E2.
  eexists. split; [done|]. split; [|done]. intros h p [= <- <-]. done.
Qed.

Lemma len_inj_app {A} (l1 l2 k1 k2 : list A) :
  len l1 = len k1 -> l1 ++ l2 = k1 ++ k2 -> l1 = k1 /\ l2 = k2.
Proof. unfold len. intros Hl. apply app_inj_1. lia. Qed.

Lemma split_last_unique (l1 l2 k1 k2 : gostring) c :
  c ∉ l2 -> c ∉ k2 -> l1 ++ c :: l2 = k1 ++ c :: k2 -> l1 = k1 /\ l2 = k2.
Proof.
  intros H1 H2 E. pose proof (LastIndexByteString_last l1 l2 c H1) as E1.
  rewrite E, LastIndexByteString_last in E1 by done.
  apply len_inj_app in E as [-> E]; [|done]. by injection E.
Qed.

Lemma split_first_unique (l1 l2 k1 k2 : gostring) c :
  c ∉ l1 -> c ∉ k1 -> l1 ++ c :: l2 = k1 ++ c :: k2 -> l1 = k1 /\ l2 = k2.
Proof.
  intros H1 H2 E. pose proof (IndexByteString_first l1 l2 c H1) as E1.
  rewrite E, IndexByteString_first in E1 by done.
  apply len_inj_app in E as [-> E]; [|done]. by injection E.
Qed.

(** Membership side conditions: one occurrence at a time. *)
Ltac notin :=
  unfold no_brackets in *;
  repeat match goal with
  | H : _ ∉ _ ++ _ |- _ => apply not_elem_of_app in H as [??]
  | H : _ ∉ _ :: _ |- _ => apply not_elem_of_cons in H as [??]
  | H : _ /\ _ |- _ => destruct H
  end;
  rewrite ?not_elem_of_app, ?not_elem_of_cons; split_and?; auto; try done; try congruence.

(** What the answer has to be on a string that splits at its last colon. *)
Definition split_ok (s : gostring) (r : result (gostring * gostring)) : Prop :=
  forall h p, r = Ok (h, p) <->
    colon ∉ p /\ no_brackets h /\ no_brackets p /\ hostport_of s h p.

Lemma split_ok_err s e :
  (forall h p, colon ∉ p -> no_brackets h -> no_brackets p -> hostport_of s h p -> False) ->
  split_ok s (Err e).
Proof. intros H h p. split; [done|]. intros (? & ? & ? & ?). exfalso. eauto. Qed.

(** The branch without a leading bracket. *)
Lemma split_ok_plain (c0 : Z) (s' l1 port : gostring) :
  c0 <> lbracket -> c0 :: s' = l1 ++ colon :: port -> colon ∉ port -> colon ∉ l1 ->
  forall r,
  (forall h p, r = Ok (h, p) ->
     h = l1 /\ p = port /\ lbracket ∉ drop 0 (c0 :: s') /\ rbracket ∉ drop 0 (c0 :: s')) ->
  (lbracket ∉ drop 0 (c0 :: s') -> rbracket ∉ drop 0 (c0 :: s') -> r = Ok (l1, port)) ->
  split_ok (c0 :: s') r.
Proof.
  intros Hc Es Hp Hl r H1 H2 h p. rewrite drop_0 in *. unfold no_brackets. split.
  - intros Hr. destruct (H1 h p Hr) as (-> & -> & Hb1 & Hb2). rewrite Es in *.
    split_and!; [notin..|]. left. split; [done|notin].
  - intros (Hp' & Hh & Hpb & [[E Hh']|E]).
    + rewrite E in Es. apply split_last_unique in Es as [-> ->]; [|done|done].
      apply H2; rewrite E; notin.
    + congruence.
Qed.

(** The branch with a leading bracket, when the first closing bracket is just
    before the last colon. *)
Lemma split_ok_bracket (m1 port : gostring) :
  rbracket ∉ m1 -> colon ∉ port ->
  let s := (lbracket :: m1) ++ rbracket :: colon :: port in
  forall r,
  (forall h p, r = Ok (h, p) ->
     h = m1 /\ p = port /\ lbracket ∉ m1 ++ rbracket :: colon :: port /\
     rbracket ∉ colon :: port) ->
  (lbracket ∉ m1 ++ rbracket :: colon :: port -> rbracket ∉ colon :: port -> r = Ok (m1, port)) ->
  split_ok s r.
Proof.
  intros Hm Hp s r H1 H2 h p. unfold no_brackets. split.
  - intros Hr. destruct (H1 h p Hr) as (-> & -> & Hb1 & Hb2).
    split_and!; [notin..|]. by right.
  - intros (Hp' & Hh & Hpb & [[E Hh']|E]); unfold s in E; simpl in E.
    + exfalso. destruct h as [|c h]; simpl in E; [congruence|]. injection E as <- _. notin.
    + injection E as E. apply split_first_unique in E as [-> E]; [|notin..].
      injection E as <-. apply H2; notin.
Qed.

(** A leading bracket without a colon behind its closing bracket: no host and port. *)
Lemma open_bracket_not_split s' e : rbracket ∉ lbracket :: s' -> split_ok (lbracket :: s') (Err e).
Proof.
  intros Hr. apply split_ok_err. intros h p _ [Hh _] _ [[E _]|E].
  - destruct h; simpl in E; [congruence|]. injection E as <- _. notin.
  - rewrite E in Hr. notin.
Qed.

Lemma closed_bracket_not_split m1 e : rbracket ∉ lbracket :: m1 -> split_ok ((lbracket :: m1) ++ [rbracket]) (Err e).
Proof.
  intros Hm. apply split_ok_err. intros h p _ [Hh Hh'] _ [[E _]|E].
  - destruct h; simpl in E; [congruence|]. injection E as <- _. notin.
  - injection E as E. apply split_first_unique in E as [_ E]; [done|notin..].
Qed.

Lemma bracket_not_split m1 m2 l1 port e :
  rbracket ∉ lbracket :: m1 -> (lbracket :: m1) ++ rbracket :: m2 = l1 ++ colon :: port -> colon ∉ port ->
  len (lbracket :: m1) + 1 <> len l1 -> split_ok ((lbracket :: m1) ++ rbracket :: m2) (Err e).
Proof.
  intros Hm Es Hport E2. apply split_ok_err. intros h p Hp [Hh Hh'] _ [[E _]|E].
  - destruct h; simpl in E; [congruence|]. injection E as <- _. notin.
  - injection E as E. apply split_first_unique in E as [-> ->]; [|notin..].
    apply E2. replace ((lbracket :: h) ++ rbracket :: colon :: p)
      with (((lbracket :: h) ++ [rbracket]) ++ colon :: p) in Es by (by rewrite <- app_assoc).
    apply split_last_unique in Es as [<- _]; [|done..]. by rewrite len_app.
Qed.

(** The last colon just behind the closing bracket. *)
Lemma bracket_colon m1 m2 l1 port :
  (lbracket :: m1) ++ rbracket :: m2 = l1 ++ colon :: port -> len (lbracket :: m1) + 1 = len l1 ->
  l1 = (lbracket :: m1) ++ [rbracket] /\ m2 = colon :: port.
Proof.
  intros Es E2. replace ((lbracket :: m1) ++ rbracket :: m2) with (((lbracket :: m1) ++ [rbracket]) ++ m2)
    in Es by (by rewrite <- app_assoc).
  symmetry in Es. apply len_inj_app in Es as [<- <-]; [done|].
  rewrite len_app, !len_cons, len_nil in *. lia.
Qed.

Lemma index_after (a m2 : gostring) x : m2 <> [] -> index (a ++ x :: m2) (len a + 1) = Some (hd 0 m2).
Proof.
  intros Hm. apply index_Some; [pose proof (len_nonneg a); lia|].
  replace (Z.to_nat (len a + 1)) with (length a + 1)%nat by (unfold len; lia).
  rewrite lookup_app_r, Nat.add_comm, Nat.add_sub by lia. by destruct m2.
Qed.

Lemma SplitHostPort_spec s : exists r, SplitHostPort s = Some r /\ split_ok s r.
Proof.
  unfold SplitHostPort.
  destruct (LastIndexByteString_spec s colon) as [[Hn ->]|(l1 & port & Es & Hport & ->)].
  { eexists. split; [done|]. apply split_ok_err. intros h p _ _ _ [[-> _]| ->]; notin. }
  rewrite (proj2 (Z.ltb_ge _ _)) by apply len_nonneg.
  destruct s as [|c0 s']; [by destruct l1|].
  change (index (c0 :: s') 0) with (Some c0). cbn [mbind option_bind].
  destruct (c0 =? lbracket) eqn:Ec; zbool.
  2:{ rewrite Es, slice_app_l, <- Es. cbn [mbind option_bind].
      destruct (0 <=? IndexByteString l1 colon) eqn:E1.
      - eexists. split; [done|]. apply split_ok_err. intros h p Hp _ _ [[E Hh]|E]; [|congruence].
        rewrite E in Es. apply split_last_unique in Es as [-> ->]; [|done|done].
        apply IndexByteString_neg in Hh. congruence.
      - apply IndexByteString_neg in E1.
        destruct (SplitHostPort_finish (c0 :: s') l1 l1 port [] [] 0 0) as (r & Hr & H1 & H2); [done..|].
        exists r. split; [exact Hr|]. by eapply split_ok_plain. }
  subst c0.
  destruct (IndexByteString_spec (lbracket :: s') rbracket) as [[Hr ->]|(m1 & m2 & Em & Hm & ->)].
  { eexists. split; [done|]. by apply open_bracket_not_split. }
  rewrite (proj2 (Z.ltb_ge _ _)) by apply len_nonneg.
  destruct m1 as [|c m1]; simpl in Em; [congruence|]. injection Em as <- ->.
  assert (lbracket :: m1 ++ rbracket :: m2 = (lbracket :: m1) ++ rbracket :: m2) as Es' by done.
  rewrite Es' in *. rewrite (len_app _ (rbracket :: _)), (len_cons rbracket).
  destruct (len _ + 1 =? len _ + _) eqn:E1; zbool.
  { assert (m2 = []) as -> by (destruct m2; [done|]; rewrite !len_cons in E1;
      pose proof (len_nonneg m2); lia).
    eexists. split; [done|]. by apply closed_bracket_not_split. }
  destruct (len _ + 1 =? len l1) eqn:E2; zbool.
  - destruct (bracket_colon m1 m2 l1 port Es E2) as [-> ->].
    replace (len _ + (1 + len _)) with (len ((lbracket :: m1) ++ rbracket :: colon :: port))
      by (by rewrite len_app, (len_cons rbracket)).
    rewrite ((slice_mid [lbracket] m1 (rbracket :: colon :: port) 1 (len (lbracket :: m1))
      eq_refl ltac:(rewrite len_cons; done)) :
      slice ((lbracket :: m1) ++ _) 1 (len (lbracket :: m1)) = Some m1).
    cbn [mbind option_bind].
    set (b := (lbracket :: m1) ++ [rbracket]).
    assert (len (lbracket :: m1) + 1 = len b) as Hk by (unfold b; rewrite len_app; done).
    assert ((lbracket :: m1) ++ rbracket :: colon :: port = b ++ colon :: port) as Hsb
      by (unfold b; by rewrite <- app_assoc).
    assert (drop (Z.to_nat (len (lbracket :: m1) + 1)) (b ++ colon :: port) = colon :: port) as Hd
      by (rewrite Hk; unfold len; by rewrite Nat2Z.id, drop_app_length).
    destruct (SplitHostPort_finish ((lbracket :: m1) ++ rbracket :: colon :: port) m1 b port
      [lbracket] b 1 (len (lbracket :: m1) + 1)) as (r & Hr & H1 & H2);
      [done|done|done|by rewrite Hsb, Hd|done|].
    rewrite Hsb, Hd in H1, H2. rewrite <- Hsb in H1, H2.
    exists r. split; [exact Hr|]. apply split_ok_bracket; [notin|done|done|done].
  - rewrite index_after by (intros ->; rewrite len_nil in E1; lia). cbn [mbind option_bind].
    destruct (hd 0 m2 =? colon); eexists; (split; [done|by eapply bracket_not_split]).
Qed.

(** ** Claims *)

(** net.SplitHostPort never panics, and it answers [(h, p)] on exactly the
    strings [h:p] with no colon in [h], and [[h]:p], where the port has no colon
    and neither part a bracket.  Every other string is an error. *)
Theorem split_host_port_complete (s : gostring) :
  exists r, SplitHostPort s = Some r /\
    forall h p, r = Ok (h, p) <->
      colon ∉ p /\ no_brackets h /\ no_brackets p /\
      ((s = h ++ colon :: p /\ colon ∉ h) \/ s = lbracket :: h ++ rbracket :: colon :: p).
Proof. destruct (SplitHostPort_spec s) as (r & Hr & Hok). by exists r. Qed.

Lemma SplitHostPort_Join h p :
  colon ∉ p -> no_brackets h -> no_brackets p -> SplitHostPort (JoinHostPort h p) = Some (Ok (h, p)).
Proof.
  intros Hp Hh Hpb. destruct (SplitHostPort_spec (JoinHostPort h p)) as (r & -> & Hok).
  f_equal. apply Hok. split_and!; [done..|]. unfold JoinHostPort.
  destruct (0 <=? IndexByteString h colon) eqn:E.
  - right. done.
  - left. split; [done|]. by apply IndexByteString_neg.
Qed.

(** net.JoinHostPort and net.SplitHostPort are inverse: splitting a joined
    host and port gives them back, for IPv6 literals too; and a string that splits
    without brackets around its host, or with a host that contains a colon, is
    what joining its parts produces. *)
Theorem join_split_host_port (h p s : gostring) :
  colon ∉ p -> no_brackets h -> no_brackets p ->
  SplitHostPort (JoinHostPort h p) = Some (Ok (h, p)) /\
  (SplitHostPort s = Some (Ok (h, p)) -> colon ∈ h \/ lbracket ∉ s -> s = JoinHostPort h p).
Proof.
  intros Hp Hh Hpb. split; [by apply SplitHostPort_Join|]. intros Hs Hc.
  destruct (SplitHostPort_spec s) as (r & Hr & Hok). rewrite Hs in Hr. injection Hr as <-.
  destruct (proj1 (Hok h p) eq_refl) as (_ & _ & _ & [[-> Hn]| ->]); unfold JoinHostPort;
    destruct (0 <=? IndexByteString h colon) eqn:E; try done.
  - apply IndexByteString_neg in Hn. congruence.
  - apply IndexByteString_neg in E. destruct Hc as [?|Hc]; [done|]. notin.
Qed.

Lemma join_split_host_port_witness :
  SplitHostPort (JoinHostPort (str "::1") (str "80")) = Some (Ok (str "::1", str "80")) /\
  (SplitHostPort (str "[::1]:80") = Some (Ok (str "::1", str "80")) ->
   colon ∈ str "::1" \/ lbracket ∉ str "[::1]:80" -> str "[::1]:80" = JoinHostPort (str "::1") (str "80")).
Proof.
  apply (join_split_host_port (str "::1") (str "80") (str "[::1]:80")); lit.
Defined.
