(* ===== verification/NetIP.v ===== *)
(** * net: IP addresses, masks and networks

    [tools/go-patched/src/net/ip.go].  The proxy classifies the addresses that a
    host resolves to with [IsLoopback], [IsPrivate], [IsLinkLocalUnicast] and
    [IsLinkLocalMulticast] before it dials.

    An [IP] and an [IPMask] are byte slices; where the code distinguishes a nil
    result, the model returns an [option].  Every index below is guarded by the
    length test that the code makes, so [at_] has a default that is never used. *)

From S2P Require Import Prelude.
Local Open Scope go_scope.

Notation IP := (list Z) (only parsing).
Notation IPMask := (list Z) (only parsing).

Record IPNet := mk_IPNet { net_IP : IP; net_Mask : IPMask }.

Definition IPv4len : Z := 4.
Definition IPv6len : Z := 16.

Definition v4InV6Prefix : gobytes := [0; 0; 0; 0; 0; 0; 0; 0; 0; 0; 255; 255].

Definition IPv4 (a b c d : Z) : IP := v4InV6Prefix ++ [a; b; c; d].
Definition IPv4Mask (a b c d : Z) : IPMask := [a; b; c; d].

(** The loop of CIDRMask over the [l] bytes of the mask; [n] is the number of
    ones still to place. *)
Fixpoint CIDRMask_loop (l : nat) (n : Z) : IPMask :=
  match l with
  | O => []
  | S l =>
      if 8 <=? n then 255 :: CIDRMask_loop l (n - 8)
      else u8 (Z.lnot (255 >> n)) :: CIDRMask_loop l 0
  end.

Definition CIDRMask (ones bits : Z) : option IPMask :=
  if negb (bits =? 8 * IPv4len) && negb (bits =? 8 * IPv6len) then None
  else if (ones <? 0) || (bits <? ones) then None
  else Some (CIDRMask_loop (Z.to_nat (bits / 8)) ones).

Definition IPv4bcast : IP := IPv4 255 255 255 255.
Definition IPv4zero : IP := IPv4 0 0 0 0.
Definition IPv6unspecified : IP := [0; 0; 0; 0; 0; 0; 0; 0; 0; 0; 0; 0; 0; 0; 0; 0].
Definition IPv6loopback : IP := [0; 0; 0; 0; 0; 0; 0; 0; 0; 0; 0; 0; 0; 0; 0; 1].

(** bytealg.Equal *)
Definition bytes_equal (a b : gobytes) : bool := bool_decide (a = b).

(** Is p all zeros? *)
Fixpoint isZeros (p : IP) : bool :=
  match p with
  | [] => true
  | x :: p => if negb (x =? 0) then false else isZeros p
  end.

Definition To4 (ip : IP) : option IP :=
  if len ip =? IPv4len then Some ip
  else if (len ip =? IPv6len) && isZeros (take 10 ip) && (at_ ip 10 =? 255) &&
          (at_ ip 11 =? 255)
  then Some (take 4 (drop 12 ip))
  else None.

Definition To16 (ip : IP) : option IP :=
  if len ip =? IPv4len then Some (IPv4 (at_ ip 0) (at_ ip 1) (at_ ip 2) (at_ ip 3))
  else if len ip =? IPv6len then Some ip
  else None.

Definition Equal (ip x : IP) : bool :=
  if len ip =? len x then bytes_equal ip x
  else if (len ip =? IPv4len) && (len x =? IPv6len) then
    bytes_equal (take 12 x) v4InV6Prefix && bytes_equal ip (drop 12 x)
  else if (len ip =? IPv6len) && (len x =? IPv4len) then
    bytes_equal (take 12 ip) v4InV6Prefix && bytes_equal (drop 12 ip) x
  else false.

Definition IsUnspecified (ip : IP) : bool := Equal ip IPv4zero || Equal ip IPv6unspecified.

Definition IsLoopback (ip : IP) : bool :=
  match To4 ip with
  | Some ip4 => at_ ip4 0 =? 127
  | None => Equal ip IPv6loopback
  end.

Definition IsPrivate (ip : IP) : bool :=
  match To4 ip with
  | Some ip4 =>
      (at_ ip4 0 =? 10) ||
      ((at_ ip4 0 =? 172) && (at_ ip4 1 .& 240 =? 16)) ||
      ((at_ ip4 0 =? 192) && (at_ ip4 1 =? 168))
  | None => (len ip =? IPv6len) && (at_ ip 0 .& 254 =? 252)
  end.

Definition IsMulticast (ip : IP) : bool :=
  match To4 ip with
  | Some ip4 => at_ ip4 0 .& 240 =? 224
  | None => (len ip =? IPv6len) && (at_ ip 0 =? 255)
  end.

Definition IsInterfaceLocalMulticast (ip : IP) : bool :=
  (len ip =? IPv6len) && (at_ ip 0 =? 255) && (at_ ip 1 .& 15 =? 1).

Definition IsLinkLocalMulticast (ip : IP) : bool :=
  match To4 ip with
  | Some ip4 => (at_ ip4 0 =? 224) && (at_ ip4 1 =? 0) && (at_ ip4 2 =? 0)
  | None => (len ip =? IPv6len) && (at_ ip 0 =? 255) && (at_ ip 1 .& 15 =? 2)
  end.

Definition IsLinkLocalUnicast (ip : IP) : bool :=
  match To4 ip with
  | Some ip4 => (at_ ip4 0 =? 169) && (at_ ip4 1 =? 254)
  | None => (len ip =? IPv6len) && (at_ ip 0 =? 254) && (at_ ip 1 .& 192 =? 128)
  end.

Definition IsGlobalUnicast (ip : IP) : bool :=
  ((len ip =? IPv4len) || (len ip =? IPv6len)) &&
  negb (Equal ip IPv4bcast) && negb (IsUnspecified ip) && negb (IsLoopback ip) &&
  negb (IsMulticast ip) && negb (IsLinkLocalUnicast ip).

Definition classAMask : IPMask := IPv4Mask 255 0 0 0.
Definition classBMask : IPMask := IPv4Mask 255 255 0 0.
Definition classCMask : IPMask := IPv4Mask 255 255 255 0.

Definition DefaultMask (ip : IP) : option IPMask :=
  ip ← To4 ip;
  if at_ ip 0 <? 128 then Some classAMask
  else if at_ ip 0 <? 192 then Some classBMask
  else Some classCMask.

Fixpoint allFF (b : gobytes) : bool :=
  match b with
  | [] => true
  | c :: b => if negb (c =? 255) then false else allFF b
  end.

(** The loop [out[i] = ip[i] & mask[i]]; both have the same length. *)
Fixpoint and_bytes (ip mask : gobytes) : gobytes :=
  match ip, mask with
  | x :: ip, y :: mask => (x .& y) :: and_bytes ip mask
  | _, _ => []
  end.

Definition Mask (ip : IP) (mask : IPMask) : option IP :=
  let mask :=
    if (len mask =? IPv6len) && (len ip =? IPv4len) && allFF (take 12 mask)
    then drop 12 mask else mask in
  let ip :=
    if (len mask =? IPv4len) && (len ip =? IPv6len) && bytes_equal (take 12 ip) v4InV6Prefix
    then drop 12 ip else ip in
  if negb (len ip =? len mask) then None else Some (and_bytes ip mask).

(** hexDigit[v] for a nibble. *)
Definition hexDigit (v : Z) : Z := if v <? 10 then 48 + v else 87 + v.

Fixpoint hexString (b : gobytes) : gostring :=
  match b with
  | [] => []
  | tn :: b => hexDigit (tn >> 4) :: hexDigit (tn .& 15) :: hexString b
  end.

Definition matchAddrFamily (ip x : IP) : bool :=
  let isSome {A} (o : option A) := match o with Some _ => true | None => false end in
  (isSome (To4 ip) && isSome (To4 x)) ||
  (isSome (To16 ip) && negb (isSome (To4 ip)) && isSome (To16 x) && negb (isSome (To4 x))).

(** [for v&0x80 != 0 { n++; v <<= 1 }] on a uint8: at most eight rounds, since
    every round shifts in a zero. *)
Fixpoint count_ones (k : nat) (n v : Z) : Z * Z :=
  match k with
  | O => (n, v)
  | S k => if negb (v .& 128 =? 0) then count_ones k (n + 1) (u8 (v << 1)) else (n, v)
  end.

Fixpoint simpleMaskLength_loop (mask : IPMask) (n : Z) : Z :=
  match mask with
  | [] => n
  | v :: mask =>
      if v =? 255 then simpleMaskLength_loop mask (n + 8)
      else
        let '(n, v) := count_ones 8 n v in
        if negb (v =? 0) then -1
        else if isZeros mask then n else -1
  end.

Definition simpleMaskLength (mask : IPMask) : Z := simpleMaskLength_loop mask 0.

Definition Size (m : IPMask) : Z * Z :=
  let ones := simpleMaskLength m in
  let bits := len m * 8 in
  if ones =? -1 then (0, 0) else (ones, bits).

Definition IPMask_String (m : IPMask) : gostring :=
  if len m =? 0 then str "<nil>" else hexString m.

Definition networkNumberAndMask (n : IPNet) : option (IP * IPMask) :=
  ip ← match To4 (net_IP n) with
       | Some ip => Some ip
       | None => if negb (len (net_IP n) =? IPv6len) then None else Some (net_IP n)
       end;
  let m := net_Mask n in
  if len m =? IPv4len then
    if negb (len ip =? IPv4len) then None else Some (ip, m)
  else if len m =? IPv6len then
    if len ip =? IPv4len then Some (ip, drop 12 m) else Some (ip, m)
  else None.

(** The comparison loop of Contains, over slices of one length. *)
Fixpoint Contains_loop (nn m ip : gobytes) : bool :=
  match nn, m, ip with
  | a :: nn, k :: m, b :: ip =>
      if negb (a .& k =? b .& k) then false else Contains_loop nn m ip
  | _, _, _ => true
  end.

Definition Contains (n : IPNet) (ip : IP) : bool :=
  let '(nn, m) := default ([], []) (networkNumberAndMask n) in
  let ip := default ip (To4 ip) in
  if negb (len ip =? len nn) then false else Contains_loop nn m ip.

Definition copyIP (x : IP) : IP := x.

(** ** Facts about bytes, by enumeration *)

Definition valid_ip (ip : IP) : Prop := bytes_ok ip /\ (len ip = 4 \/ len ip = 16).

#[export] Instance valid_ip_dec ip : Decision (valid_ip ip).
Proof. unfold valid_ip. apply _. Defined.

(** The two shapes of a valid address. *)
Lemma valid_ip_inv ip :
  valid_ip ip ->
  (exists a b c d, ip = [a; b; c; d] /\ bytes_ok [a; b; c; d]) \/
  (exists p a b c d, ip = p ++ [a; b; c; d] /\ len p = 12 /\ bytes_ok p /\ bytes_ok [a; b; c; d]).
Proof.
  intros [Hok [Hl|Hl]]; unfold len in Hl.
  - left. destruct ip as [|a [|b [|c [|d [|]]]]]; simpl in Hl; try lia. eauto 10.
  - right. assert (length (drop 12 ip) = 4%nat) as Hd by (rewrite length_drop; lia).
    assert (len (take 12 ip) = 12) as Ht by (unfold len; rewrite length_take; lia).
    rewrite <- (take_drop 12 ip) in Hok. apply Forall_app in Hok as [H1 H2].
    destruct (drop 12 ip) as [|a [|b [|c [|d [|]]]]] eqn:E; simpl in Hd; try lia.
    exists (take 12 ip), a, b, c, d. rewrite <- E at 1. by rewrite take_drop.
Qed.

Lemma isZeros_spec p : isZeros p = true <-> Forall (eq 0) p.
Proof.
  induction p as [|x p IH]; simpl; [by split|]. rewrite Forall_cons.
  destruct (x =? 0) eqn:E; zbool; simpl; subst; intuition congruence.
Qed.

(** To4 recognises exactly the 4-byte form and the IPv4-mapped 16-byte form. *)
Lemma To4_mapped p a b c d :
  len p = 12 -> To4 (p ++ [a; b; c; d]) = if decide (p = v4InV6Prefix) then Some [a; b; c; d] else None.
Proof.
  intros Hp. unfold To4, IPv4len, IPv6len. rewrite len_app, Hp. change (len [a; b; c; d]) with 4.
  change (12 + 4 =? 4) with false. change (12 + 4 =? 16) with true. cbn [andb].
  unfold len in Hp.
  destruct p as [|p0 [|p1 [|p2 [|p3 [|p4 [|p5 [|p6 [|p7 [|p8 [|p9 [|p10 [|p11 [|]]]]]]]]]]]]];
    simpl in Hp; try lia.
  simpl. unfold v4InV6Prefix.
  repeat match goal with
  | |- context [negb (?x =? 0)] =>
      destruct (x =? 0) eqn:?; zbool; simpl; subst; [|rewrite decide_False by congruence; done]
  end.
  destruct (at_ _ 10 =? 255) eqn:E1; destruct (at_ _ 11 =? 255) eqn:E2; unfold at_ in *; simpl in *;
    zbool; subst; rewrite ?decide_True by done; try rewrite decide_False by congruence; done.
Qed.

Lemma To4_v4 a b c d : To4 [a; b; c; d] = Some [a; b; c; d].
Proof. done. Qed.

Lemma To4_IPv4 a b c d : To4 (IPv4 a b c d) = Some [a; b; c; d].
Proof. unfold IPv4. by rewrite To4_mapped, decide_True. Qed.

(** ** Equality up to the 16-byte form *)

Lemma Equal_To16 ip x :
  valid_ip ip -> valid_ip x -> Equal ip x = true <-> To16 ip = To16 x.
Proof.
  intros [(a & b & c & d & -> & _)|(p & a & b & c & d & -> & Hp & _)]%valid_ip_inv
    [(a' & b' & c' & d' & -> & _)|(p' & a' & b' & c' & d' & -> & Hp' & _)]%valid_ip_inv;
  unfold Equal, To16, IPv4len, IPv6len; rewrite ?len_app, ?Hp, ?Hp';
  change (len [a; b; c; d]) with 4; change (len [a'; b'; c'; d']) with 4; simpl; unfold at_; simpl;
  unfold bytes_equal, IPv4; rewrite ?andb_true_iff, ?bool_decide_eq_true.
  - split; [by intros [= -> -> -> ->]|by intros [= -> -> -> ->]].
  - assert (length p' = 12%nat) as Hl by (unfold len in Hp'; lia).
    rewrite take_app_le, firstn_all2, drop_app_ge, Hl by lia. simpl. split.
    + intros [-> [= -> -> -> ->]]. done.
    + intros [= E]. change (v4InV6Prefix ++ [a; b; c; d] = p' ++ [a'; b'; c'; d']) in E.
      apply app_inj_1 in E as [<- [= -> -> -> ->]]; [done|]. by rewrite Hl.
  - assert (length p = 12%nat) as Hl by (unfold len in Hp; lia).
    rewrite take_app_le, firstn_all2, drop_app_ge, Hl by lia. simpl. split.
    + intros [-> [= -> -> -> ->]]. done.
    + intros [= E]. change (p ++ [a; b; c; d] = v4InV6Prefix ++ [a'; b'; c'; d']) in E.
      apply app_inj_1 in E as [-> [= -> -> -> ->]]; [done|]. by rewrite Hl.
  - split; [by intros ->|by intros [= ->]].
Qed.

(** ** Classification by networks *)

(** The network of address [ip] with [ones] leading bits. *)
Definition net (ip : IP) (ones : Z) : IPNet :=
  mk_IPNet ip (default [] (CIDRMask ones (8 * (if decide (To4 ip = None) then 16 else 4)))).

Definition v6_head (a b : Z) : IP := [a; b; 0; 0; 0; 0; 0; 0; 0; 0; 0; 0; 0; 0; 0; 0].

Definition private_nets : list IPNet :=
  [net (IPv4 10 0 0 0) 8; net (IPv4 172 16 0 0) 12; net (IPv4 192 168 0 0) 16; net (v6_head 252 0) 7].
Definition loopback_nets : list IPNet := [net (IPv4 127 0 0 0) 8; net IPv6loopback 128].
Definition link_local_nets : list IPNet := [net (IPv4 169 254 0 0) 16; net (v6_head 254 128) 10].
(** RFC 4291 multicast of link-local scope: ff02::/16 with any flags. *)
Definition link_local_multicast_nets : list IPNet :=
  [net (IPv4 224 0 0 0) 24; mk_IPNet (v6_head 255 2) (v6_head 255 15)].

Definition in_nets (nets : list IPNet) (ip : IP) : bool := existsb (fun n => Contains n ip) nets.

Lemma byte_land_255 b : is_byte b -> Z.land b 255 = b.
Proof. intros Hb. apply Z.eqb_eq. revert b Hb. apply byte_enum. by vm_compute. Qed.

(** Contains, for a network and an address given byte by byte. *)
Lemma Contains_v4 n m0 m1 m2 m3 a b c d a' b' c' d' ip :
  networkNumberAndMask n = Some ([a; b; c; d], [m0; m1; m2; m3]) ->
  To4 ip = Some [a'; b'; c'; d'] ->
  Contains n ip = ((a .& m0 =? a' .& m0) && (b .& m1 =? b' .& m1) &&
                   (c .& m2 =? c' .& m2) && (d .& m3 =? d' .& m3)).
Proof.
  intros Hn Hip. unfold Contains. rewrite Hn, Hip. simpl.
  repeat (destruct (_ =? _); simpl; try done).
Qed.

Lemma Contains_family n nn m ip :
  networkNumberAndMask n = Some (nn, m) ->
  len (default ip (To4 ip)) <> len nn -> Contains n ip = false.
Proof.
  intros Hn Hl. unfold Contains. rewrite Hn. simpl.
  by rewrite (proj2 (Z.eqb_neq _ _)) by done.
Qed.

Lemma Contains_loop_zero nn m ip :
  Forall (eq 0) m -> Contains_loop nn m ip = true.
Proof.
  revert nn ip. induction m as [|k m IH]; intros [|a nn] [|b ip]; simpl; try done.
  intros [<- H]%Forall_cons. rewrite !Z.land_0_r. simpl. by apply IH.
Qed.

(** An IPv6 network whose mask is zero after its first two bytes. *)
Lemma Contains_v6 n a b m0 m1 m2 (r : gobytes) p0 p1 ps :
  networkNumberAndMask n = Some (a :: b :: r, m0 :: m1 :: m2) -> len r = 14 ->
  Forall (eq 0) m2 -> len ps = 14 -> To4 (p0 :: p1 :: ps) = None ->
  Contains n (p0 :: p1 :: ps) = ((a .& m0 =? p0 .& m0) && (b .& m1 =? p1 .& m1)).
Proof.
  intros Hn Hr Hz Hps H4. unfold Contains. rewrite Hn, H4. cbn [from_option id].
  rewrite !len_cons, Hr, Hps. simpl.
  destruct (_ =? _); simpl; [|done]. destruct (_ =? _); simpl; [|done].
  by apply Contains_loop_zero.
Qed.

(** A valid address is IPv4 (in either form), or a 16-byte one that is not. *)
Lemma valid_ip_cases ip :
  valid_ip ip ->
  (exists a b c d, To4 ip = Some [a; b; c; d] /\ bytes_ok [a; b; c; d]) \/
  (To4 ip = None /\ exists p0 p1 ps,
     ip = p0 :: p1 :: ps /\ len ps = 14 /\ is_byte p0 /\ is_byte p1 /\ bytes_ok ps).
Proof.
  intros [(a & b & c & d & -> & H)|(p & a & b & c & d & -> & Hp & Hok & H)]%valid_ip_inv.
  { left. eauto 10. }
  rewrite To4_mapped by done. case_decide as E; [left; eauto 10|right].
  split; [done|]. destruct p as [|p0 [|p1 ps]]; [done|done|].
  exists p0, p1, (ps ++ [a; b; c; d]). rewrite !Forall_cons in Hok.
  destruct Hok as (? & ? & ?). split_and!; try done.
  - rewrite len_app. rewrite !len_cons in Hp. change (len [a; b; c; d]) with 4. lia.
  - by apply Forall_app.
Qed.

Lemma Contains_loop_ff nn m ip :
  Forall (eq 255) m -> len m = len nn -> len ip = len nn -> bytes_ok nn -> bytes_ok ip ->
  Contains_loop nn m ip = bool_decide (nn = ip).
Proof.
  revert m ip. induction nn as [|a nn IH]; intros m ip Hm Hl1 Hl2 Ha Hb; unfold len in Hl1, Hl2;
    destruct m as [|k m], ip as [|b ip]; simpl in Hl1, Hl2; try lia; [done|].
  apply Forall_cons in Hm as [<- Hm], Ha as [Ha Ha'], Hb as [Hb Hb']. simpl.
  rewrite !byte_land_255 by done.
  destruct (a =? b) eqn:E; zbool; simpl.
  - subst. rewrite IH by (done || (unfold len; lia)). apply bool_decide_ext. naive_solver.
  - rewrite bool_decide_false; [done|congruence].
Qed.

(** Rewrite every Contains of a literal network, the address being IPv4 ([H4] is
    To4) or not. *)
Ltac nets :=
  repeat first
    [ erewrite Contains_v4 by first [eassumption | vm_compute; reflexivity]
    | erewrite Contains_family by first [vm_compute; reflexivity |
        match goal with H : To4 ?ip = _ |- context [To4 ?ip] => rewrite H end;
        cbn [from_option id]; rewrite ?len_cons; unfold len in *; simpl; lia]
    | erewrite Contains_v6 by first [vm_compute; reflexivity | eassumption |
        repeat constructor] ].

(** Constant bytes of the network on the right, trivial tests away. *)
Ltac net_consts :=
  repeat match goal with
  | |- context [Z.land (Zpos ?a) (Zpos ?b)] =>
      let v := eval vm_compute in (Z.land (Zpos a) (Zpos b)) in
      change (Z.land (Zpos a) (Zpos b)) with v
  end;
  rewrite ?Z.land_0_r, ?Z.land_0_l, ?Z.eqb_refl, ?andb_true_r, ?orb_false_r,
    ?byte_land_255 by assumption;
  repeat match goal with
  | |- context [Z.eqb (Zpos ?p) ?x] =>
      lazymatch x with Zpos _ => fail | _ => rewrite (Z.eqb_sym (Zpos p) x) end
  | |- context [Z.eqb Z0 ?x] =>
      lazymatch x with Z0 => fail | Zpos _ => fail | _ => rewrite (Z.eqb_sym Z0 x) end
  end.

Lemma IsPrivate_nets ip : valid_ip ip -> IsPrivate ip = in_nets private_nets ip.
Proof.
  intros [(a & b & c & d & H4 & Hb)|(H4 & p0 & p1 & ps & -> & Hl & H0 & H1 & _)]%valid_ip_cases;
    unfold IsPrivate, in_nets, private_nets; cbn [existsb]; nets; rewrite H4.
  - rewrite !Forall_cons in Hb. destruct Hb as (? & ? & _). unfold at_. cbn [nth].
    net_consts. by rewrite orb_assoc.
  - rewrite !len_cons, Hl. net_consts. done.
Qed.

Lemma IsLinkLocalUnicast_nets ip :
  valid_ip ip -> IsLinkLocalUnicast ip = in_nets link_local_nets ip.
Proof.
  intros [(a & b & c & d & H4 & Hb)|(H4 & p0 & p1 & ps & -> & Hl & H0 & H1 & _)]%valid_ip_cases;
    unfold IsLinkLocalUnicast, in_nets, link_local_nets; cbn [existsb]; nets; rewrite H4.
  - rewrite !Forall_cons in Hb. destruct Hb as (? & ? & _). unfold at_. cbn [nth]. by net_consts.
  - rewrite !len_cons, Hl. unfold at_. cbn [nth]. by net_consts.
Qed.

Lemma IsLinkLocalMulticast_nets ip :
  valid_ip ip -> IsLinkLocalMulticast ip = in_nets link_local_multicast_nets ip.
Proof.
  intros [(a & b & c & d & H4 & Hb)|(H4 & p0 & p1 & ps & -> & Hl & H0 & H1 & _)]%valid_ip_cases;
    unfold IsLinkLocalMulticast, in_nets, link_local_multicast_nets; cbn [existsb]; nets; rewrite H4.
  - rewrite !Forall_cons in Hb. destruct Hb as (? & ? & ? & _). unfold at_. cbn [nth]. by net_consts.
  - rewrite !len_cons, Hl. unfold at_. cbn [nth]. by net_consts.
Qed.

Lemma IsLoopback_nets ip : valid_ip ip -> IsLoopback ip = in_nets loopback_nets ip.
Proof.
  intros [(a & b & c & d & H4 & Hb)|(H4 & p0 & p1 & ps & -> & Hl & H0 & H1 & Hps)]%valid_ip_cases;
    unfold IsLoopback, in_nets, loopback_nets; cbn [existsb]; nets; rewrite H4.
  - rewrite !Forall_cons in Hb. destruct Hb as (? & ? & ? & _). unfold at_. cbn [nth]. by net_consts.
  - unfold Contains, Equal. rewrite H4, !len_cons, Hl. cbn [from_option id].
    replace (networkNumberAndMask (net IPv6loopback 128))
      with (Some (IPv6loopback, repeat 255 16)) by (by vm_compute).
    cbn [from_option id]. rewrite !len_cons, Hl. change (len IPv6loopback) with 16.
    change (1 + (1 + 14) =? 16) with true. cbn [negb].
    rewrite Contains_loop_ff.
    + rewrite orb_false_r. simpl. apply bool_decide_ext. naive_solver.
    + repeat constructor.
    + done.
    + rewrite !len_cons, Hl. done.
    + lit.
    + by repeat apply Forall_cons_2.
Qed.

(** ** Masks *)

(** All prefix lengths of the two families. *)
Definition mask_cases : list (Z * Z) :=
  map (fun n => (n, 32)) (seqZ 0 33) ++ map (fun n => (n, 128)) (seqZ 0 129).

Definition mask_case_ok (c : Z * Z) : bool :=
  match CIDRMask c.1 c.2 with
  | Some m => bool_decide (Size m = c) && bool_decide (bytes_ok m) && (len m * 8 =? c.2)
  | None => false
  end.

Lemma mask_cases_ok : forallb mask_case_ok mask_cases = true.
Proof. by vm_compute. Qed.

Lemma CIDRMask_Size_ok ones bits :
  (bits = 32 \/ bits = 128) -> 0 <= ones <= bits ->
  exists m, CIDRMask ones bits = Some m /\ Size m = (ones, bits) /\ bytes_ok m /\ len m * 8 = bits.
Proof.
  intros Hb Ho. assert (mask_case_ok (ones, bits) = true) as H.
  { pose proof mask_cases_ok as H. rewrite forallb_forall in H. apply H, list_elem_of_In.
    unfold mask_cases. rewrite elem_of_app, !list_elem_of_fmap.
    destruct Hb as [-> | ->]; [left|right]; exists ones; (split; [done|apply elem_of_seqZ; lia]). }
  unfold mask_case_ok in H. simpl in H. destruct (CIDRMask ones bits) as [m|]; [|done].
  zbool. rewrite !bool_decide_eq_true in *. eauto 10.
Qed.

Lemma CIDRMask_loop_zero l : CIDRMask_loop l 0 = repeat 0 l.
Proof. induction l as [|l IH]; simpl; [done|]. by rewrite IH. Qed.

Lemma isZeros_repeat p : isZeros p = true -> p = repeat 0 (length p).
Proof.
  induction p as [|x p IH]; simpl; [done|]. destruct (x =? 0) eqn:E; zbool; [|done].
  intros H. subst. by rewrite <- IH.
Qed.

(** A byte other than 255 whose ones lead: the byte that CIDRMask writes. *)
Lemma count_ones_byte v n :
  is_byte v -> v <> 255 ->
  exists k, 0 <= k < 8 /\ (count_ones 8 n v).1 = n + k /\
    ((count_ones 8 n v).2 = 0 -> v = u8 (Z.lnot (255 >> k))).
Proof.
  intros Hv Hne.
  assert (forall k n v, count_ones k n v = (n + (count_ones k 0 v).1, (count_ones k 0 v).2)) as Hshift.
  { clear. induction k as [|k IH]; intros n v; simpl; [f_equal; lia|].
    destruct (negb _); [|f_equal; simpl; lia]. rewrite (IH (n + 1)), (IH (0 + 1)). simpl. f_equal. lia. }
  rewrite Hshift. exists (count_ones 8 0 v).1. cbn [fst snd].
  assert ((if v =? 255 then true else
    let '(k, w) := count_ones 8 0 v in
    (0 <=? k) && (k <? 8) && (if w =? 0 then v =? u8 (Z.lnot (255 >> k)) else true)) = true) as H.
  { clear Hne. revert v Hv. apply byte_enum. by vm_compute. }
  rewrite (proj2 (Z.eqb_neq _ _)) in H by done.
  destruct (count_ones 8 0 v) as [k w]. cbn [fst snd]. zbool. split_and!; [lia..|].
  intros ->. simpl in *. zbool. done.
Qed.

#[local] Arguments count_ones : simpl never.

Lemma simpleMaskLength_loop_spec m n k :
  bytes_ok m -> 0 <= n -> simpleMaskLength_loop m n = k -> k <> -1 ->
  n <= k <= n + len m * 8 /\ CIDRMask_loop (length m) (k - n) = m.
Proof.
  revert n. induction m as [|v m IH]; intros n Hm Hn; simpl.
  { intros <- _. change (len []) with 0. split; [lia|done]. }
  apply Forall_cons in Hm as [Hv Hm]. rewrite len_cons. pose proof (len_nonneg m).
  destruct (v =? 255) eqn:E; zbool.
  - intros Hk Hne. destruct (IH (n + 8) Hm ltac:(lia) Hk Hne) as [Hb IH']. split; [lia|].
    rewrite (proj2 (Z.leb_le _ _)) by lia. subst v. f_equal.
    by replace (k - n - 8) with (k - (n + 8)) by lia.
  - destruct (count_ones_byte v n Hv E) as (j & Hj & H1 & H2).
    destruct (count_ones 8 n v) as [n' w] eqn:Ec. cbn [fst snd] in *. subst n'.
    destruct (w =? 0) eqn:Ew; zbool; simpl; [|by intros <- []].
    destruct (isZeros m) eqn:Ez; [|by intros <- []]. intros <- _.
    replace (n + j - n) with j by lia. split; [lia|].
    rewrite (proj2 (Z.leb_gt _ _)) by lia. rewrite (H2 Ew). f_equal.
    rewrite CIDRMask_loop_zero. symmetry. by apply isZeros_repeat.
Qed.

(** ** Properties *)

(** IP.Equal decides equality of addresses up to the IPv4-mapped form: two
    valid addresses are Equal exactly when their 16-byte forms are the same, so
    Equal is reflexive, symmetric and transitive on them. *)
Theorem ip_equal_iff_same_16 ip x :
  valid_ip ip -> valid_ip x ->
  (Equal ip x = true <-> To16 ip = To16 x) /\ Equal ip x = Equal x ip.
Proof.
  intros Hip Hx. pose proof (Equal_To16 ip x Hip Hx) as H1.
  pose proof (Equal_To16 x ip Hx Hip) as H2. split; [done|].
  destruct (Equal ip x), (Equal x ip); try done; exfalso.
  - by discriminate (proj2 H2 (eq_sym (proj1 H1 eq_refl))).
  - by discriminate (proj2 H1 (eq_sym (proj1 H2 eq_refl))).
Qed.

Lemma ip_equal_iff_same_16_witness :
  (Equal [127; 0; 0; 1] (IPv4 127 0 0 1) = true <-> To16 [127; 0; 0; 1] = To16 (IPv4 127 0 0 1)) /\
  Equal [127; 0; 0; 1] (IPv4 127 0 0 1) = Equal (IPv4 127 0 0 1) [127; 0; 0; 1].
Proof. apply (ip_equal_iff_same_16 [127; 0; 0; 1] (IPv4 127 0 0 1)); lit. Defined.

(** The address classes that the proxy tests are the published networks,
    for both forms of an address: IsPrivate is RFC 1918 and fc00::/7, IsLoopback is
    127.0.0.0/8 and ::1, IsLinkLocalUnicast is 169.254.0.0/16 and fe80::/10, and
    IsLinkLocalMulticast is 224.0.0.0/24 and ff?2::/16, membership being IPNet.Contains. *)
Theorem ip_classes_are_networks ip :
  valid_ip ip ->
  IsPrivate ip = in_nets private_nets ip /\
  IsLoopback ip = in_nets loopback_nets ip /\
  IsLinkLocalUnicast ip = in_nets link_local_nets ip /\
  IsLinkLocalMulticast ip = in_nets link_local_multicast_nets ip.
Proof.
  intros H. split_and!;
    auto using IsPrivate_nets, IsLoopback_nets, IsLinkLocalUnicast_nets, IsLinkLocalMulticast_nets.
Qed.

Lemma ip_classes_are_networks_witness :
  let ip := IPv4 172 31 255 254 in
  IsPrivate ip = in_nets private_nets ip /\
  IsLoopback ip = in_nets loopback_nets ip /\
  IsLinkLocalUnicast ip = in_nets link_local_nets ip /\
  IsLinkLocalMulticast ip = in_nets link_local_multicast_nets ip.
Proof. apply (ip_classes_are_networks (IPv4 172 31 255 254)). lit. Defined.

(** CIDRMask and IPMask.Size are inverse to each other, as the comment on
    CIDRMask says: every legal prefix length of either family gives a mask whose Size
    is that length and the family's bit count, and every 4- or 16-byte mask for which
    Size does not answer (0, 0) for a non-canonical mask is the CIDRMask of its Size. *)
Theorem cidr_mask_size_inverse :
  (forall ones bits, (bits = 32 \/ bits = 128) -> 0 <= ones <= bits ->
     exists m, CIDRMask ones bits = Some m /\ Size m = (ones, bits)) /\
  (forall m, bytes_ok m -> len m = 4 \/ len m = 16 -> simpleMaskLength m <> -1 ->
     CIDRMask (Size m).1 (Size m).2 = Some m).
Proof.
  split.
  - intros ones bits Hb Ho. destruct (CIDRMask_Size_ok ones bits Hb Ho) as (m & ? & ? & _). eauto.
  - intros m Hm Hl Hne. unfold Size. rewrite (proj2 (Z.eqb_neq _ _)) by done. cbn [fst snd].
    destruct (simpleMaskLength_loop_spec m 0 _ Hm ltac:(lia) eq_refl Hne) as [Hb Hc].
    fold (simpleMaskLength m) in *. rewrite Z.sub_0_r in Hc. unfold CIDRMask, IPv4len, IPv6len.
    assert (negb (len m * 8 =? 8 * 4) && negb (len m * 8 =? 8 * 16) = false) as ->
      by (destruct Hl as [-> | ->]; done).
    rewrite (proj2 (orb_false_iff _ _)) by (split; apply Z.ltb_ge; lia).
    rewrite Z.div_mul by lia. unfold len. by rewrite Nat2Z.id, Hc.
Qed.

Lemma cidr_mask_size_inverse_witness :
  (exists m, CIDRMask 12 32 = Some m /\ Size m = (12, 32)) /\
  CIDRMask (Size [255; 254; 0; 0]).1 (Size [255; 254; 0; 0]).2 = Some [255; 254; 0; 0].
Proof.
  split; [apply (proj1 cidr_mask_size_inverse); lia|].
  apply (proj2 cidr_mask_size_inverse); [lit|left; done|by vm_compute].
Defined.
