(* ===== verification/Strconv.v ===== *)
(** * strconv and internal/itoa: integers as text

    [tools/go-patched/src/strconv/atoi.go], [strconv/itoa.go] and
    [internal/itoa/itoa.go], on a host whose [int] has 64 bits.  The netip package
    prints and parses ports and prefix lengths with them. *)

From S2P Require Import Prelude.
Local Open Scope go_scope.
Local Set Warnings "-clear-no-such-hyp".

Definition intSize : Z := 64.
Definition maxUint64 : Z := 18446744073709551615.

(** ** Parsing *)

(** The reasons for an error: the two values and the messages of baseError and
    bitSizeError. *)
Inductive num_err : Type := ErrSyntax | ErrRange | ErrBase (base : Z) | ErrBitSize (bitSize : Z).

Record NumError := mk_NumError { Func : gostring; Num : gostring; Reason : num_err }.

#[export] Instance num_err_eq_dec : EqDecision num_err.
Proof. solve_decision. Defined.

Definition lower (c : Z) : Z := c .| 32.

(** The value and the error, as Go returns both. *)
Notation parsed_num := (Z * option NumError)%type.

Definition fail (fn num : gostring) (why : num_err) : option NumError := Some (mk_NumError fn num why).

(** The switch on a byte of the number; [None] is a syntax error. *)
Definition digit_of (c : Z) : option Z :=
  if (48 <=? c) && (c <=? 57) then Some (c - 48)
  else if (97 <=? lower c) && (lower c <=? 122) then Some (lower c - 97 + 10)
  else None.

Notation underscore := 95 (only parsing).

(** The loop over the bytes: the number and whether an underscore was seen, or the
    value and the reason of an early return. *)
Fixpoint ParseUint_loop (s : gostring) (base cutoff maxVal : Z) (base0 : bool) (n : Z) (underscores : bool)
    : (Z * bool) + (Z * num_err) :=
  match s with
  | [] => inl (n, underscores)
  | c :: s =>
      if (c =? underscore) && base0 then ParseUint_loop s base cutoff maxVal base0 n true else
      match digit_of c with
      | None => inr (0, ErrSyntax)
      | Some d =>
          if base <=? d then inr (0, ErrSyntax) else
          if cutoff <=? n then inr (maxVal, ErrRange) else
          let n := u64 (n * base) in
          let n1 := u64 (n + d) in
          if (n1 <? n) || (maxVal <? n1) then inr (maxVal, ErrRange)
          else ParseUint_loop s base cutoff maxVal base0 n1 underscores
      end
  end.

(** What the loop of underscoreOK saw last. *)
Inductive seen : Type := Start | Digit | Underscore | Other.

Fixpoint underscoreOK_loop (s : gostring) (hex : bool) (saw : seen) : bool :=
  match s with
  | [] => match saw with Underscore => false | _ => true end
  | c :: s =>
      if ((48 <=? c) && (c <=? 57)) || (hex && (97 <=? lower c) && (lower c <=? 102))
      then underscoreOK_loop s hex Digit
      else if c =? underscore then
        match saw with Digit => underscoreOK_loop s hex Underscore | _ => false end
      else match saw with Underscore => false | _ => underscoreOK_loop s hex Other end
  end.

Definition is_sign (c : Z) : bool := (c =? 45) || (c =? 43).

Definition underscoreOK (s : gostring) : bool :=
  let s := match s with c :: s' => if is_sign c then s' else s | [] => s end in
  match s with
  | c0 :: c1 :: s' =>
      if (c0 =? 48) && ((lower c1 =? 98) || (lower c1 =? 111) || (lower c1 =? 120))
      then underscoreOK_loop s' (lower c1 =? 120) Digit
      else underscoreOK_loop s false Start
  | _ => underscoreOK_loop s false Start
  end.

(** The base and the rest of the number; [None] for an invalid base. *)
Definition number_base (s : gostring) (base : Z) : option (Z * gostring) :=
  if (2 <=? base) && (base <=? 36) then Some (base, s)
  else if base =? 0 then
    match s with
    | c0 :: s' =>
        if c0 =? 48 then
          match s' with
          | c1 :: ((_ :: _) as s'') =>
              if lower c1 =? 98 then Some (2, s'')
              else if lower c1 =? 111 then Some (8, s'')
              else if lower c1 =? 120 then Some (16, s'')
              else Some (8, s')
          | _ => Some (8, s')
          end
        else Some (10, s)
    | [] => Some (10, s)
    end
  else None.

Definition ParseUint (s : gostring) (base bitSize : Z) : parsed_num :=
  let fn := str "ParseUint" in
  if bool_decide (s = []) then (0, fail fn s ErrSyntax) else
  let base0 := base =? 0 in
  let s0 := s in
  match number_base s base with
  | None => (0, fail fn s0 (ErrBase base))
  | Some (base, s) =>
      let bitSize' := if bitSize =? 0 then intSize else bitSize in
      if (bitSize' <? 0) || (64 <? bitSize') then (0, fail fn s0 (ErrBitSize bitSize)) else
      let cutoff := maxUint64 / base + 1 in
      let maxVal := u64 (u64 (1 << bitSize') - 1) in
      match ParseUint_loop s base cutoff maxVal base0 0 false with
      | inr (v, why) => (v, fail fn s0 why)
      | inl (n, underscores) =>
          if underscores && negb (underscoreOK s0) then (0, fail fn s0 ErrSyntax) else (n, None)
      end
  end.

(** The end of ParseInt: the range check and the sign. *)
Definition ParseInt_sign (neg : bool) (un bitSize : Z) (s0 : gostring) : parsed_num :=
  let fn := str "ParseInt" in
  let bitSize := if bitSize =? 0 then intSize else bitSize in
  let cutoff := u64 (1 << (bitSize - 1)) in
  if negb neg && (cutoff <=? un) then (s64 (cutoff - 1), fail fn s0 ErrRange)
  else if neg && (cutoff <? un) then (s64 (- cutoff), fail fn s0 ErrRange)
  else let n := s64 un in (if neg then s64 (- n) else n, None).

Definition ParseInt (s : gostring) (base bitSize : Z) : parsed_num :=
  let fn := str "ParseInt" in
  match s with
  | [] => (0, fail fn s ErrSyntax)
  | c :: s' =>
      let s0 := s in
      let neg := c =? 45 in
      let s := if is_sign c then s' else s in
      let '(un, err) := ParseUint s base bitSize in
      match err with
      | Some e =>
          if negb (bool_decide (Reason e = ErrRange)) then (0, fail fn s0 (Reason e))
          else ParseInt_sign neg un bitSize s0
      | None => ParseInt_sign neg un bitSize s0
      end
  end.

(** The loop of the fast path of Atoi, [ch -= '0'] in a byte. *)
Fixpoint Atoi_loop (s : gostring) (n : Z) : option Z :=
  match s with
  | [] => Some n
  | ch :: s =>
      let ch := u8 (ch - 48) in
      if 9 <? ch then None else Atoi_loop s (s64 (n * 10 + ch))
  end.

Definition Atoi (s : gostring) : parsed_num :=
  let fn := str "Atoi" in
  let sLen := len s in
  if (0 <? sLen) && (sLen <? 19) then
    let s0 := s in
    let '(signed, s) := match s with c :: s' => if is_sign c then (true, s') else (false, s) | [] => (false, s) end in
    if signed && (len s <? 1) then (0, fail fn s0 ErrSyntax) else
    match Atoi_loop s 0 with
    | None => (0, fail fn s0 ErrSyntax)
    | Some n => (if hd 0 s0 =? 45 then s64 (- n) else n, None)
    end
  else
    let '(i64, err) := ParseInt s 10 0 in
    (i64, match err with Some e => Some (mk_NumError fn (Num e) (Reason e)) | None => None end).

(** ** Formatting *)

Definition nSmalls : Z := 100.

Definition smallsString : gostring :=
  str "00010203040506070809101112131415161718192021222324252627282930313233343536373839404142434445464748495051525354555657585960616263646566676869707172737475767778798081828384858687888990919293949596979899".

Definition small_at (i : Z) : Z := nth (Z.to_nat i) smallsString 0.

(** [digits[v]] *)
Definition digits_at (v : Z) : Z := if v <? 10 then 48 + v else 87 + v.

Definition small (i : Z) : gostring :=
  if i <? 10 then [digits_at i] else [small_at (i * 2); small_at (i * 2 + 1)].

Definition isPowerOfTwo (x : Z) : bool := x .& (x - 1) =? 0.

(** The loops of formatBits, which fill the array from its end: what is left of the
    number, and the digits. *)
Fixpoint format10_loop (fuel : nat) (us : Z) (a : gostring) : Z * gostring :=
  match fuel with
  | O => (us, a)
  | S fuel =>
      if 100 <=? us then
        let idx := us mod 100 * 2 in
        format10_loop fuel (us / 100) (small_at idx :: small_at (idx + 1) :: a)
      else (us, a)
  end.

Fixpoint format2_loop (fuel : nat) (u b shift m : Z) (a : gostring) : Z * gostring :=
  match fuel with
  | O => (u, a)
  | S fuel =>
      if b <=? u then format2_loop fuel (u >> shift) b shift m (digits_at (u .& m) :: a) else (u, a)
  end.

Fixpoint format_loop (fuel : nat) (u b : Z) (a : gostring) : Z * gostring :=
  match fuel with
  | O => (u, a)
  | S fuel =>
      if b <=? u then let q := u / b in format_loop fuel q b (digits_at (u - q * b) :: a) else (u, a)
  end.

(** bits.TrailingZeros of a power of two up to 32. *)
Definition TrailingZeros (x : Z) : Z := Z.log2 x.

(** The digits; 64 rounds are enough for a 64-bit number. *)
Definition format_digits (u base : Z) : gostring :=
  if base =? 10 then
    let '(us, a) := format10_loop 64 u [] in
    let idx := us * 2 in
    let a := small_at (idx + 1) :: a in
    if 10 <=? us then small_at idx :: a else a
  else if isPowerOfTwo base then
    let shift := TrailingZeros base .& 7 in
    let '(u, a) := format2_loop 64 u base shift (base - 1) [] in
    digits_at u :: a
  else
    let '(u, a) := format_loop 64 u base [] in
    digits_at u :: a.

(** [None] is the panic for an illegal base. *)
Definition formatBits (u base : Z) (neg : bool) : option gostring :=
  if (base <? 2) || (36 <? base) then None else
  let u := if neg then u64 (- u) else u in
  let a := format_digits u base in
  Some (if neg then 45 :: a else a).

Definition FormatUint (i base : Z) : option gostring :=
  if (i <? nSmalls) && (base =? 10) then Some (small i) else formatBits i base false.

Definition FormatInt (i base : Z) : option gostring :=
  if (0 <=? i) && (i <? nSmalls) && (base =? 10) then Some (small i)
  else formatBits (u64 i) base (i <? 0).

Definition strconv_Itoa (i : Z) : option gostring := FormatInt i 10.

Definition AppendUint (dst : gobytes) (i base : Z) : option gobytes :=
  if (i <? nSmalls) && (base =? 10) then Some (dst ++ small i)
  else s ← formatBits i base false; Some (dst ++ s).

Definition AppendInt (dst : gobytes) (i base : Z) : option gobytes :=
  if (0 <=? i) && (i <? nSmalls) && (base =? 10) then Some (dst ++ small i)
  else s ← formatBits (u64 i) base (i <? 0); Some (dst ++ s).

(** internal/itoa: the loop of Uitoa; its buffer of 20 bytes bounds the rounds. *)
Fixpoint Uitoa_loop (fuel : nat) (val : Z) (buf : gostring) : Z * gostring :=
  match fuel with
  | O => (val, buf)
  | S fuel =>
      if 10 <=? val then let q := val / 10 in Uitoa_loop fuel q (48 + val - q * 10 :: buf) else (val, buf)
  end.

Definition Uitoa (val : Z) : gostring :=
  if val =? 0 then str "0"
  else let '(val, buf) := Uitoa_loop 20 val [] in 48 + val :: buf.

Definition Itoa (val : Z) : gostring :=
  if val <? 0 then str "-" ++ Uitoa (u64 (- val)) else Uitoa val.

Example strconv_examples :
  ParseUint (str "0x_ff") 0 8 = (255, None) /\ ParseUint (str "0B101") 0 8 = (5, None) /\
  ParseUint (str "0o17") 0 8 = (15, None) /\ ParseUint (str "017") 0 8 = (15, None) /\
  ParseUint (str "0x") 0 8 = (0, fail (str "ParseUint") (str "0x") ErrSyntax) /\
  ParseUint (str "1__0") 0 8 = (0, fail (str "ParseUint") (str "1__0") ErrSyntax) /\ ParseUint (str "256") 10 8 = (255, fail (str "ParseUint") (str "256") ErrRange) /\
  ParseInt (str "-8000000000000000") 16 64 = (-9223372036854775808, None) /\
  Atoi (str "-042") = (-42, None) /\ Atoi (str "9223372036854775808") =
    (9223372036854775807, fail (str "Atoi") (str "9223372036854775808") ErrRange) /\
  FormatInt (-9223372036854775808) 10 = Some (str "-9223372036854775808") /\
  FormatUint 18446744073709551615 36 = Some (str "3w5e11264sgsf") /\ FormatUint 255 2 = Some (str "11111111") /\
  Itoa (-9223372036854775808) = str "-9223372036854775808".
Proof. vm_compute. done. Qed.

(** ** Numerals *)

(** The value of the digits [s] read after a number [n]. *)
Fixpoint value_from (base : Z) (s : gostring) (n : Z) : option Z :=
  match s with
  | [] => Some n
  | c :: s =>
      match digit_of c with
      | Some d => if d <? base then value_from base s (n * base + d) else None
      | None => None
      end
  end.

(** The number that a non-empty string of digits denotes. *)
Definition numeral (base : Z) (s : gostring) : option Z :=
  match s with [] => None | _ => value_from base s 0 end.

(** A numeral as it is printed: lower case, no leading zero. *)
Record canonical (base : Z) (s : gostring) (u : Z) : Prop := {
  can_value : value_from base s 0 = Some u;
  can_nonempty : s <> [];
  can_digits : Forall (fun c => exists v, 0 <= v < base /\ c = digits_at v) s;
  can_lead : 1 < len s -> hd 0 s <> 48;
}.

Lemma digit_of_range c d : digit_of c = Some d -> 0 <= d < 36.
Proof. unfold digit_of. intros Hd. repeat case_match; simplify_eq; zbool; lia. Qed.

Lemma digit_of_digits_at v : 0 <= v < 36 -> digit_of (digits_at v) = Some v.
Proof.
  intros Hv. assert (forallb (fun v => bool_decide (digit_of (digits_at v) = Some v)) (seqZ 0 36) = true) as H
    by (vm_compute; reflexivity).
  rewrite forallb_forall in H. eapply bool_decide_eq_true_1, H, list_elem_of_In, elem_of_seqZ. lia.
Qed.

Lemma digits_at_inj v w : 0 <= v < 36 -> 0 <= w < 36 -> digits_at v = digits_at w -> v = w.
Proof. intros Hv Hw E%(f_equal digit_of). rewrite !digit_of_digits_at in E by done. congruence. Qed.

Lemma value_from_digit base v s n :
  0 <= v < base -> base <= 36 -> value_from base (digits_at v :: s) n = value_from base s (n * base + v).
Proof. intros. cbn [value_from]. rewrite digit_of_digits_at by lia. by rewrite (proj2 (Z.ltb_lt v base)) by lia. Qed.

Lemma value_from_mono base s n v : 2 <= base -> 0 <= n -> value_from base s n = Some v -> n <= v.
Proof.
  intros Hb. revert n. induction s as [|c s IH]; intros n Hn; cbn [value_from]; [intros [= <-]; lia|].
  destruct (digit_of c) as [d|] eqn:Hd; [|done]. apply digit_of_range in Hd.
  destruct (d <? base); [|done]. intros Hv%IH; nia.
Qed.

Lemma value_from_snoc base s c n :
  value_from base (s ++ [c]) n =
    v ← value_from base s n; d ← digit_of c; if d <? base then Some (v * base + d) else None.
Proof.
  revert n. induction s as [|x s IH]; intros n; cbn [value_from app mbind option_bind].
  - by destruct (digit_of c).
  - destruct (digit_of x) as [d|]; [|done]. destruct (d <? base); [apply IH|done].
Qed.

Lemma value_from_bound base s n v :
  2 <= base -> 0 <= n -> value_from base s n = Some v -> v < (n + 1) * base ^ len s.
Proof.
  intros Hb. revert n. induction s as [|c s IH]; intros n Hn; cbn [value_from].
  - intros [= <-]. change (len []) with 0. lia.
  - destruct (digit_of c) as [d|] eqn:Hd; [|done]. apply digit_of_range in Hd.
    destruct (d <? base) eqn:E; [|done]. zbool. intros Hv%IH; [|nia]. rewrite len_cons, Z.pow_add_r by (pose proof (len_nonneg s); lia).
    pose proof (Z.pow_pos_nonneg base (len s) ltac:(lia) (len_nonneg s)). rewrite Z.pow_1_r. nia.
Qed.

(** A number has one printed form. *)
Lemma canonical_unique base s t u : 2 <= base <= 36 -> canonical base s u -> canonical base t u -> s = t.
Proof.
  intros Hb. assert (forall s u, value_from base s 0 = Some u -> s <> [] ->
    Forall (fun c => exists v, 0 <= v < base /\ c = digits_at v) s -> hd 0 s <> 48 -> 1 <= u) as Hpos.
  { intros s' u' Hv Hne Hd Hl. destruct s' as [|c s']; [done|].
    apply Forall_cons in Hd as [(v & Hv0 & ->) _]. rewrite value_from_digit in Hv by lia.
    apply value_from_mono in Hv; [|lia|lia]. simpl in Hl. assert (v <> 0) by (intros ->; done). lia. }
  revert t u. induction s as [|c s IH] using rev_ind; intros t u [Hv Hne Hd Hl] [Hv' Hne' Hd' Hl']; [done|].
  destruct t as [|c' t _] using rev_ind; [done|].
  apply Forall_app in Hd as [Hd [(x & Hx & ->) _]%Forall_cons].
  apply Forall_app in Hd' as [Hd' [(y & Hy & ->) _]%Forall_cons].
  rewrite value_from_snoc in Hv, Hv'. rewrite digit_of_digits_at in Hv, Hv' by lia.
  destruct (value_from base s 0) as [a|] eqn:Ea; [|done]. destruct (value_from base t 0) as [b|] eqn:Eb; [|done].
  cbn [mbind option_bind] in *. rewrite (proj2 (Z.ltb_lt x base)) in Hv by lia. rewrite (proj2 (Z.ltb_lt y base)) in Hv' by lia. simplify_eq.
  assert (a = b /\ x = y) as [-> ->] by (apply (Z.div_mod_unique base); lia). f_equal.
  assert (forall l : gostring, l <> [] -> (1 < len (l ++ [digits_at y]) -> hd 0 (l ++ [digits_at y]) <> 48) ->
    hd 0 l <> 48) as Hhd.
  { intros [|w l] Hl0 H; [done|]. apply H. rewrite len_app, len_cons.
    pose proof (len_nonneg l). change (len [_]) with 1. lia. }
  destruct s as [|c0 s0]; destruct t as [|c1 t0]; [done| | |].
  - simplify_eq/=. assert (1 <= 0); [|lia]. apply (Hpos (c1 :: t0)); [done..|]. by apply Hhd.
  - simplify_eq/=. assert (1 <= 0); [|lia]. apply (Hpos (c0 :: s0)); [done..|]. by apply Hhd.
  - apply (IH _ b); split; try done; intros _; by apply Hhd.
Qed.

(** ** Printing gives the canonical numeral *)

(** What a printing loop keeps: the digits written so far, read after what is left of
    the number, denote the number; and they have no leading zero. *)
Record printing (base U u : Z) (a : gostring) : Prop := {
  pr_value : value_from base a u = Some U;
  pr_digits : Forall (fun c => exists v, 0 <= v < base /\ c = digits_at v) a;
  pr_lead : a = [] \/ 1 <= u;
  pr_nonneg : 0 <= u;
}.

Lemma printing_start base U : 0 <= U -> printing base U U [].
Proof. intros. split; auto. Qed.

Lemma printing_digit base U u a :
  2 <= base <= 36 -> base <= u -> printing base U u a -> printing base U (u / base) (digits_at (u mod base) :: a).
Proof.
  intros Hb Hu []. pose proof (Z.mod_pos_bound u base ltac:(lia)) as Hm. split.
  - rewrite value_from_digit by lia. rewrite (Z.mul_comm (u / base)), <- Z.div_mod by lia. done.
  - constructor; [|done]. eauto.
  - right. apply Z.div_le_lower_bound; lia.
  - apply Z.div_pos; lia.
Qed.

Lemma printing_end base U u a :
  2 <= base <= 36 -> u < base -> printing base U u a -> canonical base (digits_at u :: a) U.
Proof.
  intros Hb Hu []. split.
  - rewrite value_from_digit by lia. done.
  - done.
  - constructor; [|done]. eauto.
  - intros Hl. simpl. destruct pr_lead0 as [->|Hu1]; [done|]. intros E.
    apply (digits_at_inj u 0) in E; [|lia|lia]. lia.
Qed.

Lemma format_loop_spec base U fuel u a :
  2 <= base <= 36 -> u < base ^ Z.of_nat fuel -> printing base U u a ->
  let '(u', a') := format_loop fuel u base a in u' < base /\ printing base U u' a'.
Proof.
  intros Hb. revert u a. induction fuel as [|fuel IH]; intros u a Hu Hp; cbn [format_loop].
  - change (base ^ Z.of_nat 0) with 1 in Hu. split; [lia|done].
  - destruct (Z.leb_spec base u); [|split; [lia|done]]. cbv zeta.
    replace (u - u / base * base) with (u mod base) by (rewrite Z.mod_eq by lia; lia).
    apply IH; [|by apply printing_digit]. apply Z.div_lt_upper_bound; [lia|].
    rewrite Nat2Z.inj_succ, Z.pow_succ_r in Hu by lia. lia.
Qed.

Lemma format2_loop_eq fuel u shift a :
  0 <= shift -> format2_loop fuel u (2 ^ shift) shift (2 ^ shift - 1) a = format_loop fuel u (2 ^ shift) a.
Proof.
  intros Hs. revert u a. induction fuel as [|fuel IH]; intros u a; [done|]. cbn [format2_loop format_loop].
  destruct (2 ^ shift <=? u); [|done]. cbv zeta. rewrite Z.shiftr_div_pow2, land_ones_mod by lia.
  rewrite (Z.mod_eq u) by (pose proof (Z.pow_pos_nonneg 2 shift); lia). rewrite IH. do 3 f_equal. lia.
Qed.

Lemma small_at_digits r :
  0 <= r < 100 -> small_at (r * 2) = digits_at (r / 10) /\ small_at (r * 2 + 1) = digits_at (r mod 10).
Proof.
  intros Hr. assert (forallb (fun r => bool_decide (small_at (r * 2) = digits_at (r / 10) /\
    small_at (r * 2 + 1) = digits_at (r mod 10))) (seqZ 0 100) = true) as H by (vm_compute; reflexivity).
  rewrite forallb_forall in H. eapply bool_decide_eq_true_1, H, list_elem_of_In, elem_of_seqZ. lia.
Qed.

Lemma format10_loop_spec U fuel u a :
  u < 100 ^ Z.of_nat fuel -> printing 10 U u a ->
  let '(u', a') := format10_loop fuel u a in u' < 100 /\ printing 10 U u' a'.
Proof.
  revert u a. induction fuel as [|fuel IH]; intros u a Hu Hp; cbn [format10_loop].
  - change (100 ^ Z.of_nat 0) with 1 in Hu. split; [lia|done].
  - destruct (Z.leb_spec 100 u); [|split; [lia|done]]. cbv zeta.
    destruct (small_at_digits (u mod 100)) as [-> ->]; [zlia|]. apply IH.
    + rewrite Nat2Z.inj_succ, Z.pow_succ_r in Hu by lia. apply Z.div_lt_upper_bound; lia.
    + replace (u / 100) with (u / 10 / 10) by zlia. replace (u mod 100 / 10) with (u / 10 mod 10) by zlia.
      replace (u mod 100 mod 10) with (u mod 10) by zlia.
      apply printing_digit; [lia|zlia|]. apply printing_digit; [lia|lia|done].
Qed.

Lemma power_of_two_cases base :
  2 <= base <= 36 -> isPowerOfTwo base = true ->
  exists k, 0 <= k /\ base = 2 ^ k /\ TrailingZeros base .& 7 = k.
Proof.
  intros Hb Hp. assert (forallb (fun b => negb (isPowerOfTwo b) ||
    bool_decide (b = 2 ^ (TrailingZeros b .& 7) /\ 0 <= TrailingZeros b .& 7)) (seqZ 2 35) = true) as H
    by (vm_compute; reflexivity).
  rewrite forallb_forall in H. specialize (H base). rewrite <- list_elem_of_In, elem_of_seqZ in H.
  specialize (H ltac:(lia)). rewrite Hp in H. apply bool_decide_eq_true_1 in H as [E Hk]. eauto.
Qed.

Lemma pow_64 base : 2 <= base -> 2 ^ 64 <= base ^ Z.of_nat 64.
Proof. intros. apply Z.pow_le_mono_l. lia. Qed.

Lemma format_digits_canonical u base :
  2 <= base <= 36 -> is_u64 u -> canonical base (format_digits u base) u.
Proof.
  intros Hb Hu. unfold format_digits. pose proof (pow_64 base ltac:(lia)) as Hp. change (2 ^ 64) with 18446744073709551616 in Hp.
  destruct (Z.eqb_spec base 10) as [->|Hne].
  - pose proof (format10_loop_spec u 64 u []) as HF. destruct (format10_loop 64 u []) as [us a].
    destruct HF as [Hus HF]; [pose proof (pow_64 100 ltac:(lia)); lia|apply printing_start; lia|]. cbv zeta.
    pose proof HF as [_ _ _ H0]. destruct (small_at_digits us ltac:(lia)) as [-> ->].
    destruct (Z.leb_spec 10 us).
    + apply printing_end; [lia|zlia|]. apply printing_digit; [lia|lia|done].
    + rewrite Z.mod_small by lia. apply printing_end; [lia|lia|done].
  - destruct (isPowerOfTwo base) eqn:E2.
    + destruct (power_of_two_cases base Hb E2) as (k & Hk & Eb & Et). cbv zeta. rewrite Et.
      pose proof (format2_loop_eq 64 u k [] Hk) as E. rewrite <- Eb in E. rewrite E.
      pose proof (format_loop_spec base u 64 u [] Hb) as HF. destruct (format_loop 64 u base []) as [v a].
      destruct HF; [lia|apply printing_start; lia|]. by apply printing_end.
    + pose proof (format_loop_spec base u 64 u [] Hb) as HF. destruct (format_loop 64 u base []) as [v a].
      destruct HF; [lia|apply printing_start; lia|]. by apply printing_end.
Qed.

Lemma formatBits_canonical u base neg :
  2 <= base <= 36 -> is_u64 u ->
  exists s, formatBits u base neg = Some (if neg then 45 :: s else s) /\ canonical base s (if neg then u64 (- u) else u).
Proof.
  intros Hb Hu. unfold formatBits. rewrite (proj2 (Z.ltb_ge base 2)), (proj2 (Z.ltb_ge 36 base)) by lia. cbn [orb].
  cbv zeta. eexists. split; [done|]. apply format_digits_canonical; [done|]. destruct neg; [widths; zlia|done].
Qed.

Lemma small_canonical i : 0 <= i < 100 -> canonical 10 (small i) i.
Proof.
  intros Hi. unfold small. destruct (Z.ltb_spec i 10).
  - apply printing_end; [lia|lia|]. apply printing_start. lia.
  - destruct (small_at_digits i Hi) as [-> ->].
    apply printing_end; [lia|zlia|]. apply printing_digit; [lia|lia|]. apply printing_start. lia.
Qed.

Lemma FormatUint_canonical u base :
  2 <= base <= 36 -> is_u64 u -> exists s, FormatUint u base = Some s /\ canonical base s u.
Proof.
  intros Hb Hu. unfold FormatUint. destruct (_ && _) eqn:E; [|by apply (formatBits_canonical u base false)]. zbool. subst.
  eexists. split; [done|]. apply small_canonical. unfold nSmalls in *. lia.
Qed.

(** The text of a signed number: a minus sign before the numeral of its magnitude. *)
Definition signed_text (base n : Z) (s : gostring) : Prop :=
  if n <? 0 then exists s', s = 45 :: s' /\ canonical base s' (- n) else canonical base s n.

Lemma FormatInt_text n base :
  2 <= base <= 36 -> is_s64 n -> exists s, FormatInt n base = Some s /\ signed_text base n s.
Proof.
  intros Hb Hn. unfold FormatInt, signed_text. destruct (Z.ltb_spec n 0).
  - rewrite (proj2 (Z.leb_gt 0 n)) by lia. cbn [andb].
    destruct (formatBits_canonical (u64 n) base true Hb ltac:(widths; zlia)) as (s & -> & Hc).
    exists (45 :: s). split; [done|]. exists s. split; [done|].
    replace (- n) with (u64 (- u64 n)) by (widths; zlia). done.
  - rewrite (proj2 (Z.leb_le 0 n)) by lia. cbn [andb].
    assert (u64 n = n) as -> by (widths; zlia).
    apply FormatUint_canonical; [done|lia].
Qed.

Lemma Uitoa_loop_eq fuel val buf : 0 <= val -> Uitoa_loop fuel val buf = format_loop fuel val 10 buf.
Proof.
  revert val buf. induction fuel as [|fuel IH]; intros val buf Hv; [done|]. cbn [Uitoa_loop format_loop].
  destruct (10 <=? val); [|done]. cbv zeta. rewrite IH by zlia. do 2 f_equal. unfold digits_at.
  rewrite (proj2 (Z.ltb_lt _ 10)) by zlia. lia.
Qed.

Lemma Uitoa_canonical val : is_u64 val -> canonical 10 (Uitoa val) val.
Proof.
  intros Hv. unfold Uitoa. destruct (Z.eqb_spec val 0) as [->|Hne].
  - apply (printing_end 10 0 0 []); [lia|lia|]. by apply printing_start.
  - rewrite Uitoa_loop_eq by lia. pose proof (format_loop_spec 10 val 20 val []) as HF.
    destruct (format_loop 20 val 10 []) as [v a].
    destruct HF as [Hlt HF]; [lia|change (10 ^ Z.of_nat 20) with 100000000000000000000; lia|apply printing_start; lia|].
    replace (48 + v) with (digits_at v); [by apply printing_end|].
    unfold digits_at. by rewrite (proj2 (Z.ltb_lt v 10)).
Qed.

Lemma Itoa_text n : is_s64 n -> signed_text 10 n (Itoa n).
Proof.
  intros Hn. unfold signed_text, Itoa. destruct (Z.ltb_spec n 0).
  - exists (Uitoa (u64 (- n))). split; [done|]. assert (u64 (- n) = - n) as -> by (widths; zlia).
    apply Uitoa_canonical. lia.
  - apply Uitoa_canonical. lia.
Qed.

(** ** Parsing reads numerals *)

Definition max_val (bitSize : Z) : Z := 2 ^ (if bitSize =? 0 then 64 else bitSize) - 1.

(** The answer of the loop for a string of a given value, if it has one. *)
Definition loop_answer (maxVal : Z) (us : bool) (value : option Z) (r : (Z * bool) + (Z * num_err)) : Prop :=
  match value with
  | Some v => r = if v <=? maxVal then inl (v, us) else inr (maxVal, ErrRange)
  | None => r = inr (0, ErrSyntax) \/ r = inr (maxVal, ErrRange)
  end.

Lemma ParseUint_loop_spec base maxVal s n us :
  2 <= base <= 36 -> 0 <= n <= maxVal -> maxVal <= maxUint64 ->
  loop_answer maxVal us (value_from base s n)
    (ParseUint_loop s base (maxUint64 / base + 1) maxVal false n us).
Proof.
  intros Hb Hn Hmax. unfold maxUint64 in *. revert n Hn. induction s as [|c s IH]; intros n Hn; cbn [ParseUint_loop value_from].
  { cbn [loop_answer]. by rewrite (proj2 (Z.leb_le _ _)) by lia. }
  rewrite andb_false_r. destruct (digit_of c) as [d|] eqn:Hd; [|by left]. apply digit_of_range in Hd.
  destruct (Z.ltb_spec d base); [|rewrite (proj2 (Z.leb_le base d)) by lia; by left].
  rewrite (proj2 (Z.leb_gt base d)) by lia. cbv zeta.
  pose proof (Z.mul_div_le 18446744073709551615 base ltac:(lia)) as Hq.
  pose proof (Z.mul_succ_div_gt 18446744073709551615 base ltac:(lia)) as Hq'.
  assert (forall v, value_from base s (n * base + d) = Some v -> n * base + d <= v) as Hmono
    by (intros v; apply value_from_mono; nia).
  assert (n * base + d > maxVal ->
    loop_answer maxVal us (value_from base s (n * base + d)) (inr (maxVal, ErrRange))) as Hover.
  { intros Ho. unfold loop_answer. destruct (value_from base s (n * base + d)) as [v|]; [|by right]. specialize (Hmono v eq_refl).
    by rewrite (proj2 (Z.leb_gt v maxVal)) by lia. }
  destruct (Z.leb_spec (18446744073709551615 / base + 1) n); [apply Hover; nia|].
  assert (n * base <= 18446744073709551615) by nia.
  assert (u64 (n * base) = n * base) as -> by (widths; rewrite Z.mod_small; nia).
  destruct (decide (n * base + d <= maxVal)) as [Hle|Hgt].
  - assert (u64 (n * base + d) = n * base + d) as -> by (widths; rewrite Z.mod_small; nia).
    rewrite (proj2 (Z.ltb_ge (n * base + d) (n * base))), (proj2 (Z.ltb_ge maxVal _)) by lia. cbn [orb].
    apply IH. nia.
  - assert ((u64 (n * base + d) <? n * base) || (maxVal <? u64 (n * base + d)) = true) as ->; [|apply Hover; lia].
    apply orb_true_iff. rewrite !Z.ltb_lt. widths. destruct (decide (n * base + d < 18446744073709551616)).
    + right. rewrite Z.mod_small; nia.
    + left. rewrite <- (Z.mod_unique (n * base + d) 18446744073709551616 1 (n * base + d - 18446744073709551616)); nia.
Qed.

Lemma max_val_word bitSize :
  0 <= bitSize <= 64 ->
  u64 (u64 (1 << (if bitSize =? 0 then 64 else bitSize)) - 1) = max_val bitSize /\ 0 <= max_val bitSize <= maxUint64.
Proof.
  intros Hs. unfold max_val, maxUint64. set (w := if bitSize =? 0 then 64 else bitSize).
  assert (0 < w <= 64) as Hw by (unfold w; destruct (Z.eqb_spec bitSize 0); lia). clearbody w.
  rewrite Z.shiftl_mul_pow2, Z.mul_1_l by lia.
  pose proof (Z.pow_le_mono_r 2 w 64 ltac:(lia) ltac:(lia)) as Hp. change (2 ^ 64) with 18446744073709551616 in Hp.
  pose proof (Z.pow_pos_nonneg 2 w ltac:(lia) ltac:(lia)). split; [|lia].
  widths. destruct (decide (2 ^ w = 18446744073709551616)) as [->|]; [done|].
  rewrite (Z.mod_small (2 ^ w)) by lia. apply Z.mod_small. lia.
Qed.

Lemma ParseUint_loop_base0 base cutoff maxVal b0 s n us :
  b0 = false \/ underscore ∉ s ->
  ParseUint_loop s base cutoff maxVal b0 n us = ParseUint_loop s base cutoff maxVal false n us.
Proof.
  intros Hb. revert n. induction s as [|c s IH]; intros n; cbn [ParseUint_loop]; [done|].
  assert ((c =? underscore) && b0 = false) as ->.
  { destruct Hb as [-> |Hs]; [apply andb_false_r|]. by rewrite (proj2 (Z.eqb_neq c underscore)) by set_solver. }
  rewrite andb_false_r. destruct (digit_of c); [|done]. rewrite !IH by set_solver. done.
Qed.

(** With the digits [t] of base [b] that number_base finds. *)
Lemma ParseUint_run s base bitSize b t :
  s <> [] -> number_base s base = Some (b, t) -> 2 <= b <= 36 -> 0 <= bitSize <= 64 ->
  base <> 0 \/ underscore ∉ t ->
  match value_from b t 0 with
  | Some v => ParseUint s base bitSize =
      if v <=? max_val bitSize then (v, None)
      else (max_val bitSize, fail (str "ParseUint") s ErrRange)
  | None => exists v why, ParseUint s base bitSize = (v, fail (str "ParseUint") s why) /\
      (why = ErrSyntax /\ v = 0 \/ why = ErrRange /\ v = max_val bitSize)
  end.
Proof.
  intros Hne Hn Hb Hs Hus. unfold ParseUint. cbv zeta. rewrite bool_decide_false, Hn by done.
  destruct (max_val_word bitSize Hs) as [Hm1 Hm2]. unfold intSize. rewrite Hm1. set (m := max_val bitSize) in *.
  rewrite (proj2 (Z.ltb_ge _ 0)), (proj2 (Z.ltb_ge 64 _)) by (destruct (Z.eqb_spec bitSize 0); lia). cbn [orb].
  rewrite ParseUint_loop_base0 by (destruct Hus; [left; by apply Z.eqb_neq|by right]).
  pose proof (ParseUint_loop_spec b m t 0 false Hb ltac:(lia) ltac:(lia)) as HL. unfold loop_answer in HL.
  destruct (value_from b t 0) as [v|].
  - rewrite HL. by destruct (v <=? m).
  - destruct HL as [-> | ->]; eauto 8.
Qed.

Lemma ParseUint_spec s base bitSize :
  2 <= base <= 36 -> 0 <= bitSize <= 64 ->
  match numeral base s with
  | Some v => ParseUint s base bitSize =
      if v <=? max_val bitSize then (v, None)
      else (max_val bitSize, fail (str "ParseUint") s ErrRange)
  | None => exists v why, ParseUint s base bitSize = (v, fail (str "ParseUint") s why) /\
      (why = ErrSyntax /\ v = 0 \/ why = ErrRange /\ v = max_val bitSize)
  end.
Proof.
  intros Hb Hs. destruct s as [|c s]; [unfold ParseUint; cbn; eauto 8|]. unfold numeral.
  apply ParseUint_run; [done| |done|done|lia]. unfold number_base.
  by rewrite (proj2 (Z.leb_le 2 base)), (proj2 (Z.leb_le base 36)) by lia.
Qed.

(** ** Signed numbers *)

Definition signed_value (base : Z) (s : gostring) : option Z :=
  match s with
  | [] => None
  | c :: s' => if is_sign c then (if c =? 45 then Z.opp <$> numeral base s' else numeral base s') else numeral base s
  end.

(** A number, or the nearest one that [w] bits can represent. *)
Definition clamped (fn s : gostring) (w n : Z) : parsed_num :=
  if n <? - 2 ^ (w - 1) then (- 2 ^ (w - 1), fail fn s ErrRange)
  else if 2 ^ (w - 1) <=? n then (2 ^ (w - 1) - 1, fail fn s ErrRange)
  else (n, None).

Lemma numeral_nonneg base s v : 2 <= base -> numeral base s = Some v -> 0 <= v.
Proof. intros Hb. destruct s as [|c s]; [done|]. unfold numeral. intros Hv%value_from_mono; lia. Qed.

Lemma ParseInt_sign_spec neg un bitSize s0 :
  0 <= bitSize <= 64 -> 0 <= un <= max_val bitSize ->
  ParseInt_sign neg un bitSize s0 =
    clamped (str "ParseInt") s0 (if bitSize =? 0 then 64 else bitSize) (if neg then - un else un).
Proof.
  intros Hs Hu. unfold ParseInt_sign, clamped, max_val, intSize in *.
  set (w := if bitSize =? 0 then 64 else bitSize) in *. cbv zeta.
  assert (1 <= w <= 64) as Hw by (unfold w; destruct (Z.eqb_spec bitSize 0); lia).
  rewrite Z.shiftl_mul_pow2, Z.mul_1_l by lia.
  replace (2 ^ w) with (2 * 2 ^ (w - 1)) in Hu by (rewrite <- Z.pow_succ_r by lia; f_equal; lia).
  pose proof (Z.pow_le_mono_r 2 (w - 1) 63 ltac:(lia) ltac:(lia)) as Hp.
  pose proof (Z.pow_pos_nonneg 2 (w - 1) ltac:(lia) ltac:(lia)) as H0. set (c := 2 ^ (w - 1)) in *. clearbody c.
  widths. assert (c mod 18446744073709551616 = c) as -> by (apply Z.mod_small; lia).
  destruct neg; cbn [negb andb].
  - destruct (Z.ltb_spec c un); destruct (Z.ltb_spec (- un) (- c)); try lia.
    + f_equal. zlia.
    + rewrite (proj2 (Z.leb_gt c (- un))) by lia. f_equal. zlia.
  - rewrite (proj2 (Z.ltb_ge un (- c))) by lia. destruct (Z.leb_spec c un); f_equal; zlia.
Qed.

(** What is out of range for ParseUint is out of range for ParseInt; not so for one
    bit. *)
Lemma clamped_max fn s bitSize (neg : bool) v :
  bitSize = 0 \/ 2 <= bitSize <= 64 -> max_val bitSize < v ->
  clamped fn s (if bitSize =? 0 then 64 else bitSize) (if neg then - max_val bitSize else max_val bitSize) =
  clamped fn s (if bitSize =? 0 then 64 else bitSize) (if neg then - v else v) /\
  exists x, clamped fn s (if bitSize =? 0 then 64 else bitSize) (if neg then - v else v) = (x, fail fn s ErrRange).
Proof.
  intros Hs Hv. unfold clamped, max_val in *. set (w := if bitSize =? 0 then 64 else bitSize) in *.
  assert (2 <= w) by (unfold w; destruct (Z.eqb_spec bitSize 0); lia).
  assert (2 <= 2 ^ (w - 1)) by (replace (w - 1) with (Z.succ (w - 2)) by lia; rewrite Z.pow_succ_r by lia;
    pose proof (Z.pow_pos_nonneg 2 (w - 2)); lia).
  replace (2 ^ w) with (2 * 2 ^ (w - 1)) in * by (rewrite <- Z.pow_succ_r by lia; f_equal; lia).
  set (c := 2 ^ (w - 1)) in *. clearbody c. destruct neg.
  - rewrite (proj2 (Z.ltb_lt (- (2 * c - 1)) (- c))), (proj2 (Z.ltb_lt (- v) (- c))) by lia. eauto.
  - rewrite (proj2 (Z.ltb_ge (2 * c - 1) (- c))), (proj2 (Z.ltb_ge v (- c))) by lia.
    rewrite (proj2 (Z.leb_le c (2 * c - 1))), (proj2 (Z.leb_le c v)) by lia. eauto.
Qed.

Lemma max_val_nonneg bitSize : 0 <= bitSize -> 0 <= max_val bitSize.
Proof.
  intros. unfold max_val. destruct (bitSize =? 0); [done|]. pose proof (Z.pow_pos_nonneg 2 bitSize). lia.
Qed.

Lemma signed_value_split base c s' :
  let t := if is_sign c then s' else c :: s' in
  signed_value base (c :: s') = (fun v => if c =? 45 then - v else v) <$> numeral base t.
Proof.
  unfold signed_value. destruct (is_sign c) eqn:Ec.
  - destruct (c =? 45); [done|]. by destruct (numeral base s').
  - unfold is_sign in Ec. apply orb_false_iff in Ec as [-> _]. by destruct (numeral base (c :: s')).
Qed.

Lemma ParseInt_spec s base bitSize :
  2 <= base <= 36 -> bitSize = 0 \/ 2 <= bitSize <= 64 ->
  match signed_value base s with
  | Some n => ParseInt s base bitSize = clamped (str "ParseInt") s (if bitSize =? 0 then 64 else bitSize) n
  | None => exists v e, ParseInt s base bitSize = (v, Some e)
  end.
Proof.
  intros Hb Hs. destruct s as [|c s']; [cbn; unfold fail; eauto|]. rewrite signed_value_split. cbv zeta.
  unfold ParseInt. cbv zeta. set (t := if is_sign c then s' else c :: s').
  pose proof (ParseUint_spec t base bitSize Hb ltac:(lia)) as HU. pose proof (max_val_nonneg bitSize ltac:(lia)) as Hm.
  destruct (numeral base t) as [v|] eqn:Hv; cbn [fmap option_fmap option_map].
  - pose proof (numeral_nonneg _ _ _ (proj1 Hb) Hv) as H0. rewrite HU.
    destruct (Z.leb_spec v (max_val bitSize)); [by rewrite ParseInt_sign_spec by lia|].
    cbn [fail Reason]. rewrite bool_decide_true by done. cbn [negb]. rewrite ParseInt_sign_spec by lia.
    by apply clamped_max.
  - destruct HU as (v & why & -> & [[-> ->]|[-> ->]]); cbn [fail Reason].
    + rewrite bool_decide_false by done. cbn [negb]. eauto.
    + rewrite bool_decide_true by done. cbn [negb]. rewrite ParseInt_sign_spec by lia.
      destruct (clamped_max (str "ParseInt") (c :: s') bitSize (c =? 45) (max_val bitSize + 1) Hs ltac:(lia)) as [-> [x ->]].
      unfold fail. eauto.
Qed.

(** ** Atoi *)

Lemma digit_10 c : is_byte c ->
  (u8 (c - 48) <= 9 /\ digit_of c = Some (u8 (c - 48))) \/
  (9 < u8 (c - 48) /\ forall d, digit_of c = Some d -> 10 <= d).
Proof.
  intros Hc. unfold digit_of. destruct ((48 <=? c) && (c <=? 57)) eqn:E.
  - left. zbool. widths. assert ((c - 48) mod 256 = c - 48) as -> by zlia. split; [lia|done].
  - right. assert (c < 48 \/ 57 < c) by (apply andb_false_iff in E as [?|?]; zbool; lia). widths.
    split; [zlia|]. intros d. destruct ((97 <=? lower c) && (lower c <=? 122)) eqn:E2; [|done]. intros [= <-]. zbool. lia.
Qed.

Lemma Atoi_loop_spec s n k :
  bytes_ok s -> 0 <= k -> 0 <= n < 10 ^ k -> k + len s <= 18 ->
  Atoi_loop s n = value_from 10 s n.
Proof.
  intros Hs. revert n k. induction Hs as [|c s Hc Hs IH]; intros n k Hk Hn Hl; [done|].
  cbn [Atoi_loop value_from]. rewrite len_cons in Hl. pose proof (len_nonneg s).
  destruct (digit_10 c Hc) as [[Hd ->]|[Hd Hno]]; cbv zeta.
  - rewrite (proj2 (Z.ltb_ge 9 _)), (proj2 (Z.ltb_lt _ 10)) by lia.
    assert (10 ^ (k + 1) <= 10 ^ 18) as Hp by (apply Z.pow_le_mono_r; lia).
    change (10 ^ 18) with 1000000000000000000 in Hp. rewrite Z.pow_add_r in Hp by lia. change (10 ^ 1) with 10 in Hp.
    pose proof (u8_is_byte (c - 48)) as Hb. unfold is_byte in Hb.
    assert (s64 (n * 10 + u8 (c - 48)) = n * 10 + u8 (c - 48)) as ->.
    { unfold s64. rewrite Z.mod_small; [lia|]. change (2 ^ 63) with 9223372036854775808. change (2 ^ 64) with 18446744073709551616. nia. }
    apply (IH _ (k + 1)); [lia| |lia]. rewrite Z.pow_add_r by lia. change (10 ^ 1) with 10. nia.
  - rewrite (proj2 (Z.ltb_lt 9 _)) by lia. destruct (digit_of c) as [d|] eqn:E; [|done].
    specialize (Hno d eq_refl). by rewrite (proj2 (Z.ltb_ge d 10)).
Qed.

Lemma Atoi_spec s :
  bytes_ok s ->
  match signed_value 10 s with
  | Some n => Atoi s = clamped (str "Atoi") s 64 n
  | None => exists v e, Atoi s = (v, Some e)
  end.
Proof.
  intros Hs. unfold Atoi. cbv zeta. destruct ((0 <? len s) && (len s <? 19)) eqn:El.
  - zbool. destruct s as [|c s']; [done|]. rewrite signed_value_split. cbv zeta. rewrite len_cons in *.
    pose proof (len_nonneg s'). destruct (is_sign c) eqn:Ec; cbn [andb].
    + destruct s' as [|c' s'']; [cbn; unfold fail; eauto|]. rewrite len_cons in *. pose proof (len_nonneg s'').
      rewrite (proj2 (Z.ltb_ge (1 + len s'') 1)) by lia. apply Forall_cons in Hs as [_ Hs].
      rewrite (Atoi_loop_spec _ 0 0) by (done || lia || (rewrite len_cons; lia)). unfold numeral.
      destruct (value_from 10 (c' :: s'') 0) as [v|] eqn:Hv; cbn [fmap option_fmap option_map hd]; [|unfold fail; eauto].
      pose proof (value_from_bound 10 _ 0 v ltac:(lia) ltac:(lia) Hv) as Hb. rewrite len_cons in Hb.
      pose proof (Z.pow_le_mono_r 10 (1 + len s'') 18 ltac:(lia) ltac:(lia)) as Hp.
      change (10 ^ 18) with 1000000000000000000 in Hp. pose proof (value_from_mono 10 _ 0 v ltac:(lia) ltac:(lia) Hv).
      unfold clamped. change (2 ^ (64 - 1)) with 9223372036854775808. destruct (c =? 45).
      * rewrite (proj2 (Z.ltb_ge (- v) _)), (proj2 (Z.leb_gt _ (- v))) by lia. f_equal. widths. zlia.
      * by rewrite (proj2 (Z.ltb_ge v _)), (proj2 (Z.leb_gt _ v)) by lia.
    + rewrite (Atoi_loop_spec _ 0 0) by (done || lia || (rewrite len_cons; lia)). unfold numeral.
      destruct (value_from 10 (c :: s') 0) as [v|] eqn:Hv; cbn [fmap option_fmap option_map hd]; [|unfold fail; eauto].
      pose proof (value_from_bound 10 _ 0 v ltac:(lia) ltac:(lia) Hv) as Hb. rewrite len_cons in Hb.
      pose proof (Z.pow_le_mono_r 10 (1 + len s') 18 ltac:(lia) ltac:(lia)) as Hp.
      change (10 ^ 18) with 1000000000000000000 in Hp. pose proof (value_from_mono 10 _ 0 v ltac:(lia) ltac:(lia) Hv).
      unfold is_sign in Ec. apply orb_false_iff in Ec as [-> _].
      unfold clamped. change (2 ^ (64 - 1)) with 9223372036854775808.
      by rewrite (proj2 (Z.ltb_ge v _)), (proj2 (Z.leb_gt _ v)) by lia.
  - pose proof (ParseInt_spec s 10 0 ltac:(lia) ltac:(lia)) as HP. destruct (signed_value 10 s) as [n|].
    + rewrite HP. unfold clamped. change (0 =? 0) with true. cbv iota.
      destruct (n <? - 2 ^ (64 - 1)); [done|]. by destruct (2 ^ (64 - 1) <=? n).
    + destruct HP as (v & e & ->). eauto.
Qed.

(** ParseUint reads exactly the numerals.  For every base from 2 to 36 and bit size
    from 0 to 64: a non-empty string of digits of the base, in either case, gives its
    value if that fits into the bit size, and otherwise the largest value with a range
    error, wherever the 64-bit arithmetic would wrap around; every other string is an
    error. *)
Theorem parse_uint_exact s base bitSize :
  2 <= base <= 36 -> 0 <= bitSize <= 64 ->
  match numeral base s with
  | Some v => ParseUint s base bitSize =
      if v <=? max_val bitSize then (v, None)
      else (max_val bitSize, fail (str "ParseUint") s ErrRange)
  | None => exists v why, ParseUint s base bitSize = (v, fail (str "ParseUint") s why) /\
      (why = ErrSyntax /\ v = 0 \/ why = ErrRange /\ v = max_val bitSize)
  end.
Proof. apply ParseUint_spec. Qed.

Lemma parse_uint_exact_witness :
  ParseUint (str "65535") 10 16 = (65535, None) /\
  ParseUint (str "65536") 10 16 = (65535, fail (str "ParseUint") (str "65536") ErrRange).
Proof.
  split.
  - exact (parse_uint_exact (str "65535") 10 16 ltac:(lia) ltac:(lia)).
  - exact (parse_uint_exact (str "65536") 10 16 ltac:(lia) ltac:(lia)).
Defined.

(** Atoi is exact: an optional sign and a non-empty string of decimal digits gives
    its value if it fits into 64 bits and the nearest bound with a range error
    otherwise, on the fast path for short strings as on the general one; every other
    string is an error.  ParseInt does the same for every base and every bit size but
    one. *)
Theorem atoi_exact s :
  bytes_ok s ->
  match signed_value 10 s with
  | Some n => Atoi s = clamped (str "Atoi") s 64 n
  | None => exists v e, Atoi s = (v, Some e)
  end /\
  (forall base bitSize, 2 <= base <= 36 -> bitSize = 0 \/ 2 <= bitSize <= 64 ->
     match signed_value base s with
     | Some n => ParseInt s base bitSize = clamped (str "ParseInt") s (if bitSize =? 0 then 64 else bitSize) n
     | None => exists v e, ParseInt s base bitSize = (v, Some e)
     end).
Proof. intros Hs. split; [by apply Atoi_spec|]. intros. by apply ParseInt_spec. Qed.

Lemma atoi_exact_witness :
  Atoi (str "-128") = (-128, None) /\
  ParseInt (str "-129") 10 8 = (-128, fail (str "ParseInt") (str "-129") ErrRange).
Proof.
  split.
  - exact (proj1 (atoi_exact (str "-128") ltac:(repeat constructor; vm_compute; discriminate))).
  - exact (proj2 (atoi_exact (str "-129") ltac:(repeat constructor; vm_compute; discriminate)) 10 8
      ltac:(lia) ltac:(lia)).
Defined.

Lemma canonical_numeral base s u : canonical base s u -> numeral base s = Some u.
Proof. intros [Hv Hne _ _]. by destruct s. Qed.

Lemma digits_at_bound v : 0 <= v < 36 -> 48 <= digits_at v < 123.
Proof. intros. unfold digits_at. destruct (Z.ltb_spec v 10); lia. Qed.

Lemma canonical_bytes base s u : base <= 36 -> canonical base s u -> bytes_ok s.
Proof.
  intros Hb [_ _ Hd _]. eapply Forall_impl; [exact Hd|]. simpl. intros c (v & Hv & ->).
  pose proof (digits_at_bound v ltac:(lia)). unfold is_byte. lia.
Qed.

Lemma signed_text_value base n s : 2 <= base <= 36 -> signed_text base n s -> signed_value base s = Some n /\ bytes_ok s.
Proof.
  intros Hb. unfold signed_text. destruct (n <? 0) eqn:En.
  - intros (s' & -> & Hc). split.
    + cbn [signed_value]. change (is_sign 45) with true. cbv iota. change (45 =? 45) with true. cbv iota.
      rewrite (canonical_numeral _ _ _ Hc). cbn. f_equal. lia.
    + constructor; [unfold is_byte; lia|]. by eapply canonical_bytes; [|exact Hc]; lia.
  - intros Hc. split; [|by eapply canonical_bytes; [|exact Hc]; lia].
    pose proof (canonical_numeral _ _ _ Hc) as Hn. destruct Hc as [_ Hne Hd _]. destruct s as [|c s]; [done|].
    apply Forall_cons in Hd as [(v & Hv & ->) _]. pose proof (digits_at_bound v ltac:(lia)).
    rewrite signed_value_split. unfold is_sign.
    rewrite (proj2 (Z.eqb_neq _ 45)), (proj2 (Z.eqb_neq _ 43)) by lia. cbn [orb]. rewrite Hn. done.
Qed.

Lemma signed_text_unique n s t : signed_text 10 n s -> signed_text 10 n t -> s = t.
Proof.
  unfold signed_text. destruct (n <? 0).
  - intros (s' & -> & Hs) (t' & -> & Ht). f_equal. by eapply (canonical_unique 10); [lia|exact Hs|exact Ht].
  - apply canonical_unique. lia.
Qed.

Lemma clamped_in fn s n : is_s64 n -> clamped fn s 64 n = (n, None).
Proof.
  intros Hn. unfold clamped. change (2 ^ (64 - 1)) with 9223372036854775808.
  by rewrite (proj2 (Z.ltb_ge n _)), (proj2 (Z.leb_gt _ n)) by lia.
Qed.

Lemma FormatUint_Uitoa u : is_u64 u -> FormatUint u 10 = Some (Uitoa u).
Proof.
  intros Hu. destruct (FormatUint_canonical u 10 ltac:(lia) Hu) as (s & -> & Hc). f_equal.
  by eapply (canonical_unique 10); [lia|exact Hc|apply Uitoa_canonical].
Qed.

Lemma AppendUint_FormatUint dst u base : AppendUint dst u base = app dst <$> FormatUint u base.
Proof. unfold AppendUint, FormatUint. by destruct (_ && _); [|destruct (formatBits _ _ _)]. Qed.

(** A canonical numeral that fits is parsed. *)
Lemma ParseUint_canonical base bitSize s u :
  2 <= base <= 36 -> 0 <= bitSize <= 64 -> canonical base s u -> u <= max_val bitSize ->
  ParseUint s base bitSize = (u, None).
Proof.
  intros Hb Hs Hc Hu. pose proof (ParseUint_spec s base bitSize Hb Hs) as HP.
  rewrite (canonical_numeral _ _ _ Hc) in HP. rewrite HP. by rewrite (proj2 (Z.leb_le _ _)).
Qed.

Lemma Atoi_Itoa n : is_s64 n -> Atoi (Itoa n) = (n, None).
Proof.
  intros Hn. destruct (signed_text_value 10 n (Itoa n) ltac:(lia) (Itoa_text n Hn)) as [Hv Hok].
  pose proof (Atoi_spec (Itoa n) Hok) as HA. rewrite Hv in HA. rewrite HA. by apply clamped_in.
Qed.

Lemma canonical_decimal s u : canonical 10 s u -> Forall (fun c => 48 <= c <= 57) s.
Proof.
  intros [_ _ Hd _]. eapply Forall_impl; [exact Hd|]. simpl. intros c (v & Hv & ->). unfold digits_at.
  rewrite (proj2 (Z.ltb_lt v 10)); lia.
Qed.

(** In base 0 a decimal numeral without a leading zero is decimal. *)
Lemma ParseUint_decimal s u : canonical 10 s u -> is_u64 u -> ParseUint s 0 64 = (u, None).
Proof.
  intros Hc Hu. pose proof (canonical_decimal _ _ Hc) as Hd. destruct Hc as [Hv Hne _ Hl].
  destruct s as [|c s]; [done|]. destruct (decide (c = 48)) as [->|H48].
  - destruct s as [|c s]; [|exfalso; apply Hl; [rewrite !len_cons; pose proof (len_nonneg s); lia|done]].
    cbn in Hv. injection Hv as <-. done.
  - pose proof (ParseUint_run (c :: s) 0 64 10 (c :: s) ltac:(done)) as HP. rewrite Hv in HP. rewrite HP; [|..|lia|lia|].
    + change (max_val 64) with 18446744073709551615. by rewrite (proj2 (Z.leb_le _ _)) by lia.
    + unfold number_base. by rewrite (proj2 (Z.eqb_neq c 48)).
    + right. intros Hin. rewrite Forall_forall in Hd. specialize (Hd _ Hin). simpl in Hd. lia.
Qed.

Lemma ParseInt_Itoa n : is_s64 n -> ParseInt (Itoa n) 0 64 = (n, None).
Proof.
  intros Hn. pose proof (Itoa_text n Hn) as Ht. unfold signed_text in Ht. unfold ParseInt. cbv zeta.
  destruct (Z.ltb_spec n 0) as [Hneg|Hpos].
  - destruct Ht as (s & -> & Hc). change (45 =? 45) with true. change (is_sign 45) with true. cbv iota.
    rewrite (ParseUint_decimal s (- n) Hc) by lia. rewrite ParseInt_sign_spec; [|lia|change (max_val 64) with 18446744073709551615; lia].
    rewrite Z.opp_involutive. by apply clamped_in.
  - destruct (Itoa n) as [|c s]; [by destruct Ht|].
    pose proof (canonical_decimal _ _ Ht) as [Hd _]%Forall_cons. unfold is_sign.
    rewrite (proj2 (Z.eqb_neq c 45)), (proj2 (Z.eqb_neq c 43)) by lia. cbn [orb].
    rewrite (ParseUint_decimal _ n Ht) by lia. rewrite ParseInt_sign_spec; [|lia|change (max_val 64) with 18446744073709551615; lia].
    by apply clamped_in.
Qed.

(** Printing and parsing integers are inverse.  For every int64 and every base
    from 2 to 36, FormatInt gives a text (it does not panic) from which ParseInt reads
    the number back, and for every uint64 FormatUint and ParseUint do; strconv.Itoa and
    internal/itoa.Itoa, which use different loops, print the same text; Atoi reads
    it back, and so does ParseInt when it finds out the base by itself. *)
Theorem integer_text_round_trip n u base :
  is_s64 n -> is_u64 u -> 2 <= base <= 36 ->
  (exists s, FormatInt n base = Some s /\ ParseInt s base 64 = (n, None)) /\
  (exists s, FormatUint u base = Some s /\ ParseUint s base 64 = (u, None)) /\
  strconv_Itoa n = Some (Itoa n) /\ Atoi (Itoa n) = (n, None) /\ ParseInt (Itoa n) 0 64 = (n, None) /\
  FormatUint u 10 = Some (Uitoa u).
Proof.
  intros Hn Hu Hb. split_and!.
  - destruct (FormatInt_text n base Hb Hn) as (s & Hs & Ht). exists s. split; [done|].
    destruct (signed_text_value base n s Hb Ht) as [Hv _]. pose proof (ParseInt_spec s base 64 Hb ltac:(lia)) as HP.
    rewrite Hv in HP. rewrite HP. by apply clamped_in.
  - destruct (FormatUint_canonical u base Hb Hu) as (s & Hs & Hc). exists s. split; [done|].
    apply ParseUint_canonical; [done|lia|done|]. change (max_val 64) with 18446744073709551615. lia.
  - unfold strconv_Itoa. destruct (FormatInt_text n 10 ltac:(lia) Hn) as (s & -> & Ht). f_equal.
    by eapply signed_text_unique; [exact Ht|apply Itoa_text].
  - by apply Atoi_Itoa.
  - by apply ParseInt_Itoa.
  - by apply FormatUint_Uitoa.
Qed.

Lemma integer_text_round_trip_witness :
  strconv_Itoa (-9223372036854775808) = Some (Itoa (-9223372036854775808)) /\
  Atoi (Itoa (-9223372036854775808)) = (-9223372036854775808, None).
Proof.
  destruct (integer_text_round_trip (-9223372036854775808) 18446744073709551615 36 ltac:(lia) ltac:(lia) ltac:(lia))
    as (_ & _ & H1 & H2 & _). exact (conj H1 H2).
Defined.

(** For a single bit, ParseInt takes a number that is out of range for -1: the range
    error of ParseUint comes with the value 1, which passes the test. *)
Example parse_int_one_bit : ParseInt (str "-5") 10 1 = (-1, None).
Proof. vm_compute. reflexivity. Qed.
