(* ===== verification/Utf8.v ===== *)
(** * unicode/utf8: runes and their encoding

    [tools/go-patched/src/unicode/utf8/utf8.go].  A [rune] is an int32, here a [Z].
    The functions on strings repeat those on byte slices; both are lists of bytes
    here. *)

From S2P Require Import Prelude.
Local Open Scope go_scope.
Local Set Warnings "-clear-no-such-hyp".

Notation RuneError := 65533 (only parsing).
Notation RuneSelf := 128 (only parsing).
Notation MaxRune := 1114111 (only parsing).
Notation UTFMax := 4 (only parsing).
Notation surrogateMin := 55296 (only parsing).
Notation surrogateMax := 57343 (only parsing).
Notation locb := 128 (only parsing).
Notation hicb := 191 (only parsing).
Notation maskx := 63 (only parsing).

(** The entries of [first]: an index into [acceptRanges] and a length, or 15 and the
    status of a single byte. *)
Notation xx := 241 (only parsing).
Notation asc := 240 (only parsing).

Definition first_table : list Z :=
  repeat asc 128 ++ repeat xx 66 ++ repeat 2 30 ++
  [19] ++ repeat 3 12 ++ [35; 3; 3] ++
  [52; 4; 4; 4; 68] ++ repeat xx 11.

Definition first (c : Z) : Z := nth (Z.to_nat c) first_table 0.

(** Bounds of the second byte. *)
Definition acceptRanges (i : Z) : Z * Z :=
  nth (Z.to_nat i) [(locb, hicb); (160, hicb); (locb, 159); (144, hicb); (locb, 143)] (0, 0).

Definition outside (c lo hi : Z) : bool := (c <? lo) || (hi <? c).

Definition s32 (x : Z) : Z := (x + 2 ^ 31) mod 2 ^ 32 - 2 ^ 31.

(** The rune at the start of the bytes, and its length. *)
Definition DecodeRune (p : gobytes) : Z * Z :=
  let n := len p in
  if n <? 1 then (RuneError, 0) else
  let p0 := at_ p 0 in
  let x := first p0 in
  if asc <=? x then
    let mask := s32 (x << 31) >> 31 in
    ((Z.ldiff p0 mask) .| (RuneError .& mask), 1)
  else
  let sz := x .& 7 in
  let '(alo, ahi) := acceptRanges (x >> 4) in
  if n <? sz then (RuneError, 1) else
  let b1 := at_ p 1 in
  if outside b1 alo ahi then (RuneError, 1) else
  if sz <=? 2 then ((p0 .& 31) << 6 .| (b1 .& maskx), 2) else
  let b2 := at_ p 2 in
  if outside b2 locb hicb then (RuneError, 1) else
  if sz <=? 3 then ((p0 .& 15) << 12 .| (b1 .& maskx) << 6 .| (b2 .& maskx), 3) else
  let b3 := at_ p 3 in
  if outside b3 locb hicb then (RuneError, 1) else
  ((p0 .& 7) << 18 .| (b1 .& maskx) << 12 .| (b2 .& maskx) << 6 .| (b3 .& maskx), 4).

Definition DecodeRuneInString (s : gostring) : Z * Z := DecodeRune s.

(** Whether the bytes begin with a full encoding, valid or not. *)
Definition FullRune (p : gobytes) : bool :=
  let n := len p in
  if n =? 0 then false else
  let x := first (at_ p 0) in
  if x .& 7 <=? n then true else
  let '(alo, ahi) := acceptRanges (x >> 4) in
  if (1 <? n) && outside (at_ p 1) alo ahi then true
  else if (2 <? n) && outside (at_ p 2) locb hicb then true
  else false.

Definition RuneStart (b : Z) : bool := negb (b .& 192 =? 128).

(** [for start--; start >= lim; start--], at most three rounds. *)
Fixpoint last_start (k : nat) (p : gobytes) (start lim : Z) : Z :=
  match k with
  | O => start
  | S k =>
      if lim <=? start then
        if RuneStart (at_ p (Z.to_nat start)) then start else last_start k p (start - 1) lim
      else start
  end.

Definition DecodeLastRune (p : gobytes) : Z * Z :=
  let end_ := len p in
  if end_ =? 0 then (RuneError, 0) else
  let start := end_ - 1 in
  let r := at_ p (Z.to_nat start) in
  if r <? RuneSelf then (r, 1) else
  let lim := if end_ - UTFMax <? 0 then 0 else end_ - UTFMax in
  let start := last_start 4 p (start - 1) lim in
  let start := if start <? 0 then 0 else start in
  let '(r, size) := DecodeRune (drop (Z.to_nat start) p) in
  if negb (start + size =? end_) then (RuneError, 1) else (r, size).

Definition DecodeLastRuneInString (s : gostring) : Z * Z := DecodeLastRune s.

Definition RuneLen (r : Z) : Z :=
  if r <? 0 then -1
  else if r <=? 127 then 1
  else if r <=? 2047 then 2
  else if (surrogateMin <=? r) && (r <=? surrogateMax) then -1
  else if r <=? 65535 then 3
  else if r <=? MaxRune then 4
  else -1.

Definition ValidRune (r : Z) : bool :=
  if (0 <=? r) && (r <? surrogateMin) then true
  else (surrogateMax <? r) && (r <=? MaxRune).

(** The bytes that EncodeRune writes, by the cases of its switch. *)
Definition enc2 (r : Z) : gobytes := [192 .| u8 (r >> 6); 128 .| (u8 r .& maskx)].
Definition enc3 (r : Z) : gobytes :=
  [224 .| u8 (r >> 12); 128 .| (u8 (r >> 6) .& maskx); 128 .| (u8 r .& maskx)].
Definition enc4 (r : Z) : gobytes :=
  [240 .| u8 (r >> 18); 128 .| (u8 (r >> 12) .& maskx); 128 .| (u8 (r >> 6) .& maskx); 128 .| (u8 r .& maskx)].

(** [copy_front p b] writes [b] over the front of [p]; [None] is the panic of an index
    out of range. *)
Definition copy_front (p b : gobytes) : option gobytes :=
  if len p <? len b then None else Some (b ++ drop (length b) p).

(** The new contents of [p] and the number of bytes written. *)
Definition EncodeRune (p : gobytes) (r : Z) : option (gobytes * Z) :=
  let i := u32 r in
  if i <=? 127 then b ← copy_front p [u8 r]; Some (b, 1)
  else if i <=? 2047 then b ← copy_front p (enc2 r); Some (b, 2)
  else if (MaxRune <? i) || ((surrogateMin <=? i) && (i <=? surrogateMax)) then
    b ← copy_front p (enc3 RuneError); Some (b, 3)
  else if i <=? 65535 then b ← copy_front p (enc3 r); Some (b, 3)
  else b ← copy_front p (enc4 r); Some (b, 4).

Definition appendRuneNonASCII (p : gobytes) (r : Z) : gobytes :=
  let i := u32 r in
  if i <=? 2047 then p ++ enc2 r
  else if (MaxRune <? i) || ((surrogateMin <=? i) && (i <=? surrogateMax)) then p ++ enc3 RuneError
  else if i <=? 65535 then p ++ enc3 r
  else p ++ enc4 r.

Definition AppendRune (p : gobytes) (r : Z) : gobytes :=
  if u32 r <=? 127 then p ++ [u8 r] else appendRuneNonASCII p r.

(** The body of the loops of RuneCount and Valid at a byte that is not ASCII: the
    length of the rune that starts here, or [None] if there is none. *)
Definition rune_size (p : gobytes) : option Z :=
  let x := first (at_ p 0) in
  if x =? xx then None else
  let size := x .& 7 in
  if len p <? size then None else
  let '(alo, ahi) := acceptRanges (x >> 4) in
  if outside (at_ p 1) alo ahi then None
  else if size =? 2 then Some size
  else if outside (at_ p 2) locb hicb then None
  else if size =? 3 then Some size
  else if outside (at_ p 3) locb hicb then None
  else Some size.

(** The loops move [i] forward; here [p] is what is left.  Every round takes at least
    one byte, so as many rounds as there are bytes are enough. *)
Fixpoint RuneCount_loop (fuel : nat) (p : gobytes) (n : Z) : Z :=
  match fuel, p with
  | S fuel, c :: p' =>
      if c <? RuneSelf then RuneCount_loop fuel p' (n + 1)
      else RuneCount_loop fuel (drop (Z.to_nat (default 1 (rune_size p))) p) (n + 1)
  | _, _ => n
  end.

Definition RuneCount (p : gobytes) : Z := RuneCount_loop (length p) p 0.
Definition RuneCountInString (s : gostring) : Z := RuneCount s.

Fixpoint Valid_loop (fuel : nat) (p : gobytes) : bool :=
  match fuel, p with
  | S fuel, c :: p' =>
      if c <? RuneSelf then Valid_loop fuel p'
      else match rune_size p with
           | None => false
           | Some size => Valid_loop fuel (drop (Z.to_nat size) p)
           end
  | _, _ => true
  end.

(** The fast path: skip 8 bytes of ASCII at a time. *)
Fixpoint skip_ascii8 (fuel : nat) (p : gobytes) : gobytes :=
  match fuel, p with
  | S fuel, a :: b :: c :: d :: e :: f :: g :: h :: p' =>
      let first32 := a .| (b << 8) .| (c << 16) .| (d << 24) in
      let second32 := e .| (f << 8) .| (g << 16) .| (h << 24) in
      if negb ((first32 .| second32) .& 2155905152 =? 0) then p else skip_ascii8 fuel p'
  | _, _ => p
  end.

Definition Valid (p : gobytes) : bool :=
  let p := skip_ascii8 (length p) p in Valid_loop (length p) p.
Definition ValidString (s : gostring) : bool := Valid s.

Example utf8_examples :
  AppendRune [] 8364 = [226; 130; 172] /\ DecodeRune [240; 159; 152; 128; 65] = (128512, 4) /\
  DecodeRune [192; 128] = (RuneError, 1) /\ DecodeLastRune [65; 226; 130; 172] = (8364, 3) /\
  Valid (str "plain text" ++ [195; 169]) = true /\ Valid [237; 160; 128] = false /\
  RuneCount [65; 226; 130; 172; 255] = 3 /\ AppendRune [] 55296 = [239; 191; 189] /\
  FullRune [226; 130] = false /\ FullRune [226; 65] = true.
Proof. split_and!; vm_compute; reflexivity. Qed.

(** ** What the tables say *)

Lemma first_spec c :
  is_byte c ->
  first c = if c <? 128 then asc else if c <? 194 then xx else if c <? 224 then 2
            else if c =? 224 then 19 else if c =? 237 then 35 else if c <? 240 then 3
            else if c =? 240 then 52 else if c <? 244 then 4 else if c =? 244 then 68 else xx.
Proof.
  intros Hc. apply Z.eqb_eq. revert c Hc. apply byte_enum. by vm_compute.
Qed.

(** ** The encoding in arithmetic *)

(** The encoding of a rune in arithmetic. *)
Definition encoding (r : Z) : gobytes :=
  if r <? 128 then [r]
  else if r <? 2048 then [192 + r / 64; 128 + r mod 64]
  else if r <? 65536 then [224 + r / 4096; 128 + r / 64 mod 64; 128 + r mod 64]
  else [240 + r / 262144; 128 + r / 4096 mod 64; 128 + r / 64 mod 64; 128 + r mod 64].

Lemma land_63 x : x .& 63 = x mod 64.
Proof. exact (land_ones_mod x 6 ltac:(lia)). Qed.

Lemma continuation r : 128 .| (u8 r .& 63) = 128 + r mod 64.
Proof.
  rewrite land_63, (lor_disjoint 128 _ 7); [| lia | change (2 ^ 7) with 128; zlia | done].
  widths. rewrite <- (Znumtheory.Zmod_div_mod 64 256) by (lia || by exists 4). done.
Qed.

Lemma lead base n r :
  0 <= n -> 0 <= r < 2 ^ n -> 2 ^ n <= 256 -> base mod 2 ^ n = 0 -> base .| u8 r = base + r.
Proof.
  intros Hn Hr Hb Hm. rewrite u8_byte by (unfold is_byte; lia). by apply (lor_disjoint _ _ n).
Qed.

Lemma AppendRune_encoding p r : ValidRune r = true -> AppendRune p r = p ++ encoding r.
Proof.
  unfold ValidRune, AppendRune, appendRuneNonASCII, encoding, enc2, enc3, enc4. intros Hv.
  assert (0 <= r <= MaxRune /\ (r < surrogateMin \/ surrogateMax < r)) as [Hr Hs]
    by (destruct (_ && _) eqn:E in Hv; zbool; lia).
  assert (u32 r = r) as -> by (widths; zlia). rewrite !continuation. shifts.
  destruct (Z.leb_spec r 127), (Z.ltb_spec r 128); try lia; [by rewrite u8_byte by (unfold is_byte; lia)|].
  destruct (Z.leb_spec r 2047), (Z.ltb_spec r 2048); try lia; [by rewrite (lead _ 5) by (done || zlia)|].
  assert ((MaxRune <? r) || (surrogateMin <=? r) && (r <=? surrogateMax) = false) as ->.
  { apply orb_false_iff. rewrite andb_false_iff, Z.ltb_ge, !Z.leb_gt. lia. }
  destruct (Z.leb_spec r 65535), (Z.ltb_spec r 65536); try lia.
  - by rewrite (lead _ 4) by (done || zlia).
  - by rewrite (lead _ 3) by (done || zlia).
Qed.

(** ** Decoding in arithmetic *)

(** Bounds of the second byte after the first byte [c]. *)
Definition lo2 (c : Z) : Z := if c =? 224 then 160 else if c =? 240 then 144 else 128.
Definition hi2 (c : Z) : Z := if c =? 237 then 159 else if c =? 244 then 143 else 191.

Notation bad_rune := (65533, 1) (only parsing).

(** The decoder in arithmetic. *)
Definition decoding (c : Z) (p : gobytes) : Z * Z :=
  if c <? 128 then (c, 1)
  else if c <? 194 then bad_rune
  else if c <? 224 then
    match p with
    | b1 :: _ => if outside b1 (lo2 c) (hi2 c) then bad_rune else (c mod 32 * 64 + b1 mod 64, 2)
    | _ => bad_rune
    end
  else if c <? 240 then
    match p with
    | b1 :: b2 :: _ =>
        if outside b1 (lo2 c) (hi2 c) || outside b2 128 191 then bad_rune
        else (c mod 16 * 4096 + b1 mod 64 * 64 + b2 mod 64, 3)
    | _ => bad_rune
    end
  else if c <? 245 then
    match p with
    | b1 :: b2 :: b3 :: _ =>
        if outside b1 (lo2 c) (hi2 c) || outside b2 128 191 || outside b3 128 191 then bad_rune
        else (c mod 8 * 262144 + b1 mod 64 * 4096 + b2 mod 64 * 64 + b3 mod 64, 4)
    | _ => bad_rune
    end
  else bad_rune.

Lemma join2 a b : a << 6 .| (b .& 63) = a * 64 + b mod 64.
Proof. rewrite land_63. exact (shiftl_lor_add (b mod 64) a 6 ltac:(lia) ltac:(zlia)). Qed.

Lemma join3 a b c : a << 12 .| ((b .& 63) << 6) .| (c .& 63) = a * 4096 + b mod 64 * 64 + c mod 64.
Proof.
  rewrite !land_63, (shiftl_lor_add _ a 12) by (shifts; zlia). shifts.
  apply (lor_disjoint _ _ 6); [lia|zlia|]. zlia.
Qed.

Lemma join4 a b c d :
  a << 18 .| ((b .& 63) << 12) .| ((c .& 63) << 6) .| (d .& 63) = a * 262144 + b mod 64 * 4096 + c mod 64 * 64 + d mod 64.
Proof.
  rewrite !land_63, (shiftl_lor_add _ a 18) by (shifts; zlia). shifts.
  rewrite (lor_disjoint _ (c mod 64 * 64) 12) by (try lia; zlia). apply (lor_disjoint _ _ 6); [lia|zlia|]. zlia.
Qed.

Lemma len_lt_cons {A} (x : A) l n : (len (x :: l) <? n) = (len l <? n - 1).
Proof. rewrite len_cons. destruct (Z.ltb_spec (1 + len l) n), (Z.ltb_spec (len l) (n - 1)); lia. Qed.

Lemma lands c : c .& 31 = c mod 32 /\ c .& 15 = c mod 16 /\ c .& 7 = c mod 8.
Proof. exact (conj (land_ones_mod c 5 ltac:(lia)) (conj (land_ones_mod c 4 ltac:(lia)) (land_ones_mod c 3 ltac:(lia)))). Qed.

(** The decoder on the rest of the bytes, once the entry of the first byte is known. *)
Lemma DecodeRune_multi c p x lo hi :
  is_byte c -> first c = x -> x < 240 -> acceptRanges (x >> 4) = (lo, hi) -> (x .& 7 = 2 \/ x .& 7 = 3 \/ x .& 7 = 4) ->
  DecodeRune (c :: p) =
  match p with
  | b1 :: p2 =>
      if len p <? x .& 7 - 1 then bad_rune else
      if outside b1 lo hi then bad_rune else
      if x .& 7 <=? 2 then (c mod 32 * 64 + b1 mod 64, 2) else
      if outside (at_ p2 0) 128 191 then bad_rune else
      if x .& 7 <=? 3 then (c mod 16 * 4096 + b1 mod 64 * 64 + at_ p2 0 mod 64, 3) else
      if outside (at_ p2 1) 128 191 then bad_rune else
      (c mod 8 * 262144 + b1 mod 64 * 4096 + at_ p2 0 mod 64 * 64 + at_ p2 1 mod 64, 4)
  | [] => bad_rune
  end.
Proof.
  intros Hc Hx Hlt Ha Hn. destruct (lands c) as (L31 & L15 & L7). unfold DecodeRune. cbv zeta.
  change (at_ (c :: p) 0) with c. rewrite Hx, Ha, !len_lt_cons, (proj2 (Z.leb_gt 240 x)) by lia.
  pose proof (len_nonneg p). rewrite (proj2 (Z.ltb_ge (len p) _)) by lia.
  destruct p as [|b1 p2]; [by destruct Hn as [-> | [-> | ->]]|].
  change (at_ (c :: b1 :: p2) 1) with b1. change (at_ (c :: b1 :: p2) 2) with (at_ p2 0).
  change (at_ (c :: b1 :: p2) 3) with (at_ p2 1). by rewrite join2, join3, join4, L31, L15, L7.
Qed.

Lemma DecodeRune_decoding c p : is_byte c -> DecodeRune (c :: p) = decoding c p.
Proof.
  intros Hc. pose proof (first_spec c Hc) as Hx. unfold decoding, lo2, hi2.
  assert (first c = 241 -> DecodeRune (c :: p) = bad_rune) as Hbad.
  { intros E. unfold DecodeRune. cbv zeta. change (at_ (c :: p) 0) with c. rewrite E, len_lt_cons.
    pose proof (len_nonneg p). rewrite (proj2 (Z.ltb_ge (len p) _)) by lia.
    change (s32 (241 << 31) >> 31) with (-1). by rewrite Z.ldiff_m1_r. }
  destruct (Z.ltb_spec c 128).
  { unfold DecodeRune. cbv zeta. change (at_ (c :: p) 0) with c. rewrite Hx, len_lt_cons.
    pose proof (len_nonneg p). rewrite (proj2 (Z.ltb_ge (len p) _)) by lia.
    change (s32 (240 << 31) >> 31) with 0. cbn -[Z.ldiff]. by rewrite Z.ldiff_0_r, Z.lor_0_r. }
  repeat match type of Hx with
  | _ = (if ?b then _ else _) => let E := fresh "E" in destruct b eqn:E; zbool
  end; try (rewrite Hbad by done); try (erewrite (DecodeRune_multi c p _ _ _ Hc Hx) by (done || lia || auto)).
  all: repeat match goal with
  | |- context [Zpos ?x .& 7] => let v := eval vm_compute in (Zpos x .& 7) in change (Zpos x .& 7) with v
  | |- context [?a =? ?b] => constr_eq a c; destruct (Z.eqb_spec a b); try lia
  | |- context [?a <? ?b] => constr_eq a c; destruct (Z.ltb_spec a b); try lia
  end; try done.
  all: destruct p as [|b1 [|b2 [|b3 p]]]; try done; rewrite ?len_lt_cons; cbn -[Z.modulo Z.mul outside len];
    try (pose proof (len_nonneg p); rewrite (proj2 (Z.ltb_ge (len p) _)) by lia);
    change (@len Z [] <? 0) with false; change (at_ [] 0) with 0; cbv iota;
    repeat match goal with |- context [outside ?b ?l ?h] => destruct (outside b l h); cbn [orb]; try done end.
Qed.

(** ** Decoding and encoding are inverse *)

Lemma ValidRune_spec r : ValidRune r = true <-> 0 <= r < 55296 \/ 57343 < r <= 1114111.
Proof.
  unfold ValidRune. destruct (_ && _) eqn:E.
  - zbool. lia.
  - rewrite andb_true_iff, Z.ltb_lt, Z.leb_le. apply andb_false_iff in E. rewrite Z.leb_gt, Z.ltb_ge in E. lia.
Qed.

Lemma outside_spec c lo hi : outside c lo hi = false <-> lo <= c <= hi.
Proof. unfold outside. rewrite orb_false_iff, !Z.ltb_ge. done. Qed.

Lemma outside_in c lo hi : lo <= c <= hi -> outside c lo hi = false.
Proof. apply outside_spec. Qed.

(** The encoding is decoded, whatever follows it. *)
Lemma decode_encoding r rest :
  ValidRune r = true -> DecodeRune (encoding r ++ rest) = (r, len (encoding r)).
Proof.
  intros Hv%ValidRune_spec. unfold encoding.
  destruct (Z.ltb_spec r 128); [|destruct (Z.ltb_spec r 2048); [|destruct (Z.ltb_spec r 65536)]];
    cbn [app]; rewrite DecodeRune_decoding by (unfold is_byte; zlia); unfold decoding, lo2, hi2.
  - by rewrite (proj2 (Z.ltb_lt r 128)).
  - rewrite !(proj2 (Z.ltb_ge (192 + _) _)), (proj2 (Z.ltb_lt (192 + _) 224)), !(proj2 (Z.eqb_neq (192 + _) _)) by zlia.
    rewrite outside_in by zlia. f_equal. zlia.
  - rewrite !(proj2 (Z.ltb_ge (224 + _) _)), (proj2 (Z.ltb_lt (224 + _) 240)), !(proj2 (Z.eqb_neq (224 + _) 240)), !(proj2 (Z.eqb_neq (224 + _) 244)) by zlia.
    rewrite outside_in by (destruct (Z.eqb_spec (224 + r / 4096) 224), (Z.eqb_spec (224 + r / 4096) 237); zlia).
    rewrite outside_in by zlia. cbn [orb]. f_equal. zlia.
  - rewrite !(proj2 (Z.ltb_ge (240 + _) _)), (proj2 (Z.ltb_lt (240 + _) 245)), !(proj2 (Z.eqb_neq (240 + _) 224)), !(proj2 (Z.eqb_neq (240 + _) 237)) by zlia.
    rewrite outside_in by (destruct (Z.eqb_spec (240 + r / 262144) 240), (Z.eqb_spec (240 + r / 262144) 244); zlia).
    rewrite !outside_in by zlia. cbn [orb]. f_equal. zlia.
Qed.

(** A rune in the range of its length has that encoding. *)
Lemma encoding_intro r bs p n :
  ValidRune r = true -> encoding r = bs -> n = len bs ->
  ValidRune r = true /\ n = len (encoding r) /\ exists rest, bs ++ p = encoding r ++ rest.
Proof. intros ? <- ->. eauto. Qed.

Ltac bounds_of_bytes :=
  repeat match goal with
  | H : outside _ _ _ = false |- _ => apply outside_spec in H
  | H : _ || _ = false |- _ => apply orb_false_iff in H as [??]
  end.

(** What is decoded without an error is the encoding of the rune. *)
Lemma decoding_sound c p r n :
  is_byte c -> decoding c p = (r, n) ->
  r = RuneError /\ n = 1 /\ 128 <= c \/
  ValidRune r = true /\ n = len (encoding r) /\ exists rest, c :: p = encoding r ++ rest.
Proof.
  intros Hc. unfold decoding, lo2, hi2. unfold is_byte in Hc.
  destruct (Z.ltb_spec c 128).
  { intros [= <- <-]. right. apply (encoding_intro c [c] p); [rewrite ValidRune_spec; lia| |done].
    unfold encoding. by rewrite (proj2 (Z.ltb_lt c 128)) by lia. }
  destruct (Z.ltb_spec c 194); [intros [= <- <-]; by left|].
  destruct (Z.ltb_spec c 224).
  { destruct p as [|b1 p]; [intros [= <- <-]; by left|].
    destruct (outside _ _ _) eqn:E1; intros [= <- <-]; [by left|right].
    rewrite !(proj2 (Z.eqb_neq c _)) in E1 by lia. bounds_of_bytes.
    apply (encoding_intro _ [c; b1] p); [apply ValidRune_spec; zlia| |done].
    unfold encoding. rewrite (proj2 (Z.ltb_ge _ 128)), (proj2 (Z.ltb_lt _ 2048)) by zlia. cells_eq. }
  destruct (Z.ltb_spec c 240).
  { destruct p as [|b1 [|b2 p]]; [intros [= <- <-]; by left..|].
    destruct (outside b1 _ _ || _) eqn:E1; intros [= <- <-]; [by left|right].
    rewrite !(proj2 (Z.eqb_neq c 240)), !(proj2 (Z.eqb_neq c 244)) in E1 by lia. bounds_of_bytes.
    destruct (Z.eqb_spec c 224), (Z.eqb_spec c 237); try lia;
    (apply (encoding_intro _ [c; b1; b2] p); [apply ValidRune_spec; zlia| |done]);
    unfold encoding; rewrite (proj2 (Z.ltb_ge _ 128)), (proj2 (Z.ltb_ge _ 2048)), (proj2 (Z.ltb_lt _ 65536)) by zlia; cells_eq. }
  destruct (Z.ltb_spec c 245); [|intros [= <- <-]; by left].
  destruct p as [|b1 [|b2 [|b3 p]]]; [intros [= <- <-]; by left..|].
  destruct (outside b1 _ _ || _ || _) eqn:E1; intros [= <- <-]; [by left|right].
  rewrite !(proj2 (Z.eqb_neq c 224)), !(proj2 (Z.eqb_neq c 237)) in E1 by lia. bounds_of_bytes.
  destruct (Z.eqb_spec c 240), (Z.eqb_spec c 244); try lia;
  (apply (encoding_intro _ [c; b1; b2; b3] p); [apply ValidRune_spec; zlia| |done]);
  unfold encoding; rewrite (proj2 (Z.ltb_ge _ 128)), (proj2 (Z.ltb_ge _ 2048)), (proj2 (Z.ltb_ge _ 65536)) by zlia; cells_eq.
Qed.

Lemma encoding_len r : ValidRune r = true -> 1 <= len (encoding r) <= 4 /\ (len (encoding r) = 1 <-> r < 128).
Proof.
  intros Hv%ValidRune_spec. unfold encoding.
  destruct (Z.ltb_spec r 128); [|destruct (Z.ltb_spec r 2048); [|destruct (Z.ltb_spec r 65536)]];
    unfold len; cbn [length]; lia.
Qed.

Lemma encoding_RuneLen r : ValidRune r = true -> len (encoding r) = RuneLen r.
Proof.
  intros Hv%ValidRune_spec. unfold encoding, RuneLen. rewrite (proj2 (Z.ltb_ge r 0)) by lia.
  destruct (Z.ltb_spec r 128), (Z.leb_spec r 127); try lia; [done|].
  destruct (Z.ltb_spec r 2048), (Z.leb_spec r 2047); try lia; [done|].
  assert ((surrogateMin <=? r) && (r <=? surrogateMax) = false) as -> by (apply andb_false_iff; rewrite !Z.leb_gt; lia).
  destruct (Z.ltb_spec r 65536), (Z.leb_spec r 65535); try lia; [done|].
  by rewrite (proj2 (Z.leb_le r _)) by lia.
Qed.

Lemma encoding_bytes r : ValidRune r = true -> bytes_ok (encoding r).
Proof.
  intros Hv%ValidRune_spec. unfold encoding, is_byte.
  destruct (Z.ltb_spec r 128); [|destruct (Z.ltb_spec r 2048); [|destruct (Z.ltb_spec r 65536)]];
    repeat (constructor; [zlia|]); constructor.
Qed.

(** The decoder is exact. *)
Lemma DecodeRune_cases p :
  bytes_ok p -> p <> [] ->
  (exists r rest, ValidRune r = true /\ p = encoding r ++ rest /\ DecodeRune p = (r, len (encoding r))) \/
  (DecodeRune p = bad_rune /\ 128 <= at_ p 0 /\ forall r rest, ValidRune r = true -> p <> encoding r ++ rest).
Proof.
  intros Hp Hne. destruct p as [|c p]; [done|]. apply Forall_cons in Hp as [Hc Hp].
  destruct (DecodeRune (c :: p)) as [r n] eqn:E. pose proof E as E'. rewrite DecodeRune_decoding in E' by done.
  destruct (decoding_sound c p r n Hc E') as [(-> & -> & H128)|(Hv & -> & rest & Hr)].
  - right. split_and!; [done|done|]. intros r rest Hv Heq. rewrite Heq, (decode_encoding r rest Hv) in E.
    injection E as -> E1. pose proof (encoding_len _ Hv). lia.
  - left. by exists r, rest.
Qed.

(** ** Scanning a whole string *)

Lemma first_cases c :
  is_byte c -> 128 <= c ->
  first c = 241 \/ first c < 240 /\ (first c .& 7 = 2 \/ first c .& 7 = 3 \/ first c .& 7 = 4).
Proof.
  intros Hc H128. rewrite (first_spec c Hc), (proj2 (Z.ltb_ge c 128)) by lia.
  repeat match goal with |- context [if ?b then _ else _] => destruct b; [first [by left | right; split; [done|cbn; auto]]|] end.
  by left.
Qed.

(** The loops of RuneCount and Valid test what the decoder tests. *)
Lemma rune_size_DecodeRune c p :
  is_byte c -> 128 <= c ->
  rune_size (c :: p) = let '(_, n) := DecodeRune (c :: p) in if n =? 1 then None else Some n.
Proof.
  intros Hc H128. unfold rune_size, DecodeRune. cbv zeta. change (at_ (c :: p) 0) with c.
  rewrite (proj2 (Z.ltb_ge (len (c :: p)) 1)) by (rewrite len_cons; pose proof (len_nonneg p); lia).
  destruct (first_cases c Hc H128) as [-> |[Hlt Hsz]]; [done|].
  rewrite (proj2 (Z.eqb_neq (first c) 241)), (proj2 (Z.leb_gt 240 (first c))) by lia.
  destruct (acceptRanges (first c >> 4)) as [alo ahi].
  destruct Hsz as [-> |[-> | ->]]; cbn -[outside len at_ Z.lor Z.land Z.shiftl];
    repeat match goal with |- context [if ?b then _ else _] => destruct b; try reflexivity end.
Qed.

(** The bytes as a sequence of runes, as a range loop over a string gives them. *)
Fixpoint runes (fuel : nat) (p : gobytes) : list Z :=
  match fuel, p with
  | S fuel, _ :: _ => let '(r, n) := DecodeRune p in r :: runes fuel (drop (Z.to_nat n) p)
  | _, _ => []
  end.

Lemma DecodeRune_size c p : is_byte c -> exists r n, DecodeRune (c :: p) = (r, n) /\ 1 <= n <= 4 /\ (c < 128 -> r = c /\ n = 1).
Proof.
  intros Hc. rewrite DecodeRune_decoding by done. destruct (decoding c p) as [r n] eqn:E. exists r, n. split; [done|]. split.
  - destruct (decoding_sound _ _ _ _ Hc E) as [(_ & -> & _)|(Hv & -> & _)]; [lia|]. by apply encoding_len.
  - unfold decoding in E. intros Hlt. rewrite (proj2 (Z.ltb_lt c 128)) in E by lia. by injection E.
Qed.

Lemma RuneCount_loop_runes fuel p n :
  bytes_ok p -> RuneCount_loop fuel p n = n + len (runes fuel p).
Proof.
  revert p n. induction fuel as [|fuel IH]; intros [|c p] n Hp; try (unfold len; simpl; lia).
  cbn [RuneCount_loop runes]. pose proof (Forall_cons_1 _ _ _ Hp) as [Hc Hp'].
  destruct (DecodeRune_size c p Hc) as (r & m & E & Hm & Ha). rewrite E, len_cons.
  destruct (Z.ltb_spec c 128).
  - destruct (Ha ltac:(lia)) as [-> ->]. rewrite IH by done. change (drop (Z.to_nat 1) (c :: p)) with p. lia.
  - rewrite rune_size_DecodeRune, E, IH by (try apply Forall_drop; done).
    replace (default 1 (if m =? 1 then None else Some m)) with m by (destruct (Z.eqb_spec m 1); simpl; lia). lia.
Qed.

(** The texts: sequences of encoded runes. *)
Definition text (rs : list Z) : gobytes := concat (map (AppendRune []) rs).

Lemma text_cons r rs : ValidRune r = true -> text (r :: rs) = encoding r ++ text rs.
Proof. intros Hv. unfold text. cbn [map concat]. by rewrite AppendRune_encoding. Qed.

Lemma drop_encoding r rest : drop (Z.to_nat (len (encoding r))) (encoding r ++ rest) = rest.
Proof. unfold len. by rewrite Nat2Z.id, drop_app_length. Qed.

Lemma length_drop_encoding r (rest : gobytes) : ValidRune r = true -> (length rest < length (encoding r ++ rest))%nat.
Proof. intros Hv. pose proof (encoding_len r Hv) as [? _]. unfold len in *. rewrite length_app. lia. Qed.

Lemma Valid_loop_spec fuel p :
  bytes_ok p -> (length p <= fuel)%nat ->
  Valid_loop fuel p = true <-> exists rs, Forall (fun r => ValidRune r = true) rs /\ p = text rs.
Proof.
  revert p. induction fuel as [|fuel IH]; intros [|c p] Hp Hf; cbn [Valid_loop length] in *; try lia.
  1-2: split; [by exists []|done].
  assert ((if c <? 128 then Valid_loop fuel p else match rune_size (c :: p) with None => false | Some size => Valid_loop fuel (drop (Z.to_nat size) (c :: p)) end)
    = let '(r, n) := DecodeRune (c :: p) in if (128 <=? c) && (n =? 1) then false else Valid_loop fuel (drop (Z.to_nat n) (c :: p))) as ->.
  { pose proof (Forall_cons_1 _ _ _ Hp) as [Hc _]. destruct (DecodeRune_size c p Hc) as (r & m & E & Hm & Ha). rewrite E.
    destruct (Z.ltb_spec c 128).
    - destruct (Ha ltac:(lia)) as [-> ->]. by rewrite (proj2 (Z.leb_gt 128 c)).
    - rewrite rune_size_DecodeRune, E, (proj2 (Z.leb_le 128 c)) by done. by destruct (Z.eqb_spec m 1). }
  destruct (DecodeRune_cases (c :: p) Hp ltac:(done)) as [(r & rest & Hv & Heq & ->)|(-> & H128 & Hno)].
  - assert ((128 <=? c) && (len (encoding r) =? 1) = false) as ->.
    { destruct (encoding_len r Hv) as [_ H1]. apply andb_false_iff. destruct (Z.eqb_spec (len (encoding r)) 1) as [E|]; [left|by right].
      apply H1 in E. unfold encoding in Heq. rewrite (proj2 (Z.ltb_lt r 128)) in Heq by lia. injection Heq as -> _. by apply Z.leb_gt. }
    rewrite Heq, drop_encoding. pose proof (length_drop_encoding r rest Hv) as Hl. rewrite <- Heq in Hl. cbn [length] in Hl.
    rewrite Heq in Hp. apply Forall_app in Hp as [_ Hrest]. rewrite IH by (done || lia). split.
    + intros (rs & Hrs & ->). exists (r :: rs). split; [by constructor|]. by rewrite text_cons.
    + intros ([|r' rs] & Hrs & Ht); [exfalso; pose proof (encoding_len r Hv) as [? _]; apply (f_equal len) in Ht; rewrite len_app in Ht; pose proof (len_nonneg rest); change (len (text [])) with 0 in Ht; lia|].
      apply Forall_cons in Hrs as [Hr' Hrs]. rewrite text_cons in Ht by done. exists rs. split; [done|].
      assert (r' = r) as ->.
      { pose proof (decode_encoding r rest Hv) as D1. rewrite Ht, (decode_encoding r' _ Hr') in D1. by injection D1. }
      by apply app_inv_head in Ht.
  - change (at_ (c :: p) 0) with c in H128. rewrite (proj2 (Z.leb_le 128 c)) by lia. cbn [andb]. change (1 =? 1) with true. cbv iota.
    split; [done|]. intros ([|r rs] & Hrs & Ht); [done|]. apply Forall_cons in Hrs as [Hr Hrs]. rewrite text_cons in Ht by done.
    by destruct (Hno r (text rs) Hr).
Qed.

Lemma ascii_byte_bit c : is_byte c -> Z.testbit c 7 = false -> c < 128.
Proof.
  intros Hc Hb. apply Z.ltb_lt. assert (Z.testbit c 7 || (c <? 128) = true) as H; [|by rewrite Hb in H].
  clear Hb. revert c Hc. apply byte_enum. by vm_compute.
Qed.

(** Four bytes loaded together have no high bit only if each of them has none. *)
Lemma load32_bits a b c d w i :
  a .| (b << 8) .| (c << 16) .| (d << 24) = w -> 0 <= i -> Z.testbit w i = false ->
  Z.testbit a i = false /\ Z.testbit b (i - 8) = false /\ Z.testbit c (i - 16) = false /\ Z.testbit d (i - 24) = false.
Proof. intros <- Hi. rewrite !Z.lor_spec, !Z.shiftl_spec, !orb_false_iff by lia. tauto. Qed.

Lemma load32_ascii a b c d x :
  bytes_ok [a; b; c; d] -> x .& 2155905152 = 0 -> (forall i, Z.testbit x i = false -> Z.testbit (a .| (b << 8) .| (c << 16) .| (d << 24)) i = false) ->
  Forall (fun c => 0 <= c < 128) [a; b; c; d].
Proof.
  intros Hb Hx Hsub.
  assert (forall i, 0 <= i -> Z.testbit 2155905152 i = true -> Z.testbit (a .| (b << 8) .| (c << 16) .| (d << 24)) i = false) as Hbit.
  { intros i Hi Hm. apply Hsub. assert (Z.testbit (x .& 2155905152) i = false) as E by (rewrite Hx; apply Z.bits_0).
    rewrite Z.land_spec, Hm, andb_true_r in E. done. }
  destruct (load32_bits a b c d _ 7 eq_refl ltac:(lia) (Hbit 7 ltac:(lia) eq_refl)) as (Ha & _).
  destruct (load32_bits a b c d _ 15 eq_refl ltac:(lia) (Hbit 15 ltac:(lia) eq_refl)) as (_ & Hb' & _).
  destruct (load32_bits a b c d _ 23 eq_refl ltac:(lia) (Hbit 23 ltac:(lia) eq_refl)) as (_ & _ & Hc & _).
  destruct (load32_bits a b c d _ 31 eq_refl ltac:(lia) (Hbit 31 ltac:(lia) eq_refl)) as (_ & _ & _ & Hd).
  rewrite !Forall_cons in Hb. destruct Hb as (Ba & Bb & Bc & Bd & _).
  repeat (constructor; [split; [unfold is_byte in *; lia|by apply ascii_byte_bit]|]). constructor.
Qed.

(** The fast path only skips ASCII. *)
Lemma skip_ascii8_spec fuel p :
  bytes_ok p -> exists pre, p = pre ++ skip_ascii8 fuel p /\ Forall (fun c => 0 <= c < 128) pre.
Proof.
  revert p. induction fuel as [|fuel IH]; intros p Hp; [by exists []|].
  destruct p as [|a [|b [|c [|d [|e [|f [|g [|h p]]]]]]]]; try by exists []. cbn [skip_ascii8].
  destruct (negb _) eqn:E; [by exists []|]. zbool.
  change (a :: b :: c :: d :: e :: f :: g :: h :: p) with ([a; b; c; d] ++ [e; f; g; h] ++ p) in *.
  apply Forall_app in Hp as [H1 Hp]. apply Forall_app in Hp as [H2 Hp].
  destruct (IH p Hp) as (pre & Heq & Hpre). exists ([a; b; c; d] ++ [e; f; g; h] ++ pre). split.
  - by rewrite <- !app_assoc, <- Heq.
  - apply Forall_app_2; [|apply Forall_app_2; [|done]].
    + eapply load32_ascii; [done|exact E|]. intros i. rewrite Z.lor_spec, orb_false_iff. tauto.
    + eapply load32_ascii; [done|exact E|]. intros i. rewrite Z.lor_spec, orb_false_iff. tauto.
Qed.

Lemma text_ascii pre q :
  Forall (fun c => 0 <= c < 128) pre ->
  (exists rs, Forall (fun r => ValidRune r = true) rs /\ pre ++ q = text rs) <->
  (exists rs, Forall (fun r => ValidRune r = true) rs /\ q = text rs).
Proof.
  induction 1 as [|c pre Hc Hpre IH]; [done|]. rewrite <- IH. clear IH Hpre.
  assert (ValidRune c = true) as Hv by (apply ValidRune_spec; lia).
  assert (encoding c = [c]) as Ec by (unfold encoding; by rewrite (proj2 (Z.ltb_lt c 128)) by lia). split.
  - intros ([|r rs] & Hrs & Ht); [done|]. apply Forall_cons in Hrs as [Hr Hrs]. rewrite text_cons in Ht by done.
    assert (c = r) as <-.
    { pose proof (decode_encoding r (text rs) Hr) as D. rewrite <- Ht in D. change ((c :: pre) ++ q) with ([c] ++ (pre ++ q)) in D.
      rewrite <- Ec, (decode_encoding c _ Hv) in D. by injection D. }
    exists rs. split; [done|]. rewrite Ec in Ht. by injection Ht.
  - intros (rs & Hrs & Ht). exists (c :: rs). split; [by constructor|]. rewrite text_cons, Ec, <- Ht by done. done.
Qed.

Lemma Valid_spec p :
  bytes_ok p -> Valid p = true <-> exists rs, Forall (fun r => ValidRune r = true) rs /\ p = text rs.
Proof.
  intros Hp. unfold Valid. destruct (skip_ascii8_spec (length p) p Hp) as (pre & Heq & Hpre).
  pose proof Hp as Hq. rewrite Heq in Hq. apply Forall_app in Hq as [_ Hq]. rewrite Valid_loop_spec by done.
  pose proof (text_ascii pre (skip_ascii8 (length p) p) Hpre) as T. rewrite <- Heq in T. by rewrite T.
Qed.

(** ** The last rune *)

Lemma RuneStart_spec b : is_byte b -> RuneStart b = negb ((128 <=? b) && (b <? 192)).
Proof. intros Hb. apply eqb_true_iff. revert b Hb. apply byte_enum. by vm_compute. Qed.

Lemma at_app_r (q l : gobytes) i j : i = len q + Z.of_nat j -> at_ (q ++ l) (Z.to_nat i) = at_ l j.
Proof.
  intros ->. unfold at_, len. rewrite app_nth2 by lia. f_equal. lia.
Qed.

(** The search backwards stops at the byte that starts the rune. *)
Lemma last_start_spec k q lead conts j lim :
  lim <= len q -> RuneStart lead = true -> Forall (fun c => RuneStart c = false) conts ->
  (j <= length conts)%nat -> (j < k)%nat ->
  last_start k (q ++ lead :: conts) (len q + Z.of_nat j) lim = len q.
Proof.
  intros Hlim Hl Hc. revert j. induction k as [|k IH]; intros j Hj Hk; [lia|]. cbn [last_start].
  rewrite (proj2 (Z.leb_le lim _)), (at_app_r _ _ _ j) by lia. destruct j as [|j].
  - change (at_ (lead :: conts) 0) with lead. rewrite Hl. lia.
  - change (at_ (lead :: conts) (S j)) with (at_ conts j).
    rewrite (Forall_nth (fun c => RuneStart c = false) 0 conts) in Hc. unfold at_. rewrite Hc by lia.
    replace (len q + Z.of_nat (S j) - 1) with (len q + Z.of_nat j) by lia. apply IH; lia.
Qed.

(** An encoding of more than one byte: a byte that starts a rune, and others. *)
Lemma encoding_parts r :
  ValidRune r = true -> 128 <= r ->
  exists lead conts, encoding r = lead :: conts /\ RuneStart lead = true /\
    Forall (fun c => RuneStart c = false) conts /\ Forall (fun c => 128 <= c) conts /\ (1 <= length conts <= 3)%nat.
Proof.
  intros Hv%ValidRune_spec Hr. unfold encoding. rewrite (proj2 (Z.ltb_ge r 128)) by lia.
  assert (forall x, RuneStart (128 + x mod 64) = false) as Hcont.
  { intros x. rewrite RuneStart_spec by (unfold is_byte; zlia). by rewrite (proj2 (Z.leb_le _ _)), (proj2 (Z.ltb_lt _ _)) by zlia. }
  assert (forall x, 192 <= x < 256 -> RuneStart x = true) as Hlead.
  { intros x Hx. rewrite RuneStart_spec by (unfold is_byte; lia). by rewrite (proj2 (Z.ltb_ge _ _)), andb_false_r by lia. }
  destruct (Z.ltb_spec r 2048); [|destruct (Z.ltb_spec r 65536)]; eexists _, _; (split; [reflexivity|]);
    (split; [apply Hlead; zlia|]); (split; [|split; [|cbn [length]; lia]]);
    repeat first [apply Forall_nil_2 | apply Forall_cons_2]; first [apply Hcont | zlia].
Qed.

Lemma at_last (q : gobytes) c i : i = len (q ++ [c]) - 1 -> at_ (q ++ [c]) (Z.to_nat i) = c.
Proof. intros ->. rewrite len_app. change (len [c]) with 1. by rewrite (at_app_r q [c] _ 0) by lia. Qed.

Lemma decode_last_encoding q r :
  ValidRune r = true -> DecodeLastRune (q ++ encoding r) = (r, len (encoding r)).
Proof.
  intros Hv. pose proof (encoding_len r Hv) as [Hlen H1]. pose proof (len_nonneg q). unfold DecodeLastRune. cbv zeta.
  rewrite (proj2 (Z.eqb_neq (len (q ++ encoding r)) 0)) by (rewrite len_app; lia).
  destruct (Z.lt_ge_cases r 128) as [Hlt|Hge].
  { assert (encoding r = [r]) as -> by (unfold encoding; by rewrite (proj2 (Z.ltb_lt r 128))).
    rewrite at_last by done. by rewrite (proj2 (Z.ltb_lt r 128)). }
  destruct (encoding_parts r Hv Hge) as (lead & conts & E & Hlead & Hcont & H128 & Hl).
  assert (at_ (q ++ encoding r) (Z.to_nat (len (q ++ encoding r) - 1)) <? 128 = false) as ->.
  { rewrite E. destruct conts as [|c1 conts] using rev_ind; [simpl in Hl; lia|].
    assert (q ++ lead :: conts ++ [c1] = (q ++ lead :: conts) ++ [c1]) as -> by (by rewrite <- app_assoc).
    rewrite at_last by done. apply Forall_app in H128 as [_ H128]. apply Forall_cons in H128 as [H128 _]. by apply Z.ltb_ge. }
  assert (last_start 4 (q ++ encoding r) (len (q ++ encoding r) - 1 - 1)
            (if len (q ++ encoding r) - 4 <? 0 then 0 else len (q ++ encoding r) - 4) = len q) as ->.
  { assert (len (q ++ encoding r) - 1 - 1 = len q + Z.of_nat (length conts - 1)) as ->
      by (rewrite len_app, E, len_cons; unfold len; lia).
    rewrite E. apply last_start_spec; try done; try lia. rewrite <- E, len_app.
    destruct (Z.ltb_spec (len q + len (encoding r) - 4) 0); lia. }
  rewrite (proj2 (Z.ltb_ge (len q) 0)) by lia.
  assert (drop (Z.to_nat (len q)) (q ++ encoding r) = encoding r ++ []) as ->
    by (unfold len; by rewrite Nat2Z.id, drop_app_length, app_nil_r).
  rewrite (decode_encoding r [] Hv), len_app, Z.eqb_refl. done.
Qed.

Lemma last_start_range k p start lim : 0 <= lim -> start <= last_start k p start lim + Z.of_nat k /\ last_start k p start lim <= start /\
  (lim - 1 <= start -> lim - 1 <= last_start k p start lim).
Proof.
  intros Hlim. revert start. induction k as [|k IH]; intros start; cbn [last_start]; [lia|].
  destruct (Z.leb_spec lim start); [|lia]. destruct (RuneStart _); [lia|]. specialize (IH (start - 1)). lia.
Qed.

Lemma DecodeLastRune_cases p :
  bytes_ok p -> p <> [] ->
  (exists r q, ValidRune r = true /\ p = q ++ encoding r /\ DecodeLastRune p = (r, len (encoding r))) \/
  (DecodeLastRune p = bad_rune /\ forall r q, ValidRune r = true -> p <> q ++ encoding r).
Proof.
  intros Hp Hne. assert (DecodeLastRune p = bad_rune \/ exists r q, ValidRune r = true /\ p = q ++ encoding r) as [Hbad|(r & q & Hv & ->)].
  3: { left. exists r, q. auto using decode_last_encoding. }
  { unfold DecodeLastRune. cbv zeta. pose proof (len_nonneg p).
    destruct (Z.eqb_spec (len p) 0) as [E0|Hn0]; [by destruct p; [|rewrite len_cons in E0; pose proof (len_nonneg p); lia]|].
    destruct (Z.ltb_spec (at_ p (Z.to_nat (len p - 1))) 128) as [Hlt|_].
    { right. destruct p as [|c q] using rev_ind; [done|]. rewrite at_last in Hlt by done. apply Forall_app in Hp as [_ Hc].
      apply Forall_cons in Hc as [Hc _]. unfold is_byte in Hc. exists c, q. rewrite ValidRune_spec. split; [lia|]. unfold encoding.
      by rewrite (proj2 (Z.ltb_lt c 128)). }
    set (lim := if len p - 4 <? 0 then 0 else len p - 4). assert (0 <= lim) by (unfold lim; destruct (Z.ltb_spec (len p - 4) 0); lia).
    pose proof (last_start_range 4 p (len p - 1 - 1) lim ltac:(lia)) as (_ & Hhi & _).
    set (start := if last_start 4 p (len p - 1 - 1) lim <? 0 then 0 else last_start 4 p (len p - 1 - 1) lim).
    assert (0 <= start < len p) as Hst by (unfold start; destruct (Z.ltb_spec (last_start 4 p (len p - 1 - 1) lim) 0); lia).
    assert (len (drop (Z.to_nat start) p) = len p - start) as Hd by (unfold len in *; rewrite length_drop; lia).
    destruct (DecodeRune_cases (drop (Z.to_nat start) p)) as [(r & rest & Hv & Heq & ->)|(-> & _)].
    - by apply Forall_drop.
    - intros E. rewrite E in Hd. change (@len Z []) with 0 in Hd. lia.
    - destruct (Z.eqb_spec (start + len (encoding r)) (len p)) as [Es|]; [|by left]. right. exists r, (take (Z.to_nat start) p). split; [done|].
      rewrite Heq, len_app in Hd. assert (rest = []) as -> by (destruct rest; [done|rewrite len_cons in Hd; pose proof (len_nonneg rest); lia]).
      rewrite app_nil_r in Heq. by rewrite <- Heq, take_drop.
    - left. by destruct (negb _). }
  right. split; [done|]. intros r q Hv ->. rewrite decode_last_encoding in Hbad by done. injection Hbad as -> E1.
  pose proof (encoding_len _ Hv). lia.
Qed.

(** ** What the package promises *)

Lemma AppendRune_app p r : AppendRune p r = p ++ AppendRune [] r.
Proof. unfold AppendRune, appendRuneNonASCII. by repeat case_match. Qed.

(** EncodeRune writes what AppendRune appends, and panics exactly on a short slice. *)
Lemma EncodeRune_AppendRune p r :
  EncodeRune p r = b ← copy_front p (AppendRune [] r); Some (b, len (AppendRune [] r)).
Proof. unfold EncodeRune, AppendRune, appendRuneNonASCII. repeat (destruct (_ : bool); [done|]). done. Qed.

Lemma ValidRune_u32 r : - 2 ^ 31 <= r < 2 ^ 31 -> ValidRune r = false ->
  2047 <? u32 r = true /\ (MaxRune <? u32 r) || ((surrogateMin <=? u32 r) && (u32 r <=? surrogateMax)) = true.
Proof.
  intros Hr Hv. apply not_true_iff_false in Hv. rewrite ValidRune_spec in Hv.
  rewrite Z.ltb_lt, orb_true_iff, andb_true_iff, Z.ltb_lt, !Z.leb_le. widths.
  change (2 ^ 31) with 2147483648 in Hr. destruct (Z.lt_ge_cases r 0).
  - rewrite <- (Z.mod_unique r 4294967296 (-1) (r + 4294967296)) by lia. lia.
  - rewrite Z.mod_small by lia. lia.
Qed.

(** An int32 that is no valid rune is encoded as the error rune. *)
Lemma AppendRune_invalid r :
  - 2 ^ 31 <= r < 2 ^ 31 -> ValidRune r = false -> AppendRune [] r = AppendRune [] RuneError.
Proof.
  intros Hr Hv. destruct (ValidRune_u32 r Hr Hv) as [H1 H2]. unfold AppendRune, appendRuneNonASCII. zbool.
  by rewrite (proj2 (Z.leb_gt _ 127)), (proj2 (Z.leb_gt _ 2047)), H2 by lia.
Qed.

Lemma runes_text fuel rs :
  Forall (fun r => ValidRune r = true) rs -> (length (text rs) <= fuel)%nat -> runes fuel (text rs) = rs.
Proof.
  intros Hrs. revert fuel. induction Hrs as [|r rs Hr Hrs IH]; intros fuel Hf; [by destruct fuel|].
  rewrite text_cons in * by done. pose proof (length_drop_encoding r (text rs) Hr).
  destruct fuel as [|fuel]; [lia|]. cbn [runes]. pose proof (encoding_len r Hr) as [Hl _].
  destruct (encoding r ++ text rs) as [|c p] eqn:E; [simpl in *; lia|]. rewrite <- E, (decode_encoding r _ Hr), drop_encoding.
  f_equal. apply IH. simpl in *. lia.
Qed.

(** The length of a rune that begins with [c]. *)
Definition need (c : Z) : Z :=
  if c <? 194 then 1 else if c <? 224 then 2 else if c <? 240 then 3 else if c <? 245 then 4 else 1.

Lemma FullRune_arith c p :
  is_byte c ->
  FullRune (c :: p) =
    (need c <=? len (c :: p)) || ((1 <=? len p) && outside (at_ p 0) (lo2 c) (hi2 c)) || ((2 <=? len p) && outside (at_ p 1) 128 191).
Proof.
  intros Hc. unfold FullRune, need, lo2, hi2. cbv zeta. change (at_ (c :: p) 0) with c. change (at_ (c :: p) 1) with (at_ p 0).
  change (at_ (c :: p) 2) with (at_ p 1). rewrite len_cons. pose proof (len_nonneg p). rewrite (proj2 (Z.eqb_neq (1 + len p) 0)) by lia.
  assert ((1 <? 1 + len p) = (1 <=? len p)) as -> by (destruct (Z.ltb_spec 1 (1 + len p)), (Z.leb_spec 1 (len p)); lia).
  assert ((2 <? 1 + len p) = (2 <=? len p)) as -> by (destruct (Z.ltb_spec 2 (1 + len p)), (Z.leb_spec 2 (len p)); lia).
  rewrite (first_spec c Hc).
  assert (1 <=? 1 + len p = true) as H1 by (apply Z.leb_le; lia). assert (0 <=? 1 + len p = true) as H0 by (apply Z.leb_le; lia).
  repeat match goal with
  | |- context [?a =? ?b] => constr_eq a c; destruct (Z.eqb_spec a b); try lia
  | |- context [?a <? ?b] => constr_eq a c; destruct (Z.ltb_spec a b); try lia
  end; repeat match goal with
  | |- context [Zpos ?x .& 7] => let v := eval vm_compute in (Zpos x .& 7) in change (Zpos x .& 7) with v
  | |- context [acceptRanges ?x] => let v := eval vm_compute in (acceptRanges x) in change (acceptRanges x) with v
  end; cbv iota; rewrite ?H1, ?H0; cbn [orb]; try done.
  all: match goal with |- (if ?a then _ else if ?b then _ else if ?d then _ else _) = _ => by destruct a, b, d end.
Qed.

(** A completed rune is valid. *)
Lemma complete_rune c bs r :
  is_byte c -> decoding c bs = (r, len (c :: bs)) -> 1 < len (c :: bs) -> ValidRune r = true /\ encoding r = c :: bs.
Proof.
  intros Hc HD Hl. destruct (decoding_sound c bs r _ Hc HD) as [(_ & E & _)|(Hv & Hlen & rest & Heq)]; [lia|]. split; [done|].
  rewrite Heq, len_app in Hlen. assert (rest = []) as -> by (destruct rest; [done|rewrite len_cons in Hlen; pose proof (len_nonneg rest); lia]).
  by rewrite Heq, app_nil_r.
Qed.

Lemma decoding_good c q r n :
  decoding c q = (r, n) -> 1 < n ->
  n = need c /\ outside (at_ q 0) (lo2 c) (hi2 c) = false /\ (3 <= n -> outside (at_ q 1) 128 191 = false).
Proof.
  unfold decoding, need. intros HD Hn.
  repeat match type of HD with
  | (if ?b then _ else _) = _ => let E := fresh "E" in destruct b eqn:E; zbool
  | match ?q with [] => _ | _ => _ end = _ => destruct q
  end; injection HD as <- <-; try lia; rewrite ?(proj2 (Z.ltb_ge c 194)), ?(proj2 (Z.ltb_ge c 224)), ?(proj2 (Z.ltb_ge c 240)),
    ?(proj2 (Z.ltb_lt c 224)), ?(proj2 (Z.ltb_lt c 240)), ?(proj2 (Z.ltb_lt c 245)) by lia;
    (split_and!; [done|done|]); done || lia.
Qed.

(** A rune is not full when more bytes could make it valid. *)
Lemma FullRune_false p :
  bytes_ok p -> FullRune p = false <-> exists r rest, ValidRune r = true /\ rest <> [] /\ encoding r = p ++ rest.
Proof.
  intros Hp. destruct p as [|c p]; [split; [by exists 0, [0]|done]|]. pose proof (Forall_cons_1 _ _ _ Hp) as [Hc _].
  rewrite FullRune_arith by done. unfold is_byte in Hc. split.
  - intros Hf. zbool. unfold need in *. pose proof (len_nonneg p). rewrite len_cons in *.
    assert (194 <= c < 245) as H194 by (destruct (Z.ltb_spec c 194), (Z.ltb_spec c 224), (Z.ltb_spec c 240), (Z.ltb_spec c 245); lia).
    assert (forall bs r, p ++ bs <> p -> decoding c (p ++ bs) = (r, len (c :: p ++ bs)) -> 
      exists r rest, ValidRune r = true /\ rest <> [] /\ encoding r = (c :: p) ++ rest) as Hdone.
    { intros bs r Hne HD. destruct bs as [|b bs]; [by rewrite app_nil_r in Hne|].
      destruct (complete_rune c (p ++ b :: bs) r Hc HD) as [Hv He]; [rewrite len_cons, len_app, len_cons; pose proof (len_nonneg bs); lia|].
      by exists r, (b :: bs). }
    assert (outside (lo2 c) (lo2 c) (hi2 c) = false) as Hlo
      by (apply outside_in; unfold lo2, hi2; destruct (Z.eqb_spec c 224), (Z.eqb_spec c 240), (Z.eqb_spec c 237), (Z.eqb_spec c 244); lia).
    assert (outside 128 128 191 = false) as H80 by done. clear Hp.
    destruct (Z.ltb_spec c 194); [lia|]. destruct (Z.ltb_spec c 224) as [Hr|Hr]; [|destruct (Z.ltb_spec c 240) as [Hr'|Hr']];
      [..|rewrite (proj2 (Z.ltb_lt c 245)) in * by lia];
      destruct p as [|b1 [|b2 [|b3 p]]]; rewrite ?len_cons in *; try (pose proof (len_nonneg p); lia);
      change (@len Z []) with 0 in *; try lia; unfold at_ in H0, H1;
      change (1 <=? 1 + 0) with true in *; change (1 <=? 1 + (1 + 0)) with true in *; change (2 <=? 1 + (1 + 0)) with true in *; cbn [andb nth] in H0, H1.
    + eapply (Hdone [lo2 c]); [done|]. unfold decoding. cbn [app]. rewrite !(proj2 (Z.ltb_ge c _)), (proj2 (Z.ltb_lt c 224)), Hlo by lia. done.
    + eapply (Hdone [lo2 c; 128]); [done|]. unfold decoding. cbn [app]. rewrite !(proj2 (Z.ltb_ge c _)), (proj2 (Z.ltb_lt c 240)), Hlo by lia. done.
    + eapply (Hdone [128]); [done|]. unfold decoding. cbn [app]. rewrite !(proj2 (Z.ltb_ge c _)), (proj2 (Z.ltb_lt c 240)), H1 by lia. done.
    + eapply (Hdone [lo2 c; 128; 128]); [done|]. unfold decoding. cbn [app]. rewrite !(proj2 (Z.ltb_ge c _)), (proj2 (Z.ltb_lt c 245)), Hlo by lia. done.
    + eapply (Hdone [128; 128]); [done|]. unfold decoding. cbn [app]. rewrite !(proj2 (Z.ltb_ge c _)), (proj2 (Z.ltb_lt c 245)), H1 by lia. done.
    + eapply (Hdone [128]); [done|]. unfold decoding. cbn [app]. rewrite !(proj2 (Z.ltb_ge c _)), (proj2 (Z.ltb_lt c 245)), H1, H0 by lia. done.
  - intros (r & rest & Hv & Hne & E).
    assert (1 <= len rest) by (destruct rest; [done|rewrite len_cons; pose proof (len_nonneg rest); lia]).
    pose proof (decode_encoding r [] Hv) as HD. rewrite app_nil_r, E in HD. cbn [app] in HD. rewrite DecodeRune_decoding in HD by done.
    assert (len (c :: p ++ rest) = 1 + len p + len rest) as Hl by (rewrite len_cons, len_app; lia). rewrite len_cons.
    destruct (decoding_good c (p ++ rest) r _ HD ltac:(pose proof (len_nonneg p); lia)) as (Hn & H1 & H2). rewrite Hl in Hn, H2.
    rewrite !orb_false_iff, !andb_false_iff. split_and!.
    + apply Z.leb_gt. lia.
    + destruct (Z.leb_spec 1 (len p)); [right|by left]. destruct p as [|b1 p]; [change (@len Z []) with 0 in *; lia|]. done.
    + destruct (Z.leb_spec 2 (len p)); [right|by left]. destruct p as [|b1 [|b2 p]]; [rewrite ?len_cons in *; change (@len Z []) with 0 in *; lia..|].
      apply H2. lia.
Qed.

(** Decoding UTF-8 is exact, from the front and from the back.  On bytes that
    begin with the encoding of a valid rune (and of only one), DecodeRune gives that
    rune and its length, RuneLen; on all others it gives the error rune and 1.
    DecodeLastRune does the same for the end of the bytes.  In particular overlong
    forms, surrogates, truncated runes and stray bytes are errors.  FullRune is false
    exactly when more bytes could complete a valid rune. *)
Theorem utf8_decode_exact p :
  bytes_ok p -> p <> [] ->
  ((exists r rest, ValidRune r = true /\ p = AppendRune [] r ++ rest /\ DecodeRune p = (r, RuneLen r)) \/
   (DecodeRune p = (RuneError, 1) /\ forall r rest, ValidRune r = true -> p <> AppendRune [] r ++ rest)) /\
  ((exists r front, ValidRune r = true /\ p = AppendRune front r /\ DecodeLastRune p = (r, RuneLen r)) \/
   (DecodeLastRune p = (RuneError, 1) /\ forall r front, ValidRune r = true -> p <> AppendRune front r)) /\
  (FullRune p = false <-> exists r rest, ValidRune r = true /\ rest <> [] /\ AppendRune [] r = p ++ rest).
Proof.
  intros Hp Hne. split; [|split; [|rewrite FullRune_false by done; split; intros (r & rest & Hv & Hr & E); exists r, rest;
    rewrite AppendRune_encoding in *; done]].
  - destruct (DecodeRune_cases p Hp Hne) as [(r & rest & Hv & Heq & HD)|(HD & _ & Hno)].
    + left. exists r, rest. by rewrite <- encoding_RuneLen, AppendRune_encoding.
    + right. split; [done|]. intros r rest Hv. rewrite AppendRune_encoding by done. by apply Hno.
  - destruct (DecodeLastRune_cases p Hp Hne) as [(r & q & Hv & Heq & HD)|(HD & Hno)].
    + left. exists r, q. by rewrite <- encoding_RuneLen, AppendRune_encoding.
    + right. split; [done|]. intros r q Hv. rewrite AppendRune_encoding by done. by apply Hno.
Qed.

Lemma utf8_decode_exact_witness :
  (exists r, ValidRune r = true /\ DecodeRune [226; 130; 172; 65] = (r, RuneLen r)) /\ DecodeRune [224; 130; 172] = (RuneError, 1).
Proof.
  split.
  - destruct (utf8_decode_exact [226; 130; 172; 65] ltac:(lit) ltac:(discriminate)) as [[(r & rest & Hv & _ & HD)|[_ Hno]] _].
    + exists r. exact (conj Hv HD).
    + exfalso. exact (Hno 8364 [65] eq_refl eq_refl).
  - destruct (utf8_decode_exact [224; 130; 172] ltac:(lit) ltac:(discriminate)) as [[(r & rest & _ & _ & _)|[HD _]] _].
    + vm_compute. reflexivity.
    + exact HD.
Defined.

(** Validation, counting and encoding agree on what a text is.  Valid, with its
    fast path over eight bytes at a time, accepts exactly the concatenations of
    encodings of valid runes; RuneCount is the number of runes that decoding gives,
    which for a text are its runes; EncodeRune writes what AppendRune appends and
    panics exactly when the slice is too short; and an int32 that is not a rune is
    encoded as the error rune. *)
Theorem utf8_text_exact p q r :
  bytes_ok p -> - 2 ^ 31 <= r < 2 ^ 31 ->
  (Valid p = true <-> exists rs, Forall (fun r => ValidRune r = true) rs /\ p = concat (map (AppendRune []) rs)) /\
  RuneCount p = len (runes (length p) p) /\
  (forall rs, Forall (fun r => ValidRune r = true) rs -> p = concat (map (AppendRune []) rs) -> runes (length p) p = rs) /\
  EncodeRune q r =
    (if len q <? len (AppendRune [] r) then None
     else Some (AppendRune [] r ++ drop (length (AppendRune [] r)) q, len (AppendRune [] r))) /\
  (ValidRune r = false -> AppendRune [] r = AppendRune [] RuneError).
Proof.
  intros Hp Hr. split_and!.
  - by apply Valid_spec.
  - unfold RuneCount. rewrite RuneCount_loop_runes by done. lia.
  - intros rs Hrs ->. by apply runes_text.
  - rewrite EncodeRune_AppendRune. unfold copy_front. by destruct (len q <? _).
  - by apply AppendRune_invalid.
Qed.

Lemma utf8_text_exact_witness :
  Valid [104; 195; 169] = true /\ AppendRune [] 57343 = [239; 191; 189].
Proof.
  split.
  - apply (utf8_text_exact [104; 195; 169] [] 0 ltac:(lit) ltac:(lia)). exists [104; 233]. split; [repeat constructor|reflexivity].
  - apply (utf8_text_exact [] [] 57343 ltac:(constructor) ltac:(lia)). reflexivity.
Defined.
