(* ===== verification/Unicode.v ===== *)
(** * unicode: tables of code points

    [tools/go-patched/src/unicode/letter.go] and [graphic.go]: looking a rune up in a
    table of ranges, by a linear or by a binary search, and IsSpace. *)

From S2P Require Import Prelude.
Local Open Scope go_scope.

Notation MaxLatin1 := 255 (only parsing).
Notation linearMax := 18 (only parsing).

(** Range16 and Range32 differ only in the width of their fields. *)
Record Range := mk_Range { Lo : Z; Hi : Z; Stride : Z }.
Record RangeTable := mk_RangeTable { R16 : list Range; R32 : list Range; LatinOffset : Z }.

Definition hit (range_ : Range) (r : Z) : bool :=
  (Stride range_ =? 1) || ((r - Lo range_) mod Stride range_ =? 0).

Fixpoint linear_search (ranges : list Range) (r : Z) : bool :=
  match ranges with
  | [] => false
  | range_ :: ranges =>
      if r <? Lo range_ then false
      else if r <=? Hi range_ then hit range_ r
      else linear_search ranges r
  end.

(** [for lo < hi]; every round makes [hi - lo] smaller, which starts as the length. *)
Fixpoint binary_search (fuel : nat) (ranges : list Range) (lo hi r : Z) : bool :=
  match fuel with
  | O => false
  | S fuel =>
      if lo <? hi then
        let m := (lo + hi) >> 1 in
        let range_ := nth (Z.to_nat m) ranges (mk_Range 0 0 0) in
        if (Lo range_ <=? r) && (r <=? Hi range_) then hit range_ r
        else if r <? Lo range_ then binary_search fuel ranges lo m r
        else binary_search fuel ranges (m + 1) hi r
      else false
  end.

Definition is16 (ranges : list Range) (r : Z) : bool :=
  if (len ranges <=? linearMax) || (r <=? MaxLatin1) then linear_search ranges r
  else binary_search (length ranges) ranges 0 (len ranges) r.

Definition is32 (ranges : list Range) (r : Z) : bool :=
  if len ranges <=? linearMax then linear_search ranges r
  else binary_search (length ranges) ranges 0 (len ranges) r.

Definition last_Hi (ranges : list Range) : Z := Hi (List.last ranges (mk_Range 0 0 0)).
Definition first_Lo (ranges : list Range) : Z := Lo (hd (mk_Range 0 0 0) ranges).

Definition is_tables (r16 r32 : list Range) (off r : Z) : bool :=
  if (off <? len r16) && (u32 r <=? last_Hi r16) then is16 (drop (Z.to_nat off) r16) (u16 r)
  else if (0 <? len r32) && (first_Lo r32 <=? r) then is32 r32 (u32 r)
  else false.

Definition Is (rangeTab : RangeTable) (r : Z) : bool := is_tables (R16 rangeTab) (R32 rangeTab) 0 r.

Definition isExcludingLatin (rangeTab : RangeTable) (r : Z) : bool :=
  is_tables (R16 rangeTab) (R32 rangeTab) (LatinOffset rangeTab) r.

Definition White_Space : RangeTable :=
  mk_RangeTable
    [mk_Range 9 13 1; mk_Range 32 133 101; mk_Range 160 5760 5600; mk_Range 8192 8202 1;
     mk_Range 8232 8233 1; mk_Range 8239 8287 48; mk_Range 12288 12288 1] [] 2.

Definition IsSpace (r : Z) : bool :=
  if u32 r <=? MaxLatin1 then
    (r =? 9) || (r =? 10) || (r =? 11) || (r =? 12) || (r =? 13) || (r =? 32) || (r =? 133) || (r =? 160)
  else isExcludingLatin White_Space r.

Example space_examples :
  IsSpace 32 = true /\ IsSpace 8195 = true /\ IsSpace 5760 = true /\ IsSpace 8287 = true /\
  IsSpace 8240 = false /\ IsSpace 65 = false /\ IsSpace (-1) = false /\ Is White_Space 133 = true.
Proof. split_and!; vm_compute; reflexivity. Qed.

(** ** Searching *)

Definition in_range (r : Z) (range_ : Range) : bool :=
  (Lo range_ <=? r) && (r <=? Hi range_) && hit range_ r.

(** Ranges in order, without overlap. *)
Fixpoint ordered (lower : Z) (ranges : list Range) : Prop :=
  match ranges with
  | [] => True
  | range_ :: ranges => lower < Lo range_ /\ Lo range_ <= Hi range_ /\ ordered (Hi range_) ranges
  end.

Lemma ordered_lookup lower ranges i range_ :
  ordered lower ranges -> ranges !! i = Some range_ -> lower < Lo range_ /\ Lo range_ <= Hi range_.
Proof.
  revert lower i. induction ranges as [|x ranges IH]; intros lower i; [done|]. intros (H1 & H2 & H3).
  destruct i as [|i]; simpl; [by intros [= <-]|]. intros Hi. destruct (IH _ _ H3 Hi). lia.
Qed.

Lemma ordered_lt lower ranges i j a b :
  ordered lower ranges -> (i < j)%nat -> ranges !! i = Some a -> ranges !! j = Some b -> Hi a < Lo b.
Proof.
  revert lower i j. induction ranges as [|x ranges IH]; intros lower i j; [done|]. intros (H1 & H2 & H3) Hij Hi Hj.
  destruct j as [|j]; [lia|]. destruct i as [|i]; simpl in *; simplify_eq.
  - by destruct (ordered_lookup _ _ _ _ H3 Hj).
  - eapply IH; [exact H3| |exact Hi|exact Hj]. lia.
Qed.

Lemma not_below lower ranges r : ordered lower ranges -> r <= lower -> existsb (in_range r) ranges = false.
Proof.
  revert lower. induction ranges as [|x ranges IH]; intros lower; [done|]. intros (H1 & H2 & H3) Hr. simpl.
  rewrite (IH _ H3) by lia. unfold in_range. by rewrite (proj2 (Z.leb_gt _ r)) by lia.
Qed.

Lemma linear_search_spec lower ranges r : ordered lower ranges -> linear_search ranges r = existsb (in_range r) ranges.
Proof.
  revert lower. induction ranges as [|x ranges IH]; intros lower; [done|]. intros (H1 & H2 & H3). simpl.
  unfold in_range at 1. destruct (Z.ltb_spec r (Lo x)).
  - rewrite (proj2 (Z.leb_gt _ r)) by lia. cbn. symmetry. eapply not_below; [exact H3|lia].
  - rewrite (proj2 (Z.leb_le _ r)) by lia. cbn [andb]. destruct (Z.leb_spec r (Hi x)); cbn [andb orb].
    + rewrite (not_below _ _ r H3) by lia. by rewrite orb_false_r.
    + by eapply IH.
Qed.

(** The binary search finds the range if it is between [lo] and [hi]. *)
Lemma binary_search_spec lower ranges fuel lo hi r :
  ordered lower ranges -> 0 <= lo -> hi <= len ranges -> hi - lo <= Z.of_nat fuel ->
  (forall i x, ranges !! i = Some x -> Lo x <= r <= Hi x -> lo <= Z.of_nat i < hi) ->
  binary_search fuel ranges lo hi r = existsb (in_range r) ranges.
Proof.
  intros Hord. revert lo hi. induction fuel as [|fuel IH]; intros lo hi Hlo Hhi Hf Hin.
  all: assert (hi <= lo -> existsb (in_range r) ranges = false) as Hempty.
  1, 3: intros Hle; apply not_true_iff_false; rewrite existsb_exists; intros (x & Hx & Hr); apply list_elem_of_In, list_elem_of_lookup in Hx as [i Hi];
    unfold in_range in Hr; zbool; specialize (Hin i x Hi ltac:(lia)); lia.
  { cbn [binary_search]. symmetry. apply Hempty. lia. }
  cbn [binary_search]. destruct (Z.ltb_spec lo hi) as [Hlt|]; [|symmetry; auto]. cbv zeta. rewrite Z.shiftr_div_pow2 by lia. change (2 ^ 1) with 2.
  set (m := (lo + hi) / 2). assert (lo <= m < hi) as Hm by (unfold m; zlia).
  assert (exists x, ranges !! Z.to_nat m = Some x) as [x Hx] by (apply lookup_lt_is_Some; unfold len in *; lia).
  rewrite (nth_lookup_Some _ _ _ _ Hx). destruct (ordered_lookup _ _ _ _ Hord Hx) as [_ Hxx].
  destruct (Z.leb_spec (Lo x) r), (Z.leb_spec r (Hi x)); cbn [andb].
  - symmetry. destruct (hit x r) eqn:Hh.
    + apply existsb_exists. exists x. split; [by apply list_elem_of_In, list_elem_of_lookup_2 with (Z.to_nat m)|]. unfold in_range.
      by rewrite (proj2 (Z.leb_le _ _)), (proj2 (Z.leb_le r _)), Hh by lia.
    + apply not_true_iff_false. rewrite existsb_exists. intros (y & Hy & Hr). apply list_elem_of_In, list_elem_of_lookup in Hy as [j Hj].
      unfold in_range in Hr. apply andb_true_iff in Hr as [Hb Hhy]. zbool.
      destruct (Nat.lt_trichotomy j (Z.to_nat m)) as [Hlt'|[->|Hlt']].
      * pose proof (ordered_lt _ _ _ _ _ _ Hord Hlt' Hj Hx). lia.
      * congruence.
      * pose proof (ordered_lt _ _ _ _ _ _ Hord Hlt' Hx Hj). lia.
  - rewrite (proj2 (Z.ltb_ge r _)) by lia. apply IH; [lia..|]. intros j y Hj Hy. specialize (Hin j y Hj Hy). split; [|lia].
    destruct (Z.le_gt_cases (m + 1) (Z.of_nat j)); [done|]. exfalso. destruct (Nat.eq_dec j (Z.to_nat m)) as [->|Hne].
    + simplify_eq. lia.
    + assert (j < Z.to_nat m)%nat as Hjm by lia. pose proof (ordered_lt _ _ _ _ _ _ Hord Hjm Hj Hx). lia.
  - rewrite (proj2 (Z.ltb_lt r _)) by lia. apply IH; [lia..|]. intros j y Hj Hy. specialize (Hin j y Hj Hy). split; [lia|].
    destruct (Z.lt_ge_cases (Z.of_nat j) m); [done|]. exfalso. destruct (Nat.eq_dec j (Z.to_nat m)) as [->|Hne].
    + simplify_eq. lia.
    + assert (Z.to_nat m < j)%nat as Hjm by lia. pose proof (ordered_lt _ _ _ _ _ _ Hord Hjm Hx Hj). lia.
  - lia.
Qed.

Lemma is16_spec lower ranges r : ordered lower ranges -> is16 ranges r = existsb (in_range r) ranges.
Proof.
  intros Hord. unfold is16. destruct (_ || _); [by eapply linear_search_spec|]. eapply binary_search_spec; [done|lia|lia|unfold len; lia|].
  intros i x Hi _. apply lookup_lt_Some in Hi. unfold len. lia.
Qed.

Lemma is32_spec lower ranges r : ordered lower ranges -> is32 ranges r = existsb (in_range r) ranges.
Proof.
  intros Hord. unfold is32. destruct (_ <=? _); [by eapply linear_search_spec|]. eapply binary_search_spec; [done|lia|lia|unfold len; lia|].
  intros i x Hi _. apply lookup_lt_Some in Hi. unfold len. lia.
Qed.

(** ** Tables *)

(** The tables as the generator writes them: 16-bit ranges below 32-bit ones, with the
    number of ranges that lie in Latin-1. *)
Record table_wf (t : RangeTable) : Prop := {
  wf_16 : ordered (-1) (R16 t);
  wf_16_width : last_Hi (R16 t) < 65536;
  wf_32 : ordered (last_Hi (R16 t)) (R32 t);
  wf_latin : 0 <= LatinOffset t /\ Forall (fun x => Hi x <= MaxLatin1) (take (Z.to_nat (LatinOffset t)) (R16 t));
}.

Lemma last_Hi_lower lower ranges : ordered lower ranges -> ranges <> [] -> lower < last_Hi ranges.
Proof.
  revert lower. induction ranges as [|x ranges IH]; intros lower; [done|]. intros (H1 & H2 & H3) _. unfold last_Hi in *. simpl.
  destruct ranges as [|y ranges]; [lia|]. specialize (IH _ H3 ltac:(done)). lia.
Qed.

Lemma not_above lower ranges r : ordered lower ranges -> last_Hi ranges < r -> ranges <> [] -> existsb (in_range r) ranges = false.
Proof.
  revert lower. induction ranges as [|x ranges IH]; intros lower; [done|]. intros (H1 & H2 & H3) Hr _. cbn [existsb].
  destruct ranges as [|y ranges].
  - unfold last_Hi in Hr. simpl in *. unfold in_range. by rewrite (proj2 (Z.leb_gt r _)), andb_false_r by lia.
  - change (last_Hi (x :: y :: ranges)) with (last_Hi (y :: ranges)) in Hr. rewrite (IH _ H3) by done. pose proof (last_Hi_lower _ _ H3 ltac:(done)).
    unfold in_range. by rewrite (proj2 (Z.leb_gt r _)), andb_false_r by lia.
Qed.

Lemma ordered_drop lower ranges n : ordered lower ranges -> exists lower', lower <= lower' /\ ordered lower' (drop n ranges).
Proof.
  revert lower n. induction ranges as [|x ranges IH]; intros lower [|n]; simpl; [by exists lower..|].
  intros (H1 & H2 & H3). destruct (IH _ n H3) as (l & ? & ?). exists l. split; [lia|done].
Qed.

Lemma existsb_take_drop ranges n r :
  Forall (fun x => Hi x < r) (take n ranges) -> existsb (in_range r) (drop n ranges) = existsb (in_range r) ranges.
Proof.
  intros Hn. rewrite <- (take_drop n ranges) at 2. rewrite existsb_app.
  assert (existsb (in_range r) (take n ranges) = false) as ->; [|done].
  induction Hn as [|x l Hx _ IH]; [done|]. simpl. rewrite IH. unfold in_range.
  by rewrite (proj2 (Z.leb_gt r _)), andb_false_r by lia.
Qed.

(** The part of the test on the 32-bit ranges. *)
Lemma r32_spec lower r32 r :
  ordered lower r32 -> -1 <= lower -> - 2 ^ 31 <= r < 2 ^ 31 ->
  (if (0 <? len r32) && (first_Lo r32 <=? r) then is32 r32 (u32 r) else false) = existsb (in_range r) r32.
Proof.
  intros H32 Hl Hr. change (2 ^ 31) with 2147483648 in Hr. destruct r32 as [|x l]; [done|].
  rewrite (proj2 (Z.ltb_lt 0 _)) by (rewrite len_cons; pose proof (len_nonneg l); lia). unfold first_Lo. cbn [andb hd].
  pose proof H32 as (Hx & Hx' & H32'). destruct (Z.leb_spec (Lo x) r).
  - assert (u32 r = r) as -> by (widths; zlia). by eapply is32_spec.
  - cbn [existsb]. rewrite (not_below _ _ r H32') by lia. unfold in_range. by rewrite (proj2 (Z.leb_gt (Lo x) r)) by lia.
Qed.

Lemma tables_spec t off r :
  table_wf t -> 0 <= off -> Forall (fun x => Hi x < r) (take (Z.to_nat off) (R16 t)) -> - 2 ^ 31 <= r < 2 ^ 31 ->
  is_tables (R16 t) (R32 t) off r = existsb (in_range r) (R16 t ++ R32 t).
Proof.
  intros [H16 Hw H32 _] Hoff Hlow Hr. rewrite existsb_app. unfold is_tables.
  assert (-1 <= last_Hi (R16 t)) as Hl.
  { destruct (R16 t) as [|y l'] eqn:E16; [done|]. pose proof (last_Hi_lower _ _ H16 ltac:(done)). lia. }
  pose proof (r32_spec _ _ r H32 Hl Hr) as Hr32. change (2 ^ 31) with 2147483648 in Hr.
  destruct (Z.ltb_spec off (len (R16 t))) as [Ho|Ho]; cbn [andb].
  - assert (R16 t <> []) as Hne by (intros E; rewrite E in Ho; change (@len Range []) with 0 in Ho; lia).
    destruct (Z.leb_spec (u32 r) (last_Hi (R16 t))) as [Hle|Hgt].
    + assert (0 <= r <= last_Hi (R16 t)) as Hrange by (widths; zlia). assert (u16 r = r) as -> by (widths; zlia).
      destruct (ordered_drop _ _ (Z.to_nat off) H16) as (l & _ & Hd).
      rewrite (is16_spec _ _ _ Hd), existsb_take_drop by done. rewrite (not_below _ _ r H32) by lia. by rewrite orb_false_r.
    + rewrite Hr32. destruct (Z.lt_ge_cases r 0).
      * rewrite (not_below _ _ r H16) by lia. done.
      * rewrite (not_above _ _ _ H16) by (try done; widths; zlia). done.
  - rewrite Hr32. rewrite take_ge in Hlow by (unfold len in Ho; lia).
    assert (existsb (in_range r) (R16 t) = false) as ->; [|done].
    rewrite <- (existsb_take_drop _ (length (R16 t))), drop_all; [done|]. by rewrite take_ge by lia.
Qed.

Lemma Latin_below t r :
  table_wf t -> MaxLatin1 < r -> Forall (fun x => Hi x < r) (take (Z.to_nat (LatinOffset t)) (R16 t)).
Proof. intros [_ _ _ [_ Hl]] Hr. eapply Forall_impl; [exact Hl|]. simpl. lia. Qed.

(** A table is searched exactly.  In a well-formed table of ranges, Is finds an
    int32 (also a negative one) exactly when it is in one of the ranges at a multiple
    of the stride, by the linear search of short tables as by the binary search of
    long ones; above Latin-1, isExcludingLatin is the same.  IsSpace is membership in
    the table of white space, which it consults only above Latin-1. *)
Theorem unicode_tables_exact t r :
  table_wf t -> - 2 ^ 31 <= r < 2 ^ 31 ->
  Is t r = existsb (in_range r) (R16 t ++ R32 t) /\
  (MaxLatin1 < r -> isExcludingLatin t r = Is t r) /\
  IsSpace r = existsb (in_range r) (R16 White_Space).
Proof.
  intros Ht Hr. assert (Is t r = existsb (in_range r) (R16 t ++ R32 t)) as HI by (apply tables_spec; done).
  split; [done|]. split.
  - intros Hl. rewrite HI. pose proof (wf_latin _ Ht) as [H0 _]. apply tables_spec; try done. by apply Latin_below.
  - unfold IsSpace. destruct (Z.leb_spec (u32 r) 255) as [Hle|Hgt].
    + assert (0 <= r <= 255) as Hb by (change (2 ^ 31) with 2147483648 in Hr; widths; zlia).
      apply eqb_true_iff. assert (is_byte r) as Hb' by (unfold is_byte; lia). clear HI Hb Hle Hr. revert r Hb'. apply byte_enum. by vm_compute.
    + assert (table_wf White_Space) as Hw by (split; [cbn; lia|done|done|split; [done|repeat constructor; done]]).
      destruct (Z.lt_ge_cases r 0).
      * unfold isExcludingLatin, is_tables. rewrite (not_below _ _ r (wf_16 _ Hw)) by lia.
        rewrite (proj2 (Z.leb_gt (u32 r) _)), andb_false_r; [done|]. change (last_Hi (R16 White_Space)) with 12288.
        change (2 ^ 31) with 2147483648 in Hr. widths. zlia.
      * unfold isExcludingLatin. rewrite (tables_spec White_Space _ r Hw); try done. apply Latin_below; [done|].
        change (2 ^ 31) with 2147483648 in Hr. widths. zlia.
Qed.

Lemma unicode_tables_exact_witness :
  Is White_Space 5760 = true /\ IsSpace 8240 = false.
Proof.
  assert (table_wf White_Space) as Hw.
  { split; [cbn; lia|reflexivity|exact I|split; [discriminate|]]. repeat constructor; cbn; lia. }
  split.
  - rewrite (proj1 (unicode_tables_exact White_Space 5760 Hw ltac:(lia))). reflexivity.
  - rewrite (proj2 (proj2 (unicode_tables_exact White_Space 8240 Hw ltac:(lia)))). reflexivity.
Defined.
