(* ===== verification/UnicodeTables.v ===== *)
(** * unicode: letters and digits

    The tables [_L], [_Nd] and [properties] of
    [tools/go-patched/src/unicode/tables.go], with [IsLetter] and [IsDigit] of graphic.go
    and digit.go, which decide the names that a wildcard of a request pattern can have.
    The code keeps the Latin-1 letters twice, as bits of [properties] and as ranges of
    [_L]; the two agree. *)

From S2P Require Import Prelude Unicode.
Local Open Scope go_scope.

Definition pLu : Z := 32.
Definition pLl : Z := 64.
Definition pLmask : Z := pLl .| pLu.

Definition properties : list Z :=
  [1; 1; 1; 1; 1; 1; 1; 1; 1; 1; 1; 1; 1; 1; 1; 1; 1; 1; 1; 1; 1; 1; 1; 1; 1; 1; 1; 1; 1; 1; 1; 1;
    144; 130; 130; 130; 136; 130; 130; 130; 130; 130; 130; 136; 130; 130; 130; 130; 132; 132; 132;
    132; 132; 132; 132; 132; 132; 132; 130; 130; 136; 136; 136; 130; 130; 160; 160; 160; 160; 160;
    160; 160; 160; 160; 160; 160; 160; 160; 160; 160; 160; 160; 160; 160; 160; 160; 160; 160; 160;
    160; 160; 130; 130; 130; 136; 130; 136; 192; 192; 192; 192; 192; 192; 192; 192; 192; 192; 192;
    192; 192; 192; 192; 192; 192; 192; 192; 192; 192; 192; 192; 192; 192; 192; 130; 136; 130; 136;
    1; 1; 1; 1; 1; 1; 1; 1; 1; 1; 1; 1; 1; 1; 1; 1; 1; 1; 1; 1; 1; 1; 1; 1; 1; 1; 1; 1; 1; 1; 1; 1;
    1; 16; 130; 136; 136; 136; 136; 136; 130; 136; 136; 224; 130; 136; 0; 136; 136; 136; 136; 132;
    132; 136; 192; 130; 130; 136; 132; 224; 130; 132; 132; 132; 130; 160; 160; 160; 160; 160; 160;
    160; 160; 160; 160; 160; 160; 160; 160; 160; 160; 160; 160; 160; 160; 160; 160; 160; 136; 160;
    160; 160; 160; 160; 160; 160; 192; 192; 192; 192; 192; 192; 192; 192; 192; 192; 192; 192; 192;
    192; 192; 192; 192; 192; 192; 192; 192; 192; 192; 192; 136; 192; 192; 192; 192; 192; 192; 192;
    192].

Definition Letter : RangeTable :=
  mk_RangeTable
    [mk_Range 65 90 1; mk_Range 97 122 1; mk_Range 170 181 11; mk_Range 186 192 6;
      mk_Range 193 214 1; mk_Range 216 246 1; mk_Range 248 705 1; mk_Range 710 721 1;
      mk_Range 736 740 1; mk_Range 748 750 2; mk_Range 880 884 1; mk_Range 886 887 1;
      mk_Range 890 893 1; mk_Range 895 902 7; mk_Range 904 906 1; mk_Range 908 910 2;
      mk_Range 911 929 1; mk_Range 931 1013 1; mk_Range 1015 1153 1; mk_Range 1162 1327 1;
      mk_Range 1329 1366 1; mk_Range 1369 1376 7; mk_Range 1377 1416 1; mk_Range 1488 1514 1;
      mk_Range 1519 1522 1; mk_Range 1568 1610 1; mk_Range 1646 1647 1; mk_Range 1649 1747 1;
      mk_Range 1749 1765 16; mk_Range 1766 1774 8; mk_Range 1775 1786 11; mk_Range 1787 1788 1;
      mk_Range 1791 1808 17; mk_Range 1810 1839 1; mk_Range 1869 1957 1; mk_Range 1969 1994 25;
      mk_Range 1995 2026 1; mk_Range 2036 2037 1; mk_Range 2042 2048 6; mk_Range 2049 2069 1;
      mk_Range 2074 2084 10; mk_Range 2088 2112 24; mk_Range 2113 2136 1; mk_Range 2144 2154 1;
      mk_Range 2160 2183 1; mk_Range 2185 2190 1; mk_Range 2208 2249 1; mk_Range 2308 2361 1;
      mk_Range 2365 2384 19; mk_Range 2392 2401 1; mk_Range 2417 2432 1; mk_Range 2437 2444 1;
      mk_Range 2447 2448 1; mk_Range 2451 2472 1; mk_Range 2474 2480 1; mk_Range 2482 2486 4;
      mk_Range 2487 2489 1; mk_Range 2493 2510 17; mk_Range 2524 2525 1; mk_Range 2527 2529 1;
      mk_Range 2544 2545 1; mk_Range 2556 2565 9; mk_Range 2566 2570 1; mk_Range 2575 2576 1;
      mk_Range 2579 2600 1; mk_Range 2602 2608 1; mk_Range 2610 2611 1; mk_Range 2613 2614 1;
      mk_Range 2616 2617 1; mk_Range 2649 2652 1; mk_Range 2654 2674 20; mk_Range 2675 2676 1;
      mk_Range 2693 2701 1; mk_Range 2703 2705 1; mk_Range 2707 2728 1; mk_Range 2730 2736 1;
      mk_Range 2738 2739 1; mk_Range 2741 2745 1; mk_Range 2749 2768 19; mk_Range 2784 2785 1;
      mk_Range 2809 2821 12; mk_Range 2822 2828 1; mk_Range 2831 2832 1; mk_Range 2835 2856 1;
      mk_Range 2858 2864 1; mk_Range 2866 2867 1; mk_Range 2869 2873 1; mk_Range 2877 2908 31;
      mk_Range 2909 2911 2; mk_Range 2912 2913 1; mk_Range 2929 2947 18; mk_Range 2949 2954 1;
      mk_Range 2958 2960 1; mk_Range 2962 2965 1; mk_Range 2969 2970 1; mk_Range 2972 2974 2;
      mk_Range 2975 2979 4; mk_Range 2980 2984 4; mk_Range 2985 2986 1; mk_Range 2990 3001 1;
      mk_Range 3024 3077 53; mk_Range 3078 3084 1; mk_Range 3086 3088 1; mk_Range 3090 3112 1;
      mk_Range 3114 3129 1; mk_Range 3133 3160 27; mk_Range 3161 3162 1; mk_Range 3165 3168 3;
      mk_Range 3169 3200 31; mk_Range 3205 3212 1; mk_Range 3214 3216 1; mk_Range 3218 3240 1;
      mk_Range 3242 3251 1; mk_Range 3253 3257 1; mk_Range 3261 3293 32; mk_Range 3294 3296 2;
      mk_Range 3297 3313 16; mk_Range 3314 3332 18; mk_Range 3333 3340 1; mk_Range 3342 3344 1;
      mk_Range 3346 3386 1; mk_Range 3389 3406 17; mk_Range 3412 3414 1; mk_Range 3423 3425 1;
      mk_Range 3450 3455 1; mk_Range 3461 3478 1; mk_Range 3482 3505 1; mk_Range 3507 3515 1;
      mk_Range 3517 3520 3; mk_Range 3521 3526 1; mk_Range 3585 3632 1; mk_Range 3634 3635 1;
      mk_Range 3648 3654 1; mk_Range 3713 3714 1; mk_Range 3716 3718 2; mk_Range 3719 3722 1;
      mk_Range 3724 3747 1; mk_Range 3749 3751 2; mk_Range 3752 3760 1; mk_Range 3762 3763 1;
      mk_Range 3773 3776 3; mk_Range 3777 3780 1; mk_Range 3782 3804 22; mk_Range 3805 3807 1;
      mk_Range 3840 3904 64; mk_Range 3905 3911 1; mk_Range 3913 3948 1; mk_Range 3976 3980 1;
      mk_Range 4096 4138 1; mk_Range 4159 4176 17; mk_Range 4177 4181 1; mk_Range 4186 4189 1;
      mk_Range 4193 4197 4; mk_Range 4198 4206 8; mk_Range 4207 4208 1; mk_Range 4213 4225 1;
      mk_Range 4238 4256 18; mk_Range 4257 4293 1; mk_Range 4295 4301 6; mk_Range 4304 4346 1;
      mk_Range 4348 4680 1; mk_Range 4682 4685 1; mk_Range 4688 4694 1; mk_Range 4696 4698 2;
      mk_Range 4699 4701 1; mk_Range 4704 4744 1; mk_Range 4746 4749 1; mk_Range 4752 4784 1;
      mk_Range 4786 4789 1; mk_Range 4792 4798 1; mk_Range 4800 4802 2; mk_Range 4803 4805 1;
      mk_Range 4808 4822 1; mk_Range 4824 4880 1; mk_Range 4882 4885 1; mk_Range 4888 4954 1;
      mk_Range 4992 5007 1; mk_Range 5024 5109 1; mk_Range 5112 5117 1; mk_Range 5121 5740 1;
      mk_Range 5743 5759 1; mk_Range 5761 5786 1; mk_Range 5792 5866 1; mk_Range 5873 5880 1;
      mk_Range 5888 5905 1; mk_Range 5919 5937 1; mk_Range 5952 5969 1; mk_Range 5984 5996 1;
      mk_Range 5998 6000 1; mk_Range 6016 6067 1; mk_Range 6103 6108 5; mk_Range 6176 6264 1;
      mk_Range 6272 6276 1; mk_Range 6279 6312 1; mk_Range 6314 6320 6; mk_Range 6321 6389 1;
      mk_Range 6400 6430 1; mk_Range 6480 6509 1; mk_Range 6512 6516 1; mk_Range 6528 6571 1;
      mk_Range 6576 6601 1; mk_Range 6656 6678 1; mk_Range 6688 6740 1; mk_Range 6823 6917 94;
      mk_Range 6918 6963 1; mk_Range 6981 6988 1; mk_Range 7043 7072 1; mk_Range 7086 7087 1;
      mk_Range 7098 7141 1; mk_Range 7168 7203 1; mk_Range 7245 7247 1; mk_Range 7258 7293 1;
      mk_Range 7296 7304 1; mk_Range 7312 7354 1; mk_Range 7357 7359 1; mk_Range 7401 7404 1;
      mk_Range 7406 7411 1; mk_Range 7413 7414 1; mk_Range 7418 7424 6; mk_Range 7425 7615 1;
      mk_Range 7680 7957 1; mk_Range 7960 7965 1; mk_Range 7968 8005 1; mk_Range 8008 8013 1;
      mk_Range 8016 8023 1; mk_Range 8025 8031 2; mk_Range 8032 8061 1; mk_Range 8064 8116 1;
      mk_Range 8118 8124 1; mk_Range 8126 8130 4; mk_Range 8131 8132 1; mk_Range 8134 8140 1;
      mk_Range 8144 8147 1; mk_Range 8150 8155 1; mk_Range 8160 8172 1; mk_Range 8178 8180 1;
      mk_Range 8182 8188 1; mk_Range 8305 8319 14; mk_Range 8336 8348 1; mk_Range 8450 8455 5;
      mk_Range 8458 8467 1; mk_Range 8469 8473 4; mk_Range 8474 8477 1; mk_Range 8484 8490 2;
      mk_Range 8491 8493 1; mk_Range 8495 8505 1; mk_Range 8508 8511 1; mk_Range 8517 8521 1;
      mk_Range 8526 8579 53; mk_Range 8580 11264 2684; mk_Range 11265 11492 1;
      mk_Range 11499 11502 1; mk_Range 11506 11507 1; mk_Range 11520 11557 1;
      mk_Range 11559 11565 6; mk_Range 11568 11623 1; mk_Range 11631 11648 17;
      mk_Range 11649 11670 1; mk_Range 11680 11686 1; mk_Range 11688 11694 1;
      mk_Range 11696 11702 1; mk_Range 11704 11710 1; mk_Range 11712 11718 1;
      mk_Range 11720 11726 1; mk_Range 11728 11734 1; mk_Range 11736 11742 1;
      mk_Range 11823 12293 470; mk_Range 12294 12337 43; mk_Range 12338 12341 1;
      mk_Range 12347 12348 1; mk_Range 12353 12438 1; mk_Range 12445 12447 1;
      mk_Range 12449 12538 1; mk_Range 12540 12543 1; mk_Range 12549 12591 1;
      mk_Range 12593 12686 1; mk_Range 12704 12735 1; mk_Range 12784 12799 1;
      mk_Range 13312 19903 1; mk_Range 19968 42124 1; mk_Range 42192 42237 1;
      mk_Range 42240 42508 1; mk_Range 42512 42527 1; mk_Range 42538 42539 1;
      mk_Range 42560 42606 1; mk_Range 42623 42653 1; mk_Range 42656 42725 1;
      mk_Range 42775 42783 1; mk_Range 42786 42888 1; mk_Range 42891 42954 1;
      mk_Range 42960 42961 1; mk_Range 42963 42965 2; mk_Range 42966 42969 1;
      mk_Range 42994 43009 1; mk_Range 43011 43013 1; mk_Range 43015 43018 1;
      mk_Range 43020 43042 1; mk_Range 43072 43123 1; mk_Range 43138 43187 1;
      mk_Range 43250 43255 1; mk_Range 43259 43261 2; mk_Range 43262 43274 12;
      mk_Range 43275 43301 1; mk_Range 43312 43334 1; mk_Range 43360 43388 1;
      mk_Range 43396 43442 1; mk_Range 43471 43488 17; mk_Range 43489 43492 1;
      mk_Range 43494 43503 1; mk_Range 43514 43518 1; mk_Range 43520 43560 1;
      mk_Range 43584 43586 1; mk_Range 43588 43595 1; mk_Range 43616 43638 1;
      mk_Range 43642 43646 4; mk_Range 43647 43695 1; mk_Range 43697 43701 4;
      mk_Range 43702 43705 3; mk_Range 43706 43709 1; mk_Range 43712 43714 2;
      mk_Range 43739 43741 1; mk_Range 43744 43754 1; mk_Range 43762 43764 1;
      mk_Range 43777 43782 1; mk_Range 43785 43790 1; mk_Range 43793 43798 1;
      mk_Range 43808 43814 1; mk_Range 43816 43822 1; mk_Range 43824 43866 1;
      mk_Range 43868 43881 1; mk_Range 43888 44002 1; mk_Range 44032 55203 1;
      mk_Range 55216 55238 1; mk_Range 55243 55291 1; mk_Range 63744 64109 1;
      mk_Range 64112 64217 1; mk_Range 64256 64262 1; mk_Range 64275 64279 1;
      mk_Range 64285 64287 2; mk_Range 64288 64296 1; mk_Range 64298 64310 1;
      mk_Range 64312 64316 1; mk_Range 64318 64320 2; mk_Range 64321 64323 2;
      mk_Range 64324 64326 2; mk_Range 64327 64433 1; mk_Range 64467 64829 1;
      mk_Range 64848 64911 1; mk_Range 64914 64967 1; mk_Range 65008 65019 1;
      mk_Range 65136 65140 1; mk_Range 65142 65276 1; mk_Range 65313 65338 1;
      mk_Range 65345 65370 1; mk_Range 65382 65470 1; mk_Range 65474 65479 1;
      mk_Range 65482 65487 1; mk_Range 65490 65495 1; mk_Range 65498 65500 1]
    [mk_Range 65536 65547 1; mk_Range 65549 65574 1; mk_Range 65576 65594 1; mk_Range 65596 65597 1;
      mk_Range 65599 65613 1; mk_Range 65616 65629 1; mk_Range 65664 65786 1;
      mk_Range 66176 66204 1; mk_Range 66208 66256 1; mk_Range 66304 66335 1;
      mk_Range 66349 66368 1; mk_Range 66370 66377 1; mk_Range 66384 66421 1;
      mk_Range 66432 66461 1; mk_Range 66464 66499 1; mk_Range 66504 66511 1;
      mk_Range 66560 66717 1; mk_Range 66736 66771 1; mk_Range 66776 66811 1;
      mk_Range 66816 66855 1; mk_Range 66864 66915 1; mk_Range 66928 66938 1;
      mk_Range 66940 66954 1; mk_Range 66956 66962 1; mk_Range 66964 66965 1;
      mk_Range 66967 66977 1; mk_Range 66979 66993 1; mk_Range 66995 67001 1;
      mk_Range 67003 67004 1; mk_Range 67072 67382 1; mk_Range 67392 67413 1;
      mk_Range 67424 67431 1; mk_Range 67456 67461 1; mk_Range 67463 67504 1;
      mk_Range 67506 67514 1; mk_Range 67584 67589 1; mk_Range 67592 67594 2;
      mk_Range 67595 67637 1; mk_Range 67639 67640 1; mk_Range 67644 67647 3;
      mk_Range 67648 67669 1; mk_Range 67680 67702 1; mk_Range 67712 67742 1;
      mk_Range 67808 67826 1; mk_Range 67828 67829 1; mk_Range 67840 67861 1;
      mk_Range 67872 67897 1; mk_Range 67968 68023 1; mk_Range 68030 68031 1;
      mk_Range 68096 68112 16; mk_Range 68113 68115 1; mk_Range 68117 68119 1;
      mk_Range 68121 68149 1; mk_Range 68192 68220 1; mk_Range 68224 68252 1;
      mk_Range 68288 68295 1; mk_Range 68297 68324 1; mk_Range 68352 68405 1;
      mk_Range 68416 68437 1; mk_Range 68448 68466 1; mk_Range 68480 68497 1;
      mk_Range 68608 68680 1; mk_Range 68736 68786 1; mk_Range 68800 68850 1;
      mk_Range 68864 68899 1; mk_Range 69248 69289 1; mk_Range 69296 69297 1;
      mk_Range 69376 69404 1; mk_Range 69415 69424 9; mk_Range 69425 69445 1;
      mk_Range 69488 69505 1; mk_Range 69552 69572 1; mk_Range 69600 69622 1;
      mk_Range 69635 69687 1; mk_Range 69745 69746 1; mk_Range 69749 69763 14;
      mk_Range 69764 69807 1; mk_Range 69840 69864 1; mk_Range 69891 69926 1;
      mk_Range 69956 69959 3; mk_Range 69968 70002 1; mk_Range 70006 70019 13;
      mk_Range 70020 70066 1; mk_Range 70081 70084 1; mk_Range 70106 70108 2;
      mk_Range 70144 70161 1; mk_Range 70163 70187 1; mk_Range 70207 70208 1;
      mk_Range 70272 70278 1; mk_Range 70280 70282 2; mk_Range 70283 70285 1;
      mk_Range 70287 70301 1; mk_Range 70303 70312 1; mk_Range 70320 70366 1;
      mk_Range 70405 70412 1; mk_Range 70415 70416 1; mk_Range 70419 70440 1;
      mk_Range 70442 70448 1; mk_Range 70450 70451 1; mk_Range 70453 70457 1;
      mk_Range 70461 70480 19; mk_Range 70493 70497 1; mk_Range 70656 70708 1;
      mk_Range 70727 70730 1; mk_Range 70751 70753 1; mk_Range 70784 70831 1;
      mk_Range 70852 70853 1; mk_Range 70855 71040 185; mk_Range 71041 71086 1;
      mk_Range 71128 71131 1; mk_Range 71168 71215 1; mk_Range 71236 71296 60;
      mk_Range 71297 71338 1; mk_Range 71352 71424 72; mk_Range 71425 71450 1;
      mk_Range 71488 71494 1; mk_Range 71680 71723 1; mk_Range 71840 71903 1;
      mk_Range 71935 71942 1; mk_Range 71945 71948 3; mk_Range 71949 71955 1;
      mk_Range 71957 71958 1; mk_Range 71960 71983 1; mk_Range 71999 72001 2;
      mk_Range 72096 72103 1; mk_Range 72106 72144 1; mk_Range 72161 72163 2;
      mk_Range 72192 72203 11; mk_Range 72204 72242 1; mk_Range 72250 72272 22;
      mk_Range 72284 72329 1; mk_Range 72349 72368 19; mk_Range 72369 72440 1;
      mk_Range 72704 72712 1; mk_Range 72714 72750 1; mk_Range 72768 72818 50;
      mk_Range 72819 72847 1; mk_Range 72960 72966 1; mk_Range 72968 72969 1;
      mk_Range 72971 73008 1; mk_Range 73030 73056 26; mk_Range 73057 73061 1;
      mk_Range 73063 73064 1; mk_Range 73066 73097 1; mk_Range 73112 73440 328;
      mk_Range 73441 73458 1; mk_Range 73474 73476 2; mk_Range 73477 73488 1;
      mk_Range 73490 73523 1; mk_Range 73648 73728 80; mk_Range 73729 74649 1;
      mk_Range 74880 75075 1; mk_Range 77712 77808 1; mk_Range 77824 78895 1;
      mk_Range 78913 78918 1; mk_Range 82944 83526 1; mk_Range 92160 92728 1;
      mk_Range 92736 92766 1; mk_Range 92784 92862 1; mk_Range 92880 92909 1;
      mk_Range 92928 92975 1; mk_Range 92992 92995 1; mk_Range 93027 93047 1;
      mk_Range 93053 93071 1; mk_Range 93760 93823 1; mk_Range 93952 94026 1;
      mk_Range 94032 94099 67; mk_Range 94100 94111 1; mk_Range 94176 94177 1;
      mk_Range 94179 94208 29; mk_Range 94209 100343 1; mk_Range 100352 101589 1;
      mk_Range 101632 101640 1; mk_Range 110576 110579 1; mk_Range 110581 110587 1;
      mk_Range 110589 110590 1; mk_Range 110592 110882 1; mk_Range 110898 110928 30;
      mk_Range 110929 110930 1; mk_Range 110933 110948 15; mk_Range 110949 110951 1;
      mk_Range 110960 111355 1; mk_Range 113664 113770 1; mk_Range 113776 113788 1;
      mk_Range 113792 113800 1; mk_Range 113808 113817 1; mk_Range 119808 119892 1;
      mk_Range 119894 119964 1; mk_Range 119966 119967 1; mk_Range 119970 119973 3;
      mk_Range 119974 119977 3; mk_Range 119978 119980 1; mk_Range 119982 119993 1;
      mk_Range 119995 119997 2; mk_Range 119998 120003 1; mk_Range 120005 120069 1;
      mk_Range 120071 120074 1; mk_Range 120077 120084 1; mk_Range 120086 120092 1;
      mk_Range 120094 120121 1; mk_Range 120123 120126 1; mk_Range 120128 120132 1;
      mk_Range 120134 120138 4; mk_Range 120139 120144 1; mk_Range 120146 120485 1;
      mk_Range 120488 120512 1; mk_Range 120514 120538 1; mk_Range 120540 120570 1;
      mk_Range 120572 120596 1; mk_Range 120598 120628 1; mk_Range 120630 120654 1;
      mk_Range 120656 120686 1; mk_Range 120688 120712 1; mk_Range 120714 120744 1;
      mk_Range 120746 120770 1; mk_Range 120772 120779 1; mk_Range 122624 122654 1;
      mk_Range 122661 122666 1; mk_Range 122928 122989 1; mk_Range 123136 123180 1;
      mk_Range 123191 123197 1; mk_Range 123214 123536 322; mk_Range 123537 123565 1;
      mk_Range 123584 123627 1; mk_Range 124112 124139 1; mk_Range 124896 124902 1;
      mk_Range 124904 124907 1; mk_Range 124909 124910 1; mk_Range 124912 124926 1;
      mk_Range 124928 125124 1; mk_Range 125184 125251 1; mk_Range 125259 126464 1205;
      mk_Range 126465 126467 1; mk_Range 126469 126495 1; mk_Range 126497 126498 1;
      mk_Range 126500 126503 3; mk_Range 126505 126514 1; mk_Range 126516 126519 1;
      mk_Range 126521 126523 2; mk_Range 126530 126535 5; mk_Range 126537 126541 2;
      mk_Range 126542 126543 1; mk_Range 126545 126546 1; mk_Range 126548 126551 3;
      mk_Range 126553 126561 2; mk_Range 126562 126564 2; mk_Range 126567 126570 1;
      mk_Range 126572 126578 1; mk_Range 126580 126583 1; mk_Range 126585 126588 1;
      mk_Range 126590 126592 2; mk_Range 126593 126601 1; mk_Range 126603 126619 1;
      mk_Range 126625 126627 1; mk_Range 126629 126633 1; mk_Range 126635 126651 1;
      mk_Range 131072 173791 1; mk_Range 173824 177977 1; mk_Range 177984 178205 1;
      mk_Range 178208 183969 1; mk_Range 183984 191456 1; mk_Range 194560 195101 1;
      mk_Range 196608 201546 1; mk_Range 201552 205743 1]
    6.

Definition Digit : RangeTable :=
  mk_RangeTable
    [mk_Range 48 57 1; mk_Range 1632 1641 1; mk_Range 1776 1785 1; mk_Range 1984 1993 1;
      mk_Range 2406 2415 1; mk_Range 2534 2543 1; mk_Range 2662 2671 1; mk_Range 2790 2799 1;
      mk_Range 2918 2927 1; mk_Range 3046 3055 1; mk_Range 3174 3183 1; mk_Range 3302 3311 1;
      mk_Range 3430 3439 1; mk_Range 3558 3567 1; mk_Range 3664 3673 1; mk_Range 3792 3801 1;
      mk_Range 3872 3881 1; mk_Range 4160 4169 1; mk_Range 4240 4249 1; mk_Range 6112 6121 1;
      mk_Range 6160 6169 1; mk_Range 6470 6479 1; mk_Range 6608 6617 1; mk_Range 6784 6793 1;
      mk_Range 6800 6809 1; mk_Range 6992 7001 1; mk_Range 7088 7097 1; mk_Range 7232 7241 1;
      mk_Range 7248 7257 1; mk_Range 42528 42537 1; mk_Range 43216 43225 1; mk_Range 43264 43273 1;
      mk_Range 43472 43481 1; mk_Range 43504 43513 1; mk_Range 43600 43609 1;
      mk_Range 44016 44025 1; mk_Range 65296 65305 1]
    [mk_Range 66720 66729 1; mk_Range 68912 68921 1; mk_Range 69734 69743 1; mk_Range 69872 69881 1;
      mk_Range 69942 69951 1; mk_Range 70096 70105 1; mk_Range 70384 70393 1;
      mk_Range 70736 70745 1; mk_Range 70864 70873 1; mk_Range 71248 71257 1;
      mk_Range 71360 71369 1; mk_Range 71472 71481 1; mk_Range 71904 71913 1;
      mk_Range 72016 72025 1; mk_Range 72784 72793 1; mk_Range 73040 73049 1;
      mk_Range 73120 73129 1; mk_Range 73552 73561 1; mk_Range 92768 92777 1;
      mk_Range 92864 92873 1; mk_Range 93008 93017 1; mk_Range 120782 120831 1;
      mk_Range 123200 123209 1; mk_Range 123632 123641 1; mk_Range 124144 124153 1;
      mk_Range 125264 125273 1; mk_Range 130032 130041 1]
    1.

Definition IsLetter (r : Z) : bool :=
  if u32 r <=? MaxLatin1 then negb (nth (Z.to_nat (u8 r)) properties 0 .& pLmask =? 0)
  else isExcludingLatin Letter r.

(** The test of the code is on a signed rune. *)
Definition IsDigit (r : Z) : bool :=
  if r <=? MaxLatin1 then (48 <=? r) && (r <=? 57) else isExcludingLatin Digit r.

(** ** The tables are in order *)

Fixpoint orderedb (lower : Z) (ranges : list Range) : bool :=
  match ranges with
  | [] => true
  | range_ :: ranges => (lower <? Lo range_) && (Lo range_ <=? Hi range_) && orderedb (Hi range_) ranges
  end.

Lemma orderedb_ordered lower ranges : orderedb lower ranges = true -> ordered lower ranges.
Proof.
  revert lower. induction ranges as [|x ranges IH]; intros lower; [done|]. cbn [orderedb ordered].
  intros [[H1%Z.ltb_lt H2%Z.leb_le]%andb_true_iff H3]%andb_true_iff. auto.
Qed.

Definition table_wfb (t : RangeTable) : bool :=
  orderedb (-1) (R16 t) && (last_Hi (R16 t) <? 65536) && orderedb (last_Hi (R16 t)) (R32 t) &&
  (0 <=? LatinOffset t) && forallb (fun x => Hi x <=? MaxLatin1) (take (Z.to_nat (LatinOffset t)) (R16 t)).

Lemma table_wfb_wf t : table_wfb t = true -> table_wf t.
Proof.
  unfold table_wfb. rewrite !andb_true_iff, Z.ltb_lt, Z.leb_le.
  intros ((((H1 & H2) & H3) & H4) & H5). split; [by apply orderedb_ordered|done|by apply orderedb_ordered|].
  split; [done|]. apply Forall_forall. intros x Hx. rewrite forallb_forall in H5. apply Z.leb_le, H5. by apply list_elem_of_In.
Qed.

Lemma Letter_wf : table_wf Letter.
Proof. apply table_wfb_wf. vm_compute. reflexivity. Qed.
Lemma Digit_wf : table_wf Digit.
Proof. apply table_wfb_wf. vm_compute. reflexivity. Qed.

(** A rune is at most 0x7fffffff; a negative one is neither a letter nor a digit. *)
Lemma below_tables t r : table_wf t -> r < 0 -> existsb (in_range r) (R16 t ++ R32 t) = false.
Proof.
  intros Ht Hr. rewrite existsb_app, (not_below _ _ r (wf_16 _ Ht)) by lia.
  apply (not_below _ _ r (wf_32 _ Ht)). destruct (R16 t) as [|x l] eqn:E; [cbn; lia|].
  pose proof (last_Hi_lower _ _ (wf_16 _ Ht)) as H. rewrite E in H. specialize (H ltac:(done)). lia.
Qed.

Lemma above_latin t r :
  table_wf t -> - 2 ^ 31 <= r < 2 ^ 31 -> MaxLatin1 < u32 r -> t = Letter \/ t = Digit ->
  isExcludingLatin t r = existsb (in_range r) (R16 t ++ R32 t).
Proof.
  intros Ht Hr Hu Hwhich. change (2 ^ 31) with 2147483648 in Hr. destruct (Z.lt_ge_cases r 0) as [Hn|Hn].
  - rewrite below_tables by done. unfold isExcludingLatin, is_tables.
    assert (2147483648 <= u32 r) by (widths; zlia).
    assert (last_Hi (R16 t) < u32 r) by (pose proof (wf_16_width _ Ht); lia).
    rewrite (proj2 (Z.leb_gt (u32 r) _)), andb_false_r by done.
    assert (first_Lo (R32 t) <=? r = false) as ->; [|by rewrite andb_false_r].
    apply Z.leb_gt. destruct Hwhich as [-> | ->]; cbn; lia.
  - unfold isExcludingLatin. pose proof (wf_latin _ Ht) as [H0 _]. apply tables_spec; try done.
    apply Latin_below; [done|]. widths. zlia.
Qed.

(** Letters and digits are the members of the ranges of the two tables, for every rune:
    the bits kept for Latin-1 and the ranges that the search then skips agree. *)
Theorem letters_and_digits_exact r :
  - 2 ^ 31 <= r < 2 ^ 31 ->
  IsLetter r = existsb (in_range r) (R16 Letter ++ R32 Letter) /\
  IsDigit r = existsb (in_range r) (R16 Digit ++ R32 Digit).
Proof.
  intros Hr. split.
  - unfold IsLetter. destruct (Z.leb_spec (u32 r) 255) as [Hle|Hgt].
    + assert (is_byte r) as Hb by (unfold is_byte; change (2 ^ 31) with 2147483648 in Hr; widths; zlia).
      apply eqb_true_iff. clear Hr Hle. revert r Hb. apply byte_enum. by vm_compute.
    + apply above_latin; auto using Letter_wf.
  - unfold IsDigit. destruct (Z.leb_spec r 255) as [Hle|Hgt].
    + destruct (Z.lt_ge_cases r 0) as [Hn|Hn].
      * rewrite below_tables by auto using Digit_wf. by rewrite (proj2 (Z.leb_gt 48 r)) by lia.
      * assert (is_byte r) as Hb by (unfold is_byte; lia). apply eqb_true_iff. clear Hr Hle Hn.
        revert r Hb. apply byte_enum. by vm_compute.
    + apply above_latin; auto using Digit_wf. change (2 ^ 31) with 2147483648 in Hr. widths. zlia.
Qed.
