(* ===== verification/Strings.v ===== *)
(** * strings: searching, splitting and trimming

    [tools/go-patched/src/strings/strings.go] over the generic
    [internal/bytealg]: on this build there is no assembly version of Index, so
    [bytealg.MaxLen] is 0 and a substring of two bytes or more is searched by the
    last part of Index, which falls back to Rabin and Karp. *)

From S2P Require Import Prelude HostPort Utf8 Unicode.
Local Open Scope go_scope.

(** [s[i:j]], where the source knows the bounds. *)
Definition cut (s : gostring) (i j : Z) : gostring := take (Z.to_nat (j - i)) (drop (Z.to_nat i) s).

(** ** internal/bytealg *)

Definition PrimeRK : Z := 16777619.

Fixpoint CountString (s : gostring) (c : Z) : Z :=
  match s with
  | [] => 0
  | x :: s => if x =? c then 1 + CountString s c else CountString s c
  end.

Definition hash_step (h x : Z) : Z := u32 (h * PrimeRK + x).

(** [for i := len(sep); i > 0; i >>= 1]: 64 rounds are enough for an int. *)
Fixpoint pow_loop (fuel : nat) (i pow sq : Z) : Z :=
  match fuel with
  | O => pow
  | S fuel =>
      if 0 <? i then
        let pow := if negb (i .& 1 =? 0) then u32 (pow * sq) else pow in
        pow_loop fuel (i >> 1) pow (u32 (sq * sq))
      else pow
  end.

Definition HashStr (sep : gostring) : Z * Z :=
  (fold_left hash_step sep 0, pow_loop 64 (len sep) 1 PrimeRK).

(** The main loop, with [i] the index of the byte that enters the window. *)
Fixpoint RabinKarp_loop (fuel : nat) (s sep : gostring) (n i h hashss pow : Z) : Z :=
  match fuel with
  | O => -1
  | S fuel =>
      if i <? len s then
        let h := u32 (h * PrimeRK) in
        let h := u32 (h + at_ s (Z.to_nat i)) in
        let h := u32 (h - u32 (pow * at_ s (Z.to_nat (i - n)))) in
        let i := i + 1 in
        if (h =? hashss) && bool_decide (cut s (i - n) i = sep) then i - n
        else RabinKarp_loop fuel s sep n i h hashss pow
      else -1
  end.

Definition IndexRabinKarp (s sep : gostring) : Z :=
  let '(hashss, pow) := HashStr sep in
  let n := len sep in
  let h := fold_left hash_step (take (Z.to_nat n) s) 0 in
  if (h =? hashss) && bool_decide (take (Z.to_nat n) s = sep) then 0
  else RabinKarp_loop (length s) s sep n n h hashss pow.

(** ** Searching *)

Definition IndexByte (s : gostring) (c : Z) : Z := IndexByteString s c.

(** The loop at the end of Index: [t] is [len(s) - n + 1]. *)
Fixpoint Index_loop (fuel : nat) (s substr : gostring) (i t fails : Z) : Z :=
  let n := len substr in
  match fuel with
  | O => -1
  | S fuel =>
      if i <? t then
        match
          (if negb (at_ s (Z.to_nat i) =? at_ substr 0) then
             let o := IndexByte (cut s (i + 1) t) (at_ substr 0) in
             if o <? 0 then None else Some (i + (o + 1))
           else Some i)
        with
        | None => -1
        | Some i =>
            if (at_ s (Z.to_nat (i + 1)) =? at_ substr 1) && bool_decide (cut s i (i + n) = substr) then i
            else
              let i := i + 1 in
              let fails := fails + 1 in
              if (4 + (i >> 4) <=? fails) && (i <? t) then
                let j := IndexRabinKarp (drop (Z.to_nat i) s) substr in
                if j <? 0 then -1 else i + j
              else Index_loop fuel s substr i t fails
        end
      else -1
  end.

Definition Index (s substr : gostring) : Z :=
  let n := len substr in
  if n =? 0 then 0
  else if n =? 1 then IndexByte s (at_ substr 0)
  else if n =? len s then if bool_decide (substr = s) then 0 else -1
  else if len s <? n then -1
  else Index_loop (length s) s substr 0 (len s - n + 1) 0.

Definition Contains (s substr : gostring) : bool := 0 <=? Index s substr.

Definition HasPrefix (s prefix : gostring) : bool :=
  (len prefix <=? len s) && bool_decide (take (length prefix) s = prefix).
Definition HasSuffix (s suffix : gostring) : bool :=
  (len suffix <=? len s) && bool_decide (drop (length s - length suffix) s = suffix).
Definition TrimSuffix (s suffix : gostring) : gostring :=
  if HasSuffix s suffix then take (length s - length suffix) s else s.

(** [before], [after] and [found]. *)
Definition Cut (s sep : gostring) : gostring * gostring * bool :=
  let i := Index s sep in
  if 0 <=? i then (take (Z.to_nat i) s, drop (Z.to_nat (i + len sep)) s, true) else (s, [], false).

(** The loop of Count; each round takes the bytes of a match. *)
Fixpoint Count_loop (fuel : nat) (s substr : gostring) (n : Z) : Z :=
  match fuel with
  | O => n
  | S fuel =>
      let i := Index s substr in
      if i =? -1 then n else Count_loop fuel (drop (Z.to_nat (i + len substr)) s) substr (n + 1)
  end.

Definition Count (s substr : gostring) : Z :=
  if len substr =? 0 then RuneCountInString s + 1
  else if len substr =? 1 then CountString s (at_ substr 0)
  else Count_loop (S (length s)) s substr 0.

(** ** Splitting *)

Fixpoint explode_loop (k : nat) (s : gostring) : list gostring :=
  match k with
  | O => [s]
  | S k =>
      let '(_, size) := DecodeRuneInString s in
      take (Z.to_nat size) s :: explode_loop k (drop (Z.to_nat size) s)
  end.

(** [n - 1] pieces of one rune and the rest; an empty slice for [n = 0]. *)
Definition explode (s : gostring) (n : Z) : list gostring :=
  let l := RuneCountInString s in
  let n := if (n <? 0) || (l <? n) then l else n in
  if 0 <? n then explode_loop (Z.to_nat (n - 1)) s else [].

(** [for i < n]: the pieces, then the rest. *)
Fixpoint genSplit_loop (k : nat) (s sep : gostring) (sepSave : Z) : list gostring :=
  match k with
  | O => [s]
  | S k =>
      let m := Index s sep in
      if m <? 0 then [s]
      else take (Z.to_nat (m + sepSave)) s :: genSplit_loop k (drop (Z.to_nat (m + len sep)) s) sep sepSave
  end.

Definition genSplit (s sep : gostring) (sepSave n : Z) : list gostring :=
  if n =? 0 then []
  else if len sep =? 0 then explode s n
  else
    let n := if n <? 0 then Count s sep + 1 else n in
    let n := if len s + 1 <? n then len s + 1 else n in
    genSplit_loop (Z.to_nat (n - 1)) s sep sepSave.

Definition SplitN (s sep : gostring) (n : Z) : list gostring := genSplit s sep 0 n.
Definition Split (s sep : gostring) : list gostring := genSplit s sep 0 (-1).
Definition SplitAfter (s sep : gostring) : list gostring := genSplit s sep (len sep) (-1).

(** Join, without the panics for a text of more than [maxInt] bytes. *)
Definition Join (elems : list gostring) (sep : gostring) : gostring :=
  match elems with
  | [] => []
  | e :: elems => e ++ concat (map (fun s => sep ++ s) elems)
  end.

(** ** Trimming *)

(** [for i, r := range s]: the index of the first rune for which [f] gives [truth]. *)
Fixpoint indexFunc_loop (fuel : nat) (s : gostring) (f : Z -> bool) (truth : bool) (i : Z) : Z :=
  match fuel, s with
  | S fuel, _ :: _ =>
      let '(r, size) := DecodeRuneInString s in
      if Bool.eqb (f r) truth then i else indexFunc_loop fuel (drop (Z.to_nat size) s) f truth (i + size)
  | _, _ => -1
  end.

Definition indexFunc (s : gostring) (f : Z -> bool) (truth : bool) : Z := indexFunc_loop (length s) s f truth 0.

Fixpoint lastIndexFunc_loop (fuel : nat) (s : gostring) (f : Z -> bool) (truth : bool) (i : Z) : Z :=
  match fuel with
  | O => -1
  | S fuel =>
      if 0 <? i then
        let '(r, size) := DecodeLastRuneInString (take (Z.to_nat i) s) in
        let i := i - size in
        if Bool.eqb (f r) truth then i else lastIndexFunc_loop fuel s f truth i
      else -1
  end.

Definition lastIndexFunc (s : gostring) (f : Z -> bool) (truth : bool) : Z :=
  lastIndexFunc_loop (length s) s f truth (len s).

Definition TrimLeftFunc (s : gostring) (f : Z -> bool) : gostring :=
  let i := indexFunc s f false in
  if i =? -1 then [] else drop (Z.to_nat i) s.

Definition TrimRightFunc (s : gostring) (f : Z -> bool) : gostring :=
  let i := lastIndexFunc s f false in
  let i := if (0 <=? i) && (RuneSelf <=? at_ s (Z.to_nat i))
           then i + snd (DecodeRuneInString (drop (Z.to_nat i) s)) else i + 1 in
  take (Z.to_nat i) s.

Definition TrimFunc (s : gostring) (f : Z -> bool) : gostring := TrimRightFunc (TrimLeftFunc s f) f.

Definition asciiSpace (c : Z) : bool := (c =? 9) || (c =? 10) || (c =? 11) || (c =? 12) || (c =? 13) || (c =? 32).

(** The loop from the end, with [stop] counting down to [start]. *)
Fixpoint TrimSpace_stop (s : gostring) (start : Z) (stop : nat) : gostring :=
  match stop with
  | S k =>
      if start <? Z.of_nat stop then
        let c := at_ s k in
        if RuneSelf <=? c then TrimRightFunc (cut s start (Z.of_nat stop)) IsSpace
        else if asciiSpace c then TrimSpace_stop s start k
        else cut s start (Z.of_nat stop)
      else cut s start (Z.of_nat stop)
  | O => cut s start 0
  end.

(** The loop from the front: [rest] is [s[start:]]. *)
Fixpoint TrimSpace_start (s rest : gostring) (start : Z) : gostring :=
  match rest with
  | [] => TrimSpace_stop s start (length s)
  | c :: rest' =>
      if RuneSelf <=? c then TrimFunc rest IsSpace
      else if asciiSpace c then TrimSpace_start s rest' (start + 1)
      else TrimSpace_stop s start (length s)
  end.

Definition TrimSpace (s : gostring) : gostring := TrimSpace_start s s 0.

Example strings_examples :
  Index (str "chicken") (str "ken") = 4 /\ Index (str "aaaaaaaaaaaaaaaaaaaaaaaaaaab") (str "ab") = 26 /\
  Split (str "a,b,,c") (str ",") = [str "a"; str "b"; []; str "c"] /\ Split [] (str ",") = [[]] /\
  SplitN (str "a::b::c") (str "::") 2 = [str "a"; str "b::c"] /\ Count (str "cheese") (str "e") = 3 /\
  TrimSpace (str "  a b ") = str "a b" /\ TrimSpace [32; 226; 128; 131; 195; 169; 194; 160; 10] = [195; 169] /\
  Cut (str "key=value") (str "=") = (str "key", str "value", true) /\
  Split [195; 169; 65] [] = [[195; 169]; [65]].
Proof. split_and!; vm_compute; reflexivity. Qed.

(** ** Rabin and Karp *)

Lemma u32_add_l a b : u32 (u32 a + b) = u32 (a + b).
Proof. apply Z.add_mod_idemp_l. lia. Qed.
Lemma u32_add_r a b : u32 (a + u32 b) = u32 (a + b).
Proof. apply Z.add_mod_idemp_r. lia. Qed.
Lemma u32_sub_l a b : u32 (u32 a - b) = u32 (a - b).
Proof. unfold u32. by rewrite Zminus_mod_idemp_l. Qed.
Lemma u32_sub_r a b : u32 (a - u32 b) = u32 (a - b).
Proof. unfold u32. by rewrite Zminus_mod_idemp_r. Qed.
Lemma u32_mul_l a b : u32 (u32 a * b) = u32 (a * b).
Proof. apply Z.mul_mod_idemp_l. lia. Qed.
Lemma u32_mul_r a b : u32 (a * u32 b) = u32 (a * b).
Proof. apply Z.mul_mod_idemp_r. lia. Qed.
Lemma u32_u32 a : u32 (u32 a) = u32 a.
Proof. apply Z.mod_mod. lia. Qed.

Lemma u32_mul_add a b c : u32 (u32 a * b + c) = u32 (a * b + c).
Proof. by rewrite <- u32_add_l, u32_mul_l, u32_add_l. Qed.

Hint Rewrite u32_mul_add u32_add_l u32_add_r u32_sub_l u32_sub_r u32_mul_l u32_mul_r u32_u32 : wrap32.

(** The power is computed by repeated squaring. *)
Lemma pow_loop_spec fuel i pow sq :
  0 <= i < 2 ^ Z.of_nat fuel -> u32 pow = pow -> pow_loop fuel i pow sq = u32 (pow * sq ^ i).
Proof.
  revert i pow sq. induction fuel as [|fuel IH]; intros i pow sq Hi Hp; cbn [pow_loop].
  { assert (i = 0) as -> by (simpl in Hi; lia). by rewrite Z.mul_1_r, Hp. }
  rewrite Nat2Z.inj_succ, Z.pow_succ_r in Hi by lia. destruct (Z.ltb_spec 0 i).
  2: { assert (i = 0) as -> by lia. by rewrite Z.mul_1_r, Hp. }
  rewrite Z.shiftr_div_pow2 by lia. change (2 ^ 1) with 2. change (i .& 1) with (i .& (2 ^ 1 - 1)). rewrite land_ones_mod by lia.
  change (2 ^ 1) with 2. rewrite IH; [|zlia|destruct (negb _); [apply u32_u32|done]].
  assert (forall k, 0 <= k -> u32 (u32 (sq * sq) ^ k) = u32 (sq ^ (2 * k))) as Hsq.
  { intros k Hk. unfold u32. rewrite Z.pow_mul_r by lia. change (sq ^ 2) with (sq * (sq * 1)). rewrite Z.mul_1_r.
    by rewrite Z.mod_pow_l. }
  rewrite <- u32_mul_r, Hsq, u32_mul_r by zlia. destruct (Z.eqb_spec (i mod 2) 0) as [E|E]; cbn [negb].
  - do 2 f_equal. f_equal. zlia.
  - rewrite u32_mul_l. f_equal. rewrite <- Z.mul_assoc. f_equal. rewrite <- Z.pow_succ_r by zlia. f_equal. zlia.
Qed.

Definition hash (s : gostring) : Z := fold_left hash_step s 0.

Lemma hash_snoc s x : hash (s ++ [x]) = hash_step (hash s) x.
Proof. unfold hash. by rewrite fold_left_app. Qed.

(** The first byte of a text contributes its power. *)
Lemma hash_from s h : fold_left hash_step s (u32 h) = u32 (h * PrimeRK ^ len s + hash s).
Proof.
  induction s as [|x s IH] using rev_ind.
  - unfold hash. simpl. change (@len Z []) with 0. by rewrite Z.mul_1_r, Z.add_0_r.
  - rewrite fold_left_app, hash_snoc. cbn [fold_left]. rewrite IH. unfold hash_step. autorewrite with wrap32. rewrite len_app. change (len [x]) with 1.
    rewrite Z.pow_add_r by (lia || apply len_nonneg). f_equal. ring.
Qed.

(** The window moves on by one byte. *)
Lemma hash_roll y s x pow :
  pow = u32 (PrimeRK ^ len (y :: s)) ->
  u32 (u32 (u32 (hash (y :: s) * PrimeRK) + x) - u32 (pow * y)) = hash (s ++ [x]).
Proof.
  intros ->. rewrite hash_snoc. unfold hash at 1. cbn [fold_left]. change (hash_step 0 y) with (u32 y). rewrite hash_from. unfold hash_step.
  autorewrite with wrap32. rewrite <- u32_sub_l, u32_add_l, u32_sub_l, len_cons, Z.pow_add_r by (lia || apply len_nonneg). f_equal. ring.
Qed.

(** ** Matches *)

(** [substr] is in [s] at [i]. *)
Definition match_at (s substr : gostring) (i : nat) : Prop := take (length substr) (drop i s) = substr.

(** What a search for the first match answers. *)
Definition first_match (s substr : gostring) (r : Z) : Prop :=
  (r = -1 /\ forall i, ~ match_at s substr i) \/
  (exists i, r = Z.of_nat i /\ match_at s substr i /\ forall j, (j < i)%nat -> ~ match_at s substr j).

Lemma match_at_bound s substr i : match_at s substr i -> substr <> [] -> (i + length substr <= length s)%nat.
Proof.
  unfold match_at. intros E Hne. apply (f_equal length) in E. rewrite length_take, length_drop in E.
  destruct substr; [done|]. cbn [length] in *. lia.
Qed.

Lemma match_at_drop s substr i j : match_at (drop i s) substr j <-> match_at s substr (i + j).
Proof. unfold match_at. by rewrite drop_drop. Qed.

Lemma match_at_app s substr i :
  match_at s substr i -> substr <> [] -> s = take i s ++ substr ++ drop (i + length substr) s.
Proof.
  intros Hm Hne. pose proof (match_at_bound _ _ _ Hm Hne). rewrite <- Hm at 1. rewrite <- drop_drop.
  rewrite take_drop. by rewrite take_drop.
Qed.

Lemma match_at_intro a substr b : match_at (a ++ substr ++ b) substr (length a).
Proof. unfold match_at. by rewrite drop_app_length, take_app_length. Qed.

Lemma cut_match s substr i : 0 <= i -> cut s i (i + len substr) = substr <-> match_at s substr (Z.to_nat i).
Proof. intros Hi. unfold cut, match_at, len. replace (Z.to_nat (i + _ - i)) with (length substr) by lia. done. Qed.

Lemma match_at_head s substr i : match_at s substr i -> substr <> [] -> at_ s i = at_ substr 0.
Proof.
  intros Hm Hne. rewrite (match_at_app s substr i Hm Hne). pose proof (match_at_bound _ _ _ Hm Hne). unfold at_.
  rewrite app_nth2 by (rewrite length_take; lia). rewrite length_take, Nat.min_l, Nat.sub_diag by lia. by destruct substr.
Qed.

Lemma match_at_second s substr i : match_at s substr i -> 2 <= len substr -> at_ s (i + 1) = at_ substr 1.
Proof.
  intros Hm Hl. destruct substr as [|a [|b substr]]; [unfold len in Hl; simpl in Hl; lia..|].
  rewrite (match_at_app s _ i Hm) by done. pose proof (match_at_bound _ _ _ Hm ltac:(done)). unfold at_.
  rewrite app_nth2 by (rewrite length_take; lia). rewrite length_take, Nat.min_l by lia. by replace (i + 1 - i)%nat with 1%nat by lia.
Qed.

Lemma at_drop (s : gostring) k : at_ s k = at_ (drop k s) 0.
Proof. revert s. induction k as [|k IH]; intros [|x s]; try done. apply IH. Qed.

(** The windows of Rabin and Karp. *)
Lemma window_step s n i x :
  (n <= i)%nat -> (0 < n)%nat -> s !! i = Some x ->
  exists y w, take n (drop (i - n) s) = y :: w /\ take n (drop (i - n + 1) s) = w ++ [x] /\ length w = (n - 1)%nat /\ at_ s (i - n) = y.
Proof.
  intros Hn H0 Hx. pose proof (lookup_lt_Some _ _ _ Hx). destruct (drop (i - n) s) as [|y r] eqn:E.
  { apply (f_equal length) in E. rewrite length_drop in E. simpl in E. lia. }
  assert (drop (i - n + 1) s = r) as E1 by (rewrite <- drop_drop, E; done).
  exists y, (take (n - 1) r). destruct n as [|n]; [lia|]. cbn [take]. rewrite E1. replace (S n - 1)%nat with n by lia. split; [done|].
  assert (r !! n = Some x) as Hr.
  { rewrite <- E1, lookup_drop. by replace (i - S n + 1 + n)%nat with i by lia. }
  split_and!.
  - by apply take_S_r.
  - rewrite length_take. apply lookup_lt_Some in Hr. lia.
  - by rewrite at_drop, E.
Qed.

Lemma RabinKarp_loop_spec fuel s sep i hashss pow :
  sep <> [] -> hashss = hash sep -> pow = u32 (PrimeRK ^ len sep) ->
  (length sep <= i <= length s)%nat -> (length s - i < fuel)%nat ->
  (forall j, (j <= i - length sep)%nat -> ~ match_at s sep j) ->
  first_match s sep (RabinKarp_loop fuel s sep (len sep) (Z.of_nat i) (hash (take (length sep) (drop (i - length sep) s))) hashss pow).
Proof.
  intros Hne -> ->. revert i. induction fuel as [|fuel IH]; intros i Hi Hf Hno; [lia|]. cbn [RabinKarp_loop].
  destruct (Z.ltb_spec (Z.of_nat i) (len s)) as [Hlt|Hge].
  2: { left. split; [done|]. intros j Hj. apply (Hno j); [|done]. pose proof (match_at_bound _ _ _ Hj Hne). unfold len in Hge. lia. }
  assert (exists x, s !! i = Some x) as [x Hx] by (apply lookup_lt_is_Some; unfold len in Hlt; lia).
  assert (0 < length sep)%nat as H0 by (destruct sep; [done|simpl; lia]).
  destruct (window_step s (length sep) i x) as (y & w & Ew & Ew' & Hw & Hy); [lia|lia|done|].
  cbv zeta. rewrite Nat2Z.id, (nth_lookup_Some _ _ _ _ Hx : at_ s i = x).
  replace (Z.to_nat (Z.of_nat i - len sep)) with (i - length sep)%nat by (unfold len; lia). rewrite Hy, Ew.
  rewrite hash_roll by (do 2 f_equal; rewrite len_cons; unfold len; lia). rewrite <- Ew'.
  replace (Z.of_nat i + 1) with (Z.of_nat (S i)) by lia. replace (i - length sep + 1)%nat with (S i - length sep)%nat by lia.
  assert (cut s (Z.of_nat (S i) - len sep) (Z.of_nat (S i)) = sep <-> match_at s sep (S i - length sep)) as Hcut.
  { replace (Z.of_nat (S i)) with (Z.of_nat (S i - length sep) + len sep) at 2 by (unfold len; lia).
    replace (Z.of_nat (S i) - len sep) with (Z.of_nat (S i - length sep)) by (unfold len; lia).
    rewrite cut_match by lia. by rewrite Nat2Z.id. }
  destruct ((_ =? _) && _) eqn:E.
  - apply andb_true_iff in E as [_ E]. rewrite bool_decide_eq_true, Hcut in E. right. exists (S i - length sep)%nat.
    split; [unfold len; lia|]. split; [done|]. intros j Hj. apply Hno. lia.
  - unfold len in Hlt. apply IH; [lia|lia|]. intros j Hj. destruct (decide (j = S i - length sep)%nat) as [->|]; [|apply Hno; lia].
    intros Hm. apply andb_false_iff in E as [E|E].
    + apply Z.eqb_neq in E. apply E. by rewrite Hm.
    + rewrite bool_decide_eq_false in E. by apply E, Hcut.
Qed.

Lemma len_take_n (s sep : gostring) : take (Z.to_nat (len sep)) s = take (length sep) (drop 0 s).
Proof. unfold len. by rewrite Nat2Z.id. Qed.

(** The first match, from a search on the rest of the string. *)
Lemma first_match_drop s substr i r :
  (forall j, (j < i)%nat -> ~ match_at s substr j) -> first_match (drop i s) substr r ->
  first_match s substr (if r <? 0 then -1 else Z.of_nat i + r).
Proof.
  intros Hno [[-> Hr]|(k & -> & Hk & Hr)].
  - left. split; [done|]. intros j Hj. destruct (decide (j < i)%nat); [by apply (Hno j)|].
    apply (Hr (j - i)%nat). rewrite match_at_drop. by replace (i + (j - i))%nat with j by lia.
  - right. exists (i + k)%nat. rewrite (proj2 (Z.ltb_ge _ 0)) by lia. split; [lia|]. split; [by apply match_at_drop|].
    intros j Hj Hm. destruct (decide (j < i)%nat); [by apply (Hno j)|]. apply (Hr (j - i)%nat); [lia|].
    rewrite match_at_drop. by replace (i + (j - i))%nat with j by lia.
Qed.

Lemma IndexRabinKarp_spec s sep :
  sep <> [] -> (length sep <= length s)%nat -> len sep < 2 ^ 63 -> first_match s sep (IndexRabinKarp s sep).
Proof.
  intros Hne Hl Hmax. unfold IndexRabinKarp, HashStr. rewrite len_take_n. fold (hash (take (length sep) (drop 0 s))). fold (hash sep).
  destruct ((_ =? _) && _) eqn:E.
  - apply andb_true_iff in E as [_ E]. rewrite bool_decide_eq_true in E. right. exists 0%nat. split_and!; [done|done|lia].
  - unfold len at 2. replace (drop 0 s) with (drop (length sep - length sep) s) at 1 by (by rewrite Nat.sub_diag).
    assert (0 < length sep)%nat by (destruct sep; [done|simpl; lia]). apply RabinKarp_loop_spec; [done|done| |lia|lia|].
    + rewrite pow_loop_spec; [by rewrite Z.mul_1_l|split; [apply len_nonneg|change (Z.of_nat 64) with 64; lia]|done].
    + intros j Hj. rewrite Nat.sub_diag in Hj. assert (j = 0%nat) as -> by lia. intros Hm. apply andb_false_iff in E as [E|E].
      * apply Z.eqb_neq in E. apply E. by rewrite Hm.
      * by rewrite bool_decide_eq_false in E.
Qed.

(** ** Index *)

Lemma no_head_no_match s substr i :
  substr <> [] -> at_ s i <> at_ substr 0 -> ~ match_at s substr i.
Proof. intros Hne Hh Hm. by apply Hh, match_at_head. Qed.

Lemma take_drop_at (s : gostring) i k l1 c l2 :
  take k (drop i s) = l1 ++ c :: l2 -> at_ s (i + length l1) = c /\ forall j, (j < length l1)%nat -> at_ s (i + j) = at_ l1 j.
Proof.
  intros E. assert (drop i s = l1 ++ c :: l2 ++ drop k (drop i s)) as Ed.
  { rewrite <- (take_drop k (drop i s)) at 1. rewrite E, <- app_assoc. done. }
  split; [|intros j Hj]; rewrite at_drop, <- drop_drop, <- at_drop, Ed; unfold at_.
  - by rewrite app_nth2, Nat.sub_diag by lia.
  - by rewrite app_nth1.
Qed.

Lemma at_lookup (l : gostring) i : at_ l i = default 0 (l !! i).
Proof. unfold at_. by rewrite nth_lookup. Qed.

Lemma elem_at (l : gostring) j : (j < length l)%nat -> at_ l j ∈ l.
Proof. intros Hj. unfold at_. apply list_elem_of_In, nth_In. done. Qed.

(** Where the search for the first byte leads. *)
Lemma skip_to_head s substr i t :
  substr <> [] -> (i < t)%nat -> (t + length substr = length s + 1)%nat ->
  (forall j, (j < i)%nat -> ~ match_at s substr j) ->
  match
    (if negb (at_ s i =? at_ substr 0) then
       let o := IndexByte (cut s (Z.of_nat i + 1) (Z.of_nat t)) (at_ substr 0) in
       if o <? 0 then None else Some (Z.of_nat i + (o + 1))
     else Some (Z.of_nat i))
  with
  | None => forall j, ~ match_at s substr j
  | Some r => exists k, r = Z.of_nat k /\ (i <= k < t)%nat /\ forall j, (j < k)%nat -> ~ match_at s substr j
  end.
Proof.
  intros Hne Hit Ht Hno. assert (0 < length substr)%nat by (destruct substr; [done|simpl; lia]).
  destruct (Z.eqb_spec (at_ s i) (at_ substr 0)) as [_|Hh]; cbn [negb].
  { exists i. split; [done|]. split; [lia|done]. }
  pose proof (no_head_no_match _ _ _ Hne Hh) as Hi. unfold IndexByte, IndexByteString, cut.
  replace (Z.to_nat (Z.of_nat i + 1)) with (i + 1)%nat by lia. replace (Z.to_nat (Z.of_nat t - (Z.of_nat i + 1))) with (t - (i + 1))%nat by lia.
  destruct (IndexByteString_from_spec (take (t - (i + 1)) (drop (i + 1) s)) (at_ substr 0) 0) as [[Hn ->]|(l1 & l2 & E & Hn & ->)]; cbv zeta.
  - change (-1 <? 0) with true. cbv iota. intros j Hj. pose proof (match_at_bound _ _ _ Hj Hne).
    destruct (Nat.lt_trichotomy j i) as [Hlt|[->|Hgt]]; [by apply (Hno j)|done|].
    apply match_at_head in Hj; [|done]. apply Hn. rewrite <- Hj.
    assert (at_ (take (t - (i + 1)) (drop (i + 1) s)) (j - (i + 1)) = at_ s j) as <-.
    { rewrite !at_lookup, lookup_take_lt, lookup_drop by lia. do 2 f_equal. lia. }
    apply elem_at. rewrite length_take, length_drop. lia.
  - pose proof (len_nonneg l1). rewrite (proj2 (Z.ltb_ge _ 0)) by lia. exists (i + 1 + length l1)%nat.
    split; [unfold len; lia|]. pose proof (f_equal length E) as El. rewrite length_take, length_drop, length_app in El. cbn [length] in El.
    split; [lia|]. intros j Hj. destruct (Nat.lt_trichotomy j i) as [Hlt|[->|Hgt]]; [by apply Hno|done|].
    apply no_head_no_match; [done|]. destruct (take_drop_at _ _ _ _ _ _ E) as [_ Hat]. specialize (Hat (j - (i + 1))%nat ltac:(lia)).
    replace (i + 1 + (j - (i + 1)))%nat with j in Hat by lia. rewrite Hat. intros Heq. apply Hn. rewrite <- Heq. apply elem_at. lia.
Qed.

Lemma Index_loop_spec fuel s substr i t fails :
  2 <= len substr < 2 ^ 63 -> (t + length substr = length s + 1)%nat -> (t - i < fuel)%nat ->
  (forall j, (j < i)%nat -> ~ match_at s substr j) ->
  first_match s substr (Index_loop fuel s substr (Z.of_nat i) (Z.of_nat t) fails).
Proof.
  intros Hl Ht. assert (substr <> []) as Hne by (intros ->; change (@len Z []) with 0 in Hl; lia).
  assert (0 < length substr)%nat by (destruct substr; [done|simpl; lia]).
  revert i fails. induction fuel as [|fuel IH]; intros i fails Hf Hno; [lia|]. cbn [Index_loop].
  destruct (Z.ltb_spec (Z.of_nat i) (Z.of_nat t)) as [Hit|Hit].
  2: { left. split; [done|]. intros j Hj. apply (Hno j); [|done]. pose proof (match_at_bound _ _ _ Hj Hne). lia. }
  rewrite Nat2Z.id. pose proof (skip_to_head s substr i t Hne ltac:(lia) Ht Hno) as Hs. cbv zeta in Hs |- *.
  destruct (if negb (at_ s i =? at_ substr 0) then _ else _) as [r|]; [|by left]. destruct Hs as (k & -> & Hk & Hno').
  replace (Z.to_nat (Z.of_nat k + 1)) with (k + 1)%nat by lia.
  assert (cut s (Z.of_nat k) (Z.of_nat k + len substr) = substr <-> match_at s substr k) as Hcut by (rewrite cut_match, Nat2Z.id by lia; done).
  destruct ((_ =? _) && _) eqn:E.
  { apply andb_true_iff in E as [_ E]. rewrite bool_decide_eq_true, Hcut in E. right. by exists k. }
  assert (~ match_at s substr k) as Hnk.
  { intros Hm. apply andb_false_iff in E as [E|E].
    - apply Z.eqb_neq in E. apply E, match_at_second; [done|lia].
    - rewrite bool_decide_eq_false in E. by apply E, Hcut. }
  assert (forall j, (j < S k)%nat -> ~ match_at s substr j) as Hno2.
  { intros j Hj. destruct (decide (j = k)) as [->|]; [done|]. apply Hno'. lia. }
  replace (Z.of_nat k + 1) with (Z.of_nat (S k)) by lia.
  destruct (_ && (_ <? _)) eqn:E2.
  - apply andb_true_iff in E2 as [_ E2]. zbool. replace (k + 1)%nat with (S k) by lia. apply first_match_drop; [done|].
    apply IndexRabinKarp_spec; [done| |lia]. rewrite length_drop. lia.
  - apply IH; [lia|done].
Qed.

Lemma IndexByte_first s c : first_match s [c] (IndexByte s c).
Proof.
  unfold IndexByte, IndexByteString. destruct (IndexByteString_from_spec s c 0) as [[Hn ->]|(l1 & l2 & -> & Hn & ->)].
  - left. split; [done|]. intros i Hm. pose proof (match_at_bound _ _ _ Hm ltac:(done)) as Hb. apply match_at_head in Hm; [|done].
    apply Hn. change c with (at_ [c] 0). rewrite <- Hm. apply elem_at. simpl in Hb. lia.
  - right. exists (length l1). split; [unfold len; lia|]. split; [apply (match_at_intro l1 [c] l2)|]. intros j Hj Hm.
    apply match_at_head in Hm; [|done]. change (at_ [c] 0) with c in Hm. apply Hn. rewrite <- Hm. unfold at_. rewrite app_nth1 by done. by apply elem_at.
Qed.

(** Index finds the first match. *)
Lemma Index_first s substr : len substr < 2 ^ 63 -> first_match s substr (Index s substr).
Proof.
  intros Hmax. unfold Index. cbv zeta. pose proof (len_nonneg substr). destruct (Z.eqb_spec (len substr) 0) as [E0|H0].
  { assert (substr = []) as -> by (destruct substr; [done|rewrite len_cons in E0; pose proof (len_nonneg substr); lia]).
    right. exists 0%nat. split_and!; [done|done|lia]. }
  assert (substr <> []) as Hne by (by intros ->).
  destruct (Z.eqb_spec (len substr) 1) as [E1|H1].
  { destruct substr as [|c [|d l]]; [done| |rewrite !len_cons in E1; pose proof (len_nonneg l); lia]. apply IndexByte_first. }
  destruct (Z.eqb_spec (len substr) (len s)) as [Es|Hs].
  { case_bool_decide as E.
    - right. exists 0%nat. subst. split_and!; [done| |lia]. unfold match_at. by rewrite drop_0, firstn_all.
    - left. split; [done|]. intros i Hm. pose proof (match_at_bound _ _ _ Hm Hne). unfold len in Es. assert (i = 0%nat) as -> by lia.
      unfold match_at in Hm. rewrite drop_0, take_ge in Hm by lia. by subst. }
  destruct (Z.ltb_spec (len s) (len substr)) as [Hlt|Hge].
  { left. split; [done|]. intros i Hm. pose proof (match_at_bound _ _ _ Hm Hne). unfold len in Hlt. lia. }
  replace (len s - len substr + 1) with (Z.of_nat (length s - length substr + 1)) by (unfold len in *; lia).
  change 0 with (Z.of_nat 0) at 1. unfold len in *. apply Index_loop_spec; unfold len; lia || (intros; lia).
Qed.

Lemma Index_cases s sep :
  sep <> [] -> len sep < 2 ^ 63 ->
  (Index s sep = -1 /\ forall i, ~ match_at s sep i) \/
  (exists a b, s = a ++ sep ++ b /\ Index s sep = len a /\ forall j, (j < length a)%nat -> ~ match_at s sep j).
Proof.
  intros Hne Hmax. destruct (Index_first s sep Hmax) as [H|(i & Hi & Hm & Hno)]; [by left|right].
  pose proof (match_at_bound _ _ _ Hm Hne). exists (take i s), (drop (i + length sep) s).
  assert (length (take i s) = i) as Hl by (rewrite length_take; lia).
  split; [by apply match_at_app|]. unfold len. rewrite Hl. done.
Qed.

(** ** Splitting *)

(** No match in a string. *)
Definition free_of (sep s : gostring) : Prop := forall i, ~ match_at s sep i.

(** A match in the part before the first match would be an earlier one. *)
Lemma free_before a sep b :
  sep <> [] -> (forall j, (j < length a)%nat -> ~ match_at (a ++ sep ++ b) sep j) -> free_of sep a.
Proof.
  intros Hne Hno i Hm. pose proof (match_at_bound _ _ _ Hm Hne). assert (0 < length sep)%nat by (destruct sep; [done|simpl; lia]).
  apply (Hno i); [lia|]. unfold match_at in *. rewrite drop_app_le, take_app_le by (rewrite ?length_drop; lia). done.
Qed.

Lemma drop_sep (a sep b : gostring) : drop (Z.to_nat (len a + len sep)) (a ++ sep ++ b) = b.
Proof.
  unfold len. replace (Z.to_nat (Z.of_nat (length a) + Z.of_nat (length sep))) with (length a + length sep)%nat by lia.
  by rewrite app_assoc, <- length_app, drop_app_length.
Qed.

Lemma Join_cons e es sep : es <> [] -> Join (e :: es) sep = e ++ sep ++ Join es sep.
Proof. destruct es as [|e' es]; [done|]. intros _. cbn [Join map concat]. by rewrite <- !app_assoc. Qed.

Lemma genSplit_nonempty k s sep save : genSplit_loop k s sep save <> [].
Proof. destruct k; cbn [genSplit_loop]; [done|]. cbv zeta. by destruct (_ <? 0). Qed.

(** The pieces and their separators are the string; all but the last are free of the
    separator, and the last one too if there were enough rounds. *)
Lemma genSplit_loop_spec k s sep :
  sep <> [] -> len sep < 2 ^ 63 ->
  let parts := genSplit_loop k s sep 0 in
  Join parts sep = s /\ Forall (free_of sep) (removelast parts) /\
  (length parts <= k + 1)%nat /\ ((length parts <= k)%nat -> Forall (free_of sep) parts).
Proof.
  intros Hne Hmax. revert s. induction k as [|k IH]; intros s; cbn [genSplit_loop]; cbv zeta.
  { cbn. rewrite app_nil_r. split_and!; [done|constructor|lia|lia]. }
  destruct (Index_cases s sep Hne Hmax) as [[-> Hno]|(a & b & -> & -> & Hno)].
  { cbn. rewrite app_nil_r. split_and!; [done|constructor|lia|]. intros _. by repeat constructor. }
  pose proof (len_nonneg a). rewrite (proj2 (Z.ltb_ge _ 0)), Z.add_0_r, drop_sep by lia.
  assert (take (Z.to_nat (len a)) (a ++ sep ++ b) = a) as -> by (unfold len; by rewrite Nat2Z.id, take_app_length).
  destruct (IH b) as (HJ & HF & HL & HA). pose proof (genSplit_nonempty k b sep 0) as Hnil.
  pose proof (free_before a sep b Hne Hno) as Hfa. split_and!.
  - by rewrite Join_cons, HJ.
  - destruct (genSplit_loop k b sep 0) as [|p ps] eqn:E; [done|]. cbn [removelast] in *. by constructor.
  - cbn [length]. lia.
  - cbn [length]. intros Hl. constructor; [done|]. apply HA. lia.
Qed.

Lemma Count_loop_add fuel s sep n : Count_loop fuel s sep n = n + Count_loop fuel s sep 0.
Proof.
  revert s n. induction fuel as [|fuel IH]; intros s n; cbn [Count_loop]; [lia|]. cbv zeta.
  destruct (_ =? -1); [lia|]. rewrite IH, (IH _ (0 + 1)). lia.
Qed.

Lemma Count_loop_unfold fuel a sep b :
  sep <> [] -> len sep < 2 ^ 63 -> (forall j, (j < length a)%nat -> ~ match_at (a ++ sep ++ b) sep j) ->
  Count_loop (S fuel) (a ++ sep ++ b) sep 0 = 1 + Count_loop fuel b sep 0.
Proof.
  intros Hne Hmax Hno. cbn [Count_loop]. cbv zeta.
  destruct (Index_first (a ++ sep ++ b) sep Hmax) as [[_ H]|(i & Hi & Hm & Hlt)].
  { destruct (H (length a)). apply match_at_intro. }
  assert (i = length a) as ->.
  { destruct (Nat.lt_trichotomy i (length a)) as [H|[H|H]]; [by destruct (Hno i)|done|]. destruct (Hlt _ H). apply match_at_intro. }
  rewrite Hi. rewrite (proj2 (Z.eqb_neq _ (-1))) by lia. fold (len a). rewrite drop_sep, Count_loop_add. lia.
Qed.

Lemma Count_loop_fuel fuel fuel' s sep :
  sep <> [] -> len sep < 2 ^ 63 -> (length s < fuel)%nat -> (length s < fuel')%nat ->
  Count_loop fuel s sep 0 = Count_loop fuel' s sep 0.
Proof.
  intros Hne Hmax. assert (0 < length sep)%nat by (destruct sep; [done|simpl; lia]).
  revert fuel' s. induction fuel as [|fuel IH]; intros [|fuel'] s Hf Hf'; try lia.
  destruct (Index_cases s sep Hne Hmax) as [[Hi Hno]|(a & b & -> & _ & Hno)].
  - cbn [Count_loop]. cbv zeta. by rewrite Hi.
  - rewrite !Count_loop_unfold by done. rewrite !length_app in *. rewrite (IH fuel' b); lia.
Qed.

Lemma CountString_app s1 s2 c : CountString (s1 ++ s2) c = CountString s1 c + CountString s2 c.
Proof. induction s1 as [|x s1 IH]; [done|]. simpl. destruct (x =? c); lia. Qed.

Lemma CountString_free s c : free_of [c] s -> CountString s c = 0.
Proof.
  intros Hf. assert (c ∉ s) as Hn.
  { intros [l1 [l2 ->]]%list_elem_of_split. apply (Hf (length l1)). apply (match_at_intro l1 [c] l2). }
  clear Hf. induction s as [|x s IH]; [done|]. simpl. rewrite not_elem_of_cons in Hn. destruct Hn.
  rewrite (proj2 (Z.eqb_neq x c)) by congruence. by apply IH.
Qed.

(** Count counts a first match and goes on behind it. *)
Lemma Count_unfold s sep :
  sep <> [] -> len sep < 2 ^ 63 ->
  (free_of sep s -> Count s sep = 0) /\
  (forall a b, s = a ++ sep ++ b -> (forall j, (j < length a)%nat -> ~ match_at s sep j) -> Count s sep = 1 + Count b sep).
Proof.
  intros Hne Hmax. unfold Count. rewrite (proj2 (Z.eqb_neq (len sep) 0)) by (destruct sep; [done|rewrite len_cons; pose proof (len_nonneg sep); lia]).
  destruct (Z.eqb_spec (len sep) 1) as [E1|H1].
  - destruct sep as [|c [|d l]]; [done| |rewrite !len_cons in E1; pose proof (len_nonneg l); lia]. change (at_ [c] 0) with c. split.
    + apply CountString_free.
    + intros a b -> Hno. rewrite !CountString_app, (CountString_free a) by (by eapply free_before). simpl. rewrite Z.eqb_refl. lia.
  - split.
    + intros Hf. cbn [Count_loop]. cbv zeta. destruct (Index_cases s sep Hne Hmax) as [[-> _]|(a & b & -> & _ & _)]; [done|].
      destruct (Hf (length a)). apply match_at_intro.
    + intros a b -> Hno. rewrite Count_loop_unfold by done. f_equal. assert (0 < length sep)%nat by (destruct sep; [done|simpl; lia]).
      apply Count_loop_fuel; [done|done| |lia]. rewrite !length_app. lia.
Qed.

(** Enough rounds leave only free pieces, one more than Count. *)
Lemma genSplit_count s sep :
  sep <> [] -> len sep < 2 ^ 63 ->
  exists c : nat, Count s sep = Z.of_nat c /\ (c <= length s)%nat /\
    forall k, (c <= k)%nat -> length (genSplit_loop k s sep 0) = S c /\ Forall (free_of sep) (genSplit_loop k s sep 0).
Proof.
  intros Hne Hmax. assert (0 < length sep)%nat by (destruct sep; [done|simpl; lia]).
  induction s as [s IH] using (induction_ltof1 _ (@length Z)). unfold ltof in IH.
  destruct (Count_unfold s sep Hne Hmax) as [H0 H1]. destruct (Index_cases s sep Hne Hmax) as [[Hi Hno]|(a & b & E & Hi & Hno)].
  - exists 0%nat. split; [by apply H0|]. split; [lia|]. intros k _. destruct k; cbn [genSplit_loop]; cbv zeta; rewrite ?Hi;
      (split; [done|]); constructor; done || constructor.
  - destruct (IH b) as (c & Hc & Hl & Hk); [rewrite E, !length_app; lia|]. exists (S c).
    rewrite (H1 a b E Hno), Hc. split; [lia|]. split; [rewrite E, !length_app; lia|]. intros [|k] Hck; [lia|]. cbn [genSplit_loop]. cbv zeta.
    rewrite Hi. pose proof (len_nonneg a). rewrite (proj2 (Z.ltb_ge _ 0)), Z.add_0_r by lia. rewrite E in *. rewrite drop_sep.
    assert (take (Z.to_nat (len a)) (a ++ sep ++ b) = a) as -> by (unfold len; by rewrite Nat2Z.id, take_app_length).
    destruct (Hk k ltac:(lia)) as [Hlen Hfree]. cbn [length]. split; [lia|]. constructor; [|done]. by eapply free_before.
Qed.

(** Split, one piece at a time. *)
Lemma Split_unfold s sep :
  sep <> [] -> len sep < 2 ^ 63 ->
  (free_of sep s -> Split s sep = [s]) /\
  (forall a b, s = a ++ sep ++ b -> (forall j, (j < length a)%nat -> ~ match_at s sep j) -> Split s sep = a :: Split b sep).
Proof.
  intros Hne Hmax.
  assert (forall t, Split t sep = genSplit_loop (Z.to_nat (Count t sep)) t sep 0) as HS.
  { intros t. destruct (genSplit_count t sep Hne Hmax) as (c & Hc & Hl & _). unfold Split, genSplit.
    rewrite (proj2 (Z.eqb_neq (len sep) 0)) by (destruct sep; [done|rewrite len_cons; pose proof (len_nonneg sep); lia]).
    cbn [Z.eqb]. change (-1 <? 0) with true. cbv iota zeta. rewrite Hc, (proj2 (Z.ltb_ge _ _)) by (unfold len; lia). f_equal. lia. }
  destruct (Count_unfold s sep Hne Hmax) as [H0 H1]. split.
  - intros Hf. by rewrite HS, H0.
  - intros a b E Hno. rewrite !HS, (H1 a b E Hno). destruct (genSplit_count b sep Hne Hmax) as (c & -> & _).
    replace (Z.to_nat (1 + Z.of_nat c)) with (S c) by lia. rewrite Nat2Z.id. cbn [genSplit_loop]. cbv zeta.
    assert (Index s sep = len a) as ->.
    { destruct (Index_first s sep Hmax) as [[_ Hn]|(i & -> & Hm & Hlt)].
      - destruct (Hn (length a)). rewrite E. apply match_at_intro.
      - unfold len. f_equal. destruct (Nat.lt_trichotomy i (length a)) as [Hi|[Hi|Hi]]; [by destruct (Hno i)|done|].
        destruct (Hlt _ Hi). rewrite E. apply match_at_intro. }
    pose proof (len_nonneg a). rewrite (proj2 (Z.ltb_ge _ 0)), Z.add_0_r by lia. rewrite E, drop_sep. f_equal.
    unfold len. by rewrite Nat2Z.id, take_app_length.
Qed.

Lemma free_of_byte c s : free_of [c] s <-> c ∉ s.
Proof.
  split.
  - intros Hf [l1 [l2 ->]]%list_elem_of_split. apply (Hf (length l1)). apply (match_at_intro l1 [c] l2).
  - intros Hn i Hm. pose proof (match_at_bound _ _ _ Hm ltac:(done)) as Hb. apply match_at_head in Hm; [|done].
    apply Hn. change c with (at_ [c] 0). rewrite <- Hm. unfold at_. apply list_elem_of_In, nth_In. simpl in Hb. lia.
Qed.

(** Joining with a byte that is in none of the pieces is undone by splitting. *)
Lemma Split_nonempty s sep : sep <> [] -> Split s sep <> [].
Proof.
  intros Hne. unfold Split, genSplit. rewrite (proj2 (Z.eqb_neq (len sep) 0)) by (destruct sep; [done|rewrite len_cons; pose proof (len_nonneg sep); lia]).
  cbn [Z.eqb]. cbv zeta. destruct (Z.to_nat _); cbn [genSplit_loop]; [done|]. cbv zeta. by destruct (_ <? _).
Qed.

Lemma Split_Join c parts : parts <> [] -> Forall (fun p => c ∉ p) parts -> Split (Join parts [c]) [c] = parts.
Proof.
  assert (len [c] < 2 ^ 63) as Hmax by done. induction parts as [|p parts IH]; [done|]. intros _ Hp. apply Forall_cons in Hp as [Hp Hps].
  destruct parts as [|p2 parts].
  - cbn. rewrite app_nil_r. by apply Split_unfold, free_of_byte.
  - rewrite Join_cons by done. rewrite <- IH at 2 by done. apply (proj2 (Split_unfold _ [c] ltac:(done) Hmax)); [done|].
    intros j Hj Hm. apply match_at_head in Hm; [|done]. apply Hp. change (at_ [c] 0) with c in Hm. rewrite <- Hm. unfold at_.
    rewrite app_nth1 by done. by apply list_elem_of_In, nth_In.
Qed.

(** Cutting at a byte. *)
Lemma Cut_byte c s :
  (c ∉ s /\ Cut s [c] = (s, [], false)) \/ (exists a b, s = a ++ c :: b /\ c ∉ a /\ Cut s [c] = (a, b, true)).
Proof.
  unfold Cut. cbv zeta. destruct (Index_cases s [c]) as [[-> Hno]|(a & b & E & -> & Hno)]; [done|done| |].
  - left. split; [by apply free_of_byte|done].
  - right. exists a, b. split; [done|]. pose proof (len_nonneg a). rewrite (proj2 (Z.leb_le 0 _)) by lia.
    rewrite E in *. rewrite drop_sep. split; [by apply free_of_byte; eapply free_before|].
    by assert (take (Z.to_nat (len a)) (a ++ [c] ++ b) = a) as -> by (unfold len; by rewrite Nat2Z.id, take_app_length).
Qed.

Lemma explode_loop_concat k s : concat (explode_loop k s) = s.
Proof.
  revert s. induction k as [|k IH]; intros s; cbn [explode_loop]; [apply app_nil_r|].
  destruct (DecodeRuneInString s) as [r size]. cbn [concat]. by rewrite IH, take_drop.
Qed.

Lemma Split_empty s : bytes_ok s -> concat (Split s []) = s.
Proof.
  intros Hs. unfold Split, genSplit, explode, RuneCountInString, RuneCount. cbn [Z.eqb]. change (@len Z [] =? 0) with true. cbv iota zeta.
  change (-1 <? 0) with true. cbn [orb]. rewrite RuneCount_loop_runes, Z.add_0_l by done. destruct s as [|c s]; [done|].
  cbn [length runes]. destruct (DecodeRune (c :: s)) as [r n]. rewrite len_cons.
  match goal with |- context [len ?l] => pose proof (len_nonneg l) end.
  rewrite (proj2 (Z.ltb_lt 0 _)) by lia. apply explode_loop_concat.
Qed.

(** Searching and splitting are exact.  Index finds the first match or none,
    whether by bytes, by comparing, or by the rolling hash of Rabin and Karp.  Split
    gives one piece more than Count counts; none of the pieces contains the separator,
    and joined with it they are the string again; SplitN gives at most n pieces that
    join to the string, all but the last free of the separator.  Without a separator,
    the pieces make up the string. *)
Theorem split_exact s sep n :
  sep <> [] -> len sep < 2 ^ 63 -> bytes_ok s -> 0 < n ->
  first_match s sep (Index s sep) /\
  (Join (Split s sep) sep = s /\ Forall (free_of sep) (Split s sep) /\ len (Split s sep) = Count s sep + 1) /\
  (Join (SplitN s sep n) sep = s /\ len (SplitN s sep n) <= n /\ Forall (free_of sep) (removelast (SplitN s sep n))) /\
  concat (Split s []) = s.
Proof.
  intros Hne Hmax Hs Hn. split; [by apply Index_first|].
  assert (len sep =? 0 = false) as E0 by (apply Z.eqb_neq; destruct sep; [done|rewrite len_cons; pose proof (len_nonneg sep); lia]).
  destruct (genSplit_count s sep Hne Hmax) as (c & Hc & Hl & Hk). split_and!.
  - unfold Split, genSplit. rewrite E0. by apply genSplit_loop_spec.
  - unfold Split, genSplit. rewrite E0, Hc. apply Hk. cbn [Z.eqb]. change (-1 <? 0) with true. cbv iota.
    destruct (Z.ltb_spec (len s + 1) (Z.of_nat c + 1)); unfold len in *; lia.
  - unfold Split, genSplit. rewrite E0, Hc. cbn [Z.eqb]. change (-1 <? 0) with true. cbv iota zeta.
    rewrite (proj2 (Z.ltb_ge (len s + 1) _)) by (unfold len; lia). unfold len. rewrite (proj1 (Hk (Z.to_nat (Z.of_nat c + 1 - 1)) ltac:(lia))). lia.
  - unfold SplitN, genSplit. rewrite E0, (proj2 (Z.eqb_neq n 0)) by lia. by apply genSplit_loop_spec.
  - unfold SplitN, genSplit. rewrite E0, (proj2 (Z.eqb_neq n 0)), (proj2 (Z.ltb_ge n 0)) by lia. cbv zeta.
    set (k := Z.to_nat _). destruct (genSplit_loop_spec k s sep Hne Hmax) as (_ & _ & HL & _). unfold len in *.
    subst k. pose proof (Nat2Z.is_nonneg (length s)). destruct (Z.ltb_spec (Z.of_nat (length s) + 1) n); lia.
  - unfold SplitN, genSplit. rewrite E0, (proj2 (Z.eqb_neq n 0)) by lia. by apply genSplit_loop_spec.
  - by apply Split_empty.
Qed.

Lemma split_exact_witness :
  Join (Split (str "a, b") (str ",")) (str ",") = str "a, b" /\ first_match (str "aaab") (str "ab") (Index (str "aaab") (str "ab")).
Proof.
  split.
  - apply (split_exact (str "a, b") (str ",") 1 ltac:(discriminate) ltac:(lit) ltac:(lit) ltac:(lia)).
  - apply (split_exact (str "aaab") (str "ab") 1 ltac:(discriminate) ltac:(lit) ltac:(lit) ltac:(lia)).
Defined.

(** ** Trimming *)

Section trim.
Context (f : Z -> bool) (f_error : f RuneError = false).

(** A text all of whose runes satisfy [f]. *)
Definition all_runes (t : gostring) : Prop := exists rs, Forall (fun r => ValidRune r = true /\ f r = true) rs /\ t = text rs.

Lemma all_nil : all_runes [].
Proof. by exists []. Qed.

Lemma all_cons r t : ValidRune r = true -> f r = true -> all_runes t -> all_runes (encoding r ++ t).
Proof. intros Hv Hf (rs & Hrs & ->). exists (r :: rs). split; [by constructor|]. by rewrite text_cons. Qed.

Lemma all_app t1 t2 : all_runes t1 -> all_runes t2 -> all_runes (t1 ++ t2).
Proof.
  intros (r1 & H1 & ->) (r2 & H2 & ->). exists (r1 ++ r2). split; [by apply Forall_app|]. unfold text. by rewrite map_app, concat_app.
Qed.

Lemma all_one r : ValidRune r = true -> f r = true -> all_runes (encoding r).
Proof. intros. rewrite <- (app_nil_r (encoding r)). apply all_cons; [done..|apply all_nil]. Qed.

(** The first rune of what is left of a trimmed string. *)
Definition starts_ok (t : gostring) : Prop := f (fst (DecodeRune t)) = false.
Definition ends_ok (t : gostring) : Prop := f (fst (DecodeLastRune t)) = false.

Lemma indexFunc_loop_spec fuel s i :
  bytes_ok s -> (length s <= fuel)%nat ->
  (indexFunc_loop fuel s f false i = -1 /\ all_runes s) \/
  (exists front rest, s = front ++ rest /\ all_runes front /\ starts_ok rest /\ indexFunc_loop fuel s f false i = i + len front).
Proof using f_error.
  revert s i. induction fuel as [|fuel IH]; intros s i Hs Hf.
  { destruct s; [|simpl in Hf; lia]. left. split; [done|apply all_nil]. }
  destruct s as [|c s]; [left; split; [done|apply all_nil]|]. cbn [indexFunc_loop]. unfold DecodeRuneInString.
  destruct (DecodeRune_cases (c :: s) Hs ltac:(done)) as [(r & rest & Hv & Heq & HD)|(HD & _ & _)]; rewrite HD.
  - destruct (f r) eqn:Hfr; cbn [Bool.eqb].
    + rewrite Heq, drop_encoding. pose proof (length_drop_encoding r rest Hv) as Hl. rewrite <- Heq in Hl. cbn [length] in Hl, Hf.
      rewrite Heq in Hs. apply Forall_app in Hs as [_ Hs].
      destruct (IH rest (i + len (encoding r)) Hs ltac:(lia)) as [[-> Ha]|(fr & re & -> & Ha & Hst & ->)].
      * left. split; [done|]. by apply all_cons.
      * right. exists (encoding r ++ fr), re. rewrite <- app_assoc. split; [done|]. split; [by apply all_cons|]. split; [done|]. rewrite len_app. lia.
    + right. exists [], (c :: s). split_and!; [done|apply all_nil| |change (@len Z []) with 0; lia]. unfold starts_ok. by rewrite HD.
  - rewrite f_error. cbn [Bool.eqb]. right. exists [], (c :: s). split_and!; [done|apply all_nil| |change (@len Z []) with 0; lia].
    unfold starts_ok. by rewrite HD.
Qed.

Lemma starts_nil : starts_ok [].
Proof using f_error. exact f_error. Qed.

Lemma TrimLeftFunc_spec s :
  bytes_ok s -> exists front, s = front ++ TrimLeftFunc s f /\ all_runes front /\ starts_ok (TrimLeftFunc s f).
Proof using f_error.
  intros Hs. unfold TrimLeftFunc, indexFunc. cbv zeta.
  destruct (indexFunc_loop_spec (length s) s 0 Hs ltac:(lia)) as [[-> Ha]|(fr & re & E & Ha & Hst & ->)].
  - exists s. rewrite app_nil_r. split_and!; [done|done|apply starts_nil].
  - pose proof (len_nonneg fr). rewrite (proj2 (Z.eqb_neq _ (-1))), Z.add_0_l by lia. exists fr.
    assert (drop (Z.to_nat (len fr)) s = re) as -> by (rewrite E; unfold len; by rewrite Nat2Z.id, drop_app_length). done.
Qed.

(** The last rune for which [f] is false: [w], a valid rune or one bad byte. *)
Lemma lastIndexFunc_loop_spec fuel s p back :
  bytes_ok s -> s = p ++ back -> all_runes back -> (length p <= fuel)%nat ->
  (lastIndexFunc_loop fuel s f false (len p) = -1 /\ all_runes s) \/
  (exists q w back', s = q ++ w ++ back' /\ all_runes back' /\ w <> [] /\ ends_ok (q ++ w) /\ 
     (DecodeLastRune (q ++ w) = (RuneError, 1) /\ len w = 1 /\ 128 <= at_ w 0 \/ exists r, ValidRune r = true /\ w = encoding r) /\
     lastIndexFunc_loop fuel s f false (len p) = len q).
Proof using f_error.
  intros Hs. revert p back. induction fuel as [|fuel IH]; intros p back E Hb Hf.
  { destruct p; [|simpl in Hf; lia]. left. by rewrite E. }
  cbn [lastIndexFunc_loop]. pose proof (len_nonneg p) as Hp0. destruct (Z.ltb_spec 0 (len p)) as [Hpos|Hz].
  2: { left. split; [done|]. destruct p; [by rewrite E|rewrite len_cons in Hz; pose proof (len_nonneg p); lia]. }
  assert (take (Z.to_nat (len p)) s = p) as -> by (rewrite E; unfold len; by rewrite Nat2Z.id, take_app_length).
  assert (bytes_ok p) as Hp by (rewrite E in Hs; by apply Forall_app in Hs as [? _]).
  assert (p <> []) as Hne by (intros ->; change (@len Z []) with 0 in Hpos; lia). unfold DecodeLastRuneInString.
  destruct (DecodeLastRune_cases p Hp Hne) as [(r & q & Hv & Heq & HD)|(HD & Hno)]; rewrite HD.
  - assert (len p - len (encoding r) = len q) as -> by (rewrite Heq, len_app; lia).
    pose proof (encoding_len r Hv) as [Hl _]. destruct (f r) eqn:Hfr; cbn [Bool.eqb].
    + apply (IH q (encoding r ++ back)); [by rewrite E, Heq, <- app_assoc|by apply all_cons|].
      rewrite Heq, length_app in Hf. unfold len in Hl. lia.
    + right. exists q, (encoding r), back. rewrite app_assoc, <- Heq. split_and!; [done|done| |unfold ends_ok; by rewrite HD|right; eauto|done].
      intros En. rewrite En in Hl. change (@len Z []) with 0 in Hl. lia.
  - rewrite f_error. cbn [Bool.eqb]. right. destruct p as [|c q _] using rev_ind; [done|]. exists q, [c], back. rewrite app_assoc.
    split_and!; [done|done|done|unfold ends_ok; by rewrite HD| |rewrite len_app; change (len [c]) with 1; lia].
    left. split; [done|]. split; [done|]. change (at_ [c] 0) with c. destruct (Z.le_gt_cases 128 c); [done|exfalso].
    apply (Hno c q); [|unfold encoding; by rewrite (proj2 (Z.ltb_lt c 128))]. apply Forall_app in Hp as [_ Hc]. apply Forall_cons in Hc as [Hc _].
    unfold is_byte in Hc. apply ValidRune_spec. lia.
Qed.

Lemma encoding_cons r : ValidRune r = true -> exists c l, encoding r = c :: l /\ RuneStart c = true /\ (128 <= c -> 128 <= r).
Proof using.
  intros Hv. destruct (Z.lt_ge_cases r 128) as [Hlt|Hge].
  - exists r, []. assert (encoding r = [r]) as E by (unfold encoding; by rewrite (proj2 (Z.ltb_lt r 128))). split; [done|]. apply ValidRune_spec in Hv.
    split; [|lia]. rewrite RuneStart_spec by (unfold is_byte; lia). by rewrite (proj2 (Z.leb_gt 128 r)).
  - destruct (encoding_parts r Hv Hge) as (lead & conts & E & Hl & _). eauto.
Qed.

(** A bad byte in front of a text is a bad byte by itself. *)
Lemma bad_before_text c back :
  bytes_ok (c :: back) -> 128 <= c -> all_runes back -> snd (DecodeRune (c :: back)) = 1.
Proof using.
  intros Hb Hc (rs & Hrs & ->). destruct (DecodeRune_cases (c :: text rs) Hb ltac:(done)) as [(r & rest & Hv & Heq & _)|(-> & _)]; [|done].
  exfalso. destruct (Z.lt_ge_cases r 128) as [Hlt|Hge].
  { unfold encoding in Heq. rewrite (proj2 (Z.ltb_lt r 128)) in Heq by lia. injection Heq as -> _. lia. }
  destruct (encoding_parts r Hv Hge) as (lead & conts & E & _ & Hcont & _ & Hl). rewrite E in Heq. injection Heq as <- Heq.
  destruct conts as [|c1 conts]; [simpl in Hl; lia|]. apply Forall_cons in Hcont as [Hc1 _].
  destruct rs as [|r' rs]; [done|]. apply Forall_cons in Hrs as [[Hr' _] _]. rewrite text_cons in Heq by done.
  destruct (encoding_cons r' Hr') as (c2 & l & E2 & Hst & _). rewrite E2 in Heq. injection Heq as -> _. congruence.
Qed.

Lemma take_prefix (q w back : gostring) : take (Z.to_nat (len q + len w)) (q ++ w ++ back) = q ++ w.
Proof using.
  unfold len. replace (Z.to_nat _) with (length (q ++ w)) by (rewrite length_app; lia). by rewrite app_assoc, take_app_length.
Qed.

Lemma TrimRightFunc_spec s :
  bytes_ok s -> exists back, s = TrimRightFunc s f ++ back /\ all_runes back /\ ends_ok (TrimRightFunc s f).
Proof using f_error.
  intros Hs. unfold TrimRightFunc, lastIndexFunc. cbv zeta.
  destruct (lastIndexFunc_loop_spec (length s) s s [] Hs ltac:(by rewrite app_nil_r) all_nil ltac:(lia))
    as [[-> Ha]|(q & w & back & E & Hb & Hw & Hends & Hcase & ->)].
  { exists s. split_and!; [done|done|exact f_error]. }
  exists back. pose proof (len_nonneg q). rewrite (proj2 (Z.leb_le 0 (len q))) by lia. cbn [andb].
  assert (drop (Z.to_nat (len q)) s = w ++ back) as Hd by (rewrite E; unfold len; by rewrite Nat2Z.id, drop_app_length).
  rewrite Hd. assert (at_ s (Z.to_nat (len q)) = at_ w 0) as ->.
  { rewrite at_drop, Hd. unfold at_. destruct w; [done|]. done. }
  assert ((if 128 <=? at_ w 0 then len q + snd (DecodeRuneInString (w ++ back)) else len q + 1) = len q + len w) as ->.
  2: { rewrite E, take_prefix. split_and!; [by rewrite <- app_assoc|done|done]. }
  assert (bytes_ok (w ++ back)) as Hwb by (rewrite E in Hs; by apply Forall_app in Hs as [_ ?]).
  unfold DecodeRuneInString. destruct Hcase as [(_ & H1 & H128)|(r & Hv & ->)].
  - destruct w as [|c [|d w]]; [done| |rewrite !len_cons in H1; pose proof (len_nonneg w); lia]. change (at_ [c] 0) with c in *.
    rewrite (proj2 (Z.leb_le 128 c)) by lia. cbn [app] in *. by rewrite bad_before_text.
  - destruct (Z.leb_spec 128 (at_ (encoding r) 0)) as [H128|H128]; [by rewrite decode_encoding|].
    destruct (Z.lt_ge_cases r 128) as [Hlt|Hge]; [unfold encoding; by rewrite (proj2 (Z.ltb_lt r 128))|].
    exfalso. destruct (encoding_parts r Hv Hge) as (lead & conts & E' & Hl & _). rewrite E' in H128. change (at_ (lead :: conts) 0) with lead in H128.
    pose proof (decode_encoding r [] Hv) as HD. pose proof (encoding_bytes r Hv) as Hbytes. rewrite E' in HD, Hbytes. apply Forall_cons in Hbytes as [Hbl _].
    cbn [app] in HD. rewrite DecodeRune_decoding in HD by done. unfold decoding in HD. rewrite (proj2 (Z.ltb_lt lead 128)) in HD by lia.
    injection HD as -> _. lia.
Qed.

(** Trimming the end leaves the start as it is. *)
Lemma starts_prefix t back : bytes_ok t -> starts_ok (t ++ back) -> starts_ok t.
Proof using f_error.
  intros Ht Hs. destruct t as [|c t]; [apply starts_nil|]. unfold starts_ok in *.
  destruct (DecodeRune_cases (c :: t) Ht ltac:(done)) as [(r & rest & Hv & Heq & HD)|(HD & _)]; rewrite HD.
  - by rewrite Heq, <- app_assoc, (decode_encoding r _ Hv) in Hs.
  - exact f_error.
Qed.

(** What trimming means: [t] is [s] without runes of [f] at both ends, and has none there. *)
Definition trimmed (s t : gostring) : Prop :=
  exists front back, s = front ++ t ++ back /\ all_runes front /\ all_runes back /\ starts_ok t /\ ends_ok t.

Lemma TrimFunc_spec s : bytes_ok s -> trimmed s (TrimFunc s f).
Proof using f_error.
  intros Hs. unfold TrimFunc. destruct (TrimLeftFunc_spec s Hs) as (front & E & Hf & Hst).
  assert (bytes_ok (TrimLeftFunc s f)) as Ht by (rewrite E in Hs; by apply Forall_app in Hs as [_ ?]).
  destruct (TrimRightFunc_spec _ Ht) as (back & E2 & Hb & He). exists front, back. rewrite <- E2. split_and!; [done|done|done| |done].
  rewrite E2 in Hst, Ht. apply Forall_app in Ht as [Ht _]. by eapply starts_prefix.
Qed.

End trim.

Lemma asciiSpace_IsSpace c : 0 <= c < 128 -> asciiSpace c = IsSpace c.
Proof.
  intros Hc. assert ((128 <=? c) || Bool.eqb (asciiSpace c) (IsSpace c) = true) as H.
  { assert (is_byte c) as Hb by (unfold is_byte; lia). clear Hc. revert c Hb. apply byte_enum. by vm_compute. }
  rewrite (proj2 (Z.leb_gt 128 c)) in H by lia. by apply eqb_prop.
Qed.

Lemma ascii_encoding c : 0 <= c < 128 -> ValidRune c = true /\ encoding c = [c].
Proof. intros Hc. split; [apply ValidRune_spec; lia|]. unfold encoding. by rewrite (proj2 (Z.ltb_lt c 128)) by lia. Qed.

Lemma ascii_space_runes c : 0 <= c < 128 -> asciiSpace c = true -> all_runes IsSpace [c].
Proof.
  intros Hc Ha. destruct (ascii_encoding c Hc) as [Hv <-]. apply all_one; [done|]. by rewrite <- asciiSpace_IsSpace.
Qed.

Lemma cut_app (a b c : gostring) i j : i = len a -> j = len a + len b -> cut (a ++ b ++ c) i j = b.
Proof.
  intros -> ->. unfold cut, len. replace (Z.to_nat (_ + _ - _)) with (length b) by lia. by rewrite Nat2Z.id, drop_app_length, take_app_length.
Qed.

Notation trimmed_space := (trimmed IsSpace).

Lemma space_error : IsSpace RuneError = false.
Proof. by vm_compute. Qed.

Lemma TrimSpace_stop_spec front mid back s :
  s = front ++ mid ++ back -> bytes_ok mid -> all_runes IsSpace front -> all_runes IsSpace back -> starts_ok IsSpace mid ->
  trimmed_space s (TrimSpace_stop s (len front) (length (front ++ mid))).
Proof.
  revert back. induction mid as [|c mid IH] using rev_ind; intros back E Hm Hf Hb Hst.
  - rewrite app_nil_r. cbn [app] in E.
    assert (cut s (len front) (Z.of_nat (length front)) = []) as Hcut by (unfold cut, len; by rewrite Z.sub_diag).
    assert (TrimSpace_stop s (len front) (length front) = []) as ->.
    { destruct (length front) as [|k] eqn:Hl; cbn [TrimSpace_stop].
      - change 0 with (Z.of_nat 0). exact Hcut.
      - rewrite (proj2 (Z.ltb_ge _ _)); [exact Hcut|]. unfold len. lia. }
    exists front, back. split_and!; [done|done|done|apply space_error|apply space_error].
  - assert (length (front ++ mid ++ [c]) = S (length (front ++ mid))) as El by (rewrite !length_app; simpl; lia). rewrite El. cbn [TrimSpace_stop].
    assert (Z.of_nat (S (length (front ++ mid))) = len front + len (mid ++ [c])) as Ez by (rewrite <- El, length_app; unfold len; lia).
    rewrite Ez. rewrite (proj2 (Z.ltb_lt _ _)) by (rewrite len_app; change (len [c]) with 1; pose proof (len_nonneg mid); lia).
    assert (at_ s (length (front ++ mid)) = c) as ->.
    { rewrite E, at_drop. rewrite <- app_assoc. rewrite (app_assoc front mid). by rewrite drop_app_length. }
    assert (cut s (len front) (len front + len (mid ++ [c])) = mid ++ [c]) as -> by (rewrite E; by apply cut_app).
    pose proof Hm as Hmc. apply Forall_app in Hmc as [Hm' Hc]. apply Forall_cons in Hc as [Hc _]. unfold is_byte in Hc. cbv zeta.
    destruct (Z.leb_spec 128 c) as [H128|Hlt]; [|destruct (asciiSpace c) eqn:Ha].
    + destruct (TrimRightFunc_spec IsSpace space_error _ Hm) as (b & E2 & Hb2 & He). exists front, (b ++ back).
      split_and!; [rewrite E; rewrite E2 at 1; by rewrite <- app_assoc|done|by apply all_app| |done].
      rewrite E2 in Hst, Hm. apply Forall_app in Hm as [Hm _]. by eapply starts_prefix; [apply space_error|exact Hm|exact Hst].
    + apply (IH ([c] ++ back)); [by rewrite E, <- app_assoc|done|done| |].
      * apply all_app; [|done]. apply ascii_space_runes; [lia|done].
      * by eapply starts_prefix; [apply space_error|done|exact Hst].
    + exists front, back. split_and!; [done|done|done|done|]. unfold ends_ok. destruct (ascii_encoding c ltac:(lia)) as [Hv Ec].
      rewrite <- Ec, decode_last_encoding by done. simpl. by rewrite <- asciiSpace_IsSpace by lia.
Qed.

Lemma TrimSpace_start_spec front rest :
  bytes_ok rest -> all_runes IsSpace front ->
  trimmed_space (front ++ rest) (TrimSpace_start (front ++ rest) rest (len front)).
Proof.
  revert front. induction rest as [|c rest IH]; intros front Hr Hf; cbn [TrimSpace_start].
  - apply (TrimSpace_stop_spec front [] []); [by rewrite !app_nil_r|done|done|apply all_nil|apply space_error].
  - pose proof (Forall_cons_1 _ _ _ Hr) as [Hc Hr']. unfold is_byte in Hc. destruct (Z.leb_spec 128 c) as [H128|Hlt].
    { destruct (TrimFunc_spec IsSpace space_error (c :: rest) Hr) as (fr & ba & E & Hfr & Hba & Hst & He).
      exists (front ++ fr), ba. split_and!; [rewrite E at 1; by rewrite <- app_assoc|by apply all_app|done|done|done]. }
    destruct (asciiSpace c) eqn:Ha.
    + replace (len front + 1) with (len (front ++ [c])) by (rewrite len_app; done).
      assert (front ++ c :: rest = (front ++ [c]) ++ rest) as -> by (by rewrite <- app_assoc). apply IH; [done|].
      apply all_app; [done|]. apply ascii_space_runes; [lia|done].
    + apply (TrimSpace_stop_spec front (c :: rest) []); [by rewrite app_nil_r|done|done|apply all_nil|].
      unfold starts_ok. rewrite DecodeRune_decoding by (unfold is_byte; lia). unfold decoding. rewrite (proj2 (Z.ltb_lt c 128)) by lia. simpl.
      by rewrite <- asciiSpace_IsSpace by lia.
Qed.

(** TrimSpace removes exactly the white space at the ends.  Whatever the bytes,
    valid UTF-8 or not, what is cut off in front and behind are texts of white space
    runes, and what is left (found through the ASCII loops or through the runes)
    neither starts nor ends with a white space rune. *)
Theorem trim_space_exact s :
  bytes_ok s ->
  exists front back,
    s = front ++ TrimSpace s ++ back /\
    (exists rs, Forall (fun r => ValidRune r = true /\ IsSpace r = true) rs /\ front = concat (map (AppendRune []) rs)) /\
    (exists rs, Forall (fun r => ValidRune r = true /\ IsSpace r = true) rs /\ back = concat (map (AppendRune []) rs)) /\
    IsSpace (fst (DecodeRune (TrimSpace s))) = false /\ IsSpace (fst (DecodeLastRune (TrimSpace s))) = false.
Proof. intros Hs. exact (TrimSpace_start_spec [] s Hs (all_nil IsSpace)). Qed.

Lemma trim_space_exact_witness : IsSpace (fst (DecodeRune (TrimSpace [32; 194; 160; 65; 32]))) = false.
Proof. destruct (trim_space_exact [32; 194; 160; 65; 32] ltac:(lit)) as (front & back & _ & _ & _ & H & _). exact H. Defined.
