(* ===== verification/Url.v ===== *)
(** * net/url: escaping and query strings

    [tools/go-patched/src/net/url/url.go]: escape and unescape in every mode, and the
    values of a query string, from which the API handlers of the proxy take their
    parameters. *)

From stdpp Require Import sorting.
From S2P Require Import Prelude HostPort Utf8 Unicode Strings.
Local Open Scope go_scope.
Local Set Warnings "-clear-no-such-hyp".

(** ** Escaping *)

Inductive encoding : Type :=
  | encodePath
  | encodePathSegment
  | encodeHost
  | encodeZone
  | encodeUserPassword
  | encodeQueryComponent
  | encodeFragment.

#[export] Instance encoding_eq_dec : EqDecision encoding.
Proof. solve_decision. Defined.

Notation plus := 43 (only parsing).
Notation space := 32 (only parsing).
Notation amp := 38 (only parsing).
Notation equals := 61 (only parsing).

Definition ishex (c : Z) : bool :=
  if (48 <=? c) && (c <=? 57) then true
  else if (97 <=? c) && (c <=? 102) then true
  else (65 <=? c) && (c <=? 70).

Definition unhex (c : Z) : Z :=
  if (48 <=? c) && (c <=? 57) then c - 48
  else if (97 <=? c) && (c <=? 102) then c - 97 + 10
  else if (65 <=? c) && (c <=? 70) then c - 65 + 10
  else 0.

Definition among (c : Z) (l : gostring) : bool := bool_decide (c ∈ l).

Definition shouldEscape (c : Z) (mode : encoding) : bool :=
  if ((97 <=? c) && (c <=? 122)) || ((65 <=? c) && (c <=? 90)) || ((48 <=? c) && (c <=? 57)) then false
  else if bool_decide (mode = encodeHost \/ mode = encodeZone) && among c (str "!$&'()*+,;=:[]<>" ++ [34]) then false
  else if among c (str "-_.~") then false
  else
    match among c (str "$&+,/:;=?@"), mode with
    | true, encodePath => c =? 63
    | true, encodePathSegment => among c (str "/;,?")
    | true, encodeUserPassword => among c (str "@/?:")
    | true, encodeQueryComponent => true
    | true, encodeFragment => false
    | _, _ => negb (bool_decide (mode = encodeFragment) && among c (str "!()*"))
    end.

(** The first loop of unescape, at what is left of the string: the number of percent
    signs and whether there is a plus that stands for a space. *)
Fixpoint unescape_check (s : gostring) (mode : encoding) (n : Z) (hasPlus : bool) : result (Z * bool) :=
  match s with
  | [] => Ok (n, hasPlus)
  | c :: s' =>
      if c =? percent then
        match s' with
        | a :: b :: s'' =>
            if negb (ishex a) || negb (ishex b) then Err (EscapeError (take 3 s))
            else if bool_decide (mode = encodeHost) && (unhex a <? 8) && negb (bool_decide (take 3 s = str "%25"))
            then Err (EscapeError (take 3 s))
            else if bool_decide (mode = encodeZone) && negb (bool_decide (take 3 s = str "%25"))
                    && negb (u8 (unhex a << 4) .| unhex b =? space) && shouldEscape (u8 (unhex a << 4) .| unhex b) encodeHost
            then Err (EscapeError (take 3 s))
            else unescape_check s'' mode (n + 1) hasPlus
        | _ => Err (EscapeError (take 3 s))
        end
      else if c =? plus then unescape_check s' mode n (bool_decide (mode = encodeQueryComponent))
      else if bool_decide (mode = encodeHost \/ mode = encodeZone) && (c <? 128) && shouldEscape c mode
      then Err (InvalidHostError [c])
      else unescape_check s' mode n hasPlus
  end.

(** The second loop, which builds the result. *)
Fixpoint unescape_build (s : gostring) (mode : encoding) : gostring :=
  match s with
  | [] => []
  | c :: s' =>
      if c =? percent then
        match s' with
        | a :: b :: s'' => u8 (unhex a << 4) .| unhex b :: unescape_build s'' mode
        | _ => []
        end
      else if c =? plus then (if bool_decide (mode = encodeQueryComponent) then space else plus) :: unescape_build s' mode
      else c :: unescape_build s' mode
  end.

Definition unescape (s : gostring) (mode : encoding) : result gostring :=
  match unescape_check s mode 0 false with
  | Err e => Err e
  | Ok (n, hasPlus) => if (n =? 0) && negb hasPlus then Ok s else Ok (unescape_build s mode)
  end.

Definition QueryUnescape (s : gostring) : result gostring := unescape s encodeQueryComponent.
Definition PathUnescape (s : gostring) : result gostring := unescape s encodePathSegment.

Definition upperhex (d : Z) : Z := nth (Z.to_nat d) (str "0123456789ABCDEF") 0.

(** The first loop of escape: spaces that become a plus, and bytes that become hex. *)
Fixpoint escape_counts (s : gostring) (mode : encoding) : Z * Z :=
  match s with
  | [] => (0, 0)
  | c :: s =>
      let '(spaceCount, hexCount) := escape_counts s mode in
      if shouldEscape c mode then
        if (c =? space) && bool_decide (mode = encodeQueryComponent) then (spaceCount + 1, hexCount)
        else (spaceCount, hexCount + 1)
      else (spaceCount, hexCount)
  end.

(** The last loop. *)
Fixpoint escape_build (s : gostring) (mode : encoding) : gostring :=
  match s with
  | [] => []
  | c :: s =>
      if (c =? space) && bool_decide (mode = encodeQueryComponent) then plus :: escape_build s mode
      else if shouldEscape c mode then percent :: upperhex (c >> 4) :: upperhex (c .& 15) :: escape_build s mode
      else c :: escape_build s mode
  end.

Definition escape (s : gostring) (mode : encoding) : gostring :=
  let '(spaceCount, hexCount) := escape_counts s mode in
  if (spaceCount =? 0) && (hexCount =? 0) then s
  else if hexCount =? 0 then map (fun c => if c =? space then plus else c) s
  else escape_build s mode.

Definition QueryEscape (s : gostring) : gostring := escape s encodeQueryComponent.
Definition PathEscape (s : gostring) : gostring := escape s encodePathSegment.

(** ** Query strings *)

Notation Values := (gmap (list Z) (list (list Z))) (only parsing).

Definition Get (v : Values) (key : gostring) : gostring :=
  match v !! key with Some (value :: _) => value | _ => [] end.
Definition Set_ (v : Values) (key value : gostring) : Values := <[key := [value]]> v.
Definition Add (v : Values) (key value : gostring) : Values := <[key := default [] (v !! key) ++ [value]]> v.
Definition Del (v : Values) (key : gostring) : Values := delete key v.
Definition Has (v : Values) (key : gostring) : bool := bool_decide (is_Some (v !! key)).

(** One setting: [key=value]; the error and the values so far. *)
Definition parse_setting (m : Values) (err : option error) (key : gostring) : Values * option error :=
  if Contains key (str ";") then (m, Some (OtherError (str "invalid semicolon separator in query")))
  else if len key =? 0 then (m, err)
  else
    let '(key, value, _) := Cut key (str "=") in
    let first e := match err with None => Some e | Some _ => err end in
    match QueryUnescape key with
    | Err e => (m, first e)
    | Ok key =>
        match QueryUnescape value with
        | Err e => (m, first e)
        | Ok value => (Add m key value, err)
        end
    end.

(** [for query != ""]: every round takes a byte or more. *)
Fixpoint parseQuery_loop (fuel : nat) (m : Values) (err : option error) (query : gostring) : Values * option error :=
  match fuel with
  | O => (m, err)
  | S fuel =>
      if len query =? 0 then (m, err)
      else
        let '(key, query, _) := Cut query (str "&") in
        let '(m, err) := parse_setting m err key in
        parseQuery_loop fuel m err query
  end.

Definition ParseQuery (query : gostring) : Values * option error := parseQuery_loop (length query) ∅ None query.

(** The bytes of two strings in order, as [sort.Strings] compares them. *)
Fixpoint string_le (s t : gostring) : bool :=
  match s, t with
  | [], _ => true
  | _ :: _, [] => false
  | a :: s, b :: t => if a <? b then true else if b <? a then false else string_le s t
  end.

(** [sort.Strings(keys)]: the sorted permutation of the keys. *)
Definition sort_Strings (keys : list gostring) : list gostring := merge_sort (fun s t => Is_true (string_le s t)) keys.

Definition encode_pair (buf key value : gostring) : gostring :=
  let buf := if 0 <? len buf then buf ++ [amp] else buf in
  (buf ++ QueryEscape key) ++ equals :: QueryEscape value.

Definition Encode (v : Values) : gostring :=
  if decide (v = ∅) then []
  else
    let keys := sort_Strings (elements (dom v)) in
    fold_left (fun buf k => fold_left (fun buf value => encode_pair buf k value) (default [] (v !! k)) buf) keys [].

Example url_examples :
  QueryEscape (str "a b&c=1%") = str "a+b%26c%3D1%25" /\ QueryUnescape (str "a+b%26c%3D1%25") = Ok (str "a b&c=1%") /\
  PathEscape (str "a b/c") = str "a%20b%2Fc" /\ QueryUnescape (str "50%") = Err (EscapeError (str "%")) /\
  unescape (str "a%20") encodeHost = Err (EscapeError (str "%20")) /\
  Get (fst (ParseQuery (str "q=nginx+alpine&x=%31&q=two"))) (str "q") = str "nginx alpine" /\
  Encode (Add (Add (Set_ ∅ (str "q") (str "a b")) (str "x") (str "1")) (str "q") (str "&")) = str "q=a+b&q=%26&x=1".
Proof. split_and!; vm_compute; reflexivity. Qed.

(** ** Escaping and unescaping are inverse *)

Lemma escape_counts_nonneg s mode : 0 <= fst (escape_counts s mode) /\ 0 <= snd (escape_counts s mode).
Proof.
  induction s as [|c s IH]; [done|]. cbn [escape_counts]. destruct (escape_counts s mode) as [a b]. simpl in IH.
  destruct (shouldEscape c mode), ((c =? space) && bool_decide (mode = encodeQueryComponent)); simpl; lia.
Qed.

Lemma space_escaped : shouldEscape space encodeQueryComponent = true.
Proof. reflexivity. Qed.

(** The fast paths of escape are its last loop. *)
Lemma escape_escape_build s mode : escape s mode = escape_build s mode.
Proof.
  unfold escape. destruct (escape_counts s mode) as [sp hx] eqn:E.
  assert (hx = 0 -> escape_build s mode = map (fun c => if (c =? space) && bool_decide (mode = encodeQueryComponent) then plus else c) s
          /\ (sp = 0 -> escape_build s mode = s)) as H.
  { revert sp hx E. induction s as [|c s IH]; intros sp hx; cbn [escape_counts escape_build map]; [done|].
    pose proof (escape_counts_nonneg s mode) as Hnn. destruct (escape_counts s mode) as [sp' hx'] eqn:E'. cbn [fst snd] in Hnn.
    specialize (IH sp' hx' eq_refl). destruct (_ && _) eqn:Es.
    - apply andb_true_iff in Es as [Ec Em]. apply Z.eqb_eq in Ec as ->. apply bool_decide_eq_true in Em as ->. rewrite space_escaped.
      intros [= <- <-] ->. destruct (IH eq_refl) as [-> _]. split; [done|lia].
    - destruct (shouldEscape c mode); intros [= <- <-]; [lia|]. intros ->. destruct (IH eq_refl) as [-> IH2]. split; [done|].
      intros H0. f_equal. rewrite <- (proj1 (IH eq_refl)). by apply IH. }
  destruct (Z.eqb_spec hx 0) as [->|Hhx]; [|by rewrite andb_false_r]. rewrite andb_true_r. destruct (H eq_refl) as [H1 H2].
  destruct (Z.eqb_spec sp 0) as [->|Hsp]; [by rewrite H2|]. rewrite H1. apply map_ext. intros c.
  rewrite (bool_decide_true (mode = encodeQueryComponent)), andb_true_r; [done|].
  destruct (decide (mode = encodeQueryComponent)) as [|Hm]; [done|exfalso]. clear H H1 H2. revert sp E Hsp.
  induction s as [|c' s IH]; intros sp; cbn [escape_counts]; [congruence|]. destruct (escape_counts s mode) as [sp' hx'] eqn:E'.
  rewrite (bool_decide_false _ Hm), andb_false_r. pose proof (escape_counts_nonneg s mode) as Hnn. rewrite E' in Hnn. cbn [fst snd] in Hnn.
  destruct (shouldEscape c' mode); intros [= <- E2]; [lia|]. apply IH. by rewrite E2.
Qed.

Lemma check_mono s mode : forall n hp n' hp', unescape_check s mode n hp = Ok (n', hp') ->
  n <= n' /\ (hp = true -> mode = encodeQueryComponent -> hp' = true) /\ (n' = n -> hp' = false -> unescape_build s mode = s).
Proof.
  induction s as [s IH] using (induction_ltof1 _ (@length Z)). unfold ltof in IH. intros n hp n' hp'.
  destruct s as [|c s]; cbn [unescape_check unescape_build]; [by intros [= <- <-]|].
  destruct (Z.eqb_spec c percent) as [->|Hp].
  { destruct s as [|a [|b s]]; try done.
    do 3 match goal with |- (if ?t then _ else _) = _ -> _ => destruct t; [done|] end. intros H. apply IH in H as (H1 & H2 & H3); [|simpl; lia].
    split_and!; [lia|done|lia]. }
  destruct (Z.eqb_spec c plus) as [->|Hq].
  { intros H. apply IH in H as (H1 & H2 & H3); [|simpl; lia]. split_and!; [done| |].
    - intros _ Hm. apply H2; [by apply bool_decide_eq_true|done].
    - intros Hn Hh. case_bool_decide as Hm; [|by rewrite H3]. rewrite H2 in Hh; done. }
  destruct (_ && _); [done|]. intros H. apply IH in H as (H1 & H2 & H3); [|simpl; lia]. split_and!; [done|done|]. intros. by rewrite H3.
Qed.

(** The fast path of unescape is its second loop. *)
Lemma unescape_unescape_build s mode :
  unescape s mode = match unescape_check s mode 0 false with Err e => Err e | Ok _ => Ok (unescape_build s mode) end.
Proof.
  unfold unescape. destruct (unescape_check s mode 0 false) as [[n hp]|e] eqn:E; [|done].
  destruct (_ && _) eqn:E2; [|done]. zbool. destruct (check_mono _ _ _ _ _ _ E) as (_ & _ & Hb). by rewrite Hb.
Qed.

(** The bytes that survive a mode: in a host name only bytes above ASCII (and the
    percent sign) may be escaped, in a zone only the percent sign and the space. *)
Definition representable (mode : encoding) (c : Z) : bool :=
  negb (shouldEscape c mode) ||
  match mode with
  | encodeHost => (128 <=? c) || (c =? percent)
  | encodeZone => (c =? percent) || (c =? space)
  | _ => true
  end.

(** What the loops do with an escaped byte, for every byte and mode. *)
Lemma hex_pair c :
  is_byte c ->
  ishex (upperhex (c >> 4)) = true /\ ishex (upperhex (c .& 15)) = true /\
  u8 (unhex (upperhex (c >> 4)) << 4) .| unhex (upperhex (c .& 15)) = c /\ (unhex (upperhex (c >> 4)) <? 8) = (c <? 128) /\
  bool_decide ([percent; upperhex (c >> 4); upperhex (c .& 15)] = str "%25") = (c =? percent).
Proof.
  intros Hc. assert (ishex (upperhex (c >> 4)) && ishex (upperhex (c .& 15)) &&
    (u8 (unhex (upperhex (c >> 4)) << 4) .| unhex (upperhex (c .& 15)) =? c) && Bool.eqb (unhex (upperhex (c >> 4)) <? 8) (c <? 128) &&
    Bool.eqb (bool_decide ([percent; upperhex (c >> 4); upperhex (c .& 15)] = str "%25")) (c =? percent) = true) as H.
  { revert c Hc. apply byte_enum. by vm_compute. }
  zbool. split_and!; [done|done|done|by apply eqb_prop..].
Qed.

Lemma plain_byte mode c :
  is_byte c -> shouldEscape c mode = false -> c <> percent /\ (c = plus -> mode <> encodeQueryComponent).
Proof.
  intros Hc Hs. assert (shouldEscape c mode || negb (c =? percent) && (negb (c =? plus) || negb (bool_decide (mode = encodeQueryComponent))) = true) as H.
  { clear Hs. revert c Hc. destruct mode; apply byte_enum; by vm_compute. }
  rewrite Hs in H. cbn [orb] in H. apply andb_true_iff in H as [H1 H2]. zbool. split; [done|]. intros ->.
  cbn in H2. by rewrite negb_true_iff, bool_decide_eq_false in H2.
Qed.

(** One byte through both loops of unescape. *)
Lemma check_escaped mode c s n hp :
  is_byte c ->
  exists n' hp', unescape_check (escape_build (c :: s) mode) mode n hp = 
    if representable mode c then unescape_check (escape_build s mode) mode n' hp'
    else Err (EscapeError [percent; upperhex (c >> 4); upperhex (c .& 15)]).
Proof.
  intros Hc. cbn [escape_build]. unfold representable. destruct (_ && bool_decide _) eqn:Esp.
  { apply andb_true_iff in Esp as [Ec Em]. apply Z.eqb_eq in Ec as ->. apply bool_decide_eq_true in Em as ->. cbn. eauto. }
  destruct (shouldEscape c mode) eqn:Es; cbn [negb orb].
  - destruct (hex_pair c Hc) as (H1 & H2 & H3 & H4 & H5). cbn [unescape_check]. rewrite Z.eqb_refl, H1, H2. cbn [negb orb].
    change (take 3 (percent :: upperhex (c >> 4) :: upperhex (c .& 15) :: escape_build s mode)) with [percent; upperhex (c >> 4); upperhex (c .& 15)].
    rewrite H3, H4, H5. exists (n + 1), hp. destruct mode; try done.
    + rewrite bool_decide_true, bool_decide_false by done. cbn [andb].
      destruct (Z.ltb_spec c 128), (Z.leb_spec 128 c), (Z.eqb_spec c percent); try lia; done.
    + rewrite bool_decide_false, bool_decide_true by done. cbn [andb].
      assert (shouldEscape c encodeHost = true) as -> by exact Es. rewrite andb_true_r.
      destruct (Z.eqb_spec c percent), (Z.eqb_spec c space); try lia; done.
  - destruct (plain_byte mode c Hc Es) as [Hp Hq]. cbn [unescape_check]. rewrite (proj2 (Z.eqb_neq c percent)) by done.
    rewrite Es, andb_false_r. destruct (c =? plus); eauto.
Qed.

Lemma unescape_build_escape_build s mode : bytes_ok s -> unescape_build (escape_build s mode) mode = s.
Proof.
  induction 1 as [|c s Hc Hs IH]; [done|]. cbn [escape_build]. destruct (_ && bool_decide _) eqn:Esp.
  { apply andb_true_iff in Esp as [Ec Em]. apply Z.eqb_eq in Ec as ->. apply bool_decide_eq_true in Em as ->. cbn. by rewrite IH. }
  destruct (shouldEscape c mode) eqn:Es.
  - destruct (hex_pair c Hc) as (_ & _ & H3 & _). cbn [unescape_build]. by rewrite Z.eqb_refl, H3, IH.
  - destruct (plain_byte mode c Hc Es) as [Hp Hq]. cbn [unescape_build]. rewrite (proj2 (Z.eqb_neq c percent)), IH by done.
    destruct (Z.eqb_spec c plus) as [->|]; [|done]. rewrite bool_decide_false; auto.
Qed.

Lemma unescape_escape s mode :
  bytes_ok s ->
  if forallb (representable mode) s then unescape (escape s mode) mode = Ok s
  else exists e, unescape (escape s mode) mode = Err e.
Proof.
  intros Hs. rewrite escape_escape_build, unescape_unescape_build, unescape_build_escape_build by done.
  assert (forall n hp, if forallb (representable mode) s then exists r, unescape_check (escape_build s mode) mode n hp = Ok r
          else exists e, unescape_check (escape_build s mode) mode n hp = Err e) as H.
  { induction Hs as [|c s Hc Hs IH]; intros n hp; [cbn; eauto|]. destruct (check_escaped mode c s n hp Hc) as (n' & hp' & ->).
    cbn [forallb]. destruct (representable mode c); cbn [andb]; [apply IH|eauto]. }
  specialize (H 0 false). destruct (forallb (representable mode) s); destruct H as [r ->]; eauto.
Qed.

Lemma QueryUnescape_QueryEscape s : bytes_ok s -> QueryUnescape (QueryEscape s) = Ok s.
Proof.
  intros Hs. pose proof (unescape_escape s encodeQueryComponent Hs) as H.
  assert (forallb (representable encodeQueryComponent) s = true) as E by (apply forallb_forall; intros; unfold representable; by rewrite orb_true_r).
  by rewrite E in H.
Qed.

(** ** Query strings *)

Lemma parse_setting_nil m err : parse_setting m err [] = (m, err).
Proof. reflexivity. Qed.

Definition parse_settings (settings : list gostring) (m : Values) (err : option error) : Values * option error :=
  fold_left (fun '(m, err) key => parse_setting m err key) settings (m, err).

(** The loop of parseQuery goes through the pieces between the ampersands. *)
Lemma parseQuery_loop_Split fuel m err q :
  (length q <= fuel)%nat -> parseQuery_loop fuel m err q = parse_settings (Split q [amp]) m err.
Proof.
  unfold parse_settings. revert m err q. induction fuel as [|fuel IH]; intros m err q Hf.
  { destruct q; [done|simpl in Hf; lia]. }
  cbn [parseQuery_loop]. destruct q as [|c q]; [done|].
  rewrite (proj2 (Z.eqb_neq _ 0)) by (rewrite len_cons; pose proof (len_nonneg q); lia). change (str "&") with [amp].
  destruct (Cut_byte amp (c :: q)) as [[Hn HC]|(a & b & E & Hn & HC)]; rewrite HC.
  - rewrite (proj1 (Split_unfold (c :: q) [amp] ltac:(done) ltac:(done))) by (by apply free_of_byte). cbn [fold_left].
    destruct (parse_setting m err (c :: q)) as [m' err']. by destruct fuel.
  - rewrite (proj2 (Split_unfold (c :: q) [amp] ltac:(done) ltac:(done)) a b).
    + cbn [fold_left]. destruct (parse_setting m err a) as [m' err']. apply IH. apply (f_equal length) in E.
      rewrite length_app in E. cbn [length] in *. lia.
    + done.
    + intros j Hj Hm. apply match_at_head in Hm; [|done]. rewrite E in Hm. apply Hn. change (at_ [amp] 0) with amp in Hm. rewrite <- Hm.
      unfold at_. rewrite app_nth1 by done. by apply list_elem_of_In, nth_In.
Qed.

Lemma ParseQuery_Split q : ParseQuery q = parse_settings (Split q (str "&")) ∅ None.
Proof. by apply parseQuery_loop_Split. Qed.

(** An escaped component contains no separator. *)
Lemma QueryEscape_safe s c : bytes_ok s -> c ∈ [amp; equals; 59] -> c ∉ QueryEscape s.
Proof.
  intros Hs Hc. unfold QueryEscape. rewrite escape_escape_build.
  assert (forall d, upperhex d = c -> False) as Hhex.
  { intros d Hd. unfold upperhex in Hd. destruct (nth_in_or_default (Z.to_nat d) (str "0123456789ABCDEF") 0) as [Hin|E].
    - rewrite Hd in Hin. clear Hd. rewrite !elem_of_cons in Hc. destruct Hc as [-> |[-> |[-> |Hc]]]; [..|by apply not_elem_of_nil in Hc];
        vm_compute in Hin; repeat (destruct Hin as [Hin|Hin]; [discriminate|]); done.
    - rewrite E in Hd. subst c. rewrite !elem_of_cons in Hc. destruct Hc as [|[|[|Hc]]]; [lia..|by apply not_elem_of_nil in Hc]. }
  assert (c <> plus /\ c <> percent /\ shouldEscape c encodeQueryComponent = true) as (Hp & Hq & Hse).
  { rewrite !elem_of_cons in Hc. destruct Hc as [-> |[-> |[-> |Hc]]]; [..|by apply not_elem_of_nil in Hc]; split_and!; done. }
  induction Hs as [|x s Hx Hs IH]; [apply not_elem_of_nil|]. cbn [escape_build].
  destruct (_ && _); [rewrite not_elem_of_cons; auto|]. destruct (shouldEscape x encodeQueryComponent) eqn:E.
  - rewrite !not_elem_of_cons. split_and!; [done|intros ?; eauto..|done].
  - rewrite not_elem_of_cons. split; [congruence|done].
Qed.

Lemma app_cons_notin (a a' b b' : gostring) c : c ∉ a -> c ∉ a' -> a ++ c :: b = a' ++ c :: b' -> a = a' /\ b = b'.
Proof.
  revert a'. induction a as [|x a IH]; intros [|x' a'] Ha Ha' E; simpl in *; simplify_eq; [done|set_solver|set_solver|].
  destruct (IH a') as [-> ->]; [set_solver|set_solver|done|done].
Qed.

(** One encoded pair. *)
Definition piece (kv : gostring * gostring) : gostring := QueryEscape kv.1 ++ equals :: QueryEscape kv.2.

Lemma parse_piece m kv :
  bytes_ok kv.1 -> bytes_ok kv.2 -> parse_setting m None (piece kv) = (Add m kv.1 kv.2, None).
Proof.
  intros Hk Hv. destruct kv as [k v]. cbn [fst snd] in *. unfold parse_setting, piece. cbn [fst snd].
  assert (forall c, c ∈ [amp; 59] -> c ∉ QueryEscape k ++ equals :: QueryEscape v) as Hno.
  { intros c Hc. rewrite not_elem_of_app, not_elem_of_cons. rewrite !elem_of_cons in Hc. 
    split_and!; [apply QueryEscape_safe; set_solver| |apply QueryEscape_safe; set_solver].
    destruct Hc as [-> |[-> |Hc]]; [done|done|by apply not_elem_of_nil in Hc]. }
  assert (Contains (QueryEscape k ++ equals :: QueryEscape v) (str ";") = false) as ->.
  { unfold Contains. change (str ";") with [59]. destruct (Index_cases (QueryEscape k ++ equals :: QueryEscape v) [59]) as [[-> _]|(a & b & E & _)]; [done|done|done|].
    exfalso. apply (Hno 59); [set_solver|]. rewrite E. set_solver. }
  rewrite (proj2 (Z.eqb_neq (len _) 0)) by (rewrite len_app, len_cons; pose proof (len_nonneg (QueryEscape k)); pose proof (len_nonneg (QueryEscape v)); lia).
  change (str "=") with [equals]. assert (equals ∉ QueryEscape k) as He by (apply QueryEscape_safe; [done|set_solver]).
  destruct (Cut_byte equals (QueryEscape k ++ equals :: QueryEscape v)) as [[Hn _]|(a & b & E & Hn & ->)]; [set_solver|].
  destruct (app_cons_notin _ _ _ _ _ He Hn E) as [<- <-]. by rewrite !QueryUnescape_QueryEscape.
Qed.

Lemma parse_pieces kvs m :
  Forall (fun kv => bytes_ok kv.1 /\ bytes_ok kv.2) kvs ->
  parse_settings (map piece kvs) m None = (fold_left (fun m kv => Add m kv.1 kv.2) kvs m, None).
Proof.
  intros H. revert m. unfold parse_settings. induction H as [|kv kvs [Hk Hv] H IH]; intros m; [done|]. cbn [map fold_left].
  by rewrite parse_piece.
Qed.

Lemma piece_no_amp kv : bytes_ok kv.1 -> bytes_ok kv.2 -> amp ∉ piece kv.
Proof.
  intros Hk Hv. unfold piece. rewrite not_elem_of_app, not_elem_of_cons.
  split_and!; [by apply QueryEscape_safe; [|set_solver]|done|by apply QueryEscape_safe; [|set_solver]].
Qed.

(** Encoded pairs with ampersands between them. *)
Lemma ParseQuery_pieces kvs :
  kvs <> [] -> Forall (fun kv => bytes_ok kv.1 /\ bytes_ok kv.2) kvs ->
  ParseQuery (Join (map piece kvs) [amp]) = (fold_left (fun m kv => Add m kv.1 kv.2) kvs ∅, None).
Proof.
  intros Hne Hok. rewrite ParseQuery_Split. change (str "&") with [amp]. rewrite Split_Join.
  - by apply parse_pieces.
  - by destruct kvs.
  - rewrite Forall_map. eapply Forall_impl; [exact Hok|]. intros kv [Hk Hv]. by apply piece_no_amp.
Qed.

(** Text that needs no escaping. *)
Definition plain (s : gostring) : Prop := Forall (fun c => is_byte c /\ shouldEscape c encodeQueryComponent = false) s.

Lemma plain_escape s : plain s -> QueryEscape s = s.
Proof.
  intros Hs. unfold QueryEscape. rewrite escape_escape_build. induction Hs as [|c s [_ Hc] _ IH]; [done|]. cbn [escape_build].
  destruct (Z.eqb_spec c space) as [->|_]; [by rewrite space_escaped in Hc|]. cbn [andb]. by rewrite Hc, IH.
Qed.

Lemma plain_bytes s : plain s -> bytes_ok s.
Proof. intros H. eapply Forall_impl; [exact H|]. by intros c []. Qed.

Lemma Join_snoc ps p sep : ps <> [] -> Join (ps ++ [p]) sep = Join ps sep ++ sep ++ p.
Proof.
  destruct ps as [|q ps]; [done|]. intros _. cbn [app Join]. rewrite map_app, concat_app. cbn. by rewrite app_nil_r, <- app_assoc.
Qed.

Lemma piece_nonempty kv : piece kv <> [].
Proof. unfold piece. by destruct (QueryEscape kv.1). Qed.

Lemma Join_nonempty p ps sep : p <> [] -> Join (p :: ps) sep <> [].
Proof. intros Hp. destruct p; [done|]. by cbn. Qed.

Lemma encode_pairs done kvs :
  fold_left (fun buf kv => encode_pair buf kv.1 kv.2) kvs (Join (map piece done) [amp]) = Join (map piece (done ++ kvs)) [amp].
Proof.
  revert done. induction kvs as [|kv kvs IH]; intros done; [by rewrite app_nil_r|]. cbn [fold_left].
  assert (encode_pair (Join (map piece done) [amp]) kv.1 kv.2 = Join (map piece (done ++ [kv])) [amp]) as ->.
  { unfold encode_pair. rewrite map_app. cbn [map]. destruct done as [|d done].
    - cbn. unfold piece. by rewrite app_nil_r.
    - rewrite Join_snoc by done. pose proof (Join_nonempty (piece d) (map piece done) [amp] (piece_nonempty d)) as Hne. cbn [map] in *.
      destruct (Join (piece d :: map piece done) [amp]) as [|x l] eqn:E; [done|].
      rewrite (proj2 (Z.ltb_lt 0 _)) by (rewrite len_cons; pose proof (len_nonneg l); lia). unfold piece. by rewrite <- !app_assoc. }
  rewrite IH, <- app_assoc. done.
Qed.

(** The pairs of a set of values, by key. *)
Definition pairs_of (v : Values) (keys : list gostring) : list (gostring * gostring) :=
  concat (map (fun k => map (pair k) (default [] (v !! k))) keys).

Lemma Encode_pieces v : Encode v = Join (map piece (pairs_of v (sort_Strings (elements (dom v))))) [amp].
Proof.
  unfold Encode. destruct (decide (v = ∅)) as [->|_]; [reflexivity|].
  pose proof (encode_pairs [] (pairs_of v (sort_Strings (elements (dom v))))) as E. cbn [app] in E. rewrite <- E. clear E.
  change (Join (map piece []) [amp]) with (@nil Z). generalize (@nil Z). induction (sort_Strings (elements (dom v))) as [|k keys IH]; intros buf; [done|].
  cbn [fold_left]. rewrite IH. unfold pairs_of. cbn [map concat]. rewrite fold_left_app. f_equal.
  revert buf. induction (default [] (v !! k)) as [|x l IHl]; intros buf; [done|]. cbn. apply IHl.
Qed.

Definition values_for (k : gostring) (kvs : list (gostring * gostring)) : list gostring :=
  map snd (filter (fun kv => kv.1 = k) kvs).

Lemma fold_Add kvs m k :
  fold_left (fun m kv => Add m kv.1 kv.2) kvs m !! k =
  match values_for k kvs with [] => m !! k | l => Some (default [] (m !! k) ++ l) end.
Proof.
  revert m. induction kvs as [|[k' x] kvs IH]; intros m; [done|]. cbn [fold_left]. rewrite IH. unfold values_for, Add. cbn [fst snd].
  rewrite filter_cons. cbn [fst]. destruct (decide (k' = k)) as [->|Hne].
  - rewrite lookup_insert_eq. cbn [map default]. destruct (map snd (filter _ kvs)) as [|y l]; [done|]. unfold id. by rewrite <- app_assoc.
  - by rewrite lookup_insert_ne.
Qed.

Lemma values_for_pairs v keys k :
  NoDup keys -> values_for k (pairs_of v keys) = if decide (k ∈ keys) then default [] (v !! k) else [].
Proof.
  unfold values_for, pairs_of. induction 1 as [|k' keys Hn Hnd IH]; [done|]. cbn [map concat]. rewrite filter_app, map_app, IH. clear IH.
  assert (map snd (filter (fun kv : list Z * list Z => kv.1 = k) (map (pair k') (default [] (v !! k')))) = if decide (k' = k) then default [] (v !! k') else []) as ->.
  { induction (default [] (v !! k')) as [|x l IH]; [by destruct (decide _)|]. cbn [map]. rewrite filter_cons. cbn [fst].
    destruct (decide (k' = k)); cbn [map]; by rewrite IH. }
  destruct (decide (k' = k)) as [->|Hne].
  - rewrite (decide_False (P := k ∈ keys)) by done. rewrite decide_True by set_solver. by rewrite app_nil_r.
  - cbn [app]. destruct (decide (k ∈ keys)), (decide (k ∈ k' :: keys)); set_solver.
Qed.

(** Values that a query string can carry: a key with no value is lost. *)
Definition Values_wf (v : Values) : Prop :=
  forall k l, v !! k = Some l -> bytes_ok k /\ Forall (fun x => bytes_ok x) l /\ l <> [].

Lemma pairs_bytes (v : Values) keys : Values_wf v -> Forall (fun kv => bytes_ok kv.1 /\ bytes_ok kv.2) (pairs_of v keys).
Proof.
  intros Hv. unfold pairs_of. induction keys as [|k keys IH]; [constructor|]. cbn [map concat]. apply Forall_app_2; [|done].
  destruct (v !! k) as [l|] eqn:E; [|constructor]. destruct (Hv k l E) as (Hk & Hl & _). cbn [default]. unfold id.
  apply Forall_map. eapply Forall_impl; [exact Hl|]. done.
Qed.

Lemma keys_spec (v : Values) : NoDup (sort_Strings (elements (dom v))) /\ forall k, k ∈ sort_Strings (elements (dom v)) <-> is_Some (v !! k).
Proof.
  pose proof (merge_sort_Permutation (fun s t => Is_true (string_le s t)) (elements (dom v))) as HP. split.
  - unfold sort_Strings. rewrite HP. apply NoDup_elements.
  - intros k. unfold sort_Strings. rewrite HP, elem_of_elements. apply elem_of_dom.
Qed.

Lemma ParseQuery_Encode v : Values_wf v -> ParseQuery (Encode v) = (v, None).
Proof.
  intros Hv. rewrite Encode_pieces. destruct (keys_spec v) as [Hnd Hk]. set (keys := sort_Strings _) in *.
  pose proof (pairs_bytes v keys Hv) as Hb. set (kvs := pairs_of v keys) in *.
  assert (ParseQuery (Join (map piece kvs) [amp]) = (fold_left (fun m kv => Add m kv.1 kv.2) kvs ∅, None)) as ->
    by (destruct kvs as [|kv kvs'] eqn:E; [reflexivity|]; by apply ParseQuery_pieces).
  f_equal. apply map_eq. intros k. rewrite fold_Add, lookup_empty. unfold kvs. rewrite values_for_pairs by done.
  destruct (v !! k) as [l|] eqn:E.
  - rewrite decide_True by (apply Hk; eauto). destruct (Hv k l E) as (_ & _ & Hne). cbn [default]. unfold id. by destruct l.
  - rewrite decide_False; [done|]. rewrite Hk, E. by intros [? ?].
Qed.

(** Escaping is undone by unescaping.  In every mode, unescape gives back exactly
    what escape was given, through the fast paths of both; only a host name or a zone
    with a byte that may not be escaped there is refused.  What QueryEscape returns
    contains no ampersand, equals sign or semicolon. *)
Theorem url_escape_round_trip s mode :
  bytes_ok s ->
  (if forallb (representable mode) s then unescape (escape s mode) mode = Ok s
   else exists e, unescape (escape s mode) mode = Err e) /\
  QueryUnescape (QueryEscape s) = Ok s /\ (forall c, c ∈ [amp; equals; 59] -> c ∉ QueryEscape s).
Proof.
  intros Hs. split; [by apply unescape_escape|]. split; [by apply QueryUnescape_QueryEscape|]. intros c. by apply QueryEscape_safe.
Qed.

Lemma url_escape_round_trip_witness :
  unescape (escape [97; 32; 255; 37] encodePath) encodePath = Ok [97; 32; 255; 37] /\
  exists e, unescape (escape [97; 32] encodeHost) encodeHost = Err e.
Proof.
  split.
  - exact (proj1 (url_escape_round_trip [97; 32; 255; 37] encodePath ltac:(lit))).
  - exact (proj1 (url_escape_round_trip [97; 32] encodeHost ltac:(lit))).
Defined.

(** Query strings carry their values.  ParseQuery reads the settings between the
    ampersands one by one; and of every set of values (keys of any bytes, each with a
    non-empty list of values), the string that Encode gives is parsed back to the same
    values, in the same order for each key and without an error. *)
Theorem query_round_trip v q :
  Values_wf v ->
  ParseQuery q = parse_settings (Split q (str "&")) ∅ None /\ ParseQuery (Encode v) = (v, None) /\
  forall key, Get (fst (ParseQuery (Encode v))) key = Get v key.
Proof. intros Hv. split; [apply ParseQuery_Split|]. by rewrite ParseQuery_Encode. Qed.

Lemma query_round_trip_witness :
  ParseQuery (Encode {[ str "q" := [str "a&b"; []] ]}) = ({[ str "q" := [str "a&b"; []] ]}, None).
Proof.
  apply (query_round_trip {[ str "q" := [str "a&b"; []] ]} []).
  intros k l. rewrite lookup_singleton_Some. intros [<- <-]. split; [lit|]. split; [|discriminate].
  repeat constructor; vm_compute; discriminate.
Defined.

(** The error that ParseQuery reports is not always the first: a semicolon replaces
    the error of an earlier setting. *)
Example parse_query_last_error :
  snd (ParseQuery (str "a=%zz&b;c")) = Some (OtherError (str "invalid semicolon separator in query")) /\
  snd (ParseQuery (str "b;c&a=%zz")) = Some (OtherError (str "invalid semicolon separator in query")).
Proof. split; reflexivity. Qed.
