(* ===== verification/UrlParse.v ===== *)
(** * net/url: whole URLs

    [tools/go-patched/src/net/url/url.go]: the type URL, parsing and printing it, the
    authority, the escaped path and fragment.  The proxy's search handler parses the
    address it builds through http.Get, and the request multiplexer works on the URL of a
    request. *)

From S2P Require Import Prelude HostPort Utf8 Unicode Strings Url.
Local Open Scope go_scope.
Local Set Warnings "-clear-no-such-hyp".

Notation slash := 47 (only parsing).
Notation question := 63 (only parsing).
Notation hash_ := 35 (only parsing).
Notation at_sign := 64 (only parsing).
Notation dot := 46 (only parsing).

(** ** Data *)

Record Userinfo := mk_Userinfo { username : gostring; password : gostring; passwordSet : bool }.

Record URL := mk_URL {
  Scheme : gostring;
  Opaque : gostring;
  User : option Userinfo;
  Host : gostring;
  Path : gostring;
  RawPath : gostring;
  OmitHost : bool;
  ForceQuery : bool;
  RawQuery : gostring;
  Fragment : gostring;
  RawFragment : gostring;
}.

#[export] Instance Userinfo_eq_dec : EqDecision Userinfo.
Proof. solve_decision. Defined.
#[export] Instance URL_eq_dec : EqDecision URL.
Proof. solve_decision. Defined.

Definition new_URL : URL := mk_URL [] [] None [] [] [] false false [] [] [].

Definition with_scheme (u : URL) (s : gostring) : URL :=
  mk_URL s (Opaque u) (User u) (Host u) (Path u) (RawPath u) (OmitHost u) (ForceQuery u) (RawQuery u)
    (Fragment u) (RawFragment u).
Definition with_opaque (u : URL) (o : gostring) : URL :=
  mk_URL (Scheme u) o (User u) (Host u) (Path u) (RawPath u) (OmitHost u) (ForceQuery u) (RawQuery u)
    (Fragment u) (RawFragment u).
Definition with_authority (u : URL) (ui : option Userinfo) (h : gostring) : URL :=
  mk_URL (Scheme u) (Opaque u) ui h (Path u) (RawPath u) (OmitHost u) (ForceQuery u) (RawQuery u)
    (Fragment u) (RawFragment u).
Definition with_path (u : URL) (p raw : gostring) : URL :=
  mk_URL (Scheme u) (Opaque u) (User u) (Host u) p raw (OmitHost u) (ForceQuery u) (RawQuery u)
    (Fragment u) (RawFragment u).
Definition with_omit_host (u : URL) : URL :=
  mk_URL (Scheme u) (Opaque u) (User u) (Host u) (Path u) (RawPath u) true (ForceQuery u) (RawQuery u)
    (Fragment u) (RawFragment u).
Definition with_query (u : URL) (force : bool) (q : gostring) : URL :=
  mk_URL (Scheme u) (Opaque u) (User u) (Host u) (Path u) (RawPath u) (OmitHost u) force q
    (Fragment u) (RawFragment u).
Definition with_fragment (u : URL) (f raw : gostring) : URL :=
  mk_URL (Scheme u) (Opaque u) (User u) (Host u) (Path u) (RawPath u) (OmitHost u) (ForceQuery u) (RawQuery u)
    f raw.

Definition NewUser (name : gostring) : Userinfo := mk_Userinfo name [] false.
Definition UserPassword (name pass : gostring) : Userinfo := mk_Userinfo name pass true.

Definition Userinfo_String (u : Userinfo) : gostring :=
  escape (username u) encodeUserPassword ++
  (if passwordSet u then colon :: escape (password u) encodeUserPassword else []).

(** ** Parsing *)

Definition is_letter (c : Z) : bool := ((97 <=? c) && (c <=? 122)) || ((65 <=? c) && (c <=? 90)).
Definition is_digit (c : Z) : bool := (48 <=? c) && (c <=? 57).

(** The loop of getScheme at byte [i]. *)
Fixpoint getScheme_loop (rawURL s : gostring) (i : nat) : result (gostring * gostring) :=
  match s with
  | [] => Ok ([], rawURL)
  | c :: s' =>
      if is_letter c then getScheme_loop rawURL s' (S i)
      else if is_digit c || among c (str "+-.") then
        if (i =? 0)%nat then Ok ([], rawURL) else getScheme_loop rawURL s' (S i)
      else if c =? colon then
        if (i =? 0)%nat then Err (OtherError (str "missing protocol scheme"))
        else Ok (take i rawURL, drop (S i) rawURL)
      else Ok ([], rawURL)
  end.

Definition getScheme (rawURL : gostring) : result (gostring * gostring) := getScheme_loop rawURL rawURL 0.

Definition stringContainsCTLByte (s : gostring) : bool := existsb (fun b => (b <? space) || (b =? 127)) s.

Definition validOptionalPort (port : gostring) : bool :=
  match port with
  | [] => true
  | c :: digits => (c =? colon) && forallb is_digit digits
  end.

Definition valid_userinfo_rune (r : Z) : bool :=
  is_letter r || is_digit r || among r (str "-._:~!$&'()*+,;=%@").

(** The loop ranges over runes; a byte that is not ASCII is part of, or an error for,
    a rune that is not in the list. *)
Definition validUserinfo (s : gostring) : bool := forallb valid_userinfo_rune s.

(** strings.LastIndex and strings.Index of a one-byte string. *)
Definition LastIndex1 (s : gostring) (c : Z) : Z := LastIndexByteString s c.

Definition parseHost (host : gostring) : result gostring :=
  let whole := unescape host encodeHost in
  if HasPrefix host (str "[") then
    let i := LastIndex1 host rbracket in
    if i <? 0 then Err (OtherError (str "missing ']' in host")) else
    let colonPort := drop (Z.to_nat (i + 1)) host in
    if negb (validOptionalPort colonPort)
    then Err (QuotedError [inl (str "invalid port "); inr colonPort; inl (str " after host")]) else
    let zone := Index (take (Z.to_nat i) host) (str "%25") in
    if 0 <=? zone then
      try host1 := unescape (take (Z.to_nat zone) host) encodeHost in
      try host2 := unescape (cut host zone i) encodeZone in
      try host3 := unescape (drop (Z.to_nat i) host) encodeHost in
      Ok (host1 ++ host2 ++ host3)
    else whole
  else
    let i := LastIndex1 host colon in
    if negb (i =? -1) && negb (validOptionalPort (drop (Z.to_nat i) host))
    then Err (QuotedError [inl (str "invalid port "); inr (drop (Z.to_nat i) host); inl (str " after host")])
    else whole.

Definition parseAuthority (authority : gostring) : result (option Userinfo * gostring) :=
  let i := LastIndex1 authority at_sign in
  try host := (if i <? 0 then parseHost authority else parseHost (drop (Z.to_nat (i + 1)) authority)) in
  if i <? 0 then Ok (None, host) else
  let userinfo := take (Z.to_nat i) authority in
  if negb (validUserinfo userinfo) then Err (OtherError (str "net/url: invalid userinfo")) else
  if negb (Contains userinfo (str ":")) then
    try name := unescape userinfo encodeUserPassword in
    Ok (Some (NewUser name), host)
  else
    let '(name, pass, _) := Cut userinfo (str ":") in
    try name := unescape name encodeUserPassword in
    try pass := unescape pass encodeUserPassword in
    Ok (Some (UserPassword name pass), host).

Definition setPath (u : URL) (p : gostring) : result URL :=
  try path := unescape p encodePath in
  Ok (with_path u path (if bool_decide (p = escape path encodePath) then [] else p)).

Definition setFragment (u : URL) (f : gostring) : result URL :=
  try frag := unescape f encodeFragment in
  Ok (with_fragment u frag (if bool_decide (f = escape frag encodeFragment) then [] else f)).

(** strings.ToLower of an ASCII string. *)
Definition ToLower_ascii (s : gostring) : gostring :=
  map (fun c => if (65 <=? c) && (c <=? 90) then c + 32 else c) s.

(** The query and what is before it. *)
Definition split_query (rest : gostring) : gostring * bool * gostring :=
  if HasSuffix rest (str "?") && (Count rest (str "?") =? 1) then (take (length rest - 1) rest, true, [])
  else let '(before, q, _) := Cut rest (str "?") in (before, false, q).

(** [authority] and what is left of [rest], which starts with two slashes. *)
Definition split_authority (rest : gostring) : gostring * gostring :=
  let authority := drop 2 rest in
  let i := Index authority (str "/") in
  if 0 <=? i then (take (Z.to_nat i) authority, drop (Z.to_nat i) authority) else (authority, []).

Definition parse (rawURL : gostring) (viaRequest : bool) : result URL :=
  if stringContainsCTLByte rawURL then Err (OtherError (str "net/url: invalid control character in URL")) else
  if bool_decide (rawURL = []) && viaRequest then Err (OtherError (str "empty url")) else
  if bool_decide (rawURL = str "*") then Ok (with_path new_URL (str "*") []) else
  try (scheme, rest) := getScheme rawURL in
  let url := with_scheme new_URL (ToLower_ascii scheme) in
  let '(rest, force, q) := split_query rest in
  let url := with_query url force q in
  let has_scheme := negb (bool_decide (Scheme url = [])) in
  if negb (HasPrefix rest (str "/")) && has_scheme then Ok (with_opaque url rest) else
  if negb (HasPrefix rest (str "/")) && viaRequest then Err (OtherError (str "invalid URI for request")) else
  if negb (HasPrefix rest (str "/")) && Contains (fst (fst (Cut rest (str "/")))) (str ":")
  then Err (OtherError (str "first path segment in URL cannot contain colon")) else
  if (has_scheme || (negb viaRequest && negb (HasPrefix rest (str "///")))) && HasPrefix rest (str "//") then
    let '(authority, rest) := split_authority rest in
    try (user, host) := parseAuthority authority in
    setPath (with_authority url user host) rest
  else if has_scheme && HasPrefix rest (str "/") then setPath (with_omit_host url) rest
  else setPath url rest.

Definition Parse (rawURL : gostring) : result URL :=
  let '(u, frag, _) := Cut rawURL (str "#") in
  match parse u false with
  | Err err => Err (UrlError (str "parse") u err)
  | Ok url =>
      if bool_decide (frag = []) then Ok url
      else match setFragment url frag with
           | Err err => Err (UrlError (str "parse") rawURL err)
           | Ok url => Ok url
           end
  end.

Definition ParseRequestURI (rawURL : gostring) : result URL :=
  match parse rawURL true with
  | Err err => Err (UrlError (str "parse") rawURL err)
  | Ok url => Ok url
  end.

(** ** Printing *)

Definition validEncoded (s : gostring) (mode : encoding) : bool :=
  forallb (fun c => among c (str "!$&'()*+,;=:@[]%") || negb (shouldEscape c mode)) s.

(** [u.RawPath] when it is a valid encoding of [u.Path]. *)
Definition raw_hint (raw val : gostring) (mode : encoding) : bool :=
  negb (bool_decide (raw = [])) && validEncoded raw mode &&
  match unescape raw mode with Ok p => bool_decide (p = val) | Err _ => false end.

Definition EscapedPath (u : URL) : gostring :=
  if raw_hint (RawPath u) (Path u) encodePath then RawPath u
  else if bool_decide (Path u = str "*") then str "*"
  else escape (Path u) encodePath.

Definition EscapedFragment (u : URL) : gostring :=
  if raw_hint (RawFragment u) (Fragment u) encodeFragment then RawFragment u
  else escape (Fragment u) encodeFragment.

Definition nonempty (s : gostring) : bool := negb (bool_decide (s = [])).
Definition has_user (u : URL) : bool := match User u with Some _ => true | None => false end.

(** The authority, with the slashes before it. *)
Definition print_authority (u : URL) : gostring :=
  if nonempty (Scheme u) || nonempty (Host u) || has_user u then
    if OmitHost u && negb (nonempty (Host u)) && negb (has_user u) then []
    else
      (if nonempty (Host u) || nonempty (Path u) || has_user u then str "//" else []) ++
      match User u with Some ui => Userinfo_String ui ++ [at_sign] | None => [] end ++
      (if nonempty (Host u) then escape (Host u) encodeHost else [])
  else [].

Definition String_ (u : URL) : gostring :=
  let buf := if nonempty (Scheme u) then Scheme u ++ [colon] else [] in
  let buf :=
    if nonempty (Opaque u) then buf ++ Opaque u
    else
      let buf := buf ++ print_authority u in
      let path := EscapedPath u in
      let buf := if nonempty path && negb (at_ path 0 =? slash) && nonempty (Host u)
                 then buf ++ [slash] else buf in
      let buf := if bool_decide (buf = []) && Contains (fst (fst (Cut path (str "/")))) (str ":")
                 then buf ++ str "./" else buf in
      buf ++ path in
  let buf := if ForceQuery u || nonempty (RawQuery u) then buf ++ question :: RawQuery u else buf in
  if nonempty (Fragment u) then buf ++ hash_ :: EscapedFragment u else buf.

Definition Redacted (u : URL) : gostring :=
  match User u with
  | Some ui => if passwordSet ui
               then String_ (with_authority u (Some (UserPassword (username ui) (str "xxxxx"))) (Host u))
               else String_ u
  | None => String_ u
  end.

Definition RequestURI (u : URL) : gostring :=
  let result :=
    if nonempty (Opaque u)
    then if HasPrefix (Opaque u) (str "//") then Scheme u ++ colon :: Opaque u else Opaque u
    else let p := EscapedPath u in if nonempty p then p else [slash] in
  if ForceQuery u || nonempty (RawQuery u) then result ++ question :: RawQuery u else result.

Definition splitHostPort (hostPort : gostring) : gostring * gostring :=
  let c := LastIndex1 hostPort colon in
  let '(host, port) :=
    if negb (c =? -1) && validOptionalPort (drop (Z.to_nat c) hostPort)
    then (take (Z.to_nat c) hostPort, drop (Z.to_nat (c + 1)) hostPort) else (hostPort, []) in
  (if HasPrefix host (str "[") && HasSuffix host (str "]") then cut host 1 (len host - 1) else host, port).

Definition Hostname (u : URL) : gostring := fst (splitHostPort (Host u)).
Definition Port (u : URL) : gostring := snd (splitHostPort (Host u)).

Example url_parse_examples :
  Parse (str "https://bob:x%40y@[fe80::1%25en0]:80/a%2Fb/c?q=1#f") =
    Ok (mk_URL (str "https") [] (Some (UserPassword (str "bob") (str "x@y"))) (str "[fe80::1%en0]:80")
         (str "/a/b/c") (str "/a%2Fb/c") false false (str "q=1") (str "f") []) /\
  (forall u, Parse (str "https://bob:x%40y@[fe80::1%25en0]:80/a%2Fb/c?q=1#f") = Ok u ->
     String_ u = str "https://bob:x%40y@[fe80::1%25en0]:80/a%2Fb/c?q=1#f") /\
  Parse (str "mailto:x@y?z") = Ok (mk_URL (str "mailto") (str "x@y") None [] [] [] false false (str "z") [] []) /\
  Parse (str "1:2") = Err (UrlError (str "parse") (str "1:2")
                         (OtherError (str "first path segment in URL cannot contain colon"))).
Proof.
  split; [vm_compute; reflexivity|]. split; [|split; vm_compute; reflexivity].
  intros u Hu. vm_compute in Hu. injection Hu as <-. vm_compute. reflexivity.
Qed.

(** ** An address with a known start *)

Lemma Cut_at c a b : c ∉ a -> Cut (a ++ c :: b) [c] = (a, b, true).
Proof.
  intros Ha. destruct (Cut_byte c (a ++ c :: b)) as [[Hn _]|(a' & b' & E & Hn & ->)]; [set_solver|].
  by destruct (app_cons_notin a a' b b' c Ha Hn E) as [-> ->].
Qed.

Lemma CountString_nonneg s c : 0 <= CountString s c.
Proof. induction s as [|x s IH]; cbn; [done|]. destruct (x =? c); lia. Qed.

(** A query that is not empty is what follows the first question mark. *)
Lemma split_query_at before after :
  question ∉ before -> after <> [] -> split_query (before ++ question :: after) = (before, false, after).
Proof.
  intros Hb Ha. unfold split_query. destruct (HasSuffix _ _ && _) eqn:E; [exfalso|].
  - apply andb_true_iff in E as [Hs Hc]. unfold HasSuffix in Hs. apply andb_true_iff in Hs as [_ Hs%bool_decide_eq_true].
    change (length (str "?")) with 1%nat in Hs. change (str "?") with [question] in *.
    destruct (exists_last Ha) as (after' & x & ->). rewrite app_comm_cons, app_assoc in Hs, Hc. rewrite length_app in Hs. cbn [length] in Hs.
    rewrite Nat.add_sub, drop_app_length in Hs. injection Hs as ->. change (Count ((before ++ question :: after') ++ [question]) [question])
      with (CountString ((before ++ question :: after') ++ [question]) question) in Hc.
    rewrite !CountString_app in Hc. cbn [CountString Z.eqb Pos.eqb] in Hc. apply Z.eqb_eq in Hc.
    pose proof (CountString_nonneg before question). pose proof (CountString_nonneg after' question). lia.
  - by rewrite Cut_at.
Qed.
