(* ===== verification/UrlText.v ===== *)
(** * net/url: parsing and printing are inverse

    The text that [String] prints for a URL of [tools/go-patched/src/net/url/url.go] parses to
    that URL, and where it does not. *)

From S2P Require Import Prelude HostPort Strings Url UrlParse.
Local Open Scope go_scope.
Local Set Warnings "-clear-no-such-hyp".

(** ** The bytes of an escaped text *)

Lemma upperhex_in d : 0 <= d < 16 -> upperhex d ∈ str "0123456789ABCDEF".
Proof. intros Hd. unfold upperhex. apply list_elem_of_In, nth_In. change (length (str "0123456789ABCDEF")) with 16%nat. lia. Qed.

Lemma escape_all (P : Z -> bool) mode s :
  bytes_ok s -> mode <> encodeQueryComponent ->
  forallb P (percent :: str "0123456789ABCDEF") = true -> (forall c, is_byte c -> c ∈ s -> shouldEscape c mode || P c = true) ->
  Forall (fun c => P c = true) (escape s mode).
Proof.
  intros Hs Hm Hhex HP. rewrite escape_escape_build. rewrite forallb_forall in Hhex.
  assert (forall c, is_byte c -> P (upperhex (c >> 4)) = true /\ P (upperhex (c .& 15)) = true) as Hx.
  { intros c Hc. split; apply Hhex; right; apply list_elem_of_In, upperhex_in.
    - rewrite Z.shiftr_div_pow2 by lia. unfold is_byte in Hc. change (2 ^ 4) with 16.
      split; [apply Z.div_pos|apply Z.div_lt_upper_bound]; lia.
    - change 15 with (Z.ones 4). rewrite Z.land_ones by lia. apply Z.mod_pos_bound. lia. }
  induction Hs as [|c s Hc Hs IH]; [constructor|]. cbn [escape_build]. rewrite (bool_decide_false _ Hm), andb_false_r.
  assert (Forall (fun c => P c = true) (escape_build s mode)) as Hrest by (apply IH; intros; apply HP; [done|by right]).
  specialize (HP c Hc ltac:(by left)). destruct (shouldEscape c mode); cbn [orb] in HP.
  - destruct (Hx c Hc). repeat constructor; try done. apply Hhex. by left.
  - by constructor.
Qed.

Lemma unescape_escape_plain s mode :
  bytes_ok s -> mode <> encodeHost -> mode <> encodeZone -> unescape (escape s mode) mode = Ok s.
Proof.
  intros Hs H1 H2. pose proof (unescape_escape s mode Hs) as H.
  assert (forallb (representable mode) s = true) as E by (apply forallb_forall; intros; unfold representable; destruct mode; try done; by rewrite orb_true_r).
  by rewrite E in H.
Qed.

Lemma escape_nonempty s mode : s <> [] -> escape s mode <> [].
Proof. rewrite escape_escape_build. destruct s as [|c s]; [done|]. intros _. cbn. destruct (_ && _), (shouldEscape c mode); done. Qed.

(** What may stand in each part of a URL as text. *)
Definition not_ctl (c : Z) : bool := negb ((c <? space) || (c =? 127)).
Definition path_byte (c : Z) : bool := not_ctl c && negb (among c (str "?#")).
Definition user_byte (c : Z) : bool := not_ctl c && valid_userinfo_rune c && negb (among c (str "?#/@:")).
Definition host_byte (c : Z) : bool := not_ctl c && negb (among c (str "?#/@:[")).

Lemma path_bytes s : bytes_ok s -> Forall (fun c => path_byte c = true) (escape s encodePath).
Proof. intros Hs. apply escape_all; [done|done|by vm_compute|]. intros c Hc _. revert c Hc. apply byte_enum. by vm_compute. Qed.

Lemma user_bytes s : bytes_ok s -> Forall (fun c => user_byte c = true) (escape s encodeUserPassword).
Proof. intros Hs. apply escape_all; [done|done|by vm_compute|]. intros c Hc _. revert c Hc. apply byte_enum. by vm_compute. Qed.

Lemma bytes_notin (P : Z -> bool) c s : Forall (fun x => P x = true) s -> P c = false -> c ∉ s.
Proof. intros Hs Hc Hin. rewrite Forall_forall in Hs. rewrite (Hs c Hin) in Hc. done. Qed.

Lemma bytes_no_ctl (P : Z -> bool) s :
  Forall (fun x => P x = true) s -> (forall x, P x = true -> not_ctl x = true) -> stringContainsCTLByte s = false.
Proof.
  intros Hs HP. unfold stringContainsCTLByte. apply not_true_is_false. intros (x & Hx & Hc)%existsb_exists.
  rewrite Forall_forall in Hs. specialize (HP x (Hs x (proj2 (list_elem_of_In _ _) Hx))). unfold not_ctl in HP. by rewrite Hc in HP.
Qed.

(** ** URLs that are printed faithfully *)

(** Lower case, as parsing leaves it. *)
Definition scheme_ok (s : gostring) : Prop :=
  match s with
  | [] => True
  | c :: s' => is_letter c = true /\ Forall (fun c => is_letter c || is_digit c || among c (str "+-.") = true) s' /\ ToLower_ascii s = s
  end.

(** A name and a port; a name has no brackets. *)
Definition host_ok (h : gostring) : Prop :=
  exists name port, h = name ++ port /\ bytes_ok name /\ validOptionalPort port = true /\
    Forall (fun c => representable encodeHost c && negb (among c (str ":[")) = true) name.

Definition user_ok (u : option Userinfo) : Prop :=
  match u with
  | None => True
  | Some ui => bytes_ok (username ui) /\ bytes_ok (password ui) /\ (passwordSet ui = false -> password ui = [])
  end.

(** A text and the other encoding of it that is kept. *)
Definition text_ok (mode : encoding) (val raw : gostring) : Prop :=
  bytes_ok val /\ (raw = [] \/ raw_hint raw val mode = true /\ raw <> escape val mode).

Definition no_authority (u : URL) : Prop :=
  Host u = [] /\ User u = None /\ (Scheme u = [] \/ OmitHost u = true).

Record url_ok (u : URL) : Prop := {
  uo_scheme : scheme_ok (Scheme u);
  uo_opaque : Opaque u = [];
  uo_user : user_ok (User u);
  uo_host : host_ok (Host u);
  uo_path : text_ok encodePath (Path u) (RawPath u);
  uo_abs : EscapedPath u = [] \/ HasPrefix (EscapedPath u) (str "/") = true;
  uo_omit : OmitHost u = true -> Scheme u <> [] /\ Host u = [] /\ User u = None /\ EscapedPath u <> [];
  uo_slashes : no_authority u -> HasPrefix (EscapedPath u) (str "//") = false;
  uo_query : hash_ ∉ RawQuery u /\ stringContainsCTLByte (RawQuery u) = false /\ (ForceQuery u = true -> RawQuery u = []);
  uo_fragment : text_ok encodeFragment (Fragment u) (RawFragment u);
}.

(** *** The parts of the text *)

(** The encoding that is printed and what parsing keeps of it. *)
Definition printed_text (mode : encoding) (val raw : gostring) : gostring :=
  if raw_hint raw val mode then raw else escape val mode.

Lemma printed_text_parse mode val raw :
  text_ok mode val raw -> mode <> encodeHost -> mode <> encodeZone ->
  unescape (printed_text mode val raw) mode = Ok val /\
  (if bool_decide (printed_text mode val raw = escape val mode) then [] else printed_text mode val raw) = raw.
Proof.
  intros [Hb Hraw] H1 H2. unfold printed_text. destruct Hraw as [->|[Hh Hne]].
  - change (raw_hint [] val mode) with false. cbv iota. rewrite bool_decide_true by done. split; [by apply unescape_escape_plain|done].
  - rewrite Hh, bool_decide_false by done. split; [|done]. unfold raw_hint in Hh. rewrite !andb_true_iff in Hh. destruct Hh as [[_ _] Hu].
    destruct (unescape raw mode) as [p|]; [|done]. apply bool_decide_eq_true in Hu as ->. done.
Qed.

Lemma printed_text_bytes (P : Z -> bool) mode val raw :
  text_ok mode val raw -> (bytes_ok val -> Forall (fun c => P c = true) (escape val mode)) ->
  (forall c, is_byte c -> shouldEscape c mode || P c = true) -> (forall c, ~ is_byte c -> shouldEscape c mode = true) ->
  (forall c, c ∈ str "!$&'()*+,;=:@[]%" -> P c = true) ->
  Forall (fun c => P c = true) (printed_text mode val raw).
Proof.
  intros [Hb _] Hesc HP Hout Hl. unfold printed_text. destruct (raw_hint raw val mode) eqn:Hh; [|by apply Hesc].
  unfold raw_hint in Hh. rewrite !andb_true_iff in Hh. destruct Hh as [[_ Hv] _]. unfold validEncoded in Hv. rewrite forallb_forall in Hv.
  apply Forall_forall. intros c Hc. specialize (Hv c (proj1 (list_elem_of_In _ _) Hc)). apply orb_true_iff in Hv as [Hv|Hv].
  - apply Hl. by apply bool_decide_eq_true in Hv.
  - apply negb_true_iff in Hv. destruct (decide (0 <= c < 256)) as [Hbyte|Hbyte].
    + specialize (HP c Hbyte). by rewrite Hv in HP.
    + rewrite Hout in Hv; [done|exact Hbyte].
Qed.

Lemma shouldEscape_out c mode : ~ is_byte c -> shouldEscape c mode = true.
Proof.
  intros Hc. unfold is_byte in Hc. unfold shouldEscape.
  assert (forall l, bytes_ok l -> among c l = false) as Ha.
  { intros l Hl. apply bool_decide_eq_false. intros Hin. rewrite Forall_forall in Hl. by apply Hc, Hl. }
  rewrite !Ha by (try apply Forall_app; try split; eauto using str_bytes_ok; repeat constructor; unfold is_byte; lia).
  rewrite andb_false_r. replace (((97 <=? c) && (c <=? 122)) || ((65 <=? c) && (c <=? 90)) || ((48 <=? c) && (c <=? 57))) with false
    by (symmetry; apply not_true_is_false; rewrite !orb_true_iff, !andb_true_iff, !Z.leb_le; lia).
  destruct mode; by rewrite ?andb_false_r.
Qed.

Lemma path_printed_bytes val raw : text_ok encodePath val raw -> Forall (fun c => path_byte c = true) (printed_text encodePath val raw).
Proof.
  intros Ht. apply printed_text_bytes; [done|apply path_bytes|apply byte_enum; by vm_compute|intros; by apply shouldEscape_out|].
  apply Forall_forall. by vm_compute; repeat constructor.
Qed.

Lemma EscapedPath_printed u :
  EscapedPath u = [] \/ HasPrefix (EscapedPath u) (str "/") = true -> EscapedPath u = printed_text encodePath (Path u) (RawPath u).
Proof.
  unfold EscapedPath, printed_text. destruct (raw_hint _ _ _); [done|]. destruct (bool_decide (Path u = str "*")); [|done]. by intros [|].
Qed.

(** *** The authority *)

Lemma escape_build_app s t mode : escape_build (s ++ t) mode = escape_build s mode ++ escape_build t mode.
Proof.
  induction s as [|c s IH]; [done|]. cbn [app escape_build]. rewrite IH. by destruct (_ && _), (shouldEscape c mode).
Qed.

Lemma escape_port port : validOptionalPort port = true -> escape_build port encodeHost = port.
Proof.
  destruct port as [|c digits]; [done|]. cbn [validOptionalPort]. intros [->%Z.eqb_eq Hd]%andb_true_iff.
  change (escape_build (colon :: digits) encodeHost) with (colon :: escape_build digits encodeHost). f_equal.
  rewrite forallb_forall in Hd. induction digits as [|d digits IH]; [done|]. cbn [escape_build].
  rewrite andb_false_r. unfold shouldEscape at 1. specialize (Hd d (or_introl eq_refl)) as Hdd. unfold is_digit in Hdd. rewrite Hdd, orb_true_r.
  cbv iota. f_equal. apply IH. intros x Hx. apply Hd. by right.
Qed.

Lemma host_name_bytes name :
  bytes_ok name -> Forall (fun c => representable encodeHost c && negb (among c (str ":[")) = true) name ->
  Forall (fun c => host_byte c = true) (escape name encodeHost).
Proof.
  intros Hb Hn. apply escape_all; [done|done|by vm_compute|]. intros c Hc Hin. rewrite Forall_forall in Hn. specialize (Hn c Hin).
  assert (negb (representable encodeHost c && negb (among c (str ":["))) || (shouldEscape c encodeHost || host_byte c) = true) as H.
  { clear Hin Hn. revert c Hc. apply byte_enum. by vm_compute. }
  by rewrite Hn in H.
Qed.

Lemma digit_byte c : is_digit c = true -> is_byte c /\ host_byte c = true /\ representable encodeHost c = true /\ c <> colon.
Proof.
  intros Hd. assert (is_byte c) as Hc by (unfold is_digit in Hd; apply andb_true_iff in Hd as [? ?]; unfold is_byte; lia).
  assert (negb (is_digit c) || (host_byte c && representable encodeHost c && negb (c =? colon)) = true) as H.
  { clear Hd. revert c Hc. apply byte_enum. by vm_compute. }
  rewrite Hd in H. cbn [negb orb] in H. rewrite !andb_true_iff, negb_true_iff, Z.eqb_neq in H. tauto.
Qed.

Lemma host_text h :
  host_ok h -> parseHost (escape h encodeHost) = Ok h /\
    Forall (fun c => host_byte c || (c =? colon) = true) (escape h encodeHost) /\ (escape h encodeHost = [] -> h = []).
Proof.
  intros (name & port & -> & Hb & Hport & Hn). pose proof (host_name_bytes name Hb Hn) as Hbytes.
  assert (bytes_ok port /\ forallb (representable encodeHost) port = true /\ Forall (fun c => host_byte c || (c =? colon) = true) port /\
    (port = [] \/ exists digits, port = colon :: digits /\ colon ∉ digits)) as (Hpb & Hpr & Hpc & Hpd).
  { destruct port as [|c digits]; [split_and!; [constructor|done|constructor|by left]|]. cbn [validOptionalPort] in Hport.
    apply andb_true_iff in Hport as [->%Z.eqb_eq Hd]. rewrite forallb_forall in Hd.
    assert (forall x, x ∈ digits -> is_byte x /\ host_byte x = true /\ representable encodeHost x = true /\ x <> colon) as Hx
      by (intros x Hx; apply digit_byte, Hd; by apply list_elem_of_In).
    split_and!.
    - constructor; [by unfold is_byte|]. apply Forall_forall. intros x Hin. by apply Hx.
    - cbn [forallb]. apply andb_true_iff. split; [done|]. apply forallb_forall. intros x Hin. by apply Hx, list_elem_of_In.
    - constructor; [done|]. apply Forall_forall. intros x Hin. by destruct (Hx x Hin) as (_ & -> & _).
    - right. exists digits. split; [done|]. intros Hin. by destruct (Hx _ Hin) as (_ & _ & _ & ?). }
  assert (unescape (escape (name ++ port) encodeHost) encodeHost = Ok (name ++ port)) as Hun.
  { pose proof (unescape_escape (name ++ port) encodeHost) as H. rewrite forallb_app, Hpr in H.
    replace (forallb (representable encodeHost) name) with true in H; [apply H; by apply Forall_app|].
    symmetry. apply forallb_forall. intros c Hc. rewrite Forall_forall in Hn. specialize (Hn c (proj2 (list_elem_of_In _ _) Hc)).
    by apply andb_true_iff in Hn as [? _]. }
  assert (escape (name ++ port) encodeHost = escape name encodeHost ++ port) as E
    by (by rewrite !escape_escape_build, escape_build_app, (escape_port port)).
  rewrite E in *. split; [|split].
  - unfold parseHost. assert (HasPrefix (escape name encodeHost ++ port) (str "[") = false) as ->.
    { apply not_true_is_false. unfold HasPrefix. intros [_ Hp%bool_decide_eq_true]%andb_true_iff. change (length (str "[")) with 1%nat in Hp.
      change (str "[") with [lbracket] in Hp. destruct (escape name encodeHost ++ port) as [|x l] eqn:El; [done|]. injection Hp as ->.
      assert (lbracket ∈ escape name encodeHost ++ port) as Hin by (rewrite El; by left). apply elem_of_app in Hin as [Hin|Hin].
      - by apply (bytes_notin host_byte lbracket) in Hin.
      - by apply (bytes_notin (fun c => host_byte c || (c =? colon)) lbracket) in Hin. }
    rewrite Hun. assert (colon ∉ escape name encodeHost) as Hnc by (by apply (bytes_notin host_byte)). unfold LastIndex1.
    destruct Hpd as [->|(digits & -> & Hd)].
    + rewrite app_nil_r. destruct (LastIndexByteString_spec (escape name encodeHost) colon) as [[_ ->]|(a & b & Ea & _ & _)]; [done|].
      destruct Hnc. rewrite Ea. set_solver.
    + rewrite LastIndexByteString_last by done. unfold len. rewrite Nat2Z.id, drop_app_length, Hport, andb_false_r. done.
  - apply Forall_app. split; [|done]. eapply Forall_impl; [exact Hbytes|]. intros c Hc. cbn in Hc. by rewrite Hc.
  - intros [E1 ->]%app_nil. destruct name; [done|]. by apply escape_nonempty in E1.
Qed.

Lemma Contains_byte s c : Contains s [c] = bool_decide (c ∈ s).
Proof.
  unfold Contains. destruct (Index_cases s [c]) as [[-> Hno]|(a & b & -> & -> & _)]; [done|done| |].
  - symmetry. apply bool_decide_eq_false. by apply free_of_byte.
  - rewrite bool_decide_true by set_solver. apply Z.leb_le. apply len_nonneg.
Qed.

Definition userhost (ui : option Userinfo) (h : gostring) : gostring :=
  match ui with Some ui => Userinfo_String ui ++ [at_sign] | None => [] end ++ escape h encodeHost.

Definition authority_byte (c : Z) : bool := not_ctl c && negb (among c (str "?#/")).

Lemma host_authority c : host_byte c || (c =? colon) = true -> authority_byte c = true.
Proof.
  intros [H| ->%Z.eqb_eq]%orb_true_iff; [|done]. unfold host_byte, authority_byte in *. apply andb_true_iff in H as [-> H]. cbn [andb].
  apply negb_true_iff, bool_decide_eq_false in H. apply negb_true_iff, bool_decide_eq_false. intros Hin. apply H.
  change (str "?#/@:[") with (str "?#/" ++ str "@:["). apply elem_of_app. by left.
Qed.

Lemma user_authority c : user_byte c = true -> authority_byte c = true /\ valid_userinfo_rune c = true.
Proof.
  unfold user_byte, authority_byte. rewrite !andb_true_iff, !negb_true_iff. intros [[-> ->] H]. split; [|done]. split; [done|].
  apply bool_decide_eq_false in H. apply bool_decide_eq_false. intros Hin. apply H.
  change (str "?#/@:") with (str "?#/" ++ str "@:"). apply elem_of_app. by left.
Qed.

Lemma authority_text ui h :
  user_ok ui -> host_ok h ->
  parseAuthority (userhost ui h) = Ok (ui, h) /\ Forall (fun c => authority_byte c = true) (userhost ui h) /\
  (userhost ui h = [] -> ui = None /\ h = []).
Proof.
  intros Hu Hh. destruct (host_text h Hh) as (Hparse & Hbytes & Hempty). unfold userhost, parseAuthority, LastIndex1.
  assert (at_sign ∉ escape h encodeHost) as Hat by (by apply (bytes_notin (fun c => host_byte c || (c =? colon)))).
  assert (Forall (fun c => authority_byte c = true) (escape h encodeHost)) as Hab by (eapply Forall_impl; [exact Hbytes|]; apply host_authority).
  destruct ui as [ui|]; cbn [app].
  - destruct Hu as (Hn & Hp & Hset). rewrite <- app_assoc. cbn [app]. rewrite LastIndexByteString_last by done.
    pose proof (len_nonneg (Userinfo_String ui)). rewrite (proj2 (Z.ltb_ge _ _)) by lia.
    assert (drop (Z.to_nat (len (Userinfo_String ui) + 1)) (Userinfo_String ui ++ at_sign :: escape h encodeHost) = escape h encodeHost) as ->.
    { unfold len. replace (Z.to_nat _) with (length (Userinfo_String ui) + 1)%nat by lia. rewrite drop_app_ge by lia.
      by replace (_ + 1 - _)%nat with 1%nat by lia. }
    assert (take (Z.to_nat (len (Userinfo_String ui))) (Userinfo_String ui ++ at_sign :: escape h encodeHost) = Userinfo_String ui) as Htake
      by (unfold len; by rewrite Nat2Z.id, take_app_length).
    rewrite Hparse. cbv beta iota zeta. rewrite !Htake.
    pose proof (user_bytes _ Hn) as Hn'. pose proof (user_bytes _ Hp) as Hp'.
    assert (Forall (fun c => authority_byte c = true /\ valid_userinfo_rune c = true) (Userinfo_String ui)) as Hui.
    { unfold Userinfo_String. apply Forall_app. split; [eapply Forall_impl; [exact Hn'|apply user_authority]|].
      destruct (passwordSet ui); [|constructor]. constructor; [done|]. eapply Forall_impl; [exact Hp'|apply user_authority]. }
    assert (colon ∉ escape (username ui) encodeUserPassword) as Hc by (by apply (bytes_notin user_byte)).
    split; [|split].
    + assert (validUserinfo (Userinfo_String ui) = true) as ->.
      { apply forallb_forall. intros c Hin. rewrite Forall_forall in Hui. by apply Hui, list_elem_of_In. }
      cbn [negb]. change (str ":") with [colon]. rewrite Contains_byte. unfold Userinfo_String. destruct ui as [name pass [|]]; cbn [username password passwordSet] in *.
      * rewrite bool_decide_true by (apply elem_of_app; right; left). cbn [negb]. rewrite Cut_at by done. by rewrite !unescape_escape_plain.
      * rewrite app_nil_r, bool_decide_false by done. cbn [negb]. rewrite unescape_escape_plain by done. by rewrite Hset.
    + apply Forall_app. split; [by eapply Forall_impl; [exact Hui|]; intros c []|]. by constructor.
    + intros E. by destruct (Userinfo_String ui).
  - destruct (LastIndexByteString_spec (escape h encodeHost) at_sign) as [[_ ->]|(a & b & E & _ & _)]; [|destruct Hat; rewrite E; set_solver].
    cbn [Z.ltb Z.compare]. rewrite Hparse. split_and!; [done|done|]. intros E. split; [done|auto].
Qed.

(** *** The scheme and the query *)

Lemma getScheme_ok scheme rest :
  scheme_ok scheme -> scheme <> [] -> getScheme (scheme ++ colon :: rest) = Ok (scheme, rest).
Proof.
  intros Hs Hne. unfold getScheme. destruct scheme as [|c scheme]; [done|]. destruct Hs as (Hc & Hs & _).
  assert (forall raw tail i, Forall (fun c => is_letter c || is_digit c || among c (str "+-.") = true) tail -> (i <> 0)%nat ->
    getScheme_loop raw (tail ++ colon :: rest) i = Ok (take (i + length tail) raw, drop (S (i + length tail)) raw)) as Hloop.
  { intros raw tail. induction tail as [|d tail IH]; intros i Ht Hi; cbn [app getScheme_loop].
    - destruct i as [|i]; [done|]. by rewrite Nat.add_0_r.
    - apply Forall_cons in Ht as [Hd Ht]. rewrite (Nat.add_comm i). cbn [length]. rewrite Nat.add_succ_l, <- Nat.add_succ_r, (Nat.add_comm (length tail)).
      destruct (is_letter d); [by apply IH|]. cbn [orb] in Hd. rewrite Hd. destruct i as [|i]; [done|]. by apply IH. }
  cbn [app getScheme_loop]. rewrite Hc, Hloop by done. cbn [Nat.add].
  change (c :: scheme ++ colon :: rest) with ((c :: scheme) ++ colon :: rest). rewrite take_app_length' by done.
  by rewrite (cons_middle colon), app_assoc, drop_app_length' by (rewrite length_app; cbn; lia).
Qed.

Lemma getScheme_none s : s = [] \/ (exists c s', s = c :: s' /\ (c = slash \/ c = question)) -> getScheme s = Ok ([], s).
Proof. by intros [->|(c & s' & -> & [-> | ->])]. Qed.

Definition query_text (u : URL) : gostring := if ForceQuery u || nonempty (RawQuery u) then question :: RawQuery u else [].

Lemma split_query_text u before :
  (ForceQuery u = true -> RawQuery u = []) -> question ∉ before ->
  split_query (before ++ query_text u) = (before, ForceQuery u, RawQuery u).
Proof.
  intros Hf Hb. unfold query_text, nonempty. destruct (bool_decide_reflect (RawQuery u = [])) as [E|E]; cbn [negb].
  - rewrite orb_false_r, E. unfold split_query. change (str "?") with [question]. destruct (ForceQuery u).
    + assert (HasSuffix (before ++ [question]) [question] = true) as ->.
      { unfold HasSuffix. apply andb_true_iff. rewrite len_app. pose proof (len_nonneg before). split; [apply Z.leb_le; lia|].
        apply bool_decide_eq_true. rewrite length_app. cbn [length]. by rewrite Nat.add_sub, drop_app_length. }
      change (Count (before ++ [question]) [question]) with (CountString (before ++ [question]) question).
      rewrite CountString_app, CountString_free by (by apply free_of_byte). cbn [CountString Z.eqb Pos.eqb andb Z.add].
      rewrite length_app. cbn [length]. by rewrite Nat.add_sub, take_app_length.
    + rewrite app_nil_r. assert (HasSuffix before [question] = false) as ->.
      { apply not_true_is_false. unfold HasSuffix. intros [_ H%bool_decide_eq_true]%andb_true_iff. apply Hb.
        rewrite <- (take_drop (length before - length [question]) before), H. apply elem_of_app. right. left. }
      cbn [andb]. destruct (Cut_byte question before) as [[_ ->]|(a & b & -> & _ & _)]; [done|]. destruct Hb. apply elem_of_app. right. left.
  - rewrite orb_true_r. destruct (ForceQuery u); [by destruct E, Hf|]. by apply split_query_at.
Qed.

(** *** The whole text *)

Lemma unescape_empty s mode : unescape s mode = Ok [] -> s = [].
Proof.
  rewrite unescape_unescape_build. destruct s as [|c s]; [done|]. destruct (unescape_check (c :: s) mode 0 false) eqn:E; [|done].
  cbn [unescape_check unescape_build] in *. destruct (c =? percent); [|by destruct (c =? plus)]. by destruct s as [|? [|? ?]].
Qed.

Definition scheme_text (u : URL) : gostring := if nonempty (Scheme u) then Scheme u ++ [colon] else [].
Definition fragment_text (u : URL) : gostring := if nonempty (Fragment u) then hash_ :: EscapedFragment u else [].
Definition hier_text (u : URL) : gostring := print_authority u ++ EscapedPath u.

Lemma authority_path c : authority_byte c = true -> path_byte c = true.
Proof.
  unfold authority_byte, path_byte. rewrite !andb_true_iff, !negb_true_iff. intros [-> H]. split; [done|].
  apply bool_decide_eq_false in H. apply bool_decide_eq_false. intros Hin. apply H.
  change (str "?#/") with (str "?#" ++ str "/"). apply elem_of_app. by left.
Qed.

Lemma HasPrefix_app s t : HasPrefix (s ++ t) s = true.
Proof.
  unfold HasPrefix. apply andb_true_iff. rewrite len_app. pose proof (len_nonneg t). split; [apply Z.leb_le; lia|].
  apply bool_decide_eq_true. by rewrite take_app_length.
Qed.

Lemma split_authority_text a p :
  slash ∉ a -> p = [] \/ HasPrefix p (str "/") = true -> split_authority (str "//" ++ a ++ p) = (a, p).
Proof.
  intros Ha Hp. unfold split_authority. change (drop 2 (str "//" ++ a ++ p)) with (a ++ p). cbv zeta.
  change (str "/") with [slash]. destruct Hp as [->|Hp].
  - rewrite app_nil_r. destruct (Index_cases a [slash]) as [[-> _]|(x & y & -> & _ & _)]; [done|done|done|]. destruct Ha. set_solver.
  - unfold HasPrefix in Hp. apply andb_true_iff in Hp as [_ Hp%bool_decide_eq_true]. destruct p as [|c p]; [done|]. injection Hp as ->.
    change (ascii_byte "/") with slash. destruct (Index_cases (a ++ slash :: p) [slash]) as [[_ Hno]|(x & y & E & -> & Hno)]; [done|done| |].
    + exfalso. apply free_of_byte in Hno. apply Hno. apply elem_of_app. right. left.
    + assert (slash ∉ x) as Hx by (rewrite E in Hno; apply free_of_byte; by eapply free_before).
      destruct (app_cons_notin a x p y slash Ha Hx E) as [<- <-].
      pose proof (len_nonneg a). rewrite (proj2 (Z.leb_le 0 _)) by lia. unfold len. by rewrite Nat2Z.id, take_app_length, drop_app_length.
Qed.

Section Text.
Context (u : URL) (Hu : url_ok u).

Lemma String_shape : String_ u = (scheme_text u ++ hier_text u ++ query_text u) ++ fragment_text u.
Proof using Hu.
  unfold String_, fragment_text, query_text. cbv zeta. rewrite (uo_opaque u Hu). change (nonempty []) with false. cbv iota.
  replace (nonempty (EscapedPath u) && negb (at_ (EscapedPath u) 0 =? slash) && nonempty (Host u)) with false; cycle 1.
  { symmetry. apply not_true_is_false. rewrite !andb_true_iff. intros [[H1 H2] _]. unfold nonempty in H1. apply negb_true_iff, bool_decide_eq_false in H1.
    destruct (uo_abs u Hu) as [?|Hp]; [done|]. unfold HasPrefix in Hp. apply andb_true_iff in Hp as [_ Hp%bool_decide_eq_true].
    destruct (EscapedPath u) as [|c p]; [done|]. injection Hp as ->. done. }
  replace (Contains (Cut (EscapedPath u) (str "/")).1.1 (str ":")) with false; cycle 1.
  { destruct (uo_abs u Hu) as [->|Hp]; [by vm_compute|]. unfold HasPrefix in Hp. apply andb_true_iff in Hp as [_ Hp%bool_decide_eq_true].
    destruct (EscapedPath u) as [|c p]; [done|]. injection Hp as ->. 
    change (ascii_byte "/") with slash. assert (Cut (slash :: p) (str "/") = ([], p, true)) as -> by (apply (Cut_at slash [] p), not_elem_of_nil). done. }
  rewrite andb_false_r. unfold scheme_text, hier_text. rewrite !app_assoc.
  destruct (ForceQuery u || nonempty (RawQuery u)), (nonempty (Fragment u)); by rewrite <- ?app_assoc, ?app_nil_r.
Qed.

Lemma path_text : unescape (EscapedPath u) encodePath = Ok (Path u) /\
  (if bool_decide (EscapedPath u = escape (Path u) encodePath) then [] else EscapedPath u) = RawPath u /\
  Forall (fun c => path_byte c = true) (EscapedPath u) /\ (EscapedPath u = [] <-> Path u = []).
Proof using Hu.
  rewrite (EscapedPath_printed u (uo_abs u Hu)). destruct (printed_text_parse encodePath (Path u) (RawPath u) (uo_path u Hu)) as [H1 H2]; try done.
  split_and!; [done|done|by apply path_printed_bytes, uo_path|]. split; intros E.
  - rewrite E in H1. by injection H1.
  - rewrite E in H1 |- *. by apply unescape_empty in H1.
Qed.

(** The authority is printed, or there is none. *)
Lemma authority_printed :
  (print_authority u = str "//" ++ userhost (User u) (Host u) /\ OmitHost u = false /\
   (Scheme u = [] -> userhost (User u) (Host u) <> [])) \/
  (print_authority u = [] /\ Host u = [] /\ User u = None /\
   (no_authority u \/ Scheme u <> [] /\ OmitHost u = false /\ EscapedPath u = [])).
Proof using Hu.
  destruct path_text as (_ & _ & _ & Hempty). destruct (authority_text _ _ (uo_user u Hu) (uo_host u Hu)) as (_ & _ & Huh).
  pose proof (uo_omit u Hu) as Ho. unfold print_authority, no_authority, nonempty, has_user in *.
  assert (forall h, (if negb (bool_decide (h = [])) then escape h encodeHost else []) = escape h encodeHost) as ->
    by (intros [|]; done).
  destruct (bool_decide_reflect (Scheme u = [])) as [Es|Es], (bool_decide_reflect (Host u = [])) as [Eh|Eh], (User u) as [ui|] eqn:Eu;
    cbn [negb orb andb]; rewrite ?andb_false_r, ?andb_true_r, ?orb_true_r; cbv iota;
    try (left; split_and!; [done|destruct (OmitHost u); [naive_solver|done]|intros _ E; destruct (Huh E); congruence]).
  - right. split_and!; try done. left. auto.
  - destruct (OmitHost u) eqn:Eo; cbn [andb]; [right; split_and!; try done; left; auto|].
    destruct (bool_decide_reflect (Path u = [])) as [Ep|Ep]; cbn [negb orb].
    + right. rewrite Eh. split_and!; try done. right. split_and!; [done|done|by apply Hempty].
    + left. split_and!; [done|done|]. intros; done.
Qed.

Lemma hier_bytes : Forall (fun c => path_byte c = true) (hier_text u).
Proof using Hu.
  destruct path_text as (_ & _ & Hp & _). unfold hier_text. apply Forall_app. split; [|done].
  destruct (authority_text _ _ (uo_user u Hu) (uo_host u Hu)) as (_ & Ha & _).
  destruct authority_printed as [[-> _]|[-> _]]; [|constructor]. apply Forall_app. split; [by repeat constructor|].
  eapply Forall_impl; [exact Ha|apply authority_path].
Qed.

Lemma scheme_bytes : Forall (fun c => path_byte c = true) (scheme_text u).
Proof using Hu.
  unfold scheme_text, nonempty. pose proof (uo_scheme u Hu) as Hs. destruct (Scheme u) as [|c s]; [constructor|].
  destruct Hs as (Hc & Hs & _). cbn [negb bool_decide]. assert (forall c, is_letter c || is_digit c || among c (str "+-.") = true -> path_byte c = true) as Hbyte.
  { intros x Hx. assert (is_byte x) as Hb.
    { unfold is_byte. unfold is_letter, is_digit, among in Hx. rewrite !orb_true_iff, !andb_true_iff, bool_decide_eq_true in Hx.
      destruct Hx as [[?|?]|Hin]; [lia|lia|]. pose proof (str_bytes_ok "+-.") as Hl. rewrite Forall_forall in Hl. by apply Hl. }
    assert (negb (is_letter x || is_digit x || among x (str "+-.")) || path_byte x = true) as H.
    { clear Hx. revert x Hb. apply byte_enum. by vm_compute. }
    by rewrite Hx in H. }
  apply Forall_app. split; [|by repeat constructor]. constructor; [apply Hbyte; by rewrite Hc|]. eapply Forall_impl; [exact Hs|done].
Qed.

Lemma setPath_text v : setPath v (EscapedPath u) = Ok (with_path v (Path u) (RawPath u)).
Proof using Hu. destruct path_text as (Hun & Hraw & _). unfold setPath. by rewrite Hun, Hraw. Qed.

(** What is left after the scheme and without the query. *)
Lemma parse_text : parse (scheme_text u ++ hier_text u ++ query_text u) false = Ok (with_fragment u [] []).
Proof using Hu.
  pose proof (uo_query u Hu) as (Hhash & Hctl & Hforce). pose proof scheme_bytes as Hsb. pose proof hier_bytes as Hhb.
  assert (forall x, path_byte x = true -> not_ctl x = true) as Hpc by (intros x; unfold path_byte; rewrite andb_true_iff; tauto).
  unfold parse. assert (stringContainsCTLByte (scheme_text u ++ hier_text u ++ query_text u) = false) as ->.
  { unfold stringContainsCTLByte. rewrite !existsb_app. apply orb_false_iff. split; [by apply (bytes_no_ctl path_byte)|].
    apply orb_false_iff. split; [by apply (bytes_no_ctl path_byte)|]. unfold query_text. by destruct (_ || _). }
  rewrite andb_false_r. set (s := scheme_text u ++ hier_text u ++ query_text u).
  assert (hier_text u = [] \/ exists p, hier_text u = slash :: p) as Hslash.
  { unfold hier_text. destruct authority_printed as [[-> _]|[-> _]]; [right; by eexists|]. cbn [app].
    destruct (uo_abs u Hu) as [->|Hp]; [by left|right]. unfold HasPrefix in Hp. apply andb_true_iff in Hp as [_ Hp%bool_decide_eq_true].
    destruct (EscapedPath u) as [|c p]; [done|]. injection Hp as ->. by exists p. }
  assert (getScheme s = Ok (Scheme u, hier_text u ++ query_text u) /\ s <> str "*") as [Hgs Hstar].
  { subst s. unfold scheme_text, nonempty. destruct (bool_decide_reflect (Scheme u = [])) as [E|E]; cbn [negb].
    - rewrite E. cbn [app]. assert (hier_text u ++ query_text u = [] \/ exists c s', hier_text u ++ query_text u = c :: s' /\ (c = slash \/ c = question)) as Hc.
      { destruct Hslash as [->|[p ->]]; [|right; eexists _, _; split; [done|by left]]. cbn [app]. unfold query_text.
        destruct (_ || _); [right; eexists _, _; split; [done|by right]|by left]. }
      split; [by apply getScheme_none|]. destruct Hc as [->|(c & s' & -> & [-> | ->])]; done.
    - rewrite <- app_assoc. cbn [app]. split; [apply getScheme_ok; [apply Hu|done]|].
      pose proof (uo_scheme u Hu) as Hs. destruct (Scheme u) as [|c sc]; [done|]. destruct Hs as (Hc & _). cbn. intros [= -> _]. done. }
  rewrite bool_decide_false by done. rewrite Hgs. cbv beta iota zeta.
  rewrite split_query_text by (try done; by apply (bytes_notin path_byte)). cbv beta iota zeta.
  assert (ToLower_ascii (Scheme u) = Scheme u) as ->.
  { pose proof (uo_scheme u Hu) as Hs. destruct (Scheme u); [done|]. by destruct Hs as (_ & _ & ?). }
  cbn [Scheme with_query with_scheme]. unfold hier_text in *.
  destruct authority_printed as [(Hpa & Homit & Hne)|(Hpa & Hh & Hus & Hcase)]; rewrite Hpa.
  - destruct (authority_text _ _ (uo_user u Hu) (uo_host u Hu)) as (Hparse & Hab & _). rewrite <- app_assoc.
    set (a := userhost (User u) (Host u)) in *. set (p := EscapedPath u).
    change (HasPrefix (str "//" ++ a ++ p) (str "/")) with (HasPrefix (str "/" ++ (str "/" ++ a ++ p)) (str "/")).
    rewrite !HasPrefix_app. cbn [negb andb].
    assert (slash ∉ a) as Hsa by (by apply (bytes_notin authority_byte)).
    assert (negb (bool_decide (Scheme u = [])) || negb (HasPrefix (str "//" ++ a ++ p) (str "///")) = true) as ->.
    { destruct (bool_decide_reflect (Scheme u = [])) as [E|E]; cbn [negb orb]; [|done]. apply negb_true_iff, not_true_is_false. specialize (Hne E).
      unfold HasPrefix. intros [_ Hp%bool_decide_eq_true]%andb_true_iff. destruct a as [|x a']; [done|]. injection Hp as ->. apply Hsa. by left. }
    cbv iota. rewrite split_authority_text; [|done|apply Hu]. rewrite Hparse. subst p. rewrite setPath_text.
    f_equal. unfold with_path, with_authority, with_query, with_scheme, with_fragment, new_URL.
    cbn [Scheme Opaque User Host Path RawPath OmitHost ForceQuery RawQuery Fragment RawFragment]. by rewrite (uo_opaque u Hu), Homit.
  - cbn [app]. destruct Hcase as [Hna|(Hs & Homit & Hp)].
    + pose proof (uo_slashes u Hu Hna) as Hss. rewrite Hss, !andb_false_r.
      destruct (uo_abs u Hu) as [Hp|Hp].
      * assert (OmitHost u = false) as Homit by (destruct (OmitHost u) eqn:Eo; [|done]; by destruct (uo_omit u Hu Eo) as (_ & _ & _ & ?)).
        assert (forall v, setPath v [] = Ok (with_path v (Path u) (RawPath u))) as Hset by (intros v; rewrite <- Hp; apply setPath_text).
        destruct Hna as (_ & _ & [Hs|?]); [|congruence]. rewrite Hp, Hs. change (HasPrefix [] (str "/")) with false.
        cbn [negb andb bool_decide]. rewrite (bool_decide_true (@nil Z = [])) by done. cbn [negb andb].
        assert (Contains (Cut [] (str "/")).1.1 (str ":") = false) as -> by (by vm_compute). rewrite Hset.
        f_equal. unfold with_path, with_authority, with_query, with_scheme, with_fragment, new_URL.
        cbn [Scheme Opaque User Host Path RawPath OmitHost ForceQuery RawQuery Fragment RawFragment]. by rewrite (uo_opaque u Hu), Homit, Hh, Hus, Hs.
      * rewrite Hp. cbn [negb andb]. rewrite andb_true_r. destruct (bool_decide_reflect (Scheme u = [])) as [Es|Es]; cbn [negb]; rewrite setPath_text; f_equal;
          unfold with_path, with_authority, with_query, with_scheme, with_omit_host, with_fragment, new_URL;
          cbn [Scheme Opaque User Host Path RawPath OmitHost ForceQuery RawQuery Fragment RawFragment].
        -- assert (OmitHost u = false) as Homit by (destruct (OmitHost u) eqn:Eo; [|done]; by destruct (uo_omit u Hu Eo) as (? & _)).
           by rewrite (uo_opaque u Hu), Hh, Hus, Homit.
        -- destruct Hna as (_ & _ & [?|Homit]); [done|]. by rewrite (uo_opaque u Hu), Hh, Hus, Homit.
    + rewrite Hp. change (HasPrefix [] (str "/")) with false. rewrite bool_decide_false by done. cbn [negb andb].
      destruct path_text as (_ & Hraw & _ & Hpath). rewrite Hp in Hraw. assert (Path u = []) as Epath by (by apply Hpath). rewrite Epath in Hraw.
      f_equal. unfold with_opaque, with_query, with_scheme, with_fragment, new_URL.
      cbn [Scheme Opaque User Host Path RawPath OmitHost ForceQuery RawQuery Fragment RawFragment].
      rewrite (uo_opaque u Hu), Hh, Hus, Homit, Epath. by rewrite <- Hraw.
Qed.

Lemma parse_String : Parse (String_ u) = Ok u.
Proof using Hu.
  pose proof (uo_query u Hu) as (Hhash & _ & _). rewrite String_shape. unfold Parse. change (str "#") with [hash_].
  assert (hash_ ∉ scheme_text u ++ hier_text u ++ query_text u) as Hno.
  { rewrite !not_elem_of_app. split_and!; [apply (bytes_notin path_byte); [apply scheme_bytes|done]|apply (bytes_notin path_byte); [apply hier_bytes|done]|].
    unfold query_text. destruct (_ || _); [|apply not_elem_of_nil]. by rewrite not_elem_of_cons. }
  unfold fragment_text, nonempty. destruct (printed_text_parse encodeFragment (Fragment u) (RawFragment u) (uo_fragment u Hu)) as [Hun Hraw]; [done..|].
  change (printed_text encodeFragment (Fragment u) (RawFragment u)) with (EscapedFragment u) in *.
  assert (with_fragment u (Fragment u) (RawFragment u) = u) as Heta by (by destruct u).
  destruct (bool_decide_reflect (Fragment u = [])) as [E|E]; cbn [negb].
  - rewrite app_nil_r. destruct (Cut_byte hash_ (scheme_text u ++ hier_text u ++ query_text u)) as [[_ ->]|(a & b & Ea & _ & _)]; cycle 1.
    { exfalso. apply Hno. rewrite Ea. apply elem_of_app. right. left. }
    rewrite parse_text, bool_decide_true by done. f_equal. rewrite E in Hun, Hraw. apply unescape_empty in Hun. rewrite Hun in Hraw.
    change (escape [] encodeFragment) with (@nil Z) in Hraw. rewrite bool_decide_true in Hraw by done. by rewrite <- Heta, E, <- Hraw.
  - rewrite Cut_at by done. rewrite parse_text. rewrite bool_decide_false by (intros E'; rewrite E' in Hun; by injection Hun).
    unfold setFragment. rewrite Hun, Hraw. f_equal. by rewrite <- Heta at 3.
Qed.
End Text.

(** ** Claims *)

Definition example_URL : URL :=
  mk_URL (str "https") [] (Some (UserPassword (str "bob") (str "x@y"))) (str "h.example:80") (str "/a/b c") (str "/a%2Fb%20c")
    false false (str "q=1") (str "f") [].

(** Printing a URL and parsing the text gives the URL back: for a lower-case scheme or
    none, any user name and password, a host name with an optional port, any absolute path
    and any fragment, each with the other encoding of it that is kept, and any query
    without a [#] or a control character, if without an authority the path does not start
    with two slashes.  The last condition is needed: a relative reference whose path is two
    escaped slashes and more is parsed as a path without a host; the escapes are lost when
    the rest of the path is not a valid encoding, and the text that is printed names a
    host. *)
Theorem url_text_round_trip u :
  (url_ok u -> Parse (String_ u) = Ok u) /\
  (exists v w, Parse (str "%2F%2Fevil.com/ ") = Ok v /\ Host v = [] /\ String_ v = str "//evil.com/%20" /\
     Parse (String_ v) = Ok w /\ Host w = str "evil.com").
Proof.
  split; [apply parse_String|].
  exists (mk_URL [] [] None [] (str "//evil.com/ ") (str "%2F%2Fevil.com/ ") false false [] [] []),
    (mk_URL [] [] None (str "evil.com") (str "/ ") [] false false [] [] []).
  split_and!; vm_compute; reflexivity.
Qed.

Lemma url_text_round_trip_witness : Parse (String_ example_URL) = Ok example_URL.
Proof.
  apply (proj1 (url_text_round_trip example_URL)). split.
  - split; [reflexivity|]. split; [repeat constructor|reflexivity].
  - reflexivity.
  - split; [apply str_bytes_ok|]. split; [apply str_bytes_ok|discriminate].
  - exists (str "h.example"), (str ":80"). split; [reflexivity|]. split; [apply str_bytes_ok|]. split; [reflexivity|].
    repeat constructor; vm_compute; reflexivity.
  - split; [apply str_bytes_ok|]. right. split; [vm_compute; reflexivity|vm_compute; discriminate].
  - right. vm_compute. reflexivity.
  - discriminate.
  - intros [H _]. discriminate H.
  - split; [|split; [vm_compute; reflexivity|discriminate]]. apply (bool_decide_unpack _). vm_compute. exact I.
  - split; [apply str_bytes_ok|]. left. reflexivity.
Defined.
