(* ===== verification/TextProto.v ===== *)
(** * net/textproto: header keys

    [tools/go-patched/src/net/textproto/reader.go] and [header.go]: the canonical form of a
    header key, with its bit masks, and the map of headers.  The proxy's origin check
    reads the header Origin through it. *)

From S2P Require Import Prelude HostPort Strings Url UrlParse.
Local Open Scope go_scope.
Local Set Warnings "-clear-no-such-hyp".

(** ** Bytes of a key and of a value *)

(** A shift of a 64-bit integer; a count of 64 or more gives zero. *)
Definition shl64 (x n : Z) : Z := if n <? 64 then (x << n) mod 2 ^ 64 else 0.

(** [2^n - 1] shifted to bit [c]. *)
Definition run_of_bits (n c : Z) : Z := Z.ones n << c.
Definition bits_of (l : gostring) : Z := fold_right (fun c m => Z.lor (1 << c) m) 0 l.

Definition field_mask : Z :=
  Z.lor (run_of_bits 10 48) (Z.lor (run_of_bits 26 97) (Z.lor (run_of_bits 26 65) (bits_of (str "!#$%&'*+-.^_`|~")))).

(** [c-64] is a byte. *)
Definition validHeaderFieldByte (c : Z) : bool :=
  negb (Z.lor (Z.land (shl64 1 c) (Z.land field_mask (Z.ones 64)))
              (Z.land (shl64 1 (u8 (c - 64))) (field_mask >> 64)) =? 0).

Definition value_mask : Z := Z.lor (run_of_bits (127 - 33) 33) (Z.lor (1 << 32) (1 << 9)).

Definition validHeaderValueByte (c : Z) : bool :=
  Z.lor (Z.ldiff (shl64 1 c) (Z.land value_mask (Z.ones 64)))
        (Z.ldiff (shl64 1 (u8 (c - 64))) (value_mask >> 64)) =? 0.

(** ** Canonical keys *)

Definition is_lower (c : Z) : bool := (97 <=? c) && (c <=? 122).
Definition is_upper (c : Z) : bool := (65 <=? c) && (c <=? 90).
Definition toLower : Z := 97 - 65.
Notation dash := 45 (only parsing).

(** The first loop: the key is valid, valid but for spaces ([noCanon]), or not. *)
Fixpoint key_check (a : gostring) (noCanon : bool) : option bool :=
  match a with
  | [] => Some noCanon
  | c :: a =>
      if validHeaderFieldByte c then key_check a noCanon
      else if c =? space then key_check a true
      else None
  end.

Fixpoint canon_loop (a : gostring) (upper : bool) : gostring :=
  match a with
  | [] => []
  | c :: a =>
      let c := if upper && is_lower c then c - toLower else if negb upper && is_upper c then c + toLower else c in
      c :: canon_loop a (c =? dash)
  end.

(** The table of common keys holds each under itself: it only saves an allocation. *)
Definition canonicalMIMEHeaderKey (a : gostring) : gostring * bool :=
  match key_check a false with
  | None => (a, false)
  | Some true => (a, true)
  | Some false => (canon_loop a true, true)
  end.

(** The quick check: [true] where the key has to be changed. *)
Fixpoint quick_check (s : gostring) (upper : bool) : bool :=
  match s with
  | [] => false
  | c :: s =>
      if negb (validHeaderFieldByte c) then false
      else if upper && is_lower c then true
      else if negb upper && is_upper c then true
      else quick_check s (c =? dash)
  end.

Definition CanonicalMIMEHeaderKey (s : gostring) : gostring :=
  if quick_check s true then fst (canonicalMIMEHeaderKey s) else s.

(** ** Headers *)

Notation MIMEHeader := (gmap (list Z) (list (list Z))) (only parsing).

Definition MIME_Add (h : MIMEHeader) (key value : gostring) : MIMEHeader :=
  let key := CanonicalMIMEHeaderKey key in <[key := default [] (h !! key) ++ [value]]> h.
Definition MIME_Set (h : MIMEHeader) (key value : gostring) : MIMEHeader := <[CanonicalMIMEHeaderKey key := [value]]> h.
Definition MIME_Values (h : MIMEHeader) (key : gostring) : list gostring := default [] (h !! CanonicalMIMEHeaderKey key).
Definition MIME_Get (h : MIMEHeader) (key : gostring) : gostring :=
  match MIME_Values h key with [] => [] | v :: _ => v end.
Definition MIME_Del (h : MIMEHeader) (key : gostring) : MIMEHeader := delete (CanonicalMIMEHeaderKey key) h.

Example key_examples :
  CanonicalMIMEHeaderKey (str "oRIGIN") = str "Origin" /\ CanonicalMIMEHeaderKey (str "x-image-ARCH") = str "X-Image-Arch" /\
  CanonicalMIMEHeaderKey (str "origin ") = str "origin " /\ canonicalMIMEHeaderKey (str "a b") = (str "a b", true) /\
  canonicalMIMEHeaderKey (str "a:b") = (str "a:b", false).
Proof. split_and!; vm_compute; reflexivity. Qed.

(** ** What a canonical key is *)

(** The masks are the tokens of RFC 7230 and the bytes of a field value. *)
Lemma field_byte c : is_byte c -> validHeaderFieldByte c = is_letter c || is_digit c || among c (str "!#$%&'*+-.^_`|~").
Proof.
  intros Hc. apply eqb_prop. revert c Hc. apply (byte_enum (fun c => Bool.eqb _ _)). by vm_compute.
Qed.

Lemma value_byte c : is_byte c -> validHeaderValueByte c = (c =? 9) || ((32 <=? c) && negb (c =? 127)).
Proof.
  intros Hc. apply eqb_prop. revert c Hc. apply (byte_enum (fun c => Bool.eqb _ _)). by vm_compute.
Qed.

Definition token (s : gostring) : Prop := Forall (fun c => validHeaderFieldByte c = true) s.
Definition lower (s : gostring) : gostring := ToLower_ascii s.

Lemma key_check_token a : token a <-> key_check a false = Some false.
Proof.
  assert (forall a, key_check a true <> Some false) as Ht.
  { clear. induction a as [|c a IH]; [done|]. cbn. destruct (validHeaderFieldByte c); [done|]. by destruct (c =? space). }
  unfold token. induction a as [|c a IH]; [by split; [|constructor]|]. cbn [key_check]. rewrite Forall_cons, IH.
  destruct (validHeaderFieldByte c); [naive_solver|]. split; [by intros [? _]|]. destruct (c =? space); [|done]. intros E. by destruct (Ht a).
Qed.

(** A key that the quick check passes is in canonical form. *)
Lemma quick_canon s upper : token s -> quick_check s upper = false -> canon_loop s upper = s.
Proof.
  intros Ht. revert upper. induction Ht as [|c s Hc Ht IH]; intros upper; cbn [quick_check canon_loop]; [done|].
  rewrite Hc. cbn [negb]. destruct (upper && is_lower c); [done|]. destruct (negb upper && is_upper c); [done|]. intros Hq. by rewrite IH.
Qed.

Lemma canonical_key s : CanonicalMIMEHeaderKey s = if decide (token s) then canon_loop s true else s.
Proof.
  unfold CanonicalMIMEHeaderKey, canonicalMIMEHeaderKey. destruct (decide (token s)) as [Ht|Ht].
  - destruct (quick_check s true) eqn:Eq; [|by rewrite quick_canon]. by rewrite (proj1 (key_check_token s) Ht).
  - destruct (quick_check s true); [|done]. destruct (key_check s false) as [[|]|] eqn:Ek; [done| |done].
    by apply key_check_token in Ek.
Qed.

Lemma canon_byte (upper : bool) c :
  is_byte c ->
  let canon c := if upper && is_lower c then c - toLower else if negb upper && is_upper c then c + toLower else c in
  let low c := if (65 <=? c) && (c <=? 90) then c + 32 else c in
  canon (low c) = canon c /\ low (canon c) = low c /\ validHeaderFieldByte (canon c) = validHeaderFieldByte c /\ is_byte (canon c).
Proof.
  intros Hc canon low.
  assert ((canon (low c) =? canon c) && (low (canon c) =? low c) && Bool.eqb (validHeaderFieldByte (canon c)) (validHeaderFieldByte c) &&
    (0 <=? canon c) && (canon c <? 256) = true) as H.
  { revert c Hc. destruct upper; apply byte_enum; by vm_compute. }
  rewrite !andb_true_iff, !Z.eqb_eq in H. destruct H as [[[[? ?] ?%eqb_prop] ?] ?]. unfold is_byte. split_and!; try done; lia.
Qed.

Lemma canon_lower s upper : bytes_ok s -> canon_loop (lower s) upper = canon_loop s upper.
Proof.
  intros Hs. revert upper. induction Hs as [|c s Hc Hs IH]; intros upper; [done|]. cbn [lower ToLower_ascii map canon_loop].
  destruct (canon_byte upper c Hc) as [E _]. cbv zeta in E |- *. rewrite E. f_equal. apply IH.
Qed.

Lemma lower_canon s upper : bytes_ok s -> lower (canon_loop s upper) = lower s /\ bytes_ok (canon_loop s upper) /\ (token s -> token (canon_loop s upper)).
Proof.
  intros Hs. revert upper. induction Hs as [|c s Hc Hs IH]; intros upper; [by repeat constructor|]. cbn [canon_loop].
  destruct (canon_byte upper c Hc) as (_ & E & Ev & Hb). cbv zeta in E, Ev, Hb |- *. set (c' := if upper && is_lower c then _ else _) in *.
  destruct (IH (c' =? dash)) as (IH1 & IH2 & IH3). cbn [lower ToLower_ascii map]. split_and!.
  - unfold lower, ToLower_ascii in *. cbn [map]. by rewrite E, IH1.
  - by constructor.
  - intros [Ht ?]%Forall_cons. constructor; [by rewrite Ev|by apply IH3].
Qed.

Lemma canon_idem s : bytes_ok s -> CanonicalMIMEHeaderKey (CanonicalMIMEHeaderKey s) = CanonicalMIMEHeaderKey s.
Proof.
  intros Hs. rewrite !(canonical_key s). destruct (decide (token s)) as [Ht|Ht]; [|by rewrite canonical_key, decide_False].
  destruct (lower_canon s true Hs) as (Hl & Hb & Htk). rewrite canonical_key, decide_True by auto.
  by rewrite <- (canon_lower (canon_loop s true)), Hl, canon_lower.
Qed.

Lemma canon_same s t :
  bytes_ok s -> bytes_ok t -> token s -> token t -> CanonicalMIMEHeaderKey s = CanonicalMIMEHeaderKey t <-> lower s = lower t.
Proof.
  intros Hs Ht Ts Tt. rewrite !canonical_key, !decide_True by done. split; intros E.
  - by rewrite <- (proj1 (lower_canon s true Hs)), E, (proj1 (lower_canon t true Ht)).
  - by rewrite <- (canon_lower s), E, canon_lower.
Qed.

(** Header keys.  The bit masks accept exactly the bytes of a token of RFC 7230.  The
    canonical form of a key is its own canonical form; two tokens have the same one
    exactly when they differ in case only, and a key that is not a token is left as it
    is.  So a value set or added under one spelling of a key is read under every other,
    and no other key is affected. *)
Theorem header_keys_exact (s t v : gostring) (h : gmap (list Z) (list (list Z))) :
  bytes_ok s -> bytes_ok t ->
  (token s <-> Forall (fun c => is_letter c || is_digit c || among c (str "!#$%&'*+-.^_`|~") = true) s) /\
  CanonicalMIMEHeaderKey (CanonicalMIMEHeaderKey s) = CanonicalMIMEHeaderKey s /\
  (~ token s -> CanonicalMIMEHeaderKey s = s) /\
  (token s -> token t -> CanonicalMIMEHeaderKey s = CanonicalMIMEHeaderKey t <-> lower s = lower t) /\
  (token s -> token t -> lower s = lower t ->
     MIME_Get (MIME_Set h s v) t = v /\ MIME_Values (MIME_Add h s v) t = MIME_Values h t ++ [v] /\ MIME_Values (MIME_Del h s) t = []) /\
  (token s -> token t -> lower s <> lower t ->
     MIME_Values (MIME_Set h s v) t = MIME_Values h t /\ MIME_Values (MIME_Add h s v) t = MIME_Values h t /\
     MIME_Values (MIME_Del h s) t = MIME_Values h t).
Proof.
  intros Hs Ht. split_and!.
  - unfold token. split; intros Hf; (eapply Forall_impl; [exact (proj2 (Forall_and _ _) (conj Hs Hf))|]); intros c [Hc Hv].
    + by rewrite <- field_byte.
    + by rewrite field_byte.
  - by apply canon_idem.
  - intros Hn. by rewrite canonical_key, decide_False.
  - by apply canon_same.
  - intros Ts Tt E%canon_same; try done. unfold MIME_Get, MIME_Values, MIME_Set, MIME_Add, MIME_Del. rewrite E.
    by rewrite !lookup_insert_eq, lookup_delete_eq.
  - intros Ts Tt E. assert (CanonicalMIMEHeaderKey s <> CanonicalMIMEHeaderKey t) as Hne by (by rewrite canon_same).
    unfold MIME_Values, MIME_Set, MIME_Add, MIME_Del. by rewrite !lookup_insert_ne, lookup_delete_ne.
Qed.

Lemma header_keys_exact_witness :
  MIME_Get (MIME_Set ∅ (str "oRIGIN") (str "https://a")) (str "Origin") = str "https://a".
Proof.
  pose proof (header_keys_exact (str "oRIGIN") (str "Origin") (str "https://a") ∅ (str_bytes_ok _) (str_bytes_ok _)) as (_ & _ & _ & _ & H & _).
  apply H.
  - repeat constructor.
  - repeat constructor.
  - reflexivity.
Defined.
