(* ===== verification/PathClean.v ===== *)
(** * path: lexical cleaning of paths

    [tools/go-patched/src/path/path.go]: the lazily allocated buffer, [Clean], [Split], [Ext],
    [Join], [Base] and [Dir], and [cleanPath] of
    [tools/go-patched/src/net/http/server.go], with which the request multiplexer brings
    the path of a request to its canonical form. *)

From S2P Require Import Prelude HostPort Strings Url UrlParse.
Local Open Scope go_scope.
Local Set Warnings "-clear-no-such-hyp".

(** ** lazybuf

    [None] stands for an index out of range. *)
Record lazybuf := mk_lazybuf { lb_s : gostring; lb_buf : option gobytes; lb_w : Z }.

Definition lb_index (b : lazybuf) (i : Z) : option Z :=
  match lb_buf b with Some buf => index buf i | None => index (lb_s b) i end.

Definition lb_store (b : lazybuf) (buf : gobytes) (c : Z) : option lazybuf :=
  buf ← update buf (lb_w b) c; Some (mk_lazybuf (lb_s b) (Some buf) (lb_w b + 1)).

Definition lb_append (b : lazybuf) (c : Z) : option lazybuf :=
  match lb_buf b with
  | Some buf => lb_store b buf c
  | None =>
      if (lb_w b <? len (lb_s b)) && bool_decide (index (lb_s b) (lb_w b) = Some c)
      then Some (mk_lazybuf (lb_s b) None (lb_w b + 1))
      else
        let n := Z.to_nat (lb_w b) in
        lb_store b (take n (lb_s b) ++ replicate (length (lb_s b) - n) 0) c
  end.

Definition lb_string (b : lazybuf) : option gostring :=
  match lb_buf b with Some buf => slice buf 0 (lb_w b) | None => slice (lb_s b) 0 (lb_w b) end.

Definition lb_back (b : lazybuf) : lazybuf := mk_lazybuf (lb_s b) (lb_buf b) (lb_w b - 1).

(** ** Clean

    The loops read what is left of the path, [path[r:]]. *)

(** [r == n || path[r] == '/'] *)
Definition elem_end (rest : gostring) : bool :=
  match rest with [] => true | c :: _ => c =? slash end.

(** [for out.w > dotdot && out.index(out.w) != '/' { out.w-- }] *)
Fixpoint backtrack (fuel : nat) (out : lazybuf) (dotdot : Z) : option lazybuf :=
  match fuel with
  | O => None
  | S fuel =>
      if dotdot <? lb_w out then
        c ← lb_index out (lb_w out);
        if c =? slash then Some out else backtrack fuel (lb_back out) dotdot
      else Some out
  end.

(** The [..] element: the buffer and the new [dotdot]. *)
Definition Clean_dotdot (rooted : bool) (out : lazybuf) (dotdot : Z) : option (lazybuf * Z) :=
  if dotdot <? lb_w out then
    out ← backtrack (S (Z.to_nat (lb_w out))) (lb_back out) dotdot; Some (out, dotdot)
  else if negb rooted then
    out ← (if 0 <? lb_w out then lb_append out slash else Some out);
    out ← lb_append out dot;
    out ← lb_append out dot;
    Some (out, lb_w out)
  else Some (out, dotdot).

(** [for ; r < n && path[r] != '/'; r++ { out.append(path[r]) }] *)
Fixpoint copy_elem (rest : gostring) (out : lazybuf) : option (lazybuf * gostring) :=
  match rest with
  | [] => Some (out, [])
  | c :: rest' =>
      if c =? slash then Some (out, rest) else out ← lb_append out c; copy_elem rest' out
  end.

Fixpoint Clean_loop (fuel : nat) (rooted : bool) (rest : gostring) (out : lazybuf) (dotdot : Z)
    : option lazybuf :=
  match fuel, rest with
  | _, [] => Some out
  | O, _ => None
  | S fuel, c :: rest' =>
      if c =? slash then Clean_loop fuel rooted rest' out dotdot
      else if (c =? dot) && elem_end rest' then Clean_loop fuel rooted rest' out dotdot
      else if (c =? dot) && (at_ rest' 0 =? dot) && elem_end (drop 1 rest') then
        '(out, dotdot) ← Clean_dotdot rooted out dotdot;
        Clean_loop fuel rooted (drop 1 rest') out dotdot
      else
        out ← (if (rooted && negb (lb_w out =? 1)) || (negb rooted && negb (lb_w out =? 0))
               then lb_append out slash else Some out);
        '(out, rest) ← copy_elem rest out;
        Clean_loop fuel rooted rest out dotdot
  end.

Definition Clean (path : gostring) : option gostring :=
  match path with
  | [] => Some [dot]
  | c :: rest =>
      let rooted := c =? slash in
      let out := mk_lazybuf path None 0 in
      out ← (if rooted
             then out ← lb_append out slash; Clean_loop (length path) true rest out 1
             else Clean_loop (length path) false path out 0);
      if lb_w out =? 0 then Some [dot] else lb_string out
  end.

Definition path_Split (path : gostring) : gostring * gostring :=
  let i := LastIndexByteString path slash in
  (take (Z.to_nat (i + 1)) path, drop (Z.to_nat (i + 1)) path).

Definition path_Join (elem : list gostring) : option gostring :=
  if forallb (fun e => bool_decide (e = [])) elem then Some []
  else
    Clean (fold_left (fun buf e =>
      if (0 <? len buf) || negb (bool_decide (e = []))
      then (if 0 <? len buf then buf ++ [slash] else buf) ++ e else buf) elem []).

(** The loop runs from the end of the path. *)
Fixpoint Ext_loop (rev_path ext : gostring) : gostring :=
  match rev_path with
  | c :: l => if c =? slash then [] else if c =? dot then c :: ext else Ext_loop l (c :: ext)
  | [] => []
  end.
Definition Ext (path : gostring) : gostring := Ext_loop (rev path) [].

Definition Dir (path : gostring) : option gostring := Clean (fst (path_Split path)).
Definition IsAbs (path : gostring) : bool := (0 <? len path) && (at_ path 0 =? slash).

Fixpoint Base_strip (rev_path : gostring) : gostring :=
  match rev_path with
  | c :: l => if c =? slash then Base_strip l else rev_path
  | [] => []
  end.

Definition Base (path : gostring) : gostring :=
  if bool_decide (path = []) then [dot] else
  let path := rev (Base_strip (rev path)) in
  let i := LastIndexByteString path slash in
  let path := if 0 <=? i then drop (Z.to_nat (i + 1)) path else path in
  if bool_decide (path = []) then [slash] else path.

(** ** cleanPath *)

Definition cleanPath (p : gostring) : option gostring :=
  if bool_decide (p = []) then Some [slash] else
  let p := if at_ p 0 =? slash then p else slash :: p in
  np ← Clean p;
  if (List.last p 0 =? slash) && negb (bool_decide (np = [slash])) then
    if (len p =? len np + 1) && HasPrefix p np then Some p else Some (np ++ [slash])
  else Some np.

Example Clean_examples :
  Clean (str "/a/b/../c/./d//") = Some (str "/a/c/d") /\ Clean (str "/../..") = Some (str "/") /\
  Clean (str "../a/../../b") = Some (str "../../b") /\ Clean (str "a/..") = Some (str ".") /\
  cleanPath (str "/a/./b/") = Some (str "/a/b/") /\ cleanPath (str "a//b") = Some (str "/a/b") /\
  path_Join [str "a"; []; str "../b"] = Some (str "b") /\ Base (str "/x/y//") = str "y" /\
  Ext (str "a.b/c.tar.gz") = str ".gz" /\ Ext (str "a.b/c") = [].
Proof. split_and!; vm_compute; reflexivity. Qed.

(** ** The buffer holds what was appended *)

Definition holds_text (b : lazybuf) (s out : gostring) : Prop :=
  lb_s b = s /\ lb_w b = len out /\ (length out <= length s)%nat /\
  match lb_buf b with
  | None => take (length out) s = out
  | Some buf => length buf = length s /\ take (length out) buf = out
  end.

Lemma store_text b s out buf c :
  holds_text b s out -> length buf = length s -> take (length out) buf = out -> (length out < length s)%nat ->
  exists b', lb_store b buf c = Some b' /\ holds_text b' s (out ++ [c]).
Proof.
  intros (Hs & Hw & _ & _) Hl Ht Hlt. unfold lb_store. rewrite Hw, update_Some by (unfold len; lia).
  unfold len. rewrite Nat2Z.id. eexists. split; [done|]. unfold holds_text. cbn. unfold len.
  rewrite length_app, length_insert. cbn. split_and!; [done|lia|lia|done|].
  rewrite Nat.add_1_r. rewrite (take_S_r _ _ c) by (apply list_lookup_insert_eq; lia).
  by rewrite take_insert_ge, Ht by lia.
Qed.

Lemma append_text b s out c :
  holds_text b s out -> (length out < length s)%nat ->
  exists b', lb_append b c = Some b' /\ holds_text b' s (out ++ [c]).
Proof.
  intros H Hlt. pose proof H as (Hs & Hw & Hle & Hb). unfold lb_append. destruct (lb_buf b) as [buf|] eqn:Ebuf.
  - destruct Hb as [Hl Ht]. by eapply store_text.
  - rewrite Hs, Hw. destruct (_ && _) eqn:E.
    + apply andb_true_iff in E as [_ E%bool_decide_eq_true]. eexists. split; [done|].
      unfold index in E. case_decide; [|done]. unfold len in E. rewrite Nat2Z.id in E.
      unfold holds_text. cbn. unfold len. rewrite length_app. cbn. split_and!; [done|lia|lia|].
      rewrite Nat.add_1_r, (take_S_r _ _ _ E). by rewrite Hb.
    + eapply store_text; [done| | |done]; unfold len; rewrite Nat2Z.id.
      * rewrite length_app, length_replicate, length_take. lia.
      * rewrite take_app_le by (rewrite length_take; lia). by rewrite take_take, Nat.min_id.
Qed.

Lemma append_text_list b s out l :
  holds_text b s out -> (length out + length l <= length s)%nat -> slash ∉ l ->
  forall rest, elem_end rest = true ->
  exists b', copy_elem (l ++ rest) b = Some (b', rest) /\ holds_text b' s (out ++ l).
Proof.
  revert b out. induction l as [|c l IH]; intros b out H Hle Hno rest Hend.
  - exists b. rewrite app_nil_r. split; [|done]. destruct rest as [|c rest]; [done|]. cbn in *. by rewrite Hend.
  - apply not_elem_of_cons in Hno as [Hc Hno]. cbn [app copy_elem length] in *.
    rewrite (proj2 (Z.eqb_neq c slash)) by congruence.
    destruct (append_text b s out c H) as (b1 & -> & H1); [lia|]. cbn.
    destruct (IH b1 (out ++ [c]) H1) with (rest := rest) as (b2 & -> & H2); try done.
    { rewrite length_app. cbn. lia. }
    exists b2. split; [done|]. by rewrite <- app_assoc in H2.
Qed.

Lemma back_text b s out c :
  holds_text b s (out ++ [c]) -> holds_text (lb_back b) s out /\ lb_index (lb_back b) (lb_w b - 1) = Some c.
Proof.
  intros (Hs & Hw & Hle & Hb). rewrite length_app in Hle, Hb. change (length [c]) with 1%nat in Hle, Hb.
  unfold len in Hw. rewrite length_app in Hw. change (length [c]) with 1%nat in Hw.
  assert (forall l, take (length out + 1) l = out ++ [c] -> take (length out) l = out /\ index l (lb_w b - 1) = Some c) as Ht.
  { intros l Hl. split.
    - replace (take (length out) l) with (take (length out) (take (length out + 1) l))
        by (rewrite take_take; f_equal; lia).
      by rewrite Hl, take_app_length.
    - replace (lb_w b - 1) with (Z.of_nat (length out)) by lia. apply index_Some; [lia|].
      rewrite Nat2Z.id. rewrite <- (lookup_take_lt l (length out + 1)), Hl by lia.
      rewrite lookup_app_r, Nat.sub_diag by lia. done. }
  unfold holds_text, lb_back, lb_index. cbn. destruct (lb_buf b) as [buf|].
  - destruct Hb as [Hl Hb]. destruct (Ht _ Hb). split_and!; try done; unfold len; lia.
  - rewrite Hs. destruct (Ht _ Hb). split_and!; try done; unfold len; lia.
Qed.

(** Backing up over an element, to the slash before it or to [dotdot]. *)
Lemma backtrack_elem fuel b s pre e :
  holds_text b s (pre ++ slash :: e) -> slash ∉ e -> forall dotdot c, dotdot <= len pre ->
  lb_index b (lb_w b) = Some c -> c <> slash -> (length e + 2 <= fuel)%nat ->
  exists b', backtrack fuel b dotdot = Some b' /\ holds_text b' s pre.
Proof.
  revert fuel b. induction e as [|x e IH] using rev_ind; intros fuel b H Hno dotdot c Hd Hi Hc Hf;
    (destruct fuel as [|fuel]; [cbn in Hf; lia|]); cbn [backtrack].
  - pose proof H as (_ & Hw & _). rewrite len_app, len_cons, len_nil in Hw.
    rewrite (proj2 (Z.ltb_lt _ _)) by lia. rewrite Hi. cbn. rewrite (proj2 (Z.eqb_neq c slash)) by done.
    destruct (back_text b s pre slash H) as [H1 Hi1].
    destruct fuel as [|fuel]; [cbn in Hf; lia|]. cbn [backtrack].
    destruct (dotdot <? _); [|by exists (lb_back b)].
    change (lb_w (lb_back b)) with (lb_w b - 1). rewrite Hi1. cbn. by exists (lb_back b).
  - rewrite app_comm_cons, app_assoc in H. pose proof H as (_ & Hw & _).
    rewrite !len_app, len_cons, len_cons, len_nil in Hw. pose proof (len_nonneg e).
    rewrite (proj2 (Z.ltb_lt _ _)) by lia. rewrite Hi. cbn. rewrite (proj2 (Z.eqb_neq c slash)) by done.
    destruct (back_text _ _ _ _ H) as [H1 Hi1]. apply not_elem_of_app in Hno as [Hno Hx].
    apply IH with (c := x); try done; [|rewrite length_app in Hf; cbn in Hf; lia].
    intros ->. apply Hx, elem_of_cons. by left.
Qed.

Lemma backtrack_first fuel b s pre e :
  holds_text b s (pre ++ e) -> slash ∉ e -> forall c,
  lb_index b (lb_w b) = Some c -> c <> slash -> (length e + 1 <= fuel)%nat ->
  exists b', backtrack fuel b (len pre) = Some b' /\ holds_text b' s pre.
Proof.
  revert fuel b. induction e as [|x e IH] using rev_ind; intros fuel b H Hno c Hi Hc Hf;
    (destruct fuel as [|fuel]; [cbn in Hf; lia|]); cbn [backtrack]; pose proof H as (_ & Hw & _).
  - rewrite app_nil_r in *. rewrite Hw, Z.ltb_irrefl. by exists b.
  - rewrite app_assoc in H. rewrite !len_app, len_cons, len_nil in Hw. pose proof (len_nonneg e).
    rewrite (proj2 (Z.ltb_lt _ _)) by lia. rewrite Hi. cbn. rewrite (proj2 (Z.eqb_neq c slash)) by done.
    destruct (back_text _ _ _ _ H) as [H1 Hi1]. apply not_elem_of_app in Hno as [Hno Hx].
    apply IH with (c := x); try done; [|rewrite length_app in Hf; cbn in Hf; lia].
    intros ->. apply Hx, elem_of_cons. by left.
Qed.

(** ** What Clean computes: a stack of elements *)

Definition dots : gostring := [dot; dot].

(** The elements of a path that are not empty. *)
Definition elements (path : gostring) : list gostring :=
  filter (fun e => e <> []) (Split path [slash]).

(** An element meets the elements before it, the last one first. *)
Definition push (rooted : bool) (stack : list gostring) (e : gostring) : list gostring :=
  if decide (e = [dot]) then stack
  else if decide (e = dots) then
    match stack with
    | [] => if rooted then [] else [dots]
    | top :: below => if decide (top = dots) then dots :: stack else below
    end
  else e :: stack.

Definition render (rooted : bool) (stack : list gostring) : gostring :=
  (if rooted then [slash] else []) ++ Join (rev stack) [slash].

Definition clean_spec (path : gostring) : gostring :=
  let rooted := bool_decide (head path = Some slash) in
  let text := render rooted (fold_left (push rooted) (elements path) []) in
  if decide (text = []) then [dot] else text.

Lemma Split_slash a b : slash ∉ a -> Split (a ++ slash :: b) [slash] = a :: Split b [slash].
Proof.
  intros Ha. apply (proj2 (Split_unfold (a ++ [slash] ++ b) [slash] ltac:(done) ltac:(done))); [done|].
  intros j Hj Hm. apply match_at_head in Hm; [|done]. apply Ha. change (at_ [slash] 0) with slash in Hm.
  rewrite <- Hm. unfold at_. rewrite app_nth1 by done. by apply list_elem_of_In, nth_In.
Qed.

Lemma Split_no_slash a : slash ∉ a -> Split a [slash] = [a].
Proof. intros Ha. by apply (proj1 (Split_unfold a [slash] ltac:(done) ltac:(done))), free_of_byte. Qed.

Lemma elements_slash rest : elements (slash :: rest) = elements rest.
Proof.
  unfold elements. change (slash :: rest) with ([] ++ slash :: rest).
  rewrite Split_slash by apply not_elem_of_nil. rewrite filter_cons_False by (intros []; done). done.
Qed.

Lemma elements_elem e tail :
  e <> [] -> slash ∉ e -> elem_end tail = true -> elements (e ++ tail) = e :: elements tail.
Proof.
  intros He Hno Hend. unfold elements. destruct tail as [|c tail].
  - rewrite app_nil_r, Split_no_slash by done. rewrite filter_cons_True by done.
    rewrite (Split_no_slash []) by apply not_elem_of_nil. rewrite filter_cons_False by (intros []; done); done.
  - apply Z.eqb_eq in Hend as ->. rewrite Split_slash by done. rewrite filter_cons_True by done.
    f_equal. symmetry. apply elements_slash.
Qed.

Lemma take_elem rest : exists e tail, rest = e ++ tail /\ slash ∉ e /\ elem_end tail = true.
Proof.
  induction rest as [|c rest (e & tail & -> & Hno & Hend)].
  - exists [], []. split_and!; [done|apply not_elem_of_nil|done].
  - destruct (decide (c = slash)) as [->|Hc].
    + exists [], (slash :: e ++ tail). split_and!; [done|apply not_elem_of_nil|done].
    + exists (c :: e), tail. split_and!; [done| |done]. apply not_elem_of_cons. split; [congruence|done].
Qed.

Lemma render_cons rooted e stack :
  render rooted (e :: stack) =
    render rooted stack ++ (if decide (stack = []) then [] else [slash]) ++ e.
Proof.
  unfold render. rewrite <- app_assoc. f_equal. cbn [rev]. destruct (decide (stack = [])) as [->|Hne].
  - cbn. by rewrite app_nil_r.
  - rewrite Join_snoc; [done|]. intros E. apply Hne. apply (f_equal (@rev _)) in E. by rewrite rev_involutive in E.
Qed.

(** Names above a base of [..] elements, which a rooted path does not have. *)
Definition name_ok (e : gostring) : Prop := e <> [] /\ e <> [dot] /\ e <> dots /\ slash ∉ e.
Definition stack_ok (rooted : bool) (names base : list gostring) : Prop :=
  Forall name_ok names /\ Forall (eq dots) base /\ (rooted = true -> base = []).

Lemma stack_ok_name rooted names base e :
  stack_ok rooted names base -> name_ok e -> stack_ok rooted (e :: names) base.
Proof. intros (H1 & H2 & H3) He. split_and!; try done. by constructor. Qed.

Lemma render_nonempty rooted stack :
  Forall (fun e => e <> []) stack -> render rooted stack = [] -> rooted = false /\ stack = [].
Proof.
  intros Hf H. destruct rooted; [done|]. destruct stack as [|e stack]; [done|].
  rewrite render_cons in H. apply app_eq_nil in H as [_ H]. apply app_eq_nil in H as [_ ->].
  by apply Forall_cons in Hf as [? _].
Qed.

Lemma stack_nonempty rooted names base :
  stack_ok rooted names base -> Forall (fun e => e <> []) (names ++ base).
Proof.
  intros (H1 & H2 & _). apply Forall_app. split; eapply Forall_impl; eauto; [by intros e [? _]|].
  by intros e <-.
Qed.

(** The width test of the code is the emptiness of the stack. *)
Lemma width_test rooted names base b s :
  stack_ok rooted names base -> holds_text b s (render rooted (names ++ base)) ->
  ((rooted && negb (lb_w b =? 1)) || (negb rooted && negb (lb_w b =? 0)))
  = negb (bool_decide (names ++ base = [])).
Proof.
  intros Hok (_ & Hw & _). rewrite Hw. pose proof (stack_nonempty _ _ _ Hok) as Hne.
  destruct (names ++ base) as [|e st] eqn:E; [by destruct rooted|].
  apply Forall_cons in Hne as [He Hst]. rewrite render_cons, len_app, len_app.
  assert (0 < len e) by (destruct e; [done|rewrite len_cons; pose proof (len_nonneg e); lia]).
  pose proof (len_nonneg (if decide (st = []) then [] else [slash])).
  assert (rooted = true -> 1 <= len (render rooted st)).
  { intros ->. unfold render. rewrite len_app. pose proof (len_nonneg (Join (rev st) [slash])).
    change (len [slash]) with 1. lia. }
  pose proof (len_nonneg (render rooted st)).
  rewrite bool_decide_false by done.
  destruct rooted; cbn [andb negb orb]; [rewrite (proj2 (Z.eqb_neq _ 1)) by (specialize (H1 eq_refl); lia)
    |rewrite (proj2 (Z.eqb_neq _ 0)) by lia]; done.
Qed.

Lemma render_longer rooted names base :
  Forall (fun e => e <> []) names -> names <> [] -> len (render rooted base) < len (render rooted (names ++ base)).
Proof.
  induction names as [|e names IH]; [done|]. intros Hf _. apply Forall_cons in Hf as [He Hf].
  cbn [app]. rewrite render_cons, !len_app.
  assert (0 < len e) by (destruct e; [done|rewrite len_cons; pose proof (len_nonneg e); lia]).
  pose proof (len_nonneg (if decide (names ++ base = []) then [] else [slash])).
  destruct names as [|e' names]; [cbn [app] in *; lia|]. specialize (IH Hf ltac:(done)). lia.
Qed.

Lemma names_nonempty rooted names base : stack_ok rooted names base -> Forall (fun e => e <> []) names.
Proof. intros (H & _). eapply Forall_impl; [exact H|]. by intros e [? _]. Qed.

(** Removing the last name. *)
Lemma pop_name rooted e names base out s :
  stack_ok rooted (e :: names) base -> holds_text out s (render rooted (e :: names ++ base)) ->
  exists b', backtrack (S (Z.to_nat (lb_w out))) (lb_back out) (len (render rooted base)) = Some b' /\
    holds_text b' s (render rooted (names ++ base)).
Proof.
  intros Hok H. pose proof Hok as (Hn & Hb & Hr). apply Forall_cons in Hn as [(He & _ & _ & Hslash) Hn].
  destruct e as [|x e _] using rev_ind; [done|]. apply not_elem_of_app in Hslash as [Hs Hx].
  rewrite not_elem_of_cons in Hx. destruct Hx as [Hx _].
  rewrite render_cons, !app_assoc in H. destruct (back_text _ _ _ _ H) as [H1 Hi].
  pose proof H as (_ & Hw & _). rewrite !len_app, len_cons, len_nil in Hw.
  pose proof (len_nonneg (render rooted (names ++ base))). pose proof (len_nonneg e).
  assert (length e = Z.to_nat (len e)) as El by (unfold len; lia).
  change (lb_w out - 1) with (lb_w (lb_back out)) in Hi.
  destruct (decide (names ++ base = [])) as [Hnil|Hne].
  - apply app_eq_nil in Hnil as [-> ->]. cbn [app] in *. rewrite app_nil_r in H1.
    eapply backtrack_first; [exact H1|done|exact Hi|congruence|]. rewrite El. change (len (@nil Z)) with 0 in Hw. lia.
  - rewrite <- app_assoc in H1. eapply backtrack_elem; [exact H1|done| |exact Hi|congruence|].
    + destruct names as [|e' names]; [by cbn [app]|]. apply Z.lt_le_incl, render_longer; [|done].
      eapply (names_nonempty rooted _ base). by split_and!.
    + rewrite El. change (len [slash]) with 1 in Hw. lia.
Qed.

Lemma dotdot_step rooted names base out s :
  stack_ok rooted names base -> holds_text out s (render rooted (names ++ base)) ->
  (length (render rooted (names ++ base)) + (if decide (names ++ base = []) then 0 else 1) + 2 <= length s)%nat ->
  exists b' names' base', Clean_dotdot rooted out (len (render rooted base)) = Some (b', len (render rooted base')) /\
    stack_ok rooted names' base' /\ push rooted (names ++ base) dots = names' ++ base' /\
    holds_text b' s (render rooted (names' ++ base')) /\
    (length (render rooted (names' ++ base')) <= length (render rooted (names ++ base))
       + (if decide (names ++ base = []) then 0 else 1) + 2)%nat.
Proof.
  intros Hok H Hroom. pose proof Hok as (Hn & Hb & Hr). pose proof H as (_ & Hw & _).
  unfold Clean_dotdot. rewrite Hw. destruct names as [|e names].
  - cbn [app] in *. rewrite Z.ltb_irrefl. destruct rooted; cbn [negb].
    + rewrite (Hr eq_refl) in *. exists out, [], []. split_and!; try done. cbn [app]. lia.
    + assert (exists b1, (if 0 <? len (render false base) then lb_append out slash else Some out) = Some b1 /\
        holds_text b1 s (render false base ++ (if decide (base = []) then [] else [slash]))) as (b1 & -> & H1).
      { destruct (decide (base = [])) as [->|Hne].
        - exists out. split; [done|]. by rewrite app_nil_r.
        - pose proof (render_longer false base [] ltac:(by eapply Forall_impl; [exact Hb|]; intros ? <-) Hne) as Hl.
          rewrite app_nil_r in Hl. change (len (render false [])) with 0 in Hl. rewrite (proj2 (Z.ltb_lt _ _)) by lia.
          apply append_text; [done|lia]. }
      cbn [mbind option_bind]. destruct (append_text b1 s _ dot H1) as (b2 & -> & H2).
      { rewrite length_app. destruct (decide (base = [])); cbn in *; lia. }
      cbn [mbind option_bind]. destruct (append_text b2 s _ dot H2) as (b3 & -> & H3).
      { rewrite !length_app. destruct (decide (base = [])); cbn in *; lia. }
      cbn [mbind option_bind]. rewrite <- !app_assoc in H3.
      assert (render false base ++ (if decide (base = []) then [] else [slash]) ++ [dot] ++ [dot]
              = render false (dots :: base)) as E by (by rewrite render_cons).
      rewrite E in H3. pose proof H3 as (_ & -> & _). exists b3, [], (dots :: base). split_and!; try done.
      * split_and!; [constructor|by constructor|done].
      * unfold push. rewrite decide_False, decide_True by done. destruct base as [|d base]; [done|].
        apply Forall_cons in Hb as [<- _]. by rewrite decide_True.
      * cbn [app]; rewrite <- E, !length_app. cbn. destruct (decide (base = [])); cbn; lia.
  - apply Forall_cons in Hn as [He Hn]. cbn [app] in *.
    rewrite (proj2 (Z.ltb_lt _ _)).
    2: { apply (render_longer rooted (e :: names) base); [|done]. by eapply names_nonempty. }
    destruct (pop_name _ _ _ _ _ _ Hok H) as (b' & Hbt & H'). rewrite Hw in Hbt. rewrite Hbt. cbn [mbind option_bind].
    exists b', names, base. split_and!; try done.
    + unfold push. rewrite decide_False, decide_True by done. destruct He as (_ & _ & He & _).
      by rewrite decide_False.
    + rewrite render_cons, !length_app. lia.
Qed.

Lemma push_name rooted stack e : name_ok e -> push rooted stack e = e :: stack.
Proof. intros (_ & H1 & H2 & _). unfold push. by rewrite !decide_False. Qed.

Lemma Clean_loop_spec fuel rooted s rest names base out :
  (length rest <= fuel)%nat -> (length rest <= length s)%nat ->
  stack_ok rooted names base -> holds_text out s (render rooted (names ++ base)) ->
  (length (render rooted (names ++ base)) + (if elem_end rest then 0 else if decide (names ++ base = []) then 0 else 1)
     + length rest <= length s)%nat ->
  exists b' names' base', Clean_loop fuel rooted rest out (len (render rooted base)) = Some b' /\
    stack_ok rooted names' base' /\ fold_left (push rooted) (elements rest) (names ++ base) = names' ++ base' /\
    holds_text b' s (render rooted (names' ++ base')).
Proof.
  revert rest names base out. induction fuel as [|fuel IH]; intros rest names base out Hf Hs Hok H Hroom.
  { destruct rest; [|cbn in Hf; lia]. exists out, names, base. split_and!; try done. }
  destruct rest as [|c rest]; [by exists out, names, base|]. cbn [Clean_loop length] in *.
  destruct (decide (c = slash)) as [->|Hc].
  { rewrite Z.eqb_refl, elements_slash. apply IH; try done; [lia|lia|]. cbn [elem_end] in Hroom. rewrite Z.eqb_refl in Hroom.
    destruct (elem_end rest), (decide (names ++ base = [])); lia. }
  rewrite (proj2 (Z.eqb_neq c slash)) by done.
  destruct (take_elem rest) as (e & tail & -> & Hno & Hend).
  assert (slash ∉ c :: e) as Hno' by (apply not_elem_of_cons; split; [congruence|done]).
  change (c :: e ++ tail) with ((c :: e) ++ tail). rewrite (elements_elem (c :: e)) by done. cbn [fold_left elem_end] in *.
  rewrite (proj2 (Z.eqb_neq c slash)) in Hroom by done. rewrite length_app in *.
  assert (elem_end (e ++ tail) = bool_decide (e = [])) as Ee.
  { destruct e as [|x e]; [cbn [app]; by rewrite Hend|]. cbn. apply not_elem_of_cons in Hno as [Hx _].
    apply Z.eqb_neq. congruence. }
  rewrite Ee. destruct (decide (c :: e = [dot])) as [[= -> ->]|Hdot].
  { cbn [app] in *. rewrite Z.eqb_refl, bool_decide_true by done. cbn [andb].
    replace (push rooted (names ++ base) [dot]) with (names ++ base) by (unfold push; by rewrite decide_True).
    apply IH; try done; cbn [length] in *; try lia. rewrite Hend. destruct (decide (names ++ base = [])); lia. }
  assert ((c =? dot) && bool_decide (e = []) = false) as ->.
  { apply not_true_is_false. intros [->%Z.eqb_eq ->%bool_decide_eq_true]%andb_true_iff. done. }
  assert ((c =? dot) && (at_ (e ++ tail) 0 =? dot) && elem_end (drop 1 (e ++ tail)) = bool_decide (c :: e = dots)) as ->.
  { apply Bool.eq_iff_eq_true. rewrite bool_decide_eq_true, !andb_true_iff, !Z.eqb_eq. split.
    - intros [[-> Ha] Hd]. destruct e as [|x e].
      + destruct tail as [|y tail]; [done|]. cbn in Ha, Hend. apply Z.eqb_eq in Hend. congruence.
      + cbn in Ha. subst x. cbn [app drop] in Hd. destruct e as [|y e]; [done|]. cbn in Hd. apply Z.eqb_eq in Hd.
        subst y. set_solver.
    - intros [= -> ->]. split; [done|exact Hend]. }
  destruct (bool_decide_reflect (c :: e = dots)) as [[= -> ->]|Hdd].
  - cbn [app drop length] in *. change [dot; dot] with dots.
    destruct (dotdot_step rooted names base out s Hok H ltac:(destruct (decide (names ++ base = [])); lia))
      as (b' & names' & base' & -> & Hok' & -> & H' & Hlen). cbn [mbind option_bind].
    apply IH; try done; try lia. rewrite Hend. destruct (decide (names ++ base = [])); lia.
  - assert (name_ok (c :: e)) as Hname by done. rewrite push_name by done.
    rewrite (width_test rooted names base out s) by done.
    assert (exists b1, (if negb (bool_decide (names ++ base = [])) then lb_append out slash else Some out) = Some b1 /\
        holds_text b1 s (render rooted (names ++ base) ++ (if decide (names ++ base = []) then [] else [slash]))) as (b1 & -> & H1).
    { destruct (decide (names ++ base = [])) as [E|E]; [rewrite bool_decide_true by done|rewrite bool_decide_false by done]; cbn [negb].
      - exists out. by rewrite app_nil_r.
      - apply append_text; [done|lia]. }
    cbn [mbind option_bind].
    destruct (append_text_list b1 s _ (c :: e) H1) with (rest := tail) as (b2 & -> & H2); try done.
    { rewrite length_app. cbn [length]. destruct (decide (names ++ base = [])); cbn [length]; lia. }
    cbn [mbind option_bind]. rewrite <- app_assoc, <- render_cons in H2.
    apply (IH tail ((c :: e) :: names) base b2); try done; try lia.
    + by apply stack_ok_name.
    + rewrite Hend. cbn [app]. rewrite render_cons, !length_app. cbn [length].
      destruct (decide (names ++ base = [])); cbn [length]; lia.
Qed.

Lemma string_text b s out : holds_text b s out -> lb_string b = Some out.
Proof.
  intros (Hs & Hw & Hle & Hb). unfold lb_string. rewrite Hs, Hw.
  assert (forall l, (length out <= length l)%nat -> take (length out) l = out -> slice l 0 (len out) = Some out) as Hsl.
  { intros l Hl Ht. unfold slice. rewrite decide_True by (unfold len; lia). rewrite Z.sub_0_r. change (Z.to_nat 0) with 0%nat.
    unfold len. by rewrite drop_0, Nat2Z.id, Ht. }
  destruct (lb_buf b) as [buf|]; [|by apply Hsl]. destruct Hb. apply Hsl; [lia|done].
Qed.

(** The stack that a path leaves, and its text. *)
Lemma stack_spec rooted es names base :
  Forall (fun e => e <> [] /\ slash ∉ e) es -> stack_ok rooted names base ->
  exists names' base', stack_ok rooted names' base' /\ fold_left (push rooted) es (names ++ base) = names' ++ base'.
Proof.
  intros Hes. revert names base. induction Hes as [|e es [He Hno] Hes IH]; intros names base Hok; [by exists names, base|].
  cbn [fold_left]. pose proof Hok as (Hn & Hb & Hr). destruct (decide (e = [dot])) as [->|Hd]; [by apply IH|].
  destruct (decide (e = dots)) as [->|Hdd].
  - destruct names as [|n names]; cbn [app].
    + destruct base as [|d base]; [destruct rooted|].
      * by apply (IH [] []).
      * apply (IH [] [dots]). split_and!; [constructor|by constructor|done].
      * apply Forall_cons in Hb as [<- Hb]. unfold push at 2. rewrite decide_False, decide_True, decide_True by done.
        apply (IH [] (dots :: dots :: base)). split_and!; [constructor|by repeat constructor|]. intros E. by specialize (Hr E).
    + apply Forall_cons in Hn as [Hname Hn]. unfold push at 2. rewrite decide_False, decide_True by done.
      rewrite decide_False by apply Hname. apply IH. by split_and!.
  - rewrite push_name by done. apply (IH (e :: names) base). by apply stack_ok_name.
Qed.

Lemma elements_ok path : Forall (fun e => e <> [] /\ slash ∉ e) (elements path).
Proof.
  induction path as [path IH] using (induction_ltof1 _ length).
  destruct (take_elem path) as (e & tail & -> & Hno & Hend). destruct e as [|c e].
  - cbn [app] in *. destruct tail as [|c tail]; [vm_compute; constructor|]. apply Z.eqb_eq in Hend as ->.
    rewrite elements_slash. apply IH. unfold ltof. cbn. lia.
  - rewrite elements_elem by done. constructor; [done|]. apply IH. unfold ltof. rewrite length_app. cbn. lia.
Qed.

Lemma stack_of rooted path :
  exists names base, stack_ok rooted names base /\ fold_left (push rooted) (elements path) [] = names ++ base.
Proof.
  apply (stack_spec rooted (elements path) [] []); [apply elements_ok|].
  split_and!; [constructor|constructor|done].
Qed.

Lemma Clean_clean_spec path : Clean path = Some (clean_spec path).
Proof.
  destruct path as [|c rest]; [by vm_compute|]. unfold Clean, clean_spec. cbn [head].
  assert (stack_ok (c =? slash) [] []) as Hok0 by (split_and!; [constructor|constructor|done]).
  assert (exists b' names base, (if c =? slash
     then out ← lb_append (mk_lazybuf (c :: rest) None 0) slash; Clean_loop (length (c :: rest)) true rest out 1
     else Clean_loop (length (c :: rest)) false (c :: rest) (mk_lazybuf (c :: rest) None 0) 0) = Some b' /\
     stack_ok (c =? slash) names base /\ fold_left (push (c =? slash)) (elements (c :: rest)) [] = names ++ base /\
     holds_text b' (c :: rest) (render (c =? slash) (names ++ base))) as (b' & names & base & -> & Hok & Hst & H).
  { assert (holds_text (mk_lazybuf (c :: rest) None 0) (c :: rest) []) as H0 by (split_and!; try done; cbn; lia).
    destruct (Z.eqb_spec c slash) as [->|Hc].
    - destruct (append_text _ _ _ slash H0) as (b1 & -> & H1); [cbn; lia|]. cbn [mbind option_bind app] in *.
      rewrite elements_slash. change 1 with (len (render true [])).
      apply (Clean_loop_spec _ true (slash :: rest) rest [] [] b1); try done; try (cbn; lia).
      cbn [app length]. rewrite decide_True by done. change (length (render true [])) with 1%nat.
      destruct (elem_end rest); lia.
    - change 0 with (len (render false [])) at 2.
      apply (Clean_loop_spec _ false (c :: rest) (c :: rest) [] [] _); try done. cbn [app].
      rewrite decide_True by done. change (length (render false [])) with 0%nat. destruct (elem_end _); lia. }
  cbn [mbind option_bind]. replace (bool_decide (Some c = Some slash)) with (c =? slash)
    by (destruct (Z.eqb_spec c slash); [by rewrite bool_decide_true by congruence|by rewrite bool_decide_false by congruence]).
  rewrite Hst. pose proof H as (_ & Hw & _). rewrite Hw.
  destruct (decide (render (c =? slash) (names ++ base) = [])) as [E|E].
  - by rewrite E.
  - rewrite (proj2 (Z.eqb_neq _ 0)); [by apply (string_text _ _ _ H)|].
    intros E0. apply E. destruct (render _ _); [done|]. rewrite len_cons in E0. pose proof (len_nonneg l). lia.
Qed.

(** The text of a stack has the elements of the stack. *)
Lemma elements_Join es : Forall (fun e => e <> [] /\ slash ∉ e) es -> elements (Join es [slash]) = es.
Proof.
  intros Hes. destruct es as [|e es]; [by vm_compute|]. unfold elements. rewrite Split_Join; [|done|].
  - induction Hes as [|x l [Hx _] _ IH]; [done|]. by rewrite filter_cons_True, IH.
  - eapply Forall_impl; [exact Hes|]. by intros ? [_ ?].
Qed.

Lemma elements_render rooted names base :
  stack_ok rooted names base -> elements (render rooted (names ++ base)) = rev (names ++ base).
Proof.
  intros (Hn & Hb & _). unfold render.
  assert (Forall (fun e => e <> [] /\ slash ∉ e) (rev (names ++ base))) as Hes.
  { apply Forall_rev, Forall_app. split; eapply Forall_impl; eauto; [by intros ? (? & _ & _ & ?)|].
    intros ? <-. split; [done|]. unfold dots. set_solver. }
  destruct rooted; cbn [app]; [rewrite elements_slash|]; by apply elements_Join.
Qed.

Lemma push_back rooted names base :
  stack_ok rooted names base -> fold_left (push rooted) (rev (names ++ base)) [] = names ++ base.
Proof.
  intros (Hn & Hb & Hr). rewrite rev_app_distr, fold_left_app.
  assert (fold_left (push rooted) (rev base) [] = base) as ->.
  { clear Hn. induction Hb as [|d base <- Hb IH]; [done|]. cbn [rev]. rewrite fold_left_app, IH.
    2: { intros E. by specialize (Hr E). }
    cbn [fold_left]. unfold push. rewrite decide_False, decide_True by done.
    destruct base as [|d base]; [destruct rooted; [by specialize (Hr eq_refl)|done]|].
    apply Forall_cons in Hb as [<- _]. by rewrite decide_True. }
  induction Hn as [|e names He Hn IH]; [done|]. cbn [rev app]. rewrite fold_left_app, IH. by apply push_name.
Qed.

Lemma render_rooted rooted names base :
  stack_ok rooted names base -> names ++ base <> [] \/ rooted = true ->
  bool_decide (head (render rooted (names ++ base)) = Some slash) = rooted /\ render rooted (names ++ base) <> [].
Proof.
  intros Hok Hne. pose proof (stack_nonempty _ _ _ Hok) as Hf. split.
  2: { intros E. apply render_nonempty in E as [-> E]; [|done]. rewrite E in Hne. naive_solver. }
  destruct rooted; [done|]. destruct Hne as [Hne|]; [|done].
  pose proof (elements_render _ _ _ Hok) as He. unfold render in *. cbn [app] in *.
  apply bool_decide_eq_false. intros Hh. destruct (rev (names ++ base)) as [|e es] eqn:Er.
  { apply Hne. apply (f_equal (@rev _)) in Er. by rewrite rev_involutive in Er. }
  cbn [Join] in Hh. assert (e <> [] /\ slash ∉ e) as [H1 H2].
  { pose proof (elements_ok (Join (e :: es) [slash])) as H. rewrite He in H. by apply Forall_cons in H as [? _]. }
  destruct e as [|c e]; [done|]. cbn in Hh. simplify_eq. set_solver.
Qed.

Lemma clean_spec_idem path : clean_spec (clean_spec path) = clean_spec path.
Proof.
  unfold clean_spec at 2 3. set (rooted := bool_decide (head path = Some slash)).
  destruct (stack_of rooted path) as (names & base & Hok & ->).
  destruct (decide (render rooted (names ++ base) = [])) as [E|E]; [by vm_compute|].
  unfold clean_spec. destruct (render_rooted rooted names base Hok) as [-> _].
  { destruct rooted; [by right|]. left. intros E0. apply E. by rewrite E0. }
  rewrite elements_render, push_back by done. by rewrite decide_False.
Qed.

(** path.Clean.  For every path the code, with its lazily allocated buffer, computes
    the text of a stack of elements: empty elements and [.] are skipped, [..] removes the
    element before it, is dropped at the root and kept at the start of a relative path;
    it never indexes out of range.  The result is a fixed point, and a path that starts
    with a slash becomes one that starts with a slash and has no empty, [.] or [..]
    element. *)
Theorem path_clean_exact path :
  Clean path = Some (clean_spec path) /\ Clean (clean_spec path) = Some (clean_spec path) /\
  (head path = Some slash ->
   head (clean_spec path) = Some slash /\ Forall name_ok (elements (clean_spec path))).
Proof.
  split; [apply Clean_clean_spec|]. split; [by rewrite Clean_clean_spec, clean_spec_idem|].
  intros Hh. unfold clean_spec. rewrite bool_decide_true by done.
  destruct (stack_of true path) as (names & base & Hok & ->). rewrite decide_False by done.
  split; [done|]. rewrite elements_render by done. destruct Hok as (Hn & _ & Hr). rewrite (Hr eq_refl), app_nil_r.
  by apply Forall_rev.
Qed.

Lemma path_clean_exact_witness :
  head (clean_spec (str "/a/../%2e/..//b")) = Some slash /\
  Forall name_ok (elements (clean_spec (str "/a/../%2e/..//b"))).
Proof. exact (proj2 (proj2 (path_clean_exact (str "/a/../%2e/..//b"))) eq_refl). Defined.
