(* ===== verification/UrlResolve.v ===== *)
(** * net/url: references

    [tools/go-patched/src/net/url/url.go]: the resolution of a reference against a base, and the
    joining of paths. *)

From S2P Require Import Prelude HostPort Strings Url UrlParse PathClean.
Local Open Scope go_scope.
Local Set Warnings "-clear-no-such-hyp".

(** ** resolvePath *)

(** The loop: the last element, and the buffer without the slash that is written first.
    Each round but the last takes a byte. *)
Fixpoint resolve_loop (fuel : nat) (remaining : gostring) (dst : gostring) (first : bool) : gostring * gostring :=
  match fuel with
  | O => ([], dst)
  | S fuel =>
      let '(elem, remaining, found) := Cut remaining (str "/") in
      let '(dst, first) :=
        if bool_decide (elem = str ".") then (dst, false)
        else if bool_decide (elem = str "..") then
          let index := LastIndexByteString dst slash in
          if index =? -1 then ([], true) else (take (Z.to_nat index) dst, first)
        else ((if first then dst else dst ++ [slash]) ++ elem, false) in
      if found then resolve_loop fuel remaining dst first else (elem, dst)
  end.

Definition resolvePath (base ref : gostring) : gostring :=
  let full :=
    if bool_decide (ref = []) then base
    else if negb (at_ ref 0 =? slash) then take (Z.to_nat (LastIndexByteString base slash + 1)) base ++ ref
    else ref in
  if bool_decide (full = []) then [] else
  let '(elem, dst) := resolve_loop (S (length full)) full [] true in
  let r := slash :: dst ++ (if bool_decide (elem = str ".") || bool_decide (elem = str "..") then [slash] else []) in
  if (1 <? len r) && (at_ r 1 =? slash) then drop 1 r else r.

(** ** References *)

Definition URL_IsAbs (u : URL) : bool := nonempty (Scheme u).

(** [url.setPath], whose error is ignored and which changes nothing then. *)
Definition set_path (u : URL) (p : gostring) : URL := match setPath u p with Ok u => u | Err _ => u end.

Definition ResolveReference (u ref : URL) : URL :=
  let url := if nonempty (Scheme ref) then ref else with_scheme ref (Scheme u) in
  if nonempty (Scheme ref) || nonempty (Host ref) || has_user ref
  then set_path url (resolvePath (EscapedPath ref) [])
  else if nonempty (Opaque ref) then with_path (with_authority url None []) [] (RawPath url)
  else
    let url :=
      if negb (nonempty (Path ref)) && negb (ForceQuery ref) && negb (nonempty (RawQuery ref)) then
        let url := with_query url (ForceQuery url) (RawQuery u) in
        if nonempty (Fragment ref) then url else with_fragment url (Fragment u) (RawFragment u)
      else url in
    set_path (with_authority url (User u) (Host u)) (resolvePath (EscapedPath u) (EscapedPath ref)).

Definition URL_Parse (u : URL) (ref : gostring) : result URL :=
  match Parse ref with Err err => Err err | Ok refURL => Ok (ResolveReference u refURL) end.

(** [None]: the panic of an index, which path.Join has none of. *)
Definition URL_JoinPath (u : URL) (elem : list gostring) : option URL :=
  let first := EscapedPath u in
  let relative := negb (HasPrefix first (str "/")) in
  let elem := (if relative then slash :: first else first) :: elem in
  p ← path_Join elem;
  let p := if relative then drop 1 p else p in
  let p := if HasSuffix (List.last elem []) (str "/") && negb (HasSuffix p (str "/")) then p ++ [slash] else p in
  Some (set_path u p).

Definition JoinPath (base : gostring) (elem : list gostring) : option (result gostring) :=
  match Parse base with
  | Err err => Some (Err err)
  | Ok url => u ← URL_JoinPath url elem; Some (Ok (String_ u))
  end.

Definition URL_MarshalBinary (u : URL) : result gobytes := Ok (String_ u).
Definition URL_UnmarshalBinary (text : gobytes) : result URL := Parse text.

Definition resolved (base ref : string) : gostring :=
  match Parse (str base), Parse (str ref) with Ok b, Ok r => String_ (ResolveReference b r) | _, _ => [] end.

(** The examples of RFC 3986, section 5.4. *)
Example resolve_examples :
  let base := "http://a/b/c/d;p?q"%string in
  resolved base "g:h" = str "g:h" /\ resolved base "g" = str "http://a/b/c/g" /\ resolved base "./g" = str "http://a/b/c/g" /\
  resolved base "g/" = str "http://a/b/c/g/" /\ resolved base "/g" = str "http://a/g" /\ resolved base "//g" = str "http://g" /\
  resolved base "?y" = str "http://a/b/c/d;p?y" /\ resolved base "#s" = str "http://a/b/c/d;p?q#s" /\
  resolved base "" = str "http://a/b/c/d;p?q" /\ resolved base "../../../g" = str "http://a/g" /\
  resolved base "../.." = str "http://a/" /\ resolved base "g;x=1/../y" = str "http://a/b/c/y" /\
  JoinPath (str "http://h/a/") [str "../b"; str "c/"] = Some (Ok (str "http://h/b/c/")).
Proof. split_and!; vm_compute; reflexivity. Qed.

(** ** What resolvePath computes *)

(** An element meets the elements before it, the last one first.  A dot in front counts as
    an empty element. *)
Definition rpush (stack : list gostring) (e : gostring) : list gostring :=
  if decide (e = [dot]) then (match stack with [] => [[]] | _ => stack end)
  else if decide (e = dots) then tail stack
  else e :: stack.

Definition rtext (stack : list gostring) : gostring := Join (rev stack) [slash].

Definition full_path (base ref : gostring) : gostring :=
  if bool_decide (ref = []) then base
  else if negb (at_ ref 0 =? slash) then take (Z.to_nat (LastIndexByteString base slash + 1)) base ++ ref
  else ref.

(** A path that ends in a dot element ends in a slash; one of two slashes in front goes. *)
Definition resolve_spec (full : gostring) : gostring :=
  let elems := Split full [slash] in
  let text := rtext (fold_left rpush elems []) ++
              (if decide (List.last elems [] = [dot] \/ List.last elems [] = dots) then [slash] else []) in
  if decide (head text = Some slash) then text else slash :: text.

Lemma rtext_cons e stack : stack <> [] -> rtext (e :: stack) = rtext stack ++ slash :: e.
Proof. intros Hne. unfold rtext. cbn [rev]. rewrite Join_snoc; [done|]. by destruct stack; [|cbn; destruct (rev stack)]. Qed.

Lemma resolve_loop_spec fuel remaining stack :
  (length remaining < fuel)%nat -> Forall (fun e => slash ∉ e) stack ->
  resolve_loop fuel remaining (rtext stack) (bool_decide (stack = [])) =
  (List.last (Split remaining [slash]) [], rtext (fold_left rpush (Split remaining [slash]) stack)).
Proof.
  revert remaining stack. induction fuel as [|fuel IH]; intros remaining stack Hf Hst; [lia|]. cbn [resolve_loop].
  change (str "/") with [slash]. change (str ".") with [dot]. change (str "..") with dots.
  assert (forall e, slash ∉ e ->
    (if bool_decide (e = [dot]) then (rtext stack, false)
     else if bool_decide (e = dots) then
       (if LastIndexByteString (rtext stack) slash =? -1 then ([], true)
        else (take (Z.to_nat (LastIndexByteString (rtext stack) slash)) (rtext stack), bool_decide (stack = [])))
     else ((if bool_decide (stack = []) then rtext stack else rtext stack ++ [slash]) ++ e, false)) =
    (rtext (rpush stack e), bool_decide (rpush stack e = [])) /\ Forall (fun e => slash ∉ e) (rpush stack e)) as Hstep.
  { intros e He. unfold rpush. destruct (decide (e = [dot])) as [->|Hd1].
    - rewrite bool_decide_true by done. destruct stack as [|x stack]; [|done]. split; [done|]. repeat constructor. apply not_elem_of_nil.
    - rewrite bool_decide_false by done. destruct (decide (e = dots)) as [->|Hd2].
      + rewrite bool_decide_true by done. destruct stack as [|x stack]; [done|]. apply Forall_cons in Hst as [Hx Hst]. cbn [tail]. split; [|done].
        destruct (decide (stack = [])) as [->|Hne].
        * assert (rtext [x] = x) as -> by (unfold rtext; cbn; by rewrite ?app_nil_r). destruct (LastIndexByteString_spec x slash) as [[_ ->]|(a & b & -> & _)]; [done|].
          destruct Hx. apply elem_of_app. right. left.
        * rewrite rtext_cons by done. rewrite LastIndexByteString_last by done. pose proof (len_nonneg (rtext stack)).
          rewrite (proj2 (Z.eqb_neq _ _)) by lia. unfold len. rewrite Nat2Z.id, take_app_length. by rewrite !bool_decide_false.
      + rewrite bool_decide_false by done. split; [|by constructor]. rewrite (bool_decide_false (e :: stack = [])) by done. f_equal.
        destruct (bool_decide_reflect (stack = [])) as [->|Hne]; [unfold rtext; cbn; by rewrite app_nil_r|]. by rewrite rtext_cons, <- app_assoc. }
  destruct (Cut_byte slash remaining) as [[Hn ->]|(a & b & -> & Hn & ->)]; cbv beta iota zeta.
  - destruct (Hstep remaining Hn) as [-> _]. by rewrite Split_no_slash.
  - destruct (Hstep a Hn) as [-> Hst']. rewrite Split_slash by done. cbn [fold_left]. rewrite IH; [|rewrite length_app in Hf; cbn in Hf; lia|done].
    f_equal. pose proof (Split_nonempty b [slash] ltac:(done)). by destruct (Split b [slash]).
Qed.

Lemma resolvePath_spec base ref :
  resolvePath base ref = if decide (full_path base ref = []) then [] else resolve_spec (full_path base ref).
Proof.
  unfold resolvePath. fold (full_path base ref). cbv zeta. destruct (bool_decide_reflect (full_path base ref = [])) as [->|Hne]; [done|].
  rewrite decide_False by done. pose proof (resolve_loop_spec (S (length (full_path base ref))) (full_path base ref) [] ltac:(lia) ltac:(constructor)) as Hl.
  change (rtext []) with (@nil Z) in Hl. rewrite bool_decide_true in Hl by done. rewrite Hl. clear Hl. unfold resolve_spec.
  change (str ".") with [dot]. change (str "..") with dots. generalize (List.last (Split (full_path base ref) [slash]) []). intros l.
  assert ((if bool_decide (l = [dot]) || bool_decide (l = dots) then [slash] else []) =
          (if decide (l = [dot] \/ l = dots) then [slash] else [])) as ->.
  { destruct (decide (l = [dot] \/ l = dots)) as [[-> | ->]|Hno]; [done|done|].
    rewrite !bool_decide_false by tauto. done. }
  set (text := rtext _ ++ _). destruct text as [|c text]; [done|]. rewrite !len_cons. pose proof (len_nonneg text).
  rewrite (proj2 (Z.ltb_lt 1 _)) by lia. cbn [andb drop head skipn]. change (at_ (slash :: c :: text) 1) with c.
  destruct (Z.eqb_spec c slash) as [->|Hc]; [by rewrite decide_True|]. by rewrite decide_False by congruence.
Qed.

Definition dot_free (p : gostring) : Prop := Forall (fun e => e <> [dot] /\ e <> dots) (Split p [slash]).

Lemma dot_free_slash p : dot_free (slash :: p) <-> dot_free p.
Proof.
  unfold dot_free. change (slash :: p) with ([] ++ slash :: p). rewrite Split_slash by apply not_elem_of_nil.
  rewrite Forall_cons. naive_solver.
Qed.

Lemma dot_free_Join es : Forall (fun e => slash ∉ e /\ e <> [dot] /\ e <> dots) es -> dot_free (Join es [slash]).
Proof.
  intros He. destruct (decide (es = [])) as [->|Hne]; [by repeat constructor|]. unfold dot_free. rewrite Split_Join; [|done|].
  - eapply Forall_impl; [exact He|]. by intros x (? & ? & ?).
  - eapply Forall_impl; [exact He|]. by intros x (? & ? & ?).
Qed.

Lemma stack_dot_free elems stack :
  Forall (fun e => slash ∉ e) elems -> Forall (fun e => slash ∉ e /\ e <> [dot] /\ e <> dots) stack ->
  Forall (fun e => slash ∉ e /\ e <> [dot] /\ e <> dots) (fold_left rpush elems stack).
Proof.
  intros He. revert stack. induction He as [|e elems Hs He IH]; intros stack Hst; cbn [fold_left]; [done|]. apply IH. unfold rpush.
  destruct (decide (e = [dot])); [destruct stack; [|done]; repeat constructor; try done; apply not_elem_of_nil|].
  destruct (decide (e = dots)); [destruct stack; [done|]; by apply Forall_cons in Hst as [_ ?]|]. by constructor.
Qed.

Lemma Split_no_slashes p : Forall (fun e => slash ∉ e) (Split p [slash]).
Proof.
  remember (length p) as n eqn:Hn. revert p Hn. induction (lt_wf n) as [n _ IH]. intros p ->.
  destruct (Cut_byte slash p) as [[Hp _]|(a & b & -> & Ha & _)].
  - rewrite Split_no_slash by done. by repeat constructor.
  - rewrite Split_slash by done. constructor; [done|]. eapply IH; [|done]. rewrite length_app. cbn. lia.
Qed.

(** Reference resolution.  The path that resolvePath builds in its buffer is the text of
    a stack of elements, on which [..] drops an element; it is empty only if there is
    nothing to resolve, starts with a slash otherwise, and no element of it is [.] or
    [..].  The comment says that this follows RFC 3986; it does not for an empty element
    behind dots that reach the root, which is dropped. *)
Theorem resolve_path_exact base ref :
  (resolvePath base ref = if decide (full_path base ref = []) then [] else resolve_spec (full_path base ref)) /\
  (full_path base ref <> [] -> head (resolvePath base ref) = Some slash) /\
  Forall (fun e => e <> [dot] /\ e <> dots) (Split (resolvePath base ref) [slash]) /\
  resolvePath (str "/..//a") [] = str "/a" /\ resolvePath (str "/b/..//a") [] = str "//a".
Proof.
  split; [apply resolvePath_spec|]. rewrite resolvePath_spec. split; [|split; [|split; vm_compute; reflexivity]].
  - intros Hne. rewrite decide_False by done. unfold resolve_spec. cbv zeta. by destruct (decide (head _ = Some slash)).
  - destruct (decide _) as [_|_]; [by repeat constructor|]. unfold resolve_spec. cbv zeta.
    pose proof (stack_dot_free _ [] (Split_no_slashes (full_path base ref)) ltac:(constructor)) as Hst.
    set (stack := fold_left rpush _ []) in *. apply Forall_rev in Hst.
    assert (dot_free (rtext stack ++ (if decide (List.last (Split (full_path base ref) [slash]) [] = [dot] \/ List.last (Split (full_path base ref) [slash]) [] = dots) then [slash] else []))) as Hfree.
    { destruct (decide _); [|rewrite app_nil_r; by apply dot_free_Join]. unfold rtext.
      destruct (decide (rev stack = [])) as [->|Hne]; [by repeat constructor|].
      change [slash] with ([slash] ++ []) at 2. rewrite <- Join_snoc by done. apply dot_free_Join, Forall_app. split; [done|].
      repeat constructor; [apply not_elem_of_nil|done|done]. }
    destruct (decide (head _ = Some slash)); [exact Hfree|]. by apply dot_free_slash.
Qed.
