(* ===== verification/Bufio.v ===== *)
(** * bufio: buffered reading

    [tools/go-patched/src/bufio/bufio.go], the type Reader: a fixed buffer with its two
    positions over any io.Reader.  The HTTP server reads requests through it.  A slice
    that a method returns is the bytes it holds at the return; the next read overwrites
    them, and no caller modelled here looks at them after that.  [None] is a panic, or the
    measure of a loop run out; the theorems show that neither happens. *)

From S2P Require Import Prelude GoIO HostPort Utf8 Strings.
Local Open Scope go_scope.

(** ** Data *)

Record BufReader (R : Type) := mk_BufReader {
  buf : gobytes;
  rd : R;
  b_r : Z;
  b_w : Z;
  b_err : option error;
  lastByte : Z;
  lastRuneSize : Z;
}.
Arguments mk_BufReader {R} _ _ _ _ _ _ _.
Arguments buf {R} _.
Arguments rd {R} _.
Arguments b_r {R} _.
Arguments b_w {R} _.
Arguments b_err {R} _.
Arguments lastByte {R} _.
Arguments lastRuneSize {R} _.

Definition minReadBufferSize : Z := 16.
Definition maxConsecutiveEmptyReads : nat := 100.
Definition defaultBufSize : Z := 4096.

Notation newline := 10 (only parsing).
Notation return_ := 13 (only parsing).

Section Reader.
Context {R : Type} `{Reader R}.
Notation BufReader := (BufReader R).

(** A method: the new state and what it returns. *)
Notation M A := (option (BufReader * A)).

(** ** Field updates *)

Definition with_r (b : BufReader) (r : Z) : BufReader := mk_BufReader (buf b) (rd b) r (b_w b) (b_err b) (lastByte b) (lastRuneSize b).
Definition with_err (b : BufReader) (e : option error) : BufReader :=
  mk_BufReader (buf b) (rd b) (b_r b) (b_w b) e (lastByte b) (lastRuneSize b).
Definition with_last_ (b : BufReader) (byte rune : Z) : BufReader :=
  mk_BufReader (buf b) (rd b) (b_r b) (b_w b) (b_err b) byte rune.

(** [n, err := b.rd.Read(b.buf[b.w:]); b.w += n] *)
Definition read_into (b : BufReader) : BufReader * (Z * option error) :=
  let '(rd, (d, err)) := Read (rd b) (len (buf b) - b_w b) in
  let buf := take (Z.to_nat (b_w b)) (buf b) ++ d ++ drop (Z.to_nat (b_w b + len d)) (buf b) in
  (mk_BufReader buf rd (b_r b) (b_w b + len d) (b_err b) (lastByte b) (lastRuneSize b), (len d, err)).

(** The unread part of the buffer, [b.buf[b.r:b.w]]. *)
Definition window (b : BufReader) : gobytes := cut (buf b) (b_r b) (b_w b).

(** ** Making a reader

    [NewReaderSize] of a reader that is not itself a buffered one. *)
Definition reset (buf : gobytes) (r : R) : BufReader := mk_BufReader buf r 0 0 None (-1) (-1).
Definition NewReaderSize (rd : R) (size : Z) : BufReader :=
  reset (replicate (Z.to_nat (Z.max size minReadBufferSize)) 0) rd.
Definition NewReader (rd : R) : BufReader := NewReaderSize rd defaultBufSize.
Definition Size (b : BufReader) : Z := len (buf b).
Definition Reset (b : BufReader) (r : R) : BufReader := reset (buf b) r.

(** ** Filling the buffer *)

Definition slide (b : BufReader) : BufReader :=
  if 0 <? b_r b then
    mk_BufReader (window b ++ drop (Z.to_nat (b_w b - b_r b)) (buf b)) (rd b) 0 (b_w b - b_r b) (b_err b) (lastByte b) (lastRuneSize b)
  else b.

Fixpoint fill_loop (i : nat) (b : BufReader) : BufReader :=
  match i with
  | O => with_err b (Some ErrNoProgress)
  | S i =>
      let '(b, (n, err)) := read_into b in
      if negb (bool_decide (err = None)) then with_err b err
      else if 0 <? n then b
      else fill_loop i b
  end.

Definition fill (b : BufReader) : option BufReader :=
  let b := slide b in
  if len (buf b) <=? b_w b then None else Some (fill_loop maxConsecutiveEmptyReads b).

Definition readErr (b : BufReader) : BufReader * option error := (with_err b None, b_err b).
Definition Buffered (b : BufReader) : Z := b_w b - b_r b.

(** ** Looking ahead and skipping *)

Fixpoint Peek_loop (fuel : nat) (b : BufReader) (n : Z) : option BufReader :=
  match fuel with
  | O => None
  | S fuel =>
      if (b_w b - b_r b <? n) && (b_w b - b_r b <? len (buf b)) && bool_decide (b_err b = None)
      then b ← fill b; Peek_loop fuel b n
      else Some b
  end.

Definition Peek (b : BufReader) (n : Z) : M (gobytes * option error) :=
  if n <? 0 then Some (b, ([], Some ErrNegativeCount)) else
  let b := with_last_ b (-1) (-1) in
  b ← Peek_loop (S (S (length (buf b)))) b n;
  if len (buf b) <? n then Some (b, (window b, Some ErrBufferFull)) else
  let avail := b_w b - b_r b in
  if avail <? n then
    let '(b, err) := readErr b in
    Some (b, (cut (buf b) (b_r b) (b_r b + avail), Some (default ErrBufferFull err)))
  else Some (b, (cut (buf b) (b_r b) (b_r b + n), None)).

Fixpoint Discard_loop (fuel : nat) (b : BufReader) (n remain : Z) : M (Z * option error) :=
  match fuel with
  | O => None
  | S fuel =>
      b ← (if Buffered b =? 0 then fill b else Some b);
      let skip := Z.min (Buffered b) remain in
      let b := with_r b (b_r b + skip) in
      let remain := remain - skip in
      if remain =? 0 then Some (b, (n, None))
      else if negb (bool_decide (b_err b = None)) then
        let '(b, err) := readErr b in Some (b, (n - remain, err))
      else Discard_loop fuel b n remain
  end.

Definition Discard (b : BufReader) (n : Z) : M (Z * option error) :=
  if n <? 0 then Some (b, (0, Some ErrNegativeCount)) else
  if n =? 0 then Some (b, (0, None)) else
  Discard_loop (S (Z.to_nat n)) (with_last_ b (-1) (-1)) n n.

(** ** Reading *)

(** [Read(p)] with [len(p) = n]. *)
Definition copy_out (b : BufReader) (n : Z) : BufReader * (gobytes * option error) :=
  let d := take (Z.to_nat n) (window b) in
  let b := with_r b (b_r b + len d) in
  (with_last_ b (at_ (buf b) (Z.to_nat (b_r b - 1))) (-1), (d, None)).

(** [return 0, b.readErr()] *)
Definition no_data (b : BufReader) : BufReader * (gobytes * option error) :=
  let '(b, err) := readErr b in (b, ([], err)).

#[global] Instance BufReader_Reader : Reader BufReader := fun b n =>
  if n =? 0 then if 0 <? Buffered b then (b, ([], None)) else no_data b
  else if b_r b =? b_w b then
    if negb (bool_decide (b_err b = None)) then no_data b
    else if len (buf b) <=? n then
      let '(rd, (d, err)) := Read (rd b) n in
      let b := mk_BufReader (buf b) rd (b_r b) (b_w b) err (lastByte b) (lastRuneSize b) in
      let b := if 0 <? len d then with_last_ b (default 0 (last d)) (-1) else b in
      let '(b, err) := readErr b in (b, (d, err))
    else
      let '(b, (m, err)) := read_into (mk_BufReader (buf b) (rd b) 0 0 (b_err b) (lastByte b) (lastRuneSize b)) in
      let b := with_err b err in
      if m =? 0 then no_data b else copy_out b n
  else copy_out b n.

Fixpoint ReadByte_loop (fuel : nat) (b : BufReader) : M (Z * option error) :=
  match fuel with
  | O => None
  | S fuel =>
      if b_r b =? b_w b then
        if negb (bool_decide (b_err b = None)) then let '(b, err) := readErr b in Some (b, (0, err))
        else b ← fill b; ReadByte_loop fuel b
      else
        let c := at_ (buf b) (Z.to_nat (b_r b)) in
        Some (with_last_ (with_r b (b_r b + 1)) c (lastRuneSize b), (c, None))
  end.

Definition ReadByte (b : BufReader) : M (Z * option error) := ReadByte_loop 2 (with_last_ b (lastByte b) (-1)).

Definition UnreadByte (b : BufReader) : BufReader * option error :=
  if (lastByte b <? 0) || ((b_r b =? 0) && (0 <? b_w b)) then (b, Some ErrInvalidUnreadByte) else
  let '(r, w) := if 0 <? b_r b then (b_r b - 1, b_w b) else (b_r b, 1) in
  (mk_BufReader (<[Z.to_nat r := u8 (lastByte b)]> (buf b)) (rd b) r w (b_err b) (-1) (-1), None).

Fixpoint ReadRune_loop (fuel : nat) (b : BufReader) : option BufReader :=
  match fuel with
  | O => None
  | S fuel =>
      if (b_w b <? b_r b + UTFMax) && negb (FullRune (window b)) && bool_decide (b_err b = None) && (b_w b - b_r b <? len (buf b))
      then b ← fill b; ReadRune_loop fuel b
      else Some b
  end.

Definition ReadRune (b : BufReader) : M (Z * Z * option error) :=
  b ← ReadRune_loop 5 b;
  let b := with_last_ b (lastByte b) (-1) in
  if b_r b =? b_w b then let '(b, err) := readErr b in Some (b, (0, 0, err)) else
  let c := at_ (buf b) (Z.to_nat (b_r b)) in
  let '(r, size) := if RuneSelf <=? c then DecodeRune (window b) else (c, 1) in
  let b := with_r b (b_r b + size) in
  Some (with_last_ b (at_ (buf b) (Z.to_nat (b_r b - 1))) size, (r, size, None)).

Definition UnreadRune (b : BufReader) : BufReader * option error :=
  if (lastRuneSize b <? 0) || (b_r b <? lastRuneSize b) then (b, Some ErrInvalidUnreadRune)
  else (with_last_ (with_r b (b_r b - lastRuneSize b)) (-1) (-1), None).

(** ** Lines *)

(** The loop of ReadSlice; [s] is where the search goes on. *)
Fixpoint ReadSlice_loop (fuel : nat) (b : BufReader) (s delim : Z) : M (gobytes * option error) :=
  match fuel with
  | O => None
  | S fuel =>
      let i := IndexByteString (cut (buf b) (b_r b + s) (b_w b)) delim in
      if 0 <=? i then
        let i := i + s in
        Some (with_r b (b_r b + i + 1), (cut (buf b) (b_r b) (b_r b + i + 1), None))
      else if negb (bool_decide (b_err b = None)) then
        let line := window b in
        let '(b, err) := readErr (with_r b (b_w b)) in Some (b, (line, err))
      else if len (buf b) <=? Buffered b then Some (with_r b (b_w b), (buf b, Some ErrBufferFull))
      else let s := b_w b - b_r b in b ← fill b; ReadSlice_loop fuel b s delim
  end.

Definition ReadSlice (b : BufReader) (delim : Z) : M (gobytes * option error) :=
  '(b, (line, err)) ← ReadSlice_loop (S (S (length (buf b)))) b 0 delim;
  let b := match last line with Some c => with_last_ b c (-1) | None => b end in
  Some (b, (line, err)).

(** [line] without its line end. *)
Definition drop_eol (line : gobytes) : gobytes :=
  if bool_decide (last line = Some newline) then
    let drop := if (1 <? len line) && (at_ line (length line - 2) =? return_) then 2%nat else 1%nat in
    take (length line - drop) line
  else line.

Definition ReadLine (b : BufReader) : M (gobytes * bool * option error) :=
  '(b, (line, err)) ← ReadSlice b newline;
  if bool_decide (err = Some ErrBufferFull) then
    if bool_decide (last line = Some return_) then
      if b_r b =? 0 then None
      else Some (with_r b (b_r b - 1), (take (length line - 1) line, true, None))
    else Some (b, (line, true, None))
  else if len line =? 0 then Some (b, ([], false, err))
  else Some (b, (drop_eol line, false, None)).

(** The fragments before the last are appended here as they come: [ReadBytes] and
    [ReadString] copy them and the last one into one slice. *)
Fixpoint collectFragments (fuel : nat) (b : BufReader) (full : list gobytes) (delim : Z) : M (list gobytes * gobytes * option error) :=
  match fuel with
  | O => None
  | S fuel =>
      '(b, (frag, e)) ← ReadSlice b delim;
      if bool_decide (e = None) then Some (b, (full, frag, None))
      else if negb (bool_decide (e = Some ErrBufferFull)) then Some (b, (full, frag, e))
      else collectFragments fuel b (full ++ [frag]) delim
  end.

Definition ReadBytes (fuel : nat) (b : BufReader) (delim : Z) : M (gobytes * option error) :=
  '(b, (full, frag, err)) ← collectFragments fuel b [] delim;
  Some (b, (concat full ++ frag, err)).
Definition ReadString (fuel : nat) (b : BufReader) (delim : Z) : M (gostring * option error) := ReadBytes fuel b delim.

End Reader.

Definition demo (l : list String.string) : stream := mk_stream (map (fun s => str s) l) EOF true.

Example bufio_examples :
  let b := NewReaderSize (demo ["ab"; "c"; "d"]%string) 0 in
  (snd <$> ReadSlice b 99) = Some (str "abc", None) /\ (snd <$> ReadSlice b 120) = Some (str "abcd", Some EOF) /\
  (snd <$> Peek b 3) = Some (str "abc", None) /\ (snd <$> Peek b 5) = Some (str "abcd", Some EOF) /\
  (snd <$> Peek b 17) = Some (str "abcd", Some ErrBufferFull) /\ (snd <$> Discard b 9) = Some (4, Some EOF) /\
  (snd <$> ReadByte b) = Some (97, None) /\ snd (Read b 16) = (str "ab", None) /\ snd (Read b 1) = (str "a", None).
Proof. split_and!; vm_compute; reflexivity. Qed.

(** ** What a byte stream is

    The rest of the bytes, the error at their end, and a bound on the reads that return
    nothing: what io.Reader asks of its implementations, with the bound that [fill]
    relies on; the error is not the one that bufio reserves for a full buffer. *)
Class ByteStream (R : Type) `{Reader R} : Type := {
  remains : R -> gobytes;
  ending : R -> error;
  patience : R -> nat;
  steady : R -> Prop;
  Read_law r n :
    steady r -> 0 < n ->
    exists r' d e, Read r n = (r', (d, e)) /\ steady r' /\ remains r = d ++ remains r' /\ len d <= n /\ ending r' = ending r /\
      (e <> None -> e = Some (ending r) /\ remains r' = []) /\ (d = [] -> e = None -> (patience r' < patience r)%nat);
  patience_bound r : steady r -> (patience r < maxConsecutiveEmptyReads)%nat;
  ending_other r : steady r -> ending r <> ErrBufferFull;
}.

(** The streams of [GoIO]: fewer than a hundred empty chunks in a row. *)
Fixpoint leading_empty (cs : list gobytes) : nat :=
  match cs with [] :: cs => S (leading_empty cs) | _ => O end.

Fixpoint no_long_gap (cs : list gobytes) : Prop :=
  (leading_empty cs < maxConsecutiveEmptyReads)%nat /\ match cs with [] => True | _ :: cs => no_long_gap cs end.

#[export, refine] Instance stream_ByteStream : ByteStream stream :=
  {| remains := pending; ending := fin; patience := fun s => leading_empty (chunks s); steady := fun s => no_long_gap (chunks s) /\ fin s <> ErrBufferFull |}.
Proof.
  - intros s n [Hs Hfin] Hn. destruct (stream_Read_spec s n ltac:(lia)) as (s' & d & e & HR & Hp & Hf & _ & He & _).
    exists s', d, e. split_and!; try done; [|congruence|..].
    + destruct s as [[|c cs] f w]; unfold Read, stream_Reader in HR; cbn in HR; [by simplify_eq|].
      destruct (n <? len c) eqn:E; zbool; simplify_eq; cbn in *; [|by destruct Hs].
      destruct Hs as [_ Hs]. split; [|done]. destruct (drop (Z.to_nat n) c) eqn:Ed; [|unfold maxConsecutiveEmptyReads; lia].
      apply (f_equal length) in Ed. rewrite length_drop in Ed. cbn in Ed. unfold len in E. lia.
    + exact (Read_len s n s' d e ltac:(lia) HR).
    + intros -> ->. destruct s as [[|c cs] f w]; unfold Read, stream_Reader in HR; cbn in HR; [done|].
      destruct (n <? len c) eqn:E; zbool; injection HR as <- E1.
      * apply (f_equal length) in E1. rewrite length_take in E1. unfold len in E. cbn in E1. lia.
      * subst c. cbn. lia.
  - intros [[|[|x c] cs] f w]; cbn; tauto.
  - by intros s [_ ?].
Defined.

(** ** The buffer as a view of the stream *)

Section Spec.
Context {R : Type} `{ByteStream R}.
Notation BufReader := (BufReader R).

(** What is still to be read. *)
Definition content (b : BufReader) : gobytes := window b ++ remains (rd b).

Record wf (b : BufReader) : Prop := {
  wf_size : minReadBufferSize <= len (buf b);
  wf_pos : 0 <= b_r b <= b_w b /\ b_w b <= len (buf b);
  wf_steady : steady (rd b);
  wf_err : b_err b <> None -> b_err b = Some (ending (rd b)) /\ remains (rd b) = [];
}.

(** A method that leaves [C] to be read. *)
Record leaves (b b' : BufReader) (C : gobytes) : Prop := {
  leaves_wf : wf b';
  leaves_content : content b' = C;
  leaves_size : len (buf b') = len (buf b);
  leaves_ending : ending (rd b') = ending (rd b);
}.

Lemma len_window b : wf b -> len (window b) = b_w b - b_r b.
Proof. intros Hw. destruct (wf_pos _ Hw). unfold window, cut, len in *. rewrite length_take, length_drop. lia. Qed.

Lemma leaves_trans b b1 b2 C C' : leaves b b1 C -> leaves b1 b2 C' -> leaves b b2 C'.
Proof. intros [? ? ? ?] [? ? ? ?]. by split; try congruence. Qed.

Lemma leaves_refl b : wf b -> leaves b b (content b).
Proof. by split. Qed.

(** Moving the read position by [k] consumes [k] bytes of the window. *)
Lemma leaves_with_r b k : wf b -> 0 <= k <= b_w b - b_r b -> leaves b (with_r b (b_r b + k)) (drop (Z.to_nat k) (content b)).
Proof.
  intros Hw Hk. pose proof (len_window b Hw) as Hl. destruct Hw as [Hz Hp Hs He]. split; [split; cbn; try done; lia| |done..].
  unfold content, window, cut in *. cbn. rewrite drop_app_le by (unfold len in Hl; lia). f_equal.
  rewrite skipn_firstn_comm, drop_drop. f_equal; [lia|]. f_equal. lia.
Qed.

Lemma leaves_last b b' C x y : leaves b b' C -> leaves b (with_last_ b' x y) C.
Proof. intros [[? ? ? ?] ? ? ?]. by split. Qed.

(** The error is handed out once; after it nothing is left. *)
Lemma leaves_readErr b b' C : leaves b b' C -> leaves b (with_err b' None) C.
Proof. intros [[? ? ? ?] ? ? ?]. by split; [split|..]. Qed.

Lemma err_content b : wf b -> b_err b <> None -> b_err b = Some (ending (rd b)) /\ content b = window b.
Proof. intros Hw He. destruct (wf_err _ Hw He) as [? Hr]. unfold content. by rewrite Hr, app_nil_r. Qed.

(** ** Filling *)

Lemma slide_spec b : wf b -> leaves b (slide b) (content b) /\ window (slide b) = window b /\ b_r (slide b) = 0 /\ b_err (slide b) = b_err b.
Proof.
  intros Hw. unfold slide. destruct (0 <? b_r b) eqn:E; zbool.
  2:{ destruct (wf_pos _ Hw). split; [by apply leaves_refl|]. split_and!; [done|lia|done]. }
  pose proof (len_window b Hw) as Hl. destruct Hw as [Hz Hp Hs He].
  assert (len (window b ++ drop (Z.to_nat (b_w b - b_r b)) (buf b)) = len (buf b)) as Hlen.
  { unfold len in *. rewrite length_app, length_drop. lia. }
  assert (forall b', b' = mk_BufReader (window b ++ drop (Z.to_nat (b_w b - b_r b)) (buf b)) (rd b) 0 (b_w b - b_r b) (b_err b)
    (lastByte b) (lastRuneSize b) -> window b' = window b) as Hwin.
  { intros b' ->. unfold window at 1, cut. cbn. rewrite Z.sub_0_r, drop_0, <- Hl. unfold len. by rewrite Nat2Z.id, take_app_length. }
  specialize (Hwin _ eq_refl). split; [|done]. split; [split; cbn in *; try done; lia| |done..].
  unfold content. by rewrite Hwin.
Qed.

(** One read into the buffer. *)
Lemma read_into_spec b :
  wf b -> b_w b < len (buf b) ->
  exists b' d e, read_into b = (b', (len d, e)) /\ leaves b (with_err b' e) (content b) /\ (e = None -> leaves b b' (content b)) /\
    window b' = window b ++ d /\ b_r b' = b_r b /\ (d = [] -> e = None -> (patience (rd b') < patience (rd b))%nat).
Proof.
  intros Hw Hlt. pose proof (len_window b Hw) as Hl. destruct Hw as [Hz Hp Hs He]. unfold read_into.
  destruct (Read_law (rd b) (len (buf b) - b_w b) Hs ltac:(lia)) as (r' & d & e & -> & Hs' & Hr & Hd & Hf & He' & Hpat).
  eexists _, d, e. split; [done|]. set (buf' := take _ _ ++ _).
  assert (len buf' = len (buf b)) as Hlen.
  { unfold buf', len in *. rewrite !length_app, length_take, length_drop. lia. }
  assert (cut buf' (b_r b) (b_w b + len d) = window b ++ d) as Hwin.
  { unfold buf', cut, window, cut, len in *. rewrite app_assoc, drop_app_le by (rewrite length_app, length_take; lia).
    rewrite drop_app_le by (rewrite length_take; lia). rewrite firstn_skipn_comm.
    rewrite take_app_le by (rewrite length_app, length_drop, length_take; lia).
    rewrite take_ge by (rewrite length_app, length_drop, length_take; lia). do 3 f_equal. lia. }
  assert (forall e1, (e1 <> None -> e1 = Some (ending r') /\ remains r' = []) ->
    leaves b (mk_BufReader buf' r' (b_r b) (b_w b + len d) e1 (lastByte b) (lastRuneSize b)) (content b)) as Hv.
  { intros e1 He1. pose proof (len_nonneg d). split; [split; cbn; try done; lia| |done..].
    unfold content, window. cbn. by rewrite Hwin, Hr, app_assoc. }
  split_and!; try done.
  - apply Hv. by rewrite Hf.
  - intros ->. apply Hv. intros Hne. destruct (He Hne) as [-> Hnil]. rewrite Hnil in Hr. rewrite Hf. by destruct (app_eq_nil _ _ (eq_sym Hr)).
Qed.

Lemma fill_loop_spec i b :
  wf b -> b_w b < len (buf b) -> (patience (rd b) < i)%nat ->
  exists d, leaves b (fill_loop i b) (content b) /\ window (fill_loop i b) = window b ++ d /\ b_r (fill_loop i b) = b_r b /\
    (d <> [] \/ b_err (fill_loop i b) <> None).
Proof.
  revert b. induction i as [|i IH]; intros b Hw Hlt Hi; [lia|]. cbn [fill_loop].
  destruct (read_into_spec b Hw Hlt) as (b' & d & e & -> & Hv & Hv' & Hwin & Hr & Hpat).
  case_bool_decide as He; cbn [negb].
  2:{ exists d. split_and!; try done. by right. }
  subst e. specialize (Hv' eq_refl). clear Hv. pose proof (leaves_wf _ _ _ Hv') as Hwf. destruct (0 <? len d) eqn:Ed; zbool.
  { exists d. split_and!; try done. left. intros ->. done. }
  assert (d = []) as -> by (destruct d; [done|]; rewrite len_cons in Ed; pose proof (len_nonneg d); lia). rewrite app_nil_r in Hwin.
  assert (b_w b' = b_w b) as Hww.
  { pose proof (len_window b Hw). pose proof (len_window b' Hwf). rewrite Hwin in *. lia. }
  destruct (IH b' Hwf) as (d & Hv2 & Hwin2 & Hr2 & Hd2); [by rewrite Hww, (leaves_size _ _ _ Hv')|specialize (Hpat eq_refl eq_refl); lia|].
  exists d. rewrite Hwin2, Hwin, Hr2, Hr. rewrite (leaves_content _ _ _ Hv') in Hv2. split_and!; try done. by eapply leaves_trans.
Qed.

Lemma fill_spec b :
  wf b -> b_w b - b_r b < len (buf b) ->
  exists b' d, fill b = Some b' /\ leaves b b' (content b) /\ window b' = window b ++ d /\ b_r b' = 0 /\ (d <> [] \/ b_err b' <> None).
Proof.
  intros Hw Hlt. destruct (slide_spec b Hw) as (Hv & Hwin & Hr & _). unfold fill.
  assert (b_w (slide b) = b_w b - b_r b) as Hsw.
  { pose proof (len_window _ (leaves_wf _ _ _ Hv)). rewrite Hwin, (len_window b Hw) in *. lia. }
  rewrite (proj2 (Z.leb_gt _ _)) by (rewrite (leaves_size _ _ _ Hv); lia).
  destruct (fill_loop_spec maxConsecutiveEmptyReads (slide b)) as (d & Hv2 & Hwin2 & Hr2 & Hd).
  - exact (leaves_wf _ _ _ Hv).
  - rewrite (leaves_size _ _ _ Hv). lia.
  - apply patience_bound, (wf_steady _ (leaves_wf _ _ _ Hv)).
  - eexists _, d. split; [done|]. rewrite Hwin2, Hwin, Hr2, Hr. rewrite (leaves_content _ _ _ Hv) in Hv2.
    split_and!; try done. by eapply leaves_trans.
Qed.

(** An empty buffer has room, and after a fill there is something or the end. *)
Lemma fill_empty b :
  wf b -> b_r b = b_w b ->
  exists b', fill b = Some b' /\ leaves b b' (content b) /\ (b_r b' < b_w b' \/ b_err b' <> None).
Proof.
  intros Hw E. pose proof (wf_size _ Hw) as Hz. unfold minReadBufferSize in Hz.
  destruct (fill_spec b Hw ltac:(lia)) as (b' & d & Hf & Hv & Hwin & _ & Hd). exists b'. split_and!; [done..|].
  destruct Hd as [Hd|]; [left|by right]. pose proof (len_window _ (leaves_wf _ _ _ Hv)) as Hl. rewrite Hwin, len_app in Hl.
  destruct d; [done|]. rewrite len_cons in Hl. pose proof (len_nonneg d). pose proof (len_nonneg (window b)). lia.
Qed.

(** Rounds enough for a loop that fills: each one adds a byte or finds the end. *)
Definition budget (fuel : nat) (b : BufReader) : Prop :=
  (0 < fuel)%nat /\ (b_err b = None -> len (buf b) - len (window b) < Z.of_nat fuel).

Lemma budget_start b : budget (S (S (length (buf b)))) b.
Proof. split; [lia|]. intros _. pose proof (len_nonneg (window b)). unfold len in *. lia. Qed.

Lemma fill_step fuel b :
  wf b -> b_err b = None -> b_w b - b_r b < len (buf b) -> budget (S fuel) b ->
  exists b' d, fill b = Some b' /\ leaves b b' (content b) /\ window b' = window b ++ d /\ budget fuel b'.
Proof.
  intros Hw Hn Hlt [_ Hb]. specialize (Hb Hn). pose proof (len_window b Hw).
  destruct (fill_spec b Hw Hlt) as (b' & d & Hf & Hv & Hwin & _ & Hd). exists b', d. do 3 (split; [done|]). split; [lia|].
  intros Hn'. destruct Hd as [Hd|]; [|done]. rewrite Hwin, len_app, (leaves_size _ _ _ Hv).
  destruct d; [done|]. rewrite len_cons. pose proof (len_nonneg d). lia.
Qed.

Lemma content_split b : content b = window b ++ remains (rd b).
Proof. done. Qed.

Lemma take_content b k : k <= len (window b) -> take (Z.to_nat k) (content b) = take (Z.to_nat k) (window b).
Proof. intros Hk. unfold content. rewrite take_app_le; [done|]. unfold len in Hk. lia. Qed.

(** A slice of the window from its start. *)
Lemma cut_window (b : BufReader) k : 0 <= k <= b_w b - b_r b -> cut (buf b) (b_r b) (b_r b + k) = take (Z.to_nat k) (window b).
Proof. intros Hk. unfold window, cut. rewrite take_take. f_equal. lia. Qed.

(** ** Peek *)

Lemma Peek_loop_spec fuel b n :
  wf b -> budget fuel b ->
  exists b', Peek_loop fuel b n = Some b' /\ leaves b b' (content b) /\
    (n <= b_w b' - b_r b' \/ b_w b' - b_r b' = len (buf b') \/ b_err b' <> None).
Proof.
  revert b. induction fuel as [|fuel IH]; intros b Hw Hb; [by destruct Hb; lia|]. cbn [Peek_loop].
  destruct (b_w b - b_r b <? n) eqn:E1; zbool; cbn [andb].
  2:{ exists b. split_and!; [done|by apply leaves_refl|by left]. }
  destruct (b_w b - b_r b <? len (buf b)) eqn:E2; zbool; cbn [andb].
  2:{ exists b. split_and!; [done|by apply leaves_refl|]. right. left. destruct (wf_pos _ Hw). lia. }
  case_bool_decide as He.
  2:{ exists b. split_and!; [done|by apply leaves_refl|by right; right]. }
  destruct (fill_step fuel b Hw He E2 Hb) as (b1 & d & -> & Hv & _ & Hb1). cbn [mbind option_bind].
  destruct (IH b1 (leaves_wf _ _ _ Hv) Hb1) as (b2 & -> & Hv2 & Hr). exists b2. split_and!; try done.
  rewrite (leaves_content _ _ _ Hv) in Hv2. by eapply leaves_trans.
Qed.

(** Peek returns the next bytes, as many as there are and as fit in the buffer. *)
Lemma Peek_spec b n :
  wf b -> 0 <= n ->
  exists b', Peek b n = Some (b', (take (Z.to_nat (Z.min n (len (buf b)))) (content b),
      if len (buf b) <? n then Some ErrBufferFull else if len (content b) <? n then Some (ending (rd b)) else None)) /\
    leaves b b' (content b).
Proof.
  intros Hw Hn. unfold Peek. rewrite (proj2 (Z.ltb_ge _ _)) by lia. cbv zeta.
  pose proof (leaves_last b b _ (-1) (-1) (leaves_refl b Hw)) as Hv0.
  destruct (Peek_loop_spec _ _ n (leaves_wf _ _ _ Hv0) (budget_start _)) as (b1 & Hp & Hv & Hr).
  rewrite Hp. cbn [mbind option_bind]. rewrite (leaves_content _ _ _ Hv0) in Hv.
  pose proof (leaves_trans _ _ _ _ _ Hv0 Hv) as [Hw1 Hc Hz He]. clear Hv Hv0 Hp. rewrite Hz in *.
  pose proof (len_window b1 Hw1) as Hl. destruct (wf_pos _ Hw1) as [Hp1 Hp2]. pose proof (len_nonneg (remains (rd b1))) as Hrn.
  assert (len (content b1) = len (window b1) + len (remains (rd b1))) as Hcl by apply len_app.
  assert (b_err b1 <> None -> content b1 = window b1 /\ b_err b1 = Some (ending (rd b))) as Herr.
  { intros Hne. destruct (err_content b1 Hw1 Hne) as [E ->]. by rewrite E, He. }
  rewrite <- Hc. destruct (len (buf b) <? n) eqn:En; zbool.
  { eexists. split; [|by split]. do 3 f_equal. rewrite Z.min_r by lia. destruct Hr as [?|[Hfull|Hne]]; [lia| |].
    - rewrite take_content by lia. rewrite take_ge; [done|]. unfold len in *. lia.
    - destruct (Herr Hne) as [-> _]. rewrite take_ge; [done|]. unfold len in *. lia. }
  rewrite Z.min_l by lia. destruct (b_w b1 - b_r b1 <? n) eqn:Ea; zbool.
  - destruct Hr as [?|[?|Hne]]; [lia..|]. destruct (Herr Hne) as [HC Ee]. unfold readErr. rewrite Ee. cbn.
    rewrite (proj2 (Z.ltb_lt _ _)) by (rewrite HC; lia). eexists. split; [|apply leaves_readErr; by split]. do 3 f_equal.
    rewrite HC. rewrite cut_window, !take_ge by (unfold len in *; lia). done.
  - rewrite (proj2 (Z.ltb_ge _ _)) by lia. eexists. split; [|by split]. do 3 f_equal. by rewrite cut_window, take_content by lia.
Qed.

(** ** Single bytes *)

Lemma window_cons (b : BufReader) : wf b -> b_r b < b_w b -> exists l, window b = at_ (buf b) (Z.to_nat (b_r b)) :: l.
Proof.
  intros Hw Hlt. destruct (wf_pos _ Hw) as [Hp1 Hp2]. unfold window, cut.
  destruct (lookup_lt_is_Some_2 (buf b) (Z.to_nat (b_r b))) as [x Hx]; [unfold len in *; lia|].
  rewrite (drop_S _ _ _ Hx). replace (Z.to_nat (b_w b - b_r b)) with (S (Z.to_nat (b_w b - b_r b - 1))) by lia. cbn.
  unfold at_. rewrite (nth_lookup_Some _ _ 0 _ Hx). by eexists.
Qed.

Lemma ReadByte_loop_spec fuel b :
  wf b -> (0 < fuel)%nat -> (b_r b = b_w b -> b_err b = None -> (1 < fuel)%nat) ->
  exists b', leaves b b' (tail (content b)) /\
    match content b with
    | [] => ReadByte_loop fuel b = Some (b', (0, Some (ending (rd b))))
    | c :: _ => ReadByte_loop fuel b = Some (b', (c, None)) /\ lastByte b' = c /\ 0 < b_r b'
    end.
Proof.
  revert b. induction fuel as [|fuel IH]; intros b Hw Hf Hf2; [lia|]. cbn [ReadByte_loop].
  pose proof (len_window b Hw) as Hl. destruct (wf_pos _ Hw) as [Hp1 Hp2]. destruct (b_r b =? b_w b) eqn:E; zbool.
  - assert (window b = []) as Hnil by (apply nil_length_inv; unfold len in Hl; lia). case_bool_decide as He; cbn [negb].
    + destruct (fill_empty b Hw E) as (b1 & -> & Hv & Hd). cbn [mbind option_bind].
      destruct (IH b1 (leaves_wf _ _ _ Hv)) as (b2 & Hv2 & Hm); [specialize (Hf2 E He); lia|intros; destruct Hd; [lia|done]|].
      rewrite (leaves_content _ _ _ Hv), (leaves_ending _ _ _ Hv) in *. exists b2. split; [by eapply leaves_trans|done].
    + destruct (err_content b Hw He) as [Ee Hc]. rewrite Hc, Hnil. unfold readErr. rewrite Ee. eexists. split; [|done].
      apply leaves_readErr. change (tail []) with (@nil Z). rewrite <- Hnil, <- Hc. by apply leaves_refl.
  - destruct (window_cons b Hw ltac:(lia)) as [l Hcons]. rewrite content_split, Hcons. cbn [app tail]. eexists. split; [|split_and!; [done..|cbn; lia]].
    apply leaves_last. assert (l ++ remains (rd b) = drop (Z.to_nat 1) (content b)) as -> by by rewrite content_split, Hcons.
    apply leaves_with_r; [done|lia].
Qed.

Lemma ReadByte_spec b :
  wf b ->
  exists b', leaves b b' (tail (content b)) /\
    match content b with
    | [] => ReadByte b = Some (b', (0, Some (ending (rd b))))
    | c :: _ => ReadByte b = Some (b', (c, None)) /\ lastByte b' = c /\ 0 < b_r b'
    end.
Proof.
  intros Hw. pose proof (leaves_last b b _ (lastByte b) (-1) (leaves_refl b Hw)) as Hv. unfold ReadByte.
  destruct (ReadByte_loop_spec 2 (with_last_ b (lastByte b) (-1)) (leaves_wf _ _ _ Hv)) as (b' & Hv' & Hm); [lia..|].
  exists b'. rewrite (leaves_content _ _ _ Hv) in *. split; [by eapply leaves_trans|done].
Qed.

(** The byte comes back in front; it fails when there is none to give back. *)
Lemma UnreadByte_spec b :
  wf b -> lastByte b < 256 ->
  if decide (0 <= lastByte b /\ (b_w b = 0 \/ 0 < b_r b)) then
    exists b', UnreadByte b = (b', None) /\ leaves b b' (lastByte b :: content b)
  else UnreadByte b = (b, Some ErrInvalidUnreadByte).
Proof.
  intros Hw Hb. destruct (wf_pos _ Hw) as [Hp1 Hp2]. unfold UnreadByte. destruct (decide _) as [[H1 H2]|Hn].
  2:{ destruct (lastByte b <? 0) eqn:E1, (b_r b =? 0) eqn:E2, (0 <? b_w b) eqn:E3; zbool; cbn; try done; destruct Hn; lia. }
  assert ((lastByte b <? 0) || ((b_r b =? 0) && (0 <? b_w b)) = false) as ->.
  { destruct (lastByte b <? 0) eqn:E1, (b_r b =? 0) eqn:E2, (0 <? b_w b) eqn:E3; zbool; cbn; try done; lia. }
  rewrite u8_byte by (unfold is_byte; lia). pose proof (wf_size _ Hw) as Hz. unfold minReadBufferSize in Hz.
  assert (forall r w, 0 <= r -> r + 1 <= w <= len (buf b) -> w - r - 1 = b_w b - b_r b -> drop (S (Z.to_nat r)) (buf b) = drop (Z.to_nat (b_r b)) (buf b) \/ w = r + 1 ->
    leaves b (mk_BufReader (<[Z.to_nat r:=lastByte b]> (buf b)) (rd b) r w (b_err b) (-1) (-1)) (lastByte b :: content b)) as Hput.
  { intros r w Hr Hrw Hd Hdr. split; [split| |..]; cbn; unfold len; rewrite ?length_insert; try done; [unfold len in *; lia..|apply (wf_steady _ Hw)|apply (wf_err _ Hw)|].
    unfold content, window, cut. cbn. rewrite insert_take_drop by (unfold len in *; lia).
    rewrite drop_app_ge by (rewrite length_take; lia). rewrite length_take. replace (_ - _)%nat with 0%nat by (unfold len in *; lia).
    replace (Z.to_nat (w - r)) with (S (Z.to_nat (b_w b - b_r b))) by lia. cbn. f_equal. f_equal.
    destruct Hdr as [->|Hdr]; [done|]. replace (b_w b - b_r b) with 0 by lia. done. }
  destruct (0 <? b_r b) eqn:Er; zbool.
  - eexists. split; [done|]. apply Hput; try lia. left. f_equal. lia.
  - eexists. split; [done|]. apply Hput; try lia.
Qed.

(** ** Skipping *)

Lemma Discard_loop_spec fuel b n remain :
  wf b -> 0 < remain -> remain <= Z.of_nat fuel ->
  exists b', Discard_loop fuel b n remain =
      Some (b', if len (content b) <? remain then (n - (remain - len (content b)), Some (ending (rd b))) else (n, None)) /\
    leaves b b' (drop (Z.to_nat remain) (content b)).
Proof.
  revert b remain. induction fuel as [|fuel IH]; intros b remain Hw Hr Hf; [lia|]. cbn [Discard_loop].
  assert (exists b1, (if Buffered b =? 0 then fill b else Some b) = Some b1 /\ leaves b b1 (content b) /\ (b_r b1 < b_w b1 \/ b_err b1 <> None))
    as (b1 & -> & Hv & Hp).
  { destruct (wf_pos _ Hw). unfold Buffered. destruct (b_w b - b_r b =? 0) eqn:E; zbool; [apply fill_empty; [done|lia]|].
    exists b. split_and!; [done|by apply leaves_refl|left; lia]. }
  cbn [mbind option_bind]. unfold Buffered. pose proof (leaves_wf _ _ _ Hv) as Hw1. destruct (wf_pos _ Hw1) as [Hp1 Hp2].
  set (skip := Z.min (b_w b1 - b_r b1) remain). pose proof (leaves_with_r b1 skip Hw1 ltac:(lia)) as Hv1.
  pose proof (leaves_trans _ _ _ _ _ Hv Hv1) as Hv2. rewrite (leaves_content _ _ _ Hv) in Hv1, Hv2.
  assert (len (content b) = b_w b1 - b_r b1 + len (remains (rd b1))) as Hcl.
  { by rewrite <- (leaves_content _ _ _ Hv), content_split, len_app, len_window. }
  pose proof (len_nonneg (remains (rd b1))). destruct (remain - skip =? 0) eqn:E; zbool.
  { eexists. rewrite (proj2 (Z.ltb_ge _ _)) by lia. split; [done|]. by replace remain with skip by lia. }
  cbn [with_r b_err b_r]. case_bool_decide as He; cbn [negb].
  - destruct Hp as [Hp|]; [|done]. destruct (IH _ (remain - skip) (leaves_wf _ _ _ Hv2)) as (b' & -> & Hv'); [lia..|]. exists b'.
    rewrite (leaves_content _ _ _ Hv2), (leaves_ending _ _ _ Hv2) in *. rewrite drop_drop in Hv'.
    replace (Z.to_nat skip + Z.to_nat (remain - skip))%nat with (Z.to_nat remain) in Hv' by lia.
    split; [|by eapply leaves_trans]. do 2 f_equal.
    assert (len (drop (Z.to_nat skip) (content b)) = len (content b) - skip) as -> by (unfold len in *; rewrite length_drop; lia).
    destruct (len (content b) <? remain) eqn:E1, (len (content b) - skip <? remain - skip) eqn:E2; zbool; try lia; [|done]. f_equal. lia.
  - destruct (wf_err _ Hw1 He) as [Ee Hnil]. rewrite Hnil in Hcl. change (len []) with 0 in Hcl. eexists. unfold readErr. cbn [b_err with_r]. rewrite Ee, (leaves_ending _ _ _ Hv).
    rewrite (proj2 (Z.ltb_lt _ _)) by lia. split; [do 3 f_equal; lia|]. apply leaves_readErr.
    replace (drop (Z.to_nat remain) (content b)) with (drop (Z.to_nat skip) (content b)); [done|].
    rewrite !drop_ge; [done|unfold len in *; lia..].
Qed.

(** Discard skips [n] bytes, or all there are, with the error at their end. *)
Lemma Discard_spec b n :
  wf b -> 0 <= n ->
  exists b', Discard b n = Some (b', if len (content b) <? n then (len (content b), Some (ending (rd b))) else (n, None)) /\
    leaves b b' (drop (Z.to_nat n) (content b)).
Proof.
  intros Hw Hn. unfold Discard. rewrite (proj2 (Z.ltb_ge _ _)) by lia. pose proof (len_nonneg (content b)). destruct (n =? 0) eqn:E; zbool.
  { subst n. rewrite (proj2 (Z.ltb_ge _ _)) by lia. exists b. split; [done|by apply leaves_refl]. }
  pose proof (leaves_last b b _ (-1) (-1) (leaves_refl b Hw)) as Hv.
  destruct (Discard_loop_spec (S (Z.to_nat n)) _ n n (leaves_wf _ _ _ Hv)) as (b' & -> & Hv'); [lia..|].
  rewrite (leaves_content _ _ _ Hv) in *. exists b'. split; [|by eapply leaves_trans]. cbn [with_last_ rd].
  replace (n - (n - len (content b))) with (len (content b)) by lia. done.
Qed.

(** ** Read: a buffered reader is a byte stream *)

Lemma copy_out_spec b n :
  wf b -> b_r b < b_w b -> 0 < n ->
  exists b' d, copy_out b n = (b', (d, None)) /\ leaves b b' (drop (length d) (content b)) /\ content b = d ++ drop (length d) (content b) /\
    d <> [] /\ len d <= n.
Proof.
  intros Hw Hlt Hn. unfold copy_out. pose proof (len_window b Hw) as Hl. set (d := take (Z.to_nat n) (window b)).
  assert (len d = Z.min n (b_w b - b_r b)) as Hd by (unfold d, len in *; rewrite length_take; lia).
  eexists _, d. split; [done|]. split_and!.
  - apply leaves_last. replace (length d) with (Z.to_nat (len d)) by (unfold len; lia). apply leaves_with_r; [done|lia].
  - rewrite content_split. rewrite drop_app_le by (unfold len in *; lia). rewrite app_assoc. f_equal. unfold d.
    rewrite length_take. rewrite <- (take_drop (Z.to_nat n) (window b)) at 1. f_equal. destruct (decide (Z.to_nat n <= length (window b))%nat).
    + f_equal. lia.
    + rewrite !drop_ge; [done|lia..].
  - intros Hdn. rewrite Hdn in Hd. change (len []) with 0 in Hd. lia.
  - lia.
Qed.

Lemma window_nil (b : BufReader) : b_r b = b_w b -> window b = [].
Proof. intros E. unfold window, cut. by rewrite E, Z.sub_diag. Qed.

(** The error is given once everything was read. *)
Lemma no_data_spec b :
  wf b -> b_r b = b_w b -> b_err b <> None -> exists b', no_data b = (b', ([], Some (ending (rd b)))) /\ leaves b b' [] /\ content b = [].
Proof.
  intros Hw E He. destruct (err_content b Hw He) as [Ee Hc]. rewrite (window_nil b E) in Hc. unfold no_data, readErr. rewrite Ee.
  eexists. split; [done|]. split; [|done]. apply leaves_readErr. rewrite <- Hc. by apply leaves_refl.
Qed.

Lemma Read_spec b n :
  wf b -> 0 < n ->
  exists b' d e C, Read b n = (b', (d, e)) /\ leaves b b' C /\ content b = d ++ C /\ len d <= n /\
    (e <> None -> e = Some (ending (rd b)) /\ C = []) /\ (d = [] -> e = None -> (patience (rd b') < patience (rd b))%nat).
Proof.
  intros Hw Hn. unfold Read, BufReader_Reader. rewrite (proj2 (Z.eqb_neq _ _)) by lia.
  destruct (wf_pos _ Hw) as [Hp1 Hp2]. destruct (b_r b =? b_w b) eqn:E; zbool.
  2:{ destruct (copy_out_spec b n Hw ltac:(lia) Hn) as (b' & d & -> & Hv & Hc & Hd & Hl).
      exists b', d, None, (drop (length d) (content b)). split_and!; done. }
  case_bool_decide as He; cbn [negb].
  2:{ destruct (no_data_spec b Hw E He) as (b' & -> & Hv & Hc). exists b', [], (Some (ending (rd b))), []. split_and!; try done. change (len []) with 0. lia. }
  assert (content b = remains (rd b)) as Hc by by rewrite content_split, window_nil.
  destruct (len (buf b) <=? n) eqn:El; zbool.
  - destruct (Read_law (rd b) n (wf_steady _ Hw) Hn) as (r' & d & e & -> & Hs & Hr & Hl & Hf & He' & Hpat).
    set (b1 := mk_BufReader _ _ _ _ _ _ _).
    assert (leaves b (with_err b1 None) (remains r')) as Hv.
    { split; [split; cbn; try done; apply (wf_size _ Hw)| |done..]. rewrite content_split. cbn. rewrite window_nil by done. done. }
    destruct (0 <? len d); eexists _, d, e, (remains r'); (split; [done|]); rewrite Hc; split_and!; try done; by apply (leaves_last _ (with_err b1 None)).
  - assert (leaves b (mk_BufReader (buf b) (rd b) 0 0 (b_err b) (lastByte b) (lastRuneSize b)) (content b)) as Hv.
    { split; [split; cbn; [apply (wf_size _ Hw)|lia|apply (wf_steady _ Hw)|apply (wf_err _ Hw)]| |done..].
      rewrite Hc, content_split, window_nil by done. done. }
    set (b0 := mk_BufReader _ _ _ _ _ _ _) in *.
    destruct (read_into_spec b0 (leaves_wf _ _ _ Hv)) as (b1 & d & e & -> & Hv1 & _ & Hwin & Hr1 & Hpat); [cbn; pose proof (wf_size _ Hw); unfold minReadBufferSize in *; lia|].
    pose proof (leaves_trans _ _ _ _ _ Hv Hv1) as Hv2. rewrite (leaves_content _ _ _ Hv) in Hv2.
    change (window b0) with (@nil Z) in Hwin. cbn in Hwin. pose proof (len_window _ (leaves_wf _ _ _ Hv2)) as Hlw. change (window (with_err b1 e)) with (window b1) in Hlw.
    rewrite Hwin in Hlw. cbn in Hlw. destruct (len d =? 0) eqn:Ed; zbool.
    + assert (d = []) as -> by (apply nil_length_inv; unfold len in Ed; lia).
      destruct (decide (e = None)) as [->|Hne].
      { eexists _, [], None, (content b). unfold no_data, readErr. split; [done|]. split_and!; try done; lia. }
      destruct (no_data_spec (with_err b1 e)) as (b' & -> & Hv' & Hnil); [exact (leaves_wf _ _ _ Hv2)|cbn; lia|done|].
      rewrite (leaves_content _ _ _ Hv2) in Hnil. rewrite (leaves_ending _ _ _ Hv2). eexists _, [], _, []. split; [done|].
      split_and!; try done; [by eapply leaves_trans|lia].
    + destruct (copy_out_spec (with_err b1 e) n) as (b' & d' & -> & Hv' & Hc' & Hd' & Hl'); [exact (leaves_wf _ _ _ Hv2)|cbn; pose proof (len_nonneg d); lia|done|].
      rewrite (leaves_content _ _ _ Hv2) in *. exists b', d', None, (drop (length d') (content b)). split_and!; try done. by eapply leaves_trans.
Qed.

(** So a buffered reader can be read through wherever a byte stream can. *)
#[global, refine] Instance BufReader_ByteStream : ByteStream BufReader :=
  {| remains := content; ending := fun b => ending (rd b); patience := fun b => patience (rd b); steady := wf |}.
Proof.
  - intros b n Hw Hn. destruct (Read_spec b n Hw Hn) as (b' & d & e & C & HR & [Hw' Hc' _ He'] & Hc & Hl & He & Hp).
    exists b', d, e. rewrite Hc'. split_and!; done.
  - intros b Hw. apply patience_bound, (wf_steady _ Hw).
  - intros b Hw. apply ending_other, (wf_steady _ Hw).
Defined.

(** ** Runes *)

Lemma FullRune_long p : bytes_ok p -> 4 <= len p -> FullRune p = true.
Proof.
  destruct p as [|c p]; [done|]. intros [Hc _]%Forall_cons Hl. rewrite FullRune_arith by done. unfold need.
  rewrite (proj2 (Z.leb_le _ _)); [done|]. destruct (c <? 194), (c <? 224), (c <? 240), (c <? 245); lia.
Qed.

(** A full rune is decoded the same whatever follows. *)
Lemma FullRune_decode p q : bytes_ok p -> FullRune p = true -> DecodeRune (p ++ q) = DecodeRune p.
Proof.
  destruct p as [|c p]; [done|]. intros [Hc _]%Forall_cons. rewrite FullRune_arith by done. cbn [app]. rewrite !DecodeRune_decoding by done.
  unfold decoding, need. rewrite len_cons. intros Hf.
  destruct (c <? 128) eqn:E0; [done|]. destruct (c <? 194) eqn:E1; [done|].
  destruct (c <? 224) eqn:E2; [|destruct (c <? 240) eqn:E3; [|destruct (c <? 245) eqn:E4; [|done]]];
    destruct p as [|b1 [|b2 [|b3 p]]]; try done; try (destruct q as [|x1 [|x2 [|x3 q]]]; try done); cbn in Hf |- *;
    repeat match goal with |- context [outside ?a ?b ?d] => destruct (outside a b d); cbn in Hf |- *; try done end.
Qed.

Lemma content_bytes b : bytes_ok (content b) -> bytes_ok (window b).
Proof. by intros [? _]%Forall_app. Qed.

Lemma ReadRune_loop_spec fuel b :
  wf b -> bytes_ok (content b) -> 4 < Z.of_nat fuel + len (window b) -> (0 < fuel)%nat ->
  exists b', ReadRune_loop fuel b = Some b' /\ leaves b b' (content b) /\ (FullRune (window b') = true \/ b_err b' <> None).
Proof.
  revert b. induction fuel as [|fuel IH]; intros b Hw Hb Hf Hf0; [lia|]. cbn [ReadRune_loop]. pose proof (len_window b Hw) as Hl.
  pose proof (wf_size _ Hw) as Hz. unfold minReadBufferSize in Hz. destruct (b_w b <? b_r b + 4) eqn:E1; zbool; cbn [andb].
  2:{ exists b. split_and!; [done|by apply leaves_refl|left]. apply FullRune_long; [by apply content_bytes|lia]. }
  destruct (FullRune (window b)) eqn:E2; cbn [negb andb].
  { exists b. split_and!; [done|by apply leaves_refl|by left]. }
  case_bool_decide as He; cbn [andb].
  2:{ exists b. split_and!; [done|by apply leaves_refl|by right]. }
  rewrite (proj2 (Z.ltb_lt _ _)) by lia. destruct (fill_spec b Hw ltac:(lia)) as (b1 & d & -> & Hv & Hwin & Hr & Hd). cbn [mbind option_bind].
  destruct fuel as [|fuel]; [lia|]. rewrite <- (leaves_content _ _ _ Hv) in Hb |- *.
  destruct Hd as [Hd|Hne].
  - destruct (IH b1 (leaves_wf _ _ _ Hv) Hb) as (b2 & -> & Hv2 & Hx); [|lia|].
    { rewrite Hwin, len_app. destruct d; [done|]. rewrite len_cons. pose proof (len_nonneg d). lia. }
    exists b2. split_and!; [done| |done]. by eapply leaves_trans.
  - exists b1. split_and!; [|by rewrite (leaves_content _ _ _ Hv)|by right].
    cbn [ReadRune_loop]. rewrite (bool_decide_eq_false_2 _ Hne), !andb_false_r. done.
Qed.

(** ReadRune decodes the next rune, or one byte where there is none. *)
Lemma ReadRune_spec b :
  wf b -> bytes_ok (content b) ->
  exists b', 
    if bool_decide (content b = []) then ReadRune b = Some (b', (0, 0, Some (ending (rd b)))) /\ leaves b b' []
    else let '(r, size) := DecodeRune (content b) in
      ReadRune b = Some (b', (r, size, None)) /\ leaves b b' (drop (Z.to_nat size) (content b)) /\
      lastRuneSize b' = size /\ 0 < size <= b_r b' /\ exists b0, leaves b b0 (content b) /\ b' = with_last_ (with_r b0 (b_r b0 + size)) (lastByte b') size.
Proof.
  intros Hw Hb. unfold ReadRune. destruct (ReadRune_loop_spec 5 b Hw Hb) as (b1 & -> & Hv & Hx); [pose proof (len_nonneg (window b)); lia|lia|].
  cbn [mbind option_bind]. pose proof (leaves_wf _ _ _ Hv) as Hw1. destruct (wf_pos _ Hw1) as [Hp1 Hp2]. cbn [with_last_ b_r b_w buf].
  rewrite <- (leaves_content _ _ _ Hv) in Hb |- *. destruct (b_r b1 =? b_w b1) eqn:E; zbool.
  - destruct Hx as [Hx|Hne]; [by rewrite window_nil in Hx|]. destruct (err_content b1 Hw1 Hne) as [Ee Hc]. rewrite Hc, window_nil by done.
    unfold readErr. cbn [b_err with_last_]. rewrite Ee, (leaves_ending _ _ _ Hv). eexists. split; [done|]. apply leaves_readErr.
    rewrite (leaves_content b b1 (content b) Hv), window_nil in Hc by done. rewrite Hc in Hv. by apply leaves_last.
  - destruct (window_cons b1 Hw1 ltac:(lia)) as [l Hcons]. pose proof (content_bytes _ Hb) as Hbw. set (c := at_ _ _) in *.
    assert (DecodeRune (content b1) = DecodeRune (window b1)) as HD.
    { destruct Hx as [Hx|Hne]; [by rewrite content_split, FullRune_decode|]. by destruct (err_content b1 Hw1 Hne) as [_ ->]. }
    assert (bool_decide (content b1 = []) = false) as -> by (apply bool_decide_eq_false_2; by rewrite content_split, Hcons).
    rewrite Hcons in Hbw. apply Forall_cons in Hbw as [Hc _].
    assert (exists r n, DecodeRune (window b1) = (r, n) /\ 1 <= n <= b_w b1 - b_r b1 /\ (c < 128 -> r = c /\ n = 1)) as (r & n & HDw & Hn & Hs).
    { rewrite <- (len_window b1 Hw1). destruct (DecodeRune_size c l Hc) as (r & n & HD1 & Hn1 & Hs). rewrite <- Hcons in HD1.
      exists r, n. split_and!; try done; [lia|]. destruct (DecodeRune_cases (window b1)) as [(r' & rest & Hv' & Hp & HD2)|[HD2 _]].
      - by apply content_bytes.
      - by rewrite Hcons.
      - rewrite HD2 in HD1. injection HD1 as <- <-. rewrite Hp, len_app. pose proof (len_nonneg rest). lia.
      - rewrite HD2 in HD1. injection HD1 as <- <-. rewrite Hcons, len_cons. pose proof (len_nonneg l). lia. }
    rewrite HD, HDw. change (window (with_last_ b1 (lastByte b1) (-1))) with (window b1). rewrite HDw.
    assert ((if RuneSelf <=? c then (r, n) else (c, 1)) = (r, n)) as ->.
    { destruct (RuneSelf <=? c) eqn:Ec; zbool; [done|]. by destruct (Hs Ec) as [-> ->]. }
    eexists. split; [done|]. split_and!; [|done|cbn; lia..|].
    + apply (leaves_last _ (with_r b1 (b_r b1 + n))). pose proof (leaves_with_r b1 n Hw1 ltac:(lia)) as Hv1. by eapply leaves_trans.
    + exists b1. split; [|done]. by rewrite (leaves_content _ _ _ Hv).
Qed.

(** The last rune read comes back. *)
Lemma UnreadRune_spec b b0 C x size :
  leaves b b0 C -> 0 <= size ->
  exists b', UnreadRune (with_last_ (with_r b0 (b_r b0 + size)) x size) = (b', None) /\ leaves b b' C.
Proof.
  intros Hv Hs. destruct (wf_pos _ (leaves_wf _ _ _ Hv)) as [Hp _]. unfold UnreadRune. cbn.
  rewrite (proj2 (Z.ltb_ge _ _)), (proj2 (Z.ltb_ge _ _)) by lia. eexists. split; [done|]. cbn [orb].
  replace (b_r b0 + size - size) with (b_r b0) by lia. by apply (leaves_last b b0).
Qed.

(** ** Up to a delimiter

    Three ways to end: the delimiter, a full buffer, the end of the stream.  When the
    rest of the stream is exactly as long as the buffer, the reader decides which of the
    last two it is: it may report the end with the last bytes or later. *)
Inductive slice_end (b : BufReader) (delim : Z) : gobytes -> option error -> gobytes -> Prop :=
  | slice_found l rest :
      content b = l ++ delim :: rest -> delim ∉ l -> len l < len (buf b) -> slice_end b delim (l ++ [delim]) None rest
  | slice_full l rest :
      content b = l ++ rest -> delim ∉ l -> len l = len (buf b) -> slice_end b delim l (Some ErrBufferFull) rest
  | slice_ended :
      delim ∉ content b -> len (content b) <= len (buf b) -> slice_end b delim (content b) (Some (ending (rd b))) [].

Lemma slice_end_after b b1 delim line e C : leaves b b1 (content b) -> slice_end b1 delim line e C -> slice_end b delim line e C.
Proof.
  intros [_ Hc Hz He] [l rest E Hn Hl|l rest E Hn Hl|Hn Hl].
  - apply slice_found; [by rewrite <- Hc|done|by rewrite <- Hz].
  - apply slice_full; [by rewrite <- Hc|done|by rewrite <- Hz].
  - rewrite Hc, He. apply slice_ended; [by rewrite <- Hc|by rewrite <- Hc, <- Hz].
Qed.

Lemma cut_found (b : BufReader) s delim l1 l2 :
  wf b -> 0 <= s <= len (window b) -> delim ∉ take (Z.to_nat s) (window b) ->
  cut (buf b) (b_r b + s) (b_w b) = l1 ++ delim :: l2 -> delim ∉ l1 ->
  exists l, window b = l ++ delim :: l2 /\ delim ∉ l /\ len l = s + len l1.
Proof.
  intros Hw Hs Hn Hcut Hl1. destruct (wf_pos _ Hw) as [Hp1 Hp2]. pose proof (len_window b Hw) as Hl.
  assert (cut (buf b) (b_r b + s) (b_w b) = drop (Z.to_nat s) (window b)) as E.
  { unfold window, cut. rewrite skipn_firstn_comm, drop_drop. f_equal; [lia|]. f_equal. lia. }
  rewrite E in Hcut. exists (take (Z.to_nat s) (window b) ++ l1). split_and!.
  - by rewrite <- app_assoc, <- Hcut, take_drop.
  - by rewrite not_elem_of_app.
  - rewrite len_app. unfold len in *. rewrite length_take. lia.
Qed.

Lemma cut_not_found (b : BufReader) s delim :
  wf b -> 0 <= s <= len (window b) -> delim ∉ take (Z.to_nat s) (window b) -> delim ∉ cut (buf b) (b_r b + s) (b_w b) -> delim ∉ window b.
Proof.
  intros Hw Hs Hn Hcut. destruct (wf_pos _ Hw) as [Hp1 Hp2].
  assert (cut (buf b) (b_r b + s) (b_w b) = drop (Z.to_nat s) (window b)) as E.
  { unfold window, cut. rewrite skipn_firstn_comm, drop_drop. f_equal; [lia|]. f_equal. lia. }
  rewrite E in Hcut. rewrite <- (take_drop (Z.to_nat s) (window b)). by rewrite not_elem_of_app.
Qed.

Lemma ReadSlice_loop_spec fuel b s delim :
  wf b -> budget fuel b -> 0 <= s <= len (window b) -> delim ∉ take (Z.to_nat s) (window b) ->
  exists b' line e C, ReadSlice_loop fuel b s delim = Some (b', (line, e)) /\ slice_end b delim line e C /\ leaves b b' C /\
    (e = Some ErrBufferFull -> b_r b' = len (buf b) /\ leaves b (with_r b' (b_r b' - 1)) (drop (length line - 1) (content b))).
Proof.
  revert b s. induction fuel as [|fuel IH]; intros b s Hw Hb Hs Hn; [by destruct Hb; lia|]. cbn [ReadSlice_loop].
  pose proof (len_window b Hw) as Hl. destruct (wf_pos _ Hw) as [Hp1 Hp2].
  destruct (IndexByteString_spec (cut (buf b) (b_r b + s) (b_w b)) delim) as [[Hno ->]|(l1 & l2 & Hcut & Hl1 & ->)].
  2:{ destruct (cut_found b s delim l1 l2 Hw Hs Hn Hcut Hl1) as (l & Hwin & Hnl & Hll). pose proof (len_nonneg l1). pose proof (len_nonneg l2).
      rewrite (proj2 (Z.leb_le _ _)) by lia. assert (len (window b) = len l + 1 + len l2) as Hlw by (rewrite Hwin, len_app, len_cons; lia).
      assert (window b = (l ++ [delim]) ++ l2) as Hwin' by (by rewrite Hwin, <- app_assoc).
      assert (Z.to_nat (len l1 + s + 1) = length (l ++ [delim])) as Hk by (rewrite length_app; cbn; unfold len in *; lia).
      assert (take (Z.to_nat (len l1 + s + 1)) (window b) = l ++ [delim]) as Ht by (by rewrite Hwin', Hk, take_app_length).
      eexists _, (l ++ [delim]), None, (l2 ++ remains (rd b)). rewrite <- Z.add_assoc, cut_window, Ht by lia. split; [done|]. split_and!; [| |done].
      - apply slice_found; [by rewrite content_split, Hwin, <- app_assoc|done|lia].
      - replace (l2 ++ remains (rd b)) with (drop (Z.to_nat (len l1 + s + 1)) (content b)); [apply leaves_with_r; [done|lia]|].
        by rewrite content_split, Hwin', Hk, <- (app_assoc (l ++ [delim])), drop_app_length. }
  cbn [Z.leb]. pose proof (cut_not_found b s delim Hw Hs Hn Hno) as Hnw. case_bool_decide as He; cbn [negb].
  2:{ destruct (err_content b Hw He) as [Ee Hc]. eexists _, (window b), _, []. unfold readErr. cbn [with_r b_err]. rewrite Ee. split; [done|].
      rewrite <- Hc. split_and!; [apply slice_ended; rewrite ?Hc; [done|lia]| |].
      - apply leaves_readErr. replace [] with (drop (Z.to_nat (b_w b - b_r b)) (content b)) by (apply drop_ge; rewrite Hc; unfold len in *; lia).
        replace (b_w b) with (b_r b + (b_w b - b_r b)) at 1 by lia. apply leaves_with_r; [done|lia].
      - intros [= E]. by destruct (ending_other _ (wf_steady _ Hw)). }
  unfold Buffered. destruct (len (buf b) <=? b_w b - b_r b) eqn:Efull; zbool.
  - assert (window b = buf b) as Hwb.
    { unfold window, cut. replace (b_r b) with 0 by lia. rewrite drop_0, take_ge; [done|]. unfold len in *. lia. }
    rewrite <- Hwb. pose proof (wf_size _ Hw) as Hz. unfold minReadBufferSize in Hz.
    eexists _, (window b), _, (remains (rd b)). split; [done|]. split_and!; [by apply slice_full; [|done|lia]| |].
    + replace (remains (rd b)) with (drop (Z.to_nat (b_w b - b_r b)) (content b)).
      { replace (b_w b) with (b_r b + (b_w b - b_r b)) at 1 by lia. apply leaves_with_r; [done|lia]. }
      rewrite content_split. replace (Z.to_nat _) with (length (window b)) by (unfold len in *; lia). by rewrite drop_app_length.
    + intros _. cbn [b_r with_r]. split; [lia|]. replace (length (window b) - 1)%nat with (Z.to_nat (b_w b - 1)) by (unfold len in *; lia).
      change (with_r (with_r b (b_w b)) (b_w b - 1)) with (with_r b (b_w b - 1)). replace (b_w b - 1) with (b_r b + (b_w b - 1)) at 1 by lia.
      apply leaves_with_r; [done|lia].
  - destruct (fill_step fuel b Hw He ltac:(lia) Hb) as (b1 & d & -> & Hv & Hwin & Hb1). cbn [mbind option_bind]. rewrite <- Hl.
    destruct (IH b1 (len (window b)) (leaves_wf _ _ _ Hv) Hb1) as (b2 & line & e & C & -> & Hend & Hv2 & Hput).
    + rewrite Hwin, len_app. pose proof (len_nonneg d). pose proof (len_nonneg (window b)). lia.
    + rewrite Hwin. unfold len. by rewrite Nat2Z.id, take_app_length.
    + exists b2, line, e, C. split_and!; [done|by eapply slice_end_after|by eapply leaves_trans|].
      intros [H1 H2]%Hput. rewrite (leaves_size _ _ _ Hv) in H1. rewrite (leaves_content _ _ _ Hv) in H2. split; [done|by eapply leaves_trans].
Qed.

Lemma ReadSlice_spec b delim :
  wf b ->
  exists b' line e C, ReadSlice b delim = Some (b', (line, e)) /\ slice_end b delim line e C /\ leaves b b' C /\
    (e = Some ErrBufferFull -> b_r b' = len (buf b) /\ leaves b (with_r b' (b_r b' - 1)) (drop (length line - 1) (content b))).
Proof.
  intros Hw. unfold ReadSlice.
  destruct (ReadSlice_loop_spec _ b 0 delim Hw (budget_start b)) as (b1 & line & e & C & -> & Hend & Hv & Hput); [pose proof (len_nonneg (window b)); lia|apply not_elem_of_nil|].
  cbn [mbind option_bind]. destruct (last line) as [c|]; eexists _, line, e, C; (split; [done|]); [|by split_and!].
  split_and!; [done|by apply leaves_last|]. intros [H1 H2]%Hput. split; [done|]. by apply (leaves_last _ (with_r b1 (b_r b1 - 1))).
Qed.

(** ** Lines *)

(** A line without the carriage return before its newline. *)
Definition strip_cr (l : gobytes) : gobytes := if bool_decide (last l = Some return_) then take (length l - 1) l else l.

Lemma strip_cr_snoc l : strip_cr (l ++ [return_]) = l.
Proof. unfold strip_cr. rewrite last_snoc, bool_decide_true by done. rewrite length_app. cbn. by rewrite Nat.add_sub, take_app_length. Qed.

Lemma strip_cr_other l : last l <> Some return_ -> strip_cr l = l.
Proof. intros Hl. unfold strip_cr. by rewrite bool_decide_false. Qed.

Lemma strip_cr_app l m : m <> [] -> strip_cr (l ++ m) = l ++ strip_cr m.
Proof.
  intros Hm. destruct (exists_last Hm) as (m' & x & ->). rewrite app_assoc. destruct (decide (x = return_)) as [->|Hx].
  - by rewrite !strip_cr_snoc.
  - by rewrite !strip_cr_other, app_assoc by (rewrite last_snoc; congruence).
Qed.

Lemma drop_eol_snoc l : drop_eol (l ++ [newline]) = strip_cr l.
Proof.
  unfold drop_eol. rewrite last_snoc, bool_decide_true by done. destruct (decide (l = [])) as [->|Hne]; [done|].
  destruct (exists_last Hne) as (l' & x & ->). rewrite !len_app, !length_app. cbn. pose proof (len_nonneg l').
  rewrite (proj2 (Z.ltb_lt _ _)) by (change (@len Z [_]) with 1; lia). cbn [andb].
  assert (at_ ((l' ++ [x]) ++ [newline]) (length l' + 1 + 1 - 2) = x) as ->.
  { unfold at_. replace (length l' + 1 + 1 - 2)%nat with (length l') by lia. rewrite <- app_assoc. cbn. apply nth_middle. }
  destruct (x =? return_) eqn:E; zbool.
  - subst x. rewrite strip_cr_snoc. replace (length l' + 1 + 1 - 2)%nat with (length l') by lia. by rewrite <- app_assoc, take_app_length.
  - rewrite strip_cr_other by (rewrite last_snoc; congruence). replace (length l' + 1 + 1 - 1)%nat with (length (l' ++ [x])) by (rewrite length_app; cbn; lia).
    by rewrite take_app_length.
Qed.

Lemma drop_eol_other l : newline ∉ l -> drop_eol l = l.
Proof. intros Hn. unfold drop_eol. rewrite bool_decide_false; [done|]. intros [l' ->]%last_Some. by apply Hn, elem_of_app; right; left. Qed.

(** What ReadLine returns: a whole line, the part of one that fills the buffer (a carriage
    return at its end is left for the next call), the rest of the stream, or its end. *)
Inductive line_end (b : BufReader) : gobytes -> bool -> option error -> gobytes -> Prop :=
  | line_found l rest :
      content b = l ++ newline :: rest -> newline ∉ l -> len l < len (buf b) -> line_end b (strip_cr l) false None rest
  | line_part l rest :
      content b = l ++ rest -> newline ∉ l -> len (buf b) - 1 <= len l <= len (buf b) ->
      (last l = Some return_ -> head rest = Some return_) -> line_end b l true None rest
  | line_last : newline ∉ content b -> content b <> [] -> len (content b) <= len (buf b) -> line_end b (content b) false None []
  | line_none : content b = [] -> line_end b [] false (Some (ending (rd b))) [].

Lemma ReadLine_spec b :
  wf b -> exists b' line more e C, ReadLine b = Some (b', (line, more, e)) /\ line_end b line more e C /\ leaves b b' C.
Proof.
  intros Hw. unfold ReadLine. destruct (ReadSlice_spec b newline Hw) as (b1 & line & e & C & -> & Hend & Hv & Hput). cbn [mbind option_bind].
  pose proof (wf_size _ Hw) as Hz. unfold minReadBufferSize in Hz. destruct Hend as [l rest Hc Hn Hl|l rest Hc Hn Hl|Hn Hl].
  - rewrite bool_decide_false by done. rewrite len_app. pose proof (len_nonneg l). change (@len Z [_]) with 1. rewrite (proj2 (Z.eqb_neq _ _)) by lia.
    rewrite drop_eol_snoc. eexists _, _, _, _, rest. split; [done|]. split; [by apply line_found|done].
  - rewrite bool_decide_true by done. destruct (Hput eq_refl) as [Hr Hv1]. rewrite Hr. case_bool_decide as Hcr.
    + rewrite (proj2 (Z.eqb_neq _ _)) by lia. apply last_Some in Hcr as [l' ->].
      eexists _, _, _, _, (return_ :: rest). rewrite !length_app in *. cbn [length] in *. rewrite Nat.add_sub, take_app_length in *. split; [done|].
      rewrite not_elem_of_app in Hn. rewrite len_app in Hl. change (@len Z [_]) with 1 in Hl.
      split; [apply line_part; [by rewrite Hc, <- app_assoc|tauto|lia|done]|].
      rewrite Hc, <- app_assoc, drop_app_length, Hr in Hv1. done.
    + eexists _, _, _, _, rest. split; [done|]. split; [by apply line_part; [|done|lia|]|done].
  - rewrite bool_decide_false by (intros [= E]; by destruct (ending_other _ (wf_steady _ Hw))). destruct (len (content b) =? 0) eqn:E; zbool.
    + assert (content b = []) as Hnil by (apply nil_length_inv; unfold len in E; lia). eexists _, _, _, _, []. split; [done|]. split; [by apply line_none|done].
    + rewrite drop_eol_other by done. eexists _, _, _, _, []. split; [done|]. split; [|done]. apply line_last; [done| |done]. intros Hnil. by rewrite Hnil in E.
Qed.

(** ** Whole delimited strings *)

(** ReadBytes and ReadString: up to the delimiter however long, or all there is with the
    error at its end. *)
Lemma collectFragments_spec fuel b full delim :
  wf b -> len (content b) < Z.of_nat fuel ->
  exists b' full' frag e C, collectFragments fuel b full delim = Some (b', (full ++ full', frag, e)) /\ leaves b b' C /\
    content b = concat full' ++ frag ++ C /\ delim ∉ concat full' /\
    ((exists l, frag = l ++ [delim] /\ delim ∉ l /\ e = None) \/ (delim ∉ frag /\ C = [] /\ e = Some (ending (rd b)))).
Proof.
  revert b full. induction fuel as [|fuel IH]; intros b full Hw Hf; [pose proof (len_nonneg (content b)); lia|]. cbn [collectFragments].
  destruct (ReadSlice_spec b delim Hw) as (b1 & line & e & C & -> & Hend & Hv & _). cbn [mbind option_bind].
  destruct Hend as [l rest Hc Hn Hl|l rest Hc Hn Hl|Hn Hl].
  - rewrite bool_decide_true by done. exists b1, [], (l ++ [delim]), None, rest. rewrite app_nil_r. split_and!; try done.
    + cbn. by rewrite Hc, <- app_assoc.
    + apply not_elem_of_nil.
    + left. by exists l.
  - rewrite bool_decide_false, bool_decide_true by done. cbn [negb]. pose proof (wf_size _ Hw) as Hz. unfold minReadBufferSize in Hz.
    rewrite Hc, len_app in Hf. destruct (IH b1 (full ++ [l]) (leaves_wf _ _ _ Hv)) as (b2 & full' & frag & e & C & -> & Hv2 & Hc2 & Hn2 & Hr).
    { rewrite (leaves_content _ _ _ Hv). lia. }
    rewrite (leaves_content _ _ _ Hv) in Hc2. rewrite (leaves_ending _ _ _ Hv) in Hr. exists b2, (l :: full'), frag, e, C. split_and!; try done.
    + by rewrite <- app_assoc.
    + by eapply leaves_trans.
    + cbn. by rewrite Hc, Hc2, <- app_assoc.
    + cbn. by rewrite not_elem_of_app.
  - rewrite !bool_decide_false; [|intros [= E]; by destruct (ending_other _ (wf_steady _ Hw))|done]. cbn [negb].
    exists b1, [], (content b), (Some (ending (rd b))), []. rewrite !app_nil_r. split_and!; try done; [apply not_elem_of_nil|by right].
Qed.

Lemma ReadBytes_spec fuel b delim :
  wf b -> len (content b) < Z.of_nat fuel ->
  exists b' d e C, ReadBytes fuel b delim = Some (b', (d, e)) /\ leaves b b' C /\ content b = d ++ C /\
    ((exists l, d = l ++ [delim] /\ delim ∉ l /\ e = None) \/ (delim ∉ d /\ C = [] /\ e = Some (ending (rd b)))).
Proof.
  intros Hw Hf. unfold ReadBytes. destruct (collectFragments_spec fuel b [] delim Hw Hf) as (b' & full & frag & e & C & -> & Hv & Hc & Hn & Hr).
  cbn [mbind option_bind app]. exists b', (concat full ++ frag), e, C. split_and!; [done..|by rewrite <- app_assoc|].
  destruct Hr as [(l & -> & Hl & ->)|(Hl & -> & ->)]; [left|right].
  - exists (concat full ++ l). by rewrite app_assoc, not_elem_of_app.
  - by rewrite not_elem_of_app.
Qed.

(** ** Making a reader *)

Lemma NewReaderSize_spec src size : steady src -> wf (NewReaderSize src size) /\ content (NewReaderSize src size) = remains src.
Proof.
  intros Hs. split; [|done]. unfold NewReaderSize, reset, minReadBufferSize.
  assert (len (replicate (Z.to_nat (size `max` 16)) 0) = Z.max size 16) as Hl by (unfold len; rewrite length_replicate; lia).
  split; cbn; rewrite ?Hl; unfold minReadBufferSize; try done; lia.
Qed.

Lemma ReadByte_UnreadByte b :
  wf b -> bytes_ok (content b) ->
  exists b', leaves b b' (tail (content b)) /\
    match content b with
    | [] => ReadByte b = Some (b', (0, Some (ending (rd b))))
    | c :: _ => ReadByte b = Some (b', (c, None)) /\ exists b'', UnreadByte b' = (b'', None) /\ leaves b b'' (content b)
    end.
Proof.
  intros Hw Hb. destruct (ReadByte_spec b Hw) as (b' & Hv & Hm). exists b'. split; [done|]. destruct (content b) as [|c C]; [done|].
  destruct Hm as (HR & Hl & Hr). split; [done|]. apply Forall_cons in Hb as [Hc _]. unfold is_byte in Hc.
  pose proof (UnreadByte_spec b' (leaves_wf _ _ _ Hv) ltac:(lia)) as Hu. rewrite decide_True in Hu by lia. destruct Hu as (b'' & Hu & Hv').
  exists b''. split; [done|]. rewrite (leaves_content _ _ _ Hv), Hl in Hv'. by eapply leaves_trans.
Qed.

Lemma ReadRune_UnreadRune b :
  wf b -> bytes_ok (content b) -> content b <> [] ->
  let '(r, size) := DecodeRune (content b) in
  exists b' b'', ReadRune b = Some (b', (r, size, None)) /\ leaves b b' (drop (Z.to_nat size) (content b)) /\
    UnreadRune b' = (b'', None) /\ leaves b b'' (content b).
Proof.
  intros Hw Hb Hne. destruct (ReadRune_spec b Hw Hb) as (b' & Hm). rewrite bool_decide_false in Hm by done. destruct (DecodeRune (content b)) as [r size].
  destruct Hm as (HR & Hv & _ & Hs & b0 & Hv0 & E). destruct (UnreadRune_spec b b0 (content b) (lastByte b') size Hv0 ltac:(lia)) as (b'' & Hu & Hv').
  rewrite <- E in Hu. by exists b', b''.
Qed.

End Spec.

(** ** io.ReadFull over a byte stream *)

Section ReadFull.
Context {R : Type} `{ByteStream R}.

(** Something else that reading keeps. *)
Context (P : R -> Prop) (P_Read : forall r n r' x, steady r -> 0 < n -> P r -> Read r n = (r', x) -> P r').

Lemma ReadAtLeast_loop_bytes fuel (r : R) acc n :
  steady r -> P r -> len acc <= n -> 100 * (n - len acc) + Z.of_nat (patience r) < Z.of_nat fuel ->
  exists r' d e, ReadAtLeast_loop fuel r acc None n n = Some (r', (acc ++ d, e)) /\ steady r' /\ P r' /\ remains r = d ++ remains r' /\
    ending r' = ending r /\ len (acc ++ d) <= n /\ (len (acc ++ d) < n -> e = Some (ending r) /\ remains r' = []).
Proof.
  revert r acc. induction fuel as [|fuel IH]; intros r acc Hs HP Hl Hf; [lia|]. cbn [ReadAtLeast_loop]. rewrite bool_decide_true, andb_true_r by done.
  destruct (len acc <? n) eqn:En; zbool.
  2:{ exists r, [], None. rewrite app_nil_r. split_and!; try done; lia. }
  destruct (Read_law r (n - len acc) Hs ltac:(lia)) as (r1 & d & e & HR & Hs1 & Hr & Hd & He & Hend & Hp).
  pose proof (P_Read r (n - len acc) r1 _ Hs ltac:(lia) HP HR) as HP1. rewrite HR. destruct (decide (e = None)) as [->|Hne].
  - destruct (IH r1 (acc ++ d) Hs1 HP1) as (r2 & d2 & e2 & -> & Hs2 & HP2 & Hr2 & He2 & Hl2 & Hend2); [rewrite len_app; lia| |].
    { rewrite len_app. pose proof (patience_bound r1 Hs1) as Hb. unfold maxConsecutiveEmptyReads in Hb. pose proof (len_nonneg d).
      destruct (decide (d = [])) as [->|Hne]; [specialize (Hp eq_refl eq_refl); change (@len Z []) with 0; lia|].
      destruct d; [done|]. rewrite len_cons in *. pose proof (len_nonneg d). lia. }
    rewrite <- app_assoc in *. exists r2, (d ++ d2), e2. rewrite He in *. split_and!; try done. by rewrite Hr, Hr2, app_assoc.
  - destruct (Hend Hne) as [-> Hnil]. destruct fuel as [|fuel]; [lia|]. cbn [ReadAtLeast_loop]. rewrite bool_decide_false, andb_false_r by done.
    exists r1, d, (Some (ending r)). rewrite len_app. split_and!; try done. lia.
Qed.

(** ReadFull takes exactly the next [n] bytes, or all that are left with an error. *)
Lemma ReadFull_bytes fuel (r : R) n :
  steady r -> P r -> 0 <= n -> 100 * (n + 1) <= Z.of_nat fuel ->
  exists r', steady r' /\ P r' /\ ending r' = ending r /\ remains r' = drop (Z.to_nat n) (remains r) /\
    ReadFull fuel r n = Some (r', if n <=? len (remains r) then (take (Z.to_nat n) (remains r), None)
      else (remains r, Some (if bool_decide (remains r = []) then ending r else if bool_decide (ending r = EOF) then ErrUnexpectedEOF else ending r))).
Proof.
  intros Hs HP Hn Hf. pose proof (patience_bound r Hs) as Hb. unfold maxConsecutiveEmptyReads in Hb. unfold ReadFull, ReadAtLeast. rewrite Z.ltb_irrefl.
  destruct (ReadAtLeast_loop_bytes fuel r [] n Hs HP) as (r' & d & e & -> & Hs' & HP' & Hr & He & Hl & Hend); [done|change (@len Z []) with 0; lia|].
  cbn [app mbind option_bind] in *. exists r'. assert (len (remains r) = len d + len (remains r')) as Hlr by (by rewrite Hr, len_app).
  pose proof (len_nonneg (remains r')). destruct (n <=? len d) eqn:Ed; zbool.
  - assert (Z.to_nat n = length d) as Hk by (unfold len in *; lia). rewrite (proj2 (Z.leb_le n (len (remains r)))) by lia.
    rewrite Hk, Hr, take_app_length, drop_app_length. by split_and!.
  - destruct (Hend Ed) as [-> Hnil]. rewrite Hnil, app_nil_r in Hr. subst d. rewrite Hnil in Hlr. change (@len Z []) with 0 in Hlr.
    rewrite (proj2 (Z.leb_gt n (len (remains r)))) by lia. split_and!; try done.
    + rewrite Hnil, drop_ge; [done|]. unfold len in *. lia.
    + do 4 f_equal. destruct (remains r) as [|x l]; [done|]. rewrite (proj2 (Z.ltb_lt 0 (len (x :: l)))) by (rewrite len_cons; pose proof (len_nonneg l); lia).
      cbn [andb]. rewrite (bool_decide_false (x :: l = [])) by done. repeat case_bool_decide; try done; congruence.
Qed.

End ReadFull.

(** ReadFull of a buffered reader. *)
Lemma ReadFull_buffered {R : Type} `{ByteStream R} fuel (b : BufReader R) n :
  wf b -> 0 <= n -> 100 * (n + 1) <= Z.of_nat fuel ->
  exists b', leaves b b' (drop (Z.to_nat n) (content b)) /\
    ReadFull fuel b n = Some (b', if n <=? len (content b) then (take (Z.to_nat n) (content b), None)
      else (content b, Some (if bool_decide (content b = []) then ending (rd b) else if bool_decide (ending (rd b) = EOF) then ErrUnexpectedEOF else ending (rd b)))).
Proof.
  intros Hw Hn Hf. assert (forall (r : BufReader R) k r' x, steady r -> 0 < k -> len (buf r) = len (buf b) -> Read r k = (r', x) -> len (buf r') = len (buf b)) as Hkeep.
  { intros r k r' x Hr Hk Hl E. destruct (Read_spec r k Hr Hk) as (r2 & d & e & C & E2 & Hv & _). rewrite E2 in E. injection E as <- _.
    by rewrite (leaves_size _ _ _ Hv). }
  destruct (ReadFull_bytes (fun b' => len (buf b') = len (buf b)) Hkeep fuel b n Hw eq_refl Hn Hf) as (b' & Hw' & Hz & He & Hr & HR).
  exists b'. split; [by split|done].
Qed.

(** ** Claims *)

(** [C16] A buffered reader gives the bytes of its stream, however the stream is cut into
    reads.  A new reader of any size holds the stream.  Peek shows the next bytes, as many
    as there are and fit, and takes nothing; Discard skips them; ReadByte and ReadRune
    read one byte or one rune and the matching Unread puts it back; ReadSlice ends at the
    delimiter, at a full buffer or at the end; ReadBytes returns everything up to the
    delimiter, however long.  No call panics or loops, and each error is the one at the
    end of the stream, given when nothing more is left. *)
Theorem bufio_exact {R : Type} `{ByteStream R} (src : R) (b : BufReader R) (size n delim : Z) :
  steady src -> wf b -> bytes_ok (content b) -> 0 <= n ->
  (wf (NewReaderSize src size) /\ content (NewReaderSize src size) = remains src) /\
  (exists b', Peek b n = Some (b', (take (Z.to_nat (Z.min n (len (buf b)))) (content b),
      if len (buf b) <? n then Some ErrBufferFull else if len (content b) <? n then Some (ending (rd b)) else None)) /\
    leaves b b' (content b)) /\
  (exists b', Discard b n = Some (b', if len (content b) <? n then (len (content b), Some (ending (rd b))) else (n, None)) /\
    leaves b b' (drop (Z.to_nat n) (content b))) /\
  (exists b', leaves b b' (tail (content b)) /\
    match content b with
    | [] => ReadByte b = Some (b', (0, Some (ending (rd b))))
    | c :: _ => ReadByte b = Some (b', (c, None)) /\ exists b'', UnreadByte b' = (b'', None) /\ leaves b b'' (content b)
    end) /\
  (content b <> [] ->
    let '(r, size) := DecodeRune (content b) in
    exists b' b'', ReadRune b = Some (b', (r, size, None)) /\ leaves b b' (drop (Z.to_nat size) (content b)) /\
      UnreadRune b' = (b'', None) /\ leaves b b'' (content b)) /\
  (exists b' line e C, ReadSlice b delim = Some (b', (line, e)) /\ slice_end b delim line e C /\ leaves b b' C) /\
  (forall fuel, len (content b) < Z.of_nat fuel ->
    exists b' d e C, ReadBytes fuel b delim = Some (b', (d, e)) /\ leaves b b' C /\ content b = d ++ C /\
      ((exists l, d = l ++ [delim] /\ delim ∉ l /\ e = None) \/ (delim ∉ d /\ C = [] /\ e = Some (ending (rd b))))).
Proof.
  intros Hs Hw Hb Hn. split_and!.
  - by apply NewReaderSize_spec.
  - by apply NewReaderSize_spec.
  - by apply Peek_spec.
  - by apply Discard_spec.
  - by apply ReadByte_UnreadByte.
  - by apply ReadRune_UnreadRune.
  - destruct (ReadSlice_spec b delim Hw) as (b' & line & e & C & ? & ? & ? & _). by exists b', line, e, C.
  - intros fuel Hf. by apply ReadBytes_spec.
Qed.

(** Nine bytes in three chunks, with an empty one between, read through 16 bytes. *)
Lemma bufio_exact_witness :
  exists b', Peek (NewReaderSize (demo ["ab"; ""; "cdef"; "ghi"]%string) 0) 5 = Some (b', (str "abcde", None)).
Proof.
  destruct (bufio_exact (demo ["ab"; ""; "cdef"; "ghi"]%string) (NewReaderSize (demo ["ab"; ""; "cdef"; "ghi"]%string) 0) 16 5 97)
    as (_ & (b' & HP & _) & _).
  - vm_compute. split; [|done]. repeat split; lia.
  - apply NewReaderSize_spec. vm_compute. split; [|done]. repeat split; lia.
  - by apply (bool_decide_unpack _).
  - lia.
  - exists b'. exact HP.
Defined.
