(* ===== verification/TextReader.v ===== *)
(** * net/textproto: reading lines and headers

    [tools/go-patched/src/net/textproto/reader.go]: lines of any length, lines with
    continuations, and the block of headers of a message, over the buffered reader of
    [Bufio].  No dot reader is open ([closeDot] returns at once), as in every use that
    net/http makes of it.  The buffer of continued lines is emptied before each use and is
    a local value here.  [fuel] bounds the loops; more than the bytes left is enough. *)

From S2P Require Import Prelude GoIO HostPort Utf8 Strings Url UrlParse TextProto Bufio.
Local Open Scope go_scope.

Notation htab := 9 (only parsing).
Notation MIMEHeader := (gmap (list Z) (list (list Z))) (only parsing).

(** ** Bytes *)

Definition blank (c : Z) : bool := (c =? space) || (c =? htab).

(** [bytes.TrimLeft(s, " \t")] *)
Fixpoint TrimLeft_blank (s : gobytes) : gobytes :=
  match s with c :: t => if blank c then TrimLeft_blank t else s | [] => [] end.

Definition trim (s : gobytes) : gobytes := rev (TrimLeft_blank (rev (TrimLeft_blank s))).

Definition isASCIILetter (b : Z) : bool := let b := b .| 32 in (97 <=? b) && (b <=? 122).

Definition noValidation (line : gobytes) : option error := None.

Definition mustHaveFieldNameColon (line : gobytes) : option error :=
  if IndexByteString line colon <? 0 then Some (ProtocolError [inl (str "malformed MIME header: missing colon: "); inr line]) else None.

Definition maxInt64 : Z := 2 ^ 63 - 1.

Section Reader.
Context {R : Type} `{Reader R}.
Notation BufReader := (BufReader R).
Notation M A := (option (BufReader * A)).

(** ** Lines *)

Fixpoint readLineSlice_loop (fuel : nat) (b : BufReader) (line : gobytes) (lim : Z) : M (gobytes * option error) :=
  match fuel with
  | O => None
  | S fuel =>
      '(b, (l, more, err)) ← Bufio.ReadLine b;
      if negb (bool_decide (err = None)) then Some (b, ([], err))
      else if (0 <=? lim) && (lim <? len line + len l) then Some (b, ([], Some errMessageTooLarge))
      else
        let line := line ++ l in
        if negb more then Some (b, (line, None)) else readLineSlice_loop fuel b line lim
  end.

Definition readLineSlice (fuel : nat) (b : BufReader) (lim : Z) : M (gobytes * option error) := readLineSlice_loop fuel b [] lim.
Definition ReadLine (fuel : nat) (b : BufReader) : M (gostring * option error) := readLineSlice fuel b (-1).

(** ** Continued lines *)

Fixpoint skipSpace (fuel : nat) (b : BufReader) (n : Z) : M Z :=
  match fuel with
  | O => None
  | S fuel =>
      '(b, (c, err)) ← ReadByte b;
      if negb (bool_decide (err = None)) then Some (b, n)
      else if negb (c =? space) && negb (c =? htab) then Some (fst (UnreadByte b), n)
      else skipSpace fuel b (n + 1)
  end.

(** [for r.skipSpace() > 0]; [buf] is [r.buf]. *)
Fixpoint continuation_loop (fuel : nat) (b : BufReader) (buf : gobytes) (lim : Z) : M (gobytes * option error) :=
  match fuel with
  | O => None
  | S fuel' =>
      '(b, n) ← skipSpace fuel b 0;
      if 0 <? n then
        let buf := buf ++ [space] in
        if lim <=? len buf then Some (b, ([], Some errMessageTooLarge)) else
        '(b, (line, err)) ← readLineSlice fuel b (lim - len buf);
        if negb (bool_decide (err = None)) then Some (b, (buf, None))
        else continuation_loop fuel' b (buf ++ trim line) lim
      else Some (b, (buf, None))
  end.

(** Whether the bytes that are next show that no continuation follows. *)
Definition no_continuation (peek : gobytes) : bool :=
  ((0 <? len peek) && (isASCIILetter (at_ peek 0) || (at_ peek 0 =? newline))) ||
  ((len peek =? 2) && (at_ peek 0 =? return_) && (at_ peek 1 =? newline)).

Definition next_is_quick (b : BufReader) : M bool :=
  if 1 <? Buffered b then '(b, (peek, _)) ← Peek b 2; Some (b, no_continuation peek) else Some (b, false).

Definition readContinuedLineSlice (fuel : nat) (b : BufReader) (lim : Z) (validateFirstLine : gobytes -> option error)
    : M (gobytes * option error) :=
  '(b, (line, err)) ← readLineSlice fuel b lim;
  if negb (bool_decide (err = None)) then Some (b, ([], err)) else
  if len line =? 0 then Some (b, (line, None)) else
  match validateFirstLine line with
  | Some err => Some (b, ([], Some err))
  | None =>
      '(b, quick) ← next_is_quick b;
      if (quick : bool) then Some (b, (trim line, None)) else
      let buf := trim line in
      let lim := if lim <? 0 then maxInt64 else lim in
      continuation_loop fuel b buf (lim - len buf)
  end.

Definition ReadContinuedLine (fuel : nat) (b : BufReader) : M (gostring * option error) :=
  readContinuedLineSlice fuel b (-1) noValidation.

(** ** Headers *)

Fixpoint count_keys (fuel : nat) (peek : gobytes) (n : Z) : Z :=
  match fuel with
  | O => n
  | S fuel =>
      if (0 <? len peek) && (n <? 1000) then
        let '(line, peek, _) := Cut peek [newline] in
        if (len line =? 0) || ((len line =? 1) && (at_ line 0 =? return_)) then n
        else if (at_ line 0 =? space) || (at_ line 0 =? htab) then count_keys fuel peek n
        else count_keys fuel peek (n + 1)
      else n
  end.

Definition upcomingHeaderKeys (b : BufReader) : M Z :=
  '(b, _) ← Peek b 1;
  let s := Buffered b in
  if s =? 0 then Some (b, 0) else
  '(b, (peek, _)) ← Peek b s;
  Some (b, count_keys (length peek) peek 0).

Definition mapEntryOverhead : Z := 200.

Definition malformed (kv : gobytes) : error := ProtocolError [inl (str "malformed MIME header line: " ++ kv)].

(** The loop of readMIMEHeader.  The slices that are cut from one large allocation hold
    the values that separate ones would. *)
Fixpoint header_loop (fuel : nat) (b : BufReader) (m : MIMEHeader) (maxMemory maxHeaders : Z) : M (MIMEHeader * option error) :=
  match fuel with
  | O => None
  | S fuel' =>
      '(b, (kv, err)) ← readContinuedLineSlice fuel b maxMemory mustHaveFieldNameColon;
      if len kv =? 0 then Some (b, (m, err)) else
      let '(k, v, ok) := Cut kv [colon] in
      if negb ok then Some (b, (m, Some (malformed kv))) else
      let '(key, ok) := canonicalMIMEHeaderKey k in
      if negb ok then Some (b, (m, Some (malformed kv))) else
      if negb (forallb validHeaderValueByte v) then Some (b, (m, Some (malformed kv))) else
      if bool_decide (key = []) then header_loop fuel' b m maxMemory maxHeaders else
      let maxHeaders := maxHeaders - 1 in
      if maxHeaders <? 0 then Some (b, (∅, Some errMessageTooLarge)) else
      let value := TrimLeft_blank v in
      let vv := m !! key in
      let maxMemory := if bool_decide (vv = None) then maxMemory - len key - mapEntryOverhead else maxMemory in
      let maxMemory := maxMemory - len value in
      if maxMemory <? 0 then Some (b, (m, Some errMessageTooLarge)) else
      let m := <[key := default [] vv ++ [value]]> m in
      if negb (bool_decide (err = None)) then Some (b, (m, err)) else header_loop fuel' b m maxMemory maxHeaders
  end.

Definition readMIMEHeader (fuel : nat) (b : BufReader) (maxMemory maxHeaders : Z) : M (MIMEHeader * option error) :=
  '(b, hint) ← upcomingHeaderKeys b;
  let maxMemory := maxMemory - 400 in
  '(b, (buf, err)) ← Peek b 1;
  if bool_decide (err = None) && ((at_ buf 0 =? space) || (at_ buf 0 =? htab)) then
    '(b, (line, err)) ← readLineSlice fuel b 80;
    if negb (bool_decide (err = None)) then Some (b, (∅, err))
    else Some (b, (∅, Some (ProtocolError [inl (str "malformed MIME header initial line: " ++ line)])))
  else header_loop fuel b ∅ maxMemory maxHeaders.

Definition ReadMIMEHeader (fuel : nat) (b : BufReader) : M (MIMEHeader * option error) := readMIMEHeader fuel b maxInt64 maxInt64.

End Reader.

Definition crlf (l : list String.string) : gobytes := concat (map (fun s => str s ++ [return_; newline]) l).

Example header_example :
  let b := NewReaderSize (mk_stream [crlf ["My-Key: Value 1"; "Long-Key: Even"; "       Longer Value"]; crlf ["my-key: Value 2"; ""; "body"]]%string EOF true) 16 in
  (fun r => (fst (snd r) !! str "My-Key", fst (snd r) !! str "Long-Key", snd (snd r))) <$> ReadMIMEHeader 200 b =
    Some (Some [str "Value 1"; str "Value 2"], Some [str "Even Longer Value"], None).
Proof. vm_compute. reflexivity. Qed.

(** ** What is read, in terms of the bytes alone *)

(** The bytes before and after the first newline. *)
Fixpoint break_line (C : gobytes) : option (gobytes * gobytes) :=
  match C with
  | [] => None
  | c :: C => if c =? newline then Some ([], C) else '(l, rest) ← break_line C; Some (c :: l, rest)
  end.

Definition next_line (C : gobytes) : option (gobytes * gobytes) := '(l, rest) ← break_line C; Some (strip_cr l, rest).

Definition starts_blank (C : gobytes) : bool := match C with c :: _ => blank c | [] => false end.

(** The continuation lines that follow, each as a space and its text. *)
Fixpoint unfolded (fuel : nat) (acc C : gobytes) : option (gobytes * gobytes) :=
  match fuel with
  | O => None
  | S fuel =>
      if starts_blank C then '(l, C) ← next_line (TrimLeft_blank C); unfolded fuel (acc ++ space :: trim l) C
      else Some (acc, C)
  end.

(** The headers, the error of the first line that is not one, and what follows. *)
Fixpoint parsed (fuel : nat) (m : MIMEHeader) (C : gobytes) : option (MIMEHeader * option error * gobytes) :=
  match fuel with
  | O => None
  | S fuel =>
      '(l, C) ← next_line C;
      if bool_decide (l = []) then Some (m, None, C) else
      match mustHaveFieldNameColon l with
      | Some e => Some (m, Some e, C)
      | None =>
          '(kv, C) ← unfolded (S (length C)) (trim l) C;
          let '(k, v, _) := Cut kv [colon] in
          let '(key, ok) := canonicalMIMEHeaderKey k in
          if negb ok || negb (forallb validHeaderValueByte v) then Some (m, Some (malformed kv), C)
          else parsed fuel (if bool_decide (key = []) then m else <[key := default [] (m !! key) ++ [TrimLeft_blank v]]> m) C
      end
  end.

Lemma break_line_spec C l rest : break_line C = Some (l, rest) <-> C = l ++ newline :: rest /\ newline ∉ l.
Proof.
  revert l. induction C as [|c C IH]; intros l; cbn; [split; [done|]; by intros [?%eq_sym%app_eq_nil _]; naive_solver|].
  destruct (c =? newline) eqn:E; zbool.
  - subst c. split; [intros [= <- <-]; split; [done|apply not_elem_of_nil]|]. intros [E Hn]. destruct l as [|x l]; [by injection E as <-|].
    injection E as <- _. destruct Hn. left.
  - destruct (break_line C) as [[l' r']|] eqn:Eb; cbn [mbind option_bind].
    + split; [intros [= <- <-]|].
      * destruct (proj1 (IH l')) as [-> Hn]; [done|]. split; [done|]. by rewrite not_elem_of_cons.
      * intros [E1 Hn]. destruct l as [|x l]; [by injection E1|]. injection E1 as <- E1. rewrite not_elem_of_cons in Hn.
        by pose proof (proj2 (IH l) (conj E1 (proj2 Hn))) as [= -> ->].
    + split; [done|]. intros [E1 Hn]. destruct l as [|x l]; [by injection E1|]. injection E1 as <- E1. rewrite not_elem_of_cons in Hn.
      by discriminate (proj2 (IH l) (conj E1 (proj2 Hn))).
Qed.

Lemma TrimLeft_blank_split s : exists bl, s = bl ++ TrimLeft_blank s /\ Forall (fun c => blank c = true) bl /\ starts_blank (TrimLeft_blank s) = false.
Proof.
  induction s as [|c s (bl & E & Hb & Hs)]; [by exists []|]. cbn. destruct (blank c) eqn:Ec.
  - exists (c :: bl). split_and!; [by rewrite E at 1|by constructor|done].
  - by exists [].
Qed.

Lemma TrimLeft_blank_len s : len (TrimLeft_blank s) <= len s.
Proof. destruct (TrimLeft_blank_split s) as (bl & E & _). rewrite E at 2. rewrite len_app. pose proof (len_nonneg bl). lia. Qed.

Lemma len_rev {A} (l : list A) : len (rev l) = len l.
Proof. unfold len. by rewrite length_rev. Qed.

Lemma trim_len s : len (trim s) <= len s.
Proof. unfold trim. rewrite len_rev. pose proof (TrimLeft_blank_len (rev (TrimLeft_blank s))). rewrite len_rev in *. pose proof (TrimLeft_blank_len s). lia. Qed.

Lemma strip_cr_len l : len (strip_cr l) <= len l.
Proof. unfold strip_cr, len. case_bool_decide; rewrite ?length_take; lia. Qed.

Lemma next_line_len C l rest : next_line C = Some (l, rest) -> len l + 1 + len rest <= len C.
Proof.
  unfold next_line. destruct (break_line C) as [[l0 r0]|] eqn:E; [|done]. cbn. intros [= <- <-]. apply break_line_spec in E as [-> _].
  rewrite len_app, len_cons. pose proof (strip_cr_len l0). lia.
Qed.

(** A byte that is not blank stays. *)
Lemma TrimLeft_blank_elem c s : blank c = false -> c ∈ s -> c ∈ TrimLeft_blank s.
Proof.
  intros Hb Hin. destruct (TrimLeft_blank_split s) as (bl & E & Hbl & _). rewrite E in Hin. apply elem_of_app in Hin as [Hin|]; [|done].
  rewrite Forall_forall in Hbl. specialize (Hbl c Hin). congruence.
Qed.

Lemma elem_of_rev (c : Z) s : c ∈ rev s <-> c ∈ s.
Proof. rewrite !list_elem_of_In. symmetry. apply in_rev. Qed.

Lemma trim_elem c s : blank c = false -> c ∈ s -> c ∈ trim s.
Proof. intros Hb Hin. unfold trim. apply elem_of_rev, TrimLeft_blank_elem; [done|]. by apply elem_of_rev, TrimLeft_blank_elem. Qed.

(** ** The buffered code reads just that *)

Section Spec.
Context {R : Type} `{ByteStream R}.
Notation BufReader := (BufReader R).

(** One call of the buffered ReadLine, where a newline is to come. *)
Lemma line_end_newline (b : BufReader) line more e C l rest :
  wf b -> line_end b line more e C -> content b = l ++ newline :: rest -> newline ∉ l ->
  e = None /\ ((more = false /\ line = strip_cr l /\ C = rest) \/
    (more = true /\ exists m, l = line ++ m /\ C = m ++ newline :: rest /\ line <> [] /\ strip_cr l = line ++ strip_cr m)).
Proof.
  intros Hw Hend Hc Hn. assert (break_line (content b) = Some (l, rest)) as Hb by by apply break_line_spec.
  destruct Hend as [l0 r0 Hc0 Hn0 _|l0 r0 Hc0 Hn0 Hl Hcr|Hno _ _|Hnil].
  - split; [done|]. left. rewrite (proj2 (break_line_spec _ l0 r0)) in Hb by done. by injection Hb as -> ->.
  - split; [done|]. right. split; [done|]. rewrite Hc0 in Hc.
    assert (exists m, l = l0 ++ m /\ r0 = m ++ newline :: rest) as (m & -> & ->).
    { apply app_eq_inv in Hc as [(k & -> & E)|(k & -> & ->)]; [|by exists k]. destruct k as [|x k].
      - exists []. by rewrite !app_nil_r.
      - injection E as <- ->. rewrite not_elem_of_app, not_elem_of_cons in Hn0. naive_solver. }
    exists m. split_and!; try done.
    + intros ->. pose proof (wf_size _ Hw) as Hz. unfold minReadBufferSize in Hz. rewrite len_nil in Hl. lia.
    + destruct (decide (m = [])) as [->|Hm]; [|by apply strip_cr_app]. rewrite !app_nil_r. apply strip_cr_other. intros Hl0. by specialize (Hcr Hl0).
  - destruct Hno. rewrite Hc. apply elem_of_app. right. left.
  - rewrite Hc in Hnil. by apply app_eq_nil in Hnil as [_ ?].
Qed.

Lemma readLineSlice_loop_spec fuel (b : BufReader) acc lim l rest :
  wf b -> content b = l ++ newline :: rest -> newline ∉ l -> len (content b) < Z.of_nat fuel -> lim < 0 \/ len acc + len l <= lim ->
  exists b', readLineSlice_loop fuel b acc lim = Some (b', (acc ++ strip_cr l, None)) /\ leaves b b' rest.
Proof.
  revert b acc l. induction fuel as [|fuel IH]; intros b acc l Hw Hc Hn Hf Hlim; [pose proof (len_nonneg (content b)); lia|].
  cbn [readLineSlice_loop]. destruct (ReadLine_spec b Hw) as (b1 & line & more & e & C & -> & Hend & Hv). cbn [mbind option_bind].
  destruct (line_end_newline b line more e C l rest Hw Hend Hc Hn) as [-> [(-> & -> & ->)|(-> & m & -> & -> & Hne & Hs)]];
    rewrite bool_decide_true by done; cbn [negb].
  - pose proof (strip_cr_len l). assert ((0 <=? lim) && (lim <? len acc + len (strip_cr l)) = false) as ->.
    { destruct (0 <=? lim) eqn:E; [|done]. zbool. apply Z.ltb_ge. lia. }
    by exists b1.
  - rewrite len_app in Hlim. pose proof (len_nonneg m). assert ((0 <=? lim) && (lim <? len acc + len line) = false) as ->.
    { destruct (0 <=? lim) eqn:E; [|done]. zbool. apply Z.ltb_ge. lia. }
    rewrite not_elem_of_app in Hn. destruct (IH b1 (acc ++ line) m (leaves_wf _ _ _ Hv)) as (b2 & -> & Hv2).
    + by rewrite (leaves_content _ _ _ Hv).
    + tauto.
    + rewrite (leaves_content _ _ _ Hv). rewrite Hc, <- app_assoc, len_app in Hf. destruct line; [done|]. rewrite len_cons in Hf.
      pose proof (len_nonneg line). lia.
    + rewrite len_app. lia.
    + exists b2. rewrite Hs, app_assoc. split; [done|]. by eapply leaves_trans.
Qed.

Lemma readLineSlice_spec fuel (b : BufReader) lim l rest :
  wf b -> next_line (content b) = Some (l, rest) -> len (content b) < Z.of_nat fuel -> lim < 0 \/ len (content b) <= lim ->
  exists b', readLineSlice fuel b lim = Some (b', (l, None)) /\ leaves b b' rest.
Proof.
  intros Hw Hnl Hf Hlim. unfold next_line in Hnl. destruct (break_line (content b)) as [[l0 r0]|] eqn:E; [|done].
  cbn in Hnl. injection Hnl as <- ->. apply break_line_spec in E as [E Hn]. unfold readLineSlice.
  apply (readLineSlice_loop_spec fuel b [] lim l0 rest); try done. rewrite E, len_app, len_cons in Hlim.
  pose proof (len_nonneg rest). change (@len Z []) with 0. lia.
Qed.

(** ** Continuations *)

Lemma skipSpace_spec fuel (b : BufReader) n :
  wf b -> bytes_ok (content b) -> len (content b) < Z.of_nat fuel ->
  exists b', skipSpace fuel b n = Some (b', n + (len (content b) - len (TrimLeft_blank (content b)))) /\ leaves b b' (TrimLeft_blank (content b)).
Proof.
  revert b n. induction fuel as [|fuel IH]; intros b n Hw Hb Hf; [pose proof (len_nonneg (content b)); lia|]. cbn [skipSpace].
  destruct (ReadByte_UnreadByte b Hw Hb) as (b1 & Hv & Hm). destruct (content b) as [|c C] eqn:Ec.
  - rewrite Hm. cbn [mbind option_bind]. rewrite bool_decide_false by done. cbn [negb TrimLeft_blank]. exists b1.
    rewrite Z.sub_diag, Z.add_0_r. done.
  - destruct Hm as (-> & b2 & Hu & Hv2). cbn [mbind option_bind]. rewrite bool_decide_true by done. cbn [negb TrimLeft_blank tail] in *.
    rewrite <- negb_orb. change ((c =? space) || (c =? htab)) with (blank c). destruct (blank c); cbn [negb].
    + destruct (IH b1 (n + 1) (leaves_wf _ _ _ Hv)) as (b3 & -> & Hv3).
      * rewrite (leaves_content _ _ _ Hv). by apply Forall_cons in Hb as [_ ?].
      * rewrite (leaves_content _ _ _ Hv). rewrite len_cons in Hf. lia.
      * rewrite (leaves_content _ _ _ Hv) in Hv3 |- *. rewrite len_cons. exists b3. split; [do 2 f_equal; lia|]. exact (leaves_trans _ _ _ _ _ Hv Hv3).
    + rewrite Hu. exists b2. rewrite Z.sub_diag, Z.add_0_r. done.
Qed.

Lemma starts_blank_skip C : (0 <? len C - len (TrimLeft_blank C)) = starts_blank C.
Proof.
  destruct C as [|c C]; [done|]. cbn [TrimLeft_blank starts_blank]. destruct (blank c); [|by rewrite Z.sub_diag].
  rewrite len_cons. pose proof (TrimLeft_blank_len C). apply Z.ltb_lt. lia.
Qed.

Lemma blanks_bytes C : bytes_ok C -> bytes_ok (TrimLeft_blank C).
Proof. intros Hb. destruct (TrimLeft_blank_split C) as (bl & E & _). rewrite E in Hb. by apply Forall_app in Hb as [_ ?]. Qed.

Lemma next_line_bytes C l rest : bytes_ok C -> next_line C = Some (l, rest) -> bytes_ok rest.
Proof.
  unfold next_line. intros Hb. destruct (break_line C) as [[l0 r0]|] eqn:E; [|done]. cbn. intros [= _ ->]. apply break_line_spec in E as [-> _].
  by apply Forall_app in Hb as [_ [_ ?]%Forall_cons].
Qed.

Lemma continuation_loop_spec fuel k (b : BufReader) acc lim kv C :
  wf b -> bytes_ok (content b) -> len (content b) < Z.of_nat fuel -> len acc + len (content b) < lim ->
  unfolded k acc (content b) = Some (kv, C) ->
  exists b', continuation_loop fuel b acc lim = Some (b', (kv, None)) /\ leaves b b' C.
Proof.
  revert k b acc. induction fuel as [|fuel IH]; intros k b acc Hw Hb Hf Hlim Hu; [pose proof (len_nonneg (content b)); lia|].
  cbn [continuation_loop]. destruct (skipSpace_spec (S fuel) b 0 Hw Hb Hf) as (b1 & -> & Hv). cbn [mbind option_bind].
  rewrite Z.add_0_l, starts_blank_skip. destruct k as [|k]; [done|]. cbn [unfolded] in Hu. destruct (starts_blank (content b)) eqn:Esb.
  2:{ injection Hu as <- <-. exists b1. split; [done|].
      assert (TrimLeft_blank (content b) = content b) as Et; [|by rewrite Et in Hv].
      destruct (content b) as [|c C']; [done|]. cbn in Esb |- *. by rewrite Esb. }
  pose proof (starts_blank_skip (content b)) as Hsk. rewrite Esb in Hsk. zbool.
  destruct (next_line (TrimLeft_blank (content b))) as [[l C1]|] eqn:En; [|done]. cbn [mbind option_bind] in Hu.
  pose proof (next_line_len _ _ _ En) as Hl. pose proof (trim_len l). pose proof (len_nonneg C1). pose proof (len_nonneg l). pose proof (len_nonneg acc).
  rewrite len_app. change (len [space]) with 1. rewrite (proj2 (Z.leb_gt _ _)) by lia.
  destruct (readLineSlice_spec (S fuel) b1 (lim - (len acc + 1)) l C1 (leaves_wf _ _ _ Hv)) as (b2 & -> & Hv2);
    [by rewrite (leaves_content _ _ _ Hv)|rewrite (leaves_content _ _ _ Hv); lia..|].
  cbn [mbind option_bind]. rewrite bool_decide_true by done. cbn [negb].
  destruct (IH k b2 ((acc ++ [space]) ++ trim l) (leaves_wf _ _ _ Hv2)) as (b3 & -> & Hv3).
  - rewrite (leaves_content _ _ _ Hv2). eapply next_line_bytes; [|done]. by apply blanks_bytes.
  - rewrite (leaves_content _ _ _ Hv2). lia.
  - rewrite (leaves_content _ _ _ Hv2), !len_app. change (len [space]) with 1. lia.
  - by rewrite (leaves_content _ _ _ Hv2), <- app_assoc.
  - exists b3. split; [done|]. exact (leaves_trans _ _ _ _ _ (leaves_trans _ _ _ _ _ Hv Hv2) Hv3).
Qed.

(** The bytes seen ahead decide as the full test would. *)
Lemma no_continuation_blank C : no_continuation (take 2 C) = true -> starts_blank C = false.
Proof.
  destruct C as [|c C]; [done|]. cbn [starts_blank]. intros Hq. destruct (blank c) eqn:E; [|done]. unfold blank in E.
  assert (c = 32 \/ c = 9) as Hc by (apply orb_true_iff in E as [?|?]; zbool; tauto).
  exfalso. revert Hq. by destruct Hc as [-> | ->]; destruct C as [|c2 C].
Qed.

Lemma next_is_quick_spec (b : BufReader) :
  wf b -> exists b' q, next_is_quick b = Some (b', q) /\ leaves b b' (content b) /\ (q = true -> starts_blank (content b) = false).
Proof.
  intros Hw. unfold next_is_quick. destruct (1 <? Buffered b); [|by exists b, false; split_and!; [|apply leaves_refl|]].
  destruct (Peek_spec b 2 Hw ltac:(lia)) as (b' & -> & Hv). cbn [mbind option_bind]. eexists _, _. split; [done|]. split; [done|].
  pose proof (wf_size _ Hw) as Hz. unfold minReadBufferSize in Hz. rewrite Z.min_l by lia. apply no_continuation_blank.
Qed.

Lemma readContinuedLineSlice_spec fuel (b : BufReader) lim validate l C :
  wf b -> bytes_ok (content b) -> len (content b) < Z.of_nat fuel -> 2 * len (content b) < lim -> next_line (content b) = Some (l, C) ->
  exists b', 
    match validate l with
    | Some e => if bool_decide (l = []) then readContinuedLineSlice fuel b lim validate = Some (b', ([], None)) /\ leaves b b' C
                else readContinuedLineSlice fuel b lim validate = Some (b', ([], Some e)) /\ leaves b b' C
    | None => if bool_decide (l = []) then readContinuedLineSlice fuel b lim validate = Some (b', ([], None)) /\ leaves b b' C
              else forall k kv C', unfolded k (trim l) C = Some (kv, C') ->
                exists b'', readContinuedLineSlice fuel b lim validate = Some (b'', (kv, None)) /\ leaves b b'' C'
    end.
Proof.
  intros Hw Hb Hf Hlim Hn. unfold readContinuedLineSlice. pose proof (next_line_len _ _ _ Hn) as Hl. pose proof (len_nonneg C). pose proof (len_nonneg l).
  destruct (readLineSlice_spec fuel b lim l C Hw Hn Hf) as (b1 & -> & Hv); [lia|]. cbn [mbind option_bind].
  rewrite (bool_decide_true (@None error = None)) by done. cbn [negb]. destruct (len l =? 0) eqn:E0; zbool.
  { assert (l = []) as -> by (apply nil_length_inv; unfold len in E0; lia). exists b1. by destruct (validate []). }
  assert (bool_decide (l = []) = false) as -> by (apply bool_decide_eq_false_2; by intros ->).
  destruct (validate l) as [e|]; [by exists b1|]. exists b1. intros k kv C' Hu. destruct k as [|k]; [done|].
  destruct (next_is_quick_spec b1 (leaves_wf _ _ _ Hv)) as (b2 & q & -> & Hv2 & Hq). cbn [mbind option_bind].
  rewrite (leaves_content _ _ _ Hv) in Hv2, Hq. destruct q.
  { cbn [unfolded] in Hu. rewrite Hq in Hu by done. injection Hu as <- <-. exists b2. split; [done|]. exact (leaves_trans _ _ _ _ _ Hv Hv2). }
  pose proof (trim_len l). rewrite (proj2 (Z.ltb_ge _ _)) by lia.
  destruct (continuation_loop_spec fuel (S k) b2 (trim l) (lim - len (trim l)) kv C' (leaves_wf _ _ _ Hv2)) as (b3 & -> & Hv3).
  - rewrite (leaves_content _ _ _ Hv2). by eapply next_line_bytes.
  - rewrite (leaves_content _ _ _ Hv2). lia.
  - rewrite (leaves_content _ _ _ Hv2). lia.
  - by rewrite (leaves_content _ _ _ Hv2).
  - exists b3. split; [done|]. exact (leaves_trans _ _ _ _ _ (leaves_trans _ _ _ _ _ Hv Hv2) Hv3).
Qed.

(** ** Headers *)

Lemma unfolded_shape k acc C kv C' :
  unfolded k acc C = Some (kv, C') -> (exists t, kv = acc ++ t) /\ len kv + len C' <= len acc + len C /\ (bytes_ok C -> bytes_ok C').
Proof.
  revert acc C. induction k as [|k IH]; intros acc C; [done|]. cbn [unfolded]. destruct (starts_blank C) eqn:Es.
  2:{ intros [= <- <-]. split_and!; [exists []; by rewrite app_nil_r|lia|done]. }
  destruct (next_line (TrimLeft_blank C)) as [[l C1]|] eqn:En; [|done]. cbn [mbind option_bind]. intros ((t & ->) & Hl & Hb)%IH.
  pose proof (starts_blank_skip C) as Hsk. rewrite Es in Hsk. zbool. pose proof (next_line_len _ _ _ En). pose proof (trim_len l). split_and!.
  - exists (space :: trim l ++ t). by rewrite <- app_assoc.
  - rewrite !len_app, !len_cons in *. lia.
  - intros HC. apply Hb. eapply next_line_bytes; [|done]. by apply blanks_bytes.
Qed.

Lemma canon_loop_len a upper : len (canon_loop a upper) = len a.
Proof. revert upper. induction a as [|c a IH]; intros upper; [done|]. cbn [canon_loop]. rewrite !len_cons. by rewrite IH. Qed.

Lemma canonical_len a : len (fst (canonicalMIMEHeaderKey a)) = len a.
Proof. unfold canonicalMIMEHeaderKey. destruct (key_check a false) as [[|]|]; cbn; [done|apply canon_loop_len|done]. Qed.

(** A line that passes the first test has a colon, and keeps it. *)
Lemma colon_kept l k C kv C' :
  mustHaveFieldNameColon l = None -> unfolded k (trim l) C = Some (kv, C') -> exists a v, kv = a ++ colon :: v /\ Cut kv [colon] = (a, v, true).
Proof.
  unfold mustHaveFieldNameColon. intros Hm ((t & ->) & _)%unfolded_shape.
  destruct (IndexByteString_spec l colon) as [[_ E]|(l1 & l2 & E & _)]; [by rewrite E in Hm|].
  assert (colon ∈ trim l ++ t) as Hin.
  { apply elem_of_app. left. apply trim_elem; [done|]. rewrite E. apply elem_of_app. right. left. }
  destruct (Cut_byte colon (trim l ++ t)) as [[Hn _]|(a & v & E2 & _ & E3)]; [done|]. by exists a, v.
Qed.

(** Memory enough for all the headers that [C] can hold. *)
Definition room (C : gobytes) (maxMemory maxHeaders : Z) : Prop := 202 * (1 + len C) < maxMemory /\ len C < maxHeaders.

Lemma header_loop_spec fuel k (b : BufReader) m maxMemory maxHeaders m' e C :
  wf b -> bytes_ok (content b) -> len (content b) < Z.of_nat fuel -> room (content b) maxMemory maxHeaders ->
  parsed k m (content b) = Some (m', e, C) ->
  exists b', header_loop fuel b m maxMemory maxHeaders = Some (b', (m', e)) /\ leaves b b' C.
Proof.
  revert k b m maxMemory maxHeaders. induction fuel as [|fuel IH]; intros k b m maxMemory maxHeaders Hw Hb Hf [Hmm Hmh] Hp; [pose proof (len_nonneg (content b)); lia|].
  cbn [header_loop]. destruct k as [|k]; [done|]. cbn [parsed] in Hp. destruct (next_line (content b)) as [[l C1]|] eqn:En; [|done]. cbn [mbind option_bind] in Hp.
  pose proof (next_line_len _ _ _ En) as Hnl. pose proof (len_nonneg C1). pose proof (len_nonneg l).
  destruct (readContinuedLineSlice_spec (S fuel) b maxMemory mustHaveFieldNameColon l C1 Hw Hb Hf ltac:(lia) En) as (b1 & HR).
  case_bool_decide as El.
  { subst l. injection Hp as <- <- <-. destruct (mustHaveFieldNameColon []); destruct HR as [-> Hv]; by exists b1. }
  destruct (mustHaveFieldNameColon l) as [e1|] eqn:Em.
  { injection Hp as <- <- <-. destruct HR as [-> Hv]. by exists b1. }
  destruct (unfolded (S (length C1)) (trim l) C1) as [[kv C2]|] eqn:Eu; [|done]. cbn [mbind option_bind] in Hp.
  destruct (HR _ _ _ Eu) as (b2 & -> & Hv). cbn [mbind option_bind]. clear HR.
  destruct (colon_kept l _ C1 kv C2 Em Eu) as (a & v & Hkv & Hcut). rewrite Hcut in Hp |- *.
  destruct (unfolded_shape _ _ _ _ _ Eu) as (_ & Hlen & Hbk). pose proof (trim_len l). pose proof (len_nonneg C2).
  assert (len kv = len a + 1 + len v) as Hkl by (rewrite Hkv, len_app, len_cons; lia). pose proof (len_nonneg a). pose proof (len_nonneg v).
  rewrite (proj2 (Z.eqb_neq _ _)) by lia. cbn [negb]. pose proof (canonical_len a) as Hck. destruct (canonicalMIMEHeaderKey a) as [key ok] eqn:Ek. cbn in Hck.
  pose proof (TrimLeft_blank_len v). assert (bytes_ok C2) as Hb2 by (apply Hbk; by eapply next_line_bytes).
  destruct ok; cbn [negb orb] in *; [|injection Hp as <- <- <-; by exists b2].
  destruct (forallb validHeaderValueByte v); cbn [negb] in *; [|injection Hp as <- <- <-; by exists b2].
  assert (forall m1 mm mh, room C2 mm mh -> parsed k m1 C2 = Some (m', e, C) ->
    exists b', header_loop fuel b2 m1 mm mh = Some (b', (m', e)) /\ leaves b b' C) as Hnext.
  { intros m1 mm mh Hroom Hp1. destruct (IH k b2 m1 mm mh (leaves_wf _ _ _ Hv)) as (b3 & -> & Hv3);
      rewrite ?(leaves_content _ _ _ Hv); try done; [lia|]. exists b3. split; [done|]. exact (leaves_trans _ _ _ _ _ Hv Hv3). }
  case_bool_decide as Ekey; [apply Hnext; [split; lia|done]|].
  rewrite (proj2 (Z.ltb_ge (maxHeaders - 1) 0)) by lia. unfold mapEntryOverhead.
  set (mm := if bool_decide (m !! key = None) then _ else _). assert (maxMemory - len key - 200 <= mm) by (unfold mm; case_bool_decide; lia).
  rewrite (proj2 (Z.ltb_ge _ _)) by lia. rewrite (bool_decide_true (@None error = None)) by done. cbn [negb]. apply Hnext; [split; lia|done].
Qed.

Lemma upcomingHeaderKeys_spec (b : BufReader) : wf b -> exists b' n, upcomingHeaderKeys b = Some (b', n) /\ leaves b b' (content b).
Proof.
  intros Hw. unfold upcomingHeaderKeys. destruct (Peek_spec b 1 Hw ltac:(lia)) as (b1 & -> & Hv). cbn [mbind option_bind].
  destruct (Buffered b1 =? 0); [by exists b1, 0|]. pose proof (wf_pos _ (leaves_wf _ _ _ Hv)).
  destruct (Peek_spec b1 (Buffered b1) (leaves_wf _ _ _ Hv)) as (b2 & -> & Hv2); [unfold Buffered; lia|]. cbn [mbind option_bind].
  rewrite (leaves_content _ _ _ Hv) in Hv2. eexists _, _. split; [done|]. exact (leaves_trans _ _ _ _ _ Hv Hv2).
Qed.

Lemma readMIMEHeader_spec fuel k (b : BufReader) maxMemory maxHeaders m e C :
  wf b -> bytes_ok (content b) -> len (content b) < Z.of_nat fuel -> room (content b) (maxMemory - 400) maxHeaders ->
  starts_blank (content b) = false -> parsed k ∅ (content b) = Some (m, e, C) ->
  exists b', readMIMEHeader fuel b maxMemory maxHeaders = Some (b', (m, e)) /\ leaves b b' C.
Proof.
  intros Hw Hb Hf Hr Hs Hp. unfold readMIMEHeader. destruct (upcomingHeaderKeys_spec b Hw) as (b2 & n & -> & Hv2).
  cbn [mbind option_bind]. destruct (Peek_spec b2 1 (leaves_wf _ _ _ Hv2) ltac:(lia)) as (b3 & -> & Hv3). cbn [mbind option_bind].
  rewrite (leaves_content _ _ _ Hv2) in *. pose proof (leaves_trans _ _ _ _ _ Hv2 Hv3) as Hv4. pose proof (wf_size _ Hw) as Hz. unfold minReadBufferSize in Hz.
  rewrite (leaves_size _ _ _ Hv2), Z.min_l, (proj2 (Z.ltb_ge _ _)) by lia.
  match goal with |- context [if ?c then _ else header_loop _ _ _ _ _] => assert (c = false) as -> end.
  { destruct (content b) as [|c C0]; [by rewrite andb_false_l|]. change (blank c = false) in Hs. unfold blank in Hs.
    change (at_ (take (Z.to_nat 1) (c :: C0)) 0) with c. by rewrite Hs, andb_false_r. }
  destruct (header_loop_spec fuel k b3 ∅ (maxMemory - 400) maxHeaders m e C (leaves_wf _ _ _ Hv4)) as (b4 & -> & Hv5);
    rewrite ?(leaves_content _ _ _ Hv4); try done.
  exists b4. split; [done|]. exact (leaves_trans _ _ _ _ _ Hv4 Hv5).
Qed.

(** ** Any input at all

    Whatever the bytes and the limits: each function returns, has consumed a front of the
    stream, and reports success with an empty result only at an empty line. *)

Definition empty_line (d : gobytes) : Prop := d = [newline] \/ d = [return_; newline].

Lemma strip_cr_nil l : strip_cr l = [] -> empty_line (l ++ [newline]).
Proof.
  unfold strip_cr, empty_line. case_bool_decide as E; [|intros ->; by left]. apply last_Some in E as [l' ->].
  rewrite length_app. cbn. rewrite Nat.add_sub, take_app_length. intros ->. by right.
Qed.

Lemma readLineSlice_loop_total fuel (b : BufReader) acc lim :
  wf b -> len (content b) < Z.of_nat fuel ->
  exists b' l e d C, readLineSlice_loop fuel b acc lim = Some (b', (l, e)) /\ leaves b b' C /\ content b = d ++ C /\
    (e <> None -> l = []) /\ (e = None -> d <> []) /\ (e = None -> l = [] -> acc = [] /\ empty_line d).
Proof.
  revert b acc. induction fuel as [|fuel IH]; intros b acc Hw Hf; [pose proof (len_nonneg (content b)); lia|]. cbn [readLineSlice_loop].
  destruct (ReadLine_spec b Hw) as (b1 & line & more & e & C & -> & Hend & Hv). cbn [mbind option_bind].
  assert (exists d, content b = d ++ C) as [d Hd].
  { destruct Hend as [l rest E _ _|l rest E _ _ _|_ _ _|E].
    - exists (l ++ [newline]). by rewrite E, <- app_assoc.
    - by exists l.
    - exists (content b). by rewrite app_nil_r.
    - by exists []. }
  case_bool_decide as He; cbn [negb].
  2:{ by exists b1, [], e, d, C. }
  subst e. destruct ((0 <=? lim) && (lim <? len acc + len line)).
  { exists b1, [], (Some errMessageTooLarge), d, C. by split_and!. }
  inversion Hend as [l rest E Hn Hl E1 E2 E3|l rest E Hn Hl Hcr E1 E2 E3|Hn Hne Hl E1 E2 E3|]; subst; cbn [negb].
  - exists b1, (acc ++ strip_cr l), None, (l ++ [newline]), C. split_and!; try done.
    + by rewrite E, <- app_assoc.
    + by destruct l.
    + intros _ [-> Hs]%app_eq_nil. split; [done|by apply strip_cr_nil].
  - assert (line <> []) as Hne.
    { intros ->. pose proof (wf_size _ Hw) as Hz. unfold minReadBufferSize in Hz. change (@len Z []) with 0 in Hl. lia. }
    destruct (IH b1 (acc ++ line) (leaves_wf _ _ _ Hv)) as (b2 & l & e & d2 & C2 & -> & Hv2 & Hc2 & H1 & H2 & H3).
    { rewrite (leaves_content _ _ _ Hv). rewrite E, len_app in Hf. destruct line; [done|]. rewrite len_cons in Hf. pose proof (len_nonneg line). lia. }
    rewrite (leaves_content _ _ _ Hv) in Hc2. exists b2, l, e, (line ++ d2), C2. split_and!; try done.
    + exact (leaves_trans _ _ _ _ _ Hv Hv2).
    + by rewrite E, Hc2, app_assoc.
    + by destruct line.
    + intros He Hl0. destruct (H3 He Hl0) as [[_ ?]%app_eq_nil _]. done.
  - exists b1, (acc ++ content b), None, (content b), []. split_and!; try done.
    + by rewrite app_nil_r.
    + by intros _ [_ ?]%app_eq_nil.
Qed.

Lemma continuation_loop_total fuel (b : BufReader) acc lim :
  wf b -> bytes_ok (content b) -> len (content b) < Z.of_nat fuel ->
  exists b' kv e d C, continuation_loop fuel b acc lim = Some (b', (kv, e)) /\ leaves b b' C /\ content b = d ++ C /\
    (e <> None -> kv = []) /\ (e = None -> kv = [] -> acc = []).
Proof.
  revert b acc. induction fuel as [|fuel IH]; intros b acc Hw Hb Hf; [pose proof (len_nonneg (content b)); lia|]. cbn [continuation_loop].
  destruct (skipSpace_spec (S fuel) b 0 Hw Hb Hf) as (b1 & -> & Hv). cbn [mbind option_bind]. rewrite Z.add_0_l, starts_blank_skip.
  destruct (TrimLeft_blank_split (content b)) as (bl & Hbl & _). pose proof (starts_blank_skip (content b)) as Hsk.
  destruct (starts_blank (content b)).
  2:{ exists b1, acc, None, bl, (TrimLeft_blank (content b)). by split_and!. }
  zbool. destruct (lim <=? len (acc ++ [space])).
  { exists b1, [], (Some errMessageTooLarge), bl, (TrimLeft_blank (content b)). by split_and!. }
  pose proof (blanks_bytes _ Hb) as Hb1. rewrite <- (leaves_content _ _ _ Hv) in Hb1.
  destruct (readLineSlice_loop_total (S fuel) b1 [] (lim - len (acc ++ [space])) (leaves_wf _ _ _ Hv)) as (b2 & l & e & d2 & C2 & HR & Hv2 & Hc2 & H1 & H2 & H3).
  { rewrite (leaves_content _ _ _ Hv). lia. }
  unfold readLineSlice. rewrite HR. cbn [mbind option_bind]. rewrite (leaves_content _ _ _ Hv) in Hc2.
  assert (content b = (bl ++ d2) ++ C2) as Hc by (by rewrite <- app_assoc, <- Hc2). case_bool_decide as He; cbn [negb].
  2:{ exists b2, (acc ++ [space]), None, (bl ++ d2), C2. split_and!; try done; [exact (leaves_trans _ _ _ _ _ Hv Hv2)|by destruct acc]. }
  assert (len (content b) = len (bl ++ d2) + len C2) as Hlc by (by rewrite Hc, len_app).
  destruct (IH b2 ((acc ++ [space]) ++ trim l) (leaves_wf _ _ _ Hv2)) as (b3 & kv & e3 & d3 & C3 & -> & Hv3 & Hc3 & H4 & H5).
  - rewrite (leaves_content _ _ _ Hv2). rewrite Hc in Hb. by apply Forall_app in Hb as [_ ?].
  - rewrite (leaves_content _ _ _ Hv2). rewrite len_app in Hlc. specialize (H2 He). destruct d2 as [|x d2]; [done|]. rewrite len_cons in Hlc.
    pose proof (len_nonneg bl). pose proof (len_nonneg d2). lia.
  - rewrite (leaves_content _ _ _ Hv2) in Hc3. exists b3, kv, e3, ((bl ++ d2) ++ d3), C3. split_and!; try done.
    + exact (leaves_trans _ _ _ _ _ (leaves_trans _ _ _ _ _ Hv Hv2) Hv3).
    + rewrite Hc, Hc3. by rewrite <- !app_assoc.
    + intros He3 Hkv. destruct (app_eq_nil _ _ (H5 He3 Hkv)) as [[_ ?]%app_eq_nil _]. done.
Qed.

Lemma trim_colon l : mustHaveFieldNameColon l = None -> trim l <> [].
Proof.
  unfold mustHaveFieldNameColon. destruct (IndexByteString_spec l colon) as [[_ ->]|(l1 & l2 & -> & _)]; [done|]. intros _ E.
  assert (colon ∈ trim (l1 ++ colon :: l2)) as Hin by (apply trim_elem; [done|]; apply elem_of_app; right; left). rewrite E in Hin. by apply elem_of_nil in Hin.
Qed.

Lemma readContinuedLineSlice_total fuel (b : BufReader) lim :
  wf b -> bytes_ok (content b) -> len (content b) < Z.of_nat fuel ->
  exists b' kv e d C, readContinuedLineSlice fuel b lim mustHaveFieldNameColon = Some (b', (kv, e)) /\ leaves b b' C /\ content b = d ++ C /\
    (e <> None -> kv = []) /\ (e = None -> d <> [] /\ (kv = [] -> empty_line d)).
Proof.
  intros Hw Hb Hf. unfold readContinuedLineSlice, readLineSlice.
  destruct (readLineSlice_loop_total fuel b [] lim Hw Hf) as (b1 & l & e & d & C & -> & Hv & Hc & H1 & H2 & H3). cbn [mbind option_bind].
  case_bool_decide as He; cbn [negb]; [subst e|by exists b1, [], e, d, C]. destruct (len l =? 0) eqn:El; zbool.
  { assert (l = []) as -> by (apply nil_length_inv; unfold len in El; lia). exists b1, [], None, d, C. split_and!; try done.
    intros _. split; [by apply H2|]. intros _. by apply H3. }
  destruct (mustHaveFieldNameColon l) as [e|] eqn:Em; [by exists b1, [], (Some e), d, C|]. pose proof (trim_colon l Em) as Ht.
  destruct (next_is_quick_spec b1 (leaves_wf _ _ _ Hv)) as (b2 & q & -> & Hv2 & _). cbn [mbind option_bind]. rewrite (leaves_content _ _ _ Hv) in Hv2.
  pose proof (leaves_trans _ _ _ _ _ Hv Hv2) as Hv3. destruct q; [by exists b2, (trim l), None, d, C; split_and!; [..|naive_solver]|].
  set (lim' := (if lim <? 0 then maxInt64 else lim) - len (trim l)).
  assert (len (content b) = len d + len C) as Hlc by (by rewrite Hc, len_app). pose proof (len_nonneg d).
  destruct (continuation_loop_total fuel b2 (trim l) lim' (leaves_wf _ _ _ Hv2)) as (b3 & kv & e & d2 & C2 & -> & Hv4 & Hc2 & Hx & Hy).
  - rewrite (leaves_content _ _ _ Hv2). rewrite Hc in Hb. by apply Forall_app in Hb as [_ ?].
  - rewrite (leaves_content _ _ _ Hv2). lia.
  - rewrite (leaves_content _ _ _ Hv2) in Hc2. exists b3, kv, e, (d ++ d2), C2. split_and!; try done.
    + exact (leaves_trans _ _ _ _ _ Hv3 Hv4).
    + by rewrite Hc, Hc2, app_assoc.
    + intros ->. split; [|by intros ->; destruct Ht; apply Hy]. intros [? _]%app_eq_nil. by apply H2.
Qed.

Lemma header_loop_total fuel (b : BufReader) m maxMemory maxHeaders :
  wf b -> bytes_ok (content b) -> len (content b) < Z.of_nat fuel ->
  exists b' m' e d C, header_loop fuel b m maxMemory maxHeaders = Some (b', (m', e)) /\ leaves b b' C /\ content b = d ++ C /\
    (e = None -> exists p q, d = p ++ q /\ empty_line q).
Proof.
  revert b m maxMemory maxHeaders. induction fuel as [|fuel IH]; intros b m maxMemory maxHeaders Hw Hb Hf; [pose proof (len_nonneg (content b)); lia|].
  cbn [header_loop]. destruct (readContinuedLineSlice_total (S fuel) b maxMemory Hw Hb Hf) as (b1 & kv & e & d & C & -> & Hv & Hc & H1 & H2). cbn [mbind option_bind].
  destruct (len kv =? 0) eqn:Ekv; zbool.
  { exists b1, m, e, d, C. split_and!; try done. intros He. exists [], d. split; [done|]. apply H2; [done|]. apply nil_length_inv. unfold len in Ekv. lia. }
  assert (e = None) as -> by (destruct e; [|done]; rewrite H1 in Ekv by done; done). destruct (H2 eq_refl) as [Hd _].
  assert (len (content b) = len d + len C) as Hlc by (by rewrite Hc, len_app).
  assert (forall m1 mm mh, exists b' m' e d C, header_loop fuel b1 m1 mm mh = Some (b', (m', e)) /\ leaves b b' C /\ content b = d ++ C /\
    (e = None -> exists p q, d = p ++ q /\ empty_line q)) as Hnext.
  { intros m1 mm mh. destruct (IH b1 m1 mm mh (leaves_wf _ _ _ Hv)) as (b2 & m2 & e & d2 & C2 & -> & Hv2 & Hc2 & He).
    - rewrite (leaves_content _ _ _ Hv). rewrite Hc in Hb. by apply Forall_app in Hb as [_ ?].
    - rewrite (leaves_content _ _ _ Hv). destruct d as [|x d]; [done|]. rewrite len_cons in Hlc. pose proof (len_nonneg d). lia.
    - rewrite (leaves_content _ _ _ Hv) in Hc2. exists b2, m2, e, (d ++ d2), C2. split_and!; try done.
      + exact (leaves_trans _ _ _ _ _ Hv Hv2).
      + by rewrite Hc, Hc2, app_assoc.
      + intros (p & q & -> & Hq)%He. exists (d ++ p), q. by rewrite app_assoc. }
  destruct (Cut kv [colon]) as [[k v] ok]. destruct (canonicalMIMEHeaderKey k) as [key ok2].
  destruct (negb ok); [by eexists b1, _, _, d, C; split_and!|]. destruct (negb ok2); [by eexists b1, _, _, d, C; split_and!|].
  destruct (negb _); [by eexists b1, _, _, d, C; split_and!|]. case_bool_decide; [apply Hnext|].
  destruct (maxHeaders - 1 <? 0); [by eexists b1, _, _, d, C; split_and!|]. set (mm := _ - len (TrimLeft_blank v)).
  destruct (mm <? 0); [by eexists b1, _, _, d, C; split_and!|]. apply Hnext.
Qed.

Lemma readMIMEHeader_total fuel (b : BufReader) maxMemory maxHeaders :
  wf b -> bytes_ok (content b) -> len (content b) < Z.of_nat fuel ->
  exists b' m e d C, readMIMEHeader fuel b maxMemory maxHeaders = Some (b', (m, e)) /\ leaves b b' C /\ content b = d ++ C /\
    (e = None -> exists p q, d = p ++ q /\ empty_line q).
Proof.
  intros Hw Hb Hf. unfold readMIMEHeader. destruct (upcomingHeaderKeys_spec b Hw) as (b1 & n & -> & Hv). cbn [mbind option_bind].
  destruct (Peek_spec b1 1 (leaves_wf _ _ _ Hv) ltac:(lia)) as (b2 & -> & Hv2). cbn [mbind option_bind].
  rewrite (leaves_content _ _ _ Hv) in Hv2 |- *. pose proof (leaves_trans _ _ _ _ _ Hv Hv2) as Hv3. clear Hv Hv2.
  set (first := bool_decide _ && _). destruct first.
  - unfold readLineSlice. destruct (readLineSlice_loop_total fuel b2 [] 80 (leaves_wf _ _ _ Hv3)) as (b3 & l & e & d & C & -> & Hv4 & Hc & _).
    { by rewrite (leaves_content _ _ _ Hv3). }
    cbn [mbind option_bind]. rewrite (leaves_content _ _ _ Hv3) in Hc. pose proof (leaves_trans _ _ _ _ _ Hv3 Hv4).
    case_bool_decide as He; cbn [negb]; eexists b3, _, _, d, C; split_and!; done.
  - destruct (header_loop_total fuel b2 ∅ (maxMemory - 400) maxHeaders (leaves_wf _ _ _ Hv3)) as (b3 & m & e & d & C & -> & Hv4 & Hc & He);
      rewrite ?(leaves_content _ _ _ Hv3); try done. rewrite (leaves_content _ _ _ Hv3) in Hc.
    exists b3, m, e, d, C. split_and!; try done. exact (leaves_trans _ _ _ _ _ Hv3 Hv4).
Qed.

End Spec.

(** ** Headers as text *)

Definition header_line (kv : gostring * gostring) : gobytes := fst kv ++ str ": " ++ snd kv ++ [return_; newline].
Definition header_text (kvs : list (gostring * gostring)) : gobytes := concat (map header_line kvs) ++ [return_; newline].

(** A key that is a token, and a value with no control byte and no blank at its ends. *)
Definition header_ok (kv : gostring * gostring) : Prop :=
  fst kv <> [] /\ bytes_ok (fst kv) /\ token (fst kv) /\ bytes_ok (snd kv) /\ forallb validHeaderValueByte (snd kv) = true /\
  starts_blank (snd kv) = false /\ starts_blank (rev (snd kv)) = false.

Lemma key_bytes k : bytes_ok k -> token k -> Forall (fun c => c <> newline /\ c <> return_ /\ c <> colon /\ blank c = false) k.
Proof.
  intros Hb Ht. eapply Forall_impl; [exact (proj2 (Forall_and _ _) (conj Hb Ht))|]. intros c [Hc Hv].
  split_and!; try (intros ->; done). unfold blank. destruct (Z.eqb_spec c space) as [-> |]; [done|]. by destruct (Z.eqb_spec c htab) as [-> |].
Qed.

Lemma value_bytes v : forallb validHeaderValueByte v = true -> newline ∉ v /\ return_ ∉ v.
Proof. rewrite forallb_forall. intros Hv. split; intros Hin%list_elem_of_In%Hv; done. Qed.

Lemma TrimLeft_blank_id s : starts_blank s = false -> TrimLeft_blank s = s.
Proof. destruct s as [|c s]; [done|]. cbn. by intros ->. Qed.

Lemma trim_header k v : bytes_ok k -> token k -> k <> [] -> starts_blank (rev v) = false ->
  trim (k ++ str ": " ++ v) = k ++ [colon] ++ (if bool_decide (v = []) then [] else space :: v).
Proof.
  intros Hb Ht Hne Hr. unfold trim.
  assert (starts_blank (k ++ str ": " ++ v) = false) as Hs.
  { destruct k as [|c k]; [done|]. pose proof (key_bytes _ Hb Ht) as [[_ [_ [_ Hc]]] _]%Forall_cons. done. }
  rewrite (TrimLeft_blank_id _ Hs), !rev_app_distr, <- !app_assoc. case_bool_decide as Hv.
  - subst v. change (rev (str ": ")) with [space; colon]. cbn. by rewrite rev_involutive.
  - rewrite TrimLeft_blank_id.
    + rewrite !rev_app_distr, !rev_involutive, <- !app_assoc. done.
    + destruct (rev v) eqn:Erv; [|done]. destruct Hv. by rewrite <- (rev_involutive v), Erv.
Qed.

Lemma break_line_app l rest : newline ∉ l -> break_line (l ++ newline :: rest) = Some (l, rest).
Proof. intros Hn. by apply break_line_spec. Qed.

Lemma Cut_first (c : Z) k w : c ∉ k -> Cut (k ++ c :: w) [c] = (k, w, true).
Proof.
  intros Hck. destruct (Cut_byte c (k ++ c :: w)) as [[Hno _]|(a & b & E & Ha & ->)].
  - destruct Hno. apply elem_of_app. right. left.
  - apply app_eq_inv in E as [(t & -> & E)|(t & -> & E)].
    + destruct t as [|x t]; [rewrite app_nil_r; by injection E as <-|]. injection E as <- _. destruct Hck. apply elem_of_app. right. left.
    + destruct t as [|x t]; [rewrite app_nil_r; by injection E as ->|]. injection E as <- _. destruct Ha. apply elem_of_app. right. left.
Qed.

(** One header line of the text. *)
Lemma parsed_header k m kv C :
  header_ok kv -> starts_blank C = false -> parsed (S k) m (header_line kv ++ C) = parsed k (MIME_Add m (fst kv) (snd kv)) C.
Proof.
  destruct kv as [key v]. intros (Hne & Hb & Ht & Hvb & Hv & Hs & Hr) HC. cbn [fst snd] in *. pose proof (key_bytes _ Hb Ht) as Hkb.
  destruct (value_bytes v Hv) as [Hn1 Hn2].
  assert (newline ∉ key ++ str ": " ++ v) as Hn.
  { rewrite !not_elem_of_app. split_and!; [|by apply (bool_decide_unpack _)|done]. intros Hin. rewrite Forall_forall in Hkb. by destruct (Hkb _ Hin). }
  assert (next_line (header_line (key, v) ++ C) = Some (key ++ str ": " ++ v, C)) as HN.
  { unfold next_line, header_line. cbn [fst snd].
    replace ((key ++ str ": " ++ v ++ [return_; newline]) ++ C) with (((key ++ str ": " ++ v) ++ [return_]) ++ newline :: C) by (by rewrite <- !app_assoc).
    rewrite break_line_app by (rewrite not_elem_of_app; split; [done|by apply (bool_decide_unpack _)]). cbn [mbind option_bind]. by rewrite strip_cr_snoc. }
  cbn [parsed]. rewrite HN. cbn [mbind option_bind]. rewrite bool_decide_false by (destruct key; done).
  assert (mustHaveFieldNameColon (key ++ str ": " ++ v) = None) as ->.
  { unfold mustHaveFieldNameColon. destruct (IndexByteString_spec (key ++ str ": " ++ v) colon) as [[Hno _]|(l1 & l2 & _ & _ & ->)].
    - destruct Hno. apply elem_of_app. right. apply elem_of_app. left. by apply (bool_decide_unpack _).
    - by rewrite (proj2 (Z.ltb_ge _ _)) by apply len_nonneg. }
  cbn [unfolded]. rewrite HC, trim_header by done. cbn [mbind option_bind].
  assert (exists w, TrimLeft_blank w = v /\ forallb validHeaderValueByte w = true /\
    Cut (key ++ [colon] ++ (if bool_decide (v = []) then [] else space :: v)) [colon] = (key, w, true)) as (w & Hw & Hwv & ->).
  { set (w := if bool_decide (v = []) then [] else space :: v). exists w. split_and!.
    - unfold w. case_bool_decide as E; [by subst|]. cbn. by apply TrimLeft_blank_id.
    - unfold w. by case_bool_decide.
    - assert (colon ∉ key) as Hck by (intros Hin; rewrite Forall_forall in Hkb; by destruct (Hkb _ Hin) as (_ & _ & ? & _)).
      by apply Cut_first. }
  assert (canonicalMIMEHeaderKey key = (CanonicalMIMEHeaderKey key, true)) as ->.
  { unfold canonicalMIMEHeaderKey. rewrite (proj1 (key_check_token key) Ht), canonical_key, decide_True by done. done. }
  rewrite Hwv, Hw. cbn [negb orb]. rewrite bool_decide_false; [done|].
  rewrite canonical_key, decide_True by done. intros E. apply (f_equal len) in E. rewrite canon_loop_len in E. destruct key; [done|].
  rewrite len_cons in E. change (@len Z []) with 0 in E. pose proof (len_nonneg key). lia.
Qed.

Lemma header_text_starts kvs C : Forall header_ok kvs -> starts_blank (header_text kvs ++ C) = false.
Proof.
  intros [|[k v] l (Hne & Hb & Ht & _) _]; [done|]. cbn [fst snd] in *. destruct k as [|c k]; [done|].
  by pose proof (key_bytes _ Hb Ht) as [(_ & _ & _ & ?) _]%Forall_cons.
Qed.

Definition header_map (m : MIMEHeader) (kvs : list (gostring * gostring)) : MIMEHeader := foldl (fun m kv => MIME_Add m (fst kv) (snd kv)) m kvs.

Lemma parsed_text m kvs C : Forall header_ok kvs -> parsed (S (length kvs)) m (header_text kvs ++ C) = Some (header_map m kvs, None, C).
Proof.
  intros Hk. revert m. induction Hk as [|kv kvs Hkv Hk IH]; intros m.
  - done.
  - unfold header_text. cbn [map concat]. rewrite <- !app_assoc. cbn [length]. rewrite parsed_header; [|done|].
    + rewrite app_assoc. apply IH.
    + rewrite app_assoc. by apply header_text_starts.
Qed.

Lemma header_map_values kvs m s :
  Forall header_ok kvs -> bytes_ok s -> token s ->
  MIME_Values (header_map m kvs) s = MIME_Values m s ++ map snd (filter (fun kv => lower (fst kv) = lower s) kvs).
Proof.
  intros Hk Hs Ht. unfold header_map. revert m. induction Hk as [|[k v] kvs (Hne & Hb & Htk & _) Hk IH]; intros m; [by rewrite app_nil_r|].
  cbn [foldl fst snd] in *. rewrite IH, filter_cons. cbn [fst]. unfold MIME_Values at 1, MIME_Add. destruct (decide (lower k = lower s)) as [E|E].
  - apply (canon_same k s Hb Hs Htk Ht) in E. rewrite E, lookup_insert_eq. cbn [default from_option id map snd]. unfold MIME_Values. by rewrite <- app_assoc.
  - rewrite lookup_insert_ne; [done|]. intros Ec. by apply E, (canon_same k s Hb Hs Htk Ht).
Qed.

(** ** Claims *)

(** Headers are read back exactly.  Over any byte stream, however it is cut into
    reads and whatever the size of the buffer, the text of a list of headers followed by
    anything is read without error; what is left is what followed; and the values under a
    key are those of the lines whose key differs from it in case only, in their order. *)
Theorem headers_round_trip {R : Type} `{ByteStream R} (fuel : nat) (b : BufReader R) (kvs : list (gostring * gostring)) (body s : gobytes) :
  wf b -> content b = header_text kvs ++ body -> Forall header_ok kvs -> bytes_ok (content b) ->
  len (content b) < Z.of_nat fuel -> len (content b) < 2 ^ 40 -> bytes_ok s -> token s ->
  exists b' m, ReadMIMEHeader fuel b = Some (b', (m, None)) /\ leaves b b' body /\
    MIME_Values m s = map snd (filter (fun kv => lower (fst kv) = lower s) kvs).
Proof.
  intros Hw Hc Hk Hb Hf Hl Hs Ht. pose proof (len_nonneg (content b)).
  destruct (readMIMEHeader_spec fuel (S (length kvs)) b maxInt64 maxInt64 (header_map ∅ kvs) None body Hw Hb Hf) as (b' & HR & Hv).
  - unfold room, maxInt64. lia.
  - rewrite Hc. by apply header_text_starts.
  - rewrite Hc. by apply parsed_text.
  - exists b', (header_map ∅ kvs). split_and!; [done..|]. by rewrite header_map_values.
Qed.

Definition two_headers : list (gostring * gostring) := [(str "Host", str "a.test"); (str "X-Tag", str "1")].

Lemma headers_round_trip_witness :
  let b := NewReaderSize (mk_stream [header_text two_headers; str "rest"] EOF true) 16 in
  exists b' m, ReadMIMEHeader 100 b = Some (b', (m, None)) /\ leaves b b' (str "rest") /\ MIME_Values m (str "HOST") = [str "a.test"].
Proof.
  intros b. destruct (headers_round_trip 100 b two_headers (str "rest") (str "HOST")) as (b' & m & HR & Hv & HV).
  - apply NewReaderSize_spec. vm_compute. split; [repeat split; lia|done].
  - by vm_compute.
  - repeat constructor; done.
  - by apply (bool_decide_unpack _); vm_compute.
  - by vm_compute.
  - by vm_compute.
  - apply str_bytes_ok.
  - repeat constructor.
  - exists b', m. split_and!; [exact HR|exact Hv|]. rewrite HV. by vm_compute.
Defined.

(** Whatever bytes arrive and whatever the limits, reading headers returns: no panic,
    no endless loop.  It has consumed a front of the stream, and it reports success only
    when the last thing it consumed was an empty line: headers that are cut off are
    always an error. *)
Theorem headers_any_input {R : Type} `{ByteStream R} (fuel : nat) (b : BufReader R) (maxMemory maxHeaders : Z) :
  wf b -> bytes_ok (content b) -> len (content b) < Z.of_nat fuel ->
  exists b' m e d C, readMIMEHeader fuel b maxMemory maxHeaders = Some (b', (m, e)) /\ leaves b b' C /\ content b = d ++ C /\
    (e = None -> exists p q, d = p ++ q /\ empty_line q).
Proof. apply readMIMEHeader_total. Qed.

Lemma headers_any_input_witness :
  let b := NewReaderSize (demo ["Host: a"; "b"]%string) 16 in
  exists b' m e d C, readMIMEHeader 100 b maxInt64 maxInt64 = Some (b', (m, e)) /\ leaves b b' C /\ content b = d ++ C /\
    (e = None -> exists p q, d = p ++ q /\ empty_line q).
Proof.
  intros b. apply (headers_any_input 100 b maxInt64 maxInt64).
  - apply NewReaderSize_spec. vm_compute. split; [repeat split; lia|done].
  - by apply (bool_decide_unpack _); vm_compute.
  - by vm_compute.
Defined.

(** The error of a continuation line that passes the limit is dropped: the header is
    accepted with the value that came before it. *)
Definition long_continuation : gobytes := str "A: x" ++ [return_; newline; space] ++ replicate 700 98 ++ [return_; newline; return_; newline].

Example oversized_continuation_dropped :
  (fun r => (fst (snd r) !! str "A", snd (snd r))) <$>
    readMIMEHeader 1000 (NewReader (mk_stream [long_continuation] EOF true)) 1000 1000 = Some (Some [str "x "], None).
Proof. vm_compute. reflexivity. Qed.
