(* ===== verification/Chunked.v ===== *)
(** * net/http/internal: the chunked transfer encoding

    [tools/go-patched/src/net/http/internal/chunked.go]: the reader that takes a chunked
    body apart, over the buffered reader of [Bufio], and the writer that makes one, over
    any writer.  Request bodies of unknown length arrive and leave in this form. *)

From S2P Require Import Prelude GoIO HostPort Utf8 Strings Url Bufio.
Local Open Scope go_scope.

(** ** Data *)

Record chunkedReader (R : Type) := mk_chunkedReader {
  cr_r : BufReader R;
  cr_n : Z;
  cr_err : option error;
  checkEnd : bool;
  excess : Z;
}.
Arguments mk_chunkedReader {R} _ _ _ _ _.
Arguments cr_r {R} _.
Arguments cr_n {R} _.
Arguments cr_err {R} _.
Arguments checkEnd {R} _.
Arguments excess {R} _.

Definition maxLineLength : Z := 4096.
Definition ErrLineTooLong : error := OtherError (str "header line too long").

Definition NewChunkedReader {R} (r : BufReader R) : chunkedReader R := mk_chunkedReader r 0 None false 0.

(** ** Chunk headers *)

Definition isASCIISpace (b : Z) : bool := (b =? 32) || (b =? 9) || (b =? newline) || (b =? return_).

(** The loop from the end of [b], on the reversed bytes. *)
Fixpoint trim_front (b : gobytes) : gobytes :=
  match b with c :: t => if isASCIISpace c then trim_front t else b | [] => [] end.
Definition trimTrailingWhitespace (b : gobytes) : gobytes := rev (trim_front (rev b)).

Definition removeChunkExtension (p : gobytes) : gobytes := fst (fst (Cut p [59])).

(** The value of a hexadecimal digit. *)
Definition hex_digit (b : Z) : option Z :=
  if (48 <=? b) && (b <=? 57) then Some (b - 48)
  else if (97 <=? b) && (b <=? 102) then Some (b - 97 + 10)
  else if (65 <=? b) && (b <=? 70) then Some (b - 65 + 10)
  else None.

Fixpoint parseHexUint_loop (v : gobytes) (i n : Z) : result Z :=
  match v with
  | [] => Ok n
  | b :: v =>
      match hex_digit b with
      | None => Err (OtherError (str "invalid byte in chunk length"))
      | Some d =>
          if i =? 16 then Err (OtherError (str "http chunk length too large"))
          else parseHexUint_loop v (i + 1) (u64 (n << 4) .| d)
      end
  end.

Definition parseHexUint (v : gobytes) : result Z :=
  if len v =? 0 then Err (OtherError (str "empty hex number for chunk length")) else parseHexUint_loop v 0 0.

Section Reader.
Context {R : Type} `{Reader R}.
Notation chunkedReader := (chunkedReader R).

Definition readChunkLine (b : BufReader R) : option (BufReader R * (gobytes * option error)) :=
  '(b, (p, err)) ← ReadSlice b newline;
  match err with
  | Some err =>
      let err := if bool_decide (err = EOF) then ErrUnexpectedEOF else if bool_decide (err = ErrBufferFull) then ErrLineTooLong else err in
      Some (b, ([], Some err))
  | None => if maxLineLength <=? len p then Some (b, ([], Some ErrLineTooLong)) else Some (b, (p, None))
  end.

(** [excess] is an int64, [n] a uint64. *)
Definition beginChunk (cr : chunkedReader) : option chunkedReader :=
  '(b, (line, err)) ← readChunkLine (cr_r cr);
  if negb (bool_decide (err = None)) then Some (mk_chunkedReader b (cr_n cr) err (checkEnd cr) (excess cr)) else
  let ex := s64 (excess cr + (len line + 2)) in
  match parseHexUint (removeChunkExtension (trimTrailingWhitespace line)) with
  | Err err => Some (mk_chunkedReader b 0 (Some err) (checkEnd cr) ex)
  | Ok n =>
      let ex := Z.max (s64 (ex - s64 (16 + s64 (2 * s64 n)))) 0 in
      let err := if 16 * 1024 <? ex then Some (OtherError (str "chunked encoding contains too much non-data")) else None in
      let err := if n =? 0 then Some EOF else err in
      Some (mk_chunkedReader b n err (checkEnd cr) ex)
  end.

Definition chunkHeaderAvailable (cr : chunkedReader) : option (chunkedReader * bool) :=
  let n := Buffered (cr_r cr) in
  if 0 <? n then
    '(b, (peek, _)) ← Peek (cr_r cr) n;
    Some (mk_chunkedReader b (cr_n cr) (cr_err cr) (checkEnd cr) (excess cr), 0 <=? IndexByteString peek newline)
  else Some (cr, false).

(** The two bytes after a chunk; the answer is whether the loop goes on. *)
Definition chunk_end (cr : chunkedReader) : option (chunkedReader * bool) :=
  '(b, (d, err)) ← ReadFull 300 (cr_r cr) 2;
  let stop err := Some (mk_chunkedReader b (cr_n cr) (Some err) (checkEnd cr) (excess cr), false) in
  match err with
  | None =>
      if bool_decide (d = [return_; newline]) then Some (mk_chunkedReader b (cr_n cr) None false (excess cr), true)
      else stop (OtherError (str "malformed chunked encoding"))
  | Some err => stop (if bool_decide (err = EOF) then ErrUnexpectedEOF else err)
  end.

(** [Read(b)] with [len(b)] bytes to go after [out], the bytes already stored. *)
Fixpoint Read_loop (fuel : nat) (cr : chunkedReader) (out : gobytes) (blen : Z) : option (chunkedReader * (gobytes * option error)) :=
  match fuel with
  | O => None
  | S fuel =>
      if negb (bool_decide (cr_err cr = None)) then Some (cr, (out, cr_err cr)) else
      if checkEnd cr && (0 <? len out) && (Buffered (cr_r cr) <? 2) then Some (cr, (out, None)) else
      '(cr, go_on) ← (if checkEnd cr then chunk_end cr else Some (cr, true));
      if negb go_on then Some (cr, (out, cr_err cr)) else
      if cr_n cr =? 0 then
        '(cr, available) ← (if 0 <? len out then chunkHeaderAvailable cr else Some (cr, true));
        if negb available then Some (cr, (out, None)) else
        cr ← beginChunk cr; Read_loop fuel cr out blen
      else if blen =? 0 then Some (cr, (out, None))
      else
        let '(b, (d, err)) := Read (cr_r cr) (Z.min blen (cr_n cr)) in
        let n := u64 (cr_n cr - len d) in
        let cr :=
          if (n =? 0) && bool_decide (err = None) then mk_chunkedReader b n None true (excess cr)
          else if bool_decide (err = Some EOF) then mk_chunkedReader b n (Some ErrUnexpectedEOF) (checkEnd cr) (excess cr)
          else mk_chunkedReader b n err (checkEnd cr) (excess cr) in
        Read_loop fuel cr (out ++ d) (blen - len d)
  end.

Definition chunked_Read (fuel : nat) (cr : chunkedReader) (n : Z) : option (chunkedReader * (gobytes * option error)) := Read_loop fuel cr [] n.

End Reader.

(** ** Writing *)

(** [Write(p)]: the count and the error. *)
Class Writer (W : Type) : Type := Write : W -> gobytes -> W * (Z * option error).

Definition ErrShortWrite : error := OtherError (str "short write").

(** The hexadecimal loop of fmtInteger, for [%x] of a length. *)
Definition ldigits (d : Z) : Z := if d <? 10 then 48 + d else 97 + (d - 10).
Fixpoint fmt_hex_loop (fuel : nat) (u : Z) (acc : gobytes) : gobytes :=
  match fuel with
  | O => acc
  | S fuel => if 16 <=? u then fmt_hex_loop fuel (u >> 4) (ldigits (u .& 15) :: acc) else ldigits u :: acc
  end.
Definition fmt_hex (u : Z) : gobytes := fmt_hex_loop 16 u [].

Section Writer.
Context {W : Type} `{Writer W}.

(** A [FlushAfterChunkWriter], which is flushed after each chunk, is not among the writers. *)
Definition chunked_Write (w : W) (data : gobytes) : W * (Z * option error) :=
  if len data =? 0 then (w, (0, None)) else
  let '(w, (_, err)) := Write w (fmt_hex (len data) ++ [return_; newline]) in
  if negb (bool_decide (err = None)) then (w, (0, err)) else
  let '(w, (n, err)) := Write w data in
  if negb (bool_decide (err = None)) then (w, (n, err)) else
  if negb (n =? len data) then (w, (n, Some ErrShortWrite)) else
  let '(w, (_, err)) := Write w [return_; newline] in
  (w, (n, err)).

Definition chunked_Close (w : W) : W * option error :=
  let '(w, (_, err)) := Write w (str "0" ++ [return_; newline]) in (w, err).

(** A body written in pieces. *)
Fixpoint write_all (w : W) (ds : list gobytes) : W * option error :=
  match ds with
  | [] => chunked_Close w
  | d :: ds => let '(w, (_, err)) := chunked_Write w d in if bool_decide (err = None) then write_all w ds else (w, err)
  end.

End Writer.

(** A writer that keeps the bytes, with room for [room] more. *)
Record sink := mk_sink { written : gobytes; sink_room : option Z }.
#[export] Instance sink_Writer : Writer sink := fun s p =>
  match sink_room s with
  | None => (mk_sink (written s ++ p) None, (len p, None))
  | Some k =>
      if len p <=? k then (mk_sink (written s ++ p) (Some (k - len p)), (len p, None))
      else (mk_sink (written s ++ take (Z.to_nat k) p) (Some 0), (k, Some ErrShortWrite))
  end.

Example chunked_examples :
  written (fst (write_all (mk_sink [] None) [str "Wiki"; []; str "pedia in chunks."])) =
    str "4" ++ [13; 10] ++ str "Wiki" ++ [13; 10] ++ str "10" ++ [13; 10] ++ str "pedia in chunks." ++ [13; 10] ++ str "0" ++ [13; 10] /\
  fmt_hex 65535 = str "ffff" /\ parseHexUint (str "1F") = Ok 31 /\
  (snd <$> chunked_Read 3000 (NewChunkedReader (NewReader (mk_stream [str "5;ext=1"; [13; 10]; str "hel"; str "lo"; [13; 10]; str "0"; [13; 10]] EOF true))) 9) = Some (str "hello", None) /\
  (snd <$> chunked_Read 3000 (NewChunkedReader (NewReader (mk_stream [str "5"; [13; 10]; str "hel"] EOF true))) 9) = Some (str "hel", Some ErrUnexpectedEOF).
Proof. split_and!; vm_compute; reflexivity. Qed.

(** ** Lengths in hexadecimal *)

Definition is_lhex (c : Z) : Prop := 48 <= c <= 57 \/ 97 <= c <= 102.

Lemma ldigits_spec d : 0 <= d < 16 -> is_lhex (ldigits d) /\ hex_digit (ldigits d) = Some d.
Proof.
  intros Hd. unfold ldigits, hex_digit, is_lhex. destruct (d <? 10) eqn:E; zbool.
  - rewrite (proj2 (Z.leb_le 48 (48 + d))), (proj2 (Z.leb_le (48 + d) 57)) by lia. cbn [andb]. split; [lia|]. f_equal. lia.
  - rewrite (proj2 (Z.leb_gt (97 + (d - 10)) 57)), andb_false_r by lia.
    rewrite (proj2 (Z.leb_le 97 (97 + (d - 10)))), (proj2 (Z.leb_le (97 + (d - 10)) 102)) by lia. cbn [andb]. split; [lia|]. f_equal. lia.
Qed.

Lemma hex_step n d : 0 <= n < 2 ^ 60 -> 0 <= d < 16 -> u64 (n << 4) .| d = 16 * n + d.
Proof.
  intros Hn Hd. unfold u64. rewrite Z.mod_small by (rewrite Z.shiftl_mul_pow2 by lia; lia).
  rewrite Z.lor_comm, lor_shiftl_add by lia. lia.
Qed.

(** The digits that the loop puts in front of [acc], and what reading them gives. *)
Lemma fmt_hex_loop_spec fuel u :
  0 <= u < 16 ^ Z.of_nat fuel -> (0 < fuel)%nat ->
  exists k, 1 <= k <= Z.of_nat fuel /\ (k = 1 \/ 16 ^ (k - 1) <= u) /\ u < 16 ^ k /\
    (forall acc, len (fmt_hex_loop fuel u acc) = k + len acc /\ (Forall is_lhex acc -> Forall is_lhex (fmt_hex_loop fuel u acc))) /\
    (forall acc i n, 0 <= n < 16 ^ i -> 0 <= i -> i + k <= 16 ->
       parseHexUint_loop (fmt_hex_loop fuel u acc) i n = parseHexUint_loop acc (i + k) (16 ^ k * n + u)).
Proof.
  revert u. induction fuel as [|fuel IH]; intros u Hu Hf; [lia|]. cbn [fmt_hex_loop].
  assert (forall i n, 0 <= n < 16 ^ i -> 0 <= i < 16 -> 0 <= n < 2 ^ 60) as Hn60.
  { intros i n Hn Hi. split; [lia|]. assert (16 ^ i <= 16 ^ 15) by (apply Z.pow_le_mono_r; lia). change (16 ^ 15) with (2 ^ 60) in *. lia. }
  destruct (16 <=? u) eqn:E; zbool.
  - assert (u >> 4 = u / 16) as Hs by (rewrite Z.shiftr_div_pow2 by lia; done). assert (u .& 15 = u mod 16) as Hm by exact (Z.land_ones u 4 ltac:(lia)).
    rewrite Nat2Z.inj_succ, Z.pow_succ_r in Hu by lia.
    destruct fuel as [|fuel']; [change (16 ^ Z.of_nat 0) with 1 in Hu; lia|]. set (fuel := S fuel') in *.
    destruct (IH (u >> 4)) as (k & Hk & Hlow & Hup & Hlen & Hparse); [rewrite Hs; zlia|lia|].
    pose proof (ldigits_spec (u .& 15) ltac:(rewrite Hm; zlia)) as [Hd1 Hd2]. exists (k + 1). split_and!.
    + lia.
    + lia.
    + right. replace (k + 1 - 1) with k by lia. rewrite Hs in Hlow. destruct Hlow as [-> |Hlow]; [change (16 ^ 1) with 16; lia|].
      replace k with (1 + (k - 1)) by lia. rewrite Z.pow_add_r by lia. change (16 ^ 1) with 16. zlia.
    + rewrite Z.pow_add_r by lia. change (16 ^ 1) with 16. rewrite Hs in Hup. zlia.
    + intros acc. destruct (Hlen (ldigits (u .& 15) :: acc)) as [-> Hall]. split; [rewrite len_cons; lia|]. intros Ha. apply Hall. by constructor.
    + intros acc i n Hn Hi Hik. rewrite Hparse by lia. cbn [parseHexUint_loop]. rewrite Hd2, (proj2 (Z.eqb_neq _ _)) by lia.
      assert (0 <= 16 ^ k * n + (u >> 4) < 16 ^ (i + k)) as Hb.
      { rewrite Z.pow_add_r by lia. rewrite Hs in *. pose proof (Z.pow_pos_nonneg 16 k ltac:(lia) ltac:(lia)). pose proof (Z.div_pos u 16 ltac:(lia) ltac:(lia)).
        assert (16 ^ k * n <= 16 ^ k * (16 ^ i - 1)) by (apply Z.mul_le_mono_nonneg_l; lia). assert (0 <= 16 ^ k * n) by (apply Z.mul_nonneg_nonneg; lia). lia. }
      rewrite hex_step by (rewrite ?Hm; first [zlia | apply (Hn60 (i + k)); lia]). f_equal; [lia|].
      rewrite Z.pow_add_r, Hs, Hm by lia. change (16 ^ 1) with 16. zlia.
  - pose proof (ldigits_spec u ltac:(lia)) as [Hd1 Hd2]. exists 1. change (16 ^ 1) with 16. split_and!; try lia.
    + intros acc. split; [by rewrite len_cons|by constructor].
    + intros acc i n Hn Hi Hik. cbn [parseHexUint_loop]. rewrite Hd2, (proj2 (Z.eqb_neq _ _)) by lia. rewrite hex_step; [done| |lia]. apply (Hn60 i); lia.
Qed.

Lemma fmt_hex_spec u :
  0 <= u < 2 ^ 64 ->
  parseHexUint (fmt_hex u) = Ok u /\ Forall is_lhex (fmt_hex u) /\ 1 <= len (fmt_hex u) <= 16 /\ len (fmt_hex u) <= 12 + 2 * u.
Proof.
  intros Hu. unfold parseHexUint, fmt_hex. destruct (fmt_hex_loop_spec 16 u) as (k & Hk & Hlow & _ & Hlen & Hparse); [done|lia|].
  destruct (Hlen []) as [Hl Hall]. change (@len Z []) with 0 in Hl. rewrite (proj2 (Z.eqb_neq _ _)) by lia. rewrite Hparse by lia. split_and!.
  - cbn. f_equal. lia.
  - by apply Hall.
  - lia.
  - lia.
  - destruct (decide (k <= 12)); [lia|]. destruct Hlow as [|Hlow]; [lia|]. assert (16 ^ 12 <= 16 ^ (k - 1)) by (apply Z.pow_le_mono_r; lia).
    change (16 ^ 12) with 281474976710656 in *. lia.
Qed.

Lemma lhex_other c s : Forall is_lhex s -> (c < 48 \/ 57 < c < 97) -> c ∉ s.
Proof. intros Hs Hc Hin. rewrite Forall_forall in Hs. specialize (Hs c Hin). unfold is_lhex in Hs. lia. Qed.

(** A chunk header without an extension. *)
Lemma header_size u :
  0 <= u < 2 ^ 64 -> parseHexUint (removeChunkExtension (trimTrailingWhitespace (fmt_hex u ++ [return_; newline]))) = Ok u.
Proof.
  intros Hu. destruct (fmt_hex_spec u Hu) as (Hp & Hh & Hl & _).
  assert (trimTrailingWhitespace (fmt_hex u ++ [return_; newline]) = fmt_hex u) as ->.
  { unfold trimTrailingWhitespace. rewrite rev_app_distr. change (rev [return_; newline]) with [newline; return_]. cbn [app trim_front].
    change (isASCIISpace newline) with true. change (isASCIISpace return_) with true. cbv iota.
    assert (trim_front (rev (fmt_hex u)) = rev (fmt_hex u)) as ->; [|by rewrite rev_involutive].
    destruct (rev (fmt_hex u)) as [|c l] eqn:E; [done|]. cbn.
    assert (is_lhex c) as Hc.
    { rewrite Forall_forall in Hh. apply Hh. apply list_elem_of_In, in_rev. rewrite E. by left. }
    assert (isASCIISpace c = false) as ->; [|done]. unfold isASCIISpace, is_lhex in *.
    rewrite !(proj2 (Z.eqb_neq c _)) by lia. done. }
  assert (removeChunkExtension (fmt_hex u) = fmt_hex u) as ->; [|done].
  unfold removeChunkExtension. destruct (Cut_byte 59 (fmt_hex u)) as [[_ ->]|(a & b & E & _)]; [done|].
  exfalso. apply (lhex_other 59 _ Hh); [lia|]. rewrite E. apply elem_of_app. right. left.
Qed.

(** ** The wire form *)

(** [wire C data rest]: [C] is a chunked body of [data], followed by [rest]. *)
Inductive wire : gobytes -> gobytes -> gobytes -> Prop :=
  | wire_end rest : wire (str "0" ++ [return_; newline] ++ rest) [] rest
  | wire_chunk d C data rest :
      d <> [] -> len d < 2 ^ 60 -> wire C data rest ->
      wire (fmt_hex (len d) ++ [return_; newline] ++ d ++ [return_; newline] ++ C) (d ++ data) rest.

Section Spec.
Context {R : Type} `{ByteStream R}.
Notation chunkedReader := (chunkedReader R).

Lemma readChunkLine_spec (b : BufReader R) h rest :
  wf b -> content b = h ++ [return_; newline] ++ rest -> newline ∉ h -> len h + 2 <= len (buf b) -> len h < 4000 ->
  exists b', readChunkLine b = Some (b', (h ++ [return_; newline], None)) /\ leaves b b' rest.
Proof.
  intros Hw Hc Hn Hl Hm. unfold readChunkLine. destruct (ReadSlice_spec b newline Hw) as (b' & line & e & C & -> & Hend & Hv & _). cbn [mbind option_bind].
  assert (newline ∉ h ++ [return_]) as Hn' by (rewrite not_elem_of_app; split; [done|by apply (bool_decide_unpack _)]).
  assert (content b = (h ++ [return_]) ++ newline :: rest) as Hc' by (by rewrite <- app_assoc).
  destruct Hend as [l r0 E Hnl _|l r0 E Hnl Hll|Hno _].
  - assert (l = h ++ [return_] /\ r0 = rest) as [-> ->].
    { rewrite E in Hc'. apply app_eq_inv in Hc' as [(k & -> & E1)|(k & E0 & E1)].
      - destruct k; [rewrite app_nil_r; by injection E1|]. injection E1 as <- _. by rewrite not_elem_of_app, not_elem_of_cons in Hnl; destruct Hnl as [_ []].
      - destruct k; [rewrite app_nil_r in E0; injection E1 as ->; done|]. injection E1 as <- _. rewrite E0 in Hn'. by rewrite not_elem_of_app, not_elem_of_cons in Hn'; destruct Hn' as [_ []]. }
    rewrite <- app_assoc. cbn [app]. unfold maxLineLength. rewrite (proj2 (Z.leb_gt _ _)) by (rewrite len_app, !len_cons; change (@len Z []) with 0; lia).
    by exists b'.
  - exfalso. apply Hnl. rewrite E in Hc'. apply (f_equal (take (length l))) in Hc'. rewrite take_app_length, take_app_ge in Hc'.
    + rewrite Hc'. apply elem_of_app. right. rewrite length_app in *. cbn [length] in *.
      destruct (length l - (length h + 1))%nat eqn:Ek; [unfold len in *; lia|]. left.
    + rewrite length_app. cbn [length]. unfold len in *. lia.
  - destruct Hno. rewrite Hc'. apply elem_of_app. right. left.
Qed.

Lemma s64_small x : - 2 ^ 63 <= x < 2 ^ 63 -> s64 x = x.
Proof. intros Hx. unfold s64. rewrite Z.mod_small by lia. lia. Qed.

(** A header read: the size, with the end of the body where it is 0. *)
Lemma beginChunk_spec (cr : chunkedReader) u rest :
  wf (cr_r cr) -> 32 <= len (buf (cr_r cr)) -> excess cr = 0 -> 0 <= u < 2 ^ 60 ->
  content (cr_r cr) = fmt_hex u ++ [return_; newline] ++ rest ->
  exists b', beginChunk cr = Some (mk_chunkedReader b' u (if u =? 0 then Some EOF else None) (checkEnd cr) 0) /\ leaves (cr_r cr) b' rest.
Proof.
  intros Hw Hz Hx Hu Hc. destruct (fmt_hex_spec u ltac:(lia)) as (_ & Hh & Hl & Hl2). unfold beginChunk.
  destruct (readChunkLine_spec (cr_r cr) (fmt_hex u) rest Hw Hc) as (b' & -> & Hv); [apply lhex_other; [done|lia]|lia..|]. cbn [mbind option_bind].
  rewrite bool_decide_true by done. cbn [negb]. rewrite header_size, Hx by lia. rewrite len_app, !len_cons. change (@len Z []) with 0.
  rewrite (s64_small u), (s64_small (2 * u)), (s64_small (16 + 2 * u)), (s64_small (0 + _)), s64_small by lia. rewrite Z.max_r by lia. change (16 * 1024 <? 0) with false. cbv iota. by exists b'.
Qed.

(** The reader that the body started with: its size and the end of its stream stay. *)
Context (origin : BufReader R).
Definition kin (b : BufReader R) : Prop := 32 <= len (buf origin) /\ len (buf b) = len (buf origin) /\ ending (rd b) = ending (rd origin).

Lemma kin_size b : kin b -> 32 <= len (buf b).
Proof. intros (Hs & -> & _). done. Qed.

Lemma kin_leaves b b' C : leaves b b' C -> kin b -> kin b'.
Proof. intros [_ _ Hs He] (Hk0 & Hk1 & Hk2). split_and!; congruence. Qed.

(** Where the reader is in the body. *)
Definition at_body (cr : chunkedReader) (data rest : gobytes) : Prop :=
  wf (cr_r cr) /\ kin (cr_r cr) /\ excess cr = 0 /\ cr_err cr = None /\
  if checkEnd cr then cr_n cr = 0 /\ exists C, content (cr_r cr) = [return_; newline] ++ C /\ wire C data rest
  else if cr_n cr =? 0 then wire (content (cr_r cr)) data rest
  else exists d C data', len d = cr_n cr /\ cr_n cr < 2 ^ 60 /\ content (cr_r cr) = d ++ [return_; newline] ++ C /\ wire C data' rest /\ data = d ++ data'.

Lemma chunk_end_spec (cr : chunkedReader) C :
  wf (cr_r cr) -> content (cr_r cr) = [return_; newline] ++ C ->
  exists b', chunk_end cr = Some (mk_chunkedReader b' (cr_n cr) None false (excess cr), true) /\ leaves (cr_r cr) b' C.
Proof.
  intros Hw Hc. unfold chunk_end. destruct (ReadFull_buffered 300 (cr_r cr) 2 Hw) as (b' & Hv & HR); [lia|lia|].
  rewrite HR. cbn [mbind option_bind]. rewrite Hc in *. rewrite (proj2 (Z.leb_le 2 _)) by (rewrite len_app; change (len [return_; newline]) with 2; pose proof (len_nonneg C); lia).
  change (take (Z.to_nat 2) ([return_; newline] ++ C)) with [return_; newline]. rewrite bool_decide_true by done. by exists b'.
Qed.

Lemma chunkHeaderAvailable_spec (cr : chunkedReader) :
  wf (cr_r cr) -> exists b' q, chunkHeaderAvailable cr = Some (mk_chunkedReader b' (cr_n cr) (cr_err cr) (checkEnd cr) (excess cr), q) /\ leaves (cr_r cr) b' (content (cr_r cr)).
Proof.
  intros Hw. unfold chunkHeaderAvailable. destruct (0 <? Buffered (cr_r cr)) eqn:E; zbool.
  - destruct (Peek_spec (cr_r cr) (Buffered (cr_r cr)) Hw ltac:(lia)) as (b' & -> & Hv). cbn [mbind option_bind]. by eexists b', _.
  - exists (cr_r cr), false. split; [by destruct cr|by apply leaves_refl].
Qed.

(** What a header leads to. *)
Lemma begin_body (cr : chunkedReader) data rest :
  at_body cr data rest -> checkEnd cr = false -> cr_n cr = 0 ->
  exists cr', beginChunk cr = Some cr' /\ len (content (cr_r cr')) < len (content (cr_r cr)) /\
    ((data = [] /\ cr_err cr' = Some EOF /\ leaves (cr_r cr) (cr_r cr') rest) \/ at_body cr' data rest).
Proof.
  intros (Hw & Hz & Hx & He & Hb) Hce Hn0. rewrite Hce, Hn0 in Hb. cbn in Hb. inversion Hb as [r0 HC Hd Hr|d C data' r0 Hd Hl HC Hc Hda Hr]; subst.
  - destruct (beginChunk_spec cr 0 rest Hw (kin_size _ Hz) Hx ltac:(lia)) as (b' & -> & Hv); [by rewrite <- HC|]. eexists. split; [done|]. cbn [cr_r cr_err]. split.
    + rewrite (leaves_content _ _ _ Hv), <- ?HC, !len_cons. lia.
    + by left.
  - pose proof (len_nonneg d). assert (0 < len d) as Hpos by (destruct d as [|x d]; [done|]; rewrite len_cons; pose proof (len_nonneg d); lia).
    destruct (beginChunk_spec cr (len d) (d ++ [return_; newline] ++ C) Hw (kin_size _ Hz) Hx ltac:(lia)) as (b' & -> & Hv); [done|]. eexists. split; [done|].
    rewrite (proj2 (Z.eqb_neq (len d) 0)) by lia. cbn [cr_r cr_err]. split.
    + rewrite (leaves_content _ _ _ Hv), <- ?Hc, (len_app (fmt_hex _)), !len_cons. cbn [app].
      pose proof (len_nonneg (fmt_hex (len d))). lia.
    + right. unfold at_body. cbn [cr_r excess cr_err checkEnd cr_n]. rewrite Hce, (proj2 (Z.eqb_neq (len d) 0)) by lia. split_and!; try done.
      * apply Hv.
      * by apply (kin_leaves _ _ _ Hv).
      * exists d, C, data'. rewrite (leaves_content _ _ _ Hv). by split_and!.
Qed.

(** The outcome of a read: some data with more to come, or the end of the body. *)
Definition body_read (cr' : chunkedReader) (out d : gobytes) (e : option error) (data' rest : gobytes) : Prop :=
  (e = None /\ out ++ d <> [] /\ at_body cr' data' rest) \/
  (e = Some EOF /\ data' = [] /\ wf (cr_r cr') /\ content (cr_r cr') = rest /\ kin (cr_r cr')).

Definition measure (cr : chunkedReader) : Z := 101 * len (content (cr_r cr)) + Z.of_nat (patience (rd (cr_r cr))).

Lemma measure_less (cr cr' : chunkedReader) :
  wf (cr_r cr') -> len (content (cr_r cr')) < len (content (cr_r cr)) -> measure cr' + 1 < measure cr.
Proof.
  intros Hw Hl. unfold measure. pose proof (patience_bound _ (wf_steady _ Hw)) as Hb. unfold maxConsecutiveEmptyReads in Hb. lia.
Qed.

(** Reading inside a chunk. *)
Lemma read_inside (cr : chunkedReader) data rest blen :
  at_body cr data rest -> checkEnd cr = false -> cr_n cr <> 0 -> 0 < blen ->
  exists b' d err data', Read (cr_r cr) (Z.min blen (cr_n cr)) = (b', (d, err)) /\ data = d ++ data' /\ len d <= blen /\ err = None /\
    (len (content b') < len (content (cr_r cr)) \/ (content b' = content (cr_r cr) /\ d = [] /\ (patience (rd b') < patience (rd (cr_r cr)))%nat)) /\
    at_body (if u64 (cr_n cr - len d) =? 0 then mk_chunkedReader b' (u64 (cr_n cr - len d)) None true (excess cr)
             else mk_chunkedReader b' (u64 (cr_n cr - len d)) None (checkEnd cr) (excess cr)) data' rest.
Proof.
  intros (Hw & Hz & Hx & He & Hb) Hce Hn0 Hbl. rewrite Hce, (proj2 (Z.eqb_neq _ _)) in Hb by done. destruct Hb as (d0 & C & data' & Hl0 & Hlt & Hc & Hwire & ->).
  pose proof (len_nonneg d0). destruct (Read_spec (cr_r cr) (Z.min blen (cr_n cr)) Hw ltac:(lia)) as (b' & d & err & C' & HR & Hv & Hcd & Hl & Herr & Hp).
  assert (exists d1, d0 = d ++ d1 /\ C' = d1 ++ [return_; newline] ++ C) as (d1 & -> & ->).
  { rewrite Hc in Hcd. apply app_eq_inv in Hcd as [(k & -> & ->)|(k & E0 & E1)]; [by exists k|]. destruct k as [|x k]; [exists []; rewrite app_nil_r in *; by rewrite E0|].
    rewrite E0, len_app, len_cons in Hl. pose proof (len_nonneg k). lia. }
  assert (err = None) as ->.
  { destruct err as [e|]; [|done]. destruct (Herr ltac:(done)) as [_ Hnil]. apply app_eq_nil in Hnil as [_ ?]. done. }
  rewrite len_app in Hl0. pose proof (len_nonneg d1). pose proof (len_nonneg d).
  assert (u64 (cr_n cr - len d) = len d1) as Hu by (unfold u64; rewrite Z.mod_small by lia; lia).
  exists b', d, None, (d1 ++ data'). rewrite Hu. split_and!; try done.
  - by rewrite <- app_assoc.
  - lia.
  - rewrite (leaves_content _ _ _ Hv). destruct d as [|x d].
    + right. rewrite Hcd. split_and!; try done. by apply Hp.
    + left. rewrite Hcd, (len_app (x :: d)), len_cons. pose proof (len_nonneg d). lia.
  - destruct (len d1 =? 0) eqn:E1; zbool; unfold at_body; cbn [cr_r excess cr_err checkEnd cr_n]; rewrite (leaves_content _ _ _ Hv).
    + assert (d1 = []) as -> by (apply nil_length_inv; unfold len in E1; lia). split_and!; try done; [apply Hv|by apply (kin_leaves _ _ _ Hv)|]. by exists C.
    + rewrite Hce, (proj2 (Z.eqb_neq (len d1) 0)) by lia. split_and!; try done; [apply Hv|by apply (kin_leaves _ _ _ Hv)|]. exists d1, C, data'. split_and!; try done. lia.
Qed.

(** Past the end of the chunk before. *)
Lemma pass_end_body (cr : chunkedReader) data rest :
  at_body cr data rest ->
  exists cr1, (if checkEnd cr then chunk_end cr else Some (cr, true)) = Some (cr1, true) /\ at_body cr1 data rest /\ checkEnd cr1 = false /\
    len (content (cr_r cr1)) <= len (content (cr_r cr)) /\ (cr1 = cr \/ measure cr1 + 1 < measure cr).
Proof.
  intros Hat. pose proof Hat as (Hw & Hz & Hx & He & Hb). destruct (checkEnd cr) eqn:Ece; [|by exists cr; split_and!; [..|left]]. destruct Hb as (Hn0 & C & Hc & Hwire).
  destruct (chunk_end_spec cr C Hw Hc) as (b' & -> & Hv). eexists. split; [done|]. split_and!; try done.
  - unfold at_body. cbn. rewrite Hn0, (leaves_content _ _ _ Hv). cbn. split_and!; try done; [apply Hv|by apply (kin_leaves _ _ _ Hv)].
  - cbn [cr_r]. rewrite (leaves_content _ _ _ Hv), Hc, len_app. change (len [return_; newline]) with 2. lia.
  - right. apply measure_less; [apply Hv|]. cbn [cr_r]. rewrite (leaves_content _ _ _ Hv), Hc, len_app. change (len [return_; newline]) with 2. lia.
Qed.

(** Looking for the next header keeps the place. *)
Lemma header_ahead_body (cr : chunkedReader) (out : gobytes) data rest :
  at_body cr data rest -> checkEnd cr = false -> cr_n cr = 0 ->
  exists cr' q, (if 0 <? len out then chunkHeaderAvailable cr else Some (cr, true)) = Some (cr', q) /\ at_body cr' data rest /\
    checkEnd cr' = false /\ cr_n cr' = 0 /\ content (cr_r cr') = content (cr_r cr) /\ (q = false -> out <> []).
Proof.
  intros Hat Hce Hn. pose proof Hat as (Hw & Hz & Hx & He & Hb). destruct (0 <? len out) eqn:Eo; zbool; [|by exists cr, true].
  destruct (chunkHeaderAvailable_spec cr Hw) as (b' & q & -> & Hv). eexists _, q. split; [done|]. cbn. split_and!; try done.
  - unfold at_body in *. cbn. rewrite (leaves_content _ _ _ Hv). split_and!; try done; [apply Hv|by apply (kin_leaves _ _ _ Hv)].
  - apply Hv.
  - intros _ ->. done.
Qed.

Lemma Read_loop_spec fuel (cr : chunkedReader) out blen data rest :
  at_body cr data rest -> 0 <= blen -> (out = [] -> 0 < blen) -> measure cr + 2 < Z.of_nat fuel ->
  exists cr' d e data', Read_loop fuel cr out blen = Some (cr', (out ++ d, e)) /\ data = d ++ data' /\ len d <= blen /\ body_read cr' out d e data' rest /\
    len (content (cr_r cr')) <= len (content (cr_r cr)).
Proof.
  revert cr out blen data. induction fuel as [|fuel IH]; intros cr out blen data Hat Hbl Hout Hf.
  { exfalso. unfold measure in Hf. pose proof (len_nonneg (content (cr_r cr))). lia. }
  cbn [Read_loop]. pose proof Hat as (Hw & Hz & Hx & He & Hb). rewrite (bool_decide_true _ He). cbn [negb].
  assert (forall out', len out' = 0 -> out' = ([] : gobytes)) as Hnil by (intros out' E; apply nil_length_inv; unfold len in E; lia).
  assert (0 < len out -> out <> []) as Hne by (intros Hlt ->; done).
  (* stopping with what there is *)
  assert (forall cr' : chunkedReader, at_body cr' data rest -> len (content (cr_r cr')) <= len (content (cr_r cr)) -> out <> [] ->
    exists cr'' d e data', Some (cr', (out, None)) = Some (cr'', (out ++ d, e)) /\ data = d ++ data' /\ len d <= blen /\ body_read cr'' out d e data' rest /\
      len (content (cr_r cr'')) <= len (content (cr_r cr))) as Hstop.
  { intros cr' Ha Hlc Ho. exists cr', [], None, data. rewrite app_nil_r. split_and!; try done. left. by rewrite app_nil_r. }
  destruct (checkEnd cr && (0 <? len out) && (Buffered (cr_r cr) <? 2)) eqn:Estop.
  { apply Hstop; [done|lia|]. apply Hne. apply andb_true_iff in Estop as [[_ E]%andb_true_iff _]. zbool. done. }
  (* the end of the chunk before *)
  destruct (pass_end_body cr data rest Hat) as (cr1 & -> & Hat1 & Hce1 & Hlc1 & Hm1).
  cbn [mbind option_bind negb]. assert (measure cr1 + 2 < Z.of_nat (S fuel)) as Hf1 by (destruct Hm1 as [-> |]; lia). clear Estop Hm1 Hb Hf Hat Hw Hz Hx He.
  pose proof Hat1 as (Hw & Hz & Hx & He & Hb). destruct (cr_n cr1 =? 0) eqn:En; zbool.
  - (* the next header *)
    destruct (header_ahead_body cr1 out data rest Hat1 Hce1 En) as (cr2 & q & -> & Hat2 & Hce2 & Hn2 & Hc2 & Hq).
    cbn [mbind option_bind]. destruct q; cbn [negb]; [|apply Hstop; [done|by rewrite Hc2|by apply Hq]].
    destruct (begin_body cr2 data rest Hat2 Hce2 Hn2) as (cr3 & -> & Hlt & Hend). cbn [mbind option_bind]. rewrite Hc2 in Hlt.
    destruct Hend as [(-> & Herr & Hv)|Hat3].
    + pose proof (measure_less cr1 cr3 (leaves_wf _ _ _ Hv) Hlt). destruct fuel as [|fuel]; [unfold measure in *; pose proof (len_nonneg (content (cr_r cr3))); lia|].
      cbn [Read_loop]. rewrite bool_decide_false by (rewrite Herr; done). cbn [negb]. rewrite Herr. exists cr3, [], (Some EOF), []. rewrite app_nil_r. split_and!; try done.
      * right. split_and!; try done; [apply Hv..|]. by apply (kin_leaves _ _ _ Hv), (proj1 (proj2 Hat2)).
      * lia.
    + pose proof (measure_less cr1 cr3 (proj1 Hat3) Hlt). destruct (IH cr3 out blen data Hat3 Hbl Hout) as (cr4 & d & e & data' & -> & ? & ? & ? & ?); [lia|].
      exists cr4, d, e, data'. split_and!; try done. lia.
  - destruct (blen =? 0) eqn:Ebl; zbool; [apply Hstop; [done|done|]; intros Ho; specialize (Hout Ho); lia|].
    destruct (read_inside cr1 data rest blen Hat1 Hce1 En ltac:(lia)) as (b' & d & err & data' & -> & -> & Hl & -> & Hpr & Hat2).
    set (cr2 := if _ && _ then _ else _).
    assert (cr2 = if u64 (cr_n cr1 - len d) =? 0 then mk_chunkedReader b' (u64 (cr_n cr1 - len d)) None true (excess cr1)
      else mk_chunkedReader b' (u64 (cr_n cr1 - len d)) None (checkEnd cr1) (excess cr1)) as E2.
    { unfold cr2. rewrite bool_decide_true, andb_true_r, bool_decide_false by done. done. }
    rewrite <- E2 in Hat2. assert (cr_r cr2 = b') as Hr2 by (rewrite E2; by destruct (_ =? 0)).
    destruct (IH cr2 (out ++ d) (blen - len d) data' Hat2) as (cr3 & d3 & e3 & data3 & -> & -> & Hl3 & Hres & Hlc3); [lia| | |].
    + intros [-> ->]%app_eq_nil. change (@len Z []) with 0. specialize (Hout eq_refl). lia.
    + pose proof (len_nonneg d). destruct Hpr as [Hpr|(Hpr & _ & Hp)].
      * pose proof (measure_less cr1 cr2 ltac:(apply Hat2) ltac:(by rewrite Hr2)). lia.
      * unfold measure in *. rewrite Hr2, Hpr. lia.
    + exists cr3, (d ++ d3), e3, data3. rewrite <- !app_assoc in *. split_and!; try done.
      * rewrite len_app. lia.
      * unfold body_read in *. by rewrite <- app_assoc in Hres.
      * rewrite Hr2 in Hlc3. destruct Hpr as [?|(Hpr & _)]; [lia|]. rewrite Hpr in Hlc3. lia.
Qed.

(** ** Any input at all *)

(** The last thing consumed is the header of an empty chunk. *)
Definition last_header (p : gobytes) : Prop :=
  exists p0 h, p = p0 ++ h /\ last h = Some newline /\ parseHexUint (removeChunkExtension (trimTrailingWhitespace h)) = Ok 0.

Lemma last_header_app q p : last_header p -> last_header (q ++ p).
Proof. intros (p0 & h & -> & Hl & Hp). exists (q ++ p0), h. by rewrite app_assoc. Qed.

Lemma parseHexUint_loop_nonneg v i n : 0 <= n -> match parseHexUint_loop v i n with Ok m => 0 <= m | Err e => e <> EOF end.
Proof.
  revert i n. induction v as [|b v IH]; intros i n Hn; cbn [parseHexUint_loop]; [done|]. destruct (hex_digit b) as [d|] eqn:E; [|done].
  destruct (i =? 16); [done|]. apply IH. apply Z.lor_nonneg. split; [unfold u64; zlia|].
  unfold hex_digit in E. repeat case_match; zbool; simplify_eq; lia.
Qed.

Lemma parseHexUint_nonneg v : match parseHexUint v with Ok m => 0 <= m | Err e => e <> EOF end.
Proof. unfold parseHexUint. destruct (len v =? 0); [done|]. by apply parseHexUint_loop_nonneg. Qed.

Lemma beginChunk_total (cr : chunkedReader) :
  wf (cr_r cr) -> 0 <= cr_n cr ->
  exists cr' h, beginChunk cr = Some cr' /\ wf (cr_r cr') /\ content (cr_r cr) = h ++ content (cr_r cr') /\ 0 <= cr_n cr' /\
    (cr_err cr' = None -> h <> []) /\ (cr_err cr' = Some EOF -> last_header h).
Proof.
  intros Hw Hn. unfold beginChunk, readChunkLine. destruct (ReadSlice_spec (cr_r cr) newline Hw) as (b & line & e & C & -> & Hend & Hv & _). cbn [mbind option_bind].
  assert (content (cr_r cr) = line ++ C) as Hc.
  { destruct Hend as [l r0 E _ _|l r0 E _ _|_ _]; [by rewrite E, <- app_assoc|done|by rewrite app_nil_r]. }
  rewrite <- (leaves_content _ _ _ Hv) in Hc. pose proof (leaves_wf _ _ _ Hv) as Hwb.
  destruct e as [e|]; cbn [mbind option_bind].
  { rewrite bool_decide_false by done. cbn [negb]. eexists _, line. split; [done|]. cbn. split_and!; try done. unfold ErrLineTooLong. repeat case_bool_decide; congruence. }
  destruct (maxLineLength <=? len line); cbn [mbind option_bind]; [rewrite bool_decide_false by done; cbn [negb]; by eexists _, line|].
  rewrite bool_decide_true by done. cbn [negb]. assert (exists l, line = l ++ [newline]) as [l ->] by (inversion Hend; by eexists).
  pose proof (parseHexUint_nonneg (removeChunkExtension (trimTrailingWhitespace (l ++ [newline])))) as Hpn.
  destruct (parseHexUint _) as [n|e] eqn:Ep; eexists _, (l ++ [newline]); (split; [done|]); cbn; split_and!; try done.
  - intros _. by destruct l.
  - destruct (n =? 0) eqn:E0; zbool; [|by case_match]. intros _. subst n. exists [], (l ++ [newline]). split_and!; try done. by rewrite last_snoc.
  - congruence.
Qed.

Lemma chunk_end_total (cr : chunkedReader) :
  wf (cr_r cr) ->
  exists cr' q p, chunk_end cr = Some (cr', q) /\ wf (cr_r cr') /\ content (cr_r cr) = p ++ content (cr_r cr') /\ cr_n cr' = cr_n cr /\
    (if q : bool then cr_err cr' = None /\ p <> [] else cr_err cr' <> None /\ cr_err cr' <> Some EOF).
Proof.
  intros Hw. unfold chunk_end. destruct (ReadFull_buffered 300 (cr_r cr) 2 Hw ltac:(lia) ltac:(lia)) as (b & Hv & ->). cbn [mbind option_bind].
  assert (content (cr_r cr) = take (Z.to_nat 2) (content (cr_r cr)) ++ content b) as Hc by (by rewrite (leaves_content _ _ _ Hv), take_drop).
  pose proof (leaves_wf _ _ _ Hv) as Hwb. destruct (2 <=? len (content (cr_r cr))) eqn:E; zbool.
  - case_bool_decide as Ed; eexists _, _, _; (split; [done|]); cbn; split_and!; try done. by rewrite Ed.
  - eexists _, _, _. split; [done|]. cbn. split_and!; try done. repeat case_bool_decide; congruence.
Qed.

Lemma pass_end_total (cr : chunkedReader) :
  wf (cr_r cr) -> 0 <= cr_n cr -> cr_err cr = None ->
  exists cr1 q p, (if checkEnd cr then chunk_end cr else Some (cr, true)) = Some (cr1, q) /\ wf (cr_r cr1) /\ content (cr_r cr) = p ++ content (cr_r cr1) /\
    0 <= cr_n cr1 /\ (if q : bool then cr_err cr1 = None /\ (cr1 = cr \/ p <> []) else cr_err cr1 <> Some EOF).
Proof.
  intros Hw Hn He. destruct (checkEnd cr).
  - destruct (chunk_end_total cr Hw) as (cr1 & q & p & -> & Hw1 & Hc1 & Hn1 & Hq). exists cr1, q, p. rewrite Hn1. split_and!; try done. destruct q; naive_solver.
  - exists cr, true, []. split_and!; try done. by left.
Qed.

Lemma header_ahead_total (cr : chunkedReader) (out : gobytes) :
  wf (cr_r cr) ->
  exists cr' q, (if 0 <? len out then chunkHeaderAvailable cr else Some (cr, true)) = Some (cr', q) /\ wf (cr_r cr') /\ cr_err cr' = cr_err cr /\
    cr_n cr' = cr_n cr /\ content (cr_r cr') = content (cr_r cr).
Proof.
  intros Hw. destruct (0 <? len out); [|by exists cr, true]. destruct (chunkHeaderAvailable_spec cr Hw) as (b' & q & -> & Hv).
  eexists _, q. split; [done|]. by split_and!; try apply Hv.
Qed.

Lemma Read_loop_total fuel (cr : chunkedReader) out blen :
  wf (cr_r cr) -> 0 <= cr_n cr -> 0 <= blen -> measure cr + 2 < Z.of_nat fuel ->
  exists cr' d e p, Read_loop fuel cr out blen = Some (cr', (out ++ d, e)) /\ wf (cr_r cr') /\ 0 <= cr_n cr' /\
    content (cr_r cr) = p ++ content (cr_r cr') /\ len d <= blen /\ e = cr_err cr' /\ (e = Some EOF -> cr_err cr = Some EOF \/ last_header p).
Proof.
  revert cr out blen. induction fuel as [|fuel IH]; intros cr out blen Hw Hn Hbl Hf.
  { exfalso. unfold measure in Hf. pose proof (len_nonneg (content (cr_r cr))). lia. }
  cbn [Read_loop]. case_bool_decide as He; cbn [negb].
  2:{ exists cr, [], (cr_err cr), []. rewrite app_nil_r. split_and!; try done. by left. }
  (* stopping *)
  assert (forall cr' p, wf (cr_r cr') -> 0 <= cr_n cr' -> content (cr_r cr) = p ++ content (cr_r cr') -> cr_err cr' <> Some EOF ->
    exists cr'' d e p, Some (cr', (out, cr_err cr')) = Some (cr'', (out ++ d, e)) /\ wf (cr_r cr'') /\ 0 <= cr_n cr'' /\
      content (cr_r cr) = p ++ content (cr_r cr'') /\ len d <= blen /\ e = cr_err cr'' /\ (e = Some EOF -> cr_err cr = Some EOF \/ last_header p)) as Hstop.
  { intros cr' p Hw' Hn' Hc' He'. exists cr', [], (cr_err cr'), p. rewrite app_nil_r. by split_and!. }
  (* going on *)
  assert (forall cr' p d out', wf (cr_r cr') -> 0 <= cr_n cr' -> content (cr_r cr) = p ++ content (cr_r cr') -> out' = out ++ d -> len d <= blen ->
    (cr_err cr' = Some EOF -> last_header p) -> (cr_err cr' = None -> measure cr' < measure cr) ->
    exists cr'' d'' e p'', Read_loop fuel cr' out' (blen - len d) = Some (cr'', (out ++ d'', e)) /\ wf (cr_r cr'') /\ 0 <= cr_n cr'' /\
      content (cr_r cr) = p'' ++ content (cr_r cr'') /\ len d'' <= blen /\ e = cr_err cr'' /\ (e = Some EOF -> cr_err cr = Some EOF \/ last_header p'')) as Hgo.
  { intros cr' p d out' Hw' Hn' Hc' -> Hd Hl Hm. destruct (decide (cr_err cr' = None)) as [E|E].
    - specialize (Hm E). destruct (IH cr' (out ++ d) (blen - len d) Hw' Hn') as (cr2 & d2 & e2 & p2 & -> & Hw2 & Hn2 & Hc2 & Hl2 & -> & He2); [lia|lia|].
      exists cr2, (d ++ d2), (cr_err cr2), (p ++ p2). rewrite <- app_assoc, Hc', Hc2, len_app, <- !app_assoc. split_and!; try done; [lia|].
      intros [E2|E2]%He2; [congruence|]. right. by apply last_header_app.
    - destruct fuel as [|fuel]; [unfold measure in *; pose proof (len_nonneg (content (cr_r cr))); lia|]. cbn [Read_loop].
      rewrite bool_decide_false by done. cbn [negb]. exists cr', d, (cr_err cr'), p. split_and!; try done. intros Ee. right. by apply Hl. }
  destruct (checkEnd cr && (0 <? len out) && (Buffered (cr_r cr) <? 2)).
  { rewrite <- He. by apply (Hstop cr []); [..|congruence]. }
  destruct (pass_end_total cr Hw Hn He) as (cr1 & q & p & -> & Hw1 & Hc1 & Hn1 & Hq).
  cbn [mbind option_bind]. destruct q; cbn [negb]; [destruct Hq as [He1 Hcase]|by apply (Hstop cr1 p)].
  assert (forall cr' q, wf (cr_r cr') -> content (cr_r cr1) = q ++ content (cr_r cr') -> q <> [] -> measure cr' < measure cr) as Hless.
  { intros cr' q' Hw' Hc' Hq'. assert (measure cr' + 1 < measure cr); [|lia]. apply measure_less; [done|]. rewrite Hc1, Hc', !len_app. destruct q'; [done|].
    rewrite len_cons. pose proof (len_nonneg p). pose proof (len_nonneg q'). lia. }
  destruct (cr_n cr1 =? 0) eqn:En; zbool.
  - destruct (header_ahead_total cr1 out Hw1) as (cr2 & q & -> & Hw2 & He2 & Hn2 & Hc2). rewrite He1 in He2. rewrite <- Hn2 in Hn1.
    cbn [mbind option_bind]. destruct q; cbn [negb]; [|rewrite <- He2; apply (Hstop cr2 p); [done|done|by rewrite Hc2|congruence]].
    destruct (beginChunk_total cr2 Hw2 Hn1) as (cr3 & h & -> & Hw3 & Hc3 & Hn3 & Hh & Hl3). cbn [mbind option_bind]. rewrite Hc2 in Hc3.
    specialize (Hgo cr3 (p ++ h) [] out). change (@len Z []) with 0 in Hgo. rewrite Z.sub_0_r in Hgo. apply Hgo; try done.
    + by rewrite Hc1, Hc3, app_assoc.
    + by rewrite app_nil_r.
    + intros E. by apply last_header_app, Hl3.
    + intros E. by apply (Hless cr3 h); [| |apply Hh].
  - destruct (blen =? 0) eqn:Ebl; zbool; [rewrite <- He1; apply (Hstop cr1 p); [done|done|done|congruence]|].
    destruct (Read_spec (cr_r cr1) (Z.min blen (cr_n cr1)) Hw1 ltac:(lia)) as (b' & d & err & C & -> & Hv & Hcd & Hl & Herr & Hp).
    rewrite <- (leaves_content _ _ _ Hv) in Hcd.
    set (cr2 := if _ && _ then _ else _). assert (cr_r cr2 = b' /\ cr_n cr2 = u64 (cr_n cr1 - len d) /\ (cr_err cr2 = None -> err = None) /\ cr_err cr2 <> Some EOF) as (Hr2 & Hn2 & He2 & Hne).
    { unfold cr2. repeat case_match; cbn; split_and!; try done; repeat case_bool_decide; try congruence. by rewrite andb_false_r in *. }
    apply (Hgo cr2 (p ++ d)); try done.
    + rewrite Hr2. apply Hv.
    + rewrite Hn2. unfold u64. zlia.
    + by rewrite Hr2, Hc1, Hcd, app_assoc.
    + lia.
    + intros E. specialize (He2 E). destruct d as [|x d].
      * destruct Hcase as [-> |Hp0].
        -- unfold measure. rewrite Hr2, Hcd. cbn [app]. specialize (Hp eq_refl He2). lia.
        -- assert (measure cr2 + 1 < measure cr); [|lia]. apply measure_less; [rewrite Hr2; apply Hv|]. rewrite Hr2, Hc1, Hcd, len_app. cbn [app].
           destruct p; [done|]. rewrite len_cons. pose proof (len_nonneg p). lia.
      * by apply (Hless cr2 (x :: d)); rewrite ?Hr2; [apply Hv|..].
Qed.
End Spec.

(** ** A body written and read *)

Definition chunk_text (d : gobytes) : gobytes :=
  if len d =? 0 then [] else fmt_hex (len d) ++ [return_; newline] ++ d ++ [return_; newline].

Lemma write_all_text acc ds :
  write_all (mk_sink acc None) ds = (mk_sink (acc ++ concat (map chunk_text ds) ++ str "0" ++ [return_; newline]) None, None).
Proof.
  revert acc. induction ds as [|d ds IH]; intros acc; [done|]. cbn [write_all map concat].
  assert (chunked_Write (mk_sink acc None) d = (mk_sink (acc ++ chunk_text d) None, (len d, None))) as ->.
  { unfold chunked_Write, chunk_text. destruct (len d =? 0) eqn:E; zbool; [by rewrite app_nil_r, E|]. unfold Write, sink_Writer. cbn [sink_room written].
    rewrite bool_decide_true by done. cbn [negb]. rewrite Z.eqb_refl. cbn [negb]. by rewrite <- !app_assoc. }
  rewrite bool_decide_true by done. by rewrite IH, <- !app_assoc.
Qed.

Lemma wire_text ds rest : Forall (fun d => len d < 2 ^ 60) ds -> wire (concat (map chunk_text ds) ++ str "0" ++ [return_; newline] ++ rest) (concat ds) rest.
Proof.
  induction 1 as [|d ds Hd Hds IH]; [apply wire_end|]. cbn [map concat]. unfold chunk_text at 1. destruct (len d =? 0) eqn:E; zbool.
  - assert (d = []) as -> by (apply nil_length_inv; unfold len in E; lia). exact IH.
  - rewrite <- !app_assoc. apply wire_chunk; [by intros ->|done|exact IH].
Qed.

(** Reading a body in pieces of the sizes given, up to the first error. *)
Fixpoint read_all {R} `{Reader R} (rounds inner : nat) (sizes : nat -> Z) (cr : chunkedReader R) (acc : gobytes) : option (chunkedReader R * (gobytes * option error)) :=
  match rounds with
  | O => None
  | S rounds =>
      '(cr, (d, err)) ← chunked_Read inner cr (sizes rounds);
      if bool_decide (err = None) then read_all rounds inner sizes cr (acc ++ d) else Some (cr, (acc ++ d, err))
  end.

Lemma read_all_body {R} `{ByteStream R} rounds inner sizes origin (cr : chunkedReader R) acc data rest :
  at_body origin cr data rest -> (forall i, 0 < sizes i) -> len data < Z.of_nat rounds -> 101 * len (content (cr_r cr)) + 200 < Z.of_nat inner ->
  exists cr', read_all rounds inner sizes cr acc = Some (cr', (acc ++ data, Some EOF)) /\ content (cr_r cr') = rest.
Proof.
  intros Hat Hs. revert cr acc data Hat. induction rounds as [|rounds IH]; intros cr acc data Hat Hr Hf; [pose proof (len_nonneg data); lia|].
  cbn [read_all]. unfold chunked_Read. pose proof (patience_bound _ (wf_steady _ (proj1 Hat))) as Hb. unfold maxConsecutiveEmptyReads in Hb.
  specialize (Hs rounds) as Hk. destruct (Read_loop_spec origin inner cr [] (sizes rounds) data rest Hat ltac:(lia) (fun _ => Hk)) as (cr' & d & e & data' & -> & -> & Hl & Hres & Hlc);
    [unfold measure; lia|]. cbn [mbind option_bind app]. rewrite len_app in Hr. destruct Hres as [(-> & Hne & Hat')|(-> & -> & _ & Hc & _)].
  - rewrite bool_decide_true by done. destruct (IH cr' (acc ++ d) data' Hat') as (cr2 & -> & Hc2).
    + cbn in Hne. destruct d; [done|]. rewrite len_cons in Hr. pose proof (len_nonneg d). lia.
    + lia.
    + exists cr2. by rewrite <- app_assoc.
  - rewrite bool_decide_false by done. exists cr'. by rewrite app_nil_r.
Qed.

(** ** Claims *)

(** A chunked body is read back exactly.  What the chunked writer sends for any
    pieces of data, empty ones included, is decoded to their concatenation and an end of
    file, over any byte stream however it is cut into reads, for reads of any positive
    sizes; what follows the body on the connection is left for the next request. *)
Theorem chunked_round_trip {R : Type} `{ByteStream R} (b : BufReader R) (ds : list gobytes) (rest : gobytes) (sizes : nat -> Z) (rounds inner : nat) :
  wf b -> 32 <= len (buf b) -> Forall (fun d => len d < 2 ^ 60) ds ->
  content b = written (fst (write_all (mk_sink [] None) ds)) ++ rest -> (forall i, 0 < sizes i) ->
  len (concat ds) < Z.of_nat rounds -> 101 * len (content b) + 200 < Z.of_nat inner ->
  snd (write_all (mk_sink [] None) ds) = None /\
  exists cr', read_all rounds inner sizes (NewChunkedReader b) [] = Some (cr', (concat ds, Some EOF)) /\ content (cr_r cr') = rest.
Proof.
  intros Hw Hz Hd Hc Hs Hr Hf. rewrite write_all_text in *. cbn [fst snd written app] in *. split; [done|].
  apply (read_all_body rounds inner sizes b (NewChunkedReader b) [] (concat ds) rest); try done.
  unfold at_body, NewChunkedReader. cbn. rewrite Hc, <- !app_assoc. split_and!; try done. by apply wire_text.
Qed.

Lemma chunked_round_trip_witness :
  let b := NewReader (mk_stream [str "3"; [13; 10]; str "ab"; str "c"; [13; 10]; str "0"; [13; 10]; str "GET"] EOF true) in
  exists cr', read_all 10 2000 (fun _ => 2) (NewChunkedReader b) [] = Some (cr', (str "abc", Some EOF)) /\ content (cr_r cr') = str "GET".
Proof.
  intros b. destruct (chunked_round_trip b [str "abc"; []] (str "GET") (fun _ => 2) 10 2000) as [_ H].
  - apply NewReaderSize_spec. vm_compute. split; [repeat split; lia|done].
  - by vm_compute.
  - repeat constructor.
  - by vm_compute.
  - intros _. lia.
  - by vm_compute.
  - by vm_compute.
  - exact H.
Defined.

(** [C15] Whatever bytes arrive as a chunked body, a read returns, without a panic or an
    endless loop, at most as many bytes as were asked for, and has consumed a front of the
    stream.  It reports the end of the body only when the last thing consumed was the
    header of an empty chunk: a body that is cut off is never taken for a whole one. *)
Theorem chunked_any_input {R : Type} `{ByteStream R} (fuel : nat) (cr : chunkedReader R) (n : Z) :
  wf (cr_r cr) -> 0 <= cr_n cr -> 0 <= n -> 101 * len (content (cr_r cr)) + 102 < Z.of_nat fuel -> cr_err cr <> Some EOF ->
  exists cr' d e p, chunked_Read fuel cr n = Some (cr', (d, e)) /\ wf (cr_r cr') /\ 0 <= cr_n cr' /\
    content (cr_r cr) = p ++ content (cr_r cr') /\ len d <= n /\ (e = Some EOF -> last_header p).
Proof.
  intros Hw Hn Hb Hf He. pose proof (patience_bound _ (wf_steady _ Hw)) as Hp. unfold maxConsecutiveEmptyReads in Hp.
  destruct (Read_loop_total fuel cr [] n Hw Hn Hb) as (cr' & d & e & p & HR & Hw' & Hn' & Hc & Hl & _ & Hlast); [unfold measure; lia|].
  exists cr', d, e, p. split_and!; try done. intros [?|?]%Hlast; done.
Qed.

Lemma chunked_any_input_witness :
  let cr := NewChunkedReader (NewReader (mk_stream [str "5"; [13; 10]; str "hel"] EOF true)) in
  exists cr' d e p, chunked_Read 1000 cr 9 = Some (cr', (d, e)) /\ wf (cr_r cr') /\ 0 <= cr_n cr' /\
    content (cr_r cr) = p ++ content (cr_r cr') /\ len d <= 9 /\ (e = Some EOF -> last_header p).
Proof.
  intros cr. apply (chunked_any_input 1000 cr 9).
  - apply NewReaderSize_spec. vm_compute. split; [repeat split; lia|done].
  - by vm_compute.
  - lia.
  - by vm_compute.
  - done.
Defined.

(** A header line may end in a bare newline, which the comment in the code (chunk-size
    CRLF) and RFC 9112 do not allow. *)
Example bare_newline_accepted :
  let b := NewReader (mk_stream [str "5" ++ [newline] ++ str "hello" ++ [return_; newline] ++ str "0" ++ [newline]] EOF true) in
  snd <$> read_all 10 2000 (fun _ => 8) (NewChunkedReader b) [] = Some (str "hello", Some EOF).
Proof. vm_compute. reflexivity. Qed.
