(* ===== verification/Transfer.v ===== *)
(** * net/http: how the body of a request is delimited

    [tools/go-patched/src/net/http/transfer.go], the side that reads: the headers
    Transfer-Encoding, Content-Length, Trailer and Connection decide where the body of a
    message ends and whether the connection is used again; with the helpers of header.go,
    server.go, net/textproto, internal/ascii and the vendored httpguts.  A header map is
    passed in and returned, since these functions delete from it. *)

From S2P Require Import Prelude HostPort Strconv Utf8 Strings Url UrlParse TextProto TextReader Chunked.
Local Open Scope go_scope.
Local Set Warnings "-clear-no-such-hyp".

Notation Header := (gmap (list Z) (list (list Z))) (only parsing).

Definition TransferEncoding : gostring := str "Transfer-Encoding".
Definition ContentLength : gostring := str "Content-Length".

(** [header[key]], the nil slice where there is no entry. *)
Definition values (h : Header) (key : gostring) : list gostring := default [] (h !! key).
Definition Header_get (h : Header) (key : gostring) : gostring := match values h key with v :: _ => v | [] => [] end.
Definition Header_has (h : Header) (key : gostring) : bool := bool_decide (is_Some (h !! key)).

(** ** Strings of header values *)

Definition TrimString (s : gostring) : gostring := rev (trim_front (rev (trim_front s))).

(** internal/ascii *)
Definition lower_byte (b : Z) : Z := if (65 <=? b) && (b <=? 90) then b + (97 - 65) else b.
Fixpoint EqualFold_loop (s t : gostring) : bool :=
  match s, t with
  | a :: s, b :: t => if negb (lower_byte a =? lower_byte b) then false else EqualFold_loop s t
  | _, _ => true
  end.
Definition EqualFold (s t : gostring) : bool := if negb (len s =? len t) then false else EqualFold_loop s t.

(** httpguts: a rune at least RuneSelf begins at each byte that is. *)
Fixpoint tokenEqual_loop (t1 t2 : gostring) : bool :=
  match t1, t2 with
  | a :: t1, b :: t2 =>
      if RuneSelf <=? a then false else if negb (lower_byte a =? lower_byte b) then false else tokenEqual_loop t1 t2
  | _, _ => true
  end.
Definition tokenEqual (t1 t2 : gostring) : bool := if negb (len t1 =? len t2) then false else tokenEqual_loop t1 t2.

Fixpoint headerValueContainsToken (fuel : nat) (v token : gostring) : bool :=
  match fuel with
  | O => false
  | S fuel =>
      let comma := IndexByteString v 44 in
      if negb (comma =? -1) then
        if tokenEqual (trim (take (Z.to_nat comma) v)) token then true
        else headerValueContainsToken fuel (drop (Z.to_nat (comma + 1)) v) token
      else tokenEqual (trim v) token
  end.

Definition HeaderValuesContainsToken (values : list gostring) (token : gostring) : bool :=
  existsb (fun v => headerValueContainsToken (S (length v)) v token) values.

Definition isTokenBoundary (b : Z) : bool := (b =? 32) || (b =? 44) || (b =? 9).

(** The loop of hasToken from position [sp]; [k] positions are left. *)
Fixpoint hasToken_loop (k : nat) (v token : gostring) (sp : Z) : bool :=
  match k with
  | O => false
  | S k =>
      let b := at_ v (Z.to_nat sp) in
      let t0 := at_ token 0 in
      let endPos := sp + len token in
      if negb (b =? t0) && negb (b .| 32 =? t0) then hasToken_loop k v token (sp + 1)
      else if (0 <? sp) && negb (isTokenBoundary (at_ v (Z.to_nat (sp - 1)))) then hasToken_loop k v token (sp + 1)
      else if negb (endPos =? len v) && negb (isTokenBoundary (at_ v (Z.to_nat endPos))) then hasToken_loop k v token (sp + 1)
      else if EqualFold (cut v sp (sp + len token)) token then true
      else hasToken_loop k v token (sp + 1)
  end.

Definition hasToken (v token : gostring) : bool :=
  if (len v <? len token) || bool_decide (token = []) then false
  else if bool_decide (v = token) then true
  else hasToken_loop (Z.to_nat (len v - len token + 1)) v token 0.

(** The elements of a list header. *)
Definition headerElements (v : gostring) : list gostring :=
  let v := TrimString v in
  if bool_decide (v = []) then []
  else if negb (Contains v (str ",")) then [v]
  else List.filter (fun f => negb (bool_decide (f = []))) (map TrimString (Split v (str ","))).

Definition badStringError (what val : gostring) : error := QuotedError [inl (what ++ str " "); inr val].

(** [%q] of a slice of strings. *)
Fixpoint quoted_list (l : list gostring) : list (gostring + gostring) :=
  match l with
  | [] => [inl (str "]")]
  | [x] => [inr x; inl (str "]")]
  | x :: l => inr x :: inl (str " ") :: quoted_list l
  end.

(** ** The connection *)

Definition shouldClose (major minor : Z) (header : Header) (removeCloseHeader : bool) : bool * Header :=
  if major <? 1 then (true, header) else
  let conv := values header (str "Connection") in
  let hasClose := HeaderValuesContainsToken conv (str "close") in
  if (major =? 1) && (minor =? 0) then (hasClose || negb (HeaderValuesContainsToken conv (str "keep-alive")), header)
  else (hasClose, if hasClose && removeCloseHeader then MIME_Del header (str "Connection") else header).

Definition fixPragmaCacheControl (header : Header) : Header :=
  match header !! str "Pragma" with
  | Some (hp :: _) =>
      if bool_decide (hp = str "no-cache") && negb (Header_has header (str "Cache-Control"))
      then <[str "Cache-Control" := [str "no-cache"]]> header else header
  | _ => header
  end.

(** ** The body *)

Definition bodyAllowedForStatus (status : Z) : bool :=
  if (100 <=? status) && (status <=? 199) then false
  else if status =? 204 then false
  else if status =? 304 then false
  else true.

Definition noResponseBodyExpected (requestMethod : gostring) : bool := bool_decide (requestMethod = str "HEAD").

(** The transfer reader's headers and whether the body is chunked. *)
Definition parseTransferEncoding (major minor : Z) (header : Header) : result (bool * Header) :=
  match header !! TransferEncoding with
  | None => Ok (false, header)
  | Some raw =>
      let header := delete TransferEncoding header in
      if negb ((1 <? major) || ((major =? 1) && (1 <=? minor))) then Ok (false, header) else
      match raw with
      | [te] =>
          if negb (EqualFold te (str "chunked")) then Err (unsupportedTEError [inl (str "unsupported transfer encoding: "); inr te])
          else Ok (true, delete ContentLength header)
      | _ => Err (unsupportedTEError (inl (str "too many transfer encodings: [") :: quoted_list raw))
      end
  end.

(** [lax] is the setting httplaxcontentlength=1 of the environment. *)
Definition parseContentLength (lax : bool) (clHeaders : list gostring) : result Z :=
  match clHeaders with
  | [] => Ok (-1)
  | cl :: _ =>
      let cl := TrimString cl in
      if bool_decide (cl = []) then if lax then Ok (-1) else Err (badStringError (str "invalid empty Content-Length") cl)
      else match ParseUint cl 10 63 with
           | (n, None) => Ok n
           | (_, Some _) => Err (badStringError (str "bad Content-Length") cl)
           end
  end.

(** More than one Content-Length: all the same, and then one. *)
Definition dedup_lengths (header : Header) : result Header :=
  match values header ContentLength with
  | first :: _ :: _ =>
      let all := values header ContentLength in
      let first := TrimString first in
      if forallb (fun ct => bool_decide (first = TrimString ct)) (tail all)
      then Ok (MIME_Add (MIME_Del header ContentLength) ContentLength first)
      else Err (QuotedError (inl (str "http: message cannot contain multiple Content-Length headers; got [") :: quoted_list all))
  | _ => Ok header
  end.

Definition fixLength (lax isResponse : bool) (status : Z) (requestMethod : gostring) (header : Header) (chunked : bool) : result (Z * Header) :=
  try header := dedup_lengths header in
  let contentLens := values header ContentLength in
  if isResponse && noResponseBodyExpected requestMethod then Ok (0, header) else
  if status / 100 =? 1 then Ok (0, header) else
  if (status =? 204) || (status =? 304) then Ok (0, header) else
  if chunked then Ok (-1, header) else
  if 0 <? len contentLens then try n := parseContentLength lax contentLens in Ok (n, header)
  else
    let header := MIME_Del header ContentLength in
    if negb isResponse then Ok (0, header) else Ok (-1, header).

(** The keys announced in Trailer, [None] for the nil map. *)
Definition add_trailer (st : Header * option error) (key : gostring) : Header * option error :=
  let key := CanonicalMIMEHeaderKey key in
  if (bool_decide (key = TransferEncoding) || bool_decide (key = str "Trailer") || bool_decide (key = ContentLength)) && bool_decide (snd st = None)
  then (fst st, Some (badStringError (str "bad trailer key") key))
  else (<[key := []]> (fst st), snd st).

Definition fixTrailer (header : Header) (chunked : bool) : result (option Header * Header) :=
  match header !! str "Trailer" with
  | None => Ok (None, header)
  | Some vv =>
      if negb chunked then Ok (None, header) else
      let header := MIME_Del header (str "Trailer") in
      let '(trailer, err) := foldl add_trailer (∅, None) (concat (map headerElements vv)) in
      match err with
      | Some err => Err err
      | None => Ok (if bool_decide (trailer = ∅) then None else Some trailer, header)
      end
  end.

(** What the body is read from: nothing, the chunks, a number of bytes, or all there is. *)
Inductive body_source := NoBody | ChunkedBody | LimitedBody (n : Z) | UntilClose.

Global Instance body_source_eq_dec : EqDecision body_source.
Proof. solve_decision. Defined.

Record transfer := mk_transfer {
  t_Header : Header;
  t_Body : body_source;
  t_ContentLength : Z;
  t_Chunked : bool;
  t_Close : bool;
  t_Trailer : option Header;
}.

(** [readTransfer] once its input is unified: [status], [requestMethod] and [close] come
    from the message. *)
Definition read_transfer (lax isResponse : bool) (status : Z) (requestMethod : gostring) (major minor : Z) (header : Header) (close : bool) : result transfer :=
  let '(major, minor) := if (major =? 0) && (minor =? 0) then (1, 1) else (major, minor) in
  try (chunked, header) := parseTransferEncoding major minor header in
  try (realLength, header) := fixLength lax isResponse status requestMethod header chunked in
  try contentLength := (if isResponse && bool_decide (requestMethod = str "HEAD") then parseContentLength lax (values header ContentLength) else Ok realLength) in
  try (trailer, header) := fixTrailer header chunked in
  let close := if isResponse && (realLength =? -1) && negb chunked && bodyAllowedForStatus status then true else close in
  let body :=
    if chunked then if isResponse && (noResponseBodyExpected requestMethod || negb (bodyAllowedForStatus status)) then NoBody else ChunkedBody
    else if realLength =? 0 then NoBody
    else if 0 <? realLength then LimitedBody realLength
    else if close then UntilClose else NoBody in
  Ok (mk_transfer header body contentLength chunked close trailer).

(** A request is handled as a response with status 200 to a GET. *)
Definition readTransfer (lax : bool) (method : gostring) (major minor : Z) (header : Header) (close : bool) : result transfer :=
  read_transfer lax false 200 method major minor header close.

(** A response to a request with method [requestMethod]; [None] where none is known. *)
Definition readTransfer_Response (lax : bool) (status : Z) (requestMethod : option gostring) (major minor : Z) (header : Header) : result transfer :=
  let '(close, header) := shouldClose major minor header true in
  read_transfer lax true status (default (str "GET") requestMethod) major minor header close.

Example transfer_examples :
  let h l : Header := list_to_map l in
  HeaderValuesContainsToken [str "Keep-Alive , CLOSE"] (str "close") = true /\ hasToken (str "x, 100-Continue") (str "100-continue") = true /\
  hasToken (str "closed") (str "close") = false /\ headerElements (str " a ,, b ") = [str "a"; str "b"] /\
  (t_Body <$> match readTransfer false (str "POST") 1 1 (h [(ContentLength, [str "12"; str " 12"])]) false with Ok t => Some t | Err _ => None end) = Some (LimitedBody 12) /\
  (t_Body <$> match readTransfer false (str "POST") 1 1 (h [(ContentLength, [str "12"]); (TransferEncoding, [str "Chunked"])]) false with Ok t => Some t | Err _ => None end) = Some ChunkedBody /\
  (match readTransfer false (str "POST") 1 1 (h [(ContentLength, [str "12"; str "13"])]) false with Ok _ => true | Err _ => false end) = false.
Proof. split_and!; vm_compute; reflexivity. Qed.

(** ** Trimming twice *)

Lemma trim_front_split s : exists f, s = f ++ trim_front s /\ match trim_front s with c :: _ => isASCIISpace c = false | [] => True end.
Proof.
  induction s as [|c s (f & E & Hc)]; [by exists []|]. cbn. destruct (isASCIISpace c) eqn:Ec; [|by exists []].
  exists (c :: f). split; [by rewrite E at 1|done].
Qed.

Lemma trim_front_id s : match s with c :: _ => isASCIISpace c = false | [] => True end -> trim_front s = s.
Proof. destruct s as [|c s]; [done|]. cbn. by intros ->. Qed.

Lemma TrimString_idem s : TrimString (TrimString s) = TrimString s.
Proof.
  unfold TrimString. destruct (trim_front_split s) as (f & _ & Ha). set (a := trim_front s) in *.
  destruct (trim_front_split (rev a)) as (g & Eg & Hb). set (b := trim_front (rev a)) in *.
  assert (trim_front (rev b) = rev b) as ->.
  { apply trim_front_id. destruct (rev b) as [|c l] eqn:Er; [done|]. apply (f_equal (@rev Z)) in Eg. rewrite rev_involutive, rev_app_distr, Er in Eg.
    rewrite Eg in Ha. exact Ha. }
  rewrite rev_involutive. by rewrite (trim_front_id b).
Qed.

(** ** What the headers declare *)

Definition modern (major minor : Z) : bool := (1 <? major) || ((major =? 1) && (1 <=? minor)) || ((major =? 0) && (minor =? 0)).

(** The one transfer encoding that is understood. *)
Definition one_chunked (te : option (list gostring)) : bool := match te with Some [v] => EqualFold v (str "chunked") | _ => false end.

(** The length that all the Content-Length headers agree on; 0 where there is none. *)
Definition declared (vs : list gostring) : option Z :=
  match vs with
  | [] => Some 0
  | v :: rest =>
      if forallb (fun w => bool_decide (TrimString v = TrimString w)) rest
      then n ← numeral 10 (TrimString v); if n <? 2 ^ 63 then Some n else None
      else None
  end.

Lemma parseContentLength_spec v vs :
  match numeral 10 (TrimString v) with
  | Some n => if n <? 2 ^ 63 then parseContentLength false (v :: vs) = Ok n /\ 0 <= n else exists e, parseContentLength false (v :: vs) = Err e
  | None => exists e, parseContentLength false (v :: vs) = Err e
  end.
Proof.
  cbn [parseContentLength]. case_bool_decide as E; [rewrite E; by eexists|].
  pose proof (ParseUint_spec (TrimString v) 10 63 ltac:(lia) ltac:(lia)) as HP. change (max_val 63) with (2 ^ 63 - 1) in HP.
  destruct (numeral 10 (TrimString v)) as [n|] eqn:En.
  - rewrite HP. destruct (n <? 2 ^ 63) eqn:El; zbool.
    + rewrite (proj2 (Z.leb_le _ _)) by lia. split; [done|]. by apply (numeral_nonneg 10 (TrimString v)).
    + rewrite (proj2 (Z.leb_gt _ _)) by lia. by eexists.
  - destruct HP as (w & why & -> & _). by eexists.
Qed.

Lemma CL_canonical : CanonicalMIMEHeaderKey ContentLength = ContentLength.
Proof. by vm_compute. Qed.
Lemma TR_canonical : CanonicalMIMEHeaderKey (str "Trailer") = str "Trailer".
Proof. by vm_compute. Qed.

(** The deduplicated header holds at most one length, and the same declaration. *)
Lemma dedup_lengths_spec header :
  match dedup_lengths header with
  | Ok h => len (values h ContentLength) <= 1 /\ declared (values h ContentLength) = declared (values header ContentLength) /\
      (values h ContentLength = [] <-> values header ContentLength = []) /\ (forall k, k <> ContentLength -> h !! k = header !! k) /\
      (values header ContentLength = [] -> h = header)
  | Err _ => declared (values header ContentLength) = None /\ values header ContentLength <> []
  end.
Proof.
  unfold dedup_lengths. destruct (values header ContentLength) as [|v [|w rest]] eqn:Ev.
  - rewrite Ev. done.
  - rewrite Ev. done.
  - cbn [tail]. destruct (forallb _ (w :: rest)) eqn:Ef; [|by cbn [declared]; rewrite Ef].
    assert (values (MIME_Add (MIME_Del header ContentLength) ContentLength (TrimString v)) ContentLength = [TrimString v]) as ->.
    { unfold values, MIME_Add, MIME_Del. rewrite CL_canonical, lookup_insert_eq, lookup_delete_eq. done. }
    split_and!; try done.
    + cbn [declared]. by rewrite Ef, TrimString_idem.
    + intros k Hk. unfold MIME_Add, MIME_Del. by rewrite CL_canonical, lookup_insert_ne, lookup_delete_ne.
Qed.

Lemma fixLength_request method header :
  match fixLength false false 200 method header false with
  | Ok (n, h) => declared (values header ContentLength) = Some n /\ 0 <= n < 2 ^ 63 /\ len (values h ContentLength) <= 1 /\
      (forall k, k <> ContentLength -> h !! k = header !! k)
  | Err _ => declared (values header ContentLength) = None
  end.
Proof.
  unfold fixLength. pose proof (dedup_lengths_spec header) as HD. destruct (dedup_lengths header) as [h|e]; [|by destruct HD].
  destruct HD as (Hl & Hd & Hnil & Hk & _). cbn [andb negb orb]. change (200 / 100 =? 1) with false. change ((200 =? 204) || (200 =? 304)) with false. cbv iota.
  destruct (0 <? len (values h ContentLength)) eqn:E; zbool.
  - destruct (values h ContentLength) as [|v [|w rest]] eqn:Ev; [done| |rewrite !len_cons in Hl; pose proof (len_nonneg rest); lia].
    pose proof (parseContentLength_spec v []) as HP. rewrite <- Hd. cbn [declared forallb]. destruct (numeral 10 (TrimString v)) as [n|]; cbn [mbind option_bind].
    + destruct (n <? 2 ^ 63) eqn:En; zbool; [destruct HP as [-> ?]|destruct HP as [e ->]; done]. rewrite Ev. by split_and!.
    + destruct HP as [e ->]. done.
  - assert (values h ContentLength = []) as Hn by (apply nil_length_inv; unfold len in E; lia). rewrite <- Hd, Hn. split_and!; try done.
    + unfold values, MIME_Del. rewrite CL_canonical, lookup_delete_eq. done.
    + intros k Hne. unfold MIME_Del. rewrite CL_canonical, lookup_delete_ne by done. by apply Hk.
Qed.

Lemma fixLength_chunked lax method header :
  values header ContentLength = [] -> fixLength lax false 200 method header true = Ok (-1, header).
Proof.
  intros Hv. unfold fixLength. pose proof (dedup_lengths_spec header) as HD. destruct (dedup_lengths header) as [h|e]; [|by destruct HD].
  destruct HD as (_ & _ & _ & _ & ->); [done|]. done.
Qed.

(** The keys that the Trailer headers announce, and those that no trailer may have. *)
Definition announced_keys (header : Header) : list gostring :=
  map CanonicalMIMEHeaderKey (concat (map headerElements (values header (str "Trailer")))).
Definition forbidden_key (key : gostring) : Prop := key = TransferEncoding \/ key = str "Trailer" \/ key = ContentLength.

Global Instance forbidden_key_dec key : Decision (forbidden_key key).
Proof. unfold forbidden_key. apply _. Defined.

(** The trailer before it is read: every announced key, without a value. *)
Definition announced_trailer (keys : list gostring) : option Header :=
  match keys with [] => None | _ => Some (list_to_map (map (fun k => (k, [])) keys)) end.

Lemma add_trailer_allowed m key :
  ~ forbidden_key (CanonicalMIMEHeaderKey key) -> add_trailer (m, None) key = (<[CanonicalMIMEHeaderKey key := []]> m, None).
Proof.
  unfold forbidden_key, add_trailer. intros Hf. cbv zeta. cbn [fst snd].
  by rewrite !(bool_decide_false (CanonicalMIMEHeaderKey key = _)) by tauto.
Qed.

Lemma add_trailer_fails l m e : exists m', foldl add_trailer (m, Some e) l = (m', Some e).
Proof.
  revert m. induction l as [|k l IH]; intros m; [by exists m|]. cbn [foldl]. unfold add_trailer at 2. cbn [fst snd].
  rewrite (bool_decide_false (Some e = None)), andb_false_r by done. apply IH.
Qed.

Lemma add_trailers l m :
  if decide (Exists forbidden_key (map CanonicalMIMEHeaderKey l)) then exists m' e, foldl add_trailer (m, None) l = (m', Some e)
  else foldl add_trailer (m, None) l = (foldl (fun m k => <[k := []]> m) m (map CanonicalMIMEHeaderKey l), None).
Proof.
  revert m. induction l as [|k l IH]; intros m; [done|]. cbn [map foldl].
  destruct (decide (forbidden_key (CanonicalMIMEHeaderKey k))) as [Hk|Hk].
  - rewrite decide_True by (by left). unfold add_trailer at 2. cbn [fst snd].
    rewrite (bool_decide_true (None = None)), andb_true_r by done.
    assert (bool_decide (CanonicalMIMEHeaderKey k = TransferEncoding) || bool_decide (CanonicalMIMEHeaderKey k = str "Trailer")
      || bool_decide (CanonicalMIMEHeaderKey k = ContentLength) = true) as ->.
    { rewrite !orb_true_iff, !bool_decide_eq_true. unfold forbidden_key in Hk. tauto. }
    destruct (add_trailer_fails l m (badStringError (str "bad trailer key") (CanonicalMIMEHeaderKey k))) as (m' & ->). by eexists _, _.
  - rewrite add_trailer_allowed by done. specialize (IH (<[CanonicalMIMEHeaderKey k := []]> m)).
    destruct (decide (Exists forbidden_key (map CanonicalMIMEHeaderKey l))) as [He|He].
    + by rewrite decide_True by (by right).
    + rewrite decide_False; [done|]. by intros [?|?]%Exists_cons.
Qed.

Lemma insert_keys (l : list gostring) (m : Header) k :
  foldl (fun m k => <[k := []]> m) m l !! k = if decide (k ∈ l) then Some [] else m !! k.
Proof.
  revert m. induction l as [|x l IH]; intros m; [done|]. cbn [foldl]. rewrite IH. destruct (decide (k ∈ l)).
  - by rewrite decide_True by (by right).
  - destruct (decide (k = x)) as [->|Hne].
    + rewrite lookup_insert_eq. by rewrite decide_True by left.
    + rewrite lookup_insert_ne by done. rewrite decide_False; [done|]. by intros [?|?]%elem_of_cons.
Qed.

Lemma announced_keys_map (l : list gostring) k :
  (list_to_map (map (fun k => (k, [])) l) : Header) !! k = if decide (k ∈ l) then Some [] else None.
Proof.
  induction l as [|x l IH]; [by rewrite decide_False by apply not_elem_of_nil|]. cbn [map list_to_map foldr fst snd uncurry].
  destruct (decide (k = x)) as [->|Hne].
  - rewrite lookup_insert_eq. by rewrite decide_True by left.
  - rewrite lookup_insert_ne by done. rewrite IH. by destruct (decide (k ∈ l)), (decide (k ∈ x :: l)); set_solver.
Qed.

Lemma fixTrailer_spec header chunked :
  match fixTrailer header chunked with
  | Ok (trailer, h) => (forall k, k <> str "Trailer" -> h !! k = header !! k) /\
      if chunked then Forall (fun k => ~ forbidden_key k) (announced_keys header) /\ trailer = announced_trailer (announced_keys header) /\ h !! str "Trailer" = None
      else trailer = None /\ h = header
  | Err _ => chunked = true /\ Exists forbidden_key (announced_keys header)
  end.
Proof.
  unfold fixTrailer, announced_keys, values. destruct (header !! str "Trailer") as [vv|] eqn:E.
  2:{ split; [done|]. destruct chunked; [|done]. split_and!; [constructor|done|done]. }
  destruct chunked; [|done]. cbn [negb default from_option id]. pose proof (add_trailers (concat (map headerElements vv)) ∅) as HA.
  destruct (decide _) as [He|He].
  { destruct HA as (m' & e & ->). done. }
  rewrite HA. cbn [mbind]. split.
  { intros k Hk. unfold MIME_Del. by rewrite TR_canonical, lookup_delete_ne. }
  split_and!.
  - apply Forall_forall. intros k Hk Hf. apply He, Exists_exists. by exists k.
  - destruct (map CanonicalMIMEHeaderKey (concat (map headerElements vv))) as [|k l] eqn:El; [by cbn [foldl]; rewrite bool_decide_true|].
    assert (foldl (fun m k => <[k := []]> m) ∅ (k :: l) = (list_to_map (map (fun k => (k, [])) (k :: l)) : Header)) as ->.
    { apply map_eq. intros i. rewrite insert_keys, announced_keys_map, lookup_empty. done. }
    rewrite bool_decide_false; [done|]. intros H0. apply (f_equal (lookup k)) in H0.
    rewrite announced_keys_map, lookup_empty, decide_True in H0 by left. done.
  - unfold MIME_Del. by rewrite TR_canonical, lookup_delete_eq.
Qed.

Lemma fixTrailer_keys header chunked :
  match fixTrailer header chunked with Ok (_, h) => forall k, k <> str "Trailer" -> h !! k = header !! k | Err _ => chunked = true end.
Proof. pose proof (fixTrailer_spec header chunked) as HF. destruct (fixTrailer header chunked) as [[t h]|e]; tauto. Qed.

Lemma parseTransferEncoding_spec major minor header :
  (major =? 0) && (minor =? 0) = false ->
  match parseTransferEncoding major minor header with
  | Ok (chunked, h) => h !! TransferEncoding = None /\ chunked = modern major minor && one_chunked (header !! TransferEncoding) /\
      (chunked = false -> (header !! TransferEncoding = None \/ modern major minor = false) /\ h !! ContentLength = header !! ContentLength) /\
      (chunked = true -> h !! ContentLength = None) /\ (forall k, k <> TransferEncoding -> k <> ContentLength -> h !! k = header !! k)
  | Err _ => modern major minor = true /\ header !! TransferEncoding <> None /\ one_chunked (header !! TransferEncoding) = false
  end.
Proof.
  intros H0. unfold parseTransferEncoding, modern. rewrite H0, orb_false_r. destruct (header !! TransferEncoding) as [raw|] eqn:E.
  2:{ split_and!; try done; [by rewrite andb_false_r|by split; [left|]]. }
  destruct ((1 <? major) || ((major =? 1) && (1 <=? minor))); cbn [negb andb].
  - destruct raw as [|te [|te2 raw]]; try done. unfold one_chunked. destruct (EqualFold te (str "chunked")); cbn [negb]; [|done].
    split_and!; try done.
    + rewrite lookup_delete_ne by done. apply lookup_delete_eq.
    + intros _. apply lookup_delete_eq.
    + intros k H1 H2. by rewrite !lookup_delete_ne.
  - split_and!; try done; [apply lookup_delete_eq|..].
    + intros _. split; [by right|]. by rewrite lookup_delete_ne.
    + intros k H1 H2. by rewrite lookup_delete_ne.
Qed.

(** A response to HEAD has no body, whatever its headers say, and neither has a response
    with a status that allows none. *)
Lemma responses_without_body lax status requestMethod major minor header t :
  default (str "GET") requestMethod = str "HEAD" \/ bodyAllowedForStatus status = false ->
  readTransfer_Response lax status requestMethod major minor header = Ok t -> t_Body t = NoBody.
Proof.
  intros Hn. unfold readTransfer_Response. destruct (shouldClose major minor header true) as [close h]. unfold read_transfer.
  generalize dependent (default (str "GET") requestMethod). intros rm Hn.
  destruct (if (major =? 0) && (minor =? 0) then (1, 1) else (major, minor)) as [ma mi]. destruct (parseTransferEncoding ma mi h) as [[c h1]|]; [|done].
  assert (noResponseBodyExpected rm || negb (bodyAllowedForStatus status) = true) as He.
  { unfold noResponseBodyExpected. destruct Hn as [-> | ->]; [done|]. by rewrite orb_true_r. }
  destruct (fixLength lax true status rm h1 c) as [[n h2]|] eqn:EL; [|done]. assert (c = false -> n = 0) as H0.
  { intros ->. revert EL. unfold fixLength. destruct (dedup_lengths h1) as [h3|]; [|done]. cbn [andb]. destruct Hn as [Hh|Hs].
    - rewrite Hh. by intros [= <- _].
    - destruct (noResponseBodyExpected _); [by intros [= <- _]|]. unfold bodyAllowedForStatus in Hs. destruct (Z.eqb_spec (status / 100) 1) as [|H1]; [by intros [= <- _]|].
      destruct (Z.leb_spec 100 status), (Z.leb_spec status 199), (Z.eqb_spec status 204), (Z.eqb_spec status 304); cbn in Hs |- *; try done; try (by intros [= <- _]);
        exfalso; apply H1; symmetry; apply Z.div_unique with (status - 100); lia. }
  destruct (if true && bool_decide (rm = str "HEAD") then parseContentLength lax (values h2 ContentLength) else Ok n) as [cl|]; [|done]. destruct (fixTrailer h2 c) as [[tr h3]|]; [|done]. intros [= <-]. cbn [t_Body andb].
  rewrite He. destruct c; [done|]. by rewrite (H0 eq_refl).
Qed.

(** What the framing of a request promises about the result of [readTransfer]. *)
Definition framed (major minor : Z) (header : Header) (close : bool) (res : result transfer) : Prop :=
  let te := header !! TransferEncoding in
  let chunked := modern major minor && one_chunked te in
  match res with
  | Ok t =>
      t_Header t !! TransferEncoding = None /\ t_Close t = close /\ t_Chunked t = chunked /\
      if chunked then t_Body t = ChunkedBody /\ t_ContentLength t = -1 /\ t_Header t !! ContentLength = None /\
        Forall (fun k => ~ forbidden_key k) (announced_keys header) /\ t_Trailer t = announced_trailer (announced_keys header) /\
        t_Header t !! str "Trailer" = None
      else (te = None \/ modern major minor = false) /\ declared (values header ContentLength) = Some (t_ContentLength t) /\
        0 <= t_ContentLength t < 2 ^ 63 /\ len (values (t_Header t) ContentLength) <= 1 /\
        t_Body t = (if t_ContentLength t =? 0 then NoBody else LimitedBody (t_ContentLength t)) /\
        t_Trailer t = None /\ t_Header t !! str "Trailer" = header !! str "Trailer"
  | Err _ =>
      if chunked then Exists forbidden_key (announced_keys header)
      else (modern major minor = true /\ te <> None) \/ declared (values header ContentLength) = None
  end.

Lemma readTransfer_framed method major minor header close : framed major minor header close (readTransfer false method major minor header close).
Proof.
  unfold framed. cbv zeta. unfold readTransfer, read_transfer. cbn [andb].
  assert (exists ma mi, (if (major =? 0) && (minor =? 0) then (1, 1) else (major, minor)) = (ma, mi) /\ (ma =? 0) && (mi =? 0) = false /\
    modern ma mi = modern major minor) as (ma & mi & -> & H0 & <-).
  { destruct ((major =? 0) && (minor =? 0)) eqn:E; [|by exists major, minor]. exists 1, 1. split_and!; try done. unfold modern. by rewrite E, !orb_true_r. }
  pose proof (parseTransferEncoding_spec ma mi header H0) as HT. destruct (parseTransferEncoding ma mi header) as [[chunked h]|e].
  2:{ destruct HT as (-> & Hne & ->). cbn. by left. }
  destruct HT as (Hte & <- & Hno & Hyes & Hkeep). destruct chunked.
  - rewrite fixLength_chunked by (unfold values; by rewrite Hyes). pose proof (fixTrailer_spec h true) as HF.
    assert (announced_keys h = announced_keys header) as Ha by (unfold announced_keys, values; by rewrite Hkeep). rewrite Ha in HF.
    destruct (fixTrailer h true) as [[trailer h2]|e]; [|by destruct HF].
    destruct HF as (HF & Hall & -> & Htr). cbn [t_Header t_Close t_Chunked t_Body t_ContentLength t_Trailer]. rewrite !HF by done. by rewrite Hyes.
  - destruct (Hno eq_refl) as [Hcase Hcl]. pose proof (fixLength_request method h) as HL.
    assert (values h ContentLength = values header ContentLength) as Hv by (unfold values; by rewrite Hcl).
    destruct (fixLength false false 200 method h false) as [[n h2]|e]; rewrite Hv in HL; [|by right]. destruct HL as (Hd & Hn & Hl & Hk2).
    pose proof (fixTrailer_spec h2 false) as HF. destruct (fixTrailer h2 false) as [[trailer h3]|e]; [|by destruct HF]. cbn [t_Header t_Close t_Chunked t_Body t_ContentLength t_Trailer].
    destruct HF as (_ & -> & ->). unfold values in Hl |- *. rewrite !Hk2 by done. split_and!; try done; try lia; [|by rewrite ?Hk2, Hkeep by done]. destruct (n =? 0) eqn:E; [done|]. zbool. by rewrite (proj2 (Z.ltb_lt _ _)) by lia.
Qed.

(** ** Claims *)

(** [C12] Where a request body ends is never ambiguous.  An accepted request is chunked
    exactly when its one Transfer-Encoding header says so and its version is at least 1.1,
    and then it has no Content-Length left; otherwise its length is the decimal number
    below 2^63 that all its Content-Length headers agree on, or 0 without one, at most one
    of them is left, and the body is that many bytes.  No Transfer-Encoding is passed on.
    The trailer of a chunked request has the canonical keys that its Trailer headers list,
    without values, and the headers are removed; a request that is not chunked has no
    trailer and keeps them.  A request is refused exactly for a transfer encoding that is
    not understood, for lengths that disagree or are no such numbers where it is not
    chunked, or, where it is, for a listed trailer key that is Transfer-Encoding, Trailer or
    Content-Length. *)
Theorem body_framing (method : gostring) (major minor : Z) (header : gmap (list Z) (list (list Z))) (close : bool) :
  let te := header !! TransferEncoding in
  let chunked := modern major minor && one_chunked te in
  match readTransfer false method major minor header close with
  | Ok t =>
      t_Header t !! TransferEncoding = None /\ t_Close t = close /\ t_Chunked t = chunked /\
      if chunked then t_Body t = ChunkedBody /\ t_ContentLength t = -1 /\ t_Header t !! ContentLength = None /\
        Forall (fun k => ~ forbidden_key k) (announced_keys header) /\ t_Trailer t = announced_trailer (announced_keys header) /\
        t_Header t !! str "Trailer" = None
      else (te = None \/ modern major minor = false) /\ declared (values header ContentLength) = Some (t_ContentLength t) /\
        0 <= t_ContentLength t < 2 ^ 63 /\ len (values (t_Header t) ContentLength) <= 1 /\
        t_Body t = (if t_ContentLength t =? 0 then NoBody else LimitedBody (t_ContentLength t)) /\
        t_Trailer t = None /\ t_Header t !! str "Trailer" = header !! str "Trailer"
  | Err _ =>
      if chunked then Exists forbidden_key (announced_keys header)
      else (modern major minor = true /\ te <> None) \/ declared (values header ContentLength) = None
  end.
Proof. exact (readTransfer_framed method major minor header close). Qed.
