(* ===== verification/Pattern.v ===== *)
(** * net/http: request patterns

    [tools/go-patched/src/net/http/pattern.go]: the patterns a request multiplexer is
    given, their parsing, and the comparison by which a new pattern is checked against
    those already registered; [validMethod] of request.go and the token table of the
    vendored httpguts.  The theorems say what the comparison means: it is the relation
    between the sets of requests that two patterns match. *)

From S2P Require Import Prelude HostPort Utf8 Unicode UnicodeTables Strings Url UrlParse PathClean.
Local Open Scope go_scope.
Local Set Warnings "-clear-no-such-hyp".

Notation lbrace := 123 (only parsing).
Notation rbrace := 125 (only parsing).
Notation star := 42 (only parsing).

(** ** Patterns

    [loc], the place of the registering call, is only text for messages. *)
Record segment := mk_segment { seg_s : gostring; wild : bool; multi : bool }.

Record pattern := mk_pattern {
  pat_str : gostring;
  pat_method : gostring;
  pat_host : gostring;
  segments : list segment;
}.

#[export] Instance segment_eq_dec : EqDecision segment.
Proof. solve_decision. Defined.
#[export] Instance pattern_eq_dec : EqDecision pattern.
Proof. solve_decision. Defined.

Definition no_segment : segment := mk_segment [] false false.

(** The code indexes the last segment; a parsed pattern has one. *)
Definition lastSegment (p : pattern) : segment := List.last (segments p) no_segment.

(** ** Parsing *)

Definition isTokenTable : gostring :=
  str "!#$%&'*+-.0123456789ABCDEFGHIJKLMNOPQRSTUWVXYZ^_`abcdefghijklmnopqrstuvwxyz|~".
Definition IsTokenRune (r : Z) : bool := (r <? 127) && among r isTokenTable.
Definition isNotToken (r : Z) : bool := negb (IsTokenRune r).
Definition validMethod (method : gostring) : bool :=
  (0 <? len method) && (indexFunc method isNotToken true =? -1).

Fixpoint wildcard_loop (fuel : nat) (s : gostring) (first : bool) : bool :=
  match fuel, s with
  | S fuel, _ :: _ =>
      let '(c, size) := DecodeRuneInString s in
      if negb (IsLetter c) && negb (c =? 95) && (first || negb (IsDigit c)) then false
      else wildcard_loop fuel (drop (Z.to_nat size) s) false
  | _, _ => true
  end.

Definition isValidWildcardName (s : gostring) : bool :=
  if bool_decide (s = []) then false else wildcard_loop (length s) s true.

Definition pathUnescape (path : gostring) : gostring :=
  match PathUnescape path with Ok u => u | Err _ => path end.

Definition CutSuffix (s suffix : gostring) : gostring * bool :=
  if HasSuffix s suffix then (take (length s - length suffix) s, true) else (s, false).

(** The offset at which parsing stopped, unless the pattern is empty, and the error. *)
Notation pattern_result := (pattern + option Z * error)%type (only parsing).

(** The loop over the path of pattern [s], of which [rest] is left. *)
Fixpoint parse_segments (fuel : nat) (n : Z) (rest : gostring) (seen : list gostring) (segs : list segment)
    : list segment + Z * error :=
  match fuel, rest with
  | S fuel, _ :: rest =>
      let off := n - len rest in
      let bad msg := inr (off, OtherError msg) in
      if bool_decide (rest = []) then inl (segs ++ [mk_segment [] true true]) else
      let i := IndexByte rest slash in
      let i := if i <? 0 then len rest else i in
      let seg := take (Z.to_nat i) rest in
      let rest := drop (Z.to_nat i) rest in
      let i := IndexByte seg lbrace in
      if i <? 0 then parse_segments fuel n rest seen (segs ++ [mk_segment (pathUnescape seg) false false]) else
      if negb (i =? 0) then bad (str "bad wildcard segment (must start with '{')") else
      if negb (List.last seg 0 =? rbrace) then bad (str "bad wildcard segment (must end with '}')") else
      let name := cut seg 1 (len seg - 1) in
      if bool_decide (name = str "$") then
        if negb (bool_decide (rest = [])) then bad (str "{$} not at end")
        else inl (segs ++ [mk_segment (str "/") false false])
      else
      let '(name, m) := CutSuffix name (str "...") in
      if m && negb (bool_decide (rest = [])) then bad (str "{...} wildcard not at end") else
      if bool_decide (name = []) then bad (str "empty wildcard") else
      if negb (isValidWildcardName name) then inr (off, QuotedError [inl (str "bad wildcard name "); inr name]) else
      if bool_decide (name ∈ seen) then inr (off, QuotedError [inl (str "duplicate wildcard name "); inr name]) else
      parse_segments fuel n rest (name :: seen) (segs ++ [mk_segment name true m])
  | _, _ => inl segs
  end.

Definition parsePattern (s : gostring) : pattern_result :=
  if len s =? 0 then inr (None, OtherError (str "empty pattern")) else
  let '(method, rest, found) := Cut s (str " ") in
  let rest := if found then rest else method in
  let method := if found then method else [] in
  if negb (bool_decide (method = [])) && negb (validMethod method)
  then inr (Some 0, QuotedError [inl (str "invalid method "); inr method]) else
  let off := if found then len method + 1 else 0 in
  let i := IndexByte rest slash in
  if i <? 0 then inr (Some off, OtherError (str "host/path missing /")) else
  let host := take (Z.to_nat i) rest in
  let rest := drop (Z.to_nat i) rest in
  let j := IndexByte host lbrace in
  if 0 <=? j then inr (Some (off + j), OtherError (str "host contains '{' (missing initial '/'?)")) else
  let off := off + i in
  if negb (bool_decide (method = [])) && negb (bool_decide (method = str "CONNECT"))
     && negb (bool_decide (Some rest = cleanPath rest))
  then inr (Some off, OtherError (str "non-CONNECT pattern with unclean path can never match")) else
  match parse_segments (length rest) (len s) rest [] [] with
  | inl segs => inl (mk_pattern s method host segs)
  | inr (off, err) => inr (Some off, err)
  end.

(** ** Comparison *)

Inductive relationship := equivalent | moreGeneral | moreSpecific | disjoint_ | overlaps.

#[export] Instance relationship_eq_dec : EqDecision relationship.
Proof. solve_decision. Defined.

Definition inverseRelationship (r : relationship) : relationship :=
  match r with moreSpecific => moreGeneral | moreGeneral => moreSpecific | r => r end.

Definition combineRelationships (r1 r2 : relationship) : relationship :=
  match r1 with
  | equivalent => r2
  | disjoint_ => disjoint_
  | overlaps => if decide (r2 = disjoint_) then disjoint_ else overlaps
  | _ =>
      if decide (r2 = equivalent) then r1
      else if decide (r2 = inverseRelationship r1) then overlaps
      else r2
  end.

Definition compareMethods (p1 p2 : pattern) : relationship :=
  if decide (pat_method p1 = pat_method p2) then equivalent
  else if decide (pat_method p1 = []) then moreGeneral
  else if decide (pat_method p2 = []) then moreSpecific
  else if decide (pat_method p1 = str "GET" /\ pat_method p2 = str "HEAD") then moreGeneral
  else if decide (pat_method p2 = str "GET" /\ pat_method p1 = str "HEAD") then moreSpecific
  else disjoint_.

Definition compareSegments (s1 s2 : segment) : relationship :=
  if multi s1 && multi s2 then equivalent
  else if multi s1 then moreGeneral
  else if multi s2 then moreSpecific
  else if wild s1 && wild s2 then equivalent
  else if wild s1 then if decide (seg_s s2 = str "/") then disjoint_ else moreGeneral
  else if wild s2 then if decide (seg_s s1 = str "/") then disjoint_ else moreSpecific
  else if decide (seg_s s1 = seg_s s2) then equivalent
  else disjoint_.

(** The loop of comparePaths: the relation so far, and what is left of each path. *)
Fixpoint compare_loop (rel : relationship) (segs1 segs2 : list segment)
    : relationship + relationship * list segment * list segment :=
  match segs1, segs2 with
  | s1 :: segs1', s2 :: segs2' =>
      let rel := combineRelationships rel (compareSegments s1 s2) in
      if decide (rel = disjoint_) then inl rel else compare_loop rel segs1' segs2'
  | _, _ => inr (rel, segs1, segs2)
  end.

Definition comparePaths (p1 p2 : pattern) : relationship :=
  if negb (len (segments p1) =? len (segments p2)) && negb (multi (lastSegment p1)) && negb (multi (lastSegment p2))
  then disjoint_
  else
    match compare_loop equivalent (segments p1) (segments p2) with
    | inl rel => rel
    | inr (rel, segs1, segs2) =>
        if (len segs1 =? 0) && (len segs2 =? 0) then rel
        else if (len segs1 <? len segs2) && multi (lastSegment p1) then combineRelationships rel moreGeneral
        else if (len segs2 <? len segs1) && multi (lastSegment p2) then combineRelationships rel moreSpecific
        else disjoint_
    end.

Definition comparePathsAndMethods (p1 p2 : pattern) : relationship :=
  let mrel := compareMethods p1 p2 in
  if decide (mrel = disjoint_) then disjoint_ else combineRelationships mrel (comparePaths p1 p2).

Definition conflictsWith (p1 p2 : pattern) : bool :=
  if negb (bool_decide (pat_host p1 = pat_host p2)) then false
  else
    let rel := comparePathsAndMethods p1 p2 in
    bool_decide (rel = equivalent) || bool_decide (rel = overlaps).

(** ** Example paths for the messages about a conflict *)

Definition isLitOrSingle (seg : segment) : bool :=
  if wild seg then negb (multi seg) else negb (bool_decide (seg_s seg = str "/")).

Definition writeSegment (b : gostring) (s : segment) : gostring :=
  b ++ slash :: (if negb (multi s) && negb (bool_decide (seg_s s = str "/")) then seg_s s else []).
Definition writeMatchingPath (b : gostring) (segs : list segment) : gostring := fold_left writeSegment segs b.

Fixpoint common_loop (b : gostring) (segs1 segs2 : list segment) : gostring :=
  match segs1, segs2 with
  | s1 :: segs1, s2 :: segs2 => common_loop (writeSegment b (if wild s1 then s2 else s1)) segs1 segs2
  | _ :: _, [] => writeMatchingPath b segs1
  | [], _ => writeMatchingPath b segs2
  end.
Definition commonPath (p1 p2 : pattern) : gostring := common_loop [] (segments p1) (segments p2).

(** [None]: the panic "literals differ". *)
Fixpoint difference_loop (b : gostring) (segs1 segs2 : list segment) : option gostring :=
  match segs1, segs2 with
  | s1 :: segs1', s2 :: segs2' =>
      if multi s1 && multi s2 then Some (b ++ [slash])
      else if multi s1 then
        Some (b ++ slash ::
          (if bool_decide (seg_s s2 = str "/")
           then if bool_decide (seg_s s1 = []) then str "x" else seg_s s1 else []))
      else if multi s2 then difference_loop (writeSegment b s1) segs1' segs2'
      else if wild s1 && wild s2 then difference_loop (writeSegment b s1) segs1' segs2'
      else if wild s1 then
        if bool_decide (seg_s s1 = seg_s s2)
        then difference_loop (b ++ slash :: seg_s s2 ++ str "x") segs1' segs2'
        else difference_loop (writeSegment b s1) segs1' segs2'
      else if wild s2 then difference_loop (writeSegment b s1) segs1' segs2'
      else if bool_decide (seg_s s1 = seg_s s2) then difference_loop (writeSegment b s1) segs1' segs2'
      else None
  | _ :: _, [] => Some (writeMatchingPath b segs1)
  | [], _ => Some (writeMatchingPath b segs2)
  end.
Definition differencePath (p1 p2 : pattern) : option gostring := difference_loop [] (segments p1) (segments p2).

Definition pat (s : string) : pattern :=
  match parsePattern (str s) with inl p => p | inr _ => mk_pattern [] [] [] [] end.

Example pattern_examples :
  segments (pat "GET example.com/a%2Fb/{id}/{rest...}") =
    [mk_segment (str "a/b") false false; mk_segment (str "id") true false; mk_segment (str "rest") true true] /\
  parsePattern (str "/a/{x}b") = inr (Some 3, OtherError (str "bad wildcard segment (must end with '}')")) /\
  parsePattern (str "GET /a//b") =
    inr (Some 4, OtherError (str "non-CONNECT pattern with unclean path can never match")) /\
  comparePaths (pat "/a/{x}") (pat "/{y}/b") = overlaps /\
  commonPath (pat "/a/{x}") (pat "/{y}/b") = str "/a/b" /\
  differencePath (pat "/a/{x}") (pat "/{y}/b") = Some (str "/a/x") /\
  comparePathsAndMethods (pat "GET /") (pat "/index.html") = overlaps /\
  comparePaths (pat "/b/") (pat "/b/{x}") = moreGeneral.
Proof. split_and!; vm_compute; reflexivity. Qed.

(** ** What a pattern matches

    A request is its method and the segments of its path, unescaped; the last one is
    [/] when the path ends in a slash. *)

Definition smatch (s : segment) (x : gostring) : Prop :=
  if wild s then x <> str "/" else x = seg_s s.

Fixpoint pmatch (segs : list segment) (xs : list gostring) : Prop :=
  match segs, xs with
  | [], [] => True
  | s :: segs, x :: xs => if multi s then True else smatch s x /\ pmatch segs xs
  | _, _ => False
  end.

Definition mmatch (method m : gostring) : Prop :=
  method = [] \/ method = m \/ (method = str "GET" /\ m = str "HEAD").

Definition pattern_matches (p : pattern) (r : gostring * list gostring) : Prop :=
  mmatch (pat_method p) r.1 /\ pmatch (segments p) r.2.

(** The relation between two sets of requests that each answer stands for. *)
Definition related {A} (r : relationship) (P Q : A -> Prop) : Prop :=
  match r with
  | equivalent => forall x, P x <-> Q x
  | moreGeneral => (forall x, Q x -> P x) /\ exists x, P x /\ ~ Q x
  | moreSpecific => (forall x, P x -> Q x) /\ exists x, Q x /\ ~ P x
  | disjoint_ => forall x, ~ (P x /\ Q x)
  | overlaps => (exists x, P x /\ Q x) /\ (exists x, P x /\ ~ Q x) /\ (exists x, Q x /\ ~ P x)
  end.

(** A segment that is not multi is a wildcard only if so marked; multi is last. *)
Fixpoint wf_segs (segs : list segment) : Prop :=
  match segs with
  | [] => True
  | s :: segs => (multi s = true -> wild s = true /\ segs = []) /\ wf_segs segs
  end.

(** ** Products of sets *)

Lemma combine_assoc r1 r2 r3 :
  combineRelationships (combineRelationships r1 r2) r3 = combineRelationships r1 (combineRelationships r2 r3).
Proof. by destruct r1, r2, r3. Qed.

Lemma combine_disjoint r : combineRelationships r disjoint_ = disjoint_.
Proof. by destruct r. Qed.

Lemma related_flip {A} r (P Q : A -> Prop) : related r P Q -> related (inverseRelationship r) Q P.
Proof. destruct r; cbn; naive_solver. Qed.

Section Product.
Context {A B C : Type} (pair_ : A -> B -> C).
Hypothesis pair_inj : forall a b a' b', pair_ a b = pair_ a' b' -> a = a' /\ b = b'.

Definition prod_set (P : A -> Prop) (Q : B -> Prop) (c : C) : Prop := exists a b, c = pair_ a b /\ P a /\ Q b.

Lemma prod_in P Q a b : prod_set P Q (pair_ a b) <-> P a /\ Q b.
Proof using pair_inj.
  split; [|by eexists _, _]. intros (a' & b' & (-> & ->)%pair_inj & ? & ?). done.
Qed.

Lemma prod_incl (P1 P2 : A -> Prop) (Q1 Q2 : B -> Prop) :
  (forall a, P1 a -> P2 a) -> (forall b, Q1 b -> Q2 b) -> forall c, prod_set P1 Q1 c -> prod_set P2 Q2 c.
Proof. intros HP HQ c (a & b & -> & ? & ?). eexists _, _. eauto. Qed.

(** The sets of the two sides differ when one of their parts does. *)
Lemma prod_diff_l (P1 P2 : A -> Prop) (Q1 Q2 : B -> Prop) :
  (exists a, P1 a /\ ~ P2 a) -> (exists b, Q1 b) -> exists c, prod_set P1 Q1 c /\ ~ prod_set P2 Q2 c.
Proof using pair_inj.
  intros (a & ? & ?) (b & ?). exists (pair_ a b). rewrite !prod_in. naive_solver.
Qed.

Lemma prod_diff_r (P1 P2 : A -> Prop) (Q1 Q2 : B -> Prop) :
  (exists a, P1 a) -> (exists b, Q1 b /\ ~ Q2 b) -> exists c, prod_set P1 Q1 c /\ ~ prod_set P2 Q2 c.
Proof using pair_inj.
  intros (a & ?) (b & ? & ?). exists (pair_ a b). rewrite !prod_in. naive_solver.
Qed.

Lemma prod_both (P1 P2 : A -> Prop) (Q1 Q2 : B -> Prop) :
  (exists a, P1 a /\ P2 a) -> (exists b, Q1 b /\ Q2 b) -> exists c, prod_set P1 Q1 c /\ prod_set P2 Q2 c.
Proof using pair_inj.
  intros (a & ? & ?) (b & ? & ?). exists (pair_ a b). rewrite !prod_in. naive_solver.
Qed.

(** Both sides of a relation that is not disjointness have a common member. *)
Lemma related_both {T} r (P Q : T -> Prop) :
  related r P Q -> r <> disjoint_ -> (exists x, P x) -> (exists x, Q x) -> exists x, P x /\ Q x.
Proof. destruct r; cbn; naive_solver. Qed.

Lemma related_diff_l {T} r (P Q : T -> Prop) :
  related r P Q -> r = moreGeneral \/ r = overlaps -> exists x, P x /\ ~ Q x.
Proof. destruct r; cbn; naive_solver. Qed.

Lemma related_diff_r {T} r (P Q : T -> Prop) :
  related r P Q -> r = moreSpecific \/ r = overlaps -> exists x, Q x /\ ~ P x.
Proof. destruct r; cbn; naive_solver. Qed.

Lemma related_incl_l {T} r (P Q : T -> Prop) :
  related r P Q -> r = equivalent \/ r = moreSpecific -> forall x, P x -> Q x.
Proof. destruct r; cbn; naive_solver. Qed.

Lemma related_incl_r {T} r (P Q : T -> Prop) :
  related r P Q -> r = equivalent \/ r = moreGeneral -> forall x, Q x -> P x.
Proof. destruct r; cbn; naive_solver. Qed.

(** Combining relations is the relation of the products. *)
Lemma related_product r s (P1 P2 : A -> Prop) (Q1 Q2 : B -> Prop) :
  related r P1 P2 -> related s Q1 Q2 ->
  (exists a, P1 a) -> (exists a, P2 a) -> (exists b, Q1 b) -> (exists b, Q2 b) ->
  related (combineRelationships r s) (prod_set P1 Q1) (prod_set P2 Q2).
Proof using pair_inj.
  intros Hr Hs HP1 HP2 HQ1 HQ2.
  assert (r = disjoint_ \/ s = disjoint_ -> related disjoint_ (prod_set P1 Q1) (prod_set P2 Q2)) as Hdis.
  { intros Hd c [(a & b & -> & Ha & Hb) Hc]. apply prod_in in Hc as [Ha' Hb'].
    destruct Hd as [-> | ->]; [by apply (Hr a)|by apply (Hs b)]. }
  destruct (decide (r = disjoint_)) as [->|Hr']; [by apply Hdis; left|].
  destruct (decide (s = disjoint_)) as [->|Hs']; [rewrite combine_disjoint; by apply Hdis; right|].
  pose proof (related_both r P1 P2 Hr Hr' HP1 HP2) as Hb1. pose proof (related_both s Q1 Q2 Hs Hs' HQ1 HQ2) as Hb2.
  pose proof (related_diff_l r P1 P2 Hr). pose proof (related_diff_r r P1 P2 Hr).
  pose proof (related_diff_l s Q1 Q2 Hs). pose proof (related_diff_r s Q1 Q2 Hs).
  pose proof (related_incl_l r P1 P2 Hr). pose proof (related_incl_r r P1 P2 Hr).
  pose proof (related_incl_l s Q1 Q2 Hs). pose proof (related_incl_r s Q1 Q2 Hs).
  assert (forall x y : Prop, x -> y -> x /\ y) as conj' by auto.
  destruct r, s; try done; cbn [combineRelationships inverseRelationship decide];
    repeat match goal with |- context [decide ?P] => destruct (decide P); try done end; cbn [related];
    repeat apply conj'; try (intros c; split); try (apply prod_incl; by eauto);
    try (apply prod_diff_l; by eauto); try (apply prod_diff_r; by eauto); try (apply prod_both; by eauto).
Qed.
End Product.

(** ** Segments, paths and methods *)

Lemma app_x_ne (s : gostring) : s ++ str "x" <> s.
Proof. intros E. apply (f_equal length) in E. rewrite length_app in E. cbn in E. lia. Qed.

Lemma app_x_slash (s : gostring) : s ++ str "x" <> str "/".
Proof. destruct s as [|c [|d s]]; cbn; intros E; simplify_eq. Qed.

Lemma smatch_some s : exists x, smatch s x.
Proof. unfold smatch. destruct (wild s); [by exists []|by eexists]. Qed.

Lemma related_segments s1 s2 :
  multi s1 = false -> multi s2 = false -> related (compareSegments s1 s2) (smatch s1) (smatch s2).
Proof.
  intros H1 H2. unfold compareSegments. rewrite H1, H2. cbn [andb]. unfold smatch.
  destruct (wild s1) eqn:W1, (wild s2) eqn:W2; cbn [andb].
  - done.
  - destruct (decide (seg_s s2 = str "/")) as [E|E]; cbn [related]; [naive_solver|].
    split; [naive_solver|]. exists (seg_s s2 ++ str "x"). split; [apply app_x_slash|apply app_x_ne].
  - destruct (decide (seg_s s1 = str "/")) as [E|E]; cbn [related]; [naive_solver|].
    split; [naive_solver|]. exists (seg_s s1 ++ str "x"). split; [apply app_x_slash|apply app_x_ne].
  - destruct (decide (seg_s s1 = seg_s s2)) as [E|E]; cbn [related]; naive_solver.
Qed.

(** The comparison of paths, by recursion. *)
Fixpoint cp (segs1 segs2 : list segment) : relationship :=
  match segs1, segs2 with
  | [], [] => equivalent
  | s1 :: segs1, s2 :: segs2 =>
      if multi s1 || multi s2 then compareSegments s1 s2
      else combineRelationships (compareSegments s1 s2) (cp segs1 segs2)
  | _, _ => disjoint_
  end.

Definition last_multi (segs : list segment) : bool := multi (List.last segs no_segment).

(** What comparePaths does with the outcome of its loop. *)
Definition compare_finish (m1 m2 : bool) (out : relationship + relationship * list segment * list segment) : relationship :=
  match out with
  | inl rel => rel
  | inr (rel, segs1, segs2) =>
      if (len segs1 =? 0) && (len segs2 =? 0) then rel
      else if (len segs1 <? len segs2) && m1 then combineRelationships rel moreGeneral
      else if (len segs2 <? len segs1) && m2 then combineRelationships rel moreSpecific
      else disjoint_
  end.

Lemma len_pos {A} (x : A) l : 0 < len (x :: l).
Proof. rewrite len_cons. pose proof (len_nonneg l). lia. Qed.

Lemma last_multi_cons s segs : wf_segs (s :: segs) -> multi s = false -> last_multi (s :: segs) = last_multi segs.
Proof. intros _ Hs. unfold last_multi. destruct segs; [done|done]. Qed.

Lemma compare_loop_cp rel segs1 segs2 :
  wf_segs segs1 -> wf_segs segs2 -> rel <> disjoint_ ->
  compare_finish (last_multi segs1) (last_multi segs2) (compare_loop rel segs1 segs2)
  = combineRelationships rel (cp segs1 segs2).
Proof.
  revert rel segs2. induction segs1 as [|s1 segs1 IH]; intros rel segs2 Hw1 Hw2 Hrel.
  { destruct segs2 as [|s2 segs2]; cbn [compare_loop compare_finish cp].
    - by destruct rel.
    - pose proof (len_pos s2 segs2). rewrite (proj2 (Z.eqb_neq (len (s2 :: segs2)) 0)), andb_false_r by lia.
      cbn [last_multi List.last multi no_segment]. rewrite andb_false_r.
      rewrite (proj2 (Z.ltb_ge (len (s2 :: segs2)) _)) by (rewrite len_nil; lia). by rewrite combine_disjoint. }
  destruct segs2 as [|s2 segs2].
  { cbn [compare_loop compare_finish cp]. pose proof (len_pos s1 segs1).
    rewrite (proj2 (Z.eqb_neq (len (s1 :: segs1)) 0)) by lia. cbn [andb].
    rewrite (proj2 (Z.ltb_ge (len (s1 :: segs1)) _)) by (rewrite len_nil; lia).
    cbn [andb last_multi List.last multi no_segment]. by rewrite andb_false_r, combine_disjoint. }
  cbn [compare_loop cp]. pose proof Hw1 as [Hm1 Hw1']. pose proof Hw2 as [Hm2 Hw2'].
  destruct (multi s1 || multi s2) eqn:Hm.
  - assert (combineRelationships rel (compareSegments s1 s2) <> disjoint_ /\
      (multi s1 = true /\ multi s2 = true /\ compareSegments s1 s2 = equivalent \/
       multi s1 = true /\ multi s2 = false /\ compareSegments s1 s2 = moreGeneral \/
       multi s1 = false /\ multi s2 = true /\ compareSegments s1 s2 = moreSpecific)) as [Hnd Hcases].
    { unfold compareSegments. destruct (multi s1), (multi s2); try done; cbn [andb]; split;
        [by destruct rel|tauto|by destruct rel|tauto|by destruct rel|tauto]. }
    rewrite decide_False by done. destruct Hcases as [(E1 & E2 & ->)|[(E1 & E2 & ->)|(E1 & E2 & ->)]].
    + destruct (Hm1 E1) as [_ ->], (Hm2 E2) as [_ ->]. done.
    + destruct (Hm1 E1) as [_ ->]. destruct segs2 as [|t segs2]; [done|]. cbn [compare_loop compare_finish].
      pose proof (len_pos t segs2). rewrite len_nil, (proj2 (Z.eqb_neq (len (t :: segs2)) 0)) by lia. cbn [andb Z.eqb].
      rewrite (proj2 (Z.ltb_lt 0 _)) by lia. unfold last_multi. cbn [List.last]. rewrite E1. cbn [andb].
      rewrite combine_assoc. done.
    + destruct (Hm2 E2) as [_ ->]. destruct segs1 as [|t segs1]; [done|]. cbn [compare_loop compare_finish].
      pose proof (len_pos t segs1). change (@len segment []) with 0.
      assert ((len (t :: segs1) =? 0) = false) as -> by (apply Z.eqb_neq; lia).
      assert ((len (t :: segs1) <? 0) = false) as -> by (apply Z.ltb_ge; lia).
      assert ((0 <? len (t :: segs1)) = true) as -> by (apply Z.ltb_lt; lia).
      assert (last_multi [s2] = true) as -> by (unfold last_multi; cbn; by rewrite E2).
      cbn [andb]. rewrite combine_assoc. done.
  - apply orb_false_iff in Hm as [E1 E2]. rewrite !last_multi_cons by done.
    destruct (decide (combineRelationships rel (compareSegments s1 s2) = disjoint_)) as [Ed|Ed].
    + cbn [compare_finish]. by rewrite <- combine_assoc, Ed.
    + by rewrite IH, combine_assoc.
Qed.

Lemma cp_lengths segs1 segs2 :
  wf_segs segs1 -> wf_segs segs2 -> last_multi segs1 = false -> last_multi segs2 = false -> len segs1 <> len segs2 ->
  cp segs1 segs2 = disjoint_.
Proof.
  revert segs2. induction segs1 as [|s1 segs1 IH]; intros segs2 Hw1' Hw2 Hl1 Hl2 Hne; [by destruct segs2|].
  destruct segs2 as [|s2 segs2]; [done|]. pose proof Hw1' as [Hm1 Hw1]. pose proof Hw2 as Hw2'. destruct Hw2 as [Hm2 Hw2]. cbn [cp].
  assert (multi s1 = false) as E1.
  { destruct (multi s1) eqn:E; [|done]. destruct (Hm1 eq_refl) as [_ ->]. unfold last_multi in Hl1. cbn in Hl1. congruence. }
  assert (multi s2 = false) as E2.
  { destruct (multi s2) eqn:E; [|done]. destruct (Hm2 eq_refl) as [_ ->]. unfold last_multi in Hl2. cbn in Hl2. congruence. }
  rewrite E1, E2. cbn [orb]. rewrite !last_multi_cons in * by done. rewrite !len_cons in Hne.
  rewrite IH by (try done; lia). apply combine_disjoint.
Qed.

Lemma comparePaths_cp p1 p2 :
  wf_segs (segments p1) -> wf_segs (segments p2) -> comparePaths p1 p2 = cp (segments p1) (segments p2).
Proof.
  intros H1 H2. unfold comparePaths, lastSegment.
  change (multi (List.last (segments p1) no_segment)) with (last_multi (segments p1)).
  change (multi (List.last (segments p2) no_segment)) with (last_multi (segments p2)).
  destruct (negb (len (segments p1) =? len (segments p2)) && negb (last_multi (segments p1)) && negb (last_multi (segments p2))) eqn:E.
  - rewrite !andb_true_iff, !negb_true_iff, Z.eqb_neq in E. destruct E as [[? ?] ?]. by rewrite cp_lengths.
  - change (compare_finish (last_multi (segments p1)) (last_multi (segments p2))
      (compare_loop equivalent (segments p1) (segments p2)) = cp (segments p1) (segments p2)).
    by rewrite compare_loop_cp.
Qed.

Lemma pmatch_some segs : exists xs, pmatch segs xs.
Proof.
  induction segs as [|s segs [xs IH]]; [by exists []|]. destruct (smatch_some s) as [x Hx].
  exists (x :: xs). cbn. by destruct (multi s).
Qed.

Lemma related_ext {A} r (P P' Q Q' : A -> Prop) :
  (forall x, P x <-> P' x) -> (forall x, Q x <-> Q' x) -> related r P Q -> related r P' Q'.
Proof. intros HP HQ. destruct r; cbn; setoid_rewrite HP; setoid_rewrite HQ; done. Qed.

(** A multi matches any rest, and more than a segment that is not multi. *)
Lemma multi_general s1 s2 segs :
  multi s1 = true -> multi s2 = false -> related moreGeneral (pmatch [s1]) (pmatch (s2 :: segs)).
Proof.
  intros E1 E2. split.
  - intros [|x xs]; cbn; [done|]. by rewrite E1.
  - destruct (wild s2) eqn:Hw.
    + exists [str "/"]. cbn. rewrite E1, E2. split; [done|]. unfold smatch. rewrite Hw. naive_solver.
    + exists [seg_s s2 ++ str "x"]. cbn. rewrite E1, E2. split; [done|]. unfold smatch. rewrite Hw.
      intros [H _]. by eapply app_x_ne.
Qed.

Lemma related_cp segs1 segs2 :
  wf_segs segs1 -> wf_segs segs2 -> related (cp segs1 segs2) (pmatch segs1) (pmatch segs2).
Proof.
  revert segs2. induction segs1 as [|s1 segs1 IH]; intros segs2 Hw1 Hw2.
  { destruct segs2; cbn [cp related]; [done|]. intros [|x xs]; cbn; naive_solver. }
  destruct segs2 as [|s2 segs2]; [cbn [cp related]; intros [|x xs]; cbn; naive_solver|].
  destruct Hw1 as [Hm1 Hw1], Hw2 as [Hm2 Hw2]. cbn [cp].
  destruct (multi s1) eqn:E1, (multi s2) eqn:E2; cbn [orb].
  - destruct (Hm1 eq_refl) as [_ ->], (Hm2 eq_refl) as [_ ->]. unfold compareSegments. rewrite E1, E2. cbn [andb related].
    intros [|x xs]; cbn; [done|]. by rewrite E1, E2.
  - destruct (Hm1 eq_refl) as [_ ->]. unfold compareSegments. rewrite E1, E2. cbn [andb]. by apply multi_general.
  - destruct (Hm2 eq_refl) as [_ ->]. unfold compareSegments. rewrite E1, E2. cbn [andb].
    apply (related_flip moreGeneral). by apply multi_general.
  - eapply related_ext; [| |apply (related_product cons)].
    + intros l. instantiate (1 := pmatch segs1). instantiate (1 := smatch s1). cbn [pmatch]. destruct l as [|x xs].
      * split; [by intros (? & ? & ? & _)|done].
      * rewrite E1. split; [intros (? & ? & ? & ? & ?); by simplify_eq|]. intros [? ?]. by eexists _, _.
    + intros l. instantiate (1 := pmatch segs2). instantiate (1 := smatch s2). cbn [pmatch]. destruct l as [|x xs].
      * split; [by intros (? & ? & ? & _)|done].
      * rewrite E2. split; [intros (? & ? & ? & ? & ?); by simplify_eq|]. intros [? ?]. by eexists _, _.
    + intros; by simplify_eq.
    + by apply related_segments.
    + by apply IH.
    + apply smatch_some.
    + apply smatch_some.
    + apply pmatch_some.
    + apply pmatch_some.
Qed.

Lemma mmatch_some method : exists m, mmatch method m.
Proof. exists method. unfold mmatch. auto. Qed.

Lemma mmatch_not method : method <> [] -> ~ mmatch method (method ++ str "x").
Proof.
  intros Hne [H|[H|[-> H]]]; [done| |done]. by apply (app_x_ne method).
Qed.

Lemma related_methods p1 p2 :
  related (compareMethods p1 p2) (mmatch (pat_method p1)) (mmatch (pat_method p2)).
Proof.
  unfold compareMethods. destruct (decide (pat_method p1 = pat_method p2)) as [->|Hne]; [done|].
  destruct (decide (pat_method p1 = [])) as [E1|E1].
  { rewrite E1 in *. split; [intros ? _; by left|]. eexists. split; [by left|apply mmatch_not; congruence]. }
  destruct (decide (pat_method p2 = [])) as [E2|E2].
  { rewrite E2 in *. split; [intros ? _; by left|]. eexists. split; [by left|apply mmatch_not; congruence]. }
  destruct (decide _) as [[-> ->]|H1].
  { split; [unfold mmatch; naive_solver|]. exists (str "GET"). unfold mmatch. naive_solver. }
  destruct (decide _) as [[-> ->]|H2].
  { split; [unfold mmatch; naive_solver|]. exists (str "GET"). unfold mmatch. naive_solver. }
  intros m [[H|[H|[H H']]] [G|[G|[G G']]]]; try congruence; [apply H2|apply H1]; split; congruence.
Qed.

Lemma related_patterns p1 p2 :
  wf_segs (segments p1) -> wf_segs (segments p2) ->
  related (comparePathsAndMethods p1 p2) (pattern_matches p1) (pattern_matches p2).
Proof.
  intros H1 H2. unfold comparePathsAndMethods. rewrite comparePaths_cp by done.
  assert (related (combineRelationships (compareMethods p1 p2) (cp (segments p1) (segments p2)))
    (pattern_matches p1) (pattern_matches p2)) as H.
  { eapply related_ext; [| |apply (related_product pair)].
    - intros [m xs]. instantiate (1 := pmatch (segments p1)). instantiate (1 := mmatch (pat_method p1)).
      rewrite prod_in by (intros; by simplify_eq). done.
    - intros [m xs]. instantiate (1 := pmatch (segments p2)). instantiate (1 := mmatch (pat_method p2)).
      rewrite prod_in by (intros; by simplify_eq). done.
    - intros; by simplify_eq.
    - apply related_methods.
    - by apply related_cp.
    - apply mmatch_some.
    - apply mmatch_some.
    - apply pmatch_some.
    - apply pmatch_some. }
  destruct (decide _) as [E|E]; [|done]. by rewrite E in H.
Qed.

(** ** What parsing guarantees *)

Lemma wf_segs_app segs segs' : Forall (fun s => multi s = false) segs -> wf_segs segs' -> wf_segs (segs ++ segs').
Proof. induction 1 as [|s segs Hs _ IH]; [done|]. intros Hw. cbn. split; [congruence|auto]. Qed.

Lemma Forall_snoc {A} (P : A -> Prop) l x : Forall P l -> P x -> Forall P (l ++ [x]).
Proof. intros. apply Forall_app. split; [done|]. by apply Forall_singleton. Qed.

(** A multi segment ends the path; each round consumes bytes. *)
Lemma parse_segments_wf fuel n rest seen segs out :
  parse_segments fuel n rest seen segs = inl out -> Forall (fun s => multi s = false) segs ->
  wf_segs out /\ (length segs <= length out)%nat /\ (rest <> [] -> fuel <> 0%nat -> length segs < length out)%nat.
Proof.
  revert rest seen segs. induction fuel as [|fuel IH]; intros rest seen segs Hp Hs.
  { cbn in Hp. simplify_eq. split; [rewrite <- (app_nil_r out); by apply wf_segs_app|]. split; [lia|done]. }
  destruct rest as [|c rest]; cbn [parse_segments] in Hp.
  { simplify_eq. split; [rewrite <- (app_nil_r out); by apply wf_segs_app|]. split; [lia|done]. }
  cbv zeta in Hp. destruct (bool_decide (rest = [])).
  { simplify_eq. rewrite length_app. cbn. split; [by apply wf_segs_app|]. split; lia. }
  set (i := if IndexByte rest slash <? 0 then len rest else IndexByte rest slash) in Hp. set (seg := take (Z.to_nat i) rest) in Hp.
  assert (forall rest' seen' s, parse_segments fuel n rest' seen' (segs ++ [s]) = inl out -> multi s = false ->
    wf_segs out /\ (length segs <= length out)%nat /\ (c :: rest <> [] -> S fuel <> 0%nat -> length segs < length out)%nat) as Hnext.
  { intros rest' seen' s Hr Hm. destruct (IH _ _ _ Hr) as (Hw & Hl & _); [by apply Forall_snoc|].
    rewrite length_app in Hl. cbn in Hl. split; [done|]. split; lia. }
  destruct (IndexByte seg lbrace <? 0); [by eapply Hnext|].
  destruct (negb (IndexByte seg lbrace =? 0)); [done|]. destruct (negb (List.last seg 0 =? rbrace)); [done|].
  destruct (bool_decide (cut seg 1 (len seg - 1) = str "$")).
  { destruct (negb _); [done|]. simplify_eq. rewrite length_app. cbn. split; [by apply wf_segs_app|]. split; lia. }
  destruct (CutSuffix (cut seg 1 (len seg - 1)) (str "...")) as [name m].
  destruct (m && negb (bool_decide (drop (Z.to_nat i) rest = []))) eqn:Hm; [done|].
  destruct (bool_decide (name = [])); [done|]. destruct (negb (isValidWildcardName name)); [done|].
  destruct (bool_decide (name ∈ seen)); [done|]. destruct m; [|by eapply Hnext].
  cbn [andb] in Hm. apply negb_false_iff, bool_decide_eq_true in Hm. rewrite Hm in Hp.
  assert (out = segs ++ [mk_segment name true true]) as -> by (destruct fuel; cbn in Hp; by simplify_eq).
  rewrite length_app. cbn. split; [by apply wf_segs_app|]. split; lia.
Qed.

Lemma parsePattern_wf s p : parsePattern s = inl p -> wf_segs (segments p) /\ segments p <> [].
Proof.
  unfold parsePattern. destruct (len s =? 0); [done|]. destruct (Cut s (str " ")) as [[method rest] found].
  cbv zeta. destruct (negb (bool_decide ((if found then method else []) = [])) && _); [done|].
  set (r := if found then rest else method). destruct (IndexByte_first r slash) as [[-> _]|(i & Hi & Hm & _)]; [done|].
  destruct (IndexByte r slash <? 0); [done|]. destruct (0 <=? _); [done|]. destruct (_ && _ && _); [done|].
  set (path := drop _ r). destruct (parse_segments (length path) (len s) path [] []) as [segs|[off e]] eqn:Hp; [|done].
  intros H. simplify_eq. cbn [segments]. destruct (parse_segments_wf _ _ _ _ _ _ Hp ltac:(constructor)) as (Hw & _ & Hne).
  split; [done|]. assert (path <> []) as Hpath.
  { subst path. rewrite Hi, Nat2Z.id. intros E. unfold match_at in Hm. rewrite E in Hm. done. }
  intros ->. specialize (Hne Hpath). destruct path; [done|]. cbn in Hne. lia.
Qed.

Definition names_ok (segs : list segment) : Prop := Forall (fun s => wild s = true -> seg_s s <> str "/") segs.

Lemma parse_segments_names fuel n rest seen segs out :
  parse_segments fuel n rest seen segs = inl out -> names_ok segs -> names_ok out.
Proof.
  revert rest seen segs. induction fuel as [|fuel IH]; intros rest seen segs Hp Hs; [by cbn in Hp; simplify_eq|].
  destruct rest as [|c rest]; cbn [parse_segments] in Hp; [by simplify_eq|]. cbv zeta in Hp.
  destruct (bool_decide (rest = [])); [simplify_eq; by apply Forall_snoc|].
  set (i := if IndexByte rest slash <? 0 then len rest else IndexByte rest slash) in Hp. set (seg := take (Z.to_nat i) rest) in Hp.
  destruct (IndexByte seg lbrace <? 0); [eapply IH; [exact Hp|]; by apply Forall_snoc|].
  destruct (negb (IndexByte seg lbrace =? 0)); [done|]. destruct (negb (List.last seg 0 =? rbrace)); [done|].
  destruct (bool_decide (cut seg 1 (len seg - 1) = str "$")).
  { destruct (negb _); [done|]. simplify_eq. by apply Forall_snoc. }
  destruct (CutSuffix (cut seg 1 (len seg - 1)) (str "...")) as [name m].
  destruct (m && negb (bool_decide (drop (Z.to_nat i) rest = []))); [done|].
  destruct (bool_decide (name = [])); [done|]. destruct (isValidWildcardName name) eqn:Hv; [|done].
  cbn [negb] in Hp. destruct (bool_decide (name ∈ seen)); [done|]. eapply IH; [exact Hp|]. apply Forall_snoc; [done|].
  cbn. intros _ ->. by vm_compute in Hv.
Qed.

Lemma parsePattern_names s p : parsePattern s = inl p -> names_ok (segments p).
Proof.
  unfold parsePattern. destruct (len s =? 0); [done|]. destruct (Cut s (str " ")) as [[method rest] found]. cbv zeta.
  destruct (negb (bool_decide ((if found then method else []) = [])) && _); [done|].
  destruct (IndexByte _ slash <? 0); [done|]. destruct (0 <=? _); [done|]. destruct (_ && _ && _); [done|].
  destruct (parse_segments _ _ _ [] []) as [segs|[off e]] eqn:Hp; [|done].
  intros H. simplify_eq. eapply parse_segments_names; [exact Hp|constructor].
Qed.

(** When two patterns conflict. *)
Lemma conflicts_iff p1 p2 :
  wf_segs (segments p1) -> wf_segs (segments p2) ->
  conflictsWith p1 p2 = true <->
  pat_host p1 = pat_host p2 /\ (exists r, pattern_matches p1 r /\ pattern_matches p2 r) /\
  ((forall r, pattern_matches p1 r <-> pattern_matches p2 r) \/
   (exists r, pattern_matches p1 r /\ ~ pattern_matches p2 r) /\
   (exists r, pattern_matches p2 r /\ ~ pattern_matches p1 r)).
Proof.
  intros H1 H2. pose proof (related_patterns p1 p2 H1 H2) as Hr.
  assert (exists r, pattern_matches p1 r) as [r0 Hr0].
  { destruct (mmatch_some (pat_method p1)) as [m Hm], (pmatch_some (segments p1)) as [xs Hxs]. by exists (m, xs). }
  unfold conflictsWith. destruct (bool_decide_reflect (pat_host p1 = pat_host p2)) as [E|E]; cbn [negb]; [|by split; [|intros [? _]]].
  rewrite orb_true_iff, !bool_decide_eq_true. revert Hr Hr0.
  generalize (pattern_matches p1) (pattern_matches p2). clear - E. intros P Q Hr Hr0. split.
  - intros Hc. split; [done|]. destruct Hc as [Hc|Hc]; rewrite Hc in Hr; cbn [related] in Hr.
    + split; [exists r0; by rewrite <- Hr|by left].
    + destruct Hr as (? & ? & ?). split; [done|by right].
  - intros (_ & (r & ? & ?) & Hs). destruct (comparePathsAndMethods p1 p2); cbn [related] in Hr; auto; exfalso.
    + destruct Hr as [Hr (x & ? & Hx)]. destruct Hs as [Hs|(_ & y & ? & Hy)]; [by apply Hx, Hs|auto].
    + destruct Hr as [Hr (x & ? & Hx)]. destruct Hs as [Hs|((y & ? & Hy) & _)]; [by apply Hx, Hs|auto].
    + by apply (Hr r).
Qed.

Lemma conflicts_sym p1 p2 :
  wf_segs (segments p1) -> wf_segs (segments p2) -> conflictsWith p1 p2 = conflictsWith p2 p1.
Proof.
  intros H1 H2. apply Bool.eq_iff_eq_true. rewrite !conflicts_iff by done.
  split; intros (? & (r & ? & ?) & [Hs|[? ?]]); (split; [done|]); (split; [by exists r|]);
    [left; intros x; symmetry; apply Hs|by right|left; intros x; symmetry; apply Hs|by right].
Qed.

(** [C22] The comparison of request patterns is exact.  For patterns that parse, the answer
    of [comparePathsAndMethods] is the relation between the sets of requests that they
    match: equivalent for the same requests, moreGeneral and moreSpecific for a strict
    inclusion, disjoint for no request in common, overlaps for a request in common and
    one more on each side.  Two patterns conflict exactly when they have the same host,
    match a request in common and neither matches strictly more than the other. *)
Theorem compare_exact s1 s2 p1 p2 :
  parsePattern s1 = inl p1 -> parsePattern s2 = inl p2 ->
  related (comparePathsAndMethods p1 p2) (pattern_matches p1) (pattern_matches p2) /\
  (conflictsWith p1 p2 = true <->
   pat_host p1 = pat_host p2 /\ (exists r, pattern_matches p1 r /\ pattern_matches p2 r) /\
   ((forall r, pattern_matches p1 r <-> pattern_matches p2 r) \/
    (exists r, pattern_matches p1 r /\ ~ pattern_matches p2 r) /\
    (exists r, pattern_matches p2 r /\ ~ pattern_matches p1 r))).
Proof.
  intros [H1 _]%parsePattern_wf [H2 _]%parsePattern_wf. split; [by apply related_patterns|by apply conflicts_iff].
Qed.

Lemma compare_exact_witness :
  let p1 := pat "GET /" in let p2 := pat "/index.html" in
  conflictsWith p1 p2 = true /\ (exists r, pattern_matches p1 r /\ pattern_matches p2 r).
Proof.
  destruct (compare_exact (str "GET /") (str "/index.html") (pat "GET /") (pat "/index.html")) as [_ H].
  - vm_compute. reflexivity.
  - vm_compute. reflexivity.
  - assert (conflictsWith (pat "GET /") (pat "/index.html") = true) as Hc by (vm_compute; reflexivity).
    split; [exact Hc|]. exact (proj1 (proj2 (proj1 H Hc))).
Defined.
