(* ===== verification/Routing.v ===== *)
(** * net/http: the routing tree and the index of patterns

    [tools/go-patched/src/net/http/mapping.go], [routing_tree.go] and
    [routing_index.go]: the map that is a slice while it is small, the decision tree in
    which a request is looked up, and the index that finds the registered patterns a new
    one could conflict with. *)

From S2P Require Import Prelude HostPort Strings Url UrlParse Pattern.
Local Open Scope go_scope.
Local Set Warnings "-clear-no-such-hyp,-register-all".

(** ** mapping *)

Record mapping (K V : Type) `{Countable K} := mk_mapping {
  map_s : list (K * V);
  map_m : option (gmap K V);
}.
Arguments mk_mapping {K V _ _}.
Arguments map_s {K V _ _}.
Arguments map_m {K V _ _}.

Section Mapping.
Context {K V : Type} `{Countable K}.
Implicit Types h : mapping K V.

Definition maxSlice : Z := 8.

Definition empty_mapping : mapping K V := mk_mapping [] None.

Definition mapping_add h (k : K) (v : V) : mapping K V :=
  match map_m h with
  | None =>
      if len (map_s h) <? maxSlice then mk_mapping (map_s h ++ [(k, v)]) None
      else mk_mapping [] (Some (<[k := v]> (fold_left (fun m e => <[e.1 := e.2]> m) (map_s h) ∅)))
  | Some m => mk_mapping (map_s h) (Some (<[k := v]> m))
  end.

Fixpoint find_slice (l : list (K * V)) (k : K) : option V :=
  match l with
  | [] => None
  | (k', v) :: l => if decide (k' = k) then Some v else find_slice l k
  end.

Definition mapping_find h (k : K) : option V :=
  match map_m h with Some m => m !! k | None => find_slice (map_s h) k end.

(** The pairs that [eachPair] visits; the order of a map is not specified. *)
Definition mapping_pairs h : list (K * V) :=
  match map_m h with Some m => map_to_list m | None => map_s h end.

(** A value that is a pointer changes in place. *)
Definition mapping_set h (k : K) (v : V) : mapping K V :=
  match map_m h with
  | Some m => mk_mapping (map_s h) (Some (<[k := v]> m))
  | None => mk_mapping (map (fun e => if decide (e.1 = k) then (k, v) else e) (map_s h)) None
  end.

(** No key twice. *)
Definition mapping_wf h : Prop := NoDup (map_s h).*1.

Lemma find_slice_None l k : find_slice l k = None <-> k ∉ l.*1.
Proof.
  induction l as [|[k' v] l IH]; cbn [find_slice fmap list_fmap fst]; [split; [by intros _ ?%elem_of_nil|done]|].
  rewrite not_elem_of_cons. destruct (decide (k' = k)); naive_solver.
Qed.

Lemma find_slice_snoc l k v k' :
  find_slice (l ++ [(k, v)]) k' = match find_slice l k' with Some x => Some x | None => if decide (k = k') then Some v else None end.
Proof. induction l as [|[k0 v0] l IH]; cbn [app find_slice]; [done|]. by destruct (decide (k0 = k')). Qed.

Lemma fold_insert_lookup l (m : gmap K V) k :
  NoDup l.*1 ->
  fold_left (fun m e => <[e.1 := e.2]> m) l m !! k = match find_slice l k with Some v => Some v | None => m !! k end.
Proof.
  revert m. induction l as [|[k0 v0] l IH]; intros m Hnd; cbn [fold_left find_slice]; [done|].
  apply NoDup_cons in Hnd as [Hk Hnd]. rewrite IH by done. cbn [fst snd]. destruct (decide (k0 = k)) as [->|Hne].
  - cbn in Hk. apply find_slice_None in Hk as ->. by rewrite lookup_insert_eq.
  - by rewrite lookup_insert_ne.
Qed.

(** Adding a key that is not there. *)
Lemma mapping_find_add h k v k' :
  mapping_wf h -> mapping_find h k = None ->
  mapping_find (mapping_add h k v) k' = (if decide (k = k') then Some v else mapping_find h k').
Proof.
  intros Hw. unfold mapping_find, mapping_add. destruct (map_m h) as [m|] eqn:Em; cbn.
  - intros _. destruct (decide (k = k')) as [->|]; [by rewrite lookup_insert_eq|by rewrite lookup_insert_ne].
  - intros Hn. destruct (len (map_s h) <? maxSlice); cbn.
    + rewrite find_slice_snoc. destruct (decide (k = k')) as [->|]; [by rewrite Hn|by destruct (find_slice (map_s h) k')].
    + destruct (decide (k = k')) as [->|]; [by rewrite lookup_insert_eq|]. rewrite lookup_insert_ne by done.
      rewrite fold_insert_lookup by done. rewrite lookup_empty. by destruct (find_slice (map_s h) k').
Qed.

Lemma mapping_add_wf h k v : mapping_wf h -> mapping_find h k = None -> mapping_wf (mapping_add h k v).
Proof.
  unfold mapping_wf, mapping_find, mapping_add. intros Hw. destruct (map_m h); [done|]. intros Hn%find_slice_None.
  destruct (_ <? _); cbn; [|constructor]. rewrite fmap_app. apply NoDup_app. split; [done|].
  split; [|cbn; apply NoDup_singleton]. intros x Hx Hk. cbn in Hk. apply list_elem_of_singleton in Hk as ->. done.
Qed.

Lemma mapping_find_set h k v k' :
  is_Some (mapping_find h k) ->
  mapping_find (mapping_set h k v) k' = (if decide (k = k') then Some v else mapping_find h k').
Proof.
  unfold mapping_find, mapping_set. destruct (map_m h) as [m|]; cbn.
  - intros _. destruct (decide (k = k')) as [->|]; [by rewrite lookup_insert_eq|by rewrite lookup_insert_ne].
  - induction (map_s h) as [|[k0 v0] l IH]; cbn [find_slice map]; [by intros [? ?]|]. cbn [fst].
    destruct (decide (k0 = k)) as [->|Hne]; cbn [find_slice].
    + intros _. destruct (decide (k = k')) as [->|Hk]; [done|].
      clear IH. induction l as [|[k1 v1] l IH]; [done|]. cbn [map find_slice fst].
      destruct (decide (k1 = k)) as [->|]; cbn [find_slice]; [by rewrite !decide_False, IH by done|].
      by destruct (decide (k1 = k')).
    + intros Hs. specialize (IH Hs). destruct (decide (k0 = k')) as [->|]; [by rewrite decide_False|done].
Qed.

Lemma mapping_set_wf h k v : mapping_wf h -> mapping_wf (mapping_set h k v).
Proof.
  unfold mapping_wf, mapping_set. destruct (map_m h); [done|]. cbn. intros Hw.
  replace (map _ (map_s h)).*1 with (map_s h).*1; [done|]. clear Hw. induction (map_s h) as [|[k0 v0] l IH]; [done|].
  cbn. rewrite <- IH. by destruct (decide (k0 = k)) as [->|].
Qed.
End Mapping.
Arguments empty_mapping {K V _ _}.

Lemma mapping_pairs_find `{Countable K} {V} (h : mapping K V) k v :
  mapping_wf h -> (k, v) ∈ mapping_pairs h <-> mapping_find h k = Some v.
Proof.
  unfold mapping_wf, mapping_pairs, mapping_find. destruct (map_m h) as [m|]; [intros _; apply elem_of_map_to_list|].
  induction (map_s h) as [|[k0 v0] l IH]; cbn [find_slice]; [intros _; rewrite elem_of_nil; naive_solver|].
  intros [Hk Hnd]%NoDup_cons. rewrite elem_of_cons, IH by done. destruct (decide (k0 = k)) as [->|Hne]; [|naive_solver].
  split; [|intros [= ->]; by left]. intros [[= ->]|Hf]; [done|]. apply find_slice_None in Hk. cbn in Hk. congruence.
Qed.

(** ** The tree *)

Section Tree.
Context {H : Type}.

(** [pattern] and [handler] are set together. *)
Inductive routingNode : Type := Node {
  leaf : option (pattern * H);
  children : mapping (list Z) routingNode;
  emptyChild : option routingNode;
}.

Definition new_node : routingNode := Node None empty_mapping None.

Definition findChild (n : routingNode) (key : gostring) : option routingNode :=
  if bool_decide (key = []) then emptyChild n else mapping_find (children n) key.

(** The child for the key, and the node with that child. *)
Definition addChild (n : routingNode) (key : gostring) : routingNode * routingNode :=
  if bool_decide (key = []) then
    match emptyChild n with
    | Some c => (c, n)
    | None => (new_node, Node (leaf n) (children n) (Some new_node))
    end
  else
    match findChild n key with
    | Some c => (c, n)
    | None => (new_node, Node (leaf n) (mapping_add (children n) key new_node) (emptyChild n))
    end.

(** The child for the key has changed. *)
Definition set_child (n : routingNode) (key : gostring) (c : routingNode) : routingNode :=
  if bool_decide (key = []) then Node (leaf n) (children n) (Some c)
  else Node (leaf n) (mapping_set (children n) key c) (emptyChild n).

(** [None]: the panic "non-nil leaf fields". *)
Definition node_set (n : routingNode) (p : pattern) (h : H) : option routingNode :=
  match leaf n with
  | Some _ => None
  | None => Some (Node (Some (p, h)) (children n) (emptyChild n))
  end.

(** [n.addChild(key)], with what is done to the child. *)
Definition with_child (n : routingNode) (key : gostring) (f : routingNode -> option routingNode) : option routingNode :=
  let '(c, n) := addChild n key in
  c ← f c; Some (set_child n key c).

Fixpoint addSegments (n : routingNode) (segs : list segment) (p : pattern) (h : H) : option routingNode :=
  match segs with
  | [] => node_set n p h
  | seg :: segs =>
      if multi seg then
        if negb (bool_decide (segs = [])) then None (* panic "multi wildcard not last" *)
        else with_child n [star] (fun c => node_set c p h)
      else if wild seg then with_child n [] (fun c => addSegments c segs p h)
      else with_child n (seg_s seg) (fun c => addSegments c segs p h)
  end.

Definition addPattern (root : routingNode) (p : pattern) (h : H) : option routingNode :=
  with_child root (pat_host p) (fun n => with_child n (pat_method p) (fun n => addSegments n (segments p) p h)).

(** *** Lookup *)

Definition firstSegment (path : gostring) : gostring * gostring :=
  if bool_decide (path = [slash]) then ([slash], [])
  else
    let path := drop 1 path in
    let i := IndexByte path slash in
    let i := if i <? 0 then len path else i in
    (pathUnescape (take (Z.to_nat i) path), drop (Z.to_nat i) path).

(** A leaf found, with the values of the wildcards.  The outer [None] is a panic: the
    node of a multi wildcard that has no pattern. *)
Notation found := (option (option (pattern * H * list (list Z)))) (only parsing).

Definition multi_child (n : routingNode) (path : gostring) (matches : list gostring) : found :=
  match findChild n [star] with
  | None => Some None
  | Some c =>
      '(p, h) ← leaf c;
      Some (Some (p, h, if negb (bool_decide (seg_s (lastSegment p) = []))
                        then matches ++ [pathUnescape (drop 1 path)] else matches))
  end.

(** The fuel is the length of the path, of which each round consumes a byte. *)
Fixpoint matchPath (fuel : nat) (n : option routingNode) (path : gostring) (matches : list gostring) : found :=
  match n with
  | None => Some None
  | Some n =>
      match path, fuel with
      | [], _ => Some ('(p, h) ← leaf n; Some (p, h, matches))
      | _, O => Some None
      | _, S fuel =>
          let '(seg, rest) := firstSegment path in
          r ← matchPath fuel (findChild n seg) rest matches;
          match r with
          | Some _ => Some r
          | None =>
              r ← (if negb (bool_decide (seg = [slash]))
                   then matchPath fuel (emptyChild n) rest (matches ++ [seg]) else Some None);
              match r with
              | Some _ => Some r
              | None => multi_child n path matches
              end
          end
      end
  end.

Definition match_path (n : option routingNode) (path : gostring) : found := matchPath (length path) n path [].

(** A lookup, and another one if it found nothing. *)
Definition or_else (r1 r2 : found) : found := r ← r1; match r with Some _ => Some r | None => r2 end.

Definition matchMethodAndPath (n : option routingNode) (method path : gostring) : found :=
  match n with
  | None => Some None
  | Some n =>
      or_else (match_path (findChild n method) path)
        (or_else (if bool_decide (method = str "HEAD") then match_path (findChild n (str "GET")) path else Some None)
          (match_path (emptyChild n) path))
  end.

Definition tree_match (root : routingNode) (host method path : gostring) : found :=
  or_else (if negb (bool_decide (host = [])) then matchMethodAndPath (findChild root host) method path else Some None)
    (matchMethodAndPath (emptyChild root) method path).

(** *** The methods that would match *)

Fixpoint methods_loop (pairs : list (gostring * routingNode)) (path : gostring) (set : gset (list Z)) : option (gset (list Z)) :=
  match pairs with
  | [] => Some set
  | (method, c) :: pairs =>
      r ← match_path (Some c) path;
      methods_loop pairs path (match r with Some _ => {[method]} ∪ set | None => set end)
  end.

Definition matchingMethodsPath (n : option routingNode) (path : gostring) (set : gset (list Z)) : option (gset (list Z)) :=
  match n with None => Some set | Some n => methods_loop (mapping_pairs (children n)) path set end.

Definition tree_matchingMethods (root : routingNode) (host path : gostring) (set : gset (list Z)) : option (gset (list Z)) :=
  set ← (if negb (bool_decide (host = [])) then matchingMethodsPath (findChild root host) path set else Some set);
  set ← matchingMethodsPath (emptyChild root) path set;
  Some (if bool_decide (str "GET" ∈ set) then {[str "HEAD"]} ∪ set else set).
End Tree.
Arguments routingNode H : clear implicits.

(** ** The index *)

(** A position and a literal, or the empty string for a wildcard. *)
Notation routingIndexKey := (Z * list Z)%type (only parsing).

Record routingIndex := mk_index {
  idx_segments : gmap routingIndexKey (list pattern);
  idx_multis : list pattern;
}.

Definition empty_index : routingIndex := mk_index ∅ [].

Definition idx_at (idx : routingIndex) (pos : Z) (s : gostring) : list pattern := default [] (idx_segments idx !! (pos, s)).

Fixpoint index_segments (m : gmap routingIndexKey (list pattern)) (pos : Z) (segs : list segment) (pat : pattern)
    : gmap routingIndexKey (list pattern) :=
  match segs with
  | [] => m
  | seg :: segs =>
      let key := (pos, if wild seg then [] else seg_s seg) in
      index_segments (<[key := default [] (m !! key) ++ [pat]]> m) (pos + 1) segs pat
  end.

Definition idx_addPattern (idx : routingIndex) (pat : pattern) : routingIndex :=
  if multi (lastSegment pat) then mk_index (idx_segments idx) (idx_multis idx ++ [pat])
  else mk_index (index_segments (idx_segments idx) 0 (segments pat) pat) (idx_multis idx).

(** [apply]: the first error. *)
Fixpoint apply_pats {E} (f : pattern -> option E) (pats : list pattern) : option E :=
  match pats with
  | [] => None
  | p :: pats => match f p with Some e => Some e | None => apply_pats f pats end
  end.

Definition maxInt : Z := 9223372036854775807.

(** The loop that looks for the literal with the fewest candidates. *)
Fixpoint min_loop (idx : routingIndex) (i : Z) (segs : list segment) (acc : option (list pattern * list pattern)) (min : Z)
    : option (list pattern * list pattern) :=
  match segs with
  | [] => acc
  | seg :: segs =>
      if multi seg then acc
      else if wild seg then min_loop idx (i + 1) segs acc min
      else
        let lpats := idx_at idx i (seg_s seg) in
        let wpats := idx_at idx i [] in
        let sum := len lpats + len wpats in
        if sum <? min then min_loop idx (i + 1) segs (Some (lpats, wpats)) sum
        else min_loop idx (i + 1) segs (Some (default ([], []) acc)) min
  end.

Definition possiblyConflictingPatterns {E} (idx : routingIndex) (pat : pattern) (f : pattern -> option E) : option E :=
  match apply_pats f (idx_multis idx) with
  | Some e => Some e
  | None =>
      if bool_decide (seg_s (lastSegment pat) = str "/")
      then apply_pats f (idx_at idx (len (segments pat) - 1) (str "/"))
      else
        match min_loop idx 0 (segments pat) None maxInt with
        | Some (lmin, wmin) => match apply_pats f lmin with Some e => Some e | None => apply_pats f wmin end
        | None => apply_pats f (concat (map_to_list (idx_segments idx)).*2)
        end
  end.

(** ** The tree as a map from keys to patterns *)

Section TreeSpec.
Context {H : Type}.
Implicit Types (n c : routingNode H) (ks : list gostring).

Fixpoint get n ks : option (routingNode H) :=
  match ks with [] => Some n | k :: ks => c ← findChild n k; get c ks end.

Definition leaf_at n ks : option (pattern * H) := n' ← get n ks; leaf n'.

(** The children of a node have distinct keys, none of them empty. *)
Definition node_wf n : Prop := mapping_wf (children n) /\ mapping_find (children n) [] = None.
#[local] Arguments node_wf : simpl never.
Definition tree_wf n : Prop := forall ks n', get n ks = Some n' -> node_wf n'.

Lemma tree_wf_here n : tree_wf n -> node_wf n.
Proof. intros Hw. by apply (Hw []). Qed.

Lemma tree_wf_child n k c : tree_wf n -> findChild n k = Some c -> tree_wf c.
Proof. intros Hw Hc ks n' Hg. apply (Hw (k :: ks)). cbn. by rewrite Hc. Qed.

Lemma tree_wf_intro n :
  node_wf n -> (forall k c, findChild n k = Some c -> tree_wf c) -> tree_wf n.
Proof.
  intros H0 H1 [|k ks] n' Hg; cbn in Hg; [by simplify_eq|].
  apply bind_Some in Hg as (c & Hc & Hg). by eapply H1.
Qed.

Lemma findChild_new k : findChild (@new_node H) k = None.
Proof. unfold findChild. by destruct (bool_decide _). Qed.

Lemma tree_wf_new : tree_wf (@new_node H).
Proof. apply tree_wf_intro; [split; [constructor|done]|]. intros k c Hc. by rewrite findChild_new in Hc. Qed.

Lemma leaf_at_new ks : leaf_at (@new_node H) ks = None.
Proof. unfold leaf_at. destruct ks as [|k ks]; [done|]. cbn [get]. by rewrite findChild_new. Qed.

Lemma leaf_at_cons n k ks : leaf_at n (k :: ks) = c ← findChild n k; leaf_at c ks.
Proof. unfold leaf_at. cbn [get]. by destruct (findChild n k). Qed.

(** A child is there after [addChild] and the others stay. *)
Lemma addChild_spec n k c n' :
  tree_wf n -> addChild n k = (c, n') ->
  c = default new_node (findChild n k) /\ node_wf n' /\ leaf n' = leaf n /\
  forall k', findChild n' k' = if decide (k = k') then Some c else findChild n k'.
Proof.
  intros Hw. unfold addChild, findChild. destruct (bool_decide_reflect (k = [])) as [->|Hk].
  - destruct (emptyChild n) as [c0|] eqn:Ec; intros E; simplify_eq; cbn; rewrite ?Ec.
    + split_and!; try done; [exact (tree_wf_here _ Hw)|]. intros k'.
      destruct (decide ([] = k')) as [<-|]; done.
    + split_and!; try done; [exact (tree_wf_here _ Hw)|]. intros k'.
      destruct (decide ([] = k')) as [<-|]; [done|]. by rewrite bool_decide_false.
  - destruct (mapping_find (children n) k) as [c0|] eqn:Ec; intros E; simplify_eq; cbn.
    + split_and!; try done; [exact (tree_wf_here _ Hw)|]. intros k'.
      destruct (decide (k = k')) as [<-|]; [by rewrite bool_decide_false|done].
    + destruct (tree_wf_here n Hw) as [Hw1 Hw2]. split_and!; try done.
      { split; cbn [children]; [by apply mapping_add_wf|]. by rewrite mapping_find_add, decide_False. }
      intros k'. destruct (bool_decide_reflect (k' = [])) as [->|Hk']; [by rewrite decide_False|].
      by apply mapping_find_add.
Qed.

Lemma set_child_spec n k c0 c :
  findChild n k = Some c0 -> node_wf n ->
  node_wf (set_child n k c) /\ leaf (set_child n k c) = leaf n /\
  forall k', findChild (set_child n k c) k' = if decide (k = k') then Some c else findChild n k'.
Proof.
  intros Hc [Hw Hw2]. unfold node_wf, set_child, findChild in *. destruct (bool_decide_reflect (k = [])) as [->|Hk]; cbn.
  - split_and!; try done. intros k'. destruct (decide ([] = k')) as [<-|]; [done|]. by rewrite !bool_decide_false.
  - split_and!; [by apply mapping_set_wf|by rewrite mapping_find_set, decide_False|done|]. intros k'.
    destruct (bool_decide_reflect (k' = [])) as [->|Hk']; [by rewrite decide_False|].
    apply mapping_find_set. by eexists.
Qed.

Lemma with_child_spec n k f n' :
  tree_wf n -> with_child n k f = Some n' ->
  exists c, f (default new_node (findChild n k)) = Some c /\ node_wf n' /\ leaf n' = leaf n /\
    forall k', findChild n' k' = if decide (k = k') then Some c else findChild n k'.
Proof.
  intros Hw. unfold with_child. destruct (addChild n k) as [c0 n0] eqn:Ea.
  destruct (addChild_spec _ _ _ _ Hw Ea) as (-> & Hw0 & Hl & Hf). intros (c & Hc & ?)%bind_Some. simplify_eq.
  destruct (set_child_spec n0 k (default new_node (findChild n k)) c) as (Hw1 & Hl1 & Hf1); try done.
  { rewrite Hf. by rewrite decide_True. }
  exists c. split_and!; try done; [congruence|]. intros k'. rewrite Hf1, Hf. by destruct (decide (k = k')).
Qed.

Lemma with_child_some n k f :
  is_Some (f (default new_node (findChild n k))) -> tree_wf n -> is_Some (with_child n k f).
Proof.
  intros [c Hc] Hw. unfold with_child. destruct (addChild n k) as [c0 n0] eqn:Ea.
  destruct (addChild_spec _ _ _ _ Hw Ea) as (-> & _). rewrite Hc. by eexists.
Qed.

Fixpoint add_keys n ks (v : pattern * H) : option (routingNode H) :=
  match ks with
  | [] => node_set n v.1 v.2
  | k :: ks => with_child n k (fun c => add_keys c ks v)
  end.

Lemma tree_wf_default n k : tree_wf n -> tree_wf (default new_node (findChild n k)).
Proof.
  intros Hw. destruct (findChild n k) as [c|] eqn:Hc; cbn; [by eapply tree_wf_child|apply tree_wf_new].
Qed.

Lemma leaf_at_default n k ks : leaf_at (default new_node (findChild n k)) ks = leaf_at n (k :: ks).
Proof. rewrite leaf_at_cons. destruct (findChild n k); cbn; [done|apply leaf_at_new]. Qed.

Lemma add_keys_spec ks n v n' :
  tree_wf n -> add_keys n ks v = Some n' ->
  tree_wf n' /\ leaf_at n ks = None /\ forall ks', leaf_at n' ks' = if decide (ks = ks') then Some v else leaf_at n ks'.
Proof.
  revert n n'. induction ks as [|k ks IH]; intros n n' Hw Ha; cbn [add_keys] in Ha.
  - unfold node_set in Ha. destruct (leaf n) eqn:El; [done|]. simplify_eq. split; [|split].
    + apply tree_wf_intro; [exact (tree_wf_here _ Hw)|]. intros k c Hc. exact (tree_wf_child n k c Hw Hc).
    + done.
    + intros [|k ks']; [rewrite decide_True by done; by destruct v|]. done.
  - destruct (with_child_spec _ _ _ _ Hw Ha) as (c & Hc & Hw' & Hl & Hf).
    destruct (IH _ _ (tree_wf_default _ _ Hw) Hc) as (Hwc & Hnone & Hleaf). split; [|split].
    + apply tree_wf_intro; [done|]. intros k' c' Hc'. rewrite Hf in Hc'. destruct (decide (k = k')); [by simplify_eq|].
      exact (tree_wf_child n k' c' Hw Hc').
    + by rewrite <- leaf_at_default.
    + intros [|k' ks']; [unfold leaf_at; cbn; by rewrite Hl|]. rewrite leaf_at_cons, Hf.
      destruct (decide (k = k')) as [<-|Hne]; cbn [mbind option_bind].
      * rewrite Hleaf, leaf_at_default. destruct (decide (ks = ks')) as [->|]; [by rewrite decide_True|].
        rewrite decide_False by congruence. done.
      * rewrite decide_False by congruence. by rewrite leaf_at_cons.
Qed.

Lemma add_keys_some ks n v : tree_wf n -> leaf_at n ks = None -> is_Some (add_keys n ks v).
Proof.
  revert n. induction ks as [|k ks IH]; intros n Hw Hn; cbn [add_keys].
  - unfold leaf_at in Hn. cbn in Hn. unfold node_set. rewrite Hn. by eexists.
  - apply with_child_some; [|done]. apply IH; [by apply tree_wf_default|]. by rewrite leaf_at_default.
Qed.

(** The keys under which a pattern is stored. *)
Definition seg_key (s : segment) : gostring := if multi s then [star] else if wild s then [] else seg_s s.
Definition pat_keys (p : pattern) : list gostring := pat_host p :: pat_method p :: map seg_key (segments p).

Lemma addSegments_keys n segs p (h : H) : wf_segs segs -> addSegments n segs p h = add_keys n (map seg_key segs) (p, h).
Proof.
  revert n. induction segs as [|s segs IH]; intros n; cbn [addSegments map add_keys wf_segs]; [done|].
  intros [Hm Hw]. unfold seg_key at 1. unfold with_child. destruct (multi s).
  - destruct (Hm eq_refl) as [_ ->]. cbn. done.
  - destruct (wild s); destruct (addChild n _) as [c n0]; by rewrite IH.
Qed.

Lemma addPattern_keys n p (h : H) : wf_segs (segments p) -> addPattern n p h = add_keys n (pat_keys p) (p, h).
Proof.
  intros Hw. unfold addPattern, pat_keys. cbn [add_keys]. unfold with_child at 1 3.
  destruct (addChild n (pat_host p)) as [c n0]. unfold with_child at 1 2.
  destruct (addChild c (pat_method p)) as [c1 n1]. by rewrite addSegments_keys.
Qed.
End TreeSpec.

(** ** Looking up a path *)

(** The segments of a path, as the matcher takes them off. *)
Fixpoint path_segs (fuel : nat) (path : gostring) : list gostring :=
  match path, fuel with
  | [], _ => []
  | _, O => []
  | _, S fuel => let '(seg, rest) := firstSegment path in seg :: path_segs fuel rest
  end.
Definition segs_of (path : gostring) : list gostring := path_segs (length path) path.

Lemma firstSegment_shorter path : path <> [] -> (length (snd (firstSegment path)) < length path)%nat.
Proof.
  intros Hne. unfold firstSegment. destruct (bool_decide_reflect (path = [slash])) as [->|]; cbn; [lia|].
  destruct path as [|c path]; [done|]. cbn [drop length]. rewrite drop_0, length_drop. lia.
Qed.

Lemma path_segs_fuels fuel fuel' path :
  (length path <= fuel)%nat -> (length path <= fuel')%nat -> path_segs fuel path = path_segs fuel' path.
Proof.
  revert fuel' path. induction fuel as [|fuel IH]; intros fuel' path Hf Hf'.
  { destruct path; [by destruct fuel'|cbn in Hf; lia]. }
  destruct path as [|c path]; [by destruct fuel'|]. destruct fuel' as [|fuel']; [cbn in Hf'; lia|]. cbn [path_segs].
  pose proof (firstSegment_shorter (c :: path) ltac:(done)) as Hs. destruct (firstSegment (c :: path)) as [seg rest].
  cbn [snd length] in *. f_equal. apply IH; lia.
Qed.

Lemma path_segs_fuel fuel path : (length path <= fuel)%nat -> path_segs fuel path = segs_of path.
Proof. intros. by apply path_segs_fuels. Qed.

Lemma segs_of_cons path :
  path <> [] -> segs_of path = fst (firstSegment path) :: segs_of (snd (firstSegment path)).
Proof.
  intros Hne. pose proof (firstSegment_shorter path Hne) as Hs. unfold segs_of at 1. destruct path as [|c path]; [done|].
  cbn [path_segs length]. destruct (firstSegment (c :: path)) as [seg rest]. cbn [fst snd] in *. f_equal.
  apply path_segs_fuel. cbn [length] in Hs. lia.
Qed.

(** Segments whose text is not one of the two keys that stand for wildcards. *)
Definition ordinary (x : gostring) : Prop := x <> [] /\ x <> [star].

Fixpoint kmatch (ks xs : list gostring) : Prop :=
  match ks, xs with
  | [], [] => True
  | k :: ks, x :: xs =>
      if decide (k = [star]) then ks = []
      else if decide (k = []) then x <> [slash] /\ kmatch ks xs
      else x = k /\ kmatch ks xs
  | _, _ => False
  end.

(** Literals before wildcards before multis, at the first difference. *)
Definition rank (k : gostring) : Z := if decide (k = [star]) then 2 else if decide (k = []) then 1 else 0.

Fixpoint prefers (ks ks' : list gostring) : Prop :=
  match ks, ks' with
  | [], [] => True
  | k :: ks, k' :: ks' => k = k' /\ prefers ks ks' \/ rank k < rank k'
  | _, _ => False
  end.

(** The values of the wildcards. *)
Fixpoint kvalues (p : pattern) (ks : list gostring) (path : gostring) : list gostring :=
  match ks with
  | [] => []
  | k :: ks =>
      let '(seg, rest) := firstSegment path in
      if decide (k = [star])
      then if negb (bool_decide (seg_s (lastSegment p) = [])) then [pathUnescape (drop 1 path)] else []
      else if decide (k = []) then seg :: kvalues p ks rest
      else kvalues p ks rest
  end.

Section Lookup.
Context {H : Type}.
Implicit Types (n c : routingNode H) (ks : list gostring).

(** From depth [d] on, the child for the multi wildcard has a pattern. *)
Definition star_ok (d : nat) n : Prop :=
  forall ks n' c, (d <= length ks)%nat -> get n ks = Some n' -> findChild n' [star] = Some c -> is_Some (leaf c).

Lemma star_ok_child d n k c : star_ok d n -> findChild n k = Some c -> star_ok (pred d) c.
Proof.
  intros Hs Hc ks n' c' Hd Hg Hf. apply (Hs (k :: ks) n' c'); [cbn; lia| |done]. cbn. by rewrite Hc.
Qed.

Lemma star_ok_intro d n :
  (d = 0%nat -> forall c, findChild n [star] = Some c -> is_Some (leaf c)) ->
  (forall k c, findChild n k = Some c -> star_ok (pred d) c) -> star_ok d n.
Proof.
  intros H0 H1 [|k ks] n' c Hd Hg Hf; cbn in Hd, Hg.
  - simplify_eq. apply H0; [lia|done].
  - apply bind_Some in Hg as (c0 & Hc & Hg). eapply (H1 k c0 Hc ks); [lia|done|done].
Qed.

Lemma star_ok_new d : star_ok d (@new_node H).
Proof. apply star_ok_intro; intros; rewrite findChild_new in *; done. Qed.

(** From depth [d] on, the key of the multi wildcard is the last one. *)
Fixpoint keys_ok (d : nat) ks : Prop :=
  match ks with
  | [] => True
  | k :: ks => (d = 0%nat -> k = [star] -> ks = []) /\ keys_ok (pred d) ks
  end.

Lemma add_keys_star d ks n v n' :
  tree_wf n -> star_ok d n -> keys_ok d ks -> add_keys n ks v = Some n' -> star_ok d n'.
Proof.
  revert d n n'. induction ks as [|k ks IH]; intros d n n' Hw Hs Hk Ha; cbn [add_keys] in Ha.
  - unfold node_set in Ha. destruct (leaf n); [done|]. simplify_eq. apply star_ok_intro.
    + intros -> c Hc. exact (Hs [] n c ltac:(done) eq_refl Hc).
    + intros k c Hc. exact (star_ok_child d n k c Hs Hc).
  - destruct Hk as [Hstar Hk]. destruct (with_child_spec _ _ _ _ Hw Ha) as (c & Hc & Hw' & Hl & Hf).
    apply star_ok_intro.
    + intros -> c' Hc'. rewrite Hf in Hc'. destruct (decide (k = [star])) as [->|].
      * rewrite (Hstar eq_refl eq_refl) in Hc. cbn [add_keys] in Hc. unfold node_set in Hc.
        destruct (leaf (default new_node (findChild n [star]))); [done|]. simplify_eq. by eexists.
      * exact (Hs [] n c' ltac:(done) eq_refl Hc').
    + intros k' c' Hc'. rewrite Hf in Hc'. destruct (decide (k = k')) as [<-|].
      * simplify_eq. eapply IH; [by apply tree_wf_default| |done|exact Hc].
        destruct (findChild n k) as [c0|] eqn:E; cbn; [by eapply star_ok_child|apply star_ok_new].
      * exact (star_ok_child d n k' c' Hs Hc').
Qed.

(** What a lookup finds: the preferred one of the stored patterns that match.  The value of
    a wildcard that stands for an empty segment is missing. *)
Definition no_star (xs : list gostring) : Prop := Forall (fun x => x <> [star]) xs.
Definition no_empty (xs : list gostring) : Prop := Forall (fun x => x <> []) xs.

Definition found_ok n (path : gostring) (ms : list gostring) (r : option (pattern * H * list gostring)) : Prop :=
  match r with
  | None => forall ks v, leaf_at n ks = Some v -> ~ kmatch ks (segs_of path)
  | Some (p, h, ms') =>
      exists ks, leaf_at n ks = Some (p, h) /\ kmatch ks (segs_of path) /\ (no_empty (segs_of path) -> ms' = ms ++ kvalues p ks path) /\
        forall ks' v', leaf_at n ks' = Some v' -> kmatch ks' (segs_of path) -> prefers ks ks'
  end.

Lemma rank_lit x : ordinary x -> rank x = 0.
Proof. intros [H1 H2]. unfold rank. by rewrite !decide_False. Qed.

Lemma matchPath_ok fuel n path ms :
  (length path <= fuel)%nat -> star_ok 0 n -> no_star (segs_of path) ->
  exists r, matchPath fuel (Some n) path ms = Some r /\ found_ok n path ms r.
Proof.
  revert n path ms. induction fuel as [|fuel IH]; intros n path ms Hf Hs Ho.
  { destruct path; [|cbn in Hf; lia]. cbn. eexists. split; [done|]. unfold found_ok.
    destruct (leaf n) as [[p h]|] eqn:El; cbn.
    - exists []. unfold leaf_at at 1. cbn. rewrite El, app_nil_r. split_and!; try done. by intros [|k' ks'].
    - intros [|k ks] v; [unfold leaf_at; cbn; by rewrite El|]. cbn. naive_solver. }
  destruct path as [|c0 path'] eqn:Ep.
  { cbn. eexists. split; [done|]. unfold found_ok. destruct (leaf n) as [[p h]|] eqn:El; cbn.
    - exists []. unfold leaf_at at 1. cbn. rewrite El, app_nil_r. split_and!; try done. by intros [|k' ks'].
    - intros [|k ks] v; [unfold leaf_at; cbn; by rewrite El|]. cbn. naive_solver. }
  cbn [matchPath]. rewrite <- Ep in *. assert (path <> []) as Hne by (by rewrite Ep). clear Ep c0 path'.
  pose proof (firstSegment_shorter path Hne) as Hshort. pose proof (segs_of_cons path Hne) as Hsegs.
  destruct (firstSegment path) as [seg rest] eqn:Efs. cbn [fst snd] in *. rewrite Hsegs in Ho. apply Forall_cons in Ho as [Hseg Ho].
  assert (no_empty (segs_of path) -> seg <> [] /\ no_empty (segs_of rest)) as Hemp0 by (rewrite Hsegs; intros He; by apply Forall_cons in He).
  (* the two subtrees that a segment leads to *)
  assert (forall o ms', (forall c, o = Some c -> star_ok 0 c) -> exists r, matchPath fuel o rest ms' = Some r /\
    match o with Some c => found_ok c rest ms' r | None => r = None end) as Hsub.
  { intros [c|] ms' Hc; [by apply IH; [lia|apply Hc|]|]. exists None. by destruct fuel. }
  destruct (Hsub (findChild n seg) ms) as (r1 & -> & Hr1); [intros c Hc; by eapply (star_ok_child 0)|]. cbn [mbind option_bind].
  assert (forall ks v, leaf_at n (seg :: ks) = Some v -> exists c, findChild n seg = Some c /\ leaf_at c ks = Some v) as Hlit.
  { intros ks v Hv. rewrite leaf_at_cons in Hv. by apply bind_Some in Hv. }
  destruct r1 as [[[p h] ms1]|].
  { eexists. split; [done|]. destruct (findChild n seg) as [c|] eqn:Ec; [|done].
    destruct Hr1 as (ks & Hl & Hk & Hms & Hbest). exists (seg :: ks). rewrite leaf_at_cons, Ec, Hsegs. cbn [mbind option_bind kmatch kvalues].
    rewrite Efs, (decide_False (P := seg = [star])) by done. assert (forall ks' v', leaf_at n (seg :: ks') = Some v' -> kmatch ks' (segs_of rest) -> prefers ks ks') as Hbest'.
    { intros ks' v' (c' & Hc' & Hl')%Hlit Hk'. simplify_eq. by eapply Hbest. }
    destruct (decide (seg = [])) as [Hs0|Hs0].
    - subst seg. split_and!; try done; [by intros []%Forall_cons|]. intros [|k' ks'] v' Hl' Hk'; cbn [kmatch prefers] in *; [done|].
      destruct (decide (k' = [star])) as [->|]; [right; done|]. destruct (decide (k' = [])) as [->|]; [|naive_solver]. left. destruct Hk' as [_ Hk']. eauto.
    - split_and!; try done; [intros He; rewrite decide_False by done; apply Forall_cons in He as [_ He]; auto|]. intros [|k' ks'] v' Hl' Hk'; cbn [kmatch prefers] in *; [done|].
      rewrite (rank_lit seg) by done. unfold rank. destruct (decide (k' = [star])); [right; lia|].
      destruct (decide (k' = [])); [right; lia|]. destruct Hk' as [-> Hk']. left. split; [done|]. eauto. }
  assert (forall ks v, leaf_at n (seg :: ks) = Some v -> ~ kmatch ks (segs_of rest)) as Hnolit.
  { intros ks v (c & Hc & Hv)%Hlit. rewrite Hc in Hr1. by eapply Hr1. }
  destruct (Hsub (emptyChild n) (ms ++ [seg])) as (r2 & Hr2 & Hok2).
  { intros c Hc. by apply (star_ok_child 0 n []). }
  assert (exists r3, (if negb (bool_decide (seg = [slash])) then matchPath fuel (emptyChild n) rest (ms ++ [seg])
                      else Some None) = Some r3 /\
    match r3 with
    | Some (p, h, ms') => exists ks, seg <> [slash] /\ leaf_at n ([] :: ks) = Some (p, h) /\ kmatch ks (segs_of rest) /\
        (no_empty (segs_of rest) -> ms' = (ms ++ [seg]) ++ kvalues p ks rest) /\
        forall ks' v', leaf_at n ([] :: ks') = Some v' -> kmatch ks' (segs_of rest) -> prefers ks ks'
    | None => forall ks v, leaf_at n ([] :: ks) = Some v -> seg <> [slash] -> ~ kmatch ks (segs_of rest)
    end) as (r3 & -> & Hok3).
  { assert (forall ks v, leaf_at n ([] :: ks) = Some v -> exists c, emptyChild n = Some c /\ leaf_at c ks = Some v) as Hemp.
    { intros ks v Hv. rewrite leaf_at_cons in Hv. by apply bind_Some in Hv. }
    destruct (bool_decide_reflect (seg = [slash])) as [E|E]; cbn [negb].
    - exists None. split; [done|]. intros ks v _ Hn. done.
    - exists r2. split; [done|]. destruct r2 as [[[p h] ms2]|].
      + destruct (emptyChild n) as [c|] eqn:Ec; [|done]. destruct Hok2 as (ks & Hl & Hk & Hms & Hbest). exists ks.
        split_and!; try done; [rewrite leaf_at_cons; unfold findChild; cbn; by rewrite Ec|].
        intros ks' v' (c' & Hc' & Hv')%Hemp Hk'. simplify_eq. by eapply Hbest.
      + intros ks v (c & Hc & Hv)%Hemp _. rewrite Hc in Hok2. by eapply Hok2. }
  cbn [mbind option_bind]. destruct r3 as [[[p h] ms3]|].
  { eexists. split; [done|]. destruct Hok3 as (ks & Hsl & Hl & Hk & Hms & Hbest). exists ([] :: ks).
    rewrite Hsegs. cbn [kmatch kvalues]. rewrite Efs, decide_False, decide_True by done.
    split_and!; try done; [intros He; apply Forall_cons in He as [_ He]; by rewrite Hms, <- app_assoc by done|]. intros [|k' ks'] v' Hl' Hk'; cbn [kmatch prefers] in *; [done|].
    destruct (decide (k' = [star])) as [->|Hns]; [right; done|]. destruct (decide (k' = [])) as [->|Hne'].
    - left. split; [done|]. destruct Hk' as [_ Hk']. by eapply Hbest.
    - destruct Hk' as [<- Hk']. by destruct (Hnolit _ _ Hl'). }
  unfold multi_child. destruct (findChild n [star]) as [c|] eqn:Ec.
  - destruct (Hs [] n c ltac:(done) eq_refl Ec) as [[p h] Hl]. rewrite Hl. cbn [mbind option_bind]. eexists. split; [done|].
    exists [[star]]. rewrite leaf_at_cons, Ec, Hsegs. cbn [mbind option_bind kmatch kvalues]. rewrite Efs, !decide_True by done.
    unfold leaf_at. cbn [get mbind option_bind]. rewrite Hl. split_and!; try done; [intros _; by destruct (negb _); rewrite ?app_nil_r|].
    intros [|k' ks'] v' Hl' Hk'; cbn [kmatch prefers] in *; [done|].
    destruct (decide (k' = [star])) as [->|Hns]; [left; by rewrite Hk'|]. destruct (decide (k' = [])) as [->|Hne'].
    + destruct Hk' as [Hx Hk']. by destruct (Hok3 _ _ Hl' Hx).
    + destruct Hk' as [<- Hk']. by destruct (Hnolit _ _ Hl').
  - eexists. split; [done|]. intros [|k' ks'] v' Hl' Hk'; rewrite Hsegs in Hk'; cbn [kmatch] in Hk'; [done|].
    destruct (decide (k' = [star])) as [->|Hns]; [by rewrite leaf_at_cons, Ec in Hl'|]. destruct (decide (k' = [])) as [->|Hne'].
    + destruct Hk' as [Hx Hk']. by destruct (Hok3 _ _ Hl' Hx).
    + destruct Hk' as [<- Hk']. by destruct (Hnolit _ _ Hl').
Qed.
End Lookup.

(** ** Patterns and their keys *)

Definition ordinary_segs (segs : list segment) : Prop := Forall (fun s => wild s = false -> ordinary (seg_s s)) segs.

Lemma seg_key_multi s : multi s = true -> seg_key s = [star].
Proof. unfold seg_key. by intros ->. Qed.
Lemma seg_key_wild s : multi s = false -> wild s = true -> seg_key s = [].
Proof. unfold seg_key. by intros -> ->. Qed.
Lemma seg_key_lit s : multi s = false -> wild s = false -> seg_key s = seg_s s.
Proof. unfold seg_key. by intros -> ->. Qed.

Lemma pmatch_kmatch segs xs : wf_segs segs -> ordinary_segs segs -> pmatch segs xs <-> kmatch (map seg_key segs) xs.
Proof.
  intros Hw Ho. revert xs Hw. induction Ho as [|s segs Hs Ho IH]; intros [|x xs] Hw; cbn [pmatch map kmatch]; try done.
  destruct Hw as [Hm Hw]. destruct (multi s) eqn:Em.
  - destruct (Hm eq_refl) as [_ ->]. rewrite seg_key_multi by done. cbn. by rewrite decide_True.
  - unfold smatch. destruct (wild s) eqn:Ew.
    + rewrite seg_key_wild by done. rewrite decide_False, decide_True by done. by rewrite IH.
    + rewrite seg_key_lit by done. destruct (Hs eq_refl) as [H1 H2]. rewrite !decide_False by done. by rewrite IH.
Qed.

(** Segments with the same key compare as equivalent, and a key of a lower rank never
    belongs to the more general segment. *)
Lemma key_equivalent s1 s2 :
  (wild s1 = false -> ordinary (seg_s s1)) -> (wild s2 = false -> ordinary (seg_s s2)) ->
  seg_key s1 = seg_key s2 -> compareSegments s1 s2 = equivalent /\ multi s1 = multi s2.
Proof.
  unfold seg_key, compareSegments. intros H1 H2. destruct (multi s1), (multi s2); cbn [andb]; try done.
  - destruct (wild s2); [done|]. intros E. destruct (H2 eq_refl). congruence.
  - destruct (wild s1); [done|]. intros E. destruct (H1 eq_refl). congruence.
  - destruct (wild s1), (wild s2); cbn [andb]; try done; intros E.
    + destruct (H2 eq_refl). congruence.
    + destruct (H1 eq_refl). congruence.
    + by rewrite decide_True.
Qed.

Lemma rank_le k : rank k <= 2.
Proof. unfold rank. repeat destruct (decide _); lia. Qed.

Lemma rank_specific s1 s2 :
  (wild s1 = false -> ordinary (seg_s s1)) -> (wild s2 = false -> ordinary (seg_s s2)) ->
  rank (seg_key s1) < rank (seg_key s2) ->
  (compareSegments s1 s2 = moreSpecific \/ compareSegments s1 s2 = disjoint_) /\
  (multi s1 || multi s2 = true -> compareSegments s1 s2 = moreSpecific).
Proof.
  unfold compareSegments. intros H1 H2 Hr. destruct (multi s1) eqn:M1.
  { rewrite (seg_key_multi s1 M1) in Hr. pose proof (rank_le (seg_key s2)). change (rank [star]) with 2 in Hr. lia. }
  cbn [andb orb]. destruct (multi s2) eqn:M2; [auto|]. split; [|done]. destruct (wild s1) eqn:W1.
  { rewrite (seg_key_wild s1) in Hr by done. change (rank []) with 1 in Hr. destruct (wild s2) eqn:W2.
    - rewrite (seg_key_wild s2) in Hr by done. change (rank []) with 1 in Hr. lia.
    - rewrite (seg_key_lit s2), rank_lit in Hr by auto. lia. }
  cbn [andb]. destruct (wild s2) eqn:W2; [destruct (decide _); auto|].
  rewrite !seg_key_lit, !rank_lit in Hr by auto. lia.
Qed.

(** The preferred pattern is not the more general one. *)
Lemma prefers_not_general segs1 segs2 :
  ordinary_segs segs1 -> ordinary_segs segs2 ->
  prefers (map seg_key segs1) (map seg_key segs2) -> cp segs1 segs2 <> moreGeneral.
Proof.
  intros H1. revert segs2. induction H1 as [|s1 segs1 Hs1 H1 IH]; intros [|s2 segs2] H2; cbn [map prefers cp]; try done.
  apply Forall_cons in H2 as [Hs2 H2]. intros [[Hk Hp]|Hr].
  - destruct (key_equivalent s1 s2 Hs1 Hs2 Hk) as [-> Hm]. destruct (multi s1 || multi s2); [done|]. by apply IH.
  - destruct (rank_specific s1 s2 Hs1 Hs2 Hr) as [Hc Hm]. destruct (multi s1 || multi s2); [by rewrite Hm|].
    destruct Hc as [-> | ->]; [|done]. by destruct (cp segs1 segs2).
Qed.

Lemma keys_equivalent segs1 segs2 :
  ordinary_segs segs1 -> ordinary_segs segs2 -> map seg_key segs1 = map seg_key segs2 -> cp segs1 segs2 = equivalent.
Proof.
  intros H1. revert segs2. induction H1 as [|s1 segs1 Hs1 H1 IH]; intros [|s2 segs2] H2; cbn [map cp]; try done.
  apply Forall_cons in H2 as [Hs2 H2]. intros [= Hk Hks].
  destruct (key_equivalent s1 s2 Hs1 Hs2 Hk) as [-> Hm]. destruct (multi s1 || multi s2); [done|]. cbn. by apply IH.
Qed.

Lemma keys_ok_segs segs : wf_segs segs -> ordinary_segs segs -> keys_ok 0 (map seg_key segs).
Proof.
  intros Hw Ho. induction Ho as [|s segs Hs Ho IH]; [done|]. destruct Hw as [Hm Hw]. cbn [map keys_ok]. split; [|by apply IH].
  intros _. unfold seg_key. destruct (multi s) eqn:Em; [destruct (Hm eq_refl) as [_ ->]; done|].
  destruct (wild s); [done|]. intros E. destruct (Hs eq_refl). done.
Qed.

(** ** The index finds every pattern that could conflict *)

Definition idx_key (s : segment) : gostring := if wild s then [] else seg_s s.

(** The index holds the patterns [pats]. *)
Definition idx_ok (idx : routingIndex) (pats : list pattern) : Prop :=
  (forall q, q ∈ idx_multis idx <-> q ∈ pats /\ multi (lastSegment q) = true) /\
  (forall pos s q, q ∈ idx_at idx pos s <->
     q ∈ pats /\ multi (lastSegment q) = false /\ exists seg, segments q !! Z.to_nat pos = Some seg /\ 0 <= pos /\ idx_key seg = s) /\
  (forall pos s, len (idx_at idx pos s) <= len pats).

Lemma idx_ok_empty : idx_ok empty_index [].
Proof.
  split_and!.
  - intros q. cbn. rewrite elem_of_nil. naive_solver.
  - intros pos s q. unfold idx_at. cbn. rewrite lookup_empty. cbn. rewrite elem_of_nil. naive_solver.
  - intros pos s. unfold idx_at. cbn. by rewrite lookup_empty.
Qed.

Lemma index_segments_at m pos segs pat k s q :
  q ∈ default [] (index_segments m pos segs pat !! (k, s)) <->
  q ∈ default [] (m !! (k, s)) \/ (q = pat /\ exists seg, segs !! Z.to_nat (k - pos) = Some seg /\ pos <= k /\ idx_key seg = s).
Proof.
  revert m pos. induction segs as [|seg segs IH]; intros m pos; cbn [index_segments].
  { split; [auto|]. intros [?|(_ & seg & Hs & _)]; [done|]. by rewrite lookup_nil in Hs. }
  rewrite IH. fold (idx_key seg). destruct (decide ((pos, idx_key seg) = (k, s))) as [E|E].
  - injection E as -> Hkey. rewrite Hkey, lookup_insert_eq. cbn [from_option id]. rewrite elem_of_app, list_elem_of_singleton. split.
    + intros [[?| ->]|(-> & sg & Hs & Hk & Hi)]; [by left| |lia]. right. split; [done|]. exists seg. rewrite Z.sub_diag. done.
    + intros [?|(-> & sg & Hs & Hk & Hi)]; [by left; left|]. left. right. done.
  - rewrite lookup_insert_ne by done. split.
    + intros [?|(-> & sg & Hs & Hk & Hi)]; [by left|]. right. split; [done|]. exists sg. split; [|split; [lia|done]].
      replace (Z.to_nat (k - pos)) with (S (Z.to_nat (k - (pos + 1)))) by lia. done.
    + intros [?|(-> & sg & Hs & Hk & Hi)]; [by left|]. right. split; [done|]. exists sg.
      destruct (decide (k = pos)) as [->|Hne].
      * rewrite Z.sub_diag in Hs. cbn in Hs. injection Hs as ->. exfalso. apply E. by rewrite Hi.
      * replace (Z.to_nat (k - pos)) with (S (Z.to_nat (k - (pos + 1)))) in Hs by lia. split; [done|]. split; [lia|done].
Qed.

Lemma index_segments_len m pos segs pat k s :
  len (default [] (index_segments m pos segs pat !! (k, s))) <= len (default [] (m !! (k, s))) + (if pos <=? k then 1 else 0).
Proof.
  revert m pos. induction segs as [|seg segs IH]; intros m pos; cbn [index_segments]; [destruct (_ <=? _); lia|].
  etransitivity; [apply IH|]. destruct (decide ((pos, if wild seg then [] else seg_s seg) = (k, s))) as [E|E].
  - injection E as -> E. rewrite E, lookup_insert_eq. cbn [from_option id]. rewrite len_app, len_cons, len_nil.
    rewrite (proj2 (Z.leb_gt (k + 1) k)), (proj2 (Z.leb_le k k)) by lia. lia.
  - rewrite lookup_insert_ne by done. destruct (Z.leb_spec (pos + 1) k), (Z.leb_spec pos k); lia.
Qed.

Lemma idx_ok_add idx pats p : idx_ok idx pats -> idx_ok (idx_addPattern idx p) (pats ++ [p]).
Proof.
  intros (Hm & Hs & Hl). unfold idx_addPattern. destruct (multi (lastSegment p)) eqn:Em; split_and!.
  - intros q. cbn. rewrite !elem_of_app, !list_elem_of_singleton, Hm. naive_solver.
  - intros pos s q. unfold idx_at. cbn. fold (idx_at idx pos s). rewrite Hs, elem_of_app, list_elem_of_singleton. naive_solver congruence.
  - intros pos s. unfold idx_at. cbn. fold (idx_at idx pos s). specialize (Hl pos s). rewrite len_app. change (len [p]) with 1. lia.
  - intros q. cbn. rewrite elem_of_app, list_elem_of_singleton, Hm. naive_solver congruence.
  - intros pos s q. unfold idx_at. cbn [idx_segments]. rewrite index_segments_at. fold (idx_at idx pos s).
    rewrite Hs, elem_of_app, list_elem_of_singleton, Z.sub_0_r. naive_solver.
  - intros pos s. unfold idx_at. cbn [idx_segments]. pose proof (index_segments_len (idx_segments idx) 0 (segments p) p pos s) as H.
    specialize (Hl pos s). unfold idx_at in Hl. rewrite len_app; change (len [p]) with 1. destruct (_ <=? _); lia.
Qed.

Lemma apply_pats_None {E} (f : pattern -> option E) pats : apply_pats f pats = None <-> forall q, q ∈ pats -> f q = None.
Proof.
  induction pats as [|p pats IH]; cbn [apply_pats]; [split; [by intros _ q ?%elem_of_nil|done]|]. destruct (f p) eqn:Ef.
  - split; [done|]. intros Hall. rewrite Hall in Ef; [done|]. apply elem_of_cons. by left.
  - rewrite IH. setoid_rewrite elem_of_cons. naive_solver.
Qed.

Lemma elem_of_concat {A} (x : A) ls : x ∈ concat ls <-> exists l, x ∈ l /\ l ∈ ls.
Proof.
  rewrite list_elem_of_In, in_concat. setoid_rewrite list_elem_of_In. naive_solver.
Qed.

(** Two paths that can match the same request agree at every segment of the first one. *)
Lemma cp_at segs1 segs2 i s1 :
  wf_segs segs1 -> wf_segs segs2 -> cp segs1 segs2 <> disjoint_ -> last_multi segs2 = false ->
  segs1 !! i = Some s1 -> multi s1 = false ->
  exists s2, segs2 !! i = Some s2 /\ multi s2 = false /\ compareSegments s1 s2 <> disjoint_.
Proof.
  revert segs2 i. induction segs1 as [|t1 segs1 IH]; intros segs2 i Hw1 Hw2 Hc Hl Hi Hm; [done|].
  destruct segs2 as [|t2 segs2]; [done|]. pose proof Hw1 as [Hm1 Hw1']. pose proof Hw2 as [Hm2 Hw2']. cbn [cp] in Hc.
  assert (multi t2 = false) as E2.
  { destruct (multi t2) eqn:E; [|done]. destruct (Hm2 eq_refl) as [_ ->]. unfold last_multi in Hl. cbn in Hl. congruence. }
  destruct (multi t1) eqn:E1.
  { destruct (Hm1 eq_refl) as [_ ->]. destruct i as [|i]; cbn in Hi; [|done]. injection Hi as ->. congruence. }
  rewrite E2 in Hc. cbn [orb] in Hc. rewrite last_multi_cons in Hl by done. destruct i as [|i]; cbn in Hi.
  - simplify_eq. exists t2. split_and!; try done. intros E. by rewrite E in Hc.
  - destruct (IH segs2 i) as (s2 & ? & ? & ?); try done; [|by exists s2]. intros E. rewrite E, combine_disjoint in Hc. done.
Qed.

Lemma conflict_cp p q :
  wf_segs (segments p) -> wf_segs (segments q) -> conflictsWith p q = true -> cp (segments p) (segments q) <> disjoint_.
Proof.
  intros Hp Hq. unfold conflictsWith, comparePathsAndMethods. destruct (bool_decide (pat_host p = pat_host q)); cbn [negb]; [|done].
  rewrite comparePaths_cp by done. intros Hc E. rewrite E in Hc. destruct (decide _); [done|]. by rewrite combine_disjoint in Hc.
Qed.


Lemma min_loop_spec idx i segs acc min :
  wf_segs segs -> (forall pos s, len (idx_at idx pos s) + len (idx_at idx pos []) < maxInt) -> (acc = None -> min = maxInt) ->
  match min_loop idx i segs acc min with
  | None => acc = None /\ Forall (fun s => wild s = true) segs
  | Some (l, w) => acc = Some (l, w) \/
      exists j s, segs !! j = Some s /\ multi s = false /\ wild s = false /\
        l = idx_at idx (i + Z.of_nat j) (seg_s s) /\ w = idx_at idx (i + Z.of_nat j) []
  end.
Proof.
  revert i acc min. induction segs as [|seg segs IH]; intros i acc min Hw Hb Hacc; cbn [min_loop].
  { destruct acc as [[l w]|]; [by left|done]. }
  destruct Hw as [Hm Hw]. destruct (multi seg) eqn:Em.
  { destruct (Hm eq_refl) as [Hwild ->]. destruct acc as [[l w]|]; [by left|]. split; [done|]. by apply Forall_singleton. }
  assert (forall acc min, (acc = None -> min = maxInt) -> match min_loop idx (i + 1) segs acc min with
    | None => acc = None /\ Forall (fun s => wild s = true) segs
    | Some (l, w) => acc = Some (l, w) \/
      exists j s, (seg :: segs) !! j = Some s /\ multi s = false /\ wild s = false /\
        l = idx_at idx (i + Z.of_nat j) (seg_s s) /\ w = idx_at idx (i + Z.of_nat j) []
    end) as Hnext.
  { intros acc' min' Ha. specialize (IH (i + 1) acc' min' Hw Hb Ha). destruct (min_loop idx (i + 1) segs acc' min') as [[l w]|]; [|done].
    destruct IH as [?|(j & s & ? & ? & ? & ? & ?)]; [by left|]. right. exists (S j), s.
    replace (i + Z.of_nat (S j)) with (i + 1 + Z.of_nat j) by lia. done. }
  destruct (wild seg) eqn:Ew.
  { specialize (Hnext acc min Hacc). destruct (min_loop idx (i + 1) segs acc min) as [[l w]|]; [done|].
    destruct Hnext as [-> ?]. split; [done|]. by constructor. }
  destruct (_ <? min) eqn:Elt.
  - specialize (Hnext (Some (idx_at idx i (seg_s seg), idx_at idx i [])) (len (idx_at idx i (seg_s seg)) + len (idx_at idx i [])) ltac:(done)).
    destruct (min_loop _ _ _ _ _) as [[l w]|]; [|by destruct Hnext]. destruct Hnext as [[= <- <-]|?]; [|by right].
    right. exists 0%nat, seg. by rewrite Z.add_0_r.
  - destruct acc as [[la wa]|].
    + specialize (Hnext (Some (la, wa)) min ltac:(done)). cbn [from_option id]. by destruct (min_loop _ _ _ _ _) as [[l w]|]; [|destruct Hnext].
    + rewrite Hacc in Elt by done. apply Z.ltb_ge in Elt. specialize (Hb i (seg_s seg)). lia.
Qed.

(** The patterns examined are registered, and no conflicting one is left out. *)
Lemma index_complete {E} idx pats pat (f : pattern -> option E) :
  idx_ok idx pats -> 2 * len pats < maxInt -> wf_segs (segments pat) -> segments pat <> [] ->
  Forall (fun s => wild s = true -> seg_s s <> str "/") (segments pat) ->
  Forall (fun q => wf_segs (segments q) /\ segments q <> []) pats ->
  (forall q, q ∈ pats -> is_Some (f q) <-> conflictsWith pat q = true) ->
  possiblyConflictingPatterns idx pat f = None <-> (forall q, q ∈ pats -> conflictsWith pat q = false).
Proof.
  intros (Hm & Hs & Hl) Hsize Hw Hne Hnames Hwf Hf. rewrite Forall_forall in Hwf.
  assert ((forall q, q ∈ pats -> conflictsWith pat q = false) <-> (forall q, q ∈ pats -> f q = None)) as ->.
  { split; intros Hall q Hq; specialize (Hall q Hq); specialize (Hf q Hq).
    - rewrite Hall in Hf. destruct (f q); [|done]. exfalso. destruct Hf as [Hf _]. discriminate Hf. by eexists.
    - apply not_true_is_false. intros Hc. rewrite <- Hf, Hall in Hc. by destruct Hc. }
  (* a conflicting pattern without a multi has, at each segment of pat, a segment that fits *)
  assert (forall q i s, q ∈ pats -> multi (lastSegment q) = false -> f q <> None -> segments pat !! i = Some s -> multi s = false ->
    exists s2, segments q !! i = Some s2 /\ multi s2 = false /\ compareSegments s s2 <> disjoint_) as Hfit.
  { intros q i s Hq Hlast Hfq Hi Hms. destruct (Hwf q Hq) as [Hwq _]. eapply cp_at; [exact Hw|exact Hwq| |done|done|done].
    apply conflict_cp; [done|done|]. apply Hf; [done|]. destruct (f q); [by eexists|done]. }
  assert (forall l, (forall q, q ∈ l -> q ∈ pats) -> (forall q, q ∈ pats -> multi (lastSegment q) = false -> f q <> None -> q ∈ l) ->
    apply_pats f (idx_multis idx) = None -> (apply_pats f l = None <-> forall q, q ∈ pats -> f q = None)) as Hcover.
  { intros l Hsub Hcov Hmul. rewrite apply_pats_None in Hmul. rewrite apply_pats_None. split; [|by auto].
    intros Hall q Hq. destruct (multi (lastSegment q)) eqn:Eq; [by apply Hmul, Hm|].
    destruct (f q) eqn:Efq; [|done]. rewrite <- Efq. apply Hall, Hcov; [done|done|congruence]. }
  unfold possiblyConflictingPatterns. destruct (apply_pats f (idx_multis idx)) eqn:Emul.
  { split; [done|]. intros Hall. rewrite (proj2 (apply_pats_None f (idx_multis idx))) in Emul; [done|].
    intros q Hq. by apply Hall, Hm. }
  assert (exists s, segments pat !! (length (segments pat) - 1)%nat = Some s /\ lastSegment pat = s) as (s & Hlast & Es).
  { unfold lastSegment. destruct (segments pat) as [|s0 l]; [done|]. exists (List.last (s0 :: l) no_segment). split; [|done].
    clear. revert s0. induction l as [|x l IH]; intros s0; [done|]. cbn [length List.last]. rewrite Nat.sub_succ, Nat.sub_0_r.
    specialize (IH x). cbn [length] in IH. rewrite Nat.sub_succ, Nat.sub_0_r in IH. cbn. exact IH. }
  rewrite Es. destruct (bool_decide_reflect (seg_s s = str "/")) as [Hsl|Hsl].
  - apply Hcover; [intros q [? _]%Hs; done| |done]. intros q Hq Hml Hfq. apply Hs. split_and!; try done.
    assert (wild s = false) as Hws.
    { destruct (wild s) eqn:Ew; [|done]. rewrite Forall_lookup in Hnames. by destruct (Hnames _ _ Hlast Ew). }
    assert (multi s = false) as Hms.
    { destruct (multi s) eqn:Ems; [|done]. clear -Hw Hlast Ems Hws. revert Hlast. generalize (length (segments pat) - 1)%nat.
      induction (segments pat) as [|t l IH]; intros k Hk; [done|]. destruct Hw as [Ht Hw]. destruct k; cbn in Hk; [|by eapply IH].
      simplify_eq. by destruct (Ht Ems); congruence. }
    destruct (Hfit q _ s Hq Hml Hfq Hlast Hms) as (s2 & Hs2 & Hm2 & Hc). exists s2.
    unfold len. replace (Z.to_nat (Z.of_nat (length (segments pat)) - 1)) with (length (segments pat) - 1)%nat by lia.
    split; [done|]. assert (length (segments pat) <> 0)%nat by (by destruct (segments pat)). split; [lia|].
    unfold idx_key. unfold compareSegments in Hc. rewrite Hms, Hm2, Hws in Hc. cbn [andb] in Hc.
    destruct (wild s2); [by rewrite decide_True in Hc|]. destruct (decide (seg_s s = seg_s s2)) as [E'|]; [congruence|done].
  - pose proof (min_loop_spec idx 0 (segments pat) None maxInt Hw) as Hmin.
    destruct (min_loop idx 0 (segments pat) None maxInt) as [[l w]|].
    + destruct Hmin as [?|(j & t & Hj & Hmt & Hwt & -> & ->)]; try done.
      { intros pos x. pose proof (Hl pos x). pose proof (Hl pos []). lia. }
      rewrite Z.add_0_l. rewrite <- Hcover with (l := idx_at idx (Z.of_nat j) (seg_s t) ++ idx_at idx (Z.of_nat j) []); try done.
      * rewrite apply_pats_None. setoid_rewrite elem_of_app.
        destruct (apply_pats f (idx_at idx (Z.of_nat j) (seg_s t))) eqn:E1.
        -- split; [done|]. intros Hall. rewrite (proj2 (apply_pats_None f _)) in E1; [done|]. auto.
        -- rewrite apply_pats_None in E1. rewrite apply_pats_None. naive_solver.
      * intros q [[? _]%Hs|[? _]%Hs]%elem_of_app; done.
      * intros q Hq Hml Hfq. destruct (Hfit q j t Hq Hml Hfq Hj Hmt) as (s2 & Hs2 & Hm2 & Hc).
        apply elem_of_app. unfold compareSegments in Hc. rewrite Hmt, Hm2, Hwt in Hc. cbn [andb] in Hc.
        destruct (wild s2) eqn:Ew2; [right|left]; apply Hs; (split_and!; [done|done|]); exists s2; rewrite Nat2Z.id;
          (split_and!; [done|lia|]); unfold idx_key; rewrite Ew2; [done|].
        destruct (decide (seg_s t = seg_s s2)); [congruence|done].
    + destruct Hmin as [_ Hall]; [intros pos x; pose proof (Hl pos x); pose proof (Hl pos []); lia|done|].
      apply Hcover; [| |done].
      * intros q Hq. apply elem_of_concat in Hq as (l & Hq & Hin). apply list_elem_of_fmap in Hin as ([[pos x] l'] & -> & Hin).
        apply elem_of_map_to_list in Hin. cbn in Hq. apply (Hs pos x). unfold idx_at. by rewrite Hin.
      * intros q Hq Hml Hfq. destruct (Hwf q Hq) as [_ Hqne]. destruct (segments q) as [|s2 l2] eqn:Eq; [done|].
        assert (q ∈ idx_at idx 0 (idx_key s2)) as Hin by (apply Hs; split_and!; [done|done|]; exists s2; by rewrite Eq).
        unfold idx_at in Hin. destruct (idx_segments idx !! (0, idx_key s2)) as [l|] eqn:El; [|by apply elem_of_nil in Hin].
        apply elem_of_concat. exists l. split; [done|]. apply list_elem_of_fmap. exists (0, idx_key s2, l). split; [done|].
        by apply elem_of_map_to_list.
Qed.
