(* ===== verification/Mux.v ===== *)
(** * net/http: the request multiplexer

    [tools/go-patched/src/net/http/server.go]: ServeMux, the registration of a pattern,
    the lookup of a request with its two kinds of redirection, and the answer when only
    the method does not match.  The proxy's API server routes its requests with one.
    The old multiplexer that GODEBUG can select, and the mutex of ServeMux, are not
    modelled. *)

From stdpp Require Import sorting.
From S2P Require Import Prelude HostPort Strings Url UrlParse PathClean Pattern Routing.
Local Open Scope go_scope.
Local Set Warnings "-clear-no-such-hyp".

Section Mux.
Context {H : Type}.

Record ServeMux := mk_ServeMux {
  mux_tree : routingNode H;
  mux_index : routingIndex;
  mux_patterns : list pattern;
}.

Definition NewServeMux : ServeMux := mk_ServeMux new_node empty_index [].

(** The error, or the panic ([None]) of the tree.  The message of a conflict names the
    two patterns. *)
Inductive mux_error :=
  | InvalidPattern
  | NilHandler
  | ParseError (patstr : gostring) (off : option Z) (e : error)
  | Conflict (p1 p2 : pattern).

Definition conflict_with (pat pat2 : pattern) : option mux_error :=
  if conflictsWith pat pat2 then Some (Conflict pat pat2) else None.

Definition registerErr (mux : ServeMux) (patstr : gostring) (handler : option H) : option (ServeMux + mux_error) :=
  if bool_decide (patstr = []) then Some (inr InvalidPattern) else
  match handler with
  | None => Some (inr NilHandler)
  | Some h =>
      match parsePattern patstr with
      | inr (off, e) => Some (inr (ParseError patstr off e))
      | inl pat =>
          match possiblyConflictingPatterns (mux_index mux) pat (conflict_with pat) with
          | Some e => Some (inr e)
          | None =>
              tree ← addPattern (mux_tree mux) pat h;
              Some (inl (mk_ServeMux tree (idx_addPattern (mux_index mux) pat) (mux_patterns mux ++ [pat])))
          end
      end
  end.

(** [HandleFunc], which panics on an error; a sequence of registrations. *)
Definition register (mux : ServeMux) (patstr : gostring) (h : H) : option ServeMux :=
  match registerErr mux patstr (Some h) with Some (inl mux) => Some mux | _ => None end.

Fixpoint register_all (mux : ServeMux) (pats : list (gostring * H)) : option ServeMux :=
  match pats with
  | [] => Some mux
  | (s, h) :: pats => mux ← register mux s h; register_all mux pats
  end.

(** ** Lookup *)

Definition stripHostPort (h : gostring) : option gostring :=
  if negb (Contains h (str ":")) then Some h
  else
    r ← SplitHostPort h;
    match r with Ok (host, _) => Some host | Err _ => Some h end.

Definition exactMatch (n : option (pattern * H * list gostring)) (path : gostring) : bool :=
  match n with
  | None => false
  | Some (p, _, _) =>
      if negb (multi (lastSegment p)) then true
      else if (0 <? len path) && negb (List.last path 0 =? slash) then false
      else len (segments p) =? Count path (str "/")
  end.

(** A URL with a path and a query only. *)
Definition path_URL (p q : gostring) : URL := with_query (with_path new_URL p []) false q.

(** [url] nil: no trailing-slash redirection. *)
Definition matchOrRedirect (mux : ServeMux) (host method path : gostring) (u : option URL)
    : option (option (pattern * H * list gostring) * option URL) :=
  n ← tree_match (mux_tree mux) host method path;
  match exactMatch n path, u with
  | false, Some u =>
      let path := path ++ [slash] in
      n2 ← tree_match (mux_tree mux) host method path;
      if exactMatch n2 path then
        p ← cleanPath (Path u);
        Some (None, Some (path_URL (p ++ [slash]) (RawQuery u)))
      else Some (n, None)
  | _, _ => Some (n, None)
  end.

Definition mux_matchingMethods (mux : ServeMux) (host path : gostring) : option (list gostring) :=
  ms ← tree_matchingMethods (mux_tree mux) host path ∅;
  ms ← tree_matchingMethods (mux_tree mux) host (path ++ [slash]) ms;
  Some (sort_Strings (base.elements ms)).

(** The parts of a request that the multiplexer and the handlers look at. *)
Record Request := mk_Request {
  Method : gostring;
  req_Host : gostring;
  req_URL : URL;
  RequestURI : gostring;
  RemoteAddr : gostring;
  ProtoMajor : Z;
  ProtoMinor : Z;
}.

Definition ProtoAtLeast (r : Request) (major minor : Z) : bool :=
  (major <? ProtoMajor r) || ((ProtoMajor r =? major) && (minor <=? ProtoMinor r)).

(** What ServeHTTP calls: a registered handler with its pattern and the values of its
    wildcards, a redirection (with the pattern string that Handler reports), the two
    error answers, or the answer to [*]. *)
Inductive answer :=
  | Handler (h : H) (p : pattern) (matches : list gostring)
  | Redirect (url patStr : gostring)
  | MethodNotAllowed (allow : list gostring)
  | NotFound
  | BadRequest.

(** The end of findHandler. *)
Definition answer_of (mux : ServeMux) (host path : gostring) (n : option (pattern * H * list gostring)) : option answer :=
  match n with
  | Some (p, h, ms) => Some (Handler h p ms)
  | None =>
      allowed ← mux_matchingMethods mux host path;
      Some (if bool_decide (allowed = []) then NotFound else MethodNotAllowed allowed)
  end.

Definition findHandler (mux : ServeMux) (r : Request) : option answer :=
  let escapedPath := EscapedPath (req_URL r) in
  if bool_decide (Method r = str "CONNECT") then
    '(_, u) ← matchOrRedirect mux (Host (req_URL r)) (Method r) escapedPath (Some (req_URL r));
    match u with
    | Some u => Some (Redirect (String_ u) (Path u))
    | None =>
        '(n, _) ← matchOrRedirect mux (req_Host r) (Method r) escapedPath None;
        answer_of mux (Host (req_URL r)) escapedPath n
    end
  else
    host ← stripHostPort (req_Host r);
    path ← cleanPath escapedPath;
    '(n, u) ← matchOrRedirect mux host (Method r) path (Some (req_URL r));
    match u with
    | Some u => Some (Redirect (String_ u) (Path u))
    | None =>
        if negb (bool_decide (path = escapedPath)) then
          Some (Redirect (String_ (path_URL path (RawQuery (req_URL r))))
                  (match n with Some (p, _, _) => pat_str p | None => [] end))
        else answer_of mux host path n
    end.

Definition ServeHTTP (mux : ServeMux) (r : Request) : option answer :=
  if bool_decide (RequestURI r = str "*") then Some BadRequest else findHandler mux r.

(** ** The multiplexer as a set of patterns *)

Record mux_ok (mux : ServeMux) (regs : list (pattern * H)) : Prop := {
  ok_tree : tree_wf (mux_tree mux);
  ok_star : star_ok 2 (mux_tree mux);
  ok_leaves : forall ks v, leaf_at (mux_tree mux) ks = Some v <-> v ∈ regs /\ ks = pat_keys v.1;
  ok_index : idx_ok (mux_index mux) (map fst regs);
  ok_patterns : mux_patterns mux = map fst regs;
  ok_segs : Forall (fun v => wf_segs (segments v.1) /\ segments v.1 <> [] /\ ordinary_segs (segments v.1)) regs;
  ok_conflicts : forall v v', v ∈ regs -> v' ∈ regs -> v = v' \/ conflictsWith v.1 v'.1 = false;
}.

Lemma mux_ok_new : mux_ok NewServeMux [].
Proof.
  split; cbn.
  - apply tree_wf_new.
  - apply star_ok_new.
  - intros ks v. rewrite leaf_at_new, elem_of_nil. naive_solver.
  - apply idx_ok_empty.
  - done.
  - constructor.
  - by intros v v' ?%elem_of_nil.
Qed.

(** Patterns with the same keys match the same requests. *)
Lemma same_keys_conflict p q :
  wf_segs (segments p) -> wf_segs (segments q) -> ordinary_segs (segments p) -> ordinary_segs (segments q) ->
  pat_keys p = pat_keys q -> conflictsWith p q = true.
Proof.
  intros Hp Hq Op Oq [= Hh Hm Hk]. unfold conflictsWith. rewrite bool_decide_true by done. cbn [negb].
  unfold comparePathsAndMethods, compareMethods. rewrite (decide_True _ _ Hm). rewrite decide_False by done. cbn [combineRelationships].
  by rewrite comparePaths_cp, keys_equivalent.
Qed.

Lemma keys_ok_pat p : wf_segs (segments p) -> ordinary_segs (segments p) -> keys_ok 2 (pat_keys p).
Proof. intros Hw Ho. cbn. split; [done|]. split; [done|]. by apply keys_ok_segs. Qed.

Lemma register_ok mux regs patstr p h :
  mux_ok mux regs -> parsePattern patstr = inl p -> ordinary_segs (segments p) -> 2 * len regs < maxInt ->
  ((exists v, v ∈ regs /\ conflictsWith p v.1 = true) /\ exists q, registerErr mux patstr (Some h) = Some (inr (Conflict p q)) /\ conflictsWith p q = true)
  \/
  ((forall v, v ∈ regs -> conflictsWith p v.1 = false) /\
   exists mux', registerErr mux patstr (Some h) = Some (inl mux') /\ mux_ok mux' (regs ++ [(p, h)])).
Proof.
  intros Hok Hparse Hord Hsize. destruct (parsePattern_wf _ _ Hparse) as [Hw Hne]. pose proof (parsePattern_names _ _ Hparse) as Hnames.
  assert (registerErr mux patstr (Some h) =
    match possiblyConflictingPatterns (mux_index mux) p (conflict_with p) with
    | Some e => Some (inr e)
    | None => tree ← addPattern (mux_tree mux) p h;
              Some (inl (mk_ServeMux tree (idx_addPattern (mux_index mux) p) (mux_patterns mux ++ [p])))
    end) as ->.
  { unfold registerErr. destruct (bool_decide_reflect (patstr = [])) as [->|]; [by vm_compute in Hparse|]. by rewrite Hparse. }
  pose proof (ok_segs _ _ Hok) as Hsegs. rewrite Forall_forall in Hsegs.
  assert (possiblyConflictingPatterns (mux_index mux) p (conflict_with p) = None <->
    (forall q, q ∈ map fst regs -> conflictsWith p q = false)) as Hidx.
  { apply index_complete; try done; [apply Hok|unfold len in *; by rewrite length_map| |].
    - apply Forall_forall. intros q Hq. apply list_elem_of_fmap in Hq as (v & -> & Hv). destruct (Hsegs v Hv) as (? & ? & _). done.
    - intros q _. unfold conflict_with. destruct (conflictsWith p q); split; try done; by intros []. }
  assert (forall e, possiblyConflictingPatterns (mux_index mux) p (conflict_with p) = Some e -> exists q, e = Conflict p q /\ conflictsWith p q = true) as Herr.
  { assert (forall l e, apply_pats (conflict_with p) l = Some e -> exists q, e = Conflict p q /\ conflictsWith p q = true) as Happ.
    { induction l as [|q l IH]; intros e; cbn [apply_pats]; [done|]. unfold conflict_with at 1.
      destruct (conflictsWith p q) eqn:Ec; [intros [= <-]; by exists q|apply IH]. }
    assert (forall l1 l2 e, match apply_pats (conflict_with p) l1 with Some e => Some e | None => apply_pats (conflict_with p) l2 end = Some e ->
      exists q, e = Conflict p q /\ conflictsWith p q = true) as Happ2.
    { intros l1 l2 e. destruct (apply_pats (conflict_with p) l1) eqn:E; [intros [= <-]|]; eauto. }
    unfold possiblyConflictingPatterns. intros e. destruct (apply_pats (conflict_with p) (idx_multis (mux_index mux))) eqn:E; [intros [= <-]; eauto|].
    destruct (bool_decide (seg_s (lastSegment p) = str "/")); [eauto|]. destruct (min_loop _ _ _ _ _) as [[l w]|]; eauto. }
  destruct (possiblyConflictingPatterns (mux_index mux) p (conflict_with p)) as [e|] eqn:Ep.
  - left. destruct (Herr e eq_refl) as (q & -> & Hc). split; [|by exists q].
    destruct (decide (Exists (fun v => conflictsWith p v.1 = true) regs)) as [Hex|Hex].
    + apply Exists_exists in Hex as (v & ? & ?). by exists v.
    + exfalso. apply not_Exists_Forall in Hex; [|apply _]. rewrite Forall_forall in Hex.
      destruct Hidx as [_ Hidx]. discriminate Hidx. intros q' Hq'. apply list_elem_of_fmap in Hq' as (v & -> & Hv).
      apply not_true_is_false. by apply Hex.
  - right. assert (forall v, v ∈ regs -> conflictsWith p v.1 = false) as Hno.
    { intros v Hv. apply Hidx; [done|]. apply list_elem_of_fmap. by exists v. }
    split; [done|]. rewrite addPattern_keys by done.
    destruct (add_keys_some (pat_keys p) (mux_tree mux) (p, h)) as [t Ht].
    { apply Hok. }
    { destruct (leaf_at (mux_tree mux) (pat_keys p)) as [v|] eqn:El; [|done]. apply (ok_leaves _ _ Hok) in El as [Hv Hk].
      destruct (Hsegs v Hv) as (? & ? & ?). specialize (Hno v Hv). by rewrite same_keys_conflict in Hno. }
    rewrite Ht. cbn [mbind option_bind]. eexists. split; [done|].
    destruct (add_keys_spec _ _ _ _ (ok_tree _ _ Hok) Ht) as (Hw' & Hnone & Hl'). split; cbn.
    + done.
    + eapply add_keys_star; [apply Hok|apply Hok|by apply keys_ok_pat|exact Ht].
    + intros ks v. rewrite Hl', elem_of_app, list_elem_of_singleton. destruct (decide (pat_keys p = ks)) as [<-|Hk].
      * split; [intros [= <-]; by split; [right|]|]. intros [[Hv| ->] Hk]; [|done].
        destruct (Hsegs v Hv) as (? & ? & ?). specialize (Hno v Hv). by rewrite same_keys_conflict in Hno.
      * rewrite (ok_leaves _ _ Hok). split; [naive_solver|]. intros [[?| ->] ->]; [done|by destruct Hk].
    + rewrite map_app. cbn. by apply idx_ok_add, Hok.
    + rewrite map_app. cbn. by rewrite (ok_patterns _ _ Hok).
    + apply Forall_app. split; [apply Hok|]. by apply Forall_singleton.
    + intros v v' [Hv| ->%list_elem_of_singleton]%elem_of_app [Hv'| ->%list_elem_of_singleton]%elem_of_app.
      * by apply Hok.
      * right. cbn. destruct (Hsegs v Hv) as (? & _). rewrite conflicts_sym by done. by apply Hno.
      * right. by apply Hno.
      * by left.
Qed.
(** The registered patterns with their handlers. *)
Definition parsed (pats : list (gostring * H)) : list (pattern * H) :=
  omap (fun '(s, h) => match parsePattern s with inl p => Some (p, h) | inr _ => None end) pats.

Lemma parsed_cons s h p pats : parsePattern s = inl p -> parsed ((s, h) :: pats) = (p, h) :: parsed pats.
Proof. intros Hp. unfold parsed. cbn [omap list_omap]. by rewrite Hp. Qed.

(** Every pattern parses, and no literal segment is the key of a wildcard. *)
Definition plain_patterns (pats : list (gostring * H)) : Prop :=
  Forall (fun v => exists p, parsePattern v.1 = inl p /\ ordinary_segs (segments p)) pats.

Lemma register_all_ok pats mux regs mux' :
  mux_ok mux regs -> plain_patterns pats -> 2 * (len regs + len pats) < maxInt ->
  register_all mux pats = Some mux' -> mux_ok mux' (regs ++ parsed pats).
Proof.
  intros Hok Hp. revert mux regs Hok. induction Hp as [|[s h] pats (p & Hparse & Hord) Hp IH]; intros mux regs Hok Hlen; cbn [register_all].
  { intros [= <-]. by rewrite app_nil_r. }
  rewrite len_cons in Hlen. pose proof (len_nonneg pats). unfold register. cbn [fst] in Hparse.
  destruct (register_ok mux regs s p h Hok Hparse Hord) as [(_ & q & -> & _)|(_ & mux1 & -> & Hok1)]; [lia|done|].
  cbn [mbind option_bind]. intros Hr. rewrite (parsed_cons s h p) by done. rewrite cons_middle, app_assoc.
  eapply IH; [exact Hok1| |exact Hr]. rewrite len_app. change (len [(p, h)]) with 1. lia.
Qed.

(** ** Lookup finds the most specific pattern *)

(** The values of the wildcards of a path. *)
Fixpoint wild_values (segs : list segment) (path : gostring) : list gostring :=
  match segs with
  | [] => []
  | s :: segs =>
      let '(seg, rest) := firstSegment path in
      if multi s then if bool_decide (seg_s s = []) then [] else [pathUnescape (drop 1 path)]
      else if wild s then seg :: wild_values segs rest
      else wild_values segs rest
  end.

Lemma kvalues_wild p segs path :
  wf_segs segs -> ordinary_segs segs -> List.last segs no_segment = lastSegment p ->
  kvalues p (map seg_key segs) path = wild_values segs path.
Proof.
  intros Hw Ho. revert path Hw. induction Ho as [|s segs Hs Ho IH]; intros path Hw Hlast; [done|].
  destruct Hw as [Hm Hw]. cbn [map kvalues wild_values]. destruct (firstSegment path) as [seg rest]. destruct (multi s) eqn:Em.
  - rewrite seg_key_multi, decide_True by done. destruct (Hm eq_refl) as [_ ->]. cbn in Hlast. rewrite <- Hlast.
    by destruct (bool_decide _).
  - assert (segs = [] \/ List.last segs no_segment = lastSegment p) as Hl by (destruct segs; auto).
    assert (kvalues p (map seg_key segs) rest = wild_values segs rest) as IH' by (destruct Hl as [->|]; auto).
    destruct (wild s) eqn:Ew.
    + rewrite seg_key_wild, decide_False, decide_True by done. by f_equal.
    + rewrite seg_key_lit by done. destruct (Hs eq_refl). by rewrite !decide_False.
Qed.

(** Of two patterns that match one request, that do not conflict and of which the first
    is not the more general, it is the more specific. *)
Lemma match_specific p q r :
  wf_segs (segments p) -> wf_segs (segments q) -> pat_host p = pat_host q -> conflictsWith p q = false ->
  pattern_matches p r -> pattern_matches q r -> comparePathsAndMethods p q <> moreGeneral ->
  comparePathsAndMethods p q = moreSpecific.
Proof.
  intros Hp Hq Hh Hc Mp Mq Hg. pose proof (related_patterns p q Hp Hq) as Hr. unfold conflictsWith in Hc.
  rewrite bool_decide_true in Hc by done. cbn [negb] in Hc. destruct (comparePathsAndMethods p q); cbn [related] in Hr; try done.
  by destruct (Hr r).
Qed.

Lemma method_specific p q :
  compareMethods p q = moreSpecific -> comparePathsAndMethods p q <> moreGeneral.
Proof. unfold comparePathsAndMethods. intros ->. rewrite decide_False by done. by destruct (comparePaths p q). Qed.

(** What a lookup among the patterns of [S] gives. *)
Definition best (regs : list (pattern * H)) (S : pattern -> Prop) (method path : gostring)
    (r : option (pattern * H * list gostring)) : Prop :=
  match r with
  | None => forall v, v ∈ regs -> S v.1 -> ~ pattern_matches v.1 (method, segs_of path)
  | Some (p, h, ms) =>
      (p, h) ∈ regs /\ S p /\ pattern_matches p (method, segs_of path) /\
      (no_empty (segs_of path) -> ms = wild_values (segments p) path) /\
      forall v, v ∈ regs -> S v.1 -> pattern_matches v.1 (method, segs_of path) ->
        v = (p, h) \/ comparePathsAndMethods p v.1 = moreSpecific
  end.

(** What a request finds: the best pattern for its host if there is one, else the best
    pattern without a host. *)
Definition lookup_spec (regs : list (pattern * H)) (host method path : gostring) (r : option (pattern * H * list gostring)) : Prop :=
  match r with
  | None => forall v, v ∈ regs -> pat_host v.1 = host \/ pat_host v.1 = [] -> ~ pattern_matches v.1 (method, segs_of path)
  | Some (p, _, _) =>
      best regs (fun q => pat_host q = pat_host p) method path r /\
      (pat_host p = host \/
       pat_host p = [] /\ forall v, v ∈ regs -> pat_host v.1 = host -> ~ pattern_matches v.1 (method, segs_of path))
  end.

Section Lookup.
Context (mux : ServeMux) (regs : list (pattern * H)) (Hok : mux_ok mux regs).
Context (path : gostring) (Hpath : no_star (segs_of path)).

Lemma lookup_node host m method :
  mmatch m method ->
  exists r, match_path (get (mux_tree mux) [host; m]) path = Some r /\
    best regs (fun p => pat_host p = host /\ pat_method p = m) method path r.
Proof using Hok Hpath.
  intros Hmm. pose proof (ok_segs _ _ Hok) as Hsegs. rewrite Forall_forall in Hsegs.
  destruct (get (mux_tree mux) [host; m]) as [n|] eqn:Hg.
  - assert (forall ks, leaf_at n ks = leaf_at (mux_tree mux) (host :: m :: ks)) as Hleaf.
    { intros ks. cbn [get] in Hg. apply bind_Some in Hg as (c & Hc & Hg). apply bind_Some in Hg as (c' & Hc' & Hg). simplify_eq.
      rewrite leaf_at_cons, Hc. cbn [mbind option_bind]. by rewrite leaf_at_cons, Hc'. }
    assert (star_ok 0 n) as Hstar.
    { intros ks n' c _ Hn' Hc. eapply (ok_star _ _ Hok (host :: m :: ks)); [cbn; lia| |exact Hc].
      cbn [get] in Hg |- *. apply bind_Some in Hg as (x & -> & Hg). cbn [mbind option_bind] in *. apply bind_Some in Hg as (y & -> & Hg). by simplify_eq. }
    destruct (matchPath_ok (length path) n path [] ltac:(done) Hstar Hpath) as (r & Hr & Hf). exists r. split; [exact Hr|].
    destruct r as [[[p h] ms]|]; cbn [best found_ok] in *.
    + destruct Hf as (ks & Hl & Hk & Hms & Hbest). rewrite Hleaf in Hl. apply (ok_leaves _ _ Hok) in Hl as [Hin Heq]. injection Heq as -> -> ->.
      destruct (Hsegs _ Hin) as (Hw & _ & Ho). cbn [fst] in *. rewrite <- pmatch_kmatch in Hk by done.
      split_and!; try done; [intros He; rewrite Hms by done; by apply kvalues_wild|]. intros v Hv [Hh Hm] Hvm. destruct (ok_conflicts _ _ Hok _ _ Hin Hv) as [->|Hc]; [by left|right].
      destruct (Hsegs _ Hv) as (Hwv & _ & Hov). cbn [fst] in Hc. eapply match_specific; [done..| |exact Hvm|]; [by split|].
      unfold comparePathsAndMethods, compareMethods. rewrite (decide_True (P := pat_method p = pat_method v.1)) by done. rewrite decide_False by done. cbn [combineRelationships].
      rewrite comparePaths_cp by done. apply prefers_not_general; try done. eapply Hbest; [|rewrite <- pmatch_kmatch; [apply Hvm|done..]].
      rewrite Hleaf. apply (ok_leaves _ _ Hok). split; [exact Hv|]. unfold pat_keys. congruence.
    + intros v Hv [Hh Hm] [_ Hvm]. destruct (Hsegs _ Hv) as (Hwv & _ & Hov). cbn [snd] in Hvm. rewrite pmatch_kmatch in Hvm by done.
      eapply Hf; [|exact Hvm]. rewrite Hleaf. apply (ok_leaves _ _ Hok). split; [exact Hv|]. unfold pat_keys. congruence.
  - exists None. unfold match_path. split; [by destruct (length path)|]. intros v Hv [Hh Hm] _.
    assert (leaf_at (mux_tree mux) (pat_keys v.1) = Some v) as Hl by (by apply (ok_leaves _ _ Hok)).
    unfold leaf_at, pat_keys in Hl. rewrite Hh, Hm in Hl. cbn [get] in Hg, Hl.
    destruct (findChild (mux_tree mux) host) as [c|]; cbn [mbind option_bind] in *; [|done].
    destruct (findChild c m) as [c'|]; cbn [mbind option_bind] in *; done.
Qed.

(** Two lookups one after the other; the patterns of the first win. *)
Lemma or_else_best S S' method r1 r2 :
  (exists r, r1 = Some r /\ best regs S method path r) -> (exists r, r2 = Some r /\ best regs S' method path r) ->
  (forall p q, S p -> S' q -> S q \/ pat_host p = pat_host q /\ compareMethods p q = moreSpecific) ->
  exists r, or_else r1 r2 = Some r /\ best regs (fun p => S p \/ S' p) method path r.
Proof using Hok.
  intros (x1 & -> & H1) (x2 & -> & H2) Hsp. unfold or_else. cbn [mbind option_bind].
  pose proof (ok_segs _ _ Hok) as Hsegs. rewrite Forall_forall in Hsegs. destruct x1 as [[[p h] ms]|].
  - eexists. split; [done|]. destruct H1 as (Hin & HS & Hm & Hms & Hb). split_and!; [done|by left|done|done|].
    intros v Hv [Hv1|Hv2] Hvm; [by apply Hb|]. destruct (Hsp p v.1 HS Hv2) as [?|[Hh Hsm]]; [by apply Hb|].
    destruct (ok_conflicts _ _ Hok _ _ Hin Hv) as [->|Hc]; [by left|right].
    destruct (Hsegs _ Hin) as (Hw & _ & _), (Hsegs _ Hv) as (Hwv & _ & _). eapply match_specific; try done. by apply method_specific.
  - exists x2. split; [done|]. destruct x2 as [[[p h] ms]|].
    + destruct H2 as (Hin & HS & Hm & Hms & Hb). split_and!; [done|by right|done|done|].
      intros v Hv [Hv1|Hv2] Hvm; [by destruct (H1 v Hv Hv1)|by apply Hb].
    + intros v Hv [Hv1|Hv2] Hvm; [by destruct (H1 v Hv Hv1)|by destruct (H2 v Hv Hv2)].
Qed.
Lemma best_ext S S' method r :
  (forall v, v ∈ regs -> pattern_matches v.1 (method, segs_of path) -> S v.1 <-> S' v.1) ->
  best regs S method path r -> best regs S' method path r.
Proof using.
  intros He. destruct r as [[[p h] ms]|]; cbn [best].
  - intros (Hin & HS & Hm & Hms & Hb). split_and!; try done; [by apply (He (p, h))|]. intros v Hv HS' Hvm. apply Hb; [done| |done]. by apply He.
  - intros Hn v Hv HS' Hvm. apply (Hn v Hv); [|done]. by apply He.
Qed.

Lemma lookup_host host method :
  exists r, matchMethodAndPath (findChild (mux_tree mux) host) method path = Some r /\
    best regs (fun p => pat_host p = host) method path r.
Proof using Hok Hpath.
  assert (forall m, mmatch m method -> exists r, match_path (c ← findChild (mux_tree mux) host; findChild c m) path = Some r /\
    best regs (fun p => pat_host p = host /\ pat_method p = m) method path r) as Hnode.
  { intros m Hm. destruct (lookup_node host m method Hm) as (r & Hr & Hb). exists r. split; [|done]. rewrite <- Hr. f_equal. cbn [get].
    destruct (findChild (mux_tree mux) host) as [c|]; [|done]. cbn [mbind option_bind]. by destruct (findChild c m). }
  set (S2 := fun p => method = str "HEAD" /\ pat_host p = host /\ pat_method p = str "GET").
  assert (exists r, (if bool_decide (method = str "HEAD") then match_path (c ← findChild (mux_tree mux) host; findChild c (str "GET")) path else Some None) = Some r /\
    best regs S2 method path r) as HGET.
  { destruct (bool_decide_reflect (method = str "HEAD")) as [E|E].
    - destruct (Hnode (str "GET")) as (r & -> & Hb); [by right; right|]. exists r. split; [done|]. eapply best_ext; [|exact Hb]. subst S2. naive_solver.
    - exists None. split; [done|]. intros v _ [? _]. done. }
  destruct (or_else_best _ _ _ _ _ HGET (Hnode [] ltac:(by left))) as (r' & Hr' & Hb').
  { intros p q (_ & Hh & Hm) [Hh' Hm']. right. split; [congruence|]. unfold compareMethods. by rewrite Hm, Hm'. }
  destruct (or_else_best _ _ _ _ _ (Hnode method ltac:(by right; left)) (ex_intro _ r' (conj Hr' Hb'))) as (r & Hr & Hb).
  { intros p q [Hh Hm] [(E & Hh' & Hm')|[Hh' Hm']].
    - right. split; [congruence|]. unfold compareMethods. by rewrite Hm, Hm', E.
    - destruct (decide (method = [])) as [->|Hne]; [by left|right]. split; [congruence|]. unfold compareMethods. rewrite Hm, Hm'.
      by rewrite decide_False, decide_False, decide_True. }
  assert (matchMethodAndPath (findChild (mux_tree mux) host) method path = Some r) as ->.
  { rewrite <- Hr. unfold matchMethodAndPath. destruct (findChild (mux_tree mux) host) as [n|]; [done|]. cbn [mbind option_bind].
    assert (match_path (None : option (routingNode H)) path = Some None) as -> by (unfold match_path; by destruct (length path)).
    by destruct (bool_decide _). }
  exists r. split; [done|]. eapply best_ext; [|exact Hb]. subst S2. intros v Hv [Hm _]. cbn in Hm |- *.
  destruct Hm as [Hm|[Hm|[Hm ->]]]; naive_solver.
Qed.

Lemma lookup_tree host method :
  exists r, tree_match (mux_tree mux) host method path = Some r /\ lookup_spec regs host method path r.
Proof using Hok Hpath.
  destruct (lookup_host [] method) as (r2 & Hr2 & Hb2). unfold tree_match.
  change (emptyChild (mux_tree mux)) with (findChild (mux_tree mux) []). rewrite Hr2.
  destruct (bool_decide_reflect (host = [])) as [->|Hne]; cbn [negb].
  - exists r2. split; [done|]. destruct r2 as [[[p h] ms]|].
    + pose proof Hb2 as (_ & Hh & _). split; [|by left]. by rewrite Hh.
    + intros v Hv Hh. apply Hb2; [done|tauto].
  - destruct (lookup_host host method) as (r1 & -> & Hb1). unfold or_else. cbn [mbind option_bind]. destruct r1 as [[[p h] ms]|].
    + eexists. split; [done|]. pose proof Hb1 as (_ & Hh & _). split; [|by left]. by rewrite Hh.
    + exists r2. split; [done|]. destruct r2 as [[[p h] ms]|].
      * pose proof Hb2 as (_ & Hh & _). split; [by rewrite Hh|]. right. split; [done|]. exact Hb1.
      * intros v Hv [Hh|Hh]; [by apply Hb1|by apply Hb2].
Qed.

(** A pattern of the host for the method, on the path. *)
Definition for_method (host m : gostring) (xs : list gostring) : Prop :=
  exists v, v ∈ regs /\ pat_host v.1 = host /\ pat_method v.1 = m /\ m <> [] /\ pmatch (segments v.1) xs.

Lemma methods_loop_spec (pairs : list (gostring * routingNode H)) set :
  (forall m c, (m, c) ∈ pairs -> exists r, match_path (Some c) path = Some r) ->
  exists set', methods_loop pairs path set = Some set' /\
    forall m, m ∈ set' <-> m ∈ set \/ exists c r, (m, c) ∈ pairs /\ match_path (Some c) path = Some (Some r).
Proof using.
  revert set. induction pairs as [|[m0 c0] pairs IH]; intros set Hp; cbn [methods_loop].
  { exists set. split; [done|]. intros m. split; [by left|]. intros [?|(c & r & []%elem_of_nil & _)]. done. }
  destruct (Hp m0 c0) as [r0 Hr0]; [apply elem_of_cons; by left|]. rewrite Hr0. cbn [mbind option_bind].
  destruct (IH (match r0 with Some _ => {[m0]} ∪ set | None => set end)) as (set' & -> & Hs').
  { intros m c Hc. apply (Hp m c). apply elem_of_cons. by right. }
  exists set'. split; [done|]. intros m. rewrite Hs'. setoid_rewrite elem_of_cons.
  destruct r0 as [r0|]; [rewrite elem_of_union, elem_of_singleton|]; naive_solver.
Qed.

Lemma methods_path host set :
  exists set', matchingMethodsPath (findChild (mux_tree mux) host) path set = Some set' /\
    forall m, m ∈ set' <-> m ∈ set \/ for_method host m (segs_of path).
Proof using Hok Hpath.
  assert (forall m, exists r, match_path (get (mux_tree mux) [host; m]) path = Some r /\
    best regs (fun p => pat_host p = host /\ pat_method p = m) m path r) as Hnode by (intros m; apply lookup_node; by right; left).
  destruct (findChild (mux_tree mux) host) as [n|] eqn:En; cbn [matchingMethodsPath].
  - destruct (tree_wf_here n (tree_wf_child _ _ _ (ok_tree _ _ Hok) En)) as [Hnd Hn0].
    assert (forall m c, (m, c) ∈ mapping_pairs (children n) -> m <> [] /\ get (mux_tree mux) [host; m] = Some c) as Hpair.
    { intros m c Hc. apply mapping_pairs_find in Hc; [|done]. assert (m <> []) as Hm by congruence. split; [done|].
      cbn [get]. rewrite En. cbn [mbind option_bind]. unfold findChild. rewrite bool_decide_false by done. by rewrite Hc. }
    destruct (methods_loop_spec (mapping_pairs (children n)) set) as (set' & -> & Hs').
    { intros m c [_ Hc]%Hpair. destruct (Hnode m) as (r & Hr & _). rewrite Hc in Hr. by exists r. }
    exists set'. split; [done|]. intros m. rewrite Hs'. apply or_iff_compat_l. split.
    + intros (c & [[p h] ms] & Hc & Hr). destruct (Hpair m c Hc) as [Hm Hg]. destruct (Hnode m) as (r' & Hr' & Hb).
      rewrite Hg, Hr in Hr'. simplify_eq. destruct Hb as (Hin & [? ?] & [_ ?] & _). exists (p, h). done.
    + intros (v & Hv & Hh & Hm & Hne & Hp). destruct (Hnode m) as (r & Hr & Hb).
      assert (exists c, get (mux_tree mux) [host; m] = Some c) as [c Hg].
      { assert (leaf_at (mux_tree mux) (pat_keys v.1) = Some v) as Hl by (by apply (ok_leaves _ _ Hok)).
        unfold leaf_at, pat_keys in Hl. rewrite Hh, Hm in Hl. apply bind_Some in Hl as (c & Hl & _). cbn [get] in Hl |- *. rewrite En in *.
        cbn [mbind option_bind] in *. destruct (findChild n m) as [c'|]; [by exists c'|done]. }
      rewrite Hg in Hr. destruct r as [r|].
      * exists c, r. split; [|done]. apply mapping_pairs_find; [done|]. cbn [get] in Hg. rewrite En in Hg. cbn [mbind option_bind] in Hg.
        unfold findChild in Hg. rewrite bool_decide_false in Hg by done. by destruct (mapping_find (children n) m).
      * exfalso. apply (Hb v Hv); [done|]. split; [|done]. cbn. rewrite Hm. by right; left.
  - exists set. split; [done|]. intros m. split; [by left|]. intros [?|(v & Hv & Hh & _)]; [done|].
    assert (leaf_at (mux_tree mux) (pat_keys v.1) = Some v) as Hl by (by apply (ok_leaves _ _ Hok)).
    unfold pat_keys in Hl. rewrite Hh, leaf_at_cons, En in Hl. done.
Qed.

(** The methods of the patterns that match the path, HEAD along with GET. *)
Definition allows (host m : gostring) (xs : list gostring) : Prop :=
  exists m', (for_method host m' xs \/ for_method [] m' xs) /\ mmatch m' m.

Lemma tree_methods host set :
  (str "GET" ∈ set -> str "HEAD" ∈ set) ->
  exists set', tree_matchingMethods (mux_tree mux) host path set = Some set' /\
    (str "GET" ∈ set' -> str "HEAD" ∈ set') /\ forall m, m ∈ set' <-> m ∈ set \/ allows host m (segs_of path).
Proof using Hok Hpath.
  intros Hset. unfold tree_matchingMethods. change (emptyChild (mux_tree mux)) with (findChild (mux_tree mux) []).
  assert (exists set1, (if negb (bool_decide (host = [])) then matchingMethodsPath (findChild (mux_tree mux) host) path set else Some set) = Some set1 /\
    forall m, m ∈ set1 <-> m ∈ set \/ (host <> [] /\ for_method host m (segs_of path))) as (set1 & -> & H1).
  { destruct (bool_decide_reflect (host = [])) as [->|Hne]; cbn [negb]; [exists set; split; [done|]; naive_solver|].
    destruct (methods_path host set) as (set1 & -> & H1). exists set1. split; [done|]. naive_solver. }
  cbn [mbind option_bind]. destruct (methods_path [] set1) as (set2 & -> & H2). cbn [mbind option_bind].
  assert (forall m, m ∈ set2 <-> m ∈ set \/ for_method host m (segs_of path) \/ for_method [] m (segs_of path)) as H3.
  { intros m. rewrite H2, H1. destruct (decide (host = [])) as [->|]; naive_solver. }
  assert (forall m, for_method host m (segs_of path) \/ for_method [] m (segs_of path) -> m <> []) as Hne.
  { intros m [(? & ? & ? & ? & ? & _)|(? & ? & ? & ? & ? & _)]; done. }
  eexists. split; [done|]. unfold allows, mmatch. split.
  - destruct (bool_decide_reflect (str "GET" ∈ set2)); [set_solver|done].
  - intros m. destruct (bool_decide_reflect (str "GET" ∈ set2)) as [HG|HG]; rewrite ?elem_of_union, ?elem_of_singleton, H3.
    + split; [|naive_solver]. intros [->|[?|?]]; [|by left|right; exists m; auto]. apply H3 in HG as [?|?]; [left; auto|right]. exists (str "GET"). auto.
    + split; [intros [?|?]; [by left|right; exists m; auto]|]. intros [?|(m' & Hm' & [->|[->|[-> ->]]])]; [by left| |auto|].
      * by destruct (Hne _ Hm').
      * destruct HG. apply H3. by right.
Qed.
End Lookup.

(** ** Serving a request *)

Lemma firstSegment_slash path :
  path <> [] -> path <> [slash] ->
  firstSegment (path ++ [slash]) = ((firstSegment path).1, (firstSegment path).2 ++ [slash]).
Proof.
  intros Hne Hns. unfold firstSegment. destruct path as [|c path]; [done|]. rewrite !bool_decide_false; [|done|by destruct path].
  cbn [app drop skipn]. rewrite !drop_0. cbn [fst snd]. unfold IndexByte.
  destruct (IndexByteString_spec path slash) as [[Hn ->]|(l1 & l2 & -> & Hn & ->)].
  - rewrite (IndexByteString_first path [] slash Hn). pose proof (len_nonneg path).
    rewrite (proj2 (Z.ltb_ge _ _)) by lia. change (-1 <? 0) with true. cbv iota. unfold len. rewrite Nat2Z.id.
    by rewrite firstn_all, drop_all, take_app_length, drop_app_length.
  - rewrite <- app_assoc. rewrite <- app_comm_cons, (IndexByteString_first l1 _ slash Hn). pose proof (len_nonneg l1).
    rewrite (proj2 (Z.ltb_ge _ _)) by lia. unfold len. rewrite Nat2Z.id. by rewrite !take_app_length, !drop_app_length.
Qed.

Lemma no_star_slash path : no_star (segs_of path) -> no_star (segs_of (path ++ [slash])).
Proof.
  remember (length path) as n eqn:Hn. revert path Hn. induction (lt_wf n) as [n _ IH]. intros path -> Hs.
  destruct (decide (path = [])) as [->|Hne]; [by repeat constructor|].
  destruct (decide (path = [slash])) as [->|Hns]; [by repeat constructor|].
  pose proof (firstSegment_shorter path Hne) as Hlt. pose proof (firstSegment_slash path Hne Hns) as Hf.
  unfold no_star in Hs. rewrite segs_of_cons in Hs by done. apply Forall_cons in Hs as [H1 H2].
  unfold no_star. rewrite segs_of_cons by (by destruct path). rewrite Hf. cbn [fst snd]. constructor; [done|].
  eapply (IH _ Hlt); done.
Qed.

Lemma string_le_total : Total (fun s t => Is_true (string_le s t)).
Proof.
  intros s. induction s as [|a s IH]; intros [|b t]; cbn; auto.
  destruct (Z.ltb_spec a b), (Z.ltb_spec b a); cbn; auto; lia.
Qed.

Lemma mux_methods mux regs host path :
  mux_ok mux regs -> no_star (segs_of path) ->
  exists l, mux_matchingMethods mux host path = Some l /\ NoDup l /\ Sorted (fun s t => Is_true (string_le s t)) l /\
    forall m, m ∈ l <-> allows regs host m (segs_of path) \/ allows regs host m (segs_of (path ++ [slash])).
Proof.
  intros Hok Hp. unfold mux_matchingMethods.
  destruct (tree_methods mux regs Hok path Hp host ∅) as (s1 & -> & Hg & H1); [done|]. cbn [mbind option_bind].
  destruct (tree_methods mux regs Hok (path ++ [slash]) (no_star_slash _ Hp) host s1 Hg) as (s2 & -> & _ & H2). cbn [mbind option_bind].
  eexists. split; [done|]. unfold sort_Strings.
  assert (merge_sort (fun s t => Is_true (string_le s t)) (base.elements s2) ≡ₚ base.elements s2) as HP by apply merge_sort_Permutation.
  split; [rewrite HP; apply NoDup_elements|]. split; [apply Sorted_merge_sort; exact string_le_total|].
  intros m. rewrite HP, elem_of_elements, H2, H1. set_solver.
Qed.

Lemma stripHostPort_some h : is_Some (stripHostPort h).
Proof.
  unfold stripHostPort. destruct (negb _); [by eexists|]. destruct (SplitHostPort_spec h) as (r & -> & _). cbn. destruct r as [[? ?]|]; by eexists.
Qed.

Lemma cleanPath_some p : is_Some (cleanPath p).
Proof.
  unfold cleanPath. destruct (bool_decide _); [by eexists|]. rewrite Clean_clean_spec. cbn.
  destruct (_ && _); [destruct (_ && _)|]; by eexists.
Qed.

(** ** Exact matches *)

Lemma segs_of_count rest : len (segs_of (slash :: rest)) = CountString (slash :: rest) slash.
Proof.
  remember (length rest) as n eqn:Hn. revert rest Hn. induction (lt_wf n) as [n _ IH]. intros rest ->.
  rewrite segs_of_cons, len_cons by done. cbn [CountString]. rewrite Z.eqb_refl. f_equal.
  unfold firstSegment. destruct (bool_decide_reflect (slash :: rest = [slash])) as [[= ->]|Hne]; [done|].
  cbn [drop skipn fst snd]. rewrite drop_0. unfold IndexByte.
  destruct (IndexByteString_spec rest slash) as [[Hno ->]|(l1 & l2 & -> & Hno & ->)].
  - change (-1 <? 0) with true. cbv iota. replace (Z.to_nat (len rest)) with (length rest) by (unfold len; lia). rewrite drop_all. change (len (segs_of [])) with 0.
    clear -Hno. induction rest as [|c rest IH]; [done|]. apply not_elem_of_cons in Hno as [? ?]. cbn [CountString].
    rewrite (proj2 (Z.eqb_neq c slash)) by congruence. by apply IH.
  - pose proof (len_nonneg l1). rewrite (proj2 (Z.ltb_ge _ _)) by lia. replace (Z.to_nat (len l1)) with (length l1) by (unfold len; lia). rewrite drop_app_length.
    rewrite (IH (length l2)) by (rewrite ?length_app; cbn; lia || done).
    clear -Hno. induction l1 as [|c l1 IH]; [done|]. apply not_elem_of_cons in Hno as [? ?]. cbn [app CountString].
    rewrite (proj2 (Z.eqb_neq c slash)) by congruence. by apply IH.
Qed.

(** A pattern that ends in a multi wildcard is matched exactly by a path that ends in a
    slash where the wildcard begins. *)
Definition exactly (n : option (pattern * H * list gostring)) (path : gostring) : Prop :=
  match n with
  | None => False
  | Some (p, _, _) => multi (lastSegment p) = true -> last path = Some slash /\ len (segments p) = len (segs_of path)
  end.

Lemma exactMatch_iff n path : head path = Some slash -> exactMatch n path = true <-> exactly n path.
Proof.
  intros Hh. destruct path as [|c path]; [done|]. injection Hh as ->. destruct n as [[[p h] ms]|]; cbn [exactMatch exactly]; [|done].
  destruct (multi (lastSegment p)); cbn [negb]; [|done]. change (Count (slash :: path) (str "/")) with (CountString (slash :: path) slash).
  rewrite <- segs_of_count. rewrite (proj2 (Z.ltb_lt 0 _)) by (rewrite len_cons; pose proof (len_nonneg path); lia). cbn [andb].
  assert (last (slash :: path) = Some (List.last (slash :: path) 0)) as ->.
  { generalize slash at 1 2 as c. induction path as [|d path IH]; intros c; [done|]. exact (IH d). }
  destruct (Z.eqb_spec (List.last (slash :: path) 0) slash) as [->|Hne]; cbn [negb].
  - rewrite Z.eqb_eq. naive_solver.
  - split; [done|]. intros Hx. destruct (Hx eq_refl) as [[= ?] _]. done.
Qed.

Lemma cleanPath_rooted p path : cleanPath p = Some path -> head path = Some slash.
Proof.
  assert (forall q, head q = Some slash -> head (clean_spec q) = Some slash) as Hc.
  { intros q Hq. unfold clean_spec. rewrite bool_decide_true by done. destruct (stack_of true q) as (? & ? & _ & ->). by rewrite decide_False. }
  unfold cleanPath. destruct (bool_decide_reflect (p = [])) as [->|Hne]; [by intros [= <-]|].
  assert (head (if at_ p 0 =? slash then p else slash :: p) = Some slash) as Hr.
  { destruct p as [|c p]; [done|]. cbn. destruct (Z.eqb_spec c slash); [by subst|done]. }
  set (q := if at_ p 0 =? slash then p else slash :: p) in *. clearbody q. cbv zeta. rewrite Clean_clean_spec. cbn [mbind option_bind].
  specialize (Hc q Hr). destruct (_ && _); [destruct (_ && _)|]; intros [= <-]; try done.
  by destruct (clean_spec q).
Qed.

(** What the answer to a request is, for the host and the path that it is looked up with:
    [found] and [slashed] are the most specific matches of the path, and of the path with a
    slash after it.  The slash is redirected to when only that match is exact; a path that is
    not clean is redirected to the cleaned one; otherwise the match is served. *)
Definition served (regs : list (pattern * H)) (r : Request) (host path : gostring) (a : answer) : Prop :=
  exists found slashed,
    lookup_spec regs host (Method r) path found /\ lookup_spec regs host (Method r) (path ++ [slash]) slashed /\
    ((~ exactly found path /\ exactly slashed (path ++ [slash]) /\
      exists p, cleanPath (Path (req_URL r)) = Some p /\
        a = Redirect (String_ (path_URL (p ++ [slash]) (RawQuery (req_URL r)))) (p ++ [slash])) \/
     ((exactly found path \/ ~ exactly slashed (path ++ [slash])) /\
      if decide (path = EscapedPath (req_URL r)) then
        match found with
        | Some (p, h, ms) => a = Handler h p ms
        | None => exists allow, NoDup allow /\ Sorted (fun s t => Is_true (string_le s t)) allow /\
            (forall m, m ∈ allow <-> allows regs host m (segs_of path) \/ allows regs host m (segs_of (path ++ [slash]))) /\
            if decide (allow = []) then
              a = NotFound /\ forall v, v ∈ regs -> pat_host v.1 = host \/ pat_host v.1 = [] -> ~ pmatch (segments v.1) (segs_of path)
            else a = MethodNotAllowed allow
        end
      else a = Redirect (String_ (path_URL path (RawQuery (req_URL r))))
                 (match found with Some (p, _, _) => pat_str p | None => [] end))).

Lemma answer_of_served mux regs r host path found :
  mux_ok mux regs -> no_star (segs_of path) -> lookup_spec regs host (Method r) path found ->
  exists a, answer_of mux host path found = Some a /\
    match found with
    | Some (p, h, ms) => a = Handler h p ms
    | None => exists allow, NoDup allow /\ Sorted (fun s t => Is_true (string_le s t)) allow /\
        (forall m, m ∈ allow <-> allows regs host m (segs_of path) \/ allows regs host m (segs_of (path ++ [slash]))) /\
        if decide (allow = []) then
          a = NotFound /\ forall v, v ∈ regs -> pat_host v.1 = host \/ pat_host v.1 = [] -> ~ pmatch (segments v.1) (segs_of path)
        else a = MethodNotAllowed allow
    end.
Proof.
  intros Hok Hp Hl. destruct found as [[[p h] ms]|]; cbn [answer_of].
  - by eexists.
  - destruct (mux_methods mux regs host path Hok Hp) as (l & -> & Hnd & Hs & Hm). cbn [mbind option_bind]. eexists. split; [done|].
    exists l. split_and!; try done. destruct (decide (l = [])) as [->|Hne]; [|by rewrite bool_decide_false].
    rewrite bool_decide_true by done. split; [done|]. intros v Hv Hh Hpm.
    destruct (decide (pat_method v.1 = [])) as [E|E].
    + apply (Hl v Hv Hh). split; [|done]. by left.
    + apply (not_elem_of_nil (pat_method v.1)), Hm. left. exists (pat_method v.1). split; [|by right; left].
      destruct Hh as [Hh|Hh]; [left|right]; exists v; by rewrite Hh.
Qed.

Lemma served_ok mux regs r host path :
  mux_ok mux regs -> Method r <> str "CONNECT" -> RequestURI r <> str "*" ->
  stripHostPort (req_Host r) = Some host -> cleanPath (EscapedPath (req_URL r)) = Some path -> no_star (segs_of path) ->
  exists a, ServeHTTP mux r = Some a /\ served regs r host path a.
Proof.
  intros Hok Hm Hu Hhost Hpath Hstar. pose proof (cleanPath_rooted _ _ Hpath) as Hroot.
  unfold ServeHTTP, findHandler. rewrite !bool_decide_false by done. rewrite Hhost, Hpath. cbn [mbind option_bind].
  destruct (lookup_tree mux regs Hok path Hstar host (Method r)) as (found & Hf & Hl).
  destruct (lookup_tree mux regs Hok (path ++ [slash]) (no_star_slash _ Hstar) host (Method r)) as (n & Hn & Hln).
  destruct (cleanPath_some (Path (req_URL r))) as [p Hp].
  pose proof (exactMatch_iff found path Hroot) as E1. pose proof (exactMatch_iff n (path ++ [slash]) ltac:(by destruct path)) as E2.
  unfold matchOrRedirect. rewrite Hf. cbn [mbind option_bind].
  assert (exists a, (if negb (bool_decide (path = EscapedPath (req_URL r))) then
        Some (Redirect (String_ (path_URL path (RawQuery (req_URL r)))) (match found with Some (p, _, _) => pat_str p | None => [] end))
      else answer_of mux host path found) = Some a /\
    ((exactly found path \/ ~ exactly n (path ++ [slash])) -> served regs r host path a)) as (a & Ha & Hs).
  { destruct (answer_of_served mux regs r host path found Hok Hstar Hl) as (a & Ea & Hans).
    destruct (bool_decide_reflect (path = EscapedPath (req_URL r))) as [E|E]; cbn [negb];
      (eexists; split; [done|]; intros Hc; exists found, n; split_and!; [done..|]; right; split; [done|]).
    - by rewrite decide_True.
    - by rewrite decide_False. }
  destruct (exactMatch found path) eqn:X1.
  { cbn [mbind option_bind]. exists a. split; [done|]. apply Hs. left. by apply E1. }
  rewrite Hn. cbn [mbind option_bind]. destruct (exactMatch n (path ++ [slash])) eqn:X2.
  - rewrite Hp. cbn [mbind option_bind]. eexists. split; [done|]. exists found, n. split_and!; [done..|]. left.
    split_and!; [by rewrite <- E1|by apply E2|]. exists p. split; [done|reflexivity].
  - cbn [mbind option_bind]. exists a. split; [done|]. apply Hs. right. by rewrite <- E2.
Qed.
End Mux.
Arguments ServeMux H : clear implicits.
Arguments answer H : clear implicits.

(** ** Claims *)

(** [C21] Registration.  In a multiplexer whose patterns have no literal segment that is
    empty or [*], a pattern of the same kind is refused exactly when it conflicts with a
    registered one, and the error names a pattern that it conflicts with; otherwise the
    tree takes it without a panic.  The index never hides a conflicting pattern. *)
Theorem mux_registers {H} pats (mux : ServeMux H) patstr p (h : H) :
  register_all NewServeMux pats = Some mux -> plain_patterns pats -> 2 * len pats < maxInt ->
  parsePattern patstr = inl p -> ordinary_segs (segments p) ->
  ((exists v, v ∈ parsed pats /\ conflictsWith p v.1 = true) /\
   exists q, registerErr mux patstr (Some h) = Some (inr (Conflict p q)) /\ conflictsWith p q = true) \/
  ((forall v, v ∈ parsed pats -> conflictsWith p v.1 = false) /\
   exists mux', registerErr mux patstr (Some h) = Some (inl mux')).
Proof.
  intros Hr Hp Hl Hparse Hord. pose proof (register_all_ok pats NewServeMux [] mux mux_ok_new Hp ltac:(done) Hr) as Hok. cbn [app] in Hok.
  destruct (register_ok mux (parsed pats) patstr p h Hok Hparse Hord) as [?|(? & mux' & ? & _)]; [|by left|by right; eauto].
  assert (len (parsed pats) <= len pats); [|lia]. unfold len, parsed. clear. induction pats as [|[s x] pats IH]; [done|].
  cbn [omap list_omap length]. destruct (parsePattern s); cbn [length]; lia.
Qed.

(** [C20] Routing.  A multiplexer whose patterns have no literal segment that is empty or
    [*] answers every request without a panic, if no segment of its cleaned path is [*] and
    the request is neither a CONNECT nor one for the target [*].  The match of a path is the
    pattern, for the host of the request or else for no host, that matches the method and
    the path and is more specific than every other one that does, with the values of its
    wildcards.  The answer is a redirection to the cleaned path with a slash after it when
    the match of that path is exact and the match of the path itself is not; else a
    redirection to the cleaned path when the path is not clean; else the handler of the
    match; without a match it is MethodNotAllowed with the sorted list of exactly the
    methods that would match the path with or without the slash, or NotFound when there are
    none, and then no pattern matches the path. *)
Theorem mux_routes {H} pats (mux : ServeMux H) r host path :
  register_all NewServeMux pats = Some mux -> plain_patterns pats -> 2 * len pats < maxInt ->
  Method r <> str "CONNECT" -> RequestURI r <> str "*" ->
  stripHostPort (req_Host r) = Some host -> cleanPath (EscapedPath (req_URL r)) = Some path -> no_star (segs_of path) ->
  exists a, ServeHTTP mux r = Some a /\ served (parsed pats) r host path a.
Proof.
  intros Hr Hp Hl. apply (served_ok mux (parsed pats)).
  apply (register_all_ok pats NewServeMux [] mux mux_ok_new Hp); [done|exact Hr].
Qed.

(** Patterns and requests for examples; a handler is its pattern. *)
Definition pats (l : list string) : list (gostring * gostring) := map (fun s => (str s, str s)) l.
Definition the_mux (l : list string) : ServeMux gostring := default NewServeMux (register_all NewServeMux (pats l)).
Definition get_request (method host target : string) : Request :=
  mk_Request (str method) (str host) (match ParseRequestURI (str target) with Ok u => u | Err _ => new_URL end) (str target)
    (str "203.0.113.7:1") 1 1.
Definition serve (l : list string) (method target : string) : option (answer gostring) :=
  ServeHTTP (the_mux l) (get_request method "h" target).

Definition spec_parsed (l : list string) : bool :=
  forallb (fun s => match parsePattern (str s) with inl p => forallb (fun g => wild g || negb (bool_decide (seg_s g = [])) && negb (bool_decide (seg_s g = [star]))) (segments p) | inr _ => false end) l.
Lemma spec_parsed_plain l : spec_parsed l = true -> plain_patterns (pats l).
Proof.
  unfold spec_parsed, plain_patterns, pats. rewrite forallb_forall, Forall_map, Forall_forall. intros Hs x Hx. specialize (Hs x (proj1 (list_elem_of_In _ _) Hx)).
  cbn [fst]. destruct (parsePattern (str x)) as [p|]; [|done]. exists p. split; [done|]. apply Forall_forall. intros g Hg Hw.
  rewrite forallb_forall in Hs. specialize (Hs g (proj1 (list_elem_of_In _ _) Hg)). rewrite Hw in Hs. cbn [orb] in Hs.
  apply andb_true_iff in Hs as [H1 H2]. apply negb_true_iff, bool_decide_eq_false in H1. apply negb_true_iff, bool_decide_eq_false in H2. done.
Qed.

Lemma mux_registers_witness :
  exists q, registerErr (the_mux ["/a/{x}"; "POST /a/{y}"]) (str "/{z}/b") (Some []) = Some (inr (Conflict (pat "/{z}/b") q)).
Proof.
  destruct (mux_registers (pats ["/a/{x}"; "POST /a/{y}"]) (the_mux ["/a/{x}"; "POST /a/{y}"]) (str "/{z}/b") (pat "/{z}/b") [])
    as [[_ (q & Hq & _)]|[Hno _]].
  - vm_compute. reflexivity.
  - apply spec_parsed_plain. vm_compute. reflexivity.
  - vm_compute. reflexivity.
  - vm_compute. reflexivity.
  - repeat constructor; vm_compute; intros; discriminate.
  - exists q. exact Hq.
  - specialize (Hno (pat "/a/{x}", str "/a/{x}")). exfalso. revert Hno. vm_compute. intros Hno. discriminate Hno. left.
Defined.

Lemma mux_routes_witness :
  exists a, ServeHTTP (the_mux ["/a/{x}"; "GET h/a/{y}"]) (get_request "GET" "h:80" "/a/b%20c") = Some a /\
    served (parsed (pats ["/a/{x}"; "GET h/a/{y}"])) (get_request "GET" "h:80" "/a/b%20c") (str "h") (str "/a/b%20c") a.
Proof.
  apply (mux_routes (pats ["/a/{x}"; "GET h/a/{y}"])).
  - vm_compute. reflexivity.
  - apply spec_parsed_plain. vm_compute. reflexivity.
  - vm_compute. reflexivity.
  - vm_compute. discriminate.
  - vm_compute. discriminate.
  - vm_compute. reflexivity.
  - vm_compute. reflexivity.
  - repeat constructor; vm_compute; intros; discriminate.
Defined.
