(* ===== verification/ReadRequest.v ===== *)
(** * net/http: reading a request

    [tools/go-patched/src/net/http/request.go] ([ReadRequest] and what it calls) and the
    checks of [conn.readRequest] in server.go: the request line, the headers, how the body
    is delimited, and the requests that the server refuses before any handler runs.  The
    deadlines, the context and the read limit of the connection are left out; [remoteAddr]
    is the address of the connection. *)

From S2P Require Import Prelude GoIO HostPort Strconv Utf8 Strings Url UrlParse TextProto Pattern Routing Mux Bufio TextReader Chunked Transfer.
Local Open Scope go_scope.

(** ** The request line *)

Definition parseRequestLine (line : gostring) : option (gostring * gostring * gostring) :=
  let '(method, rest, ok1) := Cut line (str " ") in
  let '(requestURI, proto, ok2) := Cut rest (str " ") in
  if negb ok1 || negb ok2 then None else Some (method, requestURI, proto).

(** The slices of one byte are [vers[5:6]] and [vers[7:8]]. *)
Definition ParseHTTPVersion (vers : gostring) : option (Z * Z) :=
  if bool_decide (vers = str "HTTP/1.1") then Some (1, 1) else
  if bool_decide (vers = str "HTTP/1.0") then Some (1, 0) else
  if negb (HasPrefix vers (str "HTTP/")) then None else
  if negb (len vers =? len (str "HTTP/X.Y")) then None else
  if negb (at_ vers 6 =? 46) then None else
  match ParseUint (cut vers 5 6) 10 0, ParseUint (cut vers 7 8) 10 0 with
  | (maj, None), (min, None) => Some (maj, min)
  | _, _ => None
  end.

(** ** The request *)

(** A request as it was read: what the handlers see, and how its body is read. *)
Record full_request := mk_full_request {
  req : Request;
  Proto : gostring;
  req_Header : Header;
  req_ContentLength : Z;
  req_chunked : bool;
  req_Close : bool;
  req_Trailer : option Header;
  req_Body : body_source;
}.

Definition isH2Upgrade (method proto path : gostring) (header : Header) : bool :=
  bool_decide (method = str "PRI") && bool_decide (header = ∅) && bool_decide (path = str "*") && bool_decide (proto = str "HTTP/2.0").

(** [req.URL] of the request target. *)
Definition request_URL (method rawurl : gostring) : result URL :=
  let justAuthority := bool_decide (method = str "CONNECT") && negb (HasPrefix rawurl (str "/")) in
  try url := ParseRequestURI (if justAuthority then str "http://" ++ rawurl else rawurl) in
  Ok (if justAuthority then with_scheme url [] else url).

(** What follows the headers. *)
Definition finish_request (lax : bool) (method requestURI proto : gostring) (major minor : Z) (url : URL) (header : Header) : result full_request :=
  if 1 <? len (values header (str "Host")) then Err (OtherError (str "too many Host headers")) else
  let host := if bool_decide (Host url = []) then Header_get header (str "Host") else Host url in
  let header := fixPragmaCacheControl header in
  let '(close, header) := shouldClose major minor header false in
  try t := readTransfer lax method major minor header close in
  let upgrade := isH2Upgrade method proto (Path url) (t_Header t) in
  Ok (mk_full_request (mk_Request method host url requestURI [] major minor) proto (t_Header t)
    (if upgrade then -1 else t_ContentLength t) (t_Chunked t) (if upgrade then true else t_Close t) (t_Trailer t) (t_Body t)).

Section Reader.
Context {R : Type} `{Reader R}.
Notation BufReader := (BufReader R).

(** The deferred function turns EOF into ErrUnexpectedEOF once a line was read. *)
Definition unexpected (e : error) : error := if bool_decide (e = EOF) then ErrUnexpectedEOF else e.

Definition readRequest (fuel : nat) (lax : bool) (b : BufReader) : option (BufReader * result full_request) :=
  '(b, (s, err)) ← ReadLine fuel b;
  match err with
  | Some err => Some (b, Err err)
  | None =>
      let fail e := Some (b, Err (unexpected e)) in
      match parseRequestLine s with
      | None => fail (badStringError (str "malformed HTTP request") s)
      | Some (method, requestURI, proto) =>
          if negb (validMethod method) then fail (badStringError (str "invalid method") method) else
          match ParseHTTPVersion proto with
          | None => fail (badStringError (str "malformed HTTP version") proto)
          | Some (major, minor) =>
              match request_URL method requestURI with
              | Err e => fail e
              | Ok url =>
                  '(b, (mimeHeader, err)) ← ReadMIMEHeader fuel b;
                  match err with
                  | Some e => Some (b, Err (unexpected e))
                  | None =>
                      match finish_request lax method requestURI proto major minor url mimeHeader with
                      | Err e => Some (b, Err (unexpected e))
                      | Ok r => Some (b, Ok r)
                      end
                  end
              end
          end
      end
  end.

Definition with_header (r : full_request) (h : Header) : full_request :=
  mk_full_request (req r) (Proto r) h (req_ContentLength r) (req_chunked r) (req_Close r) (req_Trailer r) (req_Body r).

Definition ReadRequest (fuel : nat) (lax : bool) (b : BufReader) : option (BufReader * result full_request) :=
  '(b, r) ← readRequest fuel lax b;
  Some (b, try r := r in Ok (with_header r (delete (str "Host") (req_Header r)))).

(** ** The checks of the server *)

Definition http1ServerSupportsRequest (r : Request) : bool :=
  if ProtoMajor r =? 1 then true
  else (ProtoMajor r =? 2) && (ProtoMinor r =? 0) && bool_decide (Method r = str "PRI") && bool_decide (RequestURI r = str "*").

Definition validHostByte (c : Z) : bool := is_digit c || is_letter c || among c (str "!$%&()*+,-.:;=['" ++ str "]_~").
Definition ValidHostHeader (h : gostring) : bool := forallb validHostByte h.

(** The runes of the name: none of the bytes from RuneSelf up begins a token rune. *)
Definition ValidHeaderFieldName (v : gostring) : bool := if len v =? 0 then false else forallb IsTokenRune v.
Definition isCTL (b : Z) : bool := (b <? 32) || (b =? 127).
Definition isLWS (b : Z) : bool := (b =? 32) || (b =? 9).
Definition ValidHeaderFieldValue (v : gostring) : bool := forallb (fun b => negb (isCTL b && negb (isLWS b))) v.

Fixpoint numLeadingCRorLF (v : gobytes) : Z :=
  match v with b :: v => if (b =? return_) || (b =? newline) then 1 + numLeadingCRorLF v else 0 | [] => 0 end.

Definition with_remote (r : Request) (addr : gostring) : Request :=
  mk_Request (Method r) (req_Host r) (req_URL r) (RequestURI r) addr (ProtoMajor r) (ProtoMinor r).

(** The loop over the header map stops at the first bad entry; which of them is first
    does not change that the request is refused with one of the two messages. *)
Definition bad_header (h : Header) : option gostring :=
  foldr (fun kv acc =>
    if negb (ValidHeaderFieldName (fst kv)) then Some (str "invalid header name")
    else if negb (forallb ValidHeaderFieldValue (snd kv)) then Some (str "invalid header value") else acc) None (map_to_list h).

(** The part of [conn.readRequest] that decides about a request. *)
Definition check_request (remoteAddr : gostring) (r : full_request) : result full_request :=
  if negb (http1ServerSupportsRequest (req r)) then Err (statusError 505 (str "unsupported protocol version")) else
  let hosts := values (req_Header r) (str "Host") in
  let upgrade := isH2Upgrade (Method (req r)) (Proto r) (Path (req_URL (req r))) (req_Header r) in
  if ProtoAtLeast (req r) 1 1 && (len hosts =? 0) && negb upgrade && negb (bool_decide (Method (req r) = str "CONNECT"))
  then Err (badRequestError (str "missing required Host header")) else
  if (len hosts =? 1) && negb (ValidHostHeader (Header_get (req_Header r) (str "Host")))
  then Err (badRequestError (str "malformed Host header")) else
  match bad_header (req_Header r) with
  | Some msg => Err (badRequestError msg)
  | None =>
      Ok (mk_full_request (with_remote (req r) remoteAddr) (Proto r) (delete (str "Host") (req_Header r))
        (req_ContentLength r) (req_chunked r) (req_Close r) (req_Trailer r) (req_Body r))
  end.

(** [lastMethod] is the method of the request before on the connection; after a POST the
    line ends that old clients send are skipped. *)
Definition skip_after_POST (lastMethod : gostring) (b : BufReader) : option BufReader :=
  if bool_decide (lastMethod = str "POST") then
    '(b, (peek, _)) ← Peek b 4;
    '(b, _) ← Discard b (numLeadingCRorLF peek);
    Some b
  else Some b.

Definition conn_readRequest (fuel : nat) (lax : bool) (remoteAddr lastMethod : gostring) (b : BufReader) : option (BufReader * result full_request) :=
  b ← skip_after_POST lastMethod b;
  '(b, r) ← readRequest fuel lax b;
  Some (b, try r := r in check_request remoteAddr r).

End Reader.

Definition message (l : list String.string) : stream := mk_stream [crlf l] EOF true.

Example request_example :
  (fun x => match snd x with Ok r => Some (Method (req r), req_Host (req r), Path (req_URL (req r)), RawQuery (req_URL (req r)), req_Body r, req_Close r) | Err _ => None end) <$>
    conn_readRequest 300 false (str "1.2.3.4:5") [] (NewReader (message ["GET /search?q=go HTTP/1.1"; "Host: api.test"; "content-length: 3"; ""]%string)) =
    Some (Some (str "GET", str "api.test", str "/search", str "q=go", LimitedBody 3, false)).
Proof. vm_compute. reflexivity. Qed.

(** ** The request line read back *)

Lemma indexFunc_loop_token fuel s i :
  bytes_ok s -> (length s <= fuel)%nat -> 0 <= i -> indexFunc_loop fuel s isNotToken true i = -1 -> Forall (fun c => IsTokenRune c = true) s.
Proof.
  revert s i. induction fuel as [|fuel IH]; intros s i Hs Hf Hi; [destruct s; [constructor|cbn in Hf; lia]|].
  destruct s as [|c s]; [constructor|]. cbn [indexFunc_loop]. unfold DecodeRuneInString.
  destruct (DecodeRune_cases (c :: s) Hs ltac:(done)) as [(r & rest & Hv & Heq & HD)|(HD & _ & _)]; rewrite HD.
  2:{ change (isNotToken RuneError) with true. cbn [Bool.eqb]. lia. }
  unfold isNotToken at 1. destruct (IsTokenRune r) eqn:Er; cbn [negb Bool.eqb]; [|lia].
  assert (r < 128) as Hr by (unfold IsTokenRune in Er; apply andb_true_iff in Er as [? _]; zbool; lia).
  unfold Utf8.encoding in *. rewrite (proj2 (Z.ltb_lt r 128)) in * by lia. injection Heq as -> ->. change (Z.to_nat (len [r])) with 1%nat. cbn [drop].
  apply Forall_cons in Hs as [_ Hs]. intros Hx. constructor; [done|]. apply (IH rest (i + len [r])); try done; [cbn in Hf; lia|change (len [r]) with 1; lia].
Qed.

Lemma validMethod_bytes m : bytes_ok m -> validMethod m = true -> space ∉ m /\ newline ∉ m /\ return_ ∉ m /\ m <> [].
Proof.
  intros Hb Hv. unfold validMethod, indexFunc in Hv. apply andb_true_iff in Hv as [Hl Hv]. zbool.
  pose proof (indexFunc_loop_token (length m) m 0 Hb ltac:(lia) ltac:(lia) Hv) as Ht. rewrite Forall_forall in Ht.
  split_and!; try (intros Hin; by specialize (Ht _ Hin)). by intros ->.
Qed.

Lemma parseRequestLine_text method uri proto :
  space ∉ method -> space ∉ uri -> parseRequestLine (method ++ str " " ++ uri ++ str " " ++ proto) = Some (method, uri, proto).
Proof.
  intros Hm Hu. unfold parseRequestLine. change (str " ") with [space]. cbn [app]. rewrite Cut_first by done. by rewrite Cut_first.
Qed.

Definition request_text (method uri proto : gostring) (kvs : list (gostring * gostring)) : gobytes :=
  method ++ str " " ++ uri ++ str " " ++ proto ++ [return_; newline] ++ header_text kvs.

Lemma request_line_next line C : newline ∉ line -> next_line (line ++ [return_; newline] ++ C) = Some (line, C).
Proof.
  intros Hn. unfold next_line. replace (line ++ [return_; newline] ++ C) with ((line ++ [return_]) ++ newline :: C) by (by rewrite <- app_assoc).
  rewrite break_line_app by (rewrite not_elem_of_app; split; [done|by apply (bool_decide_unpack _)]). cbn. by rewrite strip_cr_snoc.
Qed.

(** Headers that the server does not touch. *)
Definition framing_key (s : gostring) : Prop := s = TransferEncoding \/ s = ContentLength \/ s = str "Trailer" \/ s = str "Cache-Control".

Lemma fixPragma_keeps h s : s <> str "Cache-Control" -> fixPragmaCacheControl h !! s = h !! s.
Proof.
  intros Hs. unfold fixPragmaCacheControl. destruct (h !! str "Pragma") as [[|hp l]|]; try done.
  destruct (_ && _); [|done]. by rewrite lookup_insert_ne.
Qed.

Lemma readTransfer_keeps lax method major minor h close t s :
  readTransfer lax method major minor h close = Ok t -> s <> TransferEncoding -> s <> ContentLength -> s <> str "Trailer" -> t_Header t !! s = h !! s.
Proof.
  intros HR H1 H2 H3. unfold readTransfer, read_transfer in HR. cbn [andb] in HR. destruct (if (major =? 0) && (minor =? 0) then (1, 1) else (major, minor)) as [ma mi].
  assert (forall h1 c, parseTransferEncoding ma mi h = Ok (c, h1) -> h1 !! s = h !! s) as HP.
  { intros h1 c. unfold parseTransferEncoding. destruct (h !! TransferEncoding) as [[|te [|]]|]; repeat case_match; intros; simplify_eq; rewrite ?lookup_delete_ne by done; done. }
  destruct (parseTransferEncoding ma mi h) as [[c h1]|]; [|done]. specialize (HP h1 c eq_refl).
  assert (forall n h2, fixLength lax false 200 method h1 c = Ok (n, h2) -> h2 !! s = h1 !! s) as HL.
  { intros n h2. unfold fixLength. pose proof (dedup_lengths_spec h1) as HD. destruct (dedup_lengths h1) as [h3|]; [|done]. destruct HD as (_ & _ & _ & HD & _).
    repeat case_match; intros; simplify_eq; unfold MIME_Del; rewrite ?CL_canonical, ?lookup_delete_ne by done; by apply HD. }
  destruct (fixLength lax false 200 method h1 c) as [[n h2]|]; [|done]. specialize (HL n h2 eq_refl).
  pose proof (fixTrailer_keys h2 c) as HF. destruct (fixTrailer h2 c) as [[tr h3]|]; [|done]. injection HR as <-. cbn. by rewrite HF, HL, HP.
Qed.

Lemma shouldClose_keeps major minor h : snd (shouldClose major minor h false) = h.
Proof. unfold shouldClose. rewrite andb_false_r. by repeat case_match. Qed.

Lemma finish_request_fields lax method uri proto major minor url h r :
  finish_request lax method uri proto major minor url h = Ok r ->
  Method (req r) = method /\ RequestURI (req r) = uri /\ req_URL (req r) = url /\ Proto r = proto /\ ProtoMajor (req r) = major /\ ProtoMinor (req r) = minor /\
  len (values h (str "Host")) <= 1 /\ req_Host (req r) = (if bool_decide (Host url = []) then Header_get h (str "Host") else Host url) /\
  (forall s, ~ framing_key s -> req_Header r !! s = h !! s).
Proof.
  unfold finish_request. destruct (1 <? len (values h (str "Host"))) eqn:E; [done|]. zbool. destruct (shouldClose _ _ _ _) as [close h1] eqn:Es.
  assert (h1 = fixPragmaCacheControl h) as -> by (pose proof (shouldClose_keeps major minor (fixPragmaCacheControl h)) as Hk; by rewrite Es in Hk).
  destruct (readTransfer _ _ _ _ _ _) as [t|] eqn:ER; [|done]. intros [= <-]. cbn [req Method RequestURI req_URL Proto ProtoMajor ProtoMinor req_Host req_Header].
  split_and!; try done. intros s Hs. unfold framing_key in Hs. rewrite (readTransfer_keeps _ _ _ _ _ _ _ s ER) by tauto. apply fixPragma_keeps. tauto.
Qed.

(** What holds of every request that was read: its parts are well formed and belong
    together, at most one Host is named, and the end of its body is fixed. *)
Definition sound_request (r : full_request) : Prop :=
  let url := req_URL (req r) in
  validMethod (Method (req r)) = true /\ ParseHTTPVersion (Proto r) = Some (ProtoMajor (req r), ProtoMinor (req r)) /\
  request_URL (Method (req r)) (RequestURI (req r)) = Ok url /\
  len (values (req_Header r) (str "Host")) <= 1 /\
  req_Host (req r) = (if bool_decide (Host url = []) then Header_get (req_Header r) (str "Host") else Host url) /\
  req_Header r !! TransferEncoding = None /\
  if isH2Upgrade (Method (req r)) (Proto r) (Path url) (req_Header r) then req_ContentLength r = -1 /\ req_Close r = true
  else if req_chunked r then req_Body r = ChunkedBody /\ req_ContentLength r = -1 /\ req_Header r !! ContentLength = None
  else 0 <= req_ContentLength r < 2 ^ 63 /\ len (values (req_Header r) ContentLength) <= 1 /\
    req_Body r = (if req_ContentLength r =? 0 then NoBody else LimitedBody (req_ContentLength r)).

Lemma finish_request_sound method uri proto major minor url h r :
  validMethod method = true -> ParseHTTPVersion proto = Some (major, minor) -> request_URL method uri = Ok url ->
  finish_request false method uri proto major minor url h = Ok r -> sound_request r.
Proof.
  intros Hm Hp Hu Hr. pose proof (finish_request_fields _ _ _ _ _ _ _ _ _ Hr) as (E1 & E2 & E3 & E4 & E5 & E6 & E7 & E8 & E9).
  assert (values (req_Header r) (str "Host") = values h (str "Host")) as EH by (unfold values; rewrite E9; [done|]; intros [?|[?|[?|?]]]; done).
  unfold sound_request. rewrite E1, E2, E3, E4, E5, E6, E8. unfold Header_get. rewrite EH. split_and!; try done.
  - revert Hr. unfold finish_request. destruct (1 <? _); [done|]. destruct (shouldClose _ _ _ _) as [close h1].
    pose proof (readTransfer_framed method major minor h1 close) as HF. destruct (readTransfer _ _ _ _ _ _) as [t|]; [|done].
    intros [= <-]. by destruct HF.
  - revert Hr. unfold finish_request. destruct (1 <? _); [done|]. destruct (shouldClose _ _ _ _) as [close h1].
    pose proof (readTransfer_framed method major minor h1 close) as HF. destruct (readTransfer _ _ _ _ _ _) as [t|]; [|done].
    intros [= <-]. cbn [req_Header req_ContentLength req_Close req_chunked req_Body]. destruct HF as (_ & _ & -> & HF).
    destruct (isH2Upgrade _ _ _ _); [done|]. destruct (_ && _); tauto.
Qed.

(** A header name and its values as the server wants them. *)
Definition valid_entry (k : gostring) (vv : list gostring) : Prop :=
  ValidHeaderFieldName k = true /\ Forall (fun v => ValidHeaderFieldValue v = true) vv.

(** What the server adds: the version is one it speaks, a Host is named where it must be
    and is made of host bytes, every header is well formed; the handler gets the request
    with the peer's address and without the Host header. *)
Definition admitted (remoteAddr : gostring) (r0 r : full_request) : Prop :=
  let hosts := values (req_Header r0) (str "Host") in
  http1ServerSupportsRequest (req r0) = true /\
  (ProtoAtLeast (req r0) 1 1 = true -> Method (req r0) <> str "CONNECT" ->
    isH2Upgrade (Method (req r0)) (Proto r0) (Path (req_URL (req r0))) (req_Header r0) = false -> hosts <> []) /\
  (forall h, hosts = [h] -> ValidHostHeader h = true) /\
  map_Forall valid_entry (req_Header r0) /\
  r = mk_full_request (with_remote (req r0) remoteAddr) (Proto r0) (delete (str "Host") (req_Header r0))
        (req_ContentLength r0) (req_chunked r0) (req_Close r0) (req_Trailer r0) (req_Body r0).

Lemma bad_header_none h :
  bad_header h = None <-> map_Forall valid_entry h.
Proof.
  unfold bad_header. trans (Forall (fun kv => valid_entry (fst kv) (snd kv)) (map_to_list h)).
  - induction (map_to_list h) as [|[k vv] l IH]; [by split; constructor|]. cbn [foldr fst snd]. rewrite Forall_cons, <- IH. unfold valid_entry. cbn [fst snd].
    destruct (ValidHeaderFieldName k); cbn [negb]; [|by split; [|intros [[? _] _]]].
    destruct (forallb ValidHeaderFieldValue vv) eqn:E; cbn [negb].
    + split; [|tauto]. intros ?. split_and!; try done. by apply Is_true_true, forallb_True in E; eapply Forall_impl; [exact E|]; intros v ?; apply Is_true_true.
    + split; [done|]. intros [[_ Hv] _]. exfalso. rewrite (proj2 (forallb_forall _ vv)) in E; [done|]. intros v Hin%list_elem_of_In. by rewrite Forall_forall in Hv; apply Hv.
  - rewrite Forall_forall. split.
    + intros Ha k vv Hk. by apply (Ha (k, vv)), elem_of_map_to_list.
    + intros Ha [k vv] Hin%elem_of_map_to_list. by apply Ha.
Qed.

Lemma check_request_admitted remoteAddr r0 r : check_request remoteAddr r0 = Ok r <-> admitted remoteAddr r0 r.
Proof.
  unfold check_request, admitted. cbv zeta. rewrite <- bad_header_none. set (hosts := values (req_Header r0) (str "Host")).
  destruct (http1ServerSupportsRequest (req r0)); cbn [negb]; [|by split; [|intros [? _]]].
  assert (Header_get (req_Header r0) (str "Host") = match hosts with h :: _ => h | [] => [] end) as -> by done.
  assert ((len hosts =? 0) = bool_decide (hosts = [])) as -> by (by destruct hosts; [|rewrite bool_decide_false]).
  destruct (ProtoAtLeast (req r0) 1 1 && _ && _ && _) eqn:EH.
  { split; [done|]. intros (_ & Hh & _). rewrite !andb_true_iff, !negb_true_iff, bool_decide_eq_true, bool_decide_eq_false in EH. naive_solver. }
  destruct ((len hosts =? 1) && _) eqn:EV.
  { split; [done|]. intros (_ & _ & Hv & _). rewrite andb_true_iff, negb_true_iff in EV. destruct EV as [El EV]. zbool.
    destruct hosts as [|h [|h2 l]]; [done|by rewrite Hv in EV|rewrite !len_cons in El; pose proof (len_nonneg l); lia]. }
  destruct (bad_header (req_Header r0)) as [msg|]; [by split; [|intros (_ & _ & _ & [=] & _)]|].
  split; [|intros (_ & _ & _ & _ & ->); done]. intros [= <-]. split_and!; try done.
  - intros H1 H2 H3 H4. rewrite H1, H3 in EH. by rewrite (bool_decide_true (hosts = [])), bool_decide_false in EH by done.
  - intros h Hh. rewrite Hh in EV. by apply negb_false_iff in EV.
Qed.

(** ** Headers stay well formed *)

Lemma token_name k : bytes_ok k -> k <> [] -> token k -> ValidHeaderFieldName k = true.
Proof.
  intros Hb Hne Ht. unfold ValidHeaderFieldName. destruct k as [|c k]; [done|]. rewrite len_cons. pose proof (len_nonneg k).
  rewrite (proj2 (Z.eqb_neq _ 0)) by lia. apply forallb_forall. intros x Hx%list_elem_of_In. unfold token in Ht. rewrite Forall_forall in Hb, Ht.
  specialize (Hb x Hx). specialize (Ht x Hx). revert Ht. apply implb_true_iff. clear Hx. revert x Hb. apply (byte_enum (fun c => implb _ _)). by vm_compute.
Qed.

Lemma value_valid v : bytes_ok v -> forallb validHeaderValueByte v = true -> ValidHeaderFieldValue v = true.
Proof.
  intros Hb. unfold ValidHeaderFieldValue. rewrite !forallb_forall. intros Hv x Hx. specialize (Hv x Hx).
  rewrite Forall_forall in Hb. specialize (Hb x (proj2 (list_elem_of_In _ _) Hx)). rewrite value_byte in Hv by done. unfold isCTL, isLWS.
  destruct (Z.eqb_spec x 9), (Z.leb_spec 32 x), (Z.eqb_spec x 127), (Z.ltb_spec x 32), (Z.eqb_spec x 32); cbn in *; try done; lia.
Qed.

Lemma header_map_valid kvs m : Forall header_ok kvs -> map_Forall valid_entry m -> map_Forall valid_entry (header_map m kvs).
Proof.
  intros Hk. unfold header_map. revert m. induction Hk as [|[k v] kvs (Hne & Hb & Ht & Hbv & Hv & _) Hk IH]; intros m Hm; [done|]. cbn [foldl fst snd] in *.
  apply IH. unfold MIME_Add. apply map_Forall_insert_2; [|done]. destruct (lower_canon k true Hb) as (_ & Hb2 & Ht2).
  rewrite canonical_key, decide_True by done. split.
  - apply token_name; auto. by destruct k.
  - apply Forall_app. split; [|by repeat constructor; apply value_valid]. destruct (m !! _) as [vv|] eqn:E; [|constructor]. by apply (Hm _ _ E).
Qed.

Lemma TrimString_valid v : ValidHeaderFieldValue v = true -> ValidHeaderFieldValue (TrimString v) = true.
Proof.
  assert (forall s, ValidHeaderFieldValue s = true -> ValidHeaderFieldValue (trim_front s) = true) as Ht.
  { intros s. destruct (trim_front_split s) as (f & E & _). rewrite E at 1. unfold ValidHeaderFieldValue. rewrite forallb_app. by intros [_ ?]%andb_true_iff. }
  assert (forall s, ValidHeaderFieldValue (rev s) = ValidHeaderFieldValue s) as Hr.
  { intros s. unfold ValidHeaderFieldValue. apply eq_true_iff_eq. rewrite !forallb_forall. by split; intros Hs x Hx; apply Hs, in_rev; rewrite ?rev_involutive. }
  intros Hv. unfold TrimString. rewrite Hr. apply Ht. rewrite Hr. by apply Ht.
Qed.

Lemma readTransfer_valid lax method major minor h close t :
  readTransfer lax method major minor h close = Ok t -> map_Forall valid_entry h -> map_Forall valid_entry (t_Header t).
Proof.
  unfold readTransfer, read_transfer. cbn [andb]. destruct (if (major =? 0) && (minor =? 0) then (1, 1) else (major, minor)) as [ma mi]. intros HR Hh.
  destruct (parseTransferEncoding ma mi h) as [[c h1]|] eqn:E1; [|done]. assert (map_Forall valid_entry h1) as H1.
  { unfold parseTransferEncoding in E1. repeat case_match; simplify_eq; repeat apply map_Forall_delete; done. }
  destruct (fixLength lax false 200 method h1 c) as [[n h2]|] eqn:E2; [|done]. assert (map_Forall valid_entry h2) as H2.
  { unfold fixLength in E2. destruct (dedup_lengths h1) as [h3|] eqn:E3; [|done]. assert (map_Forall valid_entry h3) as H3.
    { unfold dedup_lengths in E3. destruct (values h1 ContentLength) as [|v [|w l]] eqn:Ev; [by injection E3 as <-..|]. destruct (forallb _ _); [|done].
      injection E3 as <-. unfold MIME_Add, MIME_Del. rewrite CL_canonical, lookup_delete_eq. apply map_Forall_insert_2; [|by apply map_Forall_delete].
      split; [done|]. repeat constructor. apply TrimString_valid. unfold values in Ev. destruct (h1 !! ContentLength) as [vv|] eqn:El; [|done]. cbn in Ev.
      destruct (H1 _ _ El) as [_ Hv]. rewrite Ev in Hv. by apply Forall_cons in Hv as [? _]. }
    repeat case_match; simplify_eq; unfold MIME_Del; try apply map_Forall_delete; done. }
  destruct (fixTrailer h2 c) as [[tr h3]|] eqn:E3; [|done]. injection HR as <-. cbn [t_Header].
  unfold fixTrailer in E3. repeat case_match; simplify_eq; unfold MIME_Del; try apply map_Forall_delete; done.
Qed.

Lemma finish_request_valid lax method uri proto major minor url h r :
  finish_request lax method uri proto major minor url h = Ok r -> map_Forall valid_entry h -> map_Forall valid_entry (req_Header r).
Proof.
  unfold finish_request. destruct (1 <? _); [done|]. intros HR Hh. pose proof (shouldClose_keeps major minor (fixPragmaCacheControl h)) as Hk.
  destruct (shouldClose _ _ _ _) as [close h1]. cbn [snd] in Hk. subst h1. destruct (readTransfer _ _ _ _ _ _) as [t|] eqn:E; [|done].
  injection HR as <-. apply (readTransfer_valid _ _ _ _ _ _ _ E). unfold fixPragmaCacheControl. repeat case_match; try done.
  apply map_Forall_insert_2; [|done]. split; [done|by repeat constructor].
Qed.

Section Spec.
Context {R : Type} `{ByteStream R}.

Lemma readRequest_text fuel lax (b : BufReader R) method uri proto major minor url kvs body :
  wf b -> content b = request_text method uri proto kvs ++ body -> bytes_ok (content b) -> len (content b) < Z.of_nat fuel -> len (content b) < 2 ^ 40 ->
  validMethod method = true -> space ∉ uri -> newline ∉ uri -> newline ∉ proto -> Forall header_ok kvs ->
  ParseHTTPVersion proto = Some (major, minor) -> request_URL method uri = Ok url ->
  exists b', leaves b b' body /\
    readRequest fuel lax b = Some (b', match finish_request lax method uri proto major minor url (header_map ∅ kvs) with Ok r => Ok r | Err e => Err (unexpected e) end).
Proof.
  intros Hw Hc Hb Hf Hl Hm Hus Hun Hpn Hk Hv Hu. unfold request_text in Hc.
  assert (bytes_ok method) as Hbm by (rewrite Hc, <- !app_assoc in Hb; by apply Forall_app in Hb as [? _]).
  destruct (validMethod_bytes method Hbm Hm) as (Hms & Hmn & _ & _). set (line := method ++ str " " ++ uri ++ str " " ++ proto).
  assert (newline ∉ line) as Hln.
  { unfold line. rewrite !not_elem_of_app. split_and!; try done; by apply (bool_decide_unpack _). }
  assert (next_line (content b) = Some (line, header_text kvs ++ body)) as HN.
  { rewrite Hc. rewrite <- !app_assoc. rewrite <- (request_line_next line (header_text kvs ++ body) Hln). f_equal. unfold line. by rewrite <- !app_assoc. }
  unfold readRequest, ReadLine. destruct (readLineSlice_spec fuel b (-1) line (header_text kvs ++ body) Hw HN Hf) as (b1 & -> & Hv1); [lia|].
  cbn [mbind option_bind]. unfold line. rewrite parseRequestLine_text by done. rewrite Hm, Hv, Hu. cbn [negb]. unfold ReadMIMEHeader.
  pose proof (next_line_len _ _ _ HN) as Hlen. pose proof (len_nonneg line). pose proof (leaves_content _ _ _ Hv1) as Hc1.
  destruct (readMIMEHeader_spec fuel (S (length kvs)) b1 maxInt64 maxInt64 (header_map ∅ kvs) None body (leaves_wf _ _ _ Hv1)) as (b2 & -> & Hv2); rewrite ?Hc1.
  - exact (next_line_bytes _ _ _ Hb HN).
  - lia.
  - unfold room, maxInt64. lia.
  - by apply header_text_starts.
  - by apply parsed_text.
  - cbn [mbind option_bind]. exists b2. split; [exact (leaves_trans _ _ _ _ _ Hv1 Hv2)|]. by destruct (finish_request _ _ _ _ _ _ _ _).
Qed.

(** ** Any input at all *)

Lemma readRequest_total fuel (b : BufReader R) :
  wf b -> bytes_ok (content b) -> len (content b) < Z.of_nat fuel ->
  exists b' res d C, readRequest fuel false b = Some (b', res) /\ leaves b b' C /\ content b = d ++ C /\
    match res with Ok r => sound_request r /\ exists p q, d = p ++ q /\ empty_line q | Err _ => True end.
Proof.
  intros Hw Hb Hf. unfold readRequest, ReadLine, readLineSlice.
  destruct (readLineSlice_loop_total fuel b [] (-1) Hw Hf) as (b1 & line & e & d & C & -> & Hv & Hc & _). cbn [mbind option_bind].
  destruct e as [e|]; [by eexists b1, _, d, C|]. destruct (parseRequestLine line) as [[[method uri] proto]|]; [|by eexists b1, _, d, C].
  destruct (validMethod method) eqn:Em; cbn [negb]; [|by eexists b1, _, d, C]. destruct (ParseHTTPVersion proto) as [[major minor]|] eqn:Ep; [|by eexists b1, _, d, C].
  destruct (request_URL method uri) as [url|e] eqn:Eu; [|by eexists b1, _, d, C]. unfold ReadMIMEHeader.
  assert (len (content b) = len d + len C) as Hl by (by rewrite Hc, len_app). pose proof (len_nonneg d).
  destruct (readMIMEHeader_total fuel b1 maxInt64 maxInt64 (leaves_wf _ _ _ Hv)) as (b2 & m & e & d2 & C2 & -> & Hv2 & Hc2 & He).
  - rewrite (leaves_content _ _ _ Hv). rewrite Hc in Hb. by apply Forall_app in Hb as [_ ?].
  - rewrite (leaves_content _ _ _ Hv). lia.
  - cbn [mbind option_bind]. pose proof (leaves_trans _ _ _ _ _ Hv Hv2) as Hv3. rewrite (leaves_content _ _ _ Hv) in Hc2.
    assert (content b = (d ++ d2) ++ C2) as Hc3 by (by rewrite Hc, Hc2, app_assoc).
    destruct e as [e|]; [by eexists b2, _, (d ++ d2), C2|]. destruct (finish_request false method uri proto major minor url m) as [r|e] eqn:Ef; [|by eexists b2, _, (d ++ d2), C2].
    eexists b2, _, (d ++ d2), C2. split; [done|]. split_and!; try done.
    + by apply (finish_request_sound method uri proto major minor url m).
    + destruct (He eq_refl) as (p & q & -> & Hq). exists (d ++ p), q. by rewrite app_assoc.
Qed.

Lemma numLeading_bound v : 0 <= numLeadingCRorLF v <= len v.
Proof. induction v as [|c v IH]; [done|]. cbn [numLeadingCRorLF]. rewrite len_cons. destruct (_ || _); lia. Qed.

(** What is skipped are line ends at the front. *)
Lemma skip_after_POST_spec lastMethod (b : BufReader R) :
  wf b -> exists b' d C, skip_after_POST lastMethod b = Some b' /\ leaves b b' C /\ content b = d ++ C /\
    match content b with c :: _ => c <> newline -> c <> return_ -> d = [] | [] => True end.
Proof.
  intros Hw. unfold skip_after_POST. destruct (bool_decide _); [|by exists b, [], (content b); split_and!; [|apply leaves_refl| |destruct (content b)]].
  destruct (Peek_spec b 4 Hw ltac:(lia)) as (b1 & -> & Hv). cbn [mbind option_bind]. set (p := take _ (content b)). set (n := numLeadingCRorLF p).
  destruct (Discard_spec b1 n (leaves_wf _ _ _ Hv)) as (b2 & -> & Hv2); [apply numLeading_bound|]. cbn [mbind option_bind].
  rewrite (leaves_content _ _ _ Hv) in Hv2. exists b2, (take (Z.to_nat n) (content b)), (drop (Z.to_nat n) (content b)).
  split_and!; [done|exact (leaves_trans _ _ _ _ _ Hv Hv2)|by rewrite take_drop|]. destruct (content b) as [|c C] eqn:E; [done|]. intros H1 H2.
  assert (n = 0) as ->; [|done]. unfold n, p. destruct (Z.to_nat _); [done|]. cbn [take numLeadingCRorLF].
  by rewrite (proj2 (Z.eqb_neq c return_)), (proj2 (Z.eqb_neq c newline)).
Qed.

Lemma conn_readRequest_total fuel remoteAddr lastMethod (b : BufReader R) :
  wf b -> bytes_ok (content b) -> len (content b) < Z.of_nat fuel ->
  exists b' res d C, conn_readRequest fuel false remoteAddr lastMethod b = Some (b', res) /\ leaves b b' C /\ content b = d ++ C /\
    match res with Ok r => (exists r0, sound_request r0 /\ admitted remoteAddr r0 r) /\ exists p q, d = p ++ q /\ empty_line q | Err _ => True end.
Proof.
  intros Hw Hb Hf. unfold conn_readRequest.
  destruct (skip_after_POST_spec lastMethod b Hw) as (b1 & d1 & C1 & -> & Hv1 & Hc1 & _).
  cbn [mbind option_bind]. rewrite Hc1 in Hb. apply Forall_app in Hb as [_ Hb1].
  assert (len (content b) = len d1 + len C1) as Hl by (by rewrite Hc1, len_app). pose proof (len_nonneg d1).
  destruct (readRequest_total fuel b1 (leaves_wf _ _ _ Hv1)) as (b' & res & d & C & -> & Hv & Hc & Hres); rewrite ?(leaves_content _ _ _ Hv1); [done|lia|].
  rewrite (leaves_content _ _ _ Hv1) in Hc. cbn [mbind option_bind]. eexists b', _, (d1 ++ d), C. split; [done|].
  split_and!; [exact (leaves_trans _ _ _ _ _ Hv1 Hv)|by rewrite Hc1, Hc, app_assoc|]. destruct res as [r0|]; [|done]. cbv beta iota.
  destruct (check_request remoteAddr r0) as [r|] eqn:E; [|done]. destruct Hres as (Hs & p & q & -> & Hq). split.
  - exists r0. by rewrite <- check_request_admitted.
  - exists (d1 ++ p), q. by rewrite app_assoc.
Qed.

End Spec.

(** ** A request that the server takes *)

(** The values that the header lines give for a key. *)
Definition given (kvs : list (gostring * gostring)) (s : gostring) : list gostring :=
  map snd (filter (fun kv => lower (fst kv) = lower s) kvs).

(** A valid method, a target that is an address, one Host, and a body of [n] bytes. *)
Record plain_request (method uri : gostring) (url : URL) (kvs : list (gostring * gostring)) (host : gostring) (n : Z) : Prop := {
  plain_method : validMethod method = true;
  plain_uri : space ∉ uri /\ newline ∉ uri /\ request_URL method uri = Ok url;
  plain_headers : Forall header_ok kvs;
  plain_host : given kvs (str "Host") = [host] /\ ValidHostHeader host = true;
  plain_identity : given kvs TransferEncoding = [];
  plain_length : declared (given kvs ContentLength) = Some n;
}.

Lemma header_map_given kvs s :
  Forall header_ok kvs -> bytes_ok s -> token s -> values (header_map ∅ kvs) (CanonicalMIMEHeaderKey s) = given kvs s.
Proof. intros Hk Hs Ht. exact (header_map_values kvs ∅ s Hk Hs Ht). Qed.

Lemma header_map_nonempty kvs m : map_Forall (fun _ vv => vv <> []) m -> map_Forall (fun _ vv => vv <> []) (header_map m kvs).
Proof.
  unfold header_map. revert m. induction kvs as [|[k v] kvs IH]; intros m Hm; [done|]. cbn [foldl]. apply IH. unfold MIME_Add.
  apply map_Forall_insert_2; [|done]. by destruct (default [] _).
Qed.

Lemma header_map_absent kvs s :
  Forall header_ok kvs -> bytes_ok s -> token s -> given kvs s = [] -> header_map ∅ kvs !! CanonicalMIMEHeaderKey s = None.
Proof.
  intros Hk Hs Ht Hg. rewrite <- header_map_given in Hg by done. unfold values in Hg. destruct (header_map ∅ kvs !! _) as [vv|] eqn:E; [|done].
  cbn in Hg. by destruct (header_map_nonempty kvs ∅ ltac:(apply map_Forall_empty) _ _ E).
Qed.

(** A valid method, a target that is an address and one Host, whatever the body. *)
Record request_head (method uri : gostring) (url : URL) (kvs : list (gostring * gostring)) (host : gostring) : Prop := {
  head_method : validMethod method = true;
  head_uri : space ∉ uri /\ newline ∉ uri /\ request_URL method uri = Ok url;
  head_headers : Forall header_ok kvs;
  head_host : given kvs (str "Host") = [host] /\ ValidHostHeader host = true;
}.

(** The trailer keys that the header lines announce. *)
Definition trailer_keys (kvs : list (gostring * gostring)) : list gostring :=
  map CanonicalMIMEHeaderKey (concat (map headerElements (given kvs (str "Trailer")))).

(** How the header lines say that the body is delimited. *)
Definition announces (kvs : list (gostring * gostring)) (s : body_source) : Prop :=
  match s with
  | NoBody => given kvs TransferEncoding = [] /\ declared (given kvs ContentLength) = Some 0
  | LimitedBody n => n <> 0 /\ given kvs TransferEncoding = [] /\ declared (given kvs ContentLength) = Some n
  | ChunkedBody => (exists v, given kvs TransferEncoding = [v] /\ EqualFold v (str "chunked") = true) /\
      Forall (fun k => ~ forbidden_key k) (trailer_keys kvs)
  | UntilClose => False
  end.

Definition announced_length (s : body_source) : Z := match s with LimitedBody n => n | ChunkedBody => -1 | _ => 0 end.

Lemma plain_head method uri url kvs host n :
  plain_request method uri url kvs host n ->
  request_head method uri url kvs host /\ announces kvs (if n =? 0 then NoBody else LimitedBody n) /\ announced_length (if n =? 0 then NoBody else LimitedBody n) = n.
Proof.
  intros [H1 H2 H3 H4 H5 H6]. split; [done|]. destruct (Z.eqb_spec n 0) as [->|Hn]; done.
Qed.

(** The values of the headers that the server looks at. *)
Lemma header_map_key kvs s :
  Forall header_ok kvs -> token s -> bytes_ok s -> CanonicalMIMEHeaderKey s = s ->
  values (header_map ∅ kvs) s = given kvs s /\ (given kvs s = [] -> header_map ∅ kvs !! s = None) /\
  (forall v, given kvs s = [v] -> header_map ∅ kvs !! s = Some [v]).
Proof.
  intros Hk Ht Hb Hs. pose proof (header_map_given kvs s Hk Hb Ht) as Hv. pose proof (header_map_absent kvs s Hk Hb Ht) as Ha. rewrite Hs in Hv, Ha.
  split_and!; try done. intros v Hg. rewrite Hg in Hv. unfold values in Hv. destruct (header_map ∅ kvs !! s); [by cbn in Hv; subst|done].
Qed.

(** What the framing decides for such headers. *)
Lemma readTransfer_announced method minor kvs s close :
  Forall header_ok kvs -> announces kvs s -> (s = ChunkedBody -> 1 <= minor) ->
  exists t, readTransfer false method 1 minor (fixPragmaCacheControl (header_map ∅ kvs)) close = Ok t /\
    t_Close t = close /\ t_Chunked t = bool_decide (s = ChunkedBody) /\ t_Body t = s /\ t_ContentLength t = announced_length s /\
    t_Trailer t = match s with ChunkedBody => announced_trailer (trailer_keys kvs) | _ => None end.
Proof.
  intros Hk Hs Hmin. set (h := header_map ∅ kvs).
  destruct (header_map_key kvs TransferEncoding Hk) as (_ & Hte0 & Hte1); [by repeat constructor|apply str_bytes_ok|by vm_compute|].
  destruct (header_map_key kvs ContentLength Hk) as (Hcl & _ & _); [by repeat constructor|apply str_bytes_ok|by vm_compute|].
  destruct (header_map_key kvs (str "Trailer") Hk) as (Htr & _ & _); [by repeat constructor|apply str_bytes_ok|by vm_compute|].
  fold h in Hte0, Hte1, Hcl, Htr. pose proof (readTransfer_framed method 1 minor (fixPragmaCacheControl h) close) as HF.
  assert (values (fixPragmaCacheControl h) ContentLength = given kvs ContentLength) as Hcl' by (unfold values; rewrite fixPragma_keeps by done; exact Hcl).
  assert (announced_keys (fixPragmaCacheControl h) = trailer_keys kvs) as Htr'.
  { unfold announced_keys, trailer_keys. rewrite <- Htr. unfold values. by rewrite fixPragma_keeps by done. }
  unfold framed in HF. rewrite Hcl', Htr', fixPragma_keeps in HF by done.
  destruct s as [| |n|]; [| | |done]; cbn [announces announced_length] in Hs |- *.
  - destruct Hs as [Ht Hd]. rewrite (Hte0 Ht) in HF. cbn [one_chunked] in HF. rewrite andb_false_r in HF.
    destruct (readTransfer _ _ _ _ _ _) as [t|e]; [|by destruct HF as [[_ ?]|HF]; [|rewrite Hd in HF]].
    destruct HF as (_ & Hc & Hch & _ & Hdt & _ & _ & Hb & Htt & _). rewrite Hd in Hdt. injection Hdt as Hdt. rewrite <- Hdt in Hb. by exists t.
  - destruct Hs as [(v & Ht & Hv) Hall]. rewrite (Hte1 v Ht) in HF. cbn [one_chunked] in HF. rewrite Hv, andb_true_r in HF.
    assert (modern 1 minor = true) as Hmod by (unfold modern; cbn; by rewrite (proj2 (Z.leb_le 1 minor)) by auto). rewrite Hmod in HF.
    destruct (readTransfer _ _ _ _ _ _) as [t|e].
    + destruct HF as (_ & Hc & Hch & Hb & Hl & _ & _ & Htt & _). by exists t.
    + exfalso. apply Exists_exists in HF as (k & Hin & Hf). rewrite Forall_forall in Hall. by apply (Hall k).
  - destruct Hs as (Hn & Ht & Hd). rewrite (Hte0 Ht) in HF. cbn [one_chunked] in HF. rewrite andb_false_r in HF.
    destruct (readTransfer _ _ _ _ _ _) as [t|e]; [|by destruct HF as [[_ ?]|HF]; [|rewrite Hd in HF]].
    destruct HF as (_ & Hc & Hch & _ & Hdt & _ & _ & Hb & Htt & _). rewrite Hd in Hdt. injection Hdt as Hdt. rewrite <- Hdt in Hb.
    rewrite (proj2 (Z.eqb_neq n 0)) in Hb by done. by exists t.
Qed.

(** Whether the header lines ask for the connection to be closed. *)
Definition wants_close (minor : Z) (kvs : list (gostring * gostring)) : bool :=
  let conv := given kvs (str "Connection") in
  let hasClose := HeaderValuesContainsToken conv (str "close") in
  if minor =? 0 then hasClose || negb (HeaderValuesContainsToken conv (str "keep-alive")) else hasClose.

Lemma finish_request_announced method uri proto minor url kvs host s :
  request_head method uri url kvs host -> announces kvs s -> (s = ChunkedBody -> 1 <= minor) ->
  exists r, finish_request false method uri proto 1 minor url (header_map ∅ kvs) = Ok r /\
    req r = mk_Request method (if bool_decide (Host url = []) then host else Host url) url uri [] 1 minor /\ Proto r = proto /\
    values (req_Header r) (str "Host") = [host] /\ req_ContentLength r = announced_length s /\ req_chunked r = bool_decide (s = ChunkedBody) /\ req_Body r = s /\
    req_Close r = wants_close minor kvs /\ req_Trailer r = match s with ChunkedBody => announced_trailer (trailer_keys kvs) | _ => None end.
Proof.
  intros [Hm _ Hk [Hh _]] Hs Hmin.
  destruct (header_map_key kvs (str "Host") Hk) as (Hhost & _ & _); [by repeat constructor|apply str_bytes_ok|by vm_compute|].
  destruct (header_map_key kvs (str "Connection") Hk) as (Hconn & _ & _); [by repeat constructor|apply str_bytes_ok|by vm_compute|].
  rewrite Hh in Hhost. unfold finish_request. rewrite Hhost. change (1 <? len [host]) with false. cbv iota. change (1 <? len [host]) with false. cbv iota.
  assert (shouldClose 1 minor (fixPragmaCacheControl (header_map ∅ kvs)) false = (wants_close minor kvs, fixPragmaCacheControl (header_map ∅ kvs))) as ->.
  { unfold shouldClose, wants_close. change (1 <? 1) with false. change (1 =? 1) with true. cbn [andb]. rewrite andb_false_r.
    assert (values (fixPragmaCacheControl (header_map ∅ kvs)) (str "Connection") = given kvs (str "Connection")) as ->
      by (unfold values; rewrite fixPragma_keeps by done; exact Hconn). by destruct (minor =? 0). }
  destruct (readTransfer_announced method minor kvs s (wants_close minor kvs) Hk Hs Hmin) as (t & ER & Hc & Hch & Hb & Hl & Htr). rewrite ER.
  assert (values (t_Header t) (str "Host") = [host]) as HH.
  { unfold values in Hhost |- *. rewrite (readTransfer_keeps _ _ _ _ _ _ _ _ ER), fixPragma_keeps by done. done. }
  assert (isH2Upgrade method proto (Path url) (t_Header t) = false) as ->.
  { unfold isH2Upgrade. rewrite (bool_decide_false (t_Header t = ∅)), andb_false_r; [done|]. intros He. rewrite He in HH. done. }
  eexists. split; [done|]. cbn [req Proto req_Header req_ContentLength req_chunked req_Body req_Close req_Trailer]. split_and!; try done.
  unfold Header_get. by rewrite Hhost.
Qed.

Section Wire.
Context {R : Type} `{ByteStream R}.

Lemma conn_readRequest_head fuel remoteAddr lastMethod (b : BufReader R) method uri proto minor url kvs host s body :
  wf b -> content b = request_text method uri proto kvs ++ body -> bytes_ok (content b) -> len (content b) < Z.of_nat fuel -> len (content b) < 2 ^ 40 ->
  newline ∉ proto -> ParseHTTPVersion proto = Some (1, minor) -> request_head method uri url kvs host -> announces kvs s -> (s = ChunkedBody -> 1 <= minor) ->
  exists b' r, conn_readRequest fuel false remoteAddr lastMethod b = Some (b', Ok r) /\ leaves b b' body /\
    req r = mk_Request method (if bool_decide (Host url = []) then host else Host url) url uri remoteAddr 1 minor /\
    req_ContentLength r = announced_length s /\ req_chunked r = bool_decide (s = ChunkedBody) /\ req_Body r = s /\
    req_Close r = wants_close minor kvs /\ req_Trailer r = match s with ChunkedBody => announced_trailer (trailer_keys kvs) | _ => None end /\
    req_Header r !! str "Host" = None /\
    (forall s, bytes_ok s -> token s -> ~ framing_key (CanonicalMIMEHeaderKey s) -> CanonicalMIMEHeaderKey s <> str "Host" -> MIME_Values (req_Header r) s = given kvs s).
Proof.
  intros Hw Hc Hb Hf Hl Hpn Hv Hp Hs Hmin. unfold conn_readRequest. pose proof Hp as [Hm (Hus & Hun & Hu) Hk [Hh Hvh]].
  destruct (skip_after_POST_spec lastMethod b Hw) as (b1 & d & C & -> & Hv1 & Hc1 & Hd). cbn [mbind option_bind].
  assert (d = []) as ->.
  { assert (bytes_ok method) as Hbm by (rewrite Hc in Hb; unfold request_text in Hb; rewrite <- !app_assoc in Hb; by apply Forall_app in Hb as [? _]).
    destruct (validMethod_bytes method Hbm Hm) as (_ & H1 & H2 & Hne). rewrite Hc in Hd. destruct method as [|c method]; [done|].
    apply Hd; intros ->; [apply H1|apply H2]; by left. }
  cbn [app] in Hc1. subst C. rewrite <- (leaves_content _ _ _ Hv1) in Hc, Hb, Hf, Hl.
  destruct (finish_request_announced method uri proto minor url kvs host s Hp Hs Hmin) as (r & HF & Hr & Hpr & HH & Hn & Hch & Hbd & Hcl & Htr).
  destruct (readRequest_text fuel false b1 method uri proto 1 minor url kvs body (leaves_wf _ _ _ Hv1) Hc Hb Hf Hl Hm Hus Hun Hpn Hk Hv Hu) as (b2 & Hv2 & ->).
  cbn [mbind option_bind]. rewrite HF. pose proof (finish_request_fields _ _ _ _ _ _ _ _ _ HF) as (_ & _ & _ & _ & _ & _ & _ & _ & Hkeep).
  eexists b2, _. split_and!; [f_equal; f_equal; apply check_request_admitted|exact (leaves_trans _ _ _ _ _ Hv1 Hv2)|..].
  - unfold admitted. rewrite Hr, HH. cbv zeta. split_and!; [done|done|by intros h [= <-]| |done].
    apply (finish_request_valid _ _ _ _ _ _ _ _ _ HF), header_map_valid; [done|apply map_Forall_empty].
  - done.
  - done.
  - done.
  - done.
  - done.
  - done.
  - apply lookup_delete_eq.
  - intros k Hkb Ht Hfk Hnh. cbn [req_Header]. rewrite <- header_map_given by done. unfold MIME_Values, values. by rewrite lookup_delete_ne, Hkeep.
Qed.

Lemma conn_readRequest_text fuel remoteAddr lastMethod (b : BufReader R) method uri proto minor url kvs host n body :
  wf b -> content b = request_text method uri proto kvs ++ body -> bytes_ok (content b) -> len (content b) < Z.of_nat fuel -> len (content b) < 2 ^ 40 ->
  newline ∉ proto -> ParseHTTPVersion proto = Some (1, minor) -> plain_request method uri url kvs host n ->
  exists b' r, conn_readRequest fuel false remoteAddr lastMethod b = Some (b', Ok r) /\ leaves b b' body /\
    req r = mk_Request method (if bool_decide (Host url = []) then host else Host url) url uri remoteAddr 1 minor /\
    req_ContentLength r = n /\ req_chunked r = false /\ req_Body r = (if n =? 0 then NoBody else LimitedBody n) /\ req_Header r !! str "Host" = None /\
    (forall s, bytes_ok s -> token s -> ~ framing_key (CanonicalMIMEHeaderKey s) -> CanonicalMIMEHeaderKey s <> str "Host" -> MIME_Values (req_Header r) s = given kvs s).
Proof.
  intros Hw Hc Hb Hf Hl Hpn Hv (Hh & Ha & Hn)%plain_head.
  destruct (conn_readRequest_head fuel remoteAddr lastMethod b method uri proto minor url kvs host _ body Hw Hc Hb Hf Hl Hpn Hv Hh Ha)
    as (b' & r & HR & Hlv & Hr & HL & HC & HB & _ & _ & HH & HV); [by destruct (n =? 0)|].
  exists b', r. split_and!; try done; [by rewrite HL|]. rewrite HC. by destruct (n =? 0).
Qed.
End Wire.

(** ** Claims *)

(** [C10] A request is read back exactly.  Over any byte stream, however it is cut into
    reads and whatever the buffer, the text of a valid request with one Host and at most
    one length is accepted, after any request before it; the handler gets the method, the
    target, its address, the host, the length of the body and the values of every header
    that the server does not consume, and what follows the headers is left to be read. *)
Theorem request_round_trip {R : Type} `{ByteStream R} (fuel : nat) (remoteAddr lastMethod : gostring) (b : BufReader R)
    (method uri proto : gostring) (minor : Z) (url : URL) (kvs : list (gostring * gostring)) (host : gostring) (n : Z) (body : gobytes) :
  wf b -> content b = request_text method uri proto kvs ++ body -> bytes_ok (content b) ->
  len (content b) < Z.of_nat fuel -> len (content b) < 2 ^ 40 ->
  newline ∉ proto -> ParseHTTPVersion proto = Some (1, minor) -> plain_request method uri url kvs host n ->
  exists b' r, conn_readRequest fuel false remoteAddr lastMethod b = Some (b', Ok r) /\ leaves b b' body /\
    req r = mk_Request method (if bool_decide (Host url = []) then host else Host url) url uri remoteAddr 1 minor /\
    req_ContentLength r = n /\ req_chunked r = false /\ req_Body r = (if n =? 0 then NoBody else LimitedBody n) /\
    req_Header r !! str "Host" = None /\
    (forall s, bytes_ok s -> token s -> ~ framing_key (CanonicalMIMEHeaderKey s) -> CanonicalMIMEHeaderKey s <> str "Host" ->
      MIME_Values (req_Header r) s = given kvs s).
Proof. apply conn_readRequest_text. Qed.

Definition demo_headers : list (gostring * gostring) := [(str "host", str "api.test:80"); (str "X-Tag", str "1"); (str "content-length", str "3"); (str "x-tag", str "2")].

Definition demo_url : URL := match request_URL (str "POST") (str "/search?q=go") with Ok u => u | Err _ => new_URL end.

Lemma demo_plain : plain_request (str "POST") (str "/search?q=go") demo_url demo_headers (str "api.test:80") 3.
Proof.
  split.
  - by vm_compute.
  - split_and!; [by apply (bool_decide_unpack _); vm_compute..|by vm_compute].
  - repeat constructor; done.
  - split; by vm_compute.
  - by vm_compute.
  - by vm_compute.
Qed.

Lemma request_round_trip_witness :
  let b := NewReaderSize (mk_stream [request_text (str "POST") (str "/search?q=go") (str "HTTP/1.1") demo_headers; str "abc"] EOF true) 16 in
  exists b' r, conn_readRequest 300 false (str "1.2.3.4:5") (str "POST") b = Some (b', Ok r) /\ leaves b b' (str "abc") /\
    req_Body r = LimitedBody 3 /\ MIME_Values (req_Header r) (str "X-TAG") = [str "1"; str "2"].
Proof.
  intros b. destruct (request_round_trip 300 (str "1.2.3.4:5") (str "POST") b (str "POST") (str "/search?q=go") (str "HTTP/1.1") 1 demo_url demo_headers
    (str "api.test:80") 3 (str "abc")) as (b' & r & HR & Hv & _ & _ & _ & HB & _ & HV).
  - apply NewReaderSize_spec. vm_compute. split; [repeat split; lia|done].
  - by vm_compute.
  - by apply (bool_decide_unpack _); vm_compute.
  - by vm_compute.
  - by vm_compute.
  - by apply (bool_decide_unpack _); vm_compute.
  - by vm_compute.
  - exact demo_plain.
  - exists b', r. split_and!; [exact HR|exact Hv|exact HB|]. rewrite HV; [by vm_compute|apply str_bytes_ok|repeat constructor| |by vm_compute].
    intros [E|[E|[E|E]]]; by vm_compute in E.
Defined.

(** [C11] Whatever bytes a client sends, reading a request returns: no panic, no endless
    loop.  A request is accepted only when its last line was read as an empty one, and it
    is then well formed: a method of token bytes, a version the server speaks, a target
    that is an address, at most one Host, which a request of HTTP/1.1 has and which is
    made of host bytes, valid header names and values, and a body whose end is fixed by
    the chunked encoding or by one length below 2^63, never by both.  The handler gets it
    with the address of the peer and without the Host header. *)
Theorem request_any_input {R : Type} `{ByteStream R} (fuel : nat) (remoteAddr lastMethod : gostring) (b : BufReader R) :
  wf b -> bytes_ok (content b) -> len (content b) < Z.of_nat fuel ->
  exists b' res d C, conn_readRequest fuel false remoteAddr lastMethod b = Some (b', res) /\ leaves b b' C /\ content b = d ++ C /\
    match res with
    | Ok r => (exists r0, sound_request r0 /\ admitted remoteAddr r0 r) /\ exists p q, d = p ++ q /\ empty_line q
    | Err _ => True
    end.
Proof. apply conn_readRequest_total. Qed.

Lemma request_any_input_witness :
  let b := NewReader (message ["GET / HTTP/1.1"; "Host: a"; ""]%string) in
  exists b' res d C, conn_readRequest 300 false (str "1.2.3.4:5") [] b = Some (b', res) /\ leaves b b' C /\ content b = d ++ C /\
    match res with
    | Ok r => (exists r0, sound_request r0 /\ admitted (str "1.2.3.4:5") r0 r) /\ exists p q, d = p ++ q /\ empty_line q
    | Err _ => True
    end.
Proof.
  intros b. apply (request_any_input 300 (str "1.2.3.4:5") [] b).
  - apply NewReaderSize_spec. vm_compute. split; [repeat split; lia|done].
  - by apply (bool_decide_unpack _); vm_compute.
  - by vm_compute.
Defined.
