(* ===== verification/Body.v ===== *)
(** * net/http: the body of a message

    [tools/go-patched/src/net/http/transfer.go], the type [body]: reading a body through
    the chunked reader, up to a declared length or up to the end of the connection, the
    trailer behind the chunks, and Close, which reads what a handler left so that the next
    request can follow; with [LimitedReader], [CopyN] and [Discard] of io.

    A body and the server share one buffered reader; it is a part of the source of the
    body.  The mutex makes each method one step; the callback onHitEOF is left out. *)

From S2P Require Import Prelude GoIO HostPort Strconv Utf8 Strings Url UrlParse TextProto Pattern Routing Mux Bufio TextReader Chunked Transfer ReadRequest.
Local Open Scope go_scope.
Local Set Warnings "-clear-no-such-hyp".

(** ** Data *)

Inductive source (R : Type) :=
  | FromChunks (cr : chunkedReader R)
  | FromLimit (r : BufReader R) (N : Z)
  | FromWire (r : BufReader R).
Arguments FromChunks {R} _.
Arguments FromLimit {R} _ _.
Arguments FromWire {R} _.

(** [hdr] tells whether the trailer is still to be read; it goes to [Trailer] of the
    message. *)
Record body (R : Type) := mk_body {
  src : source R;
  hdr : bool;
  Trailer : option Header;
  closing : bool;
  doEarlyClose : bool;
  sawEOF : bool;
  closed : bool;
  earlyClose : bool;
}.
Arguments mk_body {R} _ _ _ _ _ _ _ _.
Arguments src {R} _.
Arguments hdr {R} _.
Arguments Trailer {R} _.
Arguments closing {R} _.
Arguments doEarlyClose {R} _.
Arguments sawEOF {R} _.
Arguments closed {R} _.
Arguments earlyClose {R} _.

Definition ErrBodyReadAfterClose : error := OtherError (str "http: invalid Read on closed Body").
Definition errTrailerEOF : error := OtherError (str "http: unexpected EOF reading trailer").
Definition singleCRLF : gobytes := [return_; newline].
Definition doubleCRLF : gobytes := [return_; newline; return_; newline].
Definition maxPostHandlerReadBytes : Z := 256 << 10.

Section Reader.
Context {R : Type} `{Reader R}.
Notation body := (body R).
Notation BufReader := (BufReader R).

Definition with_src (b : body) (s : source R) : body := mk_body s (hdr b) (Trailer b) (closing b) (doEarlyClose b) (sawEOF b) (closed b) (earlyClose b).
Definition with_sawEOF (b : body) (x : bool) : body := mk_body (src b) (hdr b) (Trailer b) (closing b) (doEarlyClose b) x (closed b) (earlyClose b).
Definition with_closed (b : body) (x : bool) : body := mk_body (src b) (hdr b) (Trailer b) (closing b) (doEarlyClose b) (sawEOF b) x (earlyClose b).
Definition with_hdr (b : body) (x : bool) (t : option Header) : body := mk_body (src b) x t (closing b) (doEarlyClose b) (sawEOF b) (closed b) (earlyClose b).
Definition with_earlyClose (b : body) : body := mk_body (src b) (hdr b) (Trailer b) (closing b) (doEarlyClose b) (sawEOF b) (closed b) true.

(** The buffered reader of the connection. *)
Definition wire_of (s : source R) : BufReader := match s with FromChunks cr => cr_r cr | FromLimit r _ => r | FromWire r => r end.
Definition with_wire (s : source R) (r : BufReader) : source R :=
  match s with
  | FromChunks cr => FromChunks (mk_chunkedReader r (cr_n cr) (cr_err cr) (checkEnd cr) (excess cr))
  | FromLimit _ N => FromLimit r N
  | FromWire _ => FromWire r
  end.

(** ** Reading *)

Definition LimitedReader_Read (r : BufReader) (N n : Z) : BufReader * Z * (gobytes * option error) :=
  if N <=? 0 then (r, N, ([], Some EOF)) else
  let '(r, (d, err)) := Read r (if N <? n then N else n) in
  (r, N - len d, (d, err)).

Definition src_Read (fuel : nat) (s : source R) (n : Z) : option (source R * (gobytes * option error)) :=
  match s with
  | FromChunks cr => '(cr, x) ← chunked_Read fuel cr n; Some (FromChunks cr, x)
  | FromLimit r N => let '(r, N, x) := LimitedReader_Read r N n in Some (FromLimit r N, x)
  | FromWire r => let '(r, x) := Read r n in Some (FromWire r, x)
  end.

Fixpoint seeUpcomingDoubleCRLF (fuel : nat) (r : BufReader) (peekSize : Z) : option (BufReader * bool) :=
  match fuel with
  | O => None
  | S fuel =>
      '(r, (buf, err)) ← Peek r peekSize;
      if HasSuffix buf doubleCRLF then Some (r, true)
      else if negb (bool_decide (err = None)) then Some (r, false)
      else seeUpcomingDoubleCRLF fuel r (peekSize + 1)
  end.

Definition mergeSetHeader (dst : option Header) (s : Header) : Header :=
  match dst with None => s | Some d => s ∪ d end.

Definition readTrailer (fuel : nat) (b : body) : option (body * option error) :=
  let wire b r := with_src b (with_wire (src b) r) in
  '(r, (buf, err)) ← Peek (wire_of (src b)) 2;
  let b := wire b r in
  if bool_decide (buf = singleCRLF) then '(r, _) ← Discard r 2; Some (wire b r, None) else
  if len buf <? 2 then Some (b, Some errTrailerEOF) else
  if negb (bool_decide (err = None)) then Some (b, err) else
  '(r, found) ← seeUpcomingDoubleCRLF (S (length (Bufio.buf r))) r 4;
  let b := wire b r in
  if negb found then Some (b, Some (OtherError (str "http: suspiciously long trailer after chunked body"))) else
  '(r, (h, err)) ← ReadMIMEHeader fuel r;
  let b := wire b r in
  match err with
  | Some err => Some (b, Some (if bool_decide (err = EOF) then errTrailerEOF else err))
  | None => Some (with_hdr b (hdr b) (Some (mergeSetHeader (Trailer b) h)), None)
  end.

(** What is left of a declared length. *)
Definition limit_left (s : source R) : option Z := match s with FromLimit _ N => Some N | _ => None end.

Definition readLocked (fuel : nat) (b : body) (n : Z) : option (body * (gobytes * option error)) :=
  if sawEOF b then Some (b, ([], Some EOF)) else
  '(s, (d, err)) ← src_Read fuel (src b) n;
  let b := with_src b s in
  '(b, err) ← (if bool_decide (err = Some EOF) then
    let b := with_sawEOF b true in
    if hdr b then
      '(b, e) ← readTrailer fuel b;
      match e with
      | Some e => Some (with_hdr (with_closed (with_sawEOF b false) true) false (Trailer b), Some e)
      | None => Some (with_hdr b false (Trailer b), err)
      end
    else Some (b, match limit_left (src b) with Some N => if 0 <? N then Some ErrUnexpectedEOF else err | None => err end)
  else Some (b, err));
  if bool_decide (err = None) && (0 <? len d) && bool_decide (limit_left (src b) = Some 0)
  then Some (with_sawEOF b true, (d, Some EOF))
  else Some (b, (d, err)).

Definition body_Read (fuel : nat) (b : body) (n : Z) : option (body * (gobytes * option error)) :=
  if closed b then Some (b, ([], Some ErrBodyReadAfterClose)) else readLocked fuel b n.

(** ** Closing *)

(** [Copy] to [Discard] of the body, or of a [LimitedReader] with [limit] bytes of it. *)
Fixpoint discard_ReadFrom (rounds fuel : nat) (b : body) (limit : option Z) (n : Z) : option (body * (Z * option error)) :=
  match rounds with
  | O => None
  | S rounds =>
      '(b, (d, err)) ← (match limit with
        | Some N => if N <=? 0 then Some (b, ([], Some EOF)) else body_Read fuel b (if N <? 8192 then N else 8192)
        | None => body_Read fuel b 8192
        end);
      let n := n + len d in
      match err with
      | Some err => Some (b, (n, if bool_decide (err = EOF) then None else Some err))
      | None => discard_ReadFrom rounds fuel b ((fun N => N - len d) <$> limit) n
      end
  end.

Definition CopyN_discard (rounds fuel : nat) (b : body) (n : Z) : option (body * (Z * option error)) :=
  '(b, (written, err)) ← discard_ReadFrom rounds fuel b (Some n) 0;
  if written =? n then Some (b, (n, None))
  else Some (b, (written, if (written <? n) && bool_decide (err = None) then Some EOF else err)).

Definition body_Close (rounds fuel : nat) (b : body) : option (body * option error) :=
  if closed b then Some (b, None) else
  '(b, err) ← (if sawEOF b then Some (b, None)
    else if negb (hdr b) && closing b then Some (b, None)
    else if doEarlyClose b then
      if (match limit_left (src b) with Some N => maxPostHandlerReadBytes <? N | None => false end) then Some (with_earlyClose b, None)
      else
        '(b, (n, err)) ← CopyN_discard rounds fuel b maxPostHandlerReadBytes;
        let err := if bool_decide (err = Some EOF) then None else err in
        Some (if n =? maxPostHandlerReadBytes then with_earlyClose b else b, err)
    else '(b, (_, err)) ← discard_ReadFrom rounds fuel b None 0; Some (b, err));
  Some (with_closed b true, err).

Definition bodyRemains (b : body) : bool := negb (sawEOF b).
Definition didEarlyClose (b : body) : bool := earlyClose b.
Definition unreadDataSizeLocked (b : body) : Z := default (-1) (limit_left (src b)).

(** The body that [readTransfer] makes for a request on the connection, with the setting
    that [conn.readRequest] makes; [None] for [NoBody]. *)
Definition open_body (r : full_request) (b : BufReader) : option body :=
  let make s h := Some (mk_body s h (req_Trailer r) (req_Close r) true false false false) in
  match req_Body r with
  | NoBody => None
  | ChunkedBody => make (FromChunks (NewChunkedReader b)) true
  | LimitedBody n => make (FromLimit b n) false
  | UntilClose => make (FromWire b) false
  end.

End Reader.

(** Reading a body in pieces of the sizes given, up to the first error. *)
Fixpoint drain {R} `{Reader R} (rounds fuel : nat) (sizes : nat -> Z) (b : body R) (acc : gobytes) : option (body R * (gobytes * option error)) :=
  match rounds with
  | O => None
  | S rounds =>
      '(b, (d, err)) ← body_Read fuel b (sizes rounds);
      if bool_decide (err = None) then drain rounds fuel sizes b (acc ++ d) else Some (b, (acc ++ d, err))
  end.

Definition demo_body (chunked : bool) (chunks : list gobytes) : body stream :=
  let b := NewReader (mk_stream chunks EOF true) in
  mk_body (if chunked then FromChunks (NewChunkedReader b) else FromLimit b 5) chunked None false true false false false.

Example body_examples :
  ((fun x => (snd x, Trailer (fst x), content (wire_of (src (fst x))))) <$>
    drain 20 2000 (fun _ => 3) (demo_body true [crlf ["5"; "hello"; "0"; "X-Sum: 7"; ""]%string; str "GET"]) []) =
    Some ((str "hello", Some EOF), Some {[ str "X-Sum" := [str "7"] ]}, str "GET") /\
  ((fun x => (snd x, content (wire_of (src (fst x))))) <$> drain 20 2000 (fun _ => 3) (demo_body false [str "hel"; str "loGET"]) []) = Some ((str "hello", Some EOF), str "GET") /\
  (snd <$> drain 20 2000 (fun _ => 3) (demo_body false [str "hel"]) []) = Some (str "hel", Some ErrUnexpectedEOF) /\
  ((fun x => (snd x, content (wire_of (src (fst x))))) <$> body_Close 20 2000 (demo_body true [crlf ["5"; "hello"; "0"; ""]%string; str "GET"])) = Some (None, str "GET").
Proof. split_and!; vm_compute; reflexivity. Qed.

Section Spec.
Context {R : Type} `{ByteStream R}.
Context (origin : BufReader R).
Notation kin := (kin origin).

(** ** A source with [data] to deliver before [rest] *)

Definition at_source (s : source R) (data rest : gobytes) : Prop :=
  match s with
  | FromChunks cr => at_body origin cr data rest
  | FromLimit r N => wf r /\ kin r /\ 0 < N /\ len data = N /\ content r = data ++ rest /\ (rest = [] -> ending (rd origin) = EOF)
  | FromWire _ => False
  end.

Definition wire_patience (s : source R) : nat := patience (rd (wire_of s)).

(** Data with more to come, or the last of it. *)
Definition src_outcome (s s' : source R) (d : gobytes) (e : option error) (data' rest : gobytes) : Prop :=
  (e = None /\ at_source s' data' rest /\ (d = [] -> (wire_patience s' < wire_patience s)%nat)) \/
  (data' = [] /\ content (wire_of s') = rest /\
    ((e = None /\ d <> [] /\ limit_left s' = Some 0) \/ (e = Some EOF /\ (limit_left s' = None \/ limit_left s' = Some 0)))).

Definition kind (s : source R) : bool := match s with FromChunks _ => true | _ => false end.

Lemma limited_read r N n data rest :
  at_source (FromLimit r N) data rest -> 0 < n ->
  exists r' d e data', LimitedReader_Read r N n = (r', N - len d, (d, e)) /\ data = d ++ data' /\ len d <= n /\
    wf r' /\ kin r' /\ len (content r') <= len (content r) /\ src_outcome (FromLimit r N) (FromLimit r' (N - len d)) d e data' rest.
Proof.
  intros (Hw & Hk & HN & Hl & Hc & Hend) Hn. unfold LimitedReader_Read. rewrite (proj2 (Z.leb_gt _ _)) by lia. set (m := if N <? n then N else n).
  assert (0 < m /\ m <= n /\ m <= N) as (Hm & Hmn & HmN) by (unfold m; destruct (Z.ltb_spec N n); lia).
  destruct (Read_spec r m Hw Hm) as (r' & d & e & C & -> & Hv & Hcd & Hld & He & Hp). rewrite Hc in Hcd.
  assert (exists data', data = d ++ data' /\ C = data' ++ rest) as (data' & -> & ->).
  { apply app_eq_inv in Hcd as [(k & -> & ->)|(k & E0 & E1)]; [by exists k|]. destruct k as [|x k]; [exists []; rewrite app_nil_r in *; by rewrite E0|].
    rewrite E0, len_app, len_cons in Hld. pose proof (len_nonneg k). lia. }
  rewrite len_app in Hl. pose proof (len_nonneg d). pose proof (len_nonneg data').
  pose proof (leaves_content _ _ _ Hv) as Hc'. pose proof (kin_leaves _ _ _ _ Hv Hk) as Hk'.
  exists r', d, e, data'. split_and!; try done; [lia|apply Hv|rewrite Hc, Hc', !len_app; lia|].
  unfold src_outcome, at_source, wire_patience. cbn [wire_of limit_left]. rewrite Hc'. destruct data' as [|x data'].
  - change (@len Z []) with 0 in Hl. right. split_and!; try done. replace (N - len d) with 0 by lia. destruct (decide (e = None)) as [->|Hne].
    + left. split_and!; try done. intros ->. change (@len Z []) with 0 in Hl. lia.
    + right. destruct (He Hne) as [-> Hrest]. cbn in Hrest. destruct Hk as (_ & _ & ->). rewrite (Hend Hrest). split; [done|by right].
  - left. assert (e = None) as ->. { destruct e; [|done]. by destruct (He ltac:(done)) as [_ ?]. }
    rewrite len_cons in *. pose proof (len_nonneg data'). split_and!; try done; [apply Hv|lia|lia|]. intros ->. by apply Hp.
Qed.

Lemma src_Read_spec fuel s n data rest :
  at_source s data rest -> 0 < n -> 101 * len (content (wire_of s)) + 200 < Z.of_nat fuel ->
  exists s' d e data', src_Read fuel s n = Some (s', (d, e)) /\ data = d ++ data' /\ len d <= n /\ kind s' = kind s /\
    wf (wire_of s') /\ kin (wire_of s') /\ len (content (wire_of s')) <= len (content (wire_of s)) /\ src_outcome s s' d e data' rest.
Proof.
  destruct s as [cr|r N|r]; [|intros Hat Hn _|done].
  - intros Hat Hn Hf. unfold src_Read, chunked_Read. cbn [wire_of] in *. pose proof Hat as (Hw & _). pose proof (patience_bound _ (wf_steady _ Hw)) as Hp. unfold maxConsecutiveEmptyReads in Hp.
    destruct (Read_loop_spec origin fuel cr [] n data rest Hat ltac:(lia) (fun _ => Hn)) as (cr' & d & e & data' & -> & -> & Hl & Hres & Hlc); [unfold measure; lia|].
    cbn [mbind option_bind app]. exists (FromChunks cr'), d, e, data'. cbn [wire_of kind].
    destruct Hres as [(-> & Hne & Hat')|(-> & -> & Hw' & Hc & Hk)]; split_and!; try done.
    + apply Hat'.
    + apply Hat'.
    + left. split_and!; try done.
    + right. split_and!; try done. right. split; [done|by left].
  - destruct (limited_read r N n data rest Hat Hn) as (r' & d & e & data' & HR & Hd & Hl & Hw & Hk & Hlc & Ho). unfold src_Read. rewrite HR.
    exists (FromLimit r' (N - len d)), d, e, data'. by split_and!.
Qed.

(** ** The trailer *)

Lemma HasSuffix_app a b : HasSuffix (a ++ b) b = true.
Proof.
  unfold HasSuffix. rewrite len_app, (proj2 (Z.leb_le _ _)) by (pose proof (len_nonneg a); lia). cbn [andb]. apply bool_decide_eq_true.
  rewrite length_app, Nat.add_sub. apply drop_app_length.
Qed.

Lemma see_CRLF_spec fuel (r : BufReader R) k a C :
  wf r -> content r = a ++ doubleCRLF ++ C -> 0 <= k <= len a + 4 -> len a + 4 <= len (buf r) -> len a + 4 - k < Z.of_nat fuel ->
  exists r', seeUpcomingDoubleCRLF fuel r k = Some (r', true) /\ leaves r r' (content r).
Proof.
  revert r k. induction fuel as [|fuel IH]; intros r k Hw Hc Hk Hz Hf; [lia|]. cbn [seeUpcomingDoubleCRLF].
  destruct (Peek_spec r k Hw ltac:(lia)) as (r1 & -> & Hv). cbn [mbind option_bind]. rewrite (proj2 (Z.ltb_ge _ _)) by lia.
  assert (len (content r) = len a + 4 + len C) as Hl by (rewrite Hc, !len_app; change (len doubleCRLF) with 4; lia). pose proof (len_nonneg C).
  rewrite (proj2 (Z.ltb_ge _ _)) by lia. destruct (HasSuffix _ doubleCRLF) eqn:E; [by exists r1|]. rewrite bool_decide_true by done. cbn [negb].
  assert (k <> len a + 4) as Hne.
  { intros ->. rewrite Z.min_l in E by lia. rewrite Hc, app_assoc in E. rewrite take_app_length' in E by (rewrite length_app; unfold len; cbn; lia).
    by rewrite HasSuffix_app in E. }
  destruct (IH r1 (k + 1) (leaves_wf _ _ _ Hv)) as (r2 & -> & Hv2); rewrite ?(leaves_content _ _ _ Hv), ?(leaves_size _ _ _ Hv); try done; try lia.
  exists r2. split; [done|]. rewrite (leaves_content _ _ _ Hv) in Hv2. exact (leaves_trans _ _ _ _ _ Hv Hv2).
Qed.

(** The headers behind the last chunk, [rest] after them. *)
Definition trailer_ok (kvs : list (gostring * gostring)) (rest : gobytes) : Prop :=
  Forall header_ok kvs /\ len (header_text kvs) <= len (buf origin) /\ bytes_ok (header_text kvs ++ rest) /\ len (header_text kvs ++ rest) < 2 ^ 40.

Definition trailer_of (t : option Header) (kvs : list (gostring * gostring)) : option Header :=
  match kvs with [] => t | _ => Some (mergeSetHeader t (header_map ∅ kvs)) end.

Lemma header_text_cons kv kvs :
  header_ok kv -> exists c p, header_text (kv :: kvs) = c :: p ++ doubleCRLF /\ c <> return_.
Proof.
  destruct kv as [k v]. intros (Hne & Hb & Ht & _). cbn [fst snd] in *. destruct k as [|c k]; [done|].
  pose proof (key_bytes _ Hb Ht) as [(_ & Hr & _) _]%Forall_cons.
  assert (forall l, exists p, concat (map header_line ((c :: k, v) :: l)) = c :: p ++ singleCRLF) as Hall.
  { intros l. induction l as [|[k2 v2] l IH] using rev_ind.
    - eexists. cbn [map concat]. unfold header_line. cbn [fst snd]. rewrite app_nil_r. cbn [app]. f_equal. rewrite !app_assoc. done.
    - destruct IH as (p & IH). rewrite app_comm_cons, map_app, concat_app, IH. eexists. cbn [map concat app]. f_equal. unfold header_line. cbn [fst snd].
      rewrite app_nil_r, !app_assoc. done. }
  destruct (Hall kvs) as (p & Hp). exists c, p. split; [|done]. unfold header_text. rewrite Hp. cbn [app]. by rewrite <- app_assoc.
Qed.

(** What no read changes. *)
Definition same_setting (b b' : body R) : Prop :=
  closing b' = closing b /\ doEarlyClose b' = doEarlyClose b /\ earlyClose b' = earlyClose b /\ closed b' = closed b.

Lemma wire_of_with (s : source R) r : wire_of (with_wire s r) = r.
Proof. by destruct s. Qed.

Lemma readTrailer_spec fuel b kvs rest :
  wf (wire_of (src b)) -> kin (wire_of (src b)) -> content (wire_of (src b)) = header_text kvs ++ rest -> trailer_ok kvs rest ->
  len (header_text kvs ++ rest) < Z.of_nat fuel ->
  exists b', readTrailer fuel b = Some (b', None) /\ same_setting b b' /\ sawEOF b' = sawEOF b /\ kind (src b') = kind (src b) /\
    Trailer b' = trailer_of (Trailer b) kvs /\ wf (wire_of (src b')) /\ kin (wire_of (src b')) /\ content (wire_of (src b')) = rest.
Proof.
  intros Hw Hk Hc (Hh & Hlen & Hb & H40) Hf. unfold readTrailer. destruct (Peek_spec (wire_of (src b)) 2 Hw ltac:(lia)) as (r1 & -> & Hv). cbn [mbind option_bind].
  pose proof (kin_size _ _ Hk) as Hz. rewrite Z.min_l, (proj2 (Z.ltb_ge (len (buf _)) 2)) by lia. rewrite Hc in Hv |- *.
  assert (forall r C, leaves (wire_of (src b)) r C -> wf r /\ kin r /\ content r = C) as Hend.
  { intros r C Hr. split_and!; [apply Hr|by apply (kin_leaves _ _ _ _ Hr)|apply Hr]. }
  destruct kvs as [|kv kvs].
  - change (take (Z.to_nat 2) (header_text [] ++ rest)) with singleCRLF. rewrite bool_decide_true by done.
    destruct (Discard_spec r1 2 (leaves_wf _ _ _ Hv)) as (r2 & -> & Hv2); [lia|]. cbn [mbind option_bind]. rewrite (leaves_content _ _ _ Hv) in Hv2.
    eexists. split; [done|]. cbn. rewrite !wire_of_with. split_and!; try done; [by destruct (src b)|..]; apply (Hend _ _ (leaves_trans _ _ _ _ _ Hv Hv2)).
  - pose proof Hh as [Hkv _]%Forall_cons. destruct (header_text_cons kv kvs Hkv) as (c & p & Et & Hcr). rewrite Et in Hc, Hb, Hlen, Hf, Hv, H40 |- *.
    cbn [app] in *. change (Z.to_nat 2) with 2%nat. set (buf2 := take 2 _).
    assert (exists x, buf2 = [c; x]) as (x & E2) by (unfold buf2; destruct p; by eexists). rewrite E2.
    rewrite (bool_decide_false ([c; x] = singleCRLF)) by (by intros [= ? _]). change (len [c; x] <? 2) with false. cbv iota.
    assert (2 <= len (c :: (p ++ doubleCRLF) ++ rest)) as H2 by (rewrite len_cons, !len_app; change (len doubleCRLF) with 4; pose proof (len_nonneg p); pose proof (len_nonneg rest); lia).
    rewrite (proj2 (Z.ltb_ge _ 2)) by lia. rewrite bool_decide_true by done. cbn [negb].
    assert (len (c :: p) + 4 <= len (buf r1)) as Hfit.
    { rewrite (leaves_size _ _ _ Hv). destruct Hk as (_ & -> & _). rewrite len_cons, len_app in Hlen. change (len doubleCRLF) with 4 in Hlen. rewrite len_cons. lia. }
    destruct (see_CRLF_spec (S (length (Bufio.buf r1))) r1 4 (c :: p) rest (leaves_wf _ _ _ Hv)) as (r2 & -> & Hv2).
    { rewrite (leaves_content _ _ _ Hv). cbn [app]. by rewrite <- app_assoc. }
    { rewrite len_cons. pose proof (len_nonneg p). lia. }
    { done. }
    { unfold len in *. lia. }
    cbn [mbind option_bind negb]. rewrite (leaves_content _ _ _ Hv) in Hv2. pose proof (leaves_trans _ _ _ _ _ Hv Hv2) as Hv3. pose proof (leaves_content _ _ _ Hv2) as Hc2.
    unfold ReadMIMEHeader.
    assert (header_text (kv :: kvs) ++ rest = c :: (p ++ doubleCRLF) ++ rest) as Et2 by (by rewrite Et).
    destruct (readMIMEHeader_spec fuel (S (length (kv :: kvs))) r2 maxInt64 maxInt64 (header_map ∅ (kv :: kvs)) None rest (leaves_wf _ _ _ Hv2)) as (r3 & -> & Hv4); rewrite ?Hc2; try done.
    { unfold room, maxInt64. lia. }
    { rewrite <- Et2. by apply header_text_starts. }
    { rewrite <- Et2. by apply parsed_text. }
    cbn [mbind option_bind]. eexists. split; [done|]. cbn. rewrite !wire_of_with. split_and!; try done; [by destruct (src b)|..]; apply (Hend _ _ (leaves_trans _ _ _ _ _ Hv3 Hv4)).
Qed.

(** ** A body with [data] to read, then the trailer [kvs], then [rest] *)

Record reading (b : body R) (data : gobytes) (kvs : list (gostring * gostring)) (rest : gobytes) : Prop := {
  reading_src : at_source (src b) data (if hdr b then header_text kvs ++ rest else rest);
  reading_hdr : hdr b = kind (src b);
  reading_trailer : if hdr b then trailer_ok kvs rest else kvs = [];
  reading_open : sawEOF b = false /\ closed b = false;
}.

Record finished (b b' : body R) (kvs : list (gostring * gostring)) (rest : gobytes) : Prop := {
  finished_eof : sawEOF b' = true;
  finished_wf : wf (wire_of (src b'));
  finished_kin : kin (wire_of (src b'));
  finished_rest : content (wire_of (src b')) = rest;
  finished_trailer : Trailer b' = trailer_of (Trailer b) kvs;
}.

(** Rounds that a loop over reads takes. *)
Definition rounds_left (b : body R) (data : gobytes) : Z := 101 * len data + Z.of_nat (wire_patience (src b)).

Lemma at_source_wf s data rest : at_source s data rest -> wf (wire_of s).
Proof. destruct s; [by intros [? _]..|done]. Qed.

Lemma readLocked_spec fuel b n data kvs rest :
  reading b data kvs rest -> 0 < n -> 101 * len (content (wire_of (src b))) + 200 < Z.of_nat fuel ->
  exists b' d e data', body_Read fuel b n = Some (b', (d, e)) /\ data = d ++ data' /\ len d <= n /\ same_setting b b' /\
    len (content (wire_of (src b'))) <= len (content (wire_of (src b))) /\
    ((e = None /\ reading b' data' kvs rest /\ Trailer b' = Trailer b /\ rounds_left b' data' < rounds_left b data) \/
     (e = Some EOF /\ data' = [] /\ finished b b' kvs rest)).
Proof.
  intros [Hs Hh Ht [He Hcl]] Hn Hf. unfold body_Read, readLocked. rewrite Hcl, He.
  destruct (src_Read_spec fuel (src b) n data _ Hs Hn Hf) as (s' & d & e & data' & -> & -> & Hl & Hk & Hw' & Hkin & Hlc & Ho). cbn [mbind option_bind].
  destruct Ho as [(-> & Hat & Hp)|(-> & Hc & Hlast)].
  - (* more to come *)
    rewrite bool_decide_false by done. cbn [mbind option_bind].
    assert (limit_left s' <> Some 0) as Hlim. { destruct s'; try done. cbn. intros [= ->]. destruct Hat as (_ & _ & ? & _). lia. }
    cbn [src with_src]. rewrite (bool_decide_false (limit_left s' = Some 0)), andb_false_r by done.
    exists (with_src b s'), d, None, data'. split_and!; try done. left. split_and!; try done.
    + split; cbn; try done. by rewrite Hh, Hk.
    + unfold rounds_left, wire_patience. cbn [src with_src]. rewrite len_app. pose proof (patience_bound _ (wf_steady _ Hw')) as Hb. unfold maxConsecutiveEmptyReads in Hb.
      destruct d as [|x d]; [specialize (Hp eq_refl); unfold wire_patience in Hp; change (@len Z []) with 0; lia|]. rewrite len_cons. pose proof (len_nonneg d). lia.
  - (* the last of it *)
    destruct Hlast as [(-> & Hd & Hlim)|(-> & Hlim)].
    + rewrite bool_decide_false by done. cbn [mbind option_bind src with_src]. rewrite Hlim, !(bool_decide_true) by done.
      assert (0 <? len d = true) as -> by (destruct d as [|x d]; [done|]; rewrite len_cons; pose proof (len_nonneg d); by apply Z.ltb_lt; lia). cbn [andb].
      assert (hdr b = false) as Hf0 by (rewrite Hh, <- Hk; by destruct s'). rewrite Hf0 in *. subst kvs.
      eexists _, d, (Some EOF), []. split; [done|]. split_and!; try done. by right.
    + rewrite bool_decide_true by done. cbn [hdr with_sawEOF with_src]. destruct (hdr b) eqn:Eh.
      * destruct (readTrailer_spec fuel (with_sawEOF (with_src b s') true) kvs rest) as (b' & -> & Hset & Hsaw & _ & Htr & Hwb & Hkb & Hcb); cbn [src with_sawEOF with_src]; try done.
        { rewrite <- Hc. pose proof (len_nonneg (content (wire_of s'))). lia. }
        cbn [mbind option_bind]. rewrite (bool_decide_false (Some EOF = None)) by done. cbn [andb]. eexists _, d, (Some EOF), []. split; [done|]. split_and!; try done.
        { cbn. rewrite Hcb. rewrite Hc, len_app in Hlc. pose proof (len_nonneg (header_text kvs)). lia. }
        right. by split_and!.
      * cbn [mbind option_bind src with_sawEOF with_src]. subst kvs.
        assert (match limit_left s' with Some N => if 0 <? N then Some ErrUnexpectedEOF else Some EOF | None => Some EOF end = Some EOF) as -> by (destruct Hlim as [-> | ->]; done).
        rewrite (bool_decide_false (Some EOF = None)) by done. cbn [andb]. eexists _, d, (Some EOF), []. split; [done|]. split_and!; try done. by right.
Qed.

(** ** Reading and closing to the end *)

Lemma finished_from b b1 b' kvs rest : Trailer b1 = Trailer b -> finished b1 b' kvs rest -> finished b b' kvs rest.
Proof. intros Ht [H1 H2 H3 H4 H5]. split; try done. by rewrite <- Ht. Qed.

Lemma same_setting_trans b b1 b2 : same_setting b b1 -> same_setting b1 b2 -> same_setting b b2.
Proof. unfold same_setting. intros (-> & -> & -> & ->). done. Qed.

Lemma drain_spec rounds fuel sizes b data kvs rest acc :
  reading b data kvs rest -> (forall i, 0 < sizes i) -> rounds_left b data < Z.of_nat rounds -> 101 * len (content (wire_of (src b))) + 200 < Z.of_nat fuel ->
  exists b', drain rounds fuel sizes b acc = Some (b', (acc ++ data, Some EOF)) /\ same_setting b b' /\ finished b b' kvs rest.
Proof.
  intros Hr Hs. revert b data acc Hr. induction rounds as [|rounds IH]; intros b data acc Hr Hl Hf; [unfold rounds_left in Hl; pose proof (len_nonneg data); lia|].
  cbn [drain]. destruct (readLocked_spec fuel b (sizes rounds) data kvs rest Hr (Hs rounds) Hf) as (b1 & d & e & data' & -> & -> & _ & Hset & Hlc & Hres). cbn [mbind option_bind].
  destruct Hres as [(-> & Hr' & Ht & Hm)|(-> & -> & Hfin)].
  - rewrite bool_decide_true by done. destruct (IH b1 data' (acc ++ d) Hr') as (b' & -> & Hset' & Hfin); [lia|lia|]. exists b'. rewrite <- app_assoc.
    split_and!; [done|exact (same_setting_trans _ _ _ Hset Hset')|exact (finished_from _ _ _ _ _ Ht Hfin)].
  - rewrite bool_decide_false by done. exists b1. by rewrite app_nil_r.
Qed.

Lemma discard_spec rounds fuel b data kvs rest limit n :
  reading b data kvs rest -> match limit with Some N => len data < N | None => True end ->
  rounds_left b data < Z.of_nat rounds -> 101 * len (content (wire_of (src b))) + 200 < Z.of_nat fuel ->
  exists b', discard_ReadFrom rounds fuel b limit n = Some (b', (n + len data, None)) /\ same_setting b b' /\ finished b b' kvs rest.
Proof.
  revert b data limit n. induction rounds as [|rounds IH]; intros b data limit n Hr Hlim Hl Hf; [unfold rounds_left in Hl; pose proof (len_nonneg data); lia|].
  cbn [discard_ReadFrom]. pose proof (len_nonneg data).
  assert (exists m, 0 < m /\ match limit with
    | Some N => if N <=? 0 then Some (b, ([], Some EOF)) else body_Read fuel b (if N <? 8192 then N else 8192)
    | None => body_Read fuel b 8192 end = body_Read fuel b m) as (m & Hm & ->).
  { destruct limit as [N|]; [|by exists 8192]. rewrite (proj2 (Z.leb_gt _ _)) by lia. eexists. split; [|done]. destruct (Z.ltb_spec N 8192); lia. }
  destruct (readLocked_spec fuel b m data kvs rest Hr Hm Hf) as (b1 & d & e & data' & -> & -> & _ & Hset & Hlc & Hres). cbn [mbind option_bind].
  rewrite len_app in *. destruct Hres as [(-> & Hr' & Ht & Hd)|(-> & -> & Hfin)].
  - destruct (IH b1 data' ((fun N => N - len d) <$> limit) (n + len d) Hr') as (b' & -> & Hset' & Hfin); [destruct limit; cbn; lia|lia|lia|]. exists b'.
    split_and!; [by rewrite Z.add_assoc|exact (same_setting_trans _ _ _ Hset Hset')|exact (finished_from _ _ _ _ _ Ht Hfin)].
  - rewrite bool_decide_true by done. exists b1. change (@len Z []) with 0. by rewrite Z.add_0_r.
Qed.

Lemma body_Close_spec rounds fuel b data kvs rest :
  reading b data kvs rest -> (hdr b = false -> closing b = false) -> (doEarlyClose b = true -> len data < maxPostHandlerReadBytes) ->
  rounds_left b data < Z.of_nat rounds -> 101 * len (content (wire_of (src b))) + 200 < Z.of_nat fuel ->
  exists b', body_Close rounds fuel b = Some (b', None) /\ closed b' = true /\ earlyClose b' = earlyClose b /\ finished b b' kvs rest.
Proof.
  intros Hr Hc Hd Hl Hf. pose proof Hr as [Hs _ _ [He Hcl]]. unfold body_Close. rewrite Hcl, He.
  assert (negb (hdr b) && closing b = false) as -> by (destruct (hdr b); [done|]; by rewrite Hc).
  assert (forall b1, same_setting b b1 -> finished b b1 kvs rest ->
    exists b', Some (with_closed b1 true, @None error) = Some (b', None) /\ closed b' = true /\ earlyClose b' = earlyClose b /\ finished b b' kvs rest) as Hend.
  { intros b1 (_ & _ & Hec & _) [H1 H2 H3 H4 H5]. eexists. split_and!; [done|done|done|by split]. }
  destruct (doEarlyClose b).
  - specialize (Hd eq_refl). assert (match limit_left (src b) with Some N => maxPostHandlerReadBytes <? N | None => false end = false) as ->.
    { destruct (src b) as [cr|r N|r]; try done. cbn in *. destruct Hs as (_ & _ & _ & <- & _). apply Z.ltb_ge. lia. }
    unfold CopyN_discard. destruct (discard_spec rounds fuel b data kvs rest (Some maxPostHandlerReadBytes) 0 Hr Hd Hl Hf) as (b1 & -> & Hset & Hfin). cbn [mbind option_bind].
    rewrite Z.add_0_l, (proj2 (Z.eqb_neq _ _)), (proj2 (Z.ltb_lt _ _)), bool_decide_true by (done || lia). cbn [andb mbind option_bind].
    rewrite (proj2 (Z.eqb_neq _ _)), bool_decide_true by (done || lia). by apply Hend.
  - destruct (discard_spec rounds fuel b data kvs rest None 0 Hr I Hl Hf) as (b1 & -> & Hset & Hfin). cbn [mbind option_bind]. by apply Hend.
Qed.

End Spec.

(** ** The body of a request *)

(** The bytes to come are a body of [data] in the form that the request announced, with
    the trailer [kvs], and then [rest]. *)
Definition body_on_wire {R : Type} `{ByteStream R} (b : BufReader R) (announced : body_source) (data : gobytes) (kvs : list (gostring * gostring)) (rest : gobytes) : Prop :=
  match announced with
  | NoBody => data = [] /\ kvs = [] /\ content b = rest
  | ChunkedBody => exists ds, data = concat ds /\ Forall (fun d => len d < 2 ^ 60) ds /\ trailer_ok b kvs rest /\
      content b = written (fst (write_all (mk_sink [] None) ds)) ++ header_text kvs ++ rest
  | LimitedBody n => 0 < n /\ len data = n /\ kvs = [] /\ content b = data ++ rest /\ (rest = [] -> ending (rd b) = EOF)
  | UntilClose => False
  end.

Lemma open_body_reading {R} `{ByteStream R} r (b : BufReader R) data kvs rest :
  wf b -> 32 <= len (buf b) -> body_on_wire b (req_Body r) data kvs rest ->
  match open_body r b with
  | None => data = [] /\ kvs = [] /\ content b = rest
  | Some bd => reading b bd data kvs rest /\ wire_of (src bd) = b /\ Trailer bd = req_Trailer r /\ closing bd = req_Close r /\ doEarlyClose bd = true /\ earlyClose bd = false
  end.
Proof.
  intros Hw Hz Hon. assert (kin b b) as Hk by done. unfold open_body. destruct (req_Body r) as [| |n|]; try done; cbn [src wire_of Trailer closing doEarlyClose earlyClose].
  - destruct Hon as (ds & -> & Hds & Ht & Hc). split_and!; try done. split; cbn; try done. unfold at_body, NewChunkedReader. cbn.
    rewrite write_all_text in Hc. cbn in Hc. rewrite Hc, <- !app_assoc. split_and!; try done. by apply wire_text.
  - destruct Hon as (Hn & Hl & -> & Hc & He). by split_and!.
Qed.

Lemma rounds_bound {R} `{ByteStream R} (bd : body R) data : wf (wire_of (src bd)) -> rounds_left bd data < 101 * len data + 100.
Proof. intros Hw. unfold rounds_left, wire_patience. pose proof (patience_bound _ (wf_steady _ Hw)) as Hp. unfold maxConsecutiveEmptyReads in Hp. lia. Qed.

Lemma finished_leaves {R} `{ByteStream R} (b : BufReader R) bd b' kvs rest : finished b bd b' kvs rest -> leaves b (wire_of (src b')) rest.
Proof. intros [_ Hw (_ & Hs & He) Hc _]. by split. Qed.

(** The bytes of a body of the pieces [ds] with the trailer [kvs], and when they can be
    told from the bytes [rest] behind them. *)
Definition body_text (announced : body_source) (ds : list gobytes) (kvs : list (gostring * gostring)) : gobytes :=
  match announced with
  | ChunkedBody => written (fst (write_all (mk_sink [] None) ds)) ++ header_text kvs
  | _ => concat ds
  end.

Definition body_fits {R : Type} `{ByteStream R} (b : BufReader R) (announced : body_source) (ds : list gobytes) (kvs : list (gostring * gostring)) (rest : gobytes) : Prop :=
  match announced with
  | NoBody => concat ds = [] /\ kvs = []
  | ChunkedBody => Forall (fun d => len d < 2 ^ 60) ds /\ Forall header_ok kvs /\ len (header_text kvs) <= len (buf b)
  | LimitedBody n => 0 < n /\ len (concat ds) = n /\ kvs = [] /\ (rest = [] -> ending (rd b) = EOF)
  | UntilClose => False
  end.

Lemma body_fits_on_wire {R} `{ByteStream R} (b b1 : BufReader R) announced ds kvs rest :
  leaves b b1 (body_text announced ds kvs ++ rest) -> bytes_ok (content b1) -> len (content b1) < 2 ^ 40 ->
  body_fits b announced ds kvs rest -> body_on_wire b1 announced (concat ds) kvs rest.
Proof.
  intros Hv Hb Hl Hfit. pose proof (leaves_content _ _ _ Hv) as Hc. destruct announced as [| |n|]; cbn in Hfit, Hc |- *; try done.
  - destruct Hfit as [E ->]. by rewrite E in *.
  - destruct Hfit as (Hd & Hk & Hlen). exists ds. rewrite <- app_assoc in Hc. rewrite Hc in Hb, Hl. split_and!; try done.
    apply Forall_app in Hb as [_ Hb]. rewrite len_app in Hl. pose proof (len_nonneg (written (fst (write_all (mk_sink [] None) ds)))).
    split_and!; try done; [by rewrite (leaves_size _ _ _ Hv)|lia].
  - destruct Hfit as (Hn & Hd & -> & He). split_and!; try done. by rewrite (leaves_ending _ _ _ Hv).
Qed.

(** Closing a body that nothing was read of; [skipped] when the connection is to be closed
    anyway and there is no trailer to look for. *)
Lemma close_unread {R} `{ByteStream R} (rounds fuel : nat) r (b1 : BufReader R) data kvs rest :
  wf b1 -> 32 <= len (buf b1) -> body_on_wire b1 (req_Body r) data kvs rest -> len data < maxPostHandlerReadBytes ->
  101 * len data + 100 <= Z.of_nat rounds -> 101 * len (content b1) + 200 < Z.of_nat fuel ->
  match open_body r b1 with
  | None => req_Body r = NoBody /\ content b1 = rest
  | Some bd => exists b2, body_Close rounds fuel bd = Some (b2, None) /\ closed b2 = true /\ earlyClose b2 = false /\
      (req_Close r = false \/ req_Body r = ChunkedBody -> leaves b1 (wire_of (src b2)) rest /\ Trailer b2 = trailer_of (req_Trailer r) kvs)
  end.
Proof.
  intros Hw Hz Hon Hmax Hr Hf. pose proof (open_body_reading r b1 data kvs rest Hw Hz Hon) as Ho.
  destruct (open_body r b1) as [bd|] eqn:Eo.
  2:{ destruct Ho as (_ & _ & Hrest). split; [|done]. unfold open_body in Eo. by destruct (req_Body r). }
  destruct Ho as (Hread & Hwire & Ht & Hclo & Hdo & Hec).
  assert (hdr bd = bool_decide (req_Body r = ChunkedBody)) as Hhdr.
  { unfold open_body in Eo. destruct (req_Body r); [done|injection Eo as <-..]; [by rewrite bool_decide_true|by rewrite bool_decide_false..]. }
  destruct (decide (req_Close r = true /\ req_Body r <> ChunkedBody)) as [[Ec Eb]|Hno].
  - pose proof (reading_open _ _ _ _ _ Hread) as [Hs Hcl]. unfold body_Close. rewrite Hcl, Hs, Hclo, Hhdr, bool_decide_false, Ec by done. cbn [negb andb mbind option_bind].
    eexists. split_and!; [done|done|exact Hec|]. intros [?|?]; congruence.
  - destruct (body_Close_spec b1 rounds fuel bd data kvs rest Hread) as (b2 & -> & Hcl & Hec2 & Hfin).
    + rewrite Hhdr, Hclo, bool_decide_eq_false. intros Hb. destruct (req_Close r); [|done]. by destruct Hno.
    + done.
    + pose proof (rounds_bound bd data ltac:(by rewrite Hwire)). lia.
    + by rewrite Hwire.
    + exists b2. split_and!; [done|done|by rewrite Hec2|]. intros _. split; [exact (finished_leaves _ _ _ _ _ Hfin)|].
      by rewrite (finished_trailer _ _ _ _ _ Hfin), Ht.
Qed.

(** ** Claims *)

(** [C14] A handler reads exactly the body that was sent.  However the connection is cut
    into reads and whatever sizes the handler asks for, it gets the bytes of a body of the
    announced length, or the data of the chunks, and then an end of file; the trailer is
    merged into the request; the bytes behind the body are left for the next request. *)
Theorem body_delivers {R : Type} `{ByteStream R} (r : full_request) (b : BufReader R) (data : gobytes)
    (kvs : list (gostring * gostring)) (rest : gobytes) (sizes : nat -> Z) (rounds fuel : nat) :
  wf b -> 32 <= len (buf b) -> body_on_wire b (req_Body r) data kvs rest -> (forall i, 0 < sizes i) ->
  101 * len data + 100 <= Z.of_nat rounds -> 101 * len (content b) + 200 < Z.of_nat fuel ->
  match open_body r b with
  | None => data = [] /\ content b = rest
  | Some bd => exists b', drain rounds fuel sizes bd [] = Some (b', (data, Some EOF)) /\ leaves b (wire_of (src b')) rest /\
      Trailer b' = trailer_of (req_Trailer r) kvs
  end.
Proof.
  intros Hw Hz Hon Hs Hr Hf. pose proof (open_body_reading r b data kvs rest Hw Hz Hon) as Ho. destruct (open_body r b) as [bd|]; [|tauto].
  destruct Ho as (Hread & Hwire & Ht & _). pose proof (rounds_bound bd data ltac:(by rewrite Hwire)).
  destruct (drain_spec b rounds fuel sizes bd data kvs rest [] Hread Hs) as (b' & -> & _ & Hfin); [lia|by rewrite Hwire|].
  exists b'. split_and!; [done|exact (finished_leaves _ _ _ _ _ Hfin)|]. by rewrite (finished_trailer _ _ _ _ _ Hfin), Ht.
Qed.

Definition chunked_request : full_request :=
  mk_full_request (mk_Request (str "POST") (str "h") new_URL (str "/") [] 1 1) (str "HTTP/1.1") ∅ (-1) true false None ChunkedBody.

Definition demo_trailer : list (gostring * gostring) := [(str "X-Sum", str "7")].

Lemma body_delivers_witness :
  let b := NewReader (mk_stream [crlf ["3"; "abc"; "2"; "de"; "0"; "X-Sum: 7"; ""]%string; str "GET"] EOF true) in
  match open_body chunked_request b with
  | None => False
  | Some bd => exists b', drain 700 6000 (fun _ => 2) bd [] = Some (b', (str "abcde", Some EOF)) /\ leaves b (wire_of (src b')) (str "GET") /\
      Trailer b' = Some (header_map ∅ demo_trailer)
  end.
Proof.
  intros b. apply (body_delivers chunked_request b (str "abcde") demo_trailer (str "GET") (fun _ => 2) 700 6000).
  - apply NewReaderSize_spec. vm_compute. split; [repeat split; lia|done].
  - by vm_compute.
  - exists [str "abc"; str "de"]. split_and!; [by vm_compute|repeat constructor| |by vm_compute].
    split_and!; [repeat constructor; done|by vm_compute|by apply (bool_decide_unpack _); vm_compute|by vm_compute].
  - intros _. lia.
  - by vm_compute.
  - by vm_compute.
Defined.

(** [C13] The next request is found where it is.  A request of HTTP/1.1 with a body below
    256 kB, delimited by a length or sent in chunks as the chunked writer writes them, with
    a trailer that fits the buffer, is read, and its body is closed although the handler has
    read nothing of it: Close ends without an error and without giving up early.  Unless the
    Connection header asks for a close and the body has a length, what is left on the
    connection is exactly what the client sent behind the body and its trailer, and the
    trailer is merged into the announced one. *)
Theorem connection_is_reused {R : Type} `{ByteStream R} (fuel rounds : nat) (remoteAddr lastMethod : gostring) (b : BufReader R)
    (method uri : gostring) (url : URL) (kvs : list (gostring * gostring)) (host : gostring) (announced : body_source)
    (ds : list gobytes) (trailer : list (gostring * gostring)) (rest : gobytes) :
  wf b -> 32 <= len (buf b) -> content b = request_text method uri (str "HTTP/1.1") kvs ++ body_text announced ds trailer ++ rest -> bytes_ok (content b) ->
  101 * len (content b) + 200 < Z.of_nat fuel -> 101 * len (concat ds) + 100 <= Z.of_nat rounds -> len (content b) < 2 ^ 40 ->
  request_head method uri url kvs host -> announces kvs announced -> body_fits b announced ds trailer rest -> len (concat ds) < maxPostHandlerReadBytes ->
  exists b1 r, conn_readRequest fuel false remoteAddr lastMethod b = Some (b1, Ok r) /\
    req_Body r = announced /\ req_Close r = HeaderValuesContainsToken (given kvs (str "Connection")) (str "close") /\
    match open_body r b1 with
    | None => announced = NoBody /\ leaves b b1 rest
    | Some bd => exists b2, body_Close rounds fuel bd = Some (b2, None) /\ closed b2 = true /\ earlyClose b2 = false /\
        (req_Close r = false \/ announced = ChunkedBody ->
          leaves b (wire_of (src b2)) rest /\ Trailer b2 = trailer_of (req_Trailer r) trailer)
    end.
Proof.
  intros Hw Hz Hc Hb Hf Hr Hl Hp Ha Hfit Hmax. pose proof (len_nonneg (content b)) as Hl0.
  destruct (conn_readRequest_head fuel remoteAddr lastMethod b method uri (str "HTTP/1.1") 1 url kvs host announced (body_text announced ds trailer ++ rest))
    as (b1 & r & HR & Hv & _ & _ & _ & HB & HC & _ & _); try done; [lia|by apply (bool_decide_unpack _); vm_compute|].
  exists b1, r. split_and!; [done..|]. pose proof (leaves_content _ _ _ Hv) as Hc1. pose proof (leaves_wf _ _ _ Hv) as Hw1.
  pose proof (len_nonneg (request_text method uri (str "HTTP/1.1") kvs)) as Hpos.
  assert (len (content b1) <= len (content b)) as Hlc by (rewrite Hc1, Hc, (len_app (request_text _ _ _ _)); lia).
  assert (body_on_wire b1 (req_Body r) (concat ds) trailer rest) as Hon.
  { rewrite HB. apply (body_fits_on_wire b); [done| |lia|done]. rewrite Hc in Hb. apply Forall_app in Hb as [_ Hb]. by rewrite Hc1. }
  pose proof (close_unread rounds fuel r b1 (concat ds) trailer rest Hw1 ltac:(by rewrite (leaves_size _ _ _ Hv)) Hon Hmax Hr ltac:(lia)) as Hcu.
  destruct (open_body r b1) as [bd|].
  - destruct Hcu as (b2 & HCl & Hcl & Hec & Hrest). exists b2. split_and!; [done..|]. rewrite HB in Hrest. intros Hx. destruct (Hrest Hx) as [Hv2 Ht].
    split; [exact (leaves_trans _ _ _ _ _ Hv Hv2)|done].
  - destruct Hcu as [Hnb Hrest]. rewrite HB in Hnb. split; [done|]. rewrite Hc1 in Hrest. by rewrite <- Hrest.
Qed.

Definition chunked_headers : list (gostring * gostring) :=
  [(str "Host", str "api.test:80"); (str "transfer-encoding", str "Chunked"); (str "Trailer", str "x-sum"); (str "Connection", str "close")].

Lemma chunked_head : request_head (str "POST") (str "/search?q=go") demo_url chunked_headers (str "api.test:80").
Proof.
  split.
  - by vm_compute.
  - split_and!; [by apply (bool_decide_unpack _); vm_compute..|by vm_compute].
  - repeat constructor; done.
  - split; by vm_compute.
Qed.

Lemma connection_is_reused_witness :
  let b := NewReader (mk_stream [request_text (str "POST") (str "/search?q=go") (str "HTTP/1.1") chunked_headers;
    crlf ["3"; "abc"; "2"; "de"; "0"; "X-Sum: 7"]%string; crlf [""]%string ++ str "GET"] EOF true) in
  exists b1 r, conn_readRequest 40000 false (str "1.2.3.4:5") [] b = Some (b1, Ok r) /\ req_Body r = ChunkedBody /\
    match open_body r b1 with
    | None => False
    | Some bd => exists b2, body_Close 700 40000 bd = Some (b2, None) /\ leaves b (wire_of (src b2)) (str "GET")
    end.
Proof.
  intros b. destruct (connection_is_reused 40000 700 (str "1.2.3.4:5") [] b (str "POST") (str "/search?q=go") demo_url chunked_headers (str "api.test:80")
    ChunkedBody [str "abc"; str "de"] demo_trailer (str "GET")) as (b1 & r & HR & HB & _ & HM).
  - apply NewReaderSize_spec. vm_compute. split; [repeat split; lia|done].
  - by vm_compute.
  - by vm_compute.
  - by apply (bool_decide_unpack _); vm_compute.
  - by vm_compute.
  - by vm_compute.
  - by vm_compute.
  - exact chunked_head.
  - split; [by exists (str "Chunked")|]. by apply (bool_decide_unpack _); vm_compute.
  - split_and!; [repeat constructor|repeat constructor; done|by vm_compute].
  - by vm_compute.
  - exists b1, r. split_and!; [exact HR|exact HB|]. destruct (open_body r b1) as [bd|]; [|by destruct HM].
    destruct HM as (b2 & HC & _ & _ & Hx). exists b2. split; [exact HC|]. exact (proj1 (Hx (or_intror eq_refl))).
Defined.
