(* ===== verification/Flags.v ===== *)
(** * flag: command-line flags

    [tools/go-patched/src/flag/flag.go]: the values of type bool, int, int64, uint,
    uint64 and string, [FlagSet] with its definitions and its parser; and [ParseBool]
    and [FormatBool] of [tools/go-patched/src/strconv/atob.go].

    A flag shares its variable with the program that defined it: [*p] is a cell of a
    store, a [Value] is a pointer to a cell with the type that says how to set it.  The
    functions of the package run in the monad [M], over the store and the flag set;
    they return, exit the process or panic.  The usage text that goes to the error
    output is not part of the state. *)

From stdpp Require Import sorting.
From S2P Require Import Prelude Strconv Strings Url.

Local Set Warnings "-clear-no-such-hyp".

(** ** strconv *)

Definition ParseBool (s : gostring) : bool * option NumError :=
  if bool_decide (s ∈ [str "1"; str "t"; str "T"; str "true"; str "TRUE"; str "True"]) then (true, None)
  else if bool_decide (s ∈ [str "0"; str "f"; str "F"; str "false"; str "FALSE"; str "False"]) then (false, None)
  else (false, fail (str "ParseBool") s ErrSyntax).

Definition FormatBool (b : bool) : gostring := if b then str "true" else str "false".

(** ** Errors *)

(** The errors of [Set]. *)
Inductive set_error : Type := errParse | errRange | errNum (e : NumError).

Definition numError (e : NumError) : set_error :=
  match Reason e with
  | ErrSyntax => errParse
  | ErrRange => errRange
  | _ => errNum e
  end.

(** The errors of the parser: ErrHelp, and those that failf makes, by what goes into
    their text. *)
Inductive flag_error : Type :=
  | ErrHelp
  | BadSyntax (s : gostring)
  | NotDefined (name : gostring)
  | InvalidBool (value name : gostring) (e : set_error)
  | InvalidBoolFlag (name : gostring) (e : set_error)
  | NeedsArgument (name : gostring)
  | InvalidValue (value name : gostring) (e : set_error).

Inductive ErrorHandling : Type := ContinueOnError | ExitOnError | PanicOnError.

(** ** Values *)

Inductive cell : Type :=
  | C_bool (b : bool)
  | C_int (i : Z)
  | C_string (s : gostring).

Inductive kind : Type := K_bool | K_int | K_int64 | K_uint | K_uint64 | K_string.

(** boolValue, intValue, int64Value, uintValue, uint64Value and stringValue. *)
Record Value := mk_Value { vkind : kind; vptr : nat }.

(** The Set methods: what is stored in the variable, also when there is an error, and
    the error. *)
Definition boolValue_Set (s : gostring) : cell * option set_error :=
  let '(v, err) := ParseBool s in (C_bool v, (fun _ => errParse) <$> err).
Definition intValue_Set (s : gostring) : cell * option set_error :=
  let '(v, err) := ParseInt s 0 intSize in (C_int v, numError <$> err).
Definition int64Value_Set (s : gostring) : cell * option set_error :=
  let '(v, err) := ParseInt s 0 64 in (C_int v, numError <$> err).
Definition uintValue_Set (s : gostring) : cell * option set_error :=
  let '(v, err) := ParseUint s 0 intSize in (C_int v, numError <$> err).
Definition uint64Value_Set (s : gostring) : cell * option set_error :=
  let '(v, err) := ParseUint s 0 64 in (C_int v, numError <$> err).
Definition stringValue_Set (s : gostring) : cell * option set_error := (C_string s, None).

Definition decode (k : kind) : gostring -> cell * option set_error :=
  match k with
  | K_bool => boolValue_Set
  | K_int => intValue_Set
  | K_int64 => int64Value_Set
  | K_uint => uintValue_Set
  | K_uint64 => uint64Value_Set
  | K_string => stringValue_Set
  end.

(** The methods Set, String and IsBoolFlag. *)
Definition Value_Set (cells : list cell) (v : Value) (s : gostring) : list cell * option set_error :=
  let '(c, err) := decode (vkind v) s in (<[vptr v := c]> cells, err).

Definition Value_String (cells : list cell) (v : Value) : gostring :=
  match vkind v, cells !! vptr v with
  | K_bool, Some (C_bool b) => FormatBool b
  | K_int, Some (C_int i) => default [] (strconv_Itoa i)
  | K_int64, Some (C_int i) => default [] (FormatInt i 10)
  | K_uint, Some (C_int i) | K_uint64, Some (C_int i) => default [] (FormatUint i 10)
  | K_string, Some (C_string s) => s
  | _, _ => []
  end.

Definition IsBoolFlag (v : Value) : bool := match vkind v with K_bool => true | _ => false end.

(** ** Flag sets *)

Record Flag := mk_Flag { Name : gostring; Usage : gostring; FValue : Value; DefValue : gostring }.

Record FlagSet := mk_FlagSet {
  fs_name : gostring;
  parsed : bool;
  actual : gmap gostring Flag;
  formal : gmap gostring Flag;
  fs_args : list gostring;
  errorHandling : ErrorHandling;
  undef : gmap gostring gostring;
}.

Definition set_parsed (f : FlagSet) (arguments : list gostring) : FlagSet :=
  mk_FlagSet (fs_name f) true (actual f) (formal f) arguments (errorHandling f) (undef f).
Definition set_args (f : FlagSet) (l : list gostring) : FlagSet :=
  mk_FlagSet (fs_name f) (parsed f) (actual f) (formal f) l (errorHandling f) (undef f).
Definition set_actual (f : FlagSet) (m : gmap gostring Flag) : FlagSet :=
  mk_FlagSet (fs_name f) (parsed f) m (formal f) (fs_args f) (errorHandling f) (undef f).
Definition set_formal (f : FlagSet) (m : gmap gostring Flag) : FlagSet :=
  mk_FlagSet (fs_name f) (parsed f) (actual f) m (fs_args f) (errorHandling f) (undef f).
Definition set_undef (f : FlagSet) (m : gmap gostring gostring) : FlagSet :=
  mk_FlagSet (fs_name f) (parsed f) (actual f) (formal f) (fs_args f) (errorHandling f) m.

Definition NewFlagSet (name : gostring) (eh : ErrorHandling) : FlagSet := mk_FlagSet name false ∅ ∅ [] eh ∅.
Definition Init (f : FlagSet) (name : gostring) (eh : ErrorHandling) : FlagSet :=
  mk_FlagSet name (parsed f) (actual f) (formal f) (fs_args f) eh (undef f).

Definition Lookup (f : FlagSet) (name : gostring) : option Flag := formal f !! name.
Definition NFlag (f : FlagSet) : Z := Z.of_nat (size (actual f)).
Definition NArg (f : FlagSet) : Z := len (fs_args f).
Definition Arg (f : FlagSet) (i : Z) : gostring :=
  if (i <? 0) || (len (fs_args f) <=? i) then [] else default [] (index (fs_args f) i).

(** sort.Slice by name; the names of a flag set are distinct. *)
Definition sortFlags (flags : gmap gostring Flag) : list Flag :=
  merge_sort (fun f g => Is_true (string_le (Name f) (Name g))) (map snd (map_to_list flags)).
Definition VisitAll {A} (f : FlagSet) (fn : A -> Flag -> A) (a : A) : A := foldl fn a (sortFlags (formal f)).
Definition Visit {A} (f : FlagSet) (fn : A -> Flag -> A) (a : A) : A := foldl fn a (sortFlags (actual f)).

(** ** The monad *)

Record rt := mk_rt { cells : list cell; fs : FlagSet }.

Inductive outcome (A : Type) : Type :=
  | Ret (a : A)
  | Exit (code : Z)
  | Panicked (why : list (gostring + gostring))
  | PanickedErr (e : flag_error)
  | OutOfFuel.
Arguments Ret {A} a.
Arguments Exit {A} code.
Arguments Panicked {A} why.
Arguments PanickedErr {A} e.
Arguments OutOfFuel {A}.

Definition M (A : Type) : Type := rt -> outcome (A * rt).

#[global] Instance M_ret : MRet M := fun A a st => Ret (a, st).
#[global] Instance M_bind : MBind M := fun A B k m st =>
  match m st with
  | Ret (a, st') => k a st'
  | Exit code => Exit code
  | Panicked why => Panicked why
  | PanickedErr e => PanickedErr e
  | OutOfFuel => OutOfFuel
  end.

Definition modify_fs (g : FlagSet -> FlagSet) : M unit := fun st => Ret (tt, mk_rt (cells st) (g (fs st))).

(** ** Definitions *)

(** Var; [inr] is what %q quotes. *)
Definition Var (value : Value) (name usage : gostring) : M unit := fun st =>
  let f := fs st in
  if HasPrefix name (str "-") then
    Panicked [inl (str "flag "); inr name; inl (str " begins with -")]
  else if Strings.Contains name (str "=") then
    Panicked [inl (str "flag "); inr name; inl (str " contains =")]
  else
  let flag := mk_Flag name usage value (Value_String (cells st) value) in
  if bool_decide (is_Some (formal f !! name)) then
    if bool_decide (fs_name f = []) then Panicked [inl (str "flag redefined: " ++ name)]
    else Panicked [inl (fs_name f ++ str " flag redefined: " ++ name)]
  else
  let pos := default [] (undef f !! name) in
  if negb (bool_decide (pos = [])) then
    Panicked [inl (str "flag " ++ name ++ str " set at " ++ pos ++ str " before being defined")]
  else Ret (tt, mk_rt (cells st) (set_formal f (<[name := flag]> (formal f)))).

(** [new(T)] with the value that newBoolValue and the like put into it, then Var. *)
Definition new_cell (c : cell) : M nat := fun st => Ret (length (cells st), mk_rt (cells st ++ [c]) (fs st)).
Definition define (k : kind) (c : cell) (name usage : gostring) : M nat :=
  p ← new_cell c; Var (mk_Value k p) name usage ;; mret p.

Definition Bool (name : gostring) (value : bool) (usage : gostring) : M nat := define K_bool (C_bool value) name usage.
Definition Int (name : gostring) (value : Z) (usage : gostring) : M nat := define K_int (C_int value) name usage.
Definition Int64 (name : gostring) (value : Z) (usage : gostring) : M nat := define K_int64 (C_int value) name usage.
Definition Uint (name : gostring) (value : Z) (usage : gostring) : M nat := define K_uint (C_int value) name usage.
Definition Uint64 (name : gostring) (value : Z) (usage : gostring) : M nat := define K_uint64 (C_int value) name usage.
Definition String_ (name value usage : gostring) : M nat := define K_string (C_string value) name usage.

(** set; [pos] is the place of the call, of the form file:line. *)
Definition set (pos name value : gostring) : M (option (gostring + set_error)) := fun st =>
  let f := fs st in
  match formal f !! name with
  | None =>
      Ret (Some (inl (str "no such flag -" ++ name)), mk_rt (cells st) (set_undef f (<[name := pos]> (undef f))))
  | Some flag =>
      let '(cells', err) := Value_Set (cells st) (FValue flag) value in
      match err with
      | Some e => Ret (Some (inr e), mk_rt cells' f)
      | None => Ret (None, mk_rt cells' (set_actual f (<[name := flag]> (actual f))))
      end
  end.

(** ** Parsing *)

(** The loop that looks for the first '=' from the second byte on: the name before
    it, and the value after it. *)
Fixpoint find_equals (s : gostring) : option (gostring * gostring) :=
  match s with
  | [] => None
  | c :: s' =>
      if c =? 61 then Some ([], s')
      else '(n, v) ← find_equals s'; Some (c :: n, v)
  end.
Definition split_name (name : gostring) : gostring * option gostring :=
  match name with
  | [] => ([], None)
  | c :: s =>
      match find_equals s with
      | Some (n, v) => (c :: n, Some v)
      | None => (name, None)
      end
  end.

(** The end of parseOne, when Set has succeeded. *)
Definition seen_flag (cells : list cell) (f : FlagSet) (name : gostring) (flag : Flag) : bool * option flag_error * rt :=
  (true, None, mk_rt cells (set_actual f (<[name := flag]> (actual f)))).

(** The part of parseOne after the syntax of the argument: [f] has lost it. *)
Definition parse_flag (cells : list cell) (f : FlagSet) (name : gostring) (value : option gostring)
  : bool * option flag_error * rt :=
  match formal f !! name with
  | None =>
      (false, Some (if bool_decide (name = str "help") || bool_decide (name = str "h") then ErrHelp else NotDefined name),
       mk_rt cells f)
  | Some flag =>
      if IsBoolFlag (FValue flag) then
        match value with
        | Some v =>
            let '(cells', err) := Value_Set cells (FValue flag) v in
            match err with
            | Some e => (false, Some (InvalidBool v name e), mk_rt cells' f)
            | None => seen_flag cells' f name flag
            end
        | None =>
            let '(cells', err) := Value_Set cells (FValue flag) (str "true") in
            match err with
            | Some e => (false, Some (InvalidBoolFlag name e), mk_rt cells' f)
            | None => seen_flag cells' f name flag
            end
        end
      else
        let '(value, f) :=
          match value, fs_args f with
          | None, a :: l => (Some a, set_args f l)
          | _, _ => (value, f)
          end in
        match value with
        | None => (false, Some (NeedsArgument name), mk_rt cells f)
        | Some v =>
            let '(cells', err) := Value_Set cells (FValue flag) v in
            match err with
            | Some e => (false, Some (InvalidValue v name e), mk_rt cells' f)
            | None => seen_flag cells' f name flag
            end
        end
  end.

Definition minus : Z := 45.

Definition parseOne (st : rt) : bool * option flag_error * rt :=
  let f := fs st in
  match fs_args f with
  | [] => (false, None, st)
  | s :: rest =>
      if (len s <? 2) || negb (at_ s 0 =? minus) then (false, None, st) else
      if (at_ s 1 =? minus) && (len s =? 2) then (false, None, mk_rt (cells st) (set_args f rest)) else
      let numMinuses := if at_ s 1 =? minus then 2%nat else 1%nat in
      let name := drop numMinuses s in
      if (len name =? 0) || (at_ name 0 =? minus) || (at_ name 0 =? 61) then (false, Some (BadSyntax s), st) else
      let '(name, value) := split_name name in
      parse_flag (cells st) (set_args f rest) name value
  end.

(** Every round that sees a flag takes at least one argument. *)
Fixpoint Parse_loop (fuel : nat) : M (option flag_error) := fun st =>
  match fuel with
  | O => OutOfFuel
  | S fuel =>
      let '(seen, err, st') := parseOne st in
      if seen : bool then Parse_loop fuel st' else
      match err with
      | None => Ret (None, st')
      | Some e =>
          match errorHandling (fs st') with
          | ContinueOnError => Ret (Some e, st')
          | ExitOnError => match e with ErrHelp => Exit 0 | _ => Exit 2 end
          | PanicOnError => PanickedErr e
          end
      end
  end.

Definition Parse (arguments : list gostring) : M (option flag_error) :=
  modify_fs (fun f => set_parsed f arguments) ;; Parse_loop (S (length arguments)).

(** CommandLine, with the name of the program. *)
Definition CommandLine (arg0 : gostring) : FlagSet := NewFlagSet arg0 ExitOnError.

Example flags_examples :
  let st := mk_rt [] (CommandLine (str "prog")) in
  let m := p ← Int (str "n") 3 []; q ← String_ (str "s") (str "x") []; r ← Bool (str "v") false [];
           err ← Parse [str "-n=0x10"; str "--v"; str "-s"; str "-n"; str "rest"; str "-n=1"]; mret (p, q, r, err) in
  match m st with
  | Ret (p, q, r, err, st') =>
      (p, q, r) = (0, 1, 2)%nat /\ err = None /\
      cells st' = [C_int 16; C_string (str "-n"); C_bool true] /\ fs_args (fs st') = [str "rest"; str "-n=1"] /\
      map Name (sortFlags (formal (fs st'))) = [str "n"; str "s"; str "v"] /\ NFlag (fs st') = 3
  | _ => False
  end.
Proof. vm_compute. repeat split. Qed.

(** ** The grammar of a command line *)

Definition dashed (a body : gostring) : Prop := a = minus :: body \/ a = minus :: minus :: body.

(** A name that can stand on a command line. *)
Definition good_name (name : gostring) : Prop :=
  (exists c s, name = c :: s /\ c <> minus) /\ 61 ∉ name.

(** The arguments where the flags end, and what is left of them. *)
Inductive stops : list gostring -> list gostring -> Prop :=
  | stops_nil : stops [] []
  | stops_dashes rest : stops ([minus; minus] :: rest) rest
  | stops_plain a rest : a = [minus] \/ hd 0 a <> minus -> stops (a :: rest) (a :: rest).

Section Grammar.
Context (flags : gmap gostring Flag).

(** One flag at the head of the arguments. *)
Inductive one_flag : list gostring -> gostring -> gostring -> list gostring -> Prop :=
  | flag_equals a name value rest :
      dashed a (name ++ 61 :: value) -> is_Some (flags !! name) -> good_name name ->
      one_flag (a :: rest) name value rest
  | flag_next a name value rest flag :
      dashed a name -> flags !! name = Some flag -> IsBoolFlag (FValue flag) = false -> good_name name ->
      one_flag (a :: value :: rest) name value rest
  | flag_alone a name rest flag :
      dashed a name -> flags !! name = Some flag -> IsBoolFlag (FValue flag) = true -> good_name name ->
      one_flag (a :: rest) name (str "true") rest.

(** -h or -help, with a value or without, when there is no such flag. *)
Definition asks_help (args : list gostring) : Prop :=
  exists a rest name value, args = a :: rest /\ (name = str "h" \/ name = str "help") /\ flags !! name = None /\
    dashed a (name ++ value) /\ (value = [] \/ hd 0 value = 61).

Definition accepted (nv : gostring * gostring) : Prop :=
  match flags !! nv.1 with
  | Some flag => (decode (vkind (FValue flag)) nv.2).2 = None
  | None => False
  end.

(** A command line: flags that are accepted, then arguments. *)
Inductive cmdline : list gostring -> list (gostring * gostring) -> list gostring -> Prop :=
  | cmd_stop args rest : stops args rest -> cmdline args [] rest
  | cmd_flag args name value args' ss rest :
      one_flag args name value args' -> accepted (name, value) -> cmdline args' ss rest ->
      cmdline args ((name, value) :: ss) rest.
End Grammar.

(** The effect of a setting, of a list of settings. *)
Definition apply_setting (st : rt) (nv : gostring * gostring) : rt :=
  match formal (fs st) !! nv.1 with
  | Some flag =>
      mk_rt (<[vptr (FValue flag) := (decode (vkind (FValue flag)) nv.2).1]> (cells st))
        (set_actual (fs st) (<[nv.1 := flag]> (actual (fs st))))
  | None => st
  end.
Definition apply_settings (st : rt) (ss : list (gostring * gostring)) : rt := foldl apply_setting st ss.
Definition with_args (st : rt) (l : list gostring) : rt := mk_rt (cells st) (set_args (fs st) l).

(** ** One step of the parser *)

Lemma find_equals_Some s n v : find_equals s = Some (n, v) <-> s = n ++ 61 :: v /\ 61 ∉ n.
Proof.
  revert n v. induction s as [|c s IH]; intros n v; cbn [find_equals].
  { split; [done|]. intros [H _]. by destruct n. }
  destruct (Z.eqb_spec c 61) as [->|Hc].
  - split; [intros [= <- <-]; set_solver|]. intros [H Hn]. destruct n as [|x n]; simplify_eq/=; [done|set_solver].
  - split.
    + intros H. destruct (find_equals s) as [[n' v']|]; [|done]. simpl in H.
      injection H as <- <-. destruct (proj1 (IH n' v') eq_refl) as [-> ?]. set_solver.
    + intros [H Hn]. destruct n as [|x n]; simplify_eq/=.
      rewrite (proj2 (IH n v)) by set_solver. done.
Qed.

Lemma find_equals_None s : find_equals s = None <-> 61 ∉ s.
Proof.
  induction s as [|c s IH]; cbn [find_equals]; [set_solver|].
  destruct (Z.eqb_spec c 61) as [->|Hc]; [set_solver|].
  destruct (find_equals s) as [[n v]|]; simpl; set_solver.
Qed.

Lemma split_name_equals name value : good_name name -> split_name (name ++ 61 :: value) = (name, Some value).
Proof.
  intros [(c & s & -> & _) Hn]. cbn. rewrite (proj2 (find_equals_Some _ s value)) by set_solver. done.
Qed.
Lemma split_name_plain name : good_name name -> split_name name = (name, None).
Proof. intros [(c & s & -> & _) Hn]. cbn. rewrite (proj2 (find_equals_None s)) by set_solver. done. Qed.

Lemma split_name_inv body name value :
  hd 0 body <> 61 -> split_name body = (name, value) ->
  match value with Some v => body = name ++ 61 :: v | None => body = name end /\ 61 ∉ name.
Proof.
  destruct body as [|c s]; cbn [split_name hd].
  { intros _ [= <- <-]. set_solver. }
  intros Hc. destruct (find_equals s) as [[n v]|] eqn:E; intros [= <- <-].
  - apply find_equals_Some in E as [-> ?]. set_solver.
  - apply find_equals_None in E. set_solver.
Qed.

(** The body of an argument that parses as a flag. *)
Definition good_body (body : gostring) : Prop := exists c s, body = c :: s /\ c <> minus /\ c <> 61.

Lemma good_body_name name v : good_name name -> good_body (name ++ v).
Proof. intros [(c & s & -> & Hc) Hn]. exists c, (s ++ v). set_solver. Qed.

Lemma parseOne_body st a body rest name value :
  fs_args (fs st) = a :: rest -> dashed a body -> good_body body -> split_name body = (name, value) ->
  parseOne st = parse_flag (cells st) (set_args (fs st) rest) name value.
Proof.
  intros Ha Hd (c & s & -> & Hm & He) Hs. unfold parseOne. rewrite Ha. pose proof (len_nonneg s).
  apply Z.eqb_neq in Hm, He.
  assert (len (c :: s) =? 0 = false) as H0 by (apply Z.eqb_neq; rewrite len_cons; lia).
  destruct Hd as [-> | ->].
  - rewrite (proj2 (Z.ltb_ge _ _)) by (rewrite !len_cons; lia).
    change (at_ (minus :: c :: s) 0) with minus. change (at_ (minus :: c :: s) 1) with c.
    rewrite Hm, Z.eqb_refl. cbn [negb orb andb drop]. change (at_ (c :: s) 0) with c. by rewrite H0, Hm, He, Hs.
  - rewrite (proj2 (Z.ltb_ge _ _)) by (rewrite !len_cons; lia).
    rewrite (proj2 (Z.eqb_neq (len (minus :: minus :: c :: s)) 2)) by (rewrite !len_cons; lia).
    change (at_ (minus :: minus :: c :: s) 0) with minus. change (at_ (minus :: minus :: c :: s) 1) with minus.
    rewrite Z.eqb_refl. cbn [negb orb andb drop]. change (at_ (c :: s) 0) with c. by rewrite H0, Hm, He, Hs.
Qed.

Lemma parseOne_stops st rest : stops (fs_args (fs st)) rest -> parseOne st = (false, None, with_args st rest).
Proof.
  destruct st as [cs [n p a f l eh u]]. unfold parseOne, with_args. cbn [fs fs_args set_args cells].
  intros Hs. destruct Hs as [|rest|x rest Hx]; [done..|].
  destruct Hx as [->|Hx]; [done|]. destruct x as [|c s]; [done|]. cbn [hd] in Hx.
  change (at_ (c :: s) 0) with c. rewrite (proj2 (Z.eqb_neq c minus)) by done. by rewrite orb_true_r.
Qed.

Lemma Value_Set_decode cs v s : Value_Set cs v s = (<[vptr v := (decode (vkind v) s).1]> cs, (decode (vkind v) s).2).
Proof. unfold Value_Set. by destruct (decode (vkind v) s). Qed.

Lemma parseOne_flag st name value rest :
  one_flag (formal (fs st)) (fs_args (fs st)) name value rest -> accepted (formal (fs st)) (name, value) ->
  parseOne st = (true, None, with_args (apply_setting st (name, value)) rest).
Proof.
  destruct st as [cs [n p ac f l eh u]]. unfold accepted, with_args, apply_setting. cbn [fs formal fs_args fst snd].
  intros Hf Ha. destruct Hf as [a name value rest Hd [flag Hl] Hg|a name value rest flag Hd Hl Hb Hg|a name rest flag Hd Hl Hb Hg];
    rewrite Hl in *; erewrite parseOne_body;
    try first [reflexivity | exact Hd | by apply split_name_equals | by apply split_name_plain | by apply good_body_name
      | by (rewrite <- (app_nil_r name); apply good_body_name)];
    unfold parse_flag; cbn [set_args formal fs_args fs cells]; rewrite Hl, ?Hb; rewrite !Value_Set_decode, Ha; try done.
  by destruct (IsBoolFlag _).
Qed.

(** An argument with a name and perhaps a value. *)
Definition named (a name : gostring) (value : option gostring) : Prop :=
  good_name name /\ dashed a (name ++ match value with Some v => 61 :: v | None => [] end).

(** What parseOne makes of the first argument. *)
Inductive first_arg (st : rt) (r : bool * option flag_error * rt) : Prop :=
  | first_stops rest : stops (fs_args (fs st)) rest -> r.1 = (false, None) -> first_arg st r
  | first_bad s : r.1 = (false, Some (BadSyntax s)) -> first_arg st r
  | first_named a rest name value :
      fs_args (fs st) = a :: rest -> named a name value ->
      r = parse_flag (cells st) (set_args (fs st) rest) name value -> first_arg st r.

Lemma named_body a body name value :
  dashed a body -> hd 0 body <> minus -> hd 0 body <> 61 -> body <> [] -> split_name body = (name, value) -> named a name value.
Proof.
  intros Hd Hm He Hne Hs. destruct (split_name_inv body name value He Hs) as [Hb Hn].
  assert (good_name name) as Hg.
  { split; [|done]. destruct body as [|c s]; [done|]. cbn [hd] in *. cbn [split_name] in Hs.
    destruct (find_equals s) as [[n v]|]; injection Hs as <- <-; eauto. }
  split; [done|]. destruct value as [v|]; [by rewrite <- Hb|]. by rewrite app_nil_r, <- Hb.
Qed.

Lemma parseOne_first st : first_arg st (parseOne st).
Proof.
  unfold parseOne. destruct (fs_args (fs st)) as [|s rest] eqn:Ha.
  { eapply first_stops; [rewrite Ha; constructor|done]. }
  destruct ((len s <? 2) || negb (at_ s 0 =? minus)) eqn:E1.
  { eapply first_stops; [rewrite Ha; apply stops_plain|done]. destruct s as [|c [|c' s]]; [by right| |].
    - destruct (decide (c = minus)) as [->|]; [by left|by right].
    - right. cbn [hd]. apply orb_true_iff in E1 as [E1|E1]; [|by zbool].
      apply Z.ltb_lt in E1. rewrite !len_cons in E1. pose proof (len_nonneg s). lia. }
  zbool. assert (exists c t, s = minus :: c :: t) as (c & t & ->).
  { destruct s as [|x [|c t]]; rewrite ?len_nil, ?len_cons, ?len_nil in H; [lia..|]. cbn in H0. subst. eauto. }
  change (at_ (minus :: c :: t) 1) with c. destruct ((c =? minus) && (len (minus :: c :: t) =? 2)) eqn:E2.
  { zbool. subst c. rewrite !len_cons in *. eapply first_stops; [rewrite Ha|done].
    destruct t; [constructor|]. rewrite len_cons in *. pose proof (len_nonneg t). lia. }
  set (body := drop (if c =? minus then 2%nat else 1%nat) (minus :: c :: t)).
  destruct ((len body =? 0) || (at_ body 0 =? minus) || (at_ body 0 =? 61)) eqn:E3; [by eapply first_bad|].
  apply orb_false_iff in E3 as [[E3 E4]%orb_false_iff E5]. zbool.
  destruct (split_name body) as [name value] eqn:Es. eapply first_named; [done| |reflexivity].
  assert (body <> []) by (by intros ->). assert (at_ body 0 = hd 0 body) as Hat by by destruct body.
  rewrite Hat in *. apply (named_body _ body); [|done..].
  unfold body. destruct (Z.eqb_spec c minus) as [->|]; [by right|by left].
Qed.

(** The reading of a named argument. *)
Lemma parse_flag_inv st a rest name value seen err st' :
  fs_args (fs st) = a :: rest -> named a name value ->
  parse_flag (cells st) (set_args (fs st) rest) name value = (seen, err, st') ->
  match seen, err with
  | true, None => exists v l, one_flag (formal (fs st)) (fs_args (fs st)) name v l /\ accepted (formal (fs st)) (name, v)
  | true, Some _ => False
  | false, None => False
  | false, Some ErrHelp => asks_help (formal (fs st)) (fs_args (fs st))
  | false, Some _ => True
  end.
Proof.
  intros -> [Hg Hd]. unfold parse_flag, accepted, seen_flag. cbn [set_args formal fs_args fst snd].
  destruct (formal (fs st) !! name) as [flag|] eqn:Hl.
  - rewrite ?Value_Set_decode. destruct (IsBoolFlag (FValue flag)) eqn:Hb.
    + destruct value as [v|]; rewrite ?Value_Set_decode; case_match eqn:Hacc; intros [= <- <- <-]; try done.
      * exists v, rest. split; [|done]. apply flag_equals; eauto.
      * exists (str "true"), rest. split; [|done]. rewrite app_nil_r in Hd. by eapply flag_alone.
    + destruct value as [v|], rest as [|x rest]; rewrite ?Value_Set_decode;
        try destruct (decode (vkind (FValue flag)) _).2 eqn:Hacc;
        intros [= <- <- <-]; try done.
      * exists v, []. split; [|done]. apply flag_equals; eauto.
      * exists v, (x :: rest). split; [|done]. apply flag_equals; eauto.
      * exists x, rest. split; [|done]. rewrite app_nil_r in Hd. by eapply flag_next.
  - destruct (bool_decide (name = str "help") || bool_decide (name = str "h")) eqn:E; intros [= <- <- <-]; [|done].
    exists a, rest, name, (match value with Some v => 61 :: v | None => [] end). repeat split; try done.
    + apply orb_true_iff in E as [E|E]; apply bool_decide_eq_true in E; auto.
    + destruct value; auto.
Qed.

Lemma parseOne_inv st seen err st' :
  parseOne st = (seen, err, st') ->
  match seen, err with
  | true, None => exists name v l, one_flag (formal (fs st)) (fs_args (fs st)) name v l /\ accepted (formal (fs st)) (name, v)
  | true, Some _ => False
  | false, None => exists rest, stops (fs_args (fs st)) rest
  | false, Some ErrHelp => asks_help (formal (fs st)) (fs_args (fs st))
  | false, Some _ => True
  end.
Proof.
  intros Hr. destruct (parseOne_first st) as [rest Hs E|s E|a rest name value Ha Hn E]; rewrite Hr in E.
  - injection E as -> ->. eauto.
  - by injection E as -> ->.
  - pose proof (parse_flag_inv st a rest name value seen err st' Ha Hn (eq_sym E)) as H.
    destruct seen, err as [[]|]; try done. eauto.
Qed.

Lemma help_parsed st : asks_help (formal (fs st)) (fs_args (fs st)) -> (parseOne st).1 = (false, Some ErrHelp).
Proof.
  intros (a & rest & name & value & Ha & Hn & Hl & Hd & Hv).
  assert (good_name name) as Hg by (destruct Hn as [->| ->]; (split; [repeat eexists; done|]);
    apply (bool_decide_eq_true_1 _); vm_compute; reflexivity).
  assert (exists v, value = match v with Some v => 61 :: v | None => [] end) as [v ->].
  { destruct Hv as [->|Hv]; [by exists None|]. destruct value as [|c v]; [by exists None|]. cbn in Hv. subst. by exists (Some v). }
  rewrite (parseOne_body st a _ rest name v Ha Hd).
  - unfold parse_flag. cbn [set_args formal]. rewrite Hl. by destruct Hn as [->| ->].
  - by apply good_body_name.
  - destruct v; [by apply split_name_equals|]. rewrite app_nil_r. by apply split_name_plain.
Qed.

(** ** The parser *)

(** A command line that is refused, with the code of the exit: flags that are
    accepted, then one that asks for help, or that is neither accepted nor an end. *)
Inductive fails (flags : gmap gostring Flag) : list gostring -> Z -> Prop :=
  | fails_help args : asks_help flags args -> fails flags args 0
  | fails_bad args :
      ~ asks_help flags args -> (forall rest, ~ stops args rest) ->
      (forall name value rest, one_flag flags args name value rest -> ~ accepted flags (name, value)) ->
      fails flags args 2
  | fails_later args name value args' code :
      one_flag flags args name value args' -> accepted flags (name, value) -> fails flags args' code ->
      fails flags args code.

Lemma one_flag_shorter flags args name value rest :
  one_flag flags args name value rest -> (length rest < length args)%nat.
Proof. destruct 1; simpl; lia. Qed.

Lemma apply_setting_frame st nv :
  formal (fs (apply_setting st nv)) = formal (fs st) /\
  errorHandling (fs (apply_setting st nv)) = errorHandling (fs st) /\ fs_args (fs (apply_setting st nv)) = fs_args (fs st).
Proof. unfold apply_setting. by destruct (formal (fs st) !! nv.1). Qed.

Lemma apply_setting_with_args st nv l : apply_setting (with_args st l) nv = with_args (apply_setting st nv) l.
Proof. unfold apply_setting, with_args. cbn. by destruct (formal (fs st) !! nv.1). Qed.

Lemma apply_settings_with_args st ss l : apply_settings (with_args st l) ss = with_args (apply_settings st ss) l.
Proof.
  revert st. induction ss as [|nv ss IH]; intros st; [done|]. unfold apply_settings. cbn [foldl].
  rewrite apply_setting_with_args. apply IH.
Qed.

(** The loop after a flag that is accepted. *)
Lemma Parse_loop_flag fuel st name value rest :
  one_flag (formal (fs st)) (fs_args (fs st)) name value rest -> accepted (formal (fs st)) (name, value) ->
  Parse_loop (S fuel) st = Parse_loop fuel (with_args (apply_setting st (name, value)) rest).
Proof. intros H1 H2. cbn [Parse_loop]. by rewrite (parseOne_flag _ _ _ _ H1 H2). Qed.

Lemma Parse_loop_cmdline flags args ss rest :
  cmdline flags args ss rest -> forall fuel st,
  formal (fs st) = flags -> fs_args (fs st) = args -> (length args < fuel)%nat ->
  Parse_loop fuel st = Ret (None, with_args (apply_settings st ss) rest).
Proof.
  induction 1 as [args rest Hs|args name value args' ss rest Hf Ha _ IH]; intros fuel st Hfl Hargs Hlt;
    destruct fuel as [|fuel]; try lia; subst flags args.
  - cbn [Parse_loop]. by rewrite (parseOne_stops st rest).
  - rewrite (Parse_loop_flag _ _ _ _ _ Hf Ha). pose proof (one_flag_shorter _ _ _ _ _ Hf).
    destruct (apply_setting_frame st (name, value)) as (H1 & _ & _).
    rewrite IH; [|done..|lia]. by rewrite apply_settings_with_args.
Qed.

Lemma Parse_loop_fails flags args code :
  fails flags args code -> forall fuel st,
  formal (fs st) = flags -> fs_args (fs st) = args -> (length args < fuel)%nat ->
  errorHandling (fs st) = ExitOnError -> Parse_loop fuel st = Exit code.
Proof.
  assert (forall st seen err st', parseOne st = (seen, err, st') -> errorHandling (fs st') = errorHandling (fs st)) as Heh.
  { intros st seen err st' Hp. unfold parseOne, parse_flag, seen_flag, Value_Set in Hp.
    repeat case_match; simplify_eq/=; done. }
  induction 1 as [args Hh|args Hh Hs Hf|args name value args' code Hf Ha _ IH]; intros fuel st Hfl Hargs Hlt He;
    destruct fuel as [|fuel]; try lia; subst flags args.
  - cbn [Parse_loop]. pose proof (help_parsed st Hh) as Hp. destruct (parseOne st) as [[seen err] st'] eqn:E.
    cbn [fst] in Hp. injection Hp as -> ->. by rewrite (Heh _ _ _ _ E), He.
  - cbn [Parse_loop]. destruct (parseOne st) as [[seen err] st'] eqn:E.
    pose proof (parseOne_inv _ _ _ _ E) as Hi. destruct seen, err as [e|]; [done|naive_solver| |naive_solver].
    rewrite (Heh _ _ _ _ E), He. destruct e; done.
  - rewrite (Parse_loop_flag _ _ _ _ _ Hf Ha). pose proof (one_flag_shorter _ _ _ _ _ Hf).
    destruct (apply_setting_frame st (name, value)) as (H1 & H2 & _).
    apply IH; [done..|lia|]. cbn. by rewrite H2.
Qed.

Lemma cmdline_or_fails flags args :
  (exists ss rest, cmdline flags args ss rest) \/ (exists code, fails flags args code).
Proof.
  remember (length args) as n eqn:Hn. revert args Hn. induction n as [n IH] using lt_wf_ind. intros args ->.
  set (st := mk_rt [] (mk_FlagSet [] true ∅ flags args ExitOnError ∅)).
  destruct (parseOne st) as [[seen err] st'] eqn:E. pose proof (parseOne_inv _ _ _ _ E) as Hi.
  cbn [fs formal fs_args st] in Hi. destruct seen, err as [e|]; [done| | |].
  - destruct Hi as (name & v & l & Hf & Ha). pose proof (one_flag_shorter _ _ _ _ _ Hf) as Hlt.
    destruct (IH _ Hlt l eq_refl) as [(ss & rest & Hc)|(code & Hc)].
    + left. eexists _, rest. by eapply cmd_flag.
    + right. exists code. by eapply fails_later.
  - right. destruct e; [exists 0; by apply fails_help|exists 2; apply fails_bad..];
      try (intros Hh; pose proof (help_parsed st Hh) as Hp; by rewrite E in Hp);
      try (intros rest Hs; pose proof (parseOne_stops st rest Hs) as Hp; by rewrite E in Hp);
      (intros nm v rest Hf Ha; pose proof (parseOne_flag st nm v rest Hf Ha) as Hp; by rewrite E in Hp).
  - left. destruct Hi as [rest Hs]. exists [], rest. by constructor.
Qed.

(** ** Types

    The cell of a flag always holds a value of the type of the flag, in the range of
    its width. *)

Definition cell_typed (k : kind) (c : cell) : Prop :=
  match k, c with
  | K_bool, C_bool _ | K_string, C_string _ => True
  | (K_int | K_int64), C_int i => is_s64 i
  | (K_uint | K_uint64), C_int i => is_u64 i
  | _, _ => False
  end.

Lemma ParseUint_loop_range base cutoff maxVal b0 s n us :
  0 <= maxVal < 18446744073709551616 -> is_u64 n ->
  match ParseUint_loop s base cutoff maxVal b0 n us with inl (v, _) => is_u64 v | inr (v, _) => is_u64 v end.
Proof.
  intros Hm. revert n us. induction s as [|c s IH]; intros n us Hn; cbn [ParseUint_loop]; [done|].
  destruct (_ && _); [by apply IH|]. destruct (digit_of c) as [d|]; [|lia]. destruct (base <=? d); [lia|].
  destruct (cutoff <=? n); [lia|]. cbv zeta. destruct (_ || _); [lia|]. apply IH. widths. zlia.
Qed.

Lemma ParseUint_range s base : is_u64 (ParseUint s base 64).1.
Proof.
  unfold ParseUint. cbv zeta. destruct (bool_decide (s = [])); [cbn; lia|].
  destruct (number_base s base) as [[b t]|]; [|cbn; lia].
  change (64 =? 0) with false. change ((64 <? 0) || (64 <? 64)) with false. cbv iota.
  pose proof (ParseUint_loop_range b (maxUint64 / b + 1) (u64 (u64 (Z.shiftl 1 64) - 1)) (base =? 0) t 0 false ltac:(widths; zlia) ltac:(lia)) as H.
  destruct (ParseUint_loop _ _ _ _ _ _ _) as [[v us]|[v why]]; [destruct (us && _)|]; cbn; lia.
Qed.

Lemma ParseInt_range s base : is_s64 (ParseInt s base 64).1.
Proof.
  assert (forall neg un s0, is_s64 (ParseInt_sign neg un 64 s0).1) as Hs.
  { intros neg un s0. unfold ParseInt_sign. cbv zeta. split_ifs; cbn [fst]; widths; zlia. }
  unfold ParseInt. destruct s as [|c s]; [cbn; lia|]. cbv zeta.
  destruct (ParseUint _ base 64) as [un [e|]]; [destruct (negb _)|]; [cbn; lia|apply Hs..].
Qed.

Lemma decode_typed k s : cell_typed k (decode k s).1.
Proof.
  pose proof (ParseInt_range s 0). pose proof (ParseUint_range s 0).
  destruct k; cbn [cell_typed decode]; unfold boolValue_Set, intValue_Set, int64Value_Set, uintValue_Set, uint64Value_Set, intSize.
  - by destruct (ParseBool s).
  - by destruct (ParseInt s 0 64).
  - by destruct (ParseInt s 0 64).
  - by destruct (ParseUint s 0 64).
  - by destruct (ParseUint s 0 64).
  - done.
Qed.

Record flag_wf (cs : list cell) (name : gostring) (flag : Flag) : Prop := {
  wf_name : Name flag = name;
  wf_minus : HasPrefix name (str "-") = false;
  wf_equals : Strings.Contains name (str "=") = false;
  wf_cell : exists c, cs !! vptr (FValue flag) = Some c /\ cell_typed (vkind (FValue flag)) c;
}.

Record rt_wf (st : rt) : Prop := {
  wf_flags : forall name flag, formal (fs st) !! name = Some flag -> flag_wf (cells st) name flag;
  wf_owned : forall name1 flag1 name2 flag2, formal (fs st) !! name1 = Some flag1 -> formal (fs st) !! name2 = Some flag2 ->
    vptr (FValue flag1) = vptr (FValue flag2) -> name1 = name2;
  wf_actual : actual (fs st) ⊆ formal (fs st);
}.

(** Storing what Set stores. *)
Lemma store_wf st name flag s :
  rt_wf st -> formal (fs st) !! name = Some flag ->
  rt_wf (mk_rt (<[vptr (FValue flag) := (decode (vkind (FValue flag)) s).1]> (cells st)) (fs st)).
Proof.
  intros [Hf Ho Ha] Hl. constructor; [|done..]. cbn [cells fs]. intros name' flag' Hl'.
  destruct (Hf _ _ Hl') as [Hn Hm He (c & Hc & Ht)]. constructor; [done..|].
  destruct (decide (vptr (FValue flag') = vptr (FValue flag))) as [E|E].
  - assert (name' = name) as -> by eauto. assert (flag' = flag) as -> by congruence.
    eexists. rewrite list_lookup_insert_eq by (by eapply lookup_lt_Some). split; [done|apply decode_typed].
  - exists c. by rewrite list_lookup_insert_ne by done.
Qed.

Lemma actual_wf cs f name flag :
  rt_wf (mk_rt cs f) -> formal f !! name = Some flag -> rt_wf (mk_rt cs (set_actual f (<[name := flag]> (actual f)))).
Proof. intros [Hf Ho Ha] Hl. constructor; [done..|]. cbn in *. by apply insert_subseteq_l. Qed.

Lemma args_wf cs f l : rt_wf (mk_rt cs f) -> rt_wf (mk_rt cs (set_args f l)).
Proof. intros [Hf Ho Ha]. by constructor. Qed.

Lemma setting_wf cs f name flag s :
  rt_wf (mk_rt cs f) -> formal f !! name = Some flag ->
  rt_wf (mk_rt (Value_Set cs (FValue flag) s).1 f) /\
  rt_wf (mk_rt (Value_Set cs (FValue flag) s).1 (set_actual f (<[name := flag]> (actual f)))).
Proof.
  intros Hw Hl. rewrite Value_Set_decode. cbn [fst].
  pose proof (store_wf (mk_rt cs f) name flag s Hw Hl) as H. split; [done|]. by apply actual_wf.
Qed.

Lemma parse_flag_wf cs f name value : rt_wf (mk_rt cs f) -> rt_wf (parse_flag cs f name value).2.
Proof.
  intros Hw. unfold parse_flag, seen_flag. destruct (formal f !! name) as [flag|] eqn:Hl; [|done].
  assert (forall f s, rt_wf (mk_rt cs f) -> formal f !! name = Some flag -> forall g,
    rt_wf (let '(cells', err) := Value_Set cs (FValue flag) s in
       match err with
       | Some e => (false, Some (g e), mk_rt cells' f)
       | None => (true, None, mk_rt cells' (set_actual f (<[name := flag]> (actual f))))
       end : bool * option flag_error * rt).2) as Hset.
  { intros f' s Hw' Hl' g. destruct (setting_wf cs f' name flag s Hw' Hl') as [H1 H2].
    destruct (Value_Set _ _ _) as [cells' [e|]]; done. }
  destruct (IsBoolFlag (FValue flag)); [by destruct value; apply Hset|].
  destruct value as [v|], (fs_args f) as [|x l]; [by apply Hset..|done|]. apply Hset; [by apply args_wf|done].
Qed.

Lemma parseOne_wf st : rt_wf st -> rt_wf (parseOne st).2.
Proof.
  destruct st as [cs f]. intros Hw. unfold parseOne. cbn [fs cells]. destruct (fs_args f) as [|s rest]; [done|].
  destruct (_ || _); [done|]. destruct (_ && _); [by apply args_wf|]. destruct (_ || _); [done|].
  destruct (split_name _) as [name value]. by apply parse_flag_wf, args_wf.
Qed.

Lemma Parse_loop_wf fuel st r : rt_wf st -> Parse_loop fuel st = Ret r -> rt_wf r.2.
Proof.
  revert st. induction fuel as [|fuel IH]; intros st Hw; cbn [Parse_loop]; [done|].
  pose proof (parseOne_wf st Hw) as Hw'. destruct (parseOne st) as [[seen err] st']. cbn [snd] in Hw'.
  destruct seen; [by apply IH|]. destruct err as [e|]; [|by intros [= <-]].
  destruct (errorHandling (fs st')); [by intros [= <-]|by destruct e|done].
Qed.

Lemma define_wf st k c name usage r :
  rt_wf st -> cell_typed k c -> define k c name usage st = Ret r -> rt_wf r.2 /\ r.1 = length (cells st) /\
    cells r.2 = cells st ++ [c] /\ formal (fs st) !! name = None /\
    exists d, formal (fs r.2) = <[name := mk_Flag name usage (mk_Value k (length (cells st))) d]> (formal (fs st)).
Proof.
  intros [Hf Ho Ha] Hc. unfold define, new_cell, Var. unfold mbind, M_bind, mret, M_ret. cbn [fs cells].
  destruct (HasPrefix name (str "-")) eqn:Hm; [done|]. destruct (Strings.Contains name (str "=")) eqn:He; [done|].
  destruct (formal (fs st) !! name) as [flag|] eqn:Hn.
  { rewrite bool_decide_true by eauto. by destruct (bool_decide (fs_name (fs st) = [])). }
  rewrite bool_decide_false by (by intros []). destruct (negb _); [done|]. intros [= <-]. cbn [fst snd cells fs].
  assert (forall n flag, formal (fs st) !! n = Some flag -> (vptr (FValue flag) < length (cells st))%nat) as Hlt.
  { intros n flag Hl. destruct (Hf _ _ Hl) as [_ _ _ (c' & Hc' & _)]. by eapply lookup_lt_Some. }
  split; [|by eauto]. constructor; cbn [fs cells set_formal formal actual].
  - intros n flag. rewrite lookup_insert_Some. intros [[<- <-]|[_ Hl]].
    + constructor; [done..|]. exists c. split; [|done]. cbn. by rewrite list_lookup_middle.
    + destruct (Hf _ _ Hl) as [? ? ? (c' & Hc' & ?)]. constructor; [done..|]. exists c'. split; [|done].
      rewrite lookup_app_l; [done|by eapply Hlt].
  - intros n1 f1 n2 f2. rewrite !lookup_insert_Some.
    intros [[<- <-]|[_ H1]] [[<- <-]|[_ H2]]; cbn; [done| | |by eapply Ho]; intros E; exfalso;
      [apply Hlt in H2|apply Hlt in H1]; lia.
  - etrans; [exact Ha|]. by apply insert_subseteq.
Qed.

Lemma set_wf st pos name value r : rt_wf st -> set pos name value st = Ret r -> rt_wf r.2.
Proof.
  destruct st as [cs f]. intros Hw. unfold set. cbn [fs cells]. destruct (formal f !! name) as [flag|] eqn:Hl.
  - destruct (setting_wf cs f name flag value Hw Hl) as [H1 H2].
    destruct (Value_Set _ _ _) as [cs' [e|]]; by intros [= <-].
  - intros [= <-]. destruct Hw as [Hf Ho Ha]. by constructor.
Qed.

Lemma Parse_loop_fuel fuel st : (length (fs_args (fs st)) < fuel)%nat -> Parse_loop fuel st <> OutOfFuel.
Proof.
  revert st. induction fuel as [|fuel IH]; intros st Hlt; [lia|]. cbn [Parse_loop].
  destruct (parseOne st) as [[seen err] st'] eqn:E. destruct seen.
  - pose proof (parseOne_inv _ _ _ _ E) as Hi. destruct err as [e|]; [done|].
    destruct Hi as (name & v & l & Hf & Ha). pose proof (one_flag_shorter _ _ _ _ _ Hf).
    rewrite (parseOne_flag _ _ _ _ Hf Ha) in E. injection E as <-. apply IH. cbn. lia.
  - destruct err as [e|]; [|done]. destruct (errorHandling (fs st')); [done|by destruct e|done].
Qed.

(** The calls of a program on a flag set. *)
Inductive flag_op : Type :=
  | Define (k : kind) (c : cell) (name usage : gostring)
  | SetFlag (pos name value : gostring)
  | ParseArgs (arguments : list gostring).

Definition run_op (op : flag_op) : M unit :=
  match op with
  | Define k c name usage => define k c name usage ;; mret tt
  | SetFlag pos name value => set pos name value ;; mret tt
  | ParseArgs arguments => Parse arguments ;; mret tt
  end.
Definition run_ops (ops : list flag_op) : M unit := foldr (fun op m => run_op op ;; m) (mret tt) ops.

(** The default of a flag is a value of its type. *)
Definition op_typed (op : flag_op) : Prop := match op with Define k c _ _ => cell_typed k c | _ => True end.

Lemma run_op_wf op st :
  op_typed op -> rt_wf st ->
  match run_op op st with Ret (_, st') => rt_wf st' | OutOfFuel => False | _ => True end.
Proof.
  intros Ht Hw. destruct op as [k c name usage|pos name value|arguments]; unfold run_op, mbind, M_bind.
  - pose proof (define_wf st k c name usage) as H.
    destruct (define k c name usage st) as [[p st']|code|why|e|] eqn:E; cbn; try done.
    + by destruct (H (p, st') Hw Ht eq_refl).
    + unfold define, new_cell, Var, mbind, M_bind, mret, M_ret in E. repeat case_match; simplify_eq/=.
  - pose proof (set_wf st pos name value) as H.
    destruct (set pos name value st) as [[p st']|code|why|e|] eqn:E; cbn; try done.
    + by apply (H (p, st')).
    + unfold set in E. repeat case_match; simplify_eq/=.
  - unfold Parse, modify_fs, mbind, M_bind. set (st0 := mk_rt _ _).
    assert (rt_wf st0) as Hw0 by (destruct Hw as [Hf Ho Ha]; by constructor).
    pose proof (Parse_loop_wf (S (length arguments)) st0) as H.
    pose proof (Parse_loop_fuel (S (length arguments)) st0) as Hfuel.
    destruct (Parse_loop _ st0) as [[p st']|code|why|e|]; try done.
    + by apply (H (p, st')).
    + apply Hfuel; [cbn; lia|done].
Qed.

Lemma run_ops_wf ops st :
  Forall op_typed ops -> rt_wf st ->
  match run_ops ops st with Ret (_, st') => rt_wf st' | OutOfFuel => False | _ => True end.
Proof.
  intros Ht. revert st. induction Ht as [|op ops Hop _ IH]; intros st Hw; [done|].
  pose proof (run_op_wf op st Hop Hw) as H. unfold run_ops, mbind, M_bind in *. cbn [foldr].
  destruct (run_op op st) as [[[] st']|code|why|e|]; try done. by apply IH.
Qed.

Lemma NewFlagSet_wf name eh : rt_wf (mk_rt [] (NewFlagSet name eh)).
Proof. constructor; cbn; [intros ? ?; by rewrite lookup_empty..|done]. Qed.

(** ** Settings and cells *)

(** The last setting of a flag. *)
Definition last_value (name : gostring) (ss : list (gostring * gostring)) : option gostring :=
  last (map snd (filter (fun nv => nv.1 = name) ss)).

Lemma apply_setting_wf st nv : rt_wf st -> rt_wf (apply_setting st nv).
Proof.
  intros Hw. unfold apply_setting. destruct (formal (fs st) !! nv.1) as [flag|] eqn:Hl; [|done].
  destruct st as [cs f]. cbn [fs cells] in *. apply actual_wf; [|done]. by apply (store_wf (mk_rt cs f) nv.1).
Qed.

Lemma apply_settings_frame st ss :
  rt_wf st -> rt_wf (apply_settings st ss) /\ formal (fs (apply_settings st ss)) = formal (fs st) /\
  length (cells (apply_settings st ss)) = length (cells st).
Proof.
  revert st. induction ss as [|nv ss IH]; intros st Hw; [done|]. unfold apply_settings in *. cbn [foldl].
  destruct (IH _ (apply_setting_wf st nv Hw)) as (H1 & H2 & H3). destruct (apply_setting_frame st nv) as (Hf & _).
  split; [done|]. rewrite H2, H3, Hf. split; [done|]. unfold apply_setting.
  destruct (formal (fs st) !! nv.1); [|done]. cbn. by rewrite length_insert.
Qed.

Lemma apply_settings_cell st ss name flag :
  rt_wf st -> formal (fs st) !! name = Some flag ->
  cells (apply_settings st ss) !! vptr (FValue flag) =
  match last_value name ss with
  | Some v => Some (decode (vkind (FValue flag)) v).1
  | None => cells st !! vptr (FValue flag)
  end.
Proof.
  intros Hw Hl. induction ss as [|nv ss IH] using rev_ind; [done|].
  unfold apply_settings, last_value in *. rewrite foldl_app, filter_app, map_app. cbn [foldl].
  set (st1 := foldl apply_setting st ss) in *.
  destruct (apply_settings_frame st ss Hw) as (Hw1 & Hf1 & _). unfold apply_settings in Hf1, Hw1. fold st1 in Hf1, Hw1.
  unfold apply_setting. rewrite Hf1. destruct (decide (nv.1 = name)) as [E|E].
  - rewrite filter_cons_True by done. rewrite filter_nil. cbn [map]. rewrite last_snoc, E, Hl. cbn [cells].
    destruct (wf_cell _ _ _ (wf_flags _ Hw1 name flag ltac:(by rewrite Hf1))) as (c & Hc & _).
    by rewrite list_lookup_insert_eq by (by eapply lookup_lt_Some).
  - rewrite filter_cons_False by done. rewrite filter_nil. cbn [map]. rewrite app_nil_r, <- IH.
    destruct (formal (fs st) !! nv.1) as [flag'|] eqn:Hl'; [|done]. cbn [cells].
    rewrite list_lookup_insert_ne; [done|]. intros Hp. apply E. by eapply (wf_owned _ Hw).
Qed.

(** ** Claims *)

(** [C32] The parser accepts exactly the command lines of its grammar.  A command line is a
    sequence of flags, each -name=value, -name value or, for a boolean flag, -name, with
    one dash or two, then --, an argument that is no flag or nothing.  When every flag
    is defined and every value is one of its type, Parse stores the values in order,
    records the flags as set and keeps what is left; at the first flag that is not so it
    exits with code 2, or with 0 when the flag is -h or -help and no such flag is defined.
    Every argument list falls under one of the two cases. *)
Theorem flag_parse_exact st arguments :
  errorHandling (fs st) = ExitOnError ->
  let flags := formal (fs st) in
  (forall ss rest, cmdline flags arguments ss rest ->
     Parse arguments st =
     Ret (None, with_args (apply_settings (mk_rt (cells st) (set_parsed (fs st) arguments)) ss) rest)) /\
  (forall code, fails flags arguments code -> Parse arguments st = Exit code) /\
  ((exists ss rest, cmdline flags arguments ss rest) \/ exists code, fails flags arguments code).
Proof.
  intros He flags. split; [|split; [|apply cmdline_or_fails]].
  - intros ss rest Hc. by apply (Parse_loop_cmdline flags arguments); [|done..|simpl; lia].
  - intros code Hf. by apply (Parse_loop_fails flags arguments); [|done..|simpl; lia|].
Qed.

Lemma flag_parse_exact_witness :
  match Int (str "n") 3 [] (mk_rt [] (CommandLine (str "prog"))) with
  | Ret (p, st) =>
      match Parse [str "--n=7"; str "x"] st with
      | Ret (err, st') => err = None /\ cells st' = [C_int 7] /\ fs_args (fs st') = [str "x"]
      | _ => False
      end /\ Parse [str "-n"] st = Exit 2 /\ Parse [str "-h"] st = Exit 0
  | _ => False
  end.
Proof.
  set (st := match Int (str "n") 3 [] (mk_rt [] (CommandLine (str "prog"))) with Ret (_, st) => st | _ => mk_rt [] (CommandLine []) end).
  change (Int (str "n") 3 [] (mk_rt [] (CommandLine (str "prog")))) with (Ret (0%nat, st)). cbv beta iota.
  destruct (flag_parse_exact st [str "--n=7"; str "x"] eq_refl) as (H1 & _ & _).
  destruct (flag_parse_exact st [str "-h"] eq_refl) as (_ & H2 & _).
  assert (good_name (str "n")) as Hg by (split; [by exists 110, []|lit]).
  split; [|split].
  - rewrite (H1 [(str "n", str "7")] [str "x"]); [repeat split|].
    eapply (cmd_flag _ _ (str "n") (str "7") [str "x"]); [|reflexivity|constructor; apply stops_plain; by right].
    apply flag_equals; [by right|vm_compute; eauto|exact Hg].
  - reflexivity.
  - apply H2, fails_help. exists (str "-h"), [], (str "h"), []. repeat split; try (by left). 
Defined.

(** [C33] Flags keep their types.  Whatever flags a program defines, with defaults of
    their types, whatever it sets and whatever command lines it parses, as long as it
    runs: the variable of every flag holds a value of the type of the flag in the range
    of its width, no two flags share a variable, the flags recorded as set are among
    the defined ones, and no name begins with a dash or contains an equals sign. *)
Theorem flags_well_typed name eh ops :
  Forall op_typed ops ->
  match run_ops ops (mk_rt [] (NewFlagSet name eh)) with
  | Ret (_, st) => rt_wf st
  | OutOfFuel => False
  | _ => True
  end.
Proof. intros Ht. apply run_ops_wf; [done|apply NewFlagSet_wf]. Qed.

Lemma flags_well_typed_witness :
  match run_ops [Define K_uint (C_int 5) (str "u") []; ParseArgs [str "-u=99999999999999999999"]]
          (mk_rt [] (NewFlagSet [] ContinueOnError)) with
  | Ret (_, st) => cells st = [C_int 18446744073709551615] /\ rt_wf st
  | _ => False
  end.
Proof.
  pose proof (flags_well_typed [] ContinueOnError
    [Define K_uint (C_int 5) (str "u") []; ParseArgs [str "-u=99999999999999999999"]]) as H.
  assert (Forall op_typed [Define K_uint (C_int 5) (str "u") []; ParseArgs [str "-u=99999999999999999999"]]) as Ht
    by (constructor; [split; [intros E|]; done|by repeat constructor]).
  specialize (H Ht).
  set (r := run_ops _ _) in *. destruct r as [[u st]|code|why|e|] eqn:E; vm_compute in E; try discriminate E.
  split; [|exact H]. injection E as <- <-. reflexivity.
Defined.
