(* ===== verification/NetipAddr.v ===== *)
(** * net/netip: addresses as values

    [tools/go-patched/src/net/netip/netip.go], [uint128.go] and [leaf_alts.go]:
    parsing, formatting, classification, ordering and the binary form of
    [netip.Addr].  [net.LookupIP], which guards the proxy's outgoing connections,
    parses literal addresses with [ParseAddr]. *)

From S2P Require Import Prelude ByteOrder HostPort NetIP.
Local Open Scope go_scope.

(** ** uint128 *)
Record uint128 := mk_uint128 { hi : Z; lo : Z }.

#[export] Instance uint128_eq_dec : EqDecision uint128.
Proof. solve_decision. Defined.

Notation max_u64 := 18446744073709551615 (only parsing).

(** A shift of 64 or more gives 0, as in Go. *)
Definition mask6 (n : Z) : uint128 :=
  mk_uint128 (u64 (Z.lnot (max_u64 >> n))) (u64 (max_u64 << (128 - n))).
Definition u128_isZero (u : uint128) : bool := hi u .| lo u =? 0.
Definition u128_and (u m : uint128) : uint128 := mk_uint128 (hi u .& hi m) (lo u .& lo m).
Definition u128_xor (u m : uint128) : uint128 :=
  mk_uint128 (Z.lxor (hi u) (hi m)) (Z.lxor (lo u) (lo m)).
Definition u128_or (u m : uint128) : uint128 := mk_uint128 (hi u .| hi m) (lo u .| lo m).
Definition u128_not (u : uint128) : uint128 :=
  mk_uint128 (u64 (Z.lnot (hi u))) (u64 (Z.lnot (lo u))).

(** bits.Sub64(u.lo, 1, 0) and bits.Add64(u.lo, 1, 0): the borrow and the carry. *)
Definition subOne (u : uint128) : uint128 :=
  let borrow := if lo u <? 1 then 1 else 0 in
  mk_uint128 (u64 (hi u - borrow)) (u64 (lo u - 1)).
Definition addOne (u : uint128) : uint128 :=
  let carry := if max_u64 <? lo u + 1 then 1 else 0 in
  mk_uint128 (u64 (hi u + carry)) (u64 (lo u + 1)).

(** ** Addr

    [z] is a pointer that is one of three sentinels or an interned zone name. *)
Inductive zone : Type := z0 | z4 | z6noz | zone_of (name : gostring).

#[export] Instance zone_eq_dec : EqDecision zone.
Proof. solve_decision. Defined.

Record Addr := mk_Addr { addr : uint128; z : zone }.

#[export] Instance Addr_eq_dec : EqDecision Addr.
Proof. solve_decision. Defined.

Definition zero_Addr : Addr := mk_Addr (mk_uint128 0 0) z0.

Definition beUint64 (b : gobytes) : Z := default 0 (BigEndian.Uint64 b).

Definition AddrFrom4 (a : gobytes) : Addr :=
  mk_Addr (mk_uint128 0
    (281470681743360 .| at_ a 0 << 24 .| at_ a 1 << 16 .| at_ a 2 << 8 .| at_ a 3)) z4.

Definition AddrFrom16 (a : gobytes) : Addr :=
  mk_Addr (mk_uint128 (beUint64 (take 8 a)) (beUint64 (drop 8 a))) z6noz.

Definition IPv6Unspecified : Addr := mk_Addr (mk_uint128 0 0) z6noz.
Definition IPv4Unspecified : Addr := AddrFrom4 [0; 0; 0; 0].

Definition AddrFromSlice (s : gobytes) : option Addr :=
  if len s =? 4 then Some (AddrFrom4 s)
  else if len s =? 16 then Some (AddrFrom16 s)
  else None.

(** Components. *)
Definition v4 (ip : Addr) (i : Z) : Z := u8 (lo (addr ip) >> ((3 - i) * 8)).
Definition half (ip : Addr) (i : Z) : Z := if i =? 0 then hi (addr ip) else lo (addr ip).
Definition v6 (ip : Addr) (i : Z) : Z := u8 (half ip ((i / 8) mod 2) >> ((7 - i mod 8) * 8)).
Definition v6u16 (ip : Addr) (i : Z) : Z := u16 (half ip ((i / 4) mod 2) >> ((3 - i mod 4) * 16)).

Definition Addr_isZero (ip : Addr) : bool := bool_decide (z ip = z0).
Definition IsValid (ip : Addr) : bool := negb (bool_decide (z ip = z0)).

Definition BitLen (ip : Addr) : Z :=
  match z ip with z0 => 0 | z4 => 32 | _ => 128 end.

Definition Zone (ip : Addr) : gostring :=
  match z ip with zone_of name => name | _ => [] end.

Definition Is4 (ip : Addr) : bool := bool_decide (z ip = z4).
Definition Is6 (ip : Addr) : bool :=
  negb (bool_decide (z ip = z0)) && negb (bool_decide (z ip = z4)).
Definition Is4In6 (ip : Addr) : bool :=
  Is6 ip && (hi (addr ip) =? 0) && (lo (addr ip) >> 32 =? 65535).

Definition Unmap (ip : Addr) : Addr := if Is4In6 ip then mk_Addr (addr ip) z4 else ip.

Definition WithZone (ip : Addr) (zn : gostring) : Addr :=
  if negb (Is6 ip) then ip
  else if bool_decide (zn = []) then mk_Addr (addr ip) z6noz
  else mk_Addr (addr ip) (zone_of zn).

Definition withoutZone (ip : Addr) : Addr :=
  if negb (Is6 ip) then ip else mk_Addr (addr ip) z6noz.

Definition hasZone (ip : Addr) : bool :=
  negb (bool_decide (z ip = z0)) && negb (bool_decide (z ip = z4)) &&
  negb (bool_decide (z ip = z6noz)).

(** Go's order on strings: bytewise, a proper prefix first. *)
Fixpoint string_lt (a b : gostring) : bool :=
  match a, b with
  | [], _ :: _ => true
  | x :: a, y :: b => (x <? y) || ((x =? y) && string_lt a b)
  | _, [] => false
  end.

Definition Compare (ip ip2 : Addr) : Z :=
  let '(f1, f2) := (BitLen ip, BitLen ip2) in
  if f1 <? f2 then -1 else if f2 <? f1 then 1 else
  let '(hi1, hi2) := (hi (addr ip), hi (addr ip2)) in
  if hi1 <? hi2 then -1 else if hi2 <? hi1 then 1 else
  let '(lo1, lo2) := (lo (addr ip), lo (addr ip2)) in
  if lo1 <? lo2 then -1 else if lo2 <? lo1 then 1 else
  if Is6 ip then
    let '(za, zb) := (Zone ip, Zone ip2) in
    if string_lt za zb then -1 else if string_lt zb za then 1 else 0
  else 0.

Definition Less (ip ip2 : Addr) : bool := Compare ip ip2 =? -1.

(** ** Classification *)
Module Class.

Definition IsLinkLocalUnicast (ip : Addr) : bool :=
  let ip := if Is4In6 ip then Unmap ip else ip in
  if Is4 ip then (v4 ip 0 =? 169) && (v4 ip 1 =? 254)
  else if Is6 ip then v6u16 ip 0 .& 65472 =? 65152
  else false.

Definition IsLoopback (ip : Addr) : bool :=
  let ip := if Is4In6 ip then Unmap ip else ip in
  if Is4 ip then v4 ip 0 =? 127
  else if Is6 ip then (hi (addr ip) =? 0) && (lo (addr ip) =? 1)
  else false.

Definition IsMulticast (ip : Addr) : bool :=
  let ip := if Is4In6 ip then Unmap ip else ip in
  if Is4 ip then v4 ip 0 .& 240 =? 224
  else if Is6 ip then hi (addr ip) >> (64 - 8) =? 255
  else false.

Definition IsInterfaceLocalMulticast (ip : Addr) : bool :=
  if Is6 ip && negb (Is4In6 ip) then v6u16 ip 0 .& 65295 =? 65281 else false.

Definition IsLinkLocalMulticast (ip : Addr) : bool :=
  let ip := if Is4In6 ip then Unmap ip else ip in
  if Is4 ip then (v4 ip 0 =? 224) && (v4 ip 1 =? 0) && (v4 ip 2 =? 0)
  else if Is6 ip then v6u16 ip 0 .& 65295 =? 65282
  else false.

Definition IsGlobalUnicast (ip : Addr) : bool :=
  if bool_decide (z ip = z0) then false else
  let ip := if Is4In6 ip then Unmap ip else ip in
  if Is4 ip && (bool_decide (ip = IPv4Unspecified) ||
                bool_decide (ip = AddrFrom4 [255; 255; 255; 255])) then false else
  negb (bool_decide (ip = IPv6Unspecified)) && negb (IsLoopback ip) &&
  negb (IsMulticast ip) && negb (IsLinkLocalUnicast ip).

Definition IsPrivate (ip : Addr) : bool :=
  let ip := if Is4In6 ip then Unmap ip else ip in
  if Is4 ip then
    (v4 ip 0 =? 10) || ((v4 ip 0 =? 172) && (v4 ip 1 .& 240 =? 16)) ||
    ((v4 ip 0 =? 192) && (v4 ip 1 =? 168))
  else if Is6 ip then v6 ip 0 .& 254 =? 252
  else false.

Definition IsUnspecified (ip : Addr) : bool :=
  bool_decide (ip = IPv4Unspecified) || bool_decide (ip = IPv6Unspecified).

End Class.

(** ** Bytes *)

Definition bePutUint64_bytes (v : Z) : gobytes := BigEndian.AppendUint64 [] v.
Definition bePutUint32_bytes (v : Z) : gobytes := BigEndian.AppendUint32 [] v.

Definition As16 (ip : Addr) : gobytes :=
  bePutUint64_bytes (hi (addr ip)) ++ bePutUint64_bytes (lo (addr ip)).

(** [None] is the panic on the zero value and on an IPv6 address. *)
Definition As4 (ip : Addr) : option gobytes :=
  if bool_decide (z ip = z4) || Is4In6 ip then Some (bePutUint32_bytes (u32 (lo (addr ip))))
  else None.

Definition AsSlice (ip : Addr) : gobytes :=
  match z ip with
  | z0 => []
  | z4 => bePutUint32_bytes (u32 (lo (addr ip)))
  | _ => As16 ip
  end.

Definition Next (ip : Addr) : Addr :=
  let ip := mk_Addr (addOne (addr ip)) (z ip) in
  if Is4 ip then if u32 (lo (addr ip)) =? 0 then zero_Addr else ip
  else if u128_isZero (addr ip) then zero_Addr else ip.

Definition Prev (ip : Addr) : Addr :=
  if Is4 ip && (u32 (lo (addr ip)) =? 0) then zero_Addr
  else if negb (Is4 ip) && u128_isZero (addr ip) then zero_Addr
  else mk_Addr (subOne (addr ip)) (z ip).

Definition MarshalBinary (ip : Addr) : gobytes :=
  match z ip with
  | z0 => []
  | z4 => bePutUint32_bytes (u32 (lo (addr ip)))
  | _ => bePutUint64_bytes (hi (addr ip)) ++ bePutUint64_bytes (lo (addr ip)) ++ Zone ip
  end.

Definition UnmarshalBinary (b : gobytes) : result Addr :=
  let n := len b in
  if n =? 0 then Ok zero_Addr
  else if n =? 4 then Ok (AddrFrom4 b)
  else if n =? 16 then Ok (AddrFrom16 b)
  else if 16 <? n then Ok (WithZone (AddrFrom16 (take 16 b)) (drop 16 b))
  else Err (OtherError (str "unexpected slice size")).

(** ** Formatting *)

(** [digits[v]] *)
Definition digit (v : Z) : Z := if v <? 10 then 48 + v else 87 + v.

Definition appendDecimal (b : gobytes) (x : Z) : gobytes :=
  let b := if 100 <=? x then b ++ [digit (x / 100)] else b in
  let b := if 10 <=? x then b ++ [digit (x / 10 mod 10)] else b in
  b ++ [digit (x mod 10)].

Definition appendHex (b : gobytes) (x : Z) : gobytes :=
  let b := if 4096 <=? x then b ++ [digit (x >> 12)] else b in
  let b := if 256 <=? x then b ++ [digit ((x >> 8) .& 15)] else b in
  let b := if 16 <=? x then b ++ [digit ((x >> 4) .& 15)] else b in
  b ++ [digit (x .& 15)].

Definition appendHexPad (b : gobytes) (x : Z) : gobytes :=
  b ++ [digit (x >> 12); digit ((x >> 8) .& 15); digit ((x >> 4) .& 15); digit (x .& 15)].

Definition appendTo4 (ip : Addr) (ret : gobytes) : gobytes :=
  let ret := appendDecimal ret (v4 ip 0) in
  let ret := ret ++ str "." in
  let ret := appendDecimal ret (v4 ip 1) in
  let ret := ret ++ str "." in
  let ret := appendDecimal ret (v4 ip 2) in
  let ret := ret ++ str "." in
  appendDecimal ret (v4 ip 3).

Definition string4 (ip : Addr) : gostring := appendTo4 ip [].

(** [for j < 8 && ip.v6u16(j) == 0 { j++ }]; [k] is [8 - j]. *)
Fixpoint zero_run (ip : Addr) (k : nat) (j : Z) : Z :=
  match k with
  | O => j
  | S k => if v6u16 ip j =? 0 then zero_run ip k (j + 1) else j
  end.

(** The loop that finds the longest run of at least two zero fields, from [i] on. *)
Fixpoint longest_run (ip : Addr) (k : nat) (i zeroStart zeroEnd : Z) : Z * Z :=
  match k with
  | O => (zeroStart, zeroEnd)
  | S k' =>
      let j := zero_run ip k i in
      let l := j - i in
      if (2 <=? l) && (zeroEnd - zeroStart <? l) then longest_run ip k' (i + 1) i j
      else longest_run ip k' (i + 1) zeroStart zeroEnd
  end.

(** The printing loop; [k] bounds the number of fields still to print. *)
Fixpoint print_fields (ip : Addr) (k : nat) (i zeroStart zeroEnd : Z) (ret : gobytes) : gobytes :=
  match k with
  | O => ret
  | S k =>
      if 8 <=? i then ret
      else if i =? zeroStart then
        let ret := ret ++ str "::" in
        let i := zeroEnd in
        if 8 <=? i then ret
        else print_fields ip k (i + 1) zeroStart zeroEnd (appendHex ret (v6u16 ip i))
      else
        let ret := if 0 <? i then ret ++ str ":" else ret in
        print_fields ip k (i + 1) zeroStart zeroEnd (appendHex ret (v6u16 ip i))
  end.

Definition appendTo6 (ip : Addr) (ret : gobytes) : gobytes :=
  let '(zeroStart, zeroEnd) := longest_run ip 8 0 255 255 in
  let ret := print_fields ip 8 0 zeroStart zeroEnd ret in
  if negb (bool_decide (z ip = z6noz)) then ret ++ str "%" ++ Zone ip else ret.

Definition string6 (ip : Addr) : gostring := appendTo6 ip [].

Definition Addr_String (ip : Addr) : gostring :=
  match z ip with
  | z0 => str "invalid IP"
  | z4 => string4 ip
  | _ =>
      if Is4In6 ip then
        if negb (bool_decide (Zone ip = []))
        then str "::ffff:" ++ string4 (Unmap ip) ++ str "%" ++ Zone ip
        else str "::ffff:" ++ string4 (Unmap ip)
      else string6 ip
  end.

(** ** Parsing *)

Notation dot := 46 (only parsing).

(** The loop of parseIPv4 at index [i]; [rest] is [s[i:]], [prev] is [s[i-1]]. *)
Fixpoint parseIPv4_loop (s rest : gostring) (i prev : Z) (fields : gobytes) (val pos digLen : Z)
    : result (gobytes * Z * Z) :=
  match rest with
  | [] => Ok (fields, val, pos)
  | c :: rest' =>
      if (48 <=? c) && (c <=? 57) then
        if (digLen =? 1) && (val =? 0)
        then Err (ParseAddrError s (str "IPv4 field has octet with leading zero") []) else
        let val := val * 10 + (c - 48) in
        if 255 <? val then Err (ParseAddrError s (str "IPv4 field has value >255") [])
        else parseIPv4_loop s rest' (i + 1) c fields val pos (digLen + 1)
      else if c =? dot then
        if (i =? 0) || (i =? len s - 1) || (prev =? dot)
        then Err (ParseAddrError s (str "IPv4 field must have at least one digit") rest) else
        if pos =? 3 then Err (ParseAddrError s (str "IPv4 address too long") []) else
        parseIPv4_loop s rest' (i + 1) c (<[Z.to_nat pos := u8 val]> fields) 0 (pos + 1) 0
      else Err (ParseAddrError s (str "unexpected character") rest)
  end.

Definition parseIPv4 (s : gostring) : result Addr :=
  match parseIPv4_loop s s 0 0 [0; 0; 0; 0] 0 0 0 with
  | Err e => Err e
  | Ok (fields, val, pos) =>
      if pos <? 3 then Err (ParseAddrError s (str "IPv4 address too short") [])
      else Ok (AddrFrom4 (<[3%nat := u8 val]> fields))
  end.

Definition hex_value (c : Z) : option Z :=
  if (48 <=? c) && (c <=? 57) then Some (c - 48)
  else if (97 <=? c) && (c <=? 102) then Some (c - 97 + 10)
  else if (65 <=? c) && (c <=? 70) then Some (c - 65 + 10)
  else None.

(** The inner loop of parseIPv6 over the hex digits of a field; [None] is the
    overflow past 16 bits. *)
Fixpoint hex_scan (s : gostring) (off acc : Z) : option (Z * Z) :=
  match s with
  | [] => Some (off, acc)
  | c :: s =>
      match hex_value c with
      | None => Some (off, acc)
      | Some v =>
          let acc := u32 (acc << 4) + v in
          if 65535 <? acc then None else hex_scan s (off + 1) acc
      end
  end.

(** The loop [for i < 16]: every round adds 2 or 4 to [i], so [fuel] 8 is enough.
    The result is [ip], [i], [ellipsis] and the unread part of the string. *)
Fixpoint parseIPv6_loop (fuel : nat) (inp s : gostring) (ip : gobytes) (i ellipsis : Z)
    : result (gobytes * Z * Z * gostring) :=
  match fuel with
  | O => Ok (ip, i, ellipsis, s)
  | S fuel =>
      if 16 <=? i then Ok (ip, i, ellipsis, s) else
      match hex_scan s 0 0 with
      | None => Err (ParseAddrError inp (str "IPv6 field has value >=2^16") s)
      | Some (off, acc) =>
          if off =? 0 then
            Err (ParseAddrError inp
              (str "each colon-separated field must have at least one digit") s)
          else if (off <? len s) && (at_ s (Z.to_nat off) =? dot) then
            if (ellipsis <? 0) && negb (i =? 12) then
              Err (ParseAddrError inp
                (str "embedded IPv4 address must replace the final 2 fields of the address") s)
            else if 16 <? i + 4 then
              Err (ParseAddrError inp
                (str "too many hex fields to fit an embedded IPv4 at the end of the address") s)
            else
              match parseIPv4 s with
              | Err e => Err (ParseAddrNested inp e s)
              | Ok ip4 =>
                  let ip := <[Z.to_nat i := v4 ip4 0]> ip in
                  let ip := <[Z.to_nat (i + 1) := v4 ip4 1]> ip in
                  let ip := <[Z.to_nat (i + 2) := v4 ip4 2]> ip in
                  let ip := <[Z.to_nat (i + 3) := v4 ip4 3]> ip in
                  Ok (ip, i + 4, ellipsis, [])
              end
          else
            let ip := <[Z.to_nat i := u8 (acc >> 8)]> ip in
            let ip := <[Z.to_nat (i + 1) := u8 acc]> ip in
            let i := i + 2 in
            match drop (Z.to_nat off) s with
            | [] => Ok (ip, i, ellipsis, [])
            | c :: s' =>
                if negb (c =? colon) then
                  Err (ParseAddrError inp (str "unexpected character, want colon") (c :: s'))
                else
                  match s' with
                  | [] => Err (ParseAddrError inp
                            (str "colon must be followed by more characters") (c :: s'))
                  | c1 :: s'' =>
                      if c1 =? colon then
                        if 0 <=? ellipsis then
                          Err (ParseAddrError inp (str "multiple :: in address") s')
                        else
                          match s'' with
                          | [] => Ok (ip, i, i, [])
                          | _ => parseIPv6_loop fuel inp s'' ip i i
                          end
                      else parseIPv6_loop fuel inp s' ip i ellipsis
                  end
            end
      end
  end.

(** [for j := i - 1; j >= ellipsis; j-- { ip[j+n] = ip[j] }], [k] rounds. *)
Fixpoint shift_fields (k : nat) (ip : gobytes) (j n : Z) : gobytes :=
  match k with
  | O => ip
  | S k => shift_fields k (<[Z.to_nat (j + n) := at_ ip (Z.to_nat j)]> ip) (j - 1) n
  end.

(** [for j := ellipsis + n - 1; j >= ellipsis; j-- { ip[j] = 0 }], [k] rounds. *)
Fixpoint zero_fields (k : nat) (ip : gobytes) (j : Z) : gobytes :=
  match k with
  | O => ip
  | S k => zero_fields k (<[Z.to_nat j := 0]> ip) (j - 1)
  end.

Definition parseIPv6_addr (inp s zn : gostring) (ellipsis : Z) : result Addr :=
  match parseIPv6_loop 8 inp s (repeat 0 16) 0 ellipsis with
  | Err e => Err e
  | Ok (ip, i, ellipsis, s) =>
      if negb (bool_decide (s = [])) then
        Err (ParseAddrError inp (str "trailing garbage after address") s)
      else if i <? 16 then
        if ellipsis <? 0 then Err (ParseAddrError inp (str "address string too short") []) else
        let n := 16 - i in
        let ip := shift_fields (Z.to_nat (i - ellipsis)) ip (i - 1) n in
        let ip := zero_fields (Z.to_nat n) ip (ellipsis + n - 1) in
        Ok (WithZone (AddrFrom16 ip) zn)
      else if 0 <=? ellipsis then
        Err (ParseAddrError inp (str "the :: must expand to at least one field of zeros") [])
      else Ok (WithZone (AddrFrom16 ip) zn)
  end.

Definition parseIPv6 (inp : gostring) : result Addr :=
  let i := IndexByteString inp percent in
  let '(s, zn) :=
    if negb (i =? -1) then (take (Z.to_nat i) inp, drop (Z.to_nat (i + 1)) inp) else (inp, []) in
  if negb (i =? -1) && bool_decide (zn = []) then
    Err (ParseAddrError inp (str "zone must be a non-empty string") [])
  else
    match s with
    | c0 :: c1 :: s' =>
        if (c0 =? colon) && (c1 =? colon) then
          match s' with
          | [] => Ok (WithZone IPv6Unspecified zn)
          | _ => parseIPv6_addr inp s' zn 0
          end
        else parseIPv6_addr inp s zn (-1)
    | _ => parseIPv6_addr inp s zn (-1)
    end.

(** The loop of ParseAddr over the bytes of [s]. *)
Fixpoint ParseAddr_loop (s rest : gostring) : result Addr :=
  match rest with
  | [] => Err (ParseAddrError s (str "unable to parse IP") [])
  | c :: rest =>
      if c =? dot then parseIPv4 s
      else if c =? colon then parseIPv6 s
      else if c =? percent then Err (ParseAddrError s (str "missing IPv6 address") [])
      else ParseAddr_loop s rest
  end.

Definition ParseAddr (s : gostring) : result Addr := ParseAddr_loop s s.

(** net.parseIP and net.ParseIP *)
Definition ParseIP (s : gostring) : option gobytes :=
  match ParseAddr s with
  | Err _ => None
  | Ok ip => if negb (bool_decide (Zone ip = [])) then None else Some (As16 ip)
  end.

Example parse_examples :
  ParseAddr (str "192.168.0.1") = Ok (AddrFrom4 [192; 168; 0; 1]) /\
  ParseAddr (str "::1") = Ok (AddrFrom16 IPv6loopback) /\
  ParseAddr (str "::ffff:10.0.0.1") = Ok (AddrFrom16 (IPv4 10 0 0 1)) /\
  ParseAddr (str "fe80::1%eth0") =
    Ok (WithZone (AddrFrom16 [254; 128; 0; 0; 0; 0; 0; 0; 0; 0; 0; 0; 0; 0; 0; 1]) (str "eth0")) /\
  Addr_String (AddrFrom16 [32; 1; 13; 184; 0; 0; 0; 0; 0; 0; 0; 1; 0; 0; 0; 104]) = str "2001:db8::1:0:68".
Proof. vm_compute. done. Qed.

(** ** IPv4 *)

Section quads.
Variables a b c d : Z.
Hypotheses (Ha : is_byte a) (Hb : is_byte b) (Hc : is_byte c) (Hd : is_byte d).

Lemma AddrFrom4_lo :
  lo (addr (AddrFrom4 [a; b; c; d])) = 65535 * 2 ^ 32 + (a * 2 ^ 24 + b * 2 ^ 16 + c * 2 ^ 8 + d).
Proof using Ha Hb Hc Hd.
  unfold is_byte in *. unfold AddrFrom4, at_. simpl. rewrite !Z.shiftl_mul_pow2 by lia.
  change (2 ^ 24) with 16777216. change (2 ^ 16) with 65536. change (2 ^ 8) with 256.
  change (2 ^ 32) with 4294967296.
  rewrite (lor_disjoint _ (a * 16777216) 32) by (change (2 ^ 32) with 4294967296; zlia).
  rewrite (lor_disjoint _ (b * 65536) 24) by (change (2 ^ 24) with 16777216; zlia).
  rewrite (lor_disjoint _ (c * 256) 16) by (change (2 ^ 16) with 65536; zlia).
  rewrite (lor_disjoint _ d 8) by (change (2 ^ 8) with 256; zlia). lia.
Qed.

Lemma v4_AddrFrom4 :
  v4 (AddrFrom4 [a; b; c; d]) 0 = a /\ v4 (AddrFrom4 [a; b; c; d]) 1 = b /\
  v4 (AddrFrom4 [a; b; c; d]) 2 = c /\ v4 (AddrFrom4 [a; b; c; d]) 3 = d.
Proof using Ha Hb Hc Hd.
  unfold v4. rewrite AddrFrom4_lo. unfold is_byte in *. rewrite !Z.shiftr_div_pow2 by lia. widths.
  change (2 ^ ((3 - 0) * 8)) with 16777216. change (2 ^ ((3 - 1) * 8)) with 65536.
  change (2 ^ ((3 - 2) * 8)) with 256. change (2 ^ ((3 - 3) * 8)) with 1.
  change (2 ^ 24) with 16777216. split_and!; zlia.
Qed.

(** The numeral of a number below 1000. *)
Definition dec (x : Z) : gostring := appendDecimal [] x.

Lemma appendDecimal_app ret x : appendDecimal ret x = ret ++ dec x.
Proof. unfold dec, appendDecimal. repeat case_match; by rewrite <- ?app_assoc. Qed.

Lemma string4_AddrFrom4 :
  string4 (AddrFrom4 [a; b; c; d]) = dec a ++ dot :: dec b ++ dot :: dec c ++ dot :: dec d.
Proof using Ha Hb Hc Hd.
  unfold string4, appendTo4. destruct v4_AddrFrom4 as (-> & -> & -> & ->).
  rewrite !appendDecimal_app, <- !app_assoc. done.
Qed.
End quads.

Lemma dec_cases x :
  0 <= x < 256 ->
  (x < 10 /\ dec x = [48 + x]) \/
  (10 <= x < 100 /\ dec x = [48 + x / 10; 48 + x mod 10]) \/
  (100 <= x /\ dec x = [48 + x / 100; 48 + x / 10 mod 10; 48 + x mod 10]).
Proof.
  intros Hx. unfold dec, appendDecimal, digit. cbv zeta.
  destruct (Z.leb_spec 100 x), (Z.leb_spec 10 x); try lia;
    [right; right|right; left|left]; (split; [lia|]);
    repeat (rewrite (proj2 (Z.ltb_lt _ 10)) by zlia); simpl; cells_eq.
Qed.

Lemma dec_snoc v e : 1 <= v -> v * 10 + e <= 255 -> 0 <= e <= 9 -> dec (v * 10 + e) = dec v ++ [48 + e].
Proof.
  intros. destruct (dec_cases v ltac:(lia)) as [[? ->]|[[? ->]|[? _]]]; [| |lia];
    destruct (dec_cases (v * 10 + e) ltac:(lia)) as [[? _]|[[? ->]|[? ->]]]; try lia;
    simpl; cells_eq.
Qed.

Lemma dec_digits x : 0 <= x < 256 -> Forall (fun c => 48 <= c <= 57) (dec x).
Proof.
  intros Hx. destruct (dec_cases x Hx) as [[? ->]|[[? ->]|[? ->]]]; repeat constructor; zlia.
Qed.

Lemma dec_nonempty x : dec x <> [].
Proof. unfold dec, appendDecimal. intros E%(f_equal length). rewrite length_app in E. simpl in E. lia. Qed.

(** The fields already read, each with its dot. *)
Definition fields_text (l : list Z) : gostring := l ≫= (fun x => dec x ++ [dot]).

Lemma fields_text_snoc l x : fields_text (l ++ [x]) = fields_text l ++ dec x ++ [dot].
Proof. unfold fields_text. rewrite bind_app. simpl. by rewrite app_nil_r. Qed.

(** What the loop of parseIPv4 knows: the text read so far is the fields read so far
    and a numeral that is the value so far. *)
Record parse4_state (s rest pre : gostring) (got : list Z) (prev : Z) (fields : gobytes)
    (val digLen : Z) : Prop := {
  p4_split : s = pre ++ rest;
  p4_fields : take (length got) fields = got;
  p4_length : length fields = 4%nat;
  p4_count : (length got <= 3)%nat;
  p4_bytes : Forall is_byte got;
  p4_val : 0 <= val <= 255;
  p4_cur : (pre = fields_text got /\ val = 0 /\ digLen = 0 /\ (got = [] \/ prev = dot /\ rest <> [])) \/
    (pre = fields_text got ++ dec val /\ digLen = len (dec val) /\ prev <> dot);
}.

Lemma parse4_digit s rest pre got prev fields val digLen c :
  parse4_state s (c :: rest) pre got prev fields val digLen ->
  48 <= c <= 57 -> ~ (digLen = 1 /\ val = 0) -> val * 10 + (c - 48) <= 255 ->
  parse4_state s rest (pre ++ [c]) got c fields (val * 10 + (c - 48)) (digLen + 1).
Proof.
  intros [] Hc Hz Hv. split; try done.
  - by rewrite <- app_assoc.
  - lia.
  - right. assert (c <> dot) by lia. destruct p4_cur0 as [(-> & -> & -> & _)|(-> & -> & _)].
    + assert (dec (0 * 10 + (c - 48)) = [c]) as ->; [|done].
      destruct (dec_cases (0 * 10 + (c - 48)) ltac:(lia)) as [[? ->]|[[? _]|[? _]]]; [f_equal; lia|lia|lia].
    + assert (1 <= val).
      { destruct (decide (val = 0)) as [->|]; [|lia]. by destruct Hz. }
      rewrite dec_snoc by lia. rewrite <- app_assoc, len_app. replace (48 + (c - 48)) with c by lia. done.
Qed.

Lemma parse4_dot s rest pre got prev fields val digLen :
  parse4_state s (dot :: rest) pre got prev fields val digLen ->
  len pre <> 0 -> len pre <> len s - 1 -> prev <> dot -> len got <> 3 ->
  parse4_state s rest (pre ++ [dot]) (got ++ [val]) dot (<[Z.to_nat (len got) := u8 val]> fields) 0 0.
Proof.
  intros [] Hp Hl Hprev Hg. assert (u8 val = val) as -> by (apply u8_byte; unfold is_byte; lia).
  unfold len in Hg. replace (Z.to_nat (len got)) with (length got) by (unfold len; lia).
  assert (length (take (length got) fields) = length got) as Hlt by (by rewrite p4_fields0).
  rewrite length_take in Hlt.
  split.
  - by rewrite <- app_assoc.
  - rewrite length_app. simpl. rewrite Nat.add_comm. simpl.
    rewrite (take_S_r _ _ val) by (apply list_lookup_insert_eq; lia).
    rewrite take_insert_ge by lia. by rewrite p4_fields0.
  - by rewrite length_insert.
  - rewrite length_app. simpl. lia.
  - apply Forall_app. split; [done|]. repeat constructor; unfold is_byte; lia.
  - lia.
  - left. rewrite fields_text_snoc.
    destruct p4_cur0 as [(-> & _ & _ & [->|[? _]])|(-> & _ & _)]; [done|done|].
    rewrite <- app_assoc. split_and!; try done. right. split; [done|]. intros ->. apply Hl.
    rewrite p4_split0, !len_app. change (len [dot]) with 1. lia.
Qed.

Lemma parseIPv4_loop_sound rest s pre got prev fields val digLen f' v' p' :
  parse4_state s rest pre got prev fields val digLen ->
  parseIPv4_loop s rest (len pre) prev fields val (len got) digLen = Ok (f', v', p') ->
  exists pre' got' prev' digLen', p' = len got' /\ parse4_state s [] pre' got' prev' f' v' digLen'.
Proof.
  revert pre got prev fields val digLen. induction rest as [|c rest IH]; intros * Hst; cbn [parseIPv4_loop].
  { intros [= <- <- <-]. by exists pre, got, prev, digLen. }
  destruct ((48 <=? c) && (c <=? 57)) eqn:Ed.
  - zbool. destruct (_ && _) eqn:Ez; [done|]. destruct (255 <? _) eqn:Ev; [done|]. zbool.
    replace (len pre + 1) with (len (pre ++ [c])) by (by rewrite len_app). apply IH.
    eapply parse4_digit; [done|lia| |lia]. intros [-> ->]. done.
  - destruct (c =? dot) eqn:Ec; [|done]. zbool. subst c.
    destruct ((len pre =? 0) || _ || _) eqn:E1; [done|]. destruct (len got =? 3) eqn:E3; [done|]. zbool.
    replace (len pre + 1) with (len (pre ++ [dot])) by (by rewrite len_app).
    replace (len got + 1) with (len (got ++ [val])) by (by rewrite len_app). apply IH.
    by eapply parse4_dot.
Qed.

Lemma parseIPv4_sound s a :
  parseIPv4 s = Ok a ->
  exists w x y z, is_byte w /\ is_byte x /\ is_byte y /\ is_byte z /\
    a = AddrFrom4 [w; x; y; z] /\ s = string4 a.
Proof.
  unfold parseIPv4. destruct (parseIPv4_loop s s 0 0 _ 0 0 0) as [[[f v] p]|e] eqn:El; [|done].
  destruct (p <? 3) eqn:Ep; [done|]. zbool. intros [= <-].
  destruct (parseIPv4_loop_sound s s [] [] 0 [0; 0; 0; 0] 0 0 f v p) as (pre & got & prev & dl & -> & []); [|done|].
  { split; try done; simpl; [lia..|]. left. split_and!; try done. by left. }
  unfold len in Ep. assert (length got = 3%nat) as Hg by lia.
  destruct got as [|w [|x [|y [|]]]]; try done. destruct f as [|f0 [|f1 [|f2 [|f3 [|]]]]]; try done.
  simplify_eq/=. rewrite !Forall_cons in p4_bytes0. destruct p4_bytes0 as (Hw & Hx & Hy & _).
  assert (is_byte v) as Hv by (unfold is_byte; lia).
  exists w, x, y, v. rewrite u8_byte by done. split_and!; try done.
  rewrite string4_AddrFrom4 by done. rewrite app_nil_r.
  destruct p4_cur0 as [(_ & _ & _ & [?|[_ ?]])|(-> & _ & _)]; [done|done|].
  unfold fields_text. simpl. by rewrite <- !app_assoc.
Qed.

(** Reading the numeral of a byte. *)
Lemma parseIPv4_loop_dec s rest i prev fields pos x :
  is_byte x ->
  exists prev', prev' <> dot /\
  parseIPv4_loop s (dec x ++ rest) i prev fields 0 pos 0 =
    parseIPv4_loop s rest (i + len (dec x)) prev' fields x pos (len (dec x)).
Proof.
  unfold is_byte. intros Hx.
  destruct (dec_cases x Hx) as [[? ->]|[[? ->]|[? ->]]]; cbn [parseIPv4_loop app];
    repeat match goal with
    | |- context [(48 <=? 48 + ?y) && (48 + ?y <=? 57)] =>
        rewrite (proj2 (Z.leb_le 48 (48 + y))), (proj2 (Z.leb_le (48 + y) 57)) by zlia; cbn [andb Z.eqb]
    end.
  - rewrite (proj2 (Z.ltb_ge 255 _)) by lia. exists (48 + x). split; [lia|]. f_equal. lia.
  - rewrite (proj2 (Z.ltb_ge 255 (0 * 10 + _))) by zlia.
    rewrite (proj2 (Z.eqb_neq (_ * 10 + _) 0)) by zlia. cbn [andb].
    rewrite (proj2 (Z.ltb_ge 255 _)) by zlia.
    exists (48 + x mod 10). split; [zlia|]. unfold len; simpl length. f_equal; zlia.
  - rewrite (proj2 (Z.ltb_ge 255 (0 * 10 + _))) by zlia.
    rewrite (proj2 (Z.eqb_neq (0 * 10 + _) 0)) by zlia. cbn [andb].
    rewrite (proj2 (Z.ltb_ge 255 (_ * 10 + (48 + _ mod 10 - 48)))) by zlia.
    change (0 + 1 + 1 =? 1) with false. cbn [andb].
    rewrite (proj2 (Z.ltb_ge 255 _)) by zlia.
    exists (48 + x mod 10). split; [zlia|]. unfold len; simpl length. f_equal; zlia.
Qed.

Lemma parseIPv4_loop_dot s rest i prev fields val pos digLen :
  i <> 0 -> i <> len s - 1 -> prev <> dot -> pos <> 3 ->
  parseIPv4_loop s (dot :: rest) i prev fields val pos digLen =
    parseIPv4_loop s rest (i + 1) dot (<[Z.to_nat pos := u8 val]> fields) 0 (pos + 1) 0.
Proof.
  intros ????. cbn [parseIPv4_loop]. simpl (_ && _). cbv iota.
  by rewrite (proj2 (Z.eqb_neq i 0)), (proj2 (Z.eqb_neq i (len s - 1))), (proj2 (Z.eqb_neq prev dot)),
    (proj2 (Z.eqb_neq pos 3)) by done.
Qed.

Lemma parseIPv4_complete w x y z :
  is_byte w -> is_byte x -> is_byte y -> is_byte z ->
  parseIPv4 (string4 (AddrFrom4 [w; x; y; z])) = Ok (AddrFrom4 [w; x; y; z]).
Proof.
  intros Hw Hx Hy Hz. rewrite string4_AddrFrom4 by done. unfold parseIPv4.
  set (s := dec w ++ _). assert (forall v, 0 < len (dec v)) as Hpos.
  { intros v. pose proof (dec_nonempty v). unfold len. destruct (dec v); [done|]. simpl. lia. }
  pose proof (Hpos w). pose proof (Hpos x). pose proof (Hpos y). pose proof (Hpos z).
  assert (len s = len (dec w) + 1 + len (dec x) + 1 + len (dec y) + 1 + len (dec z)) as Hs
    by (unfold s; autorewrite with go; lia).
  unfold s at 2.
  destruct (parseIPv4_loop_dec s (dot :: dec x ++ dot :: dec y ++ dot :: dec z) 0 0 [0; 0; 0; 0] 0 w Hw)
    as (p1 & Hp1 & ->). rewrite parseIPv4_loop_dot by lia.
  match goal with |- context [parseIPv4_loop s (dec x ++ ?r) ?i ?p ?f 0 ?n 0] =>
    destruct (parseIPv4_loop_dec s r i p f n x Hx) as (p2 & Hp2 & ->) end.
  rewrite parseIPv4_loop_dot by lia.
  match goal with |- context [parseIPv4_loop s (dec y ++ ?r) ?i ?p ?f 0 ?n 0] =>
    destruct (parseIPv4_loop_dec s r i p f n y Hy) as (p3 & Hp3 & ->) end.
  rewrite parseIPv4_loop_dot by lia. rewrite <- (app_nil_r (dec z)).
  match goal with |- context [parseIPv4_loop s (dec z ++ ?r) ?i ?p ?f 0 ?n 0] =>
    destruct (parseIPv4_loop_dec s r i p f n z Hz) as (p4 & Hp4 & ->) end.
  cbn [parseIPv4_loop]. simpl. by rewrite !u8_byte.
Qed.

(** ** Well-formed addresses

    What the constructors of the package build: the zero value, an IPv4 address
    stored in its mapped form, or an IPv6 address whose zone, if any, is not
    empty. *)
Definition Addr_wf (ip : Addr) : Prop :=
  is_u64 (hi (addr ip)) /\ is_u64 (lo (addr ip)) /\
  match z ip with
  | z0 => ip = zero_Addr
  | z4 => hi (addr ip) = 0 /\ lo (addr ip) / 2 ^ 32 = 65535
  | z6noz => True
  | zone_of name => name <> []
  end.

Lemma AddrFrom4_wf a b c d :
  is_byte a -> is_byte b -> is_byte c -> is_byte d -> Addr_wf (AddrFrom4 [a; b; c; d]).
Proof.
  intros. unfold Addr_wf. rewrite AddrFrom4_lo by done. unfold is_byte in *.
  change (2 ^ 32) with 4294967296. change (2 ^ 24) with 16777216.
  change (2 ^ 16) with 65536. change (2 ^ 8) with 256. simpl. split_and!; zlia.
Qed.

(** A well-formed IPv4 address is four bytes. *)
Lemma Is4_inv ip :
  Addr_wf ip -> z ip = z4 ->
  exists a b c d, is_byte a /\ is_byte b /\ is_byte c /\ is_byte d /\ ip = AddrFrom4 [a; b; c; d].
Proof.
  intros (_ & Hlo & Hz) E. rewrite E in Hz. destruct Hz as [Hhi Hq].
  exists (v4 ip 0), (v4 ip 1), (v4 ip 2), (v4 ip 3). split_and!; try apply u8_is_byte.
  destruct ip as [[h l] zn]. simpl in *. subst.
  assert (l = lo (addr (AddrFrom4 [u8 (l >> 24); u8 (l >> 16); u8 (l >> 8); u8 l]))) as E.
  { rewrite AddrFrom4_lo by apply u8_is_byte. rewrite !Z.shiftr_div_pow2 by lia. widths.
    change (2 ^ 24) with 16777216. zlia. }
  unfold AddrFrom4 in *. simpl in E. unfold v4. simpl. by rewrite E at 1.
Qed.

Lemma put32_AddrFrom4 a b c d :
  is_byte a -> is_byte b -> is_byte c -> is_byte d ->
  bePutUint32_bytes (u32 (lo (addr (AddrFrom4 [a; b; c; d])))) = [a; b; c; d].
Proof.
  intros. rewrite AddrFrom4_lo by done. unfold bePutUint32_bytes, BigEndian.AppendUint32, is_byte in *.
  rewrite !Z.shiftr_div_pow2 by lia. widths. change (2 ^ 24) with 16777216. simpl. cells_eq.
Qed.

Lemma beUint64_put v rest : is_u64 v -> beUint64 (bePutUint64_bytes v ++ rest) = v.
Proof. intros Hv. unfold beUint64, bePutUint64_bytes. by rewrite (Uint64_Append (o := bigEndian)). Qed.

Lemma put_beUint64 b : bytes_ok b -> len b = 8 -> is_u64 (beUint64 b) /\ bePutUint64_bytes (beUint64 b) = b.
Proof.
  intros Hb Hl. unfold beUint64. destruct (BigEndian.Uint64 b) as [v|] eqn:E.
  - destruct (Append_Uint64 (o := bigEndian) b v Hb E) as [Hv Ha]. split; [done|]. simpl.
    unfold bePutUint64_bytes. simpl in Ha. rewrite Ha. apply take_ge. unfold len in Hl. lia.
  - apply (Uint64_short (o := bigEndian)) in E. lia.
Qed.

Lemma length_As16 ip : length (As16 ip) = 16%nat.
Proof. done. Qed.

(** The 16 bytes of an address determine its halves. *)
Lemma AddrFrom16_As16 ip :
  is_u64 (hi (addr ip)) -> is_u64 (lo (addr ip)) -> AddrFrom16 (As16 ip) = mk_Addr (addr ip) z6noz.
Proof.
  intros Hh Hl. unfold AddrFrom16, As16. set (h := bePutUint64_bytes (hi _)). set (l := bePutUint64_bytes (lo _)).
  rewrite (take_app_length' h) by done. rewrite (drop_app_length' h) by done.
  assert (beUint64 h = hi (addr ip)) as -> by (rewrite <- (app_nil_r h); by apply beUint64_put).
  assert (beUint64 l = lo (addr ip)) as -> by (rewrite <- (app_nil_r l); by apply beUint64_put).
  by destruct (addr ip).
Qed.

Lemma As16_AddrFrom16 b :
  bytes_ok b -> len b = 16 -> Addr_wf (AddrFrom16 b) /\ As16 (AddrFrom16 b) = b.
Proof.
  intros Hb Hl. unfold As16, AddrFrom16, Addr_wf. cbn [hi lo addr z]. unfold len in Hl.
  assert (len (take 8 b) = 8) as H1 by (unfold len; rewrite length_take; lia).
  assert (len (drop 8 b) = 8) as H2 by (unfold len; rewrite length_drop; lia).
  destruct (put_beUint64 (take 8 b)) as [Hu1 ->]; [by apply Forall_take|done|].
  destruct (put_beUint64 (drop 8 b)) as [Hu2 ->]; [by apply Forall_drop|done|].
  split; [done|apply take_drop].
Qed.

Lemma unmarshal_marshal ip : Addr_wf ip -> UnmarshalBinary (MarshalBinary ip) = Ok ip.
Proof.
  intros Hwf. pose proof Hwf as (Hh & Hl & Hz). destruct (z ip) as [| | |name] eqn:Ez.
  - by subst.
  - destruct (Is4_inv ip Hwf Ez) as (a & b & c & d & ? & ? & ? & ? & ->).
    unfold MarshalBinary. rewrite Ez, put32_AddrFrom4 by done. done.
  - unfold MarshalBinary, Zone. rewrite Ez, app_nil_r. fold (As16 ip).
    unfold UnmarshalBinary, len. rewrite length_As16. repeat case_match; zbool; try lia.
    rewrite AddrFrom16_As16 by done. destruct ip. simpl in *. by subst.
  - unfold MarshalBinary, Zone. rewrite Ez, app_assoc. fold (As16 ip).
    assert (len (As16 ip ++ name) = 16 + len name) as El by (rewrite len_app; unfold len; by rewrite length_As16).
    assert (0 < len name) by (destruct name; [done|rewrite len_cons; pose proof (len_nonneg name); lia]).
    unfold UnmarshalBinary. rewrite El. repeat case_match; zbool; try lia.
    rewrite (take_app_length' (As16 ip)), (drop_app_length' (As16 ip)) by done.
    rewrite AddrFrom16_As16 by done. unfold WithZone, Is6. simpl. rewrite bool_decide_false by done.
    destruct ip. simpl in *. by subst.
Qed.

Lemma marshal_zoned b name :
  bytes_ok b -> len b = 16 -> name <> [] ->
  Addr_wf (WithZone (AddrFrom16 b) name) /\ MarshalBinary (WithZone (AddrFrom16 b) name) = b ++ name.
Proof.
  intros Hb Hl Hne. destruct (As16_AddrFrom16 b Hb Hl) as [(? & ? & _) E].
  unfold WithZone, Is6. simpl. rewrite bool_decide_false by done. split; [done|].
  unfold MarshalBinary, Zone. cbn [z addr]. rewrite app_assoc. f_equal. exact E.
Qed.

(** The binary form of an address loses nothing: unmarshalling what
    MarshalBinary wrote gives a well-formed address back, zone included; and
    UnmarshalBinary accepts exactly the byte strings of length 0, 4 and at least 16,
    builds a well-formed address from each, and marshals it to the same bytes. *)
Theorem netip_binary_round_trip :
  (forall ip, Addr_wf ip -> UnmarshalBinary (MarshalBinary ip) = Ok ip) /\
  (forall b, bytes_ok b ->
     match UnmarshalBinary b with
     | Ok ip => Addr_wf ip /\ MarshalBinary ip = b
     | Err _ => len b <> 0 /\ len b <> 4 /\ len b < 16
     end).
Proof.
  split; [exact unmarshal_marshal|].
  intros b Hb. unfold UnmarshalBinary. pose proof (len_nonneg b). repeat case_match; simplify_eq; zbool.
  - by destruct b.
  - destruct b as [|a [|b [|c [|d [|]]]]]; try (exfalso; unfold len in *; simpl in *; lia). rewrite !Forall_cons in Hb. destruct Hb as (?&?&?&?&_).
    split; [by apply AddrFrom4_wf|]. by apply put32_AddrFrom4.
  - destruct (As16_AddrFrom16 b) as [Hwf E]; [done|done|]. split; [done|].
    unfold MarshalBinary, Zone. cbn [z]. rewrite app_nil_r. exact E.
  - unfold len in *. destruct (marshal_zoned (take 16 b) (drop 16 b)) as [Hwf E];
      [| | |split; [done|by rewrite E, take_drop]].
    + by apply Forall_take.
    + unfold len. rewrite length_take. lia.
    + intros E%(f_equal length). rewrite length_drop in E. simpl in E. lia.
  - lia.
Qed.

Lemma netip_binary_round_trip_witness :
  let ip := WithZone (AddrFrom16 IPv6loopback) (str "lo") in
  UnmarshalBinary (MarshalBinary ip) = Ok ip /\
  MarshalBinary (AddrFrom4 [127; 0; 0; 1]) = [127; 0; 0; 1].
Proof.
  split.
  - apply (proj1 netip_binary_round_trip). vm_compute. split_and!; discriminate || done.
  - exact (proj2 (proj2 netip_binary_round_trip [127; 0; 0; 1]
      ltac:(repeat constructor; vm_compute; discriminate))).
Defined.

(** parseIPv4 accepts exactly the dotted decimal form that the package prints:
    a string parses to an address if and only if the address has four bytes and the
    string is its text; so leading zeros, values above 255, missing, empty or extra
    fields and foreign characters are all rejected. *)
Theorem parse_ipv4_exact s ip :
  parseIPv4 s = Ok ip <->
  exists w x y z, is_byte w /\ is_byte x /\ is_byte y /\ is_byte z /\
    ip = AddrFrom4 [w; x; y; z] /\ s = string4 ip.
Proof.
  split; [apply parseIPv4_sound|].
  intros (w & x & y & z & ? & ? & ? & ? & -> & ->). by apply parseIPv4_complete.
Qed.
