(* ===== verification/NetipProps.v ===== *)
(** * net/netip: order, successor and classes

    Properties of the addresses of [NetipAddr]: [Compare] is a total order,
    [Next] and [Prev] walk it, and the class predicates agree with those of
    [net.IP] on the same bytes. *)

From S2P Require Import Prelude ByteOrder HostPort NetIP NetipAddr.
Local Open Scope go_scope.
Local Set Warnings "-clear-no-such-hyp".

(** ** Order *)

Lemma string_lt_irrefl s : string_lt s s = false.
Proof. induction s as [|x s IH]; simpl; [done|]. by rewrite Z.ltb_irrefl, Z.eqb_refl, IH. Qed.

Lemma string_lt_trans s t u : string_lt s t = true -> string_lt t u = true -> string_lt s u = true.
Proof.
  revert t u. induction s as [|x s IH]; intros [|y t] [|w u]; simpl; try done.
  rewrite !orb_true_iff, !andb_true_iff, !Z.ltb_lt, !Z.eqb_eq.
  intros [?|[-> Ha]] [?|[-> Hb]]; [left; lia|left; lia|left; lia|right]. eauto.
Qed.

Lemma string_lt_total s t : string_lt s t = false -> string_lt t s = false -> s = t.
Proof.
  revert t. induction s as [|x s IH]; intros [|y t]; simpl; try done.
  rewrite !orb_false_iff, !andb_false_iff, !Z.ltb_ge, !Z.eqb_neq.
  intros [? Ha] [? Hb]. assert (x = y) as -> by lia.
  destruct Ha, Hb; try done. f_equal. by apply IH.
Qed.

Lemma string_lt_asym s t : string_lt s t = true -> string_lt t s = false.
Proof.
  intros Hst. destruct (string_lt t s) eqn:Hts; [|done].
  pose proof (string_lt_trans _ _ _ Hst Hts) as Hss. by rewrite string_lt_irrefl in Hss.
Qed.

(** The order of the addresses: by length, then by value, then by zone. *)
Definition addr_lt (a b : Addr) : Prop :=
  BitLen a < BitLen b \/ BitLen a = BitLen b /\
    (hi (addr a) < hi (addr b) \/ hi (addr a) = hi (addr b) /\
      (lo (addr a) < lo (addr b) \/ lo (addr a) = lo (addr b) /\ string_lt (Zone a) (Zone b) = true)).

Lemma Is6_BitLen a b : BitLen a = BitLen b -> Is6 a = Is6 b.
Proof. unfold BitLen, Is6. by destruct (z a), (z b). Qed.

Lemma Zone_not6 a : Is6 a = false -> Zone a = [].
Proof. unfold Is6, Zone. by destruct (z a). Qed.

Lemma Compare_cases a b :
  (Compare a b = -1 /\ addr_lt a b) \/ (Compare a b = 1 /\ addr_lt b a) \/
  (Compare a b = 0 /\ BitLen a = BitLen b /\ addr a = addr b /\ Zone a = Zone b).
Proof.
  unfold Compare, addr_lt.
  destruct (Z.ltb_spec (BitLen a) (BitLen b)); [left; split; [done|lia]|].
  destruct (Z.ltb_spec (BitLen b) (BitLen a)); [right; left; split; [done|lia]|].
  assert (BitLen a = BitLen b) as E by lia. pose proof (Is6_BitLen a b E) as E6.
  destruct (Z.ltb_spec (hi (addr a)) (hi (addr b))); [left; split; [done|lia]|].
  destruct (Z.ltb_spec (hi (addr b)) (hi (addr a))); [right; left; split; [done|lia]|].
  destruct (Z.ltb_spec (lo (addr a)) (lo (addr b))); [left; split; [done|lia]|].
  destruct (Z.ltb_spec (lo (addr b)) (lo (addr a))); [right; left; split; [done|lia]|].
  assert (addr a = addr b) as Ea by (destruct (addr a), (addr b); simpl in *; f_equal; lia).
  destruct (Is6 a) eqn:H6.
  - destruct (string_lt (Zone a) (Zone b)) eqn:Hab.
    { left. split; [done|]. right. split; [lia|]. right. split; [lia|]. right. split; [lia|done]. }
    destruct (string_lt (Zone b) (Zone a)) eqn:Hba.
    { right; left. split; [done|]. right. split; [lia|]. right. split; [lia|]. right. split; [lia|done]. }
    right; right. split_and!; try done. by apply string_lt_total.
  - right; right. split_and!; try done. by rewrite !Zone_not6.
Qed.

Lemma addr_lt_trans a b c : addr_lt a b -> addr_lt b c -> addr_lt a c.
Proof.
  unfold addr_lt. intros [?|[? [?|[? [?|[? Hs1]]]]]] [?|[? [?|[? [?|[? Hs2]]]]]];
    first [left; lia
      |right; split; [lia|]; first [left; lia
        |right; split; [lia|]; first [left; lia|right; split; [lia|by eapply string_lt_trans]]]].
Qed.

Lemma addr_lt_irrefl a : ~ addr_lt a a.
Proof. unfold addr_lt. rewrite string_lt_irrefl. intros [?|[? [?|[? [?|[? ?]]]]]]; done || lia. Qed.

Lemma Compare_lt a b : Compare a b = -1 <-> addr_lt a b.
Proof.
  destruct (Compare_cases a b) as [[-> ?]|[[-> Hba]|[-> (HB & Ea & Ez)]]]; [done| |].
  - split; [done|]. intros Hab. by destruct (addr_lt_irrefl a (addr_lt_trans _ _ _ Hab Hba)).
  - split; [done|]. unfold addr_lt. rewrite HB, Ea, Ez, string_lt_irrefl.
    intros [?|[? [?|[? [?|[? ?]]]]]]; done || lia.
Qed.

(** Among well-formed addresses, equal keys are equal addresses. *)
Lemma Addr_key_eq a b :
  Addr_wf a -> Addr_wf b -> BitLen a = BitLen b -> addr a = addr b -> Zone a = Zone b -> a = b.
Proof.
  intros (_ & _ & Ha) (_ & _ & Hb) HB Ea Ez. destruct a as [ua za], b as [ub zb]. simpl in *. subst ub.
  unfold BitLen, Zone in *. simpl in *. f_equal. by destruct za, zb; simpl in *; try done; subst.
Qed.

(** Compare is a total order on well-formed addresses: it answers -1, 0 or 1, 0
    exactly for equal addresses (zones included), the opposite when its arguments are
    swapped, and it is transitive; Less is its strict part. *)
Theorem netip_compare_total_order a b c :
  Addr_wf a -> Addr_wf b ->
  (Compare a b = 0 <-> a = b) /\ Compare b a = - Compare a b /\
  (Compare a b = -1 \/ Compare a b = 0 \/ Compare a b = 1) /\
  (Compare a b = -1 -> Compare b c = -1 -> Compare a c = -1) /\
  (Less a b = true <-> Compare a b = -1).
Proof.
  intros Ha Hb. split_and!.
  - destruct (Compare_cases a b) as [[-> Hab]|[[-> Hba]|[-> (HB & Ea & Ez)]]].
    + split; [done|]. intros ->. by destruct (addr_lt_irrefl b).
    + split; [done|]. intros ->. by destruct (addr_lt_irrefl b).
    + split; [|done]. intros _. by apply Addr_key_eq.
  - destruct (Compare_cases a b) as [[-> Hab]|[[-> Hba]|[-> (HB & Ea & Ez)]]].
    + destruct (Compare_cases b a) as [[_ Hba]|[[-> _]|[_ (HB & Ea & Ez)]]]; [|done|].
      * by destruct (addr_lt_irrefl a (addr_lt_trans _ _ _ Hab Hba)).
      * rewrite (Addr_key_eq a b) in Hab by done. by destruct (addr_lt_irrefl b).
    + by apply Compare_lt.
    + destruct (Compare_cases b a) as [[_ Hba]|[[_ Hab]|[-> _]]]; [| |done];
        rewrite (Addr_key_eq a b) in * by done; by destruct (addr_lt_irrefl b).
  - destruct (Compare_cases a b) as [[-> _]|[[-> _]|[-> _]]]; auto.
  - rewrite !Compare_lt. apply addr_lt_trans.
  - unfold Less. apply Z.eqb_eq.
Qed.

Lemma netip_compare_total_order_witness :
  let a := AddrFrom4 [10; 0; 0; 1] in
  let b := WithZone (AddrFrom16 IPv6loopback) (str "lo") in
  let c := WithZone (AddrFrom16 IPv6loopback) (str "lo0") in
  (Compare a b = 0 <-> a = b) /\ Compare b a = - Compare a b /\
  (Compare a b = -1 \/ Compare a b = 0 \/ Compare a b = 1) /\
  (Compare a b = -1 -> Compare b c = -1 -> Compare a c = -1) /\
  (Less a b = true <-> Compare a b = -1).
Proof.
  intros a b c. apply (netip_compare_total_order a b c); vm_compute; split_and!; discriminate || done.
Defined.

(** ** Successor *)

Definition u128_val (u : uint128) : Z := hi u * 2 ^ 64 + lo u.
Definition u128_ok (u : uint128) : Prop := is_u64 (hi u) /\ is_u64 (lo u).

Ltac u128 := unfold u128_val, u128_ok in *; widths; simpl in *.

Lemma addOne_ok u :
  u128_ok u -> u128_ok (addOne u) /\
  u128_val (addOne u) = if u128_val u =? 2 ^ 128 - 1 then 0 else u128_val u + 1.
Proof.
  intros [Hh Hl]. unfold addOne. u128. change (2 ^ 128) with 340282366920938463463374607431768211456.
  destruct (Z.ltb_spec 18446744073709551615 (lo u + 1));
    destruct (Z.eqb_spec (hi u * 18446744073709551616 + lo u) (340282366920938463463374607431768211456 - 1));
    split; try split; zlia.
Qed.

Lemma subOne_ok u :
  u128_ok u -> u128_ok (subOne u) /\
  u128_val (subOne u) = if u128_val u =? 0 then 2 ^ 128 - 1 else u128_val u - 1.
Proof.
  intros [Hh Hl]. unfold subOne. u128. change (2 ^ 128) with 340282366920938463463374607431768211456.
  destruct (Z.ltb_spec (lo u) 1);
    destruct (Z.eqb_spec (hi u * 18446744073709551616 + lo u) 0);
    split; try split; zlia.
Qed.

Lemma u128_val_inj u v : u128_ok u -> u128_ok v -> u128_val u = u128_val v -> u = v.
Proof. intros [??] [??] E. destruct u, v. u128. f_equal; lia. Qed.

Lemma u128_isZero_spec u : u128_ok u -> u128_isZero u = (u128_val u =? 0).
Proof.
  intros [Hh Hl]. unfold u128_isZero. apply eq_bool_prop_intro. split; intros H%Is_true_eq_true;
    apply Is_true_eq_left; zbool; apply Z.eqb_eq.
  - apply Z.lor_eq_0_iff in H as [E1 E2]. u128. lia.
  - apply Z.lor_eq_0_iff. u128. lia.
Qed.

Lemma Addr_ext a b : z a = z b -> addr a = addr b -> a = b.
Proof. destruct a, b. simpl. by intros -> ->. Qed.

(** The number of an address among those of its length. *)
Definition host_number (ip : Addr) : Z := u128_val (addr ip) mod 2 ^ BitLen ip.

Lemma host_number_bound ip : 0 <= host_number ip < 2 ^ BitLen ip.
Proof. apply Z.mod_pos_bound. unfold BitLen. by destruct (z ip). Qed.

Lemma Addr_wf_ok ip : Addr_wf ip -> u128_ok (addr ip).
Proof. by intros (? & ? & _). Qed.

Lemma val_lt_Compare a b :
  z a = z b -> u128_ok (addr a) -> u128_ok (addr b) -> u128_val (addr a) < u128_val (addr b) ->
  Compare a b = -1.
Proof.
  intros Ez Ha Hb Hv. apply Compare_lt. right. unfold BitLen. rewrite Ez. split; [done|]. u128.
  destruct (decide (hi (addr a) < hi (addr b))); [by left|right]. lia.
Qed.

(** What it means to be the next or the previous address. *)
Definition neighbour (ip ip' : Addr) (step : Z) : Prop :=
  Addr_wf ip' /\ z ip' = z ip /\ host_number ip' = host_number ip + step /\
  u128_val (addr ip') = u128_val (addr ip) + step.

Lemma addOne_v4 u : hi u = 0 -> lo u / 2 ^ 32 = 65535 -> addOne u = mk_uint128 0 (lo u + 1).
Proof.
  intros Hh Hq. unfold addOne. rewrite Hh. widths. rewrite (proj2 (Z.ltb_ge _ _)) by zlia.
  cbv zeta. f_equal; zlia.
Qed.

Lemma subOne_v4 u : hi u = 0 -> lo u / 2 ^ 32 = 65535 -> subOne u = mk_uint128 0 (lo u - 1).
Proof.
  intros Hh Hq. unfold subOne. rewrite Hh. widths. rewrite (proj2 (Z.ltb_ge _ _)) by zlia.
  cbv zeta. f_equal; zlia.
Qed.

Lemma zone_cases ip :
  Addr_wf ip -> IsValid ip = true ->
  (z ip = z4 /\ BitLen ip = 32 /\ Is4 ip = true /\ hi (addr ip) = 0 /\ lo (addr ip) / 2 ^ 32 = 65535) \/
  (z ip <> z4 /\ BitLen ip = 128 /\ Is4 ip = false /\
   forall u, u128_ok u -> Addr_wf (mk_Addr u (z ip)) /\ BitLen (mk_Addr u (z ip)) = 128).
Proof.
  intros (_ & _ & Hz) Hv. unfold IsValid, BitLen, Is4, Addr_wf in *. destruct (z ip); try done.
  - left. split_and!; by try apply Hz.
  - right. split_and!; try done. intros u []. naive_solver.
  - right. split_and!; try done. intros u []. naive_solver.
Qed.

Lemma Next_cases ip :
  Addr_wf ip -> IsValid ip = true ->
  if host_number ip =? 2 ^ BitLen ip - 1 then Next ip = zero_Addr
  else Next ip = mk_Addr (addOne (addr ip)) (z ip) /\ neighbour ip (Next ip) 1.
Proof.
  intros Hwf Hv. pose proof (Addr_wf_ok _ Hwf) as Hok. destruct (addOne_ok _ Hok) as [Hok' Hval].
  unfold neighbour, host_number, Next, Is4 in *. cbn [addr z] in *.
  destruct (zone_cases ip Hwf Hv) as [(Ez & -> & E4 & Hh & Hq)|(Hz & -> & E4 & H6)];
    unfold Is4 in E4; rewrite E4.
  - rewrite (addOne_v4 _ Hh Hq) in *. unfold BitLen, Addr_wf. rewrite Ez. clear Hval.
    change (2 ^ 32) with 4294967296 in *. u128. rewrite Hh.
    destruct (Z.eqb_spec ((lo (addr ip) + 1) mod 4294967296) 0);
      destruct (Z.eqb_spec ((0 * 18446744073709551616 + lo (addr ip)) mod 4294967296) (4294967296 - 1));
      try zlia; [done|]. cbn [addr z hi lo]. change (2 ^ 32) with 4294967296. split_and!; zlia || done.
  - rewrite u128_isZero_spec, Hval by done. destruct (H6 _ Hok') as [Hwf' HB].
    assert (u128_val (addr ip) mod 2 ^ 128 = u128_val (addr ip)) as E by (apply Z.mod_small; u128; lia).
    rewrite E. destruct (Z.eqb_spec (u128_val (addr ip)) (2 ^ 128 - 1)) as [Ev|Ev]; [done|].
    assert (0 <= u128_val (addr ip) < 2 ^ 128) by (u128; lia).
    rewrite (proj2 (Z.eqb_neq _ 0)) by lia. rewrite HB. cbn [addr z]. rewrite Hval.
    split_and!; try done. rewrite Z.mod_small; lia.
Qed.

Lemma Prev_cases ip :
  Addr_wf ip -> IsValid ip = true ->
  if host_number ip =? 0 then Prev ip = zero_Addr
  else Prev ip = mk_Addr (subOne (addr ip)) (z ip) /\ neighbour ip (Prev ip) (-1).
Proof.
  intros Hwf Hv. pose proof (Addr_wf_ok _ Hwf) as Hok. destruct (subOne_ok _ Hok) as [Hok' Hval].
  unfold neighbour, host_number, Prev in *.
  destruct (zone_cases ip Hwf Hv) as [(Ez & -> & E4 & Hh & Hq)|(Hz & -> & E4 & H6)]; rewrite E4; cbn [andb negb].
  - rewrite (subOne_v4 _ Hh Hq) in *. unfold BitLen, Addr_wf. rewrite Ez. clear Hval.
    change (2 ^ 32) with 4294967296 in *. u128. rewrite Hh.
    destruct (Z.eqb_spec (lo (addr ip) mod 4294967296) 0);
      destruct (Z.eqb_spec ((0 * 18446744073709551616 + lo (addr ip)) mod 4294967296) 0);
      try zlia; [done|]. cbn [addr z hi lo]. change (2 ^ 32) with 4294967296. split_and!; zlia || done.
  - rewrite u128_isZero_spec by done. destruct (H6 _ Hok') as [Hwf' HB].
    assert (u128_val (addr ip) mod 2 ^ 128 = u128_val (addr ip)) as E by (apply Z.mod_small; u128; lia).
    rewrite E. destruct (Z.eqb_spec (u128_val (addr ip)) 0) as [Ev|Ev]; [done|].
    assert (0 <= u128_val (addr ip) < 2 ^ 128) by (u128; lia).
    rewrite HB. cbn [addr z]. rewrite Hval. split_and!; try done. rewrite Z.mod_small; lia.
Qed.

(** Next and Prev walk the addresses of one family in order.  The last address of
    its length has no Next and the first no Prev (the zero value is returned, also at
    the end of the IPv4 range, which is not the end of the 128-bit numbers it is stored
    in); everywhere else Next adds one to the number of the address, keeps its family
    and zone, is larger for Compare, and Prev undoes it; and the other way round. *)
Theorem netip_next_prev ip :
  Addr_wf ip -> IsValid ip = true ->
  (if host_number ip =? 2 ^ BitLen ip - 1 then Next ip = zero_Addr
   else neighbour ip (Next ip) 1 /\ Prev (Next ip) = ip /\ Compare ip (Next ip) = -1) /\
  (if host_number ip =? 0 then Prev ip = zero_Addr
   else neighbour ip (Prev ip) (-1) /\ Next (Prev ip) = ip /\ Compare (Prev ip) ip = -1).
Proof.
  intros Hwf Hv. pose proof (Addr_wf_ok _ Hwf) as Hok. split.
  - pose proof (Next_cases ip Hwf Hv) as Hn. destruct (_ =? _); [done|]. destruct Hn as [_ Hn].
    pose proof Hn as (Hwf' & Ez & Hh & Hval). pose proof (Addr_wf_ok _ Hwf') as Hok'. split; [done|]. split.
    + pose proof (Prev_cases (Next ip) Hwf') as Hp. unfold IsValid in Hp. rewrite Ez in Hp. specialize (Hp Hv).
      rewrite (proj2 (Z.eqb_neq _ 0)) in Hp by (pose proof (host_number_bound ip); lia).
      destruct Hp as [_ (Hwf'' & Ez' & _ & Hval')]. apply Addr_ext; [congruence|].
      apply u128_val_inj; [by apply Addr_wf_ok|done|lia].
    + apply val_lt_Compare; done || lia.
  - pose proof (Prev_cases ip Hwf Hv) as Hn. destruct (Z.eqb_spec (host_number ip) 0); [done|].
    destruct Hn as [_ Hn]. pose proof Hn as (Hwf' & Ez & Hh & Hval). pose proof (Addr_wf_ok _ Hwf') as Hok'.
    split; [done|]. split.
    + pose proof (Next_cases (Prev ip) Hwf') as Hp. unfold IsValid in Hp. rewrite Ez in Hp. specialize (Hp Hv).
      assert (BitLen (Prev ip) = BitLen ip) as EB by (unfold BitLen; by rewrite Ez). rewrite EB in Hp.
      rewrite (proj2 (Z.eqb_neq _ (_ - 1))) in Hp by (pose proof (host_number_bound ip); lia).
      destruct Hp as [_ (Hwf'' & Ez' & _ & Hval')]. apply Addr_ext; [congruence|].
      apply u128_val_inj; [by apply Addr_wf_ok|done|lia].
    + apply val_lt_Compare; done || lia.
Qed.

Lemma netip_next_prev_witness :
  let ip := AddrFrom4 [10; 0; 0; 255] in
  Next ip = AddrFrom4 [10; 0; 1; 0] /\ Prev (Next ip) = ip /\ Next (AddrFrom4 [255; 255; 255; 255]) = zero_Addr.
Proof.
  intros ip. assert (Addr_wf ip) as Hwf by (vm_compute; split_and!; discriminate || done).
  split; [vm_compute; reflexivity|]. split.
  - exact (proj1 (proj2 (proj1 (netip_next_prev ip Hwf eq_refl)))).
  - refine (proj1 (netip_next_prev (AddrFrom4 [255; 255; 255; 255]) _ eq_refl)).
    vm_compute; split_and!; discriminate || done.
Defined.

(** ** Classes *)

Lemma put64_cells h :
  bePutUint64_bytes h = [u8 (h >> 56); u8 (h >> 48); u8 (h >> 40); u8 (h >> 32);
                         u8 (h >> 24); u8 (h >> 16); u8 (h >> 8); u8 h].
Proof. done. Qed.

Lemma isZeros_put64 h : is_u64 h -> isZeros (bePutUint64_bytes h) = (h =? 0).
Proof.
  intros Hh. destruct (Z.eqb_spec h 0) as [->|Hne]; [done|].
  apply not_true_is_false. intros Hz%isZeros_repeat. apply Hne.
  rewrite <- (beUint64_put h []) by done. by rewrite Hz.
Qed.

Lemma prefix_put64 l :
  is_u64 l ->
  (u8 (l >> 56) =? 0) && (u8 (l >> 48) =? 0) && (u8 (l >> 40) =? 255) && (u8 (l >> 32) =? 255) =
  (l >> 32 =? 65535).
Proof.
  intros Hl. rewrite !Z.shiftr_div_pow2 by lia. widths.
  change (2 ^ 56) with (4294967296 * 16777216). change (2 ^ 48) with (4294967296 * 65536).
  change (2 ^ 40) with (4294967296 * 256). rewrite <- !Z.div_div by lia.
  assert (0 <= l / 4294967296 < 4294967296) by zlia. generalize dependent (l / 4294967296). intros q Hq.
  destruct (Z.eqb_spec (q / 16777216 mod 256) 0), (Z.eqb_spec (q / 65536 mod 256) 0),
    (Z.eqb_spec (q / 256 mod 256) 255), (Z.eqb_spec (q mod 256) 255), (Z.eqb_spec q 65535); simpl; zlia || done.
Qed.

(** [net.IP.To4] of the 16 bytes tests what [Is4In6] tests. *)
Lemma To4_As16 ip :
  u128_ok (addr ip) ->
  To4 (As16 ip) =
    if (hi (addr ip) =? 0) && (lo (addr ip) >> 32 =? 65535)
    then Some (bePutUint32_bytes (u32 (lo (addr ip)))) else None.
Proof.
  intros [Hh Hl]. unfold To4. change (len (As16 ip) =? IPv4len) with false.
  change (len (As16 ip) =? IPv6len) with true. cbv iota. rewrite <- prefix_put64 by done.
  rewrite <- isZeros_put64 by done. unfold As16. rewrite (put64_cells (lo _)).
  assert (forall p q b8 b9, length p = 8%nat -> isZeros (take 10 (p ++ b8 :: b9 :: q)) =
    isZeros p && ((b8 =? 0) && (b9 =? 0))) as Htake.
  { intros p q b8 b9 Hp. replace 10%nat with (length p + 2)%nat by lia. rewrite take_app_add. simpl.
    clear Hp. induction p as [|x p IH]; simpl; [by destruct (b8 =? 0), (b9 =? 0)|].
    destruct (x =? 0); [exact IH|done]. }
  rewrite Htake by done. unfold at_.
  rewrite !(app_nth2 (bePutUint64_bytes (hi (addr ip)))) by (simpl; lia).
  simpl (nth _ _ _). rewrite <- !andb_assoc. cbn [andb].
  match goal with |- (if ?b then ?x else _) = (if ?b' then ?y else _) =>
    replace b' with b; [replace y with x; [done|]|] end.
  - unfold bePutUint32_bytes, BigEndian.AppendUint32. simpl. rewrite !Z.shiftr_div_pow2 by lia. widths.
    change (2 ^ 24) with 16777216. apply (f_equal Some). cells_eq.
  - done.
Qed.

(** The two kinds of valid address: those that denote an IPv4 address, plain or mapped,
    and the others, with what the predicates read of them. *)
Record as_v4 (ip : Addr) (a b c d : Z) : Prop := {
  as4_bytes : bytes_ok [a; b; c; d];
  as4_addr : (if Is4In6 ip then Unmap ip else ip) = AddrFrom4 [a; b; c; d];
  as4_slice : AsSlice ip = [a; b; c; d] \/ AsSlice ip = IPv4 a b c d;
}.

Record as_v6 (ip : Addr) (b0 b1 : Z) (rest : gobytes) : Prop := {
  as6_bytes : bytes_ok (b0 :: b1 :: rest);
  as6_addr : (if Is4In6 ip then Unmap ip else ip) = ip;
  as6_is : Is4 ip = false /\ Is6 ip = true /\ Is4In6 ip = false;
  as6_slice : AsSlice ip = b0 :: b1 :: rest /\ AsSlice ip = As16 ip;
  as6_To4 : To4 (AsSlice ip) = None;
  as6_field : v6u16 ip 0 = b0 * 256 + b1;
  as6_first : v6 ip 0 = b0 /\ hi (addr ip) >> (64 - 8) = b0;
}.

Lemma As16_split ip : u128_ok (addr ip) ->
  exists b0 b1 rest, As16 ip = b0 :: b1 :: rest /\ bytes_ok (b0 :: b1 :: rest) /\
    v6u16 ip 0 = b0 * 256 + b1 /\ v6 ip 0 = b0 /\ hi (addr ip) >> (64 - 8) = b0.
Proof.
  intros [Hh Hl]. unfold As16. rewrite !put64_cells. do 3 eexists. split; [reflexivity|].
  split; [repeat (constructor; [apply u8_is_byte|]); constructor|].
  change (v6u16 ip 0) with (u16 (hi (addr ip) >> 48)). change (v6 ip 0) with (u8 (hi (addr ip) >> 56)).
  change (64 - 8) with 56. rewrite !Z.shiftr_div_pow2 by lia. widths.
  change (2 ^ 56) with 72057594037927936. change (2 ^ 48) with 281474976710656. split_and!; zlia.
Qed.

Lemma As16_valid ip : valid_ip (As16 ip).
Proof.
  split; [|by right]. unfold As16. rewrite !put64_cells. repeat (constructor; [apply u8_is_byte|]). constructor.
Qed.

Lemma To4_Some16 b q : valid_ip b -> len b = 16 -> To4 b = Some q -> b = v4InV6Prefix ++ q.
Proof.
  intros [(a & b' & c & d & -> & _)|(p & a & b' & c & d & -> & Hp & _)]%valid_ip_inv Hl; [done|].
  rewrite To4_mapped by done. case_decide as E; [|done]. intros [= <-]. by rewrite E.
Qed.

Lemma addr_kind6 ip :
  u128_ok (addr ip) -> AsSlice ip = As16 ip -> Is6 ip = true -> Is4 ip = false ->
  (exists a b c d, as_v4 ip a b c d) \/ (exists b0 b1 rest, as_v6 ip b0 b1 rest).
Proof.
  intros Hok Es E6 E4. pose proof (To4_As16 ip Hok) as Ht. destruct (Is4In6 ip) eqn:Em;
    pose proof Em as Em'; unfold Is4In6 in Em'; rewrite E6 in Em'; cbn [andb] in Em'; rewrite Em' in Ht.
  - left. apply andb_true_iff in Em' as [Eh%Z.eqb_eq El%Z.eqb_eq].
    destruct (Is4_inv (Unmap ip)) as (a & b & c & d & Ha & Hb & Hc & Hd & E).
    { unfold Unmap. rewrite Em. split_and!; try apply Hok. rewrite Z.shiftr_div_pow2 in El by lia. done. }
    { unfold Unmap. by rewrite Em. }
    exists a, b, c, d. split; [by rewrite !Forall_cons|by rewrite Em|right].
    assert (addr ip = addr (AddrFrom4 [a; b; c; d])) as Ea by (rewrite <- E; unfold Unmap; by rewrite Em).
    rewrite Es. apply To4_Some16; [apply As16_valid|done|]. rewrite Ht, Ea. by rewrite put32_AddrFrom4.
  - right. destruct (As16_split ip Hok) as (b0 & b1 & rest & Hb & Hbok & Hf & Hv6 & Hhi). exists b0, b1, rest.
    split; try done; rewrite ?Em, ?Es; done.
Qed.

Lemma addr_kinds ip :
  Addr_wf ip -> IsValid ip = true ->
  (exists a b c d, as_v4 ip a b c d) \/ (exists b0 b1 rest, as_v6 ip b0 b1 rest).
Proof.
  intros Hwf Hv. pose proof (Addr_wf_ok _ Hwf) as Hok. destruct (z ip) as [| | |name] eqn:Ez.
  - unfold IsValid in Hv. by rewrite Ez in Hv.
  - destruct (Is4_inv ip Hwf Ez) as (a & b & c & d & ? & ? & ? & ? & ->). left. exists a, b, c, d. split.
    + by rewrite !Forall_cons.
    + done.
    + left. unfold AsSlice. rewrite Ez. by apply put32_AddrFrom4.
  - apply addr_kind6; [done|unfold AsSlice|unfold Is6|unfold Is4]; by rewrite Ez.
  - apply addr_kind6; [done|unfold AsSlice|unfold Is6|unfold Is4]; by rewrite Ez.
Qed.

(** A test on the first two bytes of an IPv6 address, decided by enumeration. *)
Lemma two_bytes_enum (P : Z -> Z -> bool) :
  forallb (fun b0 => forallb (P b0) (seqZ 0 256)) (seqZ 0 256) = true ->
  forall b0 b1, is_byte b0 -> is_byte b1 -> P b0 b1 = true.
Proof. intros HP b0 b1 H0 H1. apply byte_enum; [|done]. by apply (byte_enum (fun b => forallb (P b) _)). Qed.

Lemma link_local_mask b0 b1 :
  is_byte b0 -> is_byte b1 ->
  ((b0 * 256 + b1) .& 65472 =? 65152) = (b0 =? 254) && (b1 .& 192 =? 128).
Proof.
  intros H0 H1. apply eqb_prop. revert b0 b1 H0 H1. apply (two_bytes_enum (fun b0 b1 => eqb _ _)).
  vm_compute. reflexivity.
Qed.

Lemma multicast_scope_mask b0 b1 k :
  is_byte b0 -> is_byte b1 -> k = 1 \/ k = 2 ->
  ((b0 * 256 + b1) .& 65295 =? 65280 + k) = (b0 =? 255) && (b1 .& 15 =? k).
Proof.
  intros H0 H1 [-> | ->]; apply eqb_prop; revert b0 b1 H0 H1; apply (two_bytes_enum (fun b0 b1 => eqb _ _));
    vm_compute; reflexivity.
Qed.

Lemma Equal_As16 ip b :
  u128_ok (addr ip) -> bytes_ok b -> len b = 16 ->
  Equal (As16 ip) b = bool_decide (addr ip = addr (AddrFrom16 b)).
Proof.
  intros [Hh Hl] Hb Hlen. unfold Equal. change (len (As16 ip)) with 16. rewrite Hlen. cbn [Z.eqb Pos.eqb].
  unfold bytes_equal. apply bool_decide_ext. split.
  - intros E. by rewrite <- E, AddrFrom16_As16.
  - intros E. rewrite <- (proj2 (As16_AddrFrom16 b Hb Hlen)). unfold As16. by rewrite E.
Qed.

Lemma loopback_As16 ip :
  u128_ok (addr ip) -> Equal (As16 ip) IPv6loopback = (hi (addr ip) =? 0) && (lo (addr ip) =? 1).
Proof.
  intros Hok. rewrite Equal_As16 by (done || lit). destruct (addr ip) as [h l]. simpl.
  change (beUint64 _) with 0 at 1. change (beUint64 [0; 0; 0; 0; 0; 0; 0; 1]) with 1.
  destruct (Z.eqb_spec h 0), (Z.eqb_spec l 1); simpl; case_bool_decide; naive_solver.
Qed.

Lemma AddrFrom4_eq a b c d w x y v :
  is_byte a -> is_byte b -> is_byte c -> is_byte d -> is_byte w -> is_byte x -> is_byte y -> is_byte v ->
  bool_decide (AddrFrom4 [a; b; c; d] = AddrFrom4 [w; x; y; v]) = bool_decide ([a; b; c; d] = [w; x; y; v]).
Proof.
  intros. apply bool_decide_ext. split; [|by intros [= -> -> -> ->]]. intros E.
  rewrite <- (put32_AddrFrom4 a b c d), <- (put32_AddrFrom4 w x y v) by done. by rewrite E.
Qed.

Lemma Equal_quad s w a b c d x y v :
  s = [a; b; c; d] \/ s = IPv4 a b c d ->
  Equal s (IPv4 w x y v) = bool_decide ([a; b; c; d] = [w; x; y; v]).
Proof.
  intros [-> | ->]; unfold Equal; simpl; unfold bytes_equal; simpl.
  - done.
  - apply bool_decide_ext. unfold IPv4, v4InV6Prefix. simpl. naive_solver.
Qed.

Section classes.
Context (ip : Addr) (Hwf : Addr_wf ip) (Hv : IsValid ip = true).

Ltac class_unmapped :=
  intros i; unfold Class.IsLoopback, Class.IsMulticast, Class.IsLinkLocalUnicast, Unmap;
  destruct (Is4In6 i) eqn:?; [done|]; by repeat match goal with E : Is4In6 _ = _ |- _ => rewrite E end.

(** Both kinds at once: the predicates of the two packages read the same bytes. *)
Ltac kinds :=
  destruct (addr_kinds ip Hwf Hv) as
    [(a & b & c & d & [Hb Ha Hs])|(b0 & b1 & rest & [Hb Ha (H4 & H6 & Hm) (Hs & Hs16) Ht Hf (Hf1 & Hf2)])];
  [ rewrite ?Ha; rewrite !Forall_cons in Hb; destruct Hb as (Hba & Hbb & Hbc & Hbd & _);
    change (Is4 (AddrFrom4 [a; b; c; d])) with true; cbv iota;
    destruct (v4_AddrFrom4 a b c d Hba Hbb Hbc Hbd) as (Hv0 & Hv1 & Hv2 & _); rewrite ?Hv0, ?Hv1, ?Hv2;
    assert (To4 (AsSlice ip) = Some [a; b; c; d]) as -> by (destruct Hs as [-> | ->]; apply To4_v4 || apply To4_IPv4)
  | rewrite ?Ha, ?H4, ?H6, ?Ht, ?Hf, ?Hf1, ?Hf2; rewrite !Forall_cons in Hb; destruct Hb as (Hb0 & Hb1 & _);
    assert (len (AsSlice ip) =? IPv6len = true) as Hlen by (by rewrite Hs16) ].

Lemma IsPrivate_agree : Class.IsPrivate ip = IsPrivate (AsSlice ip).
Proof using Hwf Hv. unfold Class.IsPrivate, IsPrivate. kinds; [done|]. by rewrite Hlen, Hs. Qed.

Lemma IsMulticast_agree : Class.IsMulticast ip = IsMulticast (AsSlice ip).
Proof using Hwf Hv. unfold Class.IsMulticast, IsMulticast. kinds; [done|]. by rewrite Hlen, Hs. Qed.

Lemma IsLinkLocalUnicast_agree : Class.IsLinkLocalUnicast ip = IsLinkLocalUnicast (AsSlice ip).
Proof using Hwf Hv.
  unfold Class.IsLinkLocalUnicast, IsLinkLocalUnicast. kinds; [done|]. rewrite Hlen, Hs. by apply link_local_mask.
Qed.

Lemma IsLinkLocalMulticast_agree : Class.IsLinkLocalMulticast ip = IsLinkLocalMulticast (AsSlice ip).
Proof using Hwf Hv.
  unfold Class.IsLinkLocalMulticast, IsLinkLocalMulticast. kinds; [done|]. rewrite Hlen, Hs.
  apply (multicast_scope_mask b0 b1 2); auto.
Qed.

Lemma IsLoopback_agree : Class.IsLoopback ip = IsLoopback (AsSlice ip).
Proof using Hwf Hv.
  unfold Class.IsLoopback, IsLoopback. kinds; [done|]. rewrite Hs16. symmetry. by apply loopback_As16, Addr_wf_ok.
Qed.

Lemma IsInterfaceLocalMulticast_agree :
  Class.IsInterfaceLocalMulticast ip = IsInterfaceLocalMulticast (AsSlice ip).
Proof using Hwf Hv.
  unfold Class.IsInterfaceLocalMulticast, IsInterfaceLocalMulticast.
  destruct (addr_kinds ip Hwf Hv) as
    [(a & b & c & d & [Hb Ha Hs])|(b0 & b1 & rest & [Hb Ha (H4 & H6 & Hm) (Hs & Hs16) Ht Hf _])].
  - destruct (Is6 ip && negb (Is4In6 ip)) eqn:E; [|by destruct Hs as [-> | ->]].
    apply andb_true_iff in E as [E6 Em%negb_true_iff]. rewrite Em in Ha. by rewrite Ha in E6.
  - rewrite H6, Hm, Hf. cbn [andb negb]. rewrite !Forall_cons in Hb. destruct Hb as (Hb0 & Hb1 & _).
    assert (len (AsSlice ip) =? IPv6len = true) as -> by (by rewrite Hs16). rewrite Hs.
    apply (multicast_scope_mask b0 b1 1); auto.
Qed.

Lemma IsGlobalUnicast_agree : Zone ip = [] -> Class.IsGlobalUnicast ip = IsGlobalUnicast (AsSlice ip).
Proof using Hwf Hv.
  intros Hz. unfold Class.IsGlobalUnicast, IsGlobalUnicast.
  rewrite <- IsLoopback_agree, <- IsMulticast_agree, <- IsLinkLocalUnicast_agree.
  assert (bool_decide (z ip = z0) = false) as -> by (unfold IsValid in Hv; by apply negb_true_iff).
  destruct (addr_kinds ip Hwf Hv) as
    [(a & b & c & d & [Hb Ha Hs])|(b0 & b1 & rest & [Hb Ha (H4 & H6 & Hm) (Hs & Hs16) Ht Hf _])].
  - assert (forall X : Addr -> bool, (forall i, X i = X (if Is4In6 i then Unmap i else i)) ->
      X ip = X (AddrFrom4 [a; b; c; d])) as HX by (intros X HX; by rewrite HX, Ha).
    rewrite !(HX Class.IsLoopback), !(HX Class.IsMulticast), !(HX Class.IsLinkLocalUnicast) by class_unmapped.
    rewrite Ha. change (Is4 (AddrFrom4 [a; b; c; d])) with true. cbn [andb].
    rewrite (bool_decide_false (AddrFrom4 [a; b; c; d] = IPv6Unspecified)) by (by intros E%(f_equal z)).
    cbn [negb andb].
    rewrite !Forall_cons in Hb. destruct Hb as (Hba & Hbb & Hbc & Hbd & _).
    unfold IPv4Unspecified. rewrite !AddrFrom4_eq by (unfold is_byte in *; lia).
    unfold IsUnspecified, IPv4bcast, IPv4zero. rewrite (Equal_quad _ 255 a b c d), (Equal_quad _ 0 a b c d) by done.
    assert (Equal (AsSlice ip) IPv6unspecified = false) as -> by (by destruct Hs as [-> | ->]).
    assert ((len (AsSlice ip) =? IPv4len) || (len (AsSlice ip) =? IPv6len) = true) as -> by (by destruct Hs as [-> | ->]).
    rewrite orb_false_r. repeat case_bool_decide; simplify_eq; done.
  - rewrite Ha, H4. cbn [andb]. unfold IsUnspecified.
    assert (forall w x y v, Equal (AsSlice ip) (IPv4 w x y v) = false) as HE.
    { intros w x y v. unfold Equal.
      assert (len (AsSlice ip) =? len (IPv4 w x y v) = true) as -> by (by rewrite Hs16). unfold bytes_equal.
      apply bool_decide_false. intros E. by rewrite E, To4_IPv4 in Ht. }
    unfold IPv4bcast, IPv4zero. rewrite !HE, Hs16. cbn [negb andb orb].
    rewrite Equal_As16 by ((by apply Addr_wf_ok) || done || lit).
    change ((len (As16 ip) =? IPv4len) || (len (As16 ip) =? IPv6len)) with true. cbn [andb].
    do 4 f_equal.
    apply bool_decide_ext. split; [by intros ->|]. intros E. apply Addr_ext; [|exact E].
    destruct Hwf as (_ & _ & Hn). unfold Is4, Is6, Zone in *. by destruct (z ip).
Qed.
End classes.

(** The class predicates of netip.Addr agree with those of net.IP: for every
    well-formed valid address, plain, mapped or IPv6, with or without a zone,
    IsLoopback, IsPrivate, IsMulticast, IsInterfaceLocalMulticast, IsLinkLocalMulticast
    and IsLinkLocalUnicast answer as the net.IP methods do on the bytes of the address,
    and so does IsGlobalUnicast for addresses without a zone. *)
Theorem netip_classes_agree ip :
  Addr_wf ip -> IsValid ip = true ->
  Class.IsLoopback ip = IsLoopback (AsSlice ip) /\
  Class.IsPrivate ip = IsPrivate (AsSlice ip) /\
  Class.IsMulticast ip = IsMulticast (AsSlice ip) /\
  Class.IsInterfaceLocalMulticast ip = IsInterfaceLocalMulticast (AsSlice ip) /\
  Class.IsLinkLocalMulticast ip = IsLinkLocalMulticast (AsSlice ip) /\
  Class.IsLinkLocalUnicast ip = IsLinkLocalUnicast (AsSlice ip) /\
  (Zone ip = [] -> Class.IsGlobalUnicast ip = IsGlobalUnicast (AsSlice ip)).
Proof.
  intros Hwf Hv. split_and!; auto using IsLoopback_agree, IsPrivate_agree, IsMulticast_agree,
    IsInterfaceLocalMulticast_agree, IsLinkLocalMulticast_agree, IsLinkLocalUnicast_agree, IsGlobalUnicast_agree.
Qed.

Lemma netip_classes_agree_witness :
  let ip := WithZone (AddrFrom16 [254; 128; 0; 0; 0; 0; 0; 0; 0; 0; 0; 0; 0; 0; 0; 1]) (str "eth0") in
  Class.IsLinkLocalUnicast ip = true /\ Class.IsLinkLocalUnicast ip = IsLinkLocalUnicast (AsSlice ip).
Proof.
  intros ip. split; [vm_compute; reflexivity|].
  refine (proj1 (proj2 (proj2 (proj2 (proj2 (proj2 (netip_classes_agree ip _ eq_refl))))))).
  vm_compute; split_and!; discriminate || done.
Defined.
