(* ===== verification/NetipText.v ===== *)
(** * net/netip: printing and parsing

    The text of an address, for every family, zero compression, mapped IPv4
    tails and zones, is parsed back to the address by [ParseAddr]. *)

From S2P Require Import Prelude ByteOrder HostPort NetIP NetipAddr NetipProps.
Local Open Scope go_scope.
Local Set Warnings "-clear-no-such-hyp".

(** ** One field *)

Definition hexs (f : Z) : gostring := appendHex [] f.

Lemma appendHex_app ret f : appendHex ret f = ret ++ hexs f.
Proof. unfold hexs, appendHex. repeat case_match; by rewrite <- ?app_assoc. Qed.

Lemma land_15 x : x .& 15 = x mod 16.
Proof. exact (land_ones_mod x 4 ltac:(lia)). Qed.

Lemma hexs_cases f :
  is_u16 f ->
  (f < 16 /\ hexs f = [digit f]) \/
  (16 <= f < 256 /\ hexs f = [digit (f / 16); digit (f mod 16)]) \/
  (256 <= f < 4096 /\ hexs f = [digit (f / 256); digit (f / 16 mod 16); digit (f mod 16)]) \/
  (4096 <= f /\ hexs f = [digit (f / 4096); digit (f / 256 mod 16); digit (f / 16 mod 16); digit (f mod 16)]).
Proof.
  intros Hf. unfold hexs, appendHex. cbv zeta. rewrite !land_15, !Z.shiftr_div_pow2 by lia.
  change (2 ^ 12) with 4096. change (2 ^ 8) with 256. change (2 ^ 4) with 16.
  destruct (Z.leb_spec 4096 f), (Z.leb_spec 256 f), (Z.leb_spec 16 f); try lia;
    [right; right; right|right; right; left|right; left|left]; (split; [lia|]); simpl;
    repeat (apply (f_equal2 cons); [f_equal; zlia|]); reflexivity.
Qed.

Lemma hex_value_digit v : 0 <= v < 16 -> hex_value (digit v) = Some v.
Proof.
  intros Hv. unfold hex_value, digit.
  destruct (Z.ltb_spec v 10).
  - rewrite (proj2 (Z.leb_le 48 _)), (proj2 (Z.leb_le _ 57)) by lia. cbn [andb]. f_equal. lia.
  - rewrite (proj2 (Z.leb_gt _ 57)) by lia. rewrite andb_false_r.
    rewrite (proj2 (Z.leb_le 97 _)), (proj2 (Z.leb_le _ 102)) by lia. cbn [andb]. f_equal. lia.
Qed.

(** What stops the reading of a field. *)
Definition stops (t : gostring) : Prop := match t with [] => True | c :: _ => hex_value c = None end.

Lemma hex_scan_digit v t off acc :
  0 <= v < 16 -> 0 <= acc -> acc * 16 + v < 65536 ->
  hex_scan (digit v :: t) off acc = hex_scan t (off + 1) (acc * 16 + v).
Proof.
  intros Hv Ha Hb. cbn [hex_scan]. rewrite hex_value_digit by done. cbv zeta.
  rewrite Z.shiftl_mul_pow2 by lia. change (2 ^ 4) with 16.
  assert (u32 (acc * 16) = acc * 16) as -> by (widths; zlia).
  by rewrite (proj2 (Z.ltb_ge 65535 _)) by lia.
Qed.

Lemma hex_scan_stops t off acc : stops t -> hex_scan t off acc = Some (off, acc).
Proof. destruct t as [|c t]; simpl; [done|]. by intros ->. Qed.

Lemma hex_scan_hexs f t : is_u16 f -> stops t -> hex_scan (hexs f ++ t) 0 0 = Some (len (hexs f), f).
Proof.
  intros Hf Ht. destruct (hexs_cases f Hf) as [[? ->]|[[? ->]|[[? ->]|[? ->]]]]; cbn [app];
    rewrite !hex_scan_digit by zlia; rewrite hex_scan_stops by done; do 2 f_equal; zlia.
Qed.

Lemma hexs_nonempty f : is_u16 f -> exists c r, hexs f = c :: r /\ hex_value c <> None.
Proof.
  intros Hf. destruct (hexs_cases f Hf) as [[? ->]|[[? ->]|[[? ->]|[? ->]]]]; do 2 eexists;
    (split; [done|]); by rewrite hex_value_digit by zlia.
Qed.

Lemma hexs_chars f : is_u16 f -> Forall (fun c => c <> dot /\ c <> colon /\ c <> percent) (hexs f).
Proof.
  intros Hf. assert (forall v, 0 <= v < 16 -> digit v <> dot /\ digit v <> colon /\ digit v <> percent) as Hd.
  { intros v Hv. unfold digit. destruct (v <? 10) eqn:E; zbool; lia. }
  destruct (hexs_cases f Hf) as [[? ->]|[[? ->]|[[? ->]|[? ->]]]]; repeat constructor; apply Hd; zlia.
Qed.

(** ** The fields of the text *)

Definition colons (l : list Z) : gostring := l ≫= (fun f => colon :: hexs f).
Definition join (l : list Z) : gostring := match l with [] => [] | f :: l => hexs f ++ colons l end.

Definition bytes_of (l : list Z) : gobytes := l ≫= (fun f => [u8 (f >> 8); u8 f]).

Lemma len_bytes_of l : len (bytes_of l) = 2 * len l.
Proof. induction l as [|f l IH]; [done|]. unfold bytes_of in *. cbn [mbind list_bind]. autorewrite with go. unfold len in *. simpl in *. lia. Qed.

(** Writing a field into the first two of the cells that are still zero. *)
Lemma put2_app (P : gobytes) (R : gobytes) i f :
  i = len P ->
  <[Z.to_nat (i + 1) := u8 f]> (<[Z.to_nat i := u8 (f >> 8)]> (P ++ 0 :: 0 :: R)) =
  (P ++ [u8 (f >> 8); u8 f]) ++ R.
Proof.
  intros ->. unfold len. replace (Z.to_nat (Z.of_nat (length P) + 1)) with (length P + 1)%nat by lia.
  rewrite Nat2Z.id. rewrite <- (Nat.add_0_r (length P)) at 2. rewrite !insert_app_r. simpl. by rewrite <- app_assoc.
Qed.

Lemma drop_len_app {A} (l r : list A) : drop (Z.to_nat (len l)) (l ++ r) = r.
Proof. unfold len. by rewrite Nat2Z.id, drop_app_length. Qed.

(** The head of a round of the loop, on a field that is not followed by a dot. *)
Lemma parseIPv6_round fuel inp f t P R i ellipsis :
  is_u16 f -> match t with [] => True | c :: _ => c = colon end -> i = len P -> i < 16 ->
  parseIPv6_loop (S fuel) inp (hexs f ++ t) (P ++ 0 :: 0 :: R) i ellipsis =
  let ip := (P ++ [u8 (f >> 8); u8 f]) ++ R in
  match t with
  | [] => Ok (ip, i + 2, ellipsis, [])
  | c :: [] => Err (ParseAddrError inp (str "colon must be followed by more characters") [c])
  | c :: c1 :: s =>
      if c1 =? colon then
        if 0 <=? ellipsis then Err (ParseAddrError inp (str "multiple :: in address") (c1 :: s))
        else match s with [] => Ok (ip, i + 2, i + 2, []) | _ => parseIPv6_loop fuel inp s ip (i + 2) (i + 2) end
      else parseIPv6_loop fuel inp (c1 :: s) ip (i + 2) ellipsis
  end.
Proof.
  intros Hf Ht Hi Hlt. cbn [parseIPv6_loop]. rewrite (proj2 (Z.leb_gt 16 i)) by lia.
  rewrite hex_scan_hexs by (done || (destruct t; [done|by subst])).
  destruct (hexs_nonempty f Hf) as (c0 & r0 & E0 & _).
  assert (0 < len (hexs f)) by (rewrite E0, len_cons; pose proof (len_nonneg r0); lia).
  rewrite (proj2 (Z.eqb_neq _ 0)) by lia.
  assert ((len (hexs f) <? len (hexs f ++ t)) && (at_ (hexs f ++ t) (Z.to_nat (len (hexs f))) =? dot) = false) as ->.
  { destruct t as [|c t]; [rewrite app_nil_r, Z.ltb_irrefl; done|]. subst c.
    unfold at_, len. rewrite Nat2Z.id, app_nth2, Nat.sub_diag by lia. apply andb_false_r. }
  rewrite put2_app, drop_len_app by done. cbv zeta. destruct t as [|c [|c1 t]]; [done|by subst|]. subst c. done.
Qed.

(** ** Lists of fields *)

Lemma hexs_head f : is_u16 f -> exists c r, hexs f = c :: r /\ c <> colon.
Proof.
  intros Hf. destruct (hexs_nonempty f Hf) as (c & r & E & _). exists c, r. split; [done|].
  pose proof (hexs_chars f Hf) as Hc. rewrite E in Hc. by apply Forall_cons in Hc as [(_ & ? & _) _].
Qed.

(** What the loop does after the fields: it is done, or meets the ellipsis. *)
Definition after_fields (fuel : nat) (inp t ip : gobytes) (i ellipsis : Z) : result (gobytes * Z * Z * gostring) :=
  match t with
  | _ :: _ :: s => match s with [] => Ok (ip, i, i, []) | _ => parseIPv6_loop fuel inp s ip i i end
  | _ => Ok (ip, i, ellipsis, [])
  end.

Lemma parseIPv6_fields l f fuel inp t P m ellipsis :
  Forall (fun f => is_u16 f) (f :: l) -> len P + 2 * len (f :: l) <= 16 ->
  t = [] \/ (exists s, t = colon :: colon :: s) /\ ellipsis < 0 ->
  parseIPv6_loop (length (f :: l) + fuel) inp (hexs f ++ colons l ++ t)
    (P ++ repeat 0 (2 * length (f :: l) + m)) (len P) ellipsis =
  after_fields fuel inp t ((P ++ bytes_of (f :: l)) ++ repeat 0 m) (len P + 2 * len (f :: l)) ellipsis.
Proof.
  revert f P. induction l as [|g l IH]; intros f P Hl Hlen Ht; apply Forall_cons in Hl as [Hf Hl].
  - cbn [length Nat.add colons mbind list_bind app]. rewrite len_cons in Hlen. change (len []) with 0 in Hlen.
    cbn [repeat Nat.mul Nat.add]. rewrite parseIPv6_round; [|done|destruct Ht as [-> | [[s ->] _]]; done|done|lia].
    cbv zeta. unfold after_fields. cbn [bytes_of mbind list_bind app].
    destruct Ht as [-> | [[s ->] He]]; [done|]. rewrite Z.eqb_refl, (proj2 (Z.leb_gt 0 _)) by lia. done.
  - pose proof Hl as [Hg _]%Forall_cons. destruct (hexs_head g Hg) as (c & r & Ec & Hc).
    cbn [colons mbind list_bind app length]. rewrite !len_cons in *. pose proof (len_nonneg l).
    rewrite <- app_assoc. cbn [app].
    replace (2 * S (S (length l)) + m)%nat with (S (S (2 * S (length l) + m))) by lia. cbn [repeat Nat.add].
    rewrite parseIPv6_round by (done || lia). cbv zeta. rewrite Ec. cbn [app].
    rewrite (proj2 (Z.eqb_neq c colon)) by done.
    change (c :: r ++ ?x) with ((c :: r) ++ x). rewrite <- Ec.
    replace (len P + 2) with (len (P ++ [u8 (f >> 8); u8 f])) by (rewrite len_app; done).
    change (mbind (fun f => colon :: hexs f) l) with (colons l).
    change (S (length l + fuel)) with (length (g :: l) + fuel)%nat.
    change (S (length l)) with (length (g :: l)).
    rewrite IH; [|done|rewrite len_app, !len_cons; change (@len Z []) with 0; lia|done].
    f_equal.
    + cbn [bytes_of mbind list_bind]. by rewrite <- !app_assoc.
    + rewrite len_app, !len_cons. change (@len Z []) with 0. lia.
Qed.

(** ** Expanding the ellipsis *)

Lemma insert_at_end (A B : gobytes) x y i :
  i = len A -> <[Z.to_nat i := y]> (A ++ x :: B) = A ++ y :: B.
Proof.
  intros ->. unfold len. rewrite Nat2Z.id. rewrite <- (Nat.add_0_r (length A)). by rewrite insert_app_r.
Qed.

Lemma at_mid (A B : gobytes) x i : i = len A -> at_ (A ++ x :: B) (Z.to_nat i) = x.
Proof. intros ->. unfold at_, len. by rewrite Nat2Z.id, app_nth2, Nat.sub_diag by lia. Qed.

Lemma shift_fields_spec (B A X S : gobytes) :
  X <> [] ->
  exists Y, len Y = len X /\
    shift_fields (length B) (A ++ B ++ X ++ S) (len A + len B - 1) (len X) = A ++ Y ++ B ++ S.
Proof.
  revert X S. induction B as [|b B IH] using rev_ind; intros X S HX.
  { exists X. done. }
  destruct X as [|x0 X] using rev_ind; [done|]. clear IHX HX.
  rewrite length_app. simpl (length [b]). rewrite Nat.add_comm. cbn [Nat.add shift_fields].
  rewrite !len_app. change (len [b]) with 1. change (len [x0]) with 1.
  assert (at_ (A ++ (B ++ [b]) ++ (X ++ [x0]) ++ S) (Z.to_nat (len A + (len B + 1) - 1)) = b) as ->.
  { replace (A ++ (B ++ [b]) ++ (X ++ [x0]) ++ S) with ((A ++ B) ++ b :: (X ++ [x0]) ++ S)
      by (by rewrite <- !app_assoc). apply at_mid. rewrite len_app. lia. }
  replace (A ++ (B ++ [b]) ++ (X ++ [x0]) ++ S) with ((A ++ B ++ b :: X) ++ x0 :: S)
    by (by rewrite <- !app_assoc).
  rewrite insert_at_end by (rewrite !len_app, len_cons; lia).
  destruct (IH (b :: X) (b :: S)) as (Y & HY & E); [done|]. exists Y. split; [rewrite HY, len_cons; lia|].
  rewrite len_cons in E. rewrite <- (app_assoc B). cbn [app]. rewrite <- E.
  f_equal; [|lia|lia]. by rewrite <- !app_assoc.
Qed.

Lemma zero_fields_spec (X A R : gobytes) :
  zero_fields (length X) (A ++ X ++ R) (len A + len X - 1) = A ++ repeat 0 (length X) ++ R.
Proof.
  revert R. induction X as [|x X IH] using rev_ind; intros R; [done|].
  rewrite length_app. simpl (length [x]). rewrite Nat.add_comm. cbn [Nat.add zero_fields].
  rewrite len_app. change (len [x]) with 1.
  replace (A ++ (X ++ [x]) ++ R) with ((A ++ X) ++ x :: R) by (by rewrite <- !app_assoc).
  rewrite insert_at_end by (rewrite len_app; lia). rewrite <- app_assoc. cbn [app].
  replace (len A + (len X + 1) - 1 - 1) with (len A + len X - 1) by lia. rewrite IH.
  change (repeat 0 (S (length X))) with (0 :: repeat 0 (length X)). rewrite repeat_cons, <- app_assoc. done.
Qed.

(** ** Parsing a text of fields *)

Lemma parse_expanded inp s zn e0 (A B : gobytes) m :
  parseIPv6_loop 8 inp s (repeat 0 16) 0 e0 = Ok ((A ++ B) ++ repeat 0 m, len A + len B, len A, []) ->
  len A + len B + Z.of_nat m = 16 -> (0 < m)%nat ->
  parseIPv6_addr inp s zn e0 = Ok (WithZone (AddrFrom16 (A ++ repeat 0 m ++ B)) zn).
Proof.
  intros E Hlen Hm. unfold parseIPv6_addr. rewrite E. cbn [negb bool_decide decide_rel].
  rewrite bool_decide_true by done. cbn [negb]. pose proof (len_nonneg A).
  rewrite (proj2 (Z.ltb_lt _ 16)), (proj2 (Z.ltb_ge _ 0)) by lia. cbv zeta.
  assert (len (repeat 0 m) = Z.of_nat m) as Hr by (unfold len; by rewrite repeat_length).
  replace (Z.to_nat (len A + len B - len A)) with (length B) by (unfold len; lia).
  replace (16 - (len A + len B)) with (len (repeat 0 m)) by lia.
  assert ((A ++ B) ++ repeat 0 m = A ++ B ++ repeat 0 m ++ []) as -> by (by rewrite app_nil_r, app_assoc).
  destruct (shift_fields_spec B A (repeat 0 m) []) as (Y & HY & ->); [destruct m; [lia|done]|].
  rewrite <- HY. replace (Z.to_nat (len Y)) with (length Y) by (unfold len; lia).
  rewrite zero_fields_spec. replace (length Y) with m by (unfold len in *; lia). by rewrite app_nil_r.
Qed.

Lemma parse_all inp f l zn :
  Forall (fun f => is_u16 f) (f :: l) -> len (f :: l) = 8 ->
  parseIPv6_addr inp (join (f :: l)) zn (-1) = Ok (WithZone (AddrFrom16 (bytes_of (f :: l))) zn).
Proof.
  intros Hl Hlen. unfold parseIPv6_addr. cbn [join]. rewrite <- (app_nil_r (colons l)).
  assert (length (f :: l) = 8%nat) as Hn by (unfold len in Hlen; lia).
  pose proof (parseIPv6_fields l f 0 inp [] [] 0 (-1) Hl) as HF. rewrite Hn, Hlen in HF.
  change (8 + 0)%nat with 8%nat in HF. change (2 * 8 + 0)%nat with 16%nat in HF. cbn [app] in HF.
  change (@len Z []) with 0 in HF. rewrite HF; [|lia|by left].
  cbn [after_fields repeat app]. rewrite app_nil_r. done.
Qed.

Lemma parse_start inp f l zn :
  Forall (fun f => is_u16 f) (f :: l) -> len (f :: l) < 8 ->
  parseIPv6_addr inp (join (f :: l)) zn 0 =
  Ok (WithZone (AddrFrom16 (repeat 0 (16 - 2 * length (f :: l)) ++ bytes_of (f :: l))) zn).
Proof.
  intros Hl Hlen. set (n := length (f :: l)) in *. assert (n < 8)%nat as Hn by (unfold len in Hlen; lia).
  apply (parse_expanded inp _ zn 0 [] (bytes_of (f :: l)) (16 - 2 * n)); [|rewrite len_bytes_of; unfold len in *; simpl length in *; lia|lia].
  cbn [join]. rewrite <- (app_nil_r (colons l)).
  pose proof (parseIPv6_fields l f (8 - n) inp [] [] (16 - 2 * n) 0 Hl) as HF. fold n in HF.
  replace (n + (8 - n))%nat with 8%nat in HF by lia. replace (2 * n + (16 - 2 * n))%nat with 16%nat in HF by lia.
  change (@len Z []) with 0 in *. cbn [app] in HF. rewrite HF by (lia || by left). cbn [after_fields].
  rewrite len_bytes_of. done.
Qed.

Lemma parse_middle inp f l B zn :
  Forall (fun f => is_u16 f) (f :: l) -> Forall (fun f => is_u16 f) B -> len (f :: l) + len B < 8 ->
  parseIPv6_addr inp (join (f :: l) ++ colon :: colon :: join B) zn (-1) =
  Ok (WithZone (AddrFrom16 (bytes_of (f :: l) ++ repeat 0 (16 - 2 * length (f :: l) - 2 * length B) ++ bytes_of B)) zn).
Proof.
  intros Hl HB Hlen. set (n := length (f :: l)) in *. assert (n + length B < 8)%nat as Hn by (unfold len in Hlen; lia).
  assert (len (f :: l) = Z.of_nat n) as Hln by done.
  apply parse_expanded; [|rewrite !len_bytes_of; unfold len in *; lia|lia].
  cbn [join]. rewrite <- app_assoc.
  pose proof (parseIPv6_fields l f (8 - n) inp (colon :: colon :: join B) [] (16 - 2 * n) (-1) Hl) as HF. fold n in HF.
  replace (n + (8 - n))%nat with 8%nat in HF by lia. replace (2 * n + (16 - 2 * n))%nat with 16%nat in HF by lia.
  change (@len Z []) with 0 in *. cbn [app] in HF.
  rewrite HF; [|lia|right; split; [by eexists|lia]]. cbn [after_fields]. rewrite !len_bytes_of.
  destruct B as [|g B].
  - cbn [join bytes_of mbind list_bind]. rewrite app_nil_r. cbn [length]. change (@len Z []) with 0.
    replace (16 - 2 * n - 2 * 0)%nat with (16 - 2 * n)%nat by lia. do 3 f_equal; lia.
  - destruct (hexs_head g) as (c & r & Ec & _); [by apply Forall_cons in HB as [? _]|].
    cbn [join]. rewrite Ec. cbn [app]. change (c :: r ++ colons B) with ((c :: r) ++ colons B). rewrite <- Ec.
    rewrite <- (app_nil_r (colons B)).
    pose proof (parseIPv6_fields B g (8 - n - length (g :: B)) inp [] (bytes_of (f :: l))
      (16 - 2 * n - 2 * length (g :: B)) (2 * len (f :: l)) HB) as HG.
    replace (length (g :: B) + (8 - n - length (g :: B)))%nat with (8 - n)%nat in HG by lia.
    replace (2 * length (g :: B) + (16 - 2 * n - 2 * length (g :: B)))%nat with (16 - 2 * n)%nat in HG by lia.
    rewrite !len_bytes_of in HG. rewrite !Z.add_0_l, HG; [|unfold len in *; lia|by left]. cbn [after_fields].
    done.
Qed.

(** ** Printing *)

(** The fields [i], ..., [i + n - 1] of an address. *)
Definition fields_from (ip : Addr) (i n : Z) : list Z := v6u16 ip <$> seqZ i n.

Lemma fields_from_cons ip i n : 0 < n -> fields_from ip i n = v6u16 ip i :: fields_from ip (i + 1) (n - 1).
Proof. intros Hn. unfold fields_from. rewrite seqZ_cons by lia. done. Qed.

Lemma fields_from_nil ip i : fields_from ip i 0 = [].
Proof. done. Qed.

Lemma fields_from_app ip i n m :
  0 <= n -> 0 <= m -> fields_from ip i (n + m) = fields_from ip i n ++ fields_from ip (i + n) m.
Proof. intros. unfold fields_from. rewrite seqZ_app by lia. apply fmap_app. Qed.

Lemma fields_from_length ip i n : 0 <= n -> len (fields_from ip i n) = n.
Proof. intros. unfold fields_from, len. rewrite length_fmap, length_seqZ. lia. Qed.

Lemma fields_from_u16 ip i n : Forall (fun f => is_u16 f) (fields_from ip i n).
Proof. apply Forall_fmap, Forall_true. intros j. unfold v6u16, compose. widths. zlia. Qed.

Lemma print_tail ip zs ze k i ret :
  0 < i <= 8 -> 8 - i <= Z.of_nat k -> zs < i \/ 8 <= zs ->
  print_fields ip k i zs ze ret = ret ++ colons (fields_from ip i (8 - i)).
Proof.
  revert i ret. induction k as [|k IH]; intros i ret Hi Hk Hz.
  { replace i with 8 by lia. simpl. by rewrite app_nil_r. }
  cbn [print_fields]. destruct (Z.leb_spec 8 i).
  { replace i with 8 by lia. simpl. by rewrite app_nil_r. }
  rewrite (proj2 (Z.eqb_neq i zs)), (proj2 (Z.ltb_lt 0 i)) by lia.
  rewrite IH, appendHex_app, (fields_from_cons ip i) by lia.
  replace (8 - i - 1) with (8 - (i + 1)) by lia. cbn [colons mbind list_bind]. by rewrite <- !app_assoc.
Qed.

Lemma print_head ip zs ze k i ret :
  0 <= i <= zs -> zs + 2 <= ze <= 8 -> 8 - i <= Z.of_nat k -> 0 < i \/ i = zs ->
  print_fields ip k i zs ze ret =
    ret ++ colons (fields_from ip i (zs - i)) ++ colon :: colon :: join (fields_from ip ze (8 - ze)).
Proof.
  revert i ret. induction k as [|k IH]; intros i ret Hi Hze Hk H0; [lia|].
  cbn [print_fields]. rewrite (proj2 (Z.leb_gt 8 i)) by lia.
  destruct (Z.eqb_spec i zs) as [->|Hne].
  - rewrite Z.sub_diag. cbv zeta. destruct (Z.leb_spec 8 ze).
    { replace ze with 8 by lia. done. }
    rewrite print_tail by lia. rewrite appendHex_app, (fields_from_cons ip ze) by lia.
    replace (8 - ze - 1) with (8 - (ze + 1)) by lia. cbn [join]. by rewrite <- !app_assoc.
  - rewrite (proj2 (Z.ltb_lt 0 i)) by lia. rewrite IH by lia. rewrite appendHex_app, (fields_from_cons ip i) by lia.
    replace (zs - i - 1) with (zs - (i + 1)) by lia. cbn [colons mbind list_bind]. rewrite <- !app_assoc. done.
Qed.

Lemma print_first ip zs ze k ret :
  zs <> 0 -> print_fields ip (S k) 0 zs ze ret = print_fields ip k 1 zs ze (appendHex ret (v6u16 ip 0)).
Proof. intros Hz. cbn [print_fields]. by rewrite (proj2 (Z.eqb_neq 0 zs)) by lia. Qed.

(** A run of zero fields worth compressing, or none. *)
Definition zero_range (ip : Addr) (zs ze : Z) : Prop :=
  (zs = 255 /\ ze = 255) \/
  (0 <= zs /\ zs + 2 <= ze <= 8 /\ forall j, zs <= j < ze -> v6u16 ip j = 0).

Lemma zero_run_spec ip k j :
  j <= zero_run ip k j <= j + Z.of_nat k /\ forall x, j <= x < zero_run ip k j -> v6u16 ip x = 0.
Proof.
  revert j. induction k as [|k IH]; intros j; cbn [zero_run]; [split; [lia|]; intros; lia|].
  destruct (Z.eqb_spec (v6u16 ip j) 0) as [E|E]; [|split; [lia|]; intros; lia].
  destruct (IH (j + 1)) as [Hb Hz]. split; [lia|]. intros x Hx.
  destruct (decide (x = j)) as [->|]; [done|]. apply Hz. lia.
Qed.

Lemma longest_run_spec ip k i zs ze :
  0 <= i -> i + Z.of_nat k = 8 -> zero_range ip zs ze ->
  let '(zs', ze') := longest_run ip k i zs ze in zero_range ip zs' ze'.
Proof.
  revert i zs ze. induction k as [|k IH]; intros i zs ze Hi Hk Hz; [done|].
  cbn [longest_run]. destruct (zero_run_spec ip (S k) i) as [Hb Hrun]. cbv zeta.
  destruct (_ && _) eqn:E; apply IH; try lia; [|done]. zbool. right. split_and!; try lia. exact Hrun.
Qed.

(** The text of an IPv6 address without its zone: all fields, or those before and
    after an ellipsis. *)
Lemma string6_text ip :
  let text := print_fields ip 8 0 (longest_run ip 8 0 255 255).1 (longest_run ip 8 0 255 255).2 [] in
  text = join (fields_from ip 0 8) \/
  (exists zs ze, 0 <= zs /\ zs + 2 <= ze <= 8 /\ (forall j, zs <= j < ze -> v6u16 ip j = 0) /\
     text = join (fields_from ip 0 zs) ++ colon :: colon :: join (fields_from ip ze (8 - ze))).
Proof.
  pose proof (longest_run_spec ip 8 0 255 255 ltac:(lia) eq_refl (or_introl (conj eq_refl eq_refl))) as Hz.
  destruct (longest_run ip 8 0 255 255) as [zs ze]. cbn [fst snd]. cbv zeta.
  destruct Hz as [[-> ->]|(H0 & Hr & Hz)]; [left|right].
  - rewrite print_first by lia. rewrite print_tail by lia. rewrite (fields_from_cons ip 0) by lia. done.
  - exists zs, ze. split; [done|]. split; [done|]. split; [done|]. destruct (decide (zs = 0)) as [->|].
    + rewrite print_head by lia. done.
    + rewrite print_first by lia. rewrite print_head by lia.
      rewrite (fields_from_cons ip 0) by lia. cbn [join]. rewrite <- app_assoc. done.
Qed.

(** The bytes of the fields are the bytes of the address. *)
Lemma bytes_of_app l1 l2 : bytes_of (l1 ++ l2) = bytes_of l1 ++ bytes_of l2.
Proof. apply bind_app. Qed.

Lemma field_bytes h k : 0 <= k -> [u8 (u16 (h >> k) >> 8); u8 (u16 (h >> k))] = [u8 (h >> (k + 8)); u8 (h >> k)].
Proof.
  intros Hk. rewrite <- Z.shiftr_shiftr by lia. generalize (h >> k). intros q.
  rewrite !Z.shiftr_div_pow2 by lia. widths. cells_eq.
Qed.

Lemma bytes_of_fields ip : bytes_of (fields_from ip 0 8) = As16 ip.
Proof.
  unfold As16. rewrite !put64_cells.
  change (fields_from ip 0 8) with [u16 (hi (addr ip) >> 48); u16 (hi (addr ip) >> 32); u16 (hi (addr ip) >> 16);
    u16 (hi (addr ip) >> 0); u16 (lo (addr ip) >> 48); u16 (lo (addr ip) >> 32); u16 (lo (addr ip) >> 16);
    u16 (lo (addr ip) >> 0)].
  unfold bytes_of. cbn [mbind list_bind]. rewrite !field_bytes by lia. done.
Qed.

Lemma bytes_of_zeros ip i n :
  0 <= n -> (forall j, i <= j < i + n -> v6u16 ip j = 0) ->
  bytes_of (fields_from ip i n) = repeat 0 (2 * Z.to_nat n).
Proof.
  intros Hn. pattern n. revert i. revert n Hn. apply (natlike_ind (fun n => forall i, _)).
  - done.
  - intros n Hn IH i Hz. rewrite fields_from_cons by lia. rewrite Hz by lia.
    replace (Z.succ n - 1) with n by lia. unfold bytes_of in *. cbn [mbind list_bind].
    rewrite IH by (intros; apply Hz; lia). rewrite Z2Nat.inj_succ by lia.
    replace (2 * S (Z.to_nat n))%nat with (S (S (2 * Z.to_nat n))) by lia. done.
Qed.

(** ** The round trip *)

Lemma ParseAddr_skip s p rest :
  Forall (fun c => c <> dot /\ c <> colon /\ c <> percent) p ->
  ParseAddr_loop s (p ++ rest) = ParseAddr_loop s rest.
Proof.
  induction 1 as [|c p (Hd & Hc & Hp) _ IH]; [done|]. cbn [app ParseAddr_loop].
  by rewrite (proj2 (Z.eqb_neq c dot)), (proj2 (Z.eqb_neq c colon)), (proj2 (Z.eqb_neq c percent)).
Qed.

Definition with_zone (t zn : gostring) : gostring := match zn with [] => t | _ => t ++ percent :: zn end.

(** parseIPv6 once the zone is split off. *)
Definition parse_unzoned (inp t zn : gostring) : result Addr :=
  match t with
  | c0 :: c1 :: s' =>
      if (c0 =? colon) && (c1 =? colon) then
        match s' with [] => Ok (WithZone IPv6Unspecified zn) | _ => parseIPv6_addr inp s' zn 0 end
      else parseIPv6_addr inp t zn (-1)
  | _ => parseIPv6_addr inp t zn (-1)
  end.

Lemma parseIPv6_zoned t zn :
  percent ∉ t -> parseIPv6 (with_zone t zn) = parse_unzoned (with_zone t zn) t zn.
Proof.
  intros Ht. unfold parseIPv6, with_zone, parse_unzoned. destruct zn as [|z0 zn].
  - destruct (IndexByteString_spec t percent) as [[_ ->]|(l1 & l2 & -> & _)]; [done|]. set_solver.
  - rewrite IndexByteString_first by done. pose proof (len_nonneg t).
    rewrite (proj2 (Z.eqb_neq _ (-1))) by lia. cbn [negb andb].
    assert (take (Z.to_nat (len t)) (t ++ percent :: z0 :: zn) = t) as ->
      by (unfold len; rewrite Nat2Z.id; apply take_app_length).
    assert (drop (Z.to_nat (len t + 1)) (t ++ percent :: z0 :: zn) = z0 :: zn) as ->.
    { unfold len. replace (Z.to_nat (Z.of_nat (length t) + 1)) with (length t + 1)%nat by lia. by rewrite drop_app_add. }
    by rewrite bool_decide_false.
Qed.

Lemma parse_unzoned_plain inp t zn c r :
  t = c :: r -> c <> colon -> parse_unzoned inp t zn = parseIPv6_addr inp t zn (-1).
Proof. intros -> Hc. unfold parse_unzoned. destruct r; [done|]. by rewrite (proj2 (Z.eqb_neq c colon)). Qed.

Lemma join_head f l : is_u16 f -> exists c r, join (f :: l) = c :: r /\ c <> colon.
Proof. intros Hf. destruct (hexs_head f Hf) as (c & r & E & Hc). cbn [join]. rewrite E. cbn [app]. eauto. Qed.

Lemma join_no_percent l : Forall (fun f => is_u16 f) l -> percent ∉ join l.
Proof.
  assert (forall f, is_u16 f -> percent ∉ hexs f) as Hh.
  { intros f Hf Hin. pose proof (hexs_chars f Hf) as Hc. rewrite Forall_forall in Hc. by apply Hc in Hin as (_ & _ & ?). }
  assert (forall l, Forall (fun f => is_u16 f) l -> percent ∉ colons l) as Hcs.
  { induction 1 as [|f l' Hf _ IH]; [apply not_elem_of_nil|]. cbn [colons mbind list_bind].
    specialize (Hh f Hf). unfold colons in IH. rewrite elem_of_app, elem_of_cons. intros [[?|?]|?]; done. }
  destruct 1 as [|f l' Hf Hl']; [apply not_elem_of_nil|]. cbn [join]. rewrite elem_of_app.
  intros [?|?]; [by eapply Hh|by eapply Hcs].
Qed.

(** The 16 bytes around an ellipsis. *)
Lemma As16_ellipsis ip zs ze :
  0 <= zs -> zs + 2 <= ze <= 8 -> (forall j, zs <= j < ze -> v6u16 ip j = 0) ->
  As16 ip = bytes_of (fields_from ip 0 zs) ++
    repeat 0 (16 - 2 * length (fields_from ip 0 zs) - 2 * length (fields_from ip ze (8 - ze))) ++
    bytes_of (fields_from ip ze (8 - ze)).
Proof.
  intros H0 Hr Hz. rewrite <- bytes_of_fields. replace 8 with (zs + ((ze - zs) + (8 - ze))) at 1 by lia.
  rewrite !fields_from_app, !bytes_of_app by lia. rewrite (bytes_of_zeros ip (0 + zs)) by (intros; (lia || apply Hz; lia)).
  replace (0 + zs + (ze - zs)) with ze by lia. do 3 f_equal.
  pose proof (fields_from_length ip 0 zs H0). pose proof (fields_from_length ip ze (8 - ze) ltac:(lia)).
  unfold len in *. lia.
Qed.

Lemma parse_fields_text ip zn :
  let text := print_fields ip 8 0 (longest_run ip 8 0 255 255).1 (longest_run ip 8 0 255 255).2 [] in
  percent ∉ text /\ (exists p r, text = p ++ colon :: r /\ Forall (fun c => c <> dot /\ c <> colon /\ c <> percent) p) /\
  forall inp, parse_unzoned inp text zn = Ok (WithZone (AddrFrom16 (As16 ip)) zn).
Proof.
  cbv zeta. destruct (string6_text ip) as [->|(zs & ze & H0 & Hr & Hz & ->)].
  - pose proof (fields_from_u16 ip 0 8) as Hu. rewrite <- bytes_of_fields.
    split; [by apply join_no_percent|]. rewrite (fields_from_cons ip 0) in * by lia.
    pose proof Hu as [Hf _]%Forall_cons. split.
    + rewrite (fields_from_cons ip (0 + 1)) by lia. cbn [join colons mbind list_bind app].
      do 2 eexists. split; [done|by apply hexs_chars].
    + intros inp. destruct (join_head (v6u16 ip 0) (fields_from ip (0 + 1) (8 - 1)) Hf) as (c & r & E & Hc).
      rewrite (parse_unzoned_plain _ _ _ _ _ E Hc). apply parse_all; [done|].
      rewrite len_cons, fields_from_length; lia.
  - pose proof (fields_from_u16 ip 0 zs) as HA. pose proof (fields_from_u16 ip ze (8 - ze)) as HB.
    split.
    { pose proof (join_no_percent _ HA). pose proof (join_no_percent _ HB).
      rewrite elem_of_app, !elem_of_cons. intros [?|[?|[?|?]]]; done. }
    rewrite (As16_ellipsis ip zs ze) by done.
    pose proof (fields_from_length ip 0 zs H0) as LA. pose proof (fields_from_length ip ze (8 - ze) ltac:(lia)) as LB.
    destruct (decide (zs = 0)) as [->|Hne].
    + rewrite fields_from_nil. cbn [join app bytes_of mbind list_bind]. split.
      { exists [], (colon :: join (fields_from ip ze (8 - ze))). by split. }
      intros inp. cbn [parse_unzoned]. rewrite !Z.eqb_refl. cbn [andb].
      destruct (fields_from ip ze (8 - ze)) as [|g B] eqn:EB; [done|].
      pose proof HB as [Hg _]%Forall_cons. destruct (join_head g B Hg) as (c & r & E & _).
      rewrite E. rewrite <- E. rewrite parse_start by (done || lia). do 3 f_equal.
    + rewrite (fields_from_cons ip 0) in * by lia. set (l := fields_from ip (0 + 1) (zs - 1)) in *.
      pose proof HA as [Hf _]%Forall_cons. split.
      { cbn [join]. destruct l as [|g l']; cbn [colons mbind list_bind]; rewrite <- ?app_assoc; cbn [app];
          do 2 eexists; (split; [done|by apply hexs_chars]). }
      intros inp. destruct (join_head (v6u16 ip 0) l Hf) as (c & r & E & Hc).
      erewrite parse_unzoned_plain; [|rewrite E; cbn [app]; reflexivity|done].
      apply parse_middle; [done|done|lia].
Qed.

Lemma WithZone_zone ip : Addr_wf ip -> Is6 ip = true -> WithZone (mk_Addr (addr ip) z6noz) (Zone ip) = ip.
Proof.
  intros (_ & _ & Hz) H6. unfold WithZone, Is6, Zone in *. destruct ip as [u zn]. cbn [z addr] in *.
  destruct zn as [| | |name]; try done. simpl. by rewrite bool_decide_false.
Qed.

(** The text of an address in the mapped form. *)
Lemma dec_hex x t : is_byte x -> stops t -> exists acc, hex_scan (dec x ++ t) 0 0 = Some (len (dec x), acc).
Proof.
  unfold is_byte. intros Hx Ht. assert (forall y, y < 10 -> 48 + y = digit y) as Hd
    by (intros y Hy; unfold digit; by rewrite (proj2 (Z.ltb_lt y 10))).
  destruct (dec_cases x Hx) as [[? ->]|[[? ->]|[? ->]]]; cbn [app]; rewrite !Hd by zlia;
    rewrite !hex_scan_digit by zlia; rewrite hex_scan_stops by done; eauto.
Qed.

Lemma dec_no_special x : is_byte x -> Forall (fun c => c <> dot /\ c <> colon /\ c <> percent) (dec x).
Proof. intros Hx. eapply Forall_impl; [by apply dec_digits|]. simpl. intros c Hc. lia. Qed.

Lemma parse_embedded inp a b c d zn :
  is_byte a -> is_byte b -> is_byte c -> is_byte d ->
  parseIPv6_addr inp (str "ffff:" ++ string4 (AddrFrom4 [a; b; c; d])) zn 0 =
  Ok (WithZone (AddrFrom16 (IPv4 a b c d)) zn).
Proof.
  intros Ha Hb Hc Hd. change (IPv4 a b c d) with ([] ++ repeat 0 10 ++ [255; 255; a; b; c; d]).
  apply (parse_expanded inp _ zn 0 [] [255; 255; a; b; c; d] 10); [|done|lia].
  set (q := string4 _). assert (exists c0 r, q = c0 :: r /\ c0 <> colon) as (c0 & r & Eq & Hc0).
  { unfold q. rewrite string4_AddrFrom4 by done. pose proof (dec_no_special a Ha) as Hs.
    pose proof (dec_nonempty a). destruct (dec a) as [|c0 r]; [done|]. apply Forall_cons in Hs as [(_ & ? & _) _].
    cbn [app]. eauto. }
  change (str "ffff:" ++ q) with (hexs 65535 ++ colon :: q).
  change (repeat 0 16) with ([] ++ 0 :: 0 :: repeat 0 14). rewrite parseIPv6_round by (done || lia).
  cbv zeta. rewrite Eq. rewrite (proj2 (Z.eqb_neq c0 colon)) by done. rewrite <- Eq.
  cbn [parseIPv6_loop]. change (16 <=? 0 + 2) with false. cbv iota.
  pose proof (parseIPv4_complete a b c d Ha Hb Hc Hd) as H4. fold q in H4.
  assert (exists acc, hex_scan q 0 0 = Some (len (dec a), acc)) as (acc & ->).
  { unfold q. rewrite string4_AddrFrom4 by done. by apply dec_hex. }
  assert (0 < len (dec a)) by (pose proof (dec_nonempty a); destruct (dec a); [done|];
    rewrite len_cons; pose proof (len_nonneg l); lia).
  rewrite (proj2 (Z.eqb_neq _ 0)) by lia.
  assert ((len (dec a) <? len q) && (at_ q (Z.to_nat (len (dec a))) =? dot) = true) as ->.
  { unfold q. rewrite string4_AddrFrom4, at_mid by done. rewrite andb_true_r. apply Z.ltb_lt.
    rewrite len_app, len_cons. pose proof (len_nonneg (dec b ++ dot :: dec c ++ dot :: dec d)). lia. }
  rewrite H4. destruct (v4_AddrFrom4 a b c d Ha Hb Hc Hd) as (-> & -> & -> & ->). done.
Qed.

(** Printing an address with its zone, by kind. *)
Lemma Addr_String6 ip :
  Is6 ip = true -> Addr_wf ip ->
  Addr_String ip = with_zone
    (if Is4In6 ip then str "::ffff:" ++ string4 (Unmap ip)
     else print_fields ip 8 0 (longest_run ip 8 0 255 255).1 (longest_run ip 8 0 255 255).2 []) (Zone ip).
Proof.
  intros H6 (_ & _ & Hz). unfold Addr_String, with_zone, Is6 in *.
  destruct (z ip) as [| | |name] eqn:Ez; try done; unfold Zone; rewrite Ez; destruct (Is4In6 ip) eqn:Em.
  - done.
  - unfold string6, appendTo6. rewrite Ez. by destruct (longest_run ip 8 0 255 255).
  - rewrite bool_decide_false by done. cbn [negb]. destruct name; [done|]. by rewrite <- app_assoc.
  - unfold string6, appendTo6, Zone. rewrite Ez. rewrite bool_decide_false by done.
    destruct (longest_run ip 8 0 255 255). cbn [fst snd negb]. by destruct name.
Qed.

Lemma quad_no_percent a b c d :
  is_byte a -> is_byte b -> is_byte c -> is_byte d -> percent ∉ string4 (AddrFrom4 [a; b; c; d]).
Proof.
  intros Ha Hb Hc Hd. rewrite string4_AddrFrom4 by done.
  assert (forall x, is_byte x -> percent ∉ dec x) as Hp.
  { intros x Hx Hin. pose proof (dec_no_special x Hx) as Hf. rewrite Forall_forall in Hf.
    by apply Hf in Hin as (_ & _ & ?). }
  pose proof (Hp a Ha). pose proof (Hp b Hb). pose proof (Hp c Hc). pose proof (Hp d Hd).
  rewrite !elem_of_app, !elem_of_cons, !elem_of_app, !elem_of_cons, !elem_of_app, !elem_of_cons. naive_solver.
Qed.

Lemma mapped_round_trip ip :
  Addr_wf ip -> Is6 ip = true -> Is4In6 ip = true -> ParseAddr (Addr_String ip) = Ok ip.
Proof.
  intros Hwf H6 Em. rewrite Addr_String6, Em by done.
  assert (IsValid ip = true) as Hv by (unfold IsValid, Is6 in *; by destruct (z ip)).
  destruct (addr_kinds ip Hwf Hv) as [(a & b & c & d & [Hb Ha Hs])|(b0 & b1 & r & [_ _ (_ & _ & Hm) _ _ _ _])];
    [|congruence].
  rewrite Em in Ha. rewrite Ha. rewrite !Forall_cons in Hb. destruct Hb as (Hba & Hbb & Hbc & Hbd & _).
  assert (AsSlice ip = As16 ip) as Es by (unfold AsSlice, Is6 in *; by destruct (z ip)).
  rewrite Es in Hs. destruct Hs as [Hs|Hs]; [by apply (f_equal length) in Hs|].
  set (t := str "::ffff:" ++ string4 (AddrFrom4 [a; b; c; d])).
  transitivity (parseIPv6 (with_zone t (Zone ip))); [unfold t, with_zone; by destruct (Zone ip)|].
  rewrite parseIPv6_zoned.
  - change (parse_unzoned ?i t ?zn) with (parseIPv6_addr i (str "ffff:" ++ string4 (AddrFrom4 [a; b; c; d])) zn 0).
    rewrite parse_embedded by done. rewrite <- Hs, AddrFrom16_As16 by apply Hwf. by rewrite WithZone_zone.
  - unfold t. rewrite elem_of_app. intros [Hin|Hin]; [revert Hin; lit|by eapply quad_no_percent, Hin].
Qed.

Lemma fields_round_trip ip :
  Addr_wf ip -> Is6 ip = true -> Is4In6 ip = false -> ParseAddr (Addr_String ip) = Ok ip.
Proof.
  intros Hwf H6 Em. rewrite Addr_String6, Em by done. unfold ParseAddr.
  destruct (parse_fields_text ip (Zone ip)) as (Hp & (p & r & E & Hpr) & Hparse).
  set (t := print_fields ip 8 0 _ _ []) in *.
  transitivity (parseIPv6 (with_zone t (Zone ip))).
  { assert (exists r', with_zone t (Zone ip) = p ++ colon :: r') as (r' & E').
    { unfold with_zone. rewrite E. destruct (Zone ip); [eauto|]. rewrite <- app_assoc. cbn [app]. eauto. }
    rewrite E' at 2. by rewrite ParseAddr_skip. }
  rewrite parseIPv6_zoned, Hparse by done. rewrite AddrFrom16_As16 by apply Hwf. by rewrite WithZone_zone.
Qed.

Lemma ParseAddr_String ip :
  Addr_wf ip -> IsValid ip = true -> ParseAddr (Addr_String ip) = Ok ip.
Proof.
  intros Hwf Hv. destruct (Is6 ip) eqn:H6.
  { destruct (Is4In6 ip) eqn:Em; [by apply mapped_round_trip|by apply fields_round_trip]. }
  assert (z ip = z4) as Ez by (unfold IsValid, Is6 in *; by destruct (z ip)).
  unfold ParseAddr, Addr_String. rewrite Ez.
  destruct (Is4_inv ip Hwf Ez) as (a & b & c & d & Ha & Hb & Hc & Hd & ->).
  rewrite <- (parseIPv4_complete a b c d) by done. set (t := string4 _).
  assert (exists r, t = dec a ++ dot :: r) as (r & E) by (unfold t; rewrite string4_AddrFrom4 by done; eauto).
  rewrite E at 2. by rewrite ParseAddr_skip by by apply dec_no_special.
Qed.

(** [C26] Parsing undoes printing: for every well-formed valid address, ParseAddr of
    its String is the address itself, through the dotted form, the compression of the
    longest run of zero fields, the mapped form and the zone. *)
Theorem netip_string_round_trip ip :
  Addr_wf ip -> IsValid ip = true -> ParseAddr (Addr_String ip) = Ok ip.
Proof. apply ParseAddr_String. Qed.

Lemma netip_string_round_trip_witness :
  let ip := WithZone (AddrFrom16 [32; 1; 13; 184; 0; 0; 0; 0; 0; 0; 0; 1; 0; 0; 0; 104]) (str "eth0") in
  Addr_String ip = str "2001:db8::1:0:68%eth0" /\ ParseAddr (Addr_String ip) = Ok ip.
Proof.
  intros ip. split; [vm_compute; reflexivity|]. apply (netip_string_round_trip ip); [|reflexivity].
  vm_compute; split_and!; discriminate || done.
Defined.
