(* ===== verification/NetipPrefix.v ===== *)
(** * net/netip: prefixes and address-port pairs

    [tools/go-patched/src/net/netip/netip.go], the types [Prefix] and [AddrPort]:
    networks, what they contain, and their text and binary forms. *)

From S2P Require Import Prelude ByteOrder HostPort NetIP Strconv NetipAddr NetipProps NetipText.
Local Open Scope go_scope.
Local Set Warnings "-clear-no-such-hyp".

Notation slash := 47 (only parsing).

(** ** Text of an address *)

Definition AppendTo (ip : Addr) (b : gobytes) : gobytes :=
  match z ip with
  | z0 => b
  | z4 => appendTo4 ip b
  | _ =>
      if Is4In6 ip then
        let b := b ++ str "::ffff:" in
        let b := appendTo4 (Unmap ip) b in
        if negb (bool_decide (Zone ip = [])) then (b ++ str "%") ++ Zone ip else b
      else appendTo6 ip b
  end.

Definition MarshalText (ip : Addr) : gobytes :=
  match z ip with
  | z0 => []
  | z4 => appendTo4 ip []
  | _ =>
      if Is4In6 ip then
        let b := str "::ffff:" in
        let b := appendTo4 (Unmap ip) b in
        if negb (bool_decide (Zone ip = [])) then (b ++ str "%") ++ Zone ip else b
      else appendTo6 ip []
  end.

Definition UnmarshalText (text : gobytes) : result Addr :=
  if len text =? 0 then Ok zero_Addr else ParseAddr text.

(** The bytes of an address with room for more at the end, which are zero. *)
Definition marshalBinaryWithTrailingBytes (ip : Addr) (trailingBytes : nat) : gobytes :=
  match z ip with
  | z0 => repeat 0 trailingBytes
  | z4 => bePutUint32_bytes (u32 (lo (addr ip))) ++ repeat 0 trailingBytes
  | _ => bePutUint64_bytes (hi (addr ip)) ++ bePutUint64_bytes (lo (addr ip)) ++ Zone ip ++ repeat 0 trailingBytes
  end.

(** ** AddrPort *)
Module AddrPort.

Record AddrPort := mk_AddrPort { ip : Addr; port : Z }.

#[export] Instance AddrPort_eq_dec : EqDecision AddrPort.
Proof. solve_decision. Defined.

Definition AddrPortFrom (ip : Addr) (port : Z) : AddrPort := mk_AddrPort ip port.
Definition zero_AddrPort : AddrPort := mk_AddrPort zero_Addr 0.

(** The address, the port, and whether the address was in brackets. *)
Definition splitAddrPort (s : gostring) : result (gostring * gostring * bool) :=
  let i := LastIndexByteString s colon in
  if i =? -1 then Err (OtherError (str "not an ip:port")) else
  let ip := take (Z.to_nat i) s in
  let port := drop (Z.to_nat (i + 1)) s in
  if len ip =? 0 then Err (OtherError (str "no IP"))
  else if len port =? 0 then Err (OtherError (str "no port"))
  else if at_ ip 0 =? lbracket then
    if (len ip <? 2) || negb (at_ ip (Z.to_nat (len ip - 1)) =? rbracket)
    then Err (OtherError (str "missing ]"))
    else Ok (take (Z.to_nat (len ip - 2)) (drop 1 ip), port, true)
  else Ok (ip, port, false).

Definition ParseAddrPort (s : gostring) : result AddrPort :=
  match splitAddrPort s with
  | Err e => Err e
  | Ok (ip, port, is6) =>
      match ParseUint port 10 16 with
      | (_, Some _) => Err (QuotedError [inl (str "invalid port "); inr port; inl (str " parsing "); inr s])
      | (port16, None) =>
          match ParseAddr ip with
          | Err e => Err e
          | Ok ip =>
              if is6 && Is4 ip then
                Err (QuotedError [inl (str "invalid ip:port "); inr s;
                  inl (str ", square brackets can only be used with IPv6 addresses")])
              else if negb is6 && Is6 ip then
                Err (QuotedError [inl (str "invalid ip:port "); inr s;
                  inl (str ", IPv6 addresses must be surrounded by square brackets")])
              else Ok (mk_AddrPort ip (u16 port16))
          end
      end
  end.

Definition IsValid (p : AddrPort) : bool := NetipAddr.IsValid (ip p).

(** cmp.Compare on integers. *)
Definition cmp_Compare (x y : Z) : Z := if x <? y then -1 else if y <? x then 1 else 0.

Definition Compare (p p2 : AddrPort) : Z :=
  let c := NetipAddr.Compare (ip p) (ip p2) in
  if negb (c =? 0) then c else cmp_Compare (port p) (port p2).

(** strconv.AppendUint with base 10 does not panic. *)
Definition append_port (b : gobytes) (port : Z) : gobytes := default b (AppendUint b port 10).

Definition String (p : AddrPort) : gostring :=
  match z (ip p) with
  | z0 => str "invalid AddrPort"
  | z4 => append_port (appendTo4 (ip p) [] ++ str ":") (port p)
  | _ => str "[" ++ Addr_String (ip p) ++ str "]:" ++ Uitoa (port p)
  end.

Definition AppendTo (p : AddrPort) (b : gobytes) : gobytes :=
  match z (ip p) with
  | z0 => b
  | _ =>
      let b :=
        if bool_decide (z (ip p) = z4) then appendTo4 (ip p) b
        else
          let b :=
            if Is4In6 (ip p) then
              let b := b ++ str "[::ffff:" in
              let b := appendTo4 (Unmap (ip p)) b in
              if negb (bool_decide (Zone (ip p) = [])) then (b ++ str "%") ++ Zone (ip p) else b
            else appendTo6 (ip p) (b ++ str "[") in
          b ++ str "]" in
      append_port (b ++ str ":") (port p)
  end.

Definition MarshalText (p : AddrPort) : gobytes := AppendTo p [].

Definition UnmarshalText (text : gobytes) : result AddrPort :=
  if len text =? 0 then Ok zero_AddrPort else ParseAddrPort text.

(** The last two of the bytes are written over with the port. *)
Definition MarshalBinary (p : AddrPort) : gobytes :=
  let b := marshalBinaryWithTrailingBytes (ip p) 2 in
  take (Z.to_nat (len b - 2)) b ++ LittleEndian.AppendUint16 [] (port p).

Definition UnmarshalBinary (b : gobytes) : result AddrPort :=
  if len b <? 2 then Err (OtherError (str "unexpected slice size")) else
  match UnmarshalBinary (take (Z.to_nat (len b - 2)) b) with
  | Err e => Err e
  | Ok addr => Ok (AddrPortFrom addr (default 0 (LittleEndian.Uint16 (drop (Z.to_nat (len b - 2)) b))))
  end.

End AddrPort.

(** ** Prefix *)
Module Prefix.

Record Prefix := mk_Prefix { ip : Addr; bitsPlusOne : Z }.

#[export] Instance Prefix_eq_dec : EqDecision Prefix.
Proof. solve_decision. Defined.

Definition zero_Prefix : Prefix := mk_Prefix zero_Addr 0.

Definition PrefixFrom (ip : Addr) (bits : Z) : Prefix :=
  let bitsPlusOne :=
    if negb (Addr_isZero ip) && (0 <=? bits) && (bits <=? BitLen ip) then u8 (u8 bits + 1) else 0 in
  mk_Prefix (withoutZone ip) bitsPlusOne.

Definition Bits (p : Prefix) : Z := bitsPlusOne p - 1.
Definition IsValid (p : Prefix) : bool := 0 <? bitsPlusOne p.
Definition isZero (p : Prefix) : bool := bool_decide (p = zero_Prefix).
Definition IsSingleIP (p : Prefix) : bool := IsValid p && (Bits p =? BitLen (ip p)).

Definition compare (p p2 : Prefix) : Z :=
  let c := AddrPort.cmp_Compare (BitLen (ip p)) (BitLen (ip p2)) in
  if negb (c =? 0) then c else
  let c := AddrPort.cmp_Compare (Bits p) (Bits p2) in
  if negb (c =? 0) then c else Compare (ip p) (ip p2).

(** Addr.Prefix *)
Definition of_Addr (a : Addr) (b : Z) : result Prefix :=
  if b <? 0 then Err (OtherError (str "negative Prefix bits")) else
  match z a with
  | z0 => Ok zero_Prefix
  | z4 =>
      if 32 <? b then Err (OtherError (str "prefix length " ++ Itoa b ++ str " too large for IPv4"))
      else Ok (PrefixFrom (mk_Addr (u128_and (addr a) (mask6 (b + 96))) (z a)) b)
  | _ =>
      if 128 <? b then Err (OtherError (str "prefix length " ++ Itoa b ++ str " too large for IPv6"))
      else Ok (PrefixFrom (mk_Addr (u128_and (addr a) (mask6 b)) (z a)) b)
  end.

Definition Masked (p : Prefix) : Prefix :=
  match of_Addr (ip p) (Bits p) with Ok m => m | Err _ => zero_Prefix end.

Definition Contains (p : Prefix) (a : Addr) : bool :=
  if negb (IsValid p) || hasZone a then false else
  let '(f1, f2) := (BitLen (ip p), BitLen a) in
  if (f1 =? 0) || (f2 =? 0) || negb (f1 =? f2) then false
  else if Is4 a then u32 (Z.lxor (lo (addr a)) (lo (addr (ip p))) >> ((32 - Bits p) .& 63)) =? 0
  else u128_isZero (u128_and (u128_xor (addr a) (addr (ip p))) (mask6 (Bits p))).

Definition Overlaps (p o : Prefix) : bool :=
  if negb (IsValid p) || negb (IsValid o) then false
  else if bool_decide (p = o) then true
  else if negb (Bool.eqb (Is4 (ip p)) (Is4 (ip o))) then false
  else
    let minBits := if Bits p <? Bits o then Bits p else Bits o in
    if minBits =? 0 then true else
    match of_Addr (ip p) minBits, of_Addr (ip o) minBits with
    | Ok p, Ok o => bool_decide (ip p = ip o)
    | _, _ => false
    end.

Definition ParsePrefix (s : gostring) : result Prefix :=
  let bad msg more := Err (QuotedError ([inl (str "netip.ParsePrefix("); inr s; inl (str "): " ++ str msg)] ++ more)) in
  let i := LastIndexByteString s slash in
  if i <? 0 then bad "no '/'"%string [] else
  match ParseAddr (take (Z.to_nat i) s) with
  | Err e => Err (ParsePrefixNested s e)
  | Ok a =>
      if Is6 a && negb (bool_decide (z a = z6noz)) then
        bad "IPv6 zones cannot be present in a prefix"%string []
      else
        let bitsStr := drop (Z.to_nat (i + 1)) s in
        if (1 <? len bitsStr) && ((at_ bitsStr 0 <? 49) || (57 <? at_ bitsStr 0)) then
          bad "bad bits after slash: "%string [inr bitsStr]
        else
          match Atoi bitsStr with
          | (_, Some _) => bad "bad bits after slash: "%string [inr bitsStr]
          | (bits, None) =>
              let maxBits := if Is6 a then 128 else 32 in
              if (bits <? 0) || (maxBits <? bits) then bad "prefix length out of range"%string []
              else Ok (PrefixFrom a bits)
          end
  end.

Definition AppendTo (p : Prefix) (b : gobytes) : gobytes :=
  if isZero p then b
  else if negb (IsValid p) then b ++ str "invalid Prefix"
  else
    let b :=
      if bool_decide (z (ip p) = z4) then appendTo4 (ip p) b
      else if Is4In6 (ip p) then appendTo4 (Unmap (ip p)) (b ++ str "::ffff:")
      else appendTo6 (ip p) b in
    appendDecimal (b ++ str "/") (u8 (Bits p)).

Definition MarshalText (p : Prefix) : gobytes := AppendTo p [].

Definition UnmarshalText (text : gobytes) : result Prefix :=
  if len text =? 0 then Ok zero_Prefix else ParsePrefix text.

Definition String (p : Prefix) : gostring :=
  if negb (IsValid p) then str "invalid Prefix"
  else Addr_String (ip p) ++ str "/" ++ Itoa (Bits p).

Definition MarshalBinary (p : Prefix) : gobytes :=
  let b := marshalBinaryWithTrailingBytes (withoutZone (ip p)) 1 in
  <[Z.to_nat (len b - 1) := u8 (Bits p)]> b.

Definition UnmarshalBinary (b : gobytes) : result Prefix :=
  if len b <? 1 then Err (OtherError (str "unexpected slice size")) else
  match UnmarshalBinary (take (Z.to_nat (len b - 1)) b) with
  | Err e => Err e
  | Ok addr => Ok (PrefixFrom addr (at_ b (Z.to_nat (len b - 1))))
  end.

End Prefix.

Example prefix_examples :
  Prefix.String (Prefix.Masked (Prefix.PrefixFrom (AddrFrom4 [192; 168; 17; 9]) 20)) = str "192.168.16.0/20" /\
  match Prefix.ParsePrefix (str "2001:db8::/32") with
  | Ok p => Prefix.Contains p (AddrFrom16 [32; 1; 13; 184; 0; 0; 0; 0; 0; 0; 0; 1; 0; 0; 0; 104])
  | Err _ => false
  end = true /\
  AddrPort.ParseAddrPort (str "[::1%lo]:8080") =
    Ok (AddrPort.AddrPortFrom (WithZone (AddrFrom16 IPv6loopback) (str "lo")) 8080) /\
  AddrPort.String (AddrPort.AddrPortFrom (AddrFrom4 [10; 0; 0; 1]) 443) = str "10.0.0.1:443".
Proof. split_and!; vm_compute; reflexivity. Qed.

(** ** Masks *)

Lemma u128_testbit u j :
  u128_ok u -> 0 <= j ->
  Z.testbit (u128_val u) j = if j <? 64 then Z.testbit (lo u) j else Z.testbit (hi u) (j - 64).
Proof.
  intros [Hh Hl] Hj. unfold u128_val. rewrite Z.add_comm, <- lor_shiftl_add by (lia || (change (2 ^ 64) with 18446744073709551616; lia)).
  rewrite Z.lor_spec, Z.shiftl_spec by lia. destruct (Z.ltb_spec j 64).
  - rewrite (Z.testbit_neg_r (hi u)) by lia. apply orb_false_r.
  - rewrite (testbit_above 64 (lo u)) by (done || lia). done.
Qed.

Lemma max_u64_testbit i : 0 <= i -> Z.testbit max_u64 i = (i <? 64).
Proof.
  intros Hi. change max_u64 with (Z.ones 64). destruct (Z.ltb_spec i 64).
  - apply Z.ones_spec_low. lia.
  - apply Z.ones_spec_high. lia.
Qed.

Lemma mask6_hi n i : 0 <= n -> 0 <= i < 64 -> Z.testbit (hi (mask6 n)) i = (64 <=? i + n).
Proof.
  intros Hn Hi. unfold mask6, u64. cbn [hi]. rewrite Z.mod_pow2_bits_low, Z.lnot_spec, Z.shiftr_spec, max_u64_testbit by lia.
  destruct (Z.ltb_spec (i + n) 64), (Z.leb_spec 64 (i + n)); done || lia.
Qed.

Lemma mask6_lo n i : 0 <= n <= 128 -> 0 <= i < 64 -> Z.testbit (lo (mask6 n)) i = (128 - n <=? i).
Proof.
  intros Hn Hi. unfold mask6, u64. cbn [lo]. rewrite Z.mod_pow2_bits_low, Z.shiftl_spec by lia.
  destruct (Z.leb_spec (128 - n) i).
  - rewrite max_u64_testbit by lia. apply Z.ltb_lt. lia.
  - apply Z.testbit_neg_r. lia.
Qed.

Lemma land_u64 x y : 0 <= y -> is_u64 x -> is_u64 (x .& y).
Proof.
  intros Hy Hx. split; [apply Z.land_nonneg; lia|].
  destruct (Z.eq_dec (x .& y) 0) as [->|Hne]; [lia|].
  pose proof (Z.log2_land x y ltac:(lia) Hy).
  assert (0 < x .& y) by (pose proof (proj2 (Z.land_nonneg x y) ltac:(lia)); lia).
  apply (Z.log2_lt_pow2 _ 64); [lia|]. assert (0 < x) by (destruct (Z.eq_dec x 0) as [->|]; [by rewrite Z.land_0_l in Hne|lia]).
  assert (Z.log2 x < 64) by (apply Z.log2_lt_pow2; [lia|change (2 ^ 64) with 18446744073709551616; lia]). lia.
Qed.

Lemma u64_nonneg x : 0 <= u64 x.
Proof. widths. zlia. Qed.

(** Masking keeps the top [n] bits and clears the others. *)
Lemma and_mask6 u n :
  u128_ok u -> 0 <= n <= 128 ->
  u128_ok (u128_and u (mask6 n)) /\
  u128_val (u128_and u (mask6 n)) = u128_val u / 2 ^ (128 - n) * 2 ^ (128 - n).
Proof.
  intros Hu Hn. pose proof Hu as [Hh Hl].
  assert (u128_ok (u128_and u (mask6 n))) as Hok by (split; apply land_u64; try done; apply u64_nonneg).
  split; [done|]. rewrite <- Z.shiftl_mul_pow2, <- Z.shiftr_div_pow2 by lia.
  apply Z.bits_inj'. intros j Hj. rewrite u128_testbit, Z.shiftl_spec by done. unfold u128_and. cbn [hi lo].
  destruct (Z.ltb_spec j 64).
  - rewrite Z.land_spec, mask6_lo by lia. destruct (Z.leb_spec (128 - n) j).
    + rewrite andb_true_r, Z.shiftr_spec, u128_testbit by (done || lia).
      replace (j - (128 - n) + (128 - n)) with j by lia. by rewrite (proj2 (Z.ltb_lt j 64)).
    + rewrite andb_false_r. symmetry. apply Z.testbit_neg_r. lia.
  - rewrite Z.land_spec. destruct (Z.leb_spec (128 - n) j).
    + rewrite Z.shiftr_spec, u128_testbit by (done || lia).
      replace (j - (128 - n) + (128 - n)) with j by lia. rewrite (proj2 (Z.ltb_ge j 64)) by lia.
      destruct (decide (j < 128)).
      * rewrite mask6_hi by lia. rewrite (proj2 (Z.leb_le 64 _)) by lia. apply andb_true_r.
      * rewrite (testbit_above 64 (hi u)) by (done || lia). done.
    + rewrite mask6_hi by lia. rewrite (proj2 (Z.leb_gt 64 _)) by lia. rewrite andb_false_r.
      symmetry. apply Z.testbit_neg_r. lia.
Qed.

Lemma lxor_u64 x y : is_u64 x -> is_u64 y -> is_u64 (Z.lxor x y).
Proof.
  intros Hx Hy. assert (0 <= Z.lxor x y) by (apply Z.lxor_nonneg; lia). split; [done|].
  destruct (Z.eq_dec (Z.lxor x y) 0) as [->|Hne]; [lia|].
  apply (Z.log2_lt_pow2 _ 64); [lia|]. pose proof (Z.log2_lxor x y ltac:(lia) ltac:(lia)).
  assert (forall v, is_u64 v -> Z.log2 v < 64) as Hlog.
  { intros v Hv. destruct (Z.eq_dec v 0) as [->|]; [done|].
    apply Z.log2_lt_pow2; [lia|change (2 ^ 64) with 18446744073709551616; lia]. }
  pose proof (Hlog x Hx). pose proof (Hlog y Hy). lia.
Qed.

Lemma u128_xor_val u v :
  u128_ok u -> u128_ok v -> u128_ok (u128_xor u v) /\ u128_val (u128_xor u v) = Z.lxor (u128_val u) (u128_val v).
Proof.
  intros Hu Hv. assert (u128_ok (u128_xor u v)) as Hok by (destruct Hu, Hv; split; by apply lxor_u64).
  split; [done|]. apply Z.bits_inj'. intros j Hj. rewrite Z.lxor_spec, !u128_testbit by done.
  unfold u128_xor. cbn [hi lo]. by destruct (j <? 64); rewrite Z.lxor_spec.
Qed.

(** Two numbers agree above bit [k] when their difference has no bit there. *)
Lemma lxor_high x y k : 0 <= k -> (Z.lxor x y / 2 ^ k = 0 <-> x / 2 ^ k = y / 2 ^ k).
Proof.
  intros Hk. rewrite <- !Z.shiftr_div_pow2, Z.shiftr_lxor by lia. split; [apply Z.lxor_eq|].
  intros ->. apply Z.lxor_nilpotent.
Qed.

(** ** Networks *)

(** A valid prefix: an address without a zone and a length that fits it. *)
Definition Prefix_wf (p : Prefix.Prefix) : Prop :=
  Addr_wf (Prefix.ip p) /\ (z (Prefix.ip p) = z4 \/ z (Prefix.ip p) = z6noz) /\
  0 <= Prefix.Bits p <= BitLen (Prefix.ip p).

(** The number of the network of [bits] bits that an address is in. *)
Definition network (a : Addr) (bits : Z) : Z := host_number a / 2 ^ (BitLen a - bits).

Lemma top_v4 l k :
  0 <= k <= 32 -> l / 2 ^ 32 = 65535 -> l / 2 ^ k = 65535 * 2 ^ (32 - k) + l mod 2 ^ 32 / 2 ^ k.
Proof.
  intros Hk Hl. pose proof (Z.pow_pos_nonneg 2 k ltac:(lia) ltac:(lia)).
  assert (l = 65535 * 2 ^ (32 - k) * 2 ^ k + l mod 2 ^ 32) as E.
  { rewrite <- Z.mul_assoc, <- Z.pow_add_r by lia. replace (32 - k + k) with 32 by lia.
    pose proof (Z.div_mod l (2 ^ 32) ltac:(lia)). lia. }
  rewrite E at 1. by rewrite Z.div_add_l by lia.
Qed.

Lemma coarser x y i j : 0 <= i <= j -> x / 2 ^ i = y / 2 ^ i -> x / 2 ^ j = y / 2 ^ j.
Proof.
  intros Hij E. replace j with (i + (j - i)) by lia. rewrite Z.pow_add_r by lia.
  rewrite <- !Z.div_div by (try apply Z.pow_nonzero; try apply Z.pow_pos_nonneg; lia). by rewrite E.
Qed.

Lemma network_coarser a b m n :
  BitLen a = BitLen b -> m <= n <= BitLen a -> network a n = network b n -> network a m = network b m.
Proof. unfold network. intros E Hmn Hn. rewrite E in *. apply (coarser _ _ (BitLen b - n)); [lia|done]. Qed.

Lemma val_v4 a : Addr_wf a -> z a = z4 ->
  hi (addr a) = 0 /\ lo (addr a) / 2 ^ 32 = 65535 /\ host_number a = lo (addr a) mod 2 ^ 32 /\ BitLen a = 32.
Proof.
  intros (_ & _ & Hz) E. rewrite E in Hz. destruct Hz as [Hh Hl]. unfold host_number, u128_val, BitLen. rewrite E, Hh.
  split_and!; done.
Qed.

Lemma val_v6 a : Addr_wf a -> z a = z6noz -> host_number a = u128_val (addr a) /\ BitLen a = 128.
Proof.
  intros Hwf E. unfold host_number, BitLen. rewrite E. split; [|done]. apply Z.mod_small.
  pose proof (Addr_wf_ok _ Hwf). u128. change (2 ^ 128) with 340282366920938463463374607431768211456. lia.
Qed.

(** Equal networks of [b] bits, in terms of the numbers stored. *)
Lemma network_v4 a c b :
  Addr_wf a -> Addr_wf c -> z a = z4 -> z c = z4 -> 0 <= b <= 32 ->
  network a b = network c b <-> lo (addr a) / 2 ^ (32 - b) = lo (addr c) / 2 ^ (32 - b).
Proof.
  intros Ha Hc Ea Ec Hb. destruct (val_v4 a Ha Ea) as (_ & Hqa & Hna & HBa), (val_v4 c Hc Ec) as (_ & Hqc & Hnc & HBc).
  unfold network. rewrite HBa, HBc, Hna, Hnc. rewrite (top_v4 (lo (addr a))), (top_v4 (lo (addr c))) by (done || lia).
  lia.
Qed.

Lemma contains4 a c b :
  Addr_wf a -> Addr_wf c -> z a = z4 -> z c = z4 -> 0 <= b <= 32 ->
  u32 (Z.lxor (lo (addr a)) (lo (addr c)) >> ((32 - b) .& 63)) = 0 <-> network a b = network c b.
Proof.
  intros Ha Hc Ea Ec Hb. rewrite network_v4 by done.
  change ((32 - b) .& 63) with ((32 - b) .& (2 ^ 6 - 1)). rewrite land_ones_mod by lia.
  rewrite (Z.mod_small (32 - b)) by (change (2 ^ 6) with 64; lia). rewrite Z.shiftr_div_pow2 by lia.
  destruct (val_v4 a Ha Ea) as (_ & Hqa & _), (val_v4 c Hc Ec) as (_ & Hqc & _).
  set (x := Z.lxor _ _). assert (0 <= x) by (apply Z.lxor_nonneg; destruct Ha as (_ & ? & _), Hc as (_ & ? & _); lia).
  assert (x / 2 ^ 32 = 0) as Hx by (apply lxor_high; [lia|congruence]).
  assert (0 <= x < 2 ^ 32) by (apply Z.div_small_iff in Hx; lia).
  pose proof (Z.pow_pos_nonneg 2 (32 - b) ltac:(lia) ltac:(lia)).
  assert (u32 (x / 2 ^ (32 - b)) = x / 2 ^ (32 - b)) as ->; [|by apply lxor_high; lia].
  apply Z.mod_small. split; [apply Z.div_pos; lia|]. eapply Z.le_lt_trans; [apply Z.div_le_upper_bound with (q := x); nia|lia].
Qed.

Lemma contains6 a c b :
  Addr_wf a -> Addr_wf c -> z a = z6noz -> z c = z6noz -> 0 <= b <= 128 ->
  u128_isZero (u128_and (u128_xor (addr a) (addr c)) (mask6 b)) = true <-> network a b = network c b.
Proof.
  intros Ha Hc Ea Ec Hb. pose proof (Addr_wf_ok _ Ha) as Hoa. pose proof (Addr_wf_ok _ Hc) as Hoc.
  destruct (u128_xor_val _ _ Hoa Hoc) as [Hox Hx]. destruct (and_mask6 _ b Hox Hb) as [Hom Hm].
  rewrite u128_isZero_spec, Hm, Hx by done. destruct (val_v6 a Ha Ea) as [Hna HBa], (val_v6 c Hc Ec) as [Hnc HBc].
  unfold network. rewrite Hna, Hnc, HBa, HBc, <- lxor_high by lia.
  pose proof (Z.pow_pos_nonneg 2 (128 - b) ltac:(lia) ltac:(lia)). rewrite Z.eqb_eq. nia.
Qed.

Lemma Contains_spec p a :
  Prefix_wf p -> Addr_wf a ->
  Prefix.Contains p a = true <->
  z a = z (Prefix.ip p) /\ network a (Prefix.Bits p) = network (Prefix.ip p) (Prefix.Bits p).
Proof.
  intros (Hwf & Hz & Hbits) Ha. unfold Prefix.Contains, Prefix.IsValid.
  rewrite (proj2 (Z.ltb_lt 0 _)) by (unfold Prefix.Bits in *; lia). cbn [negb orb].
  destruct (decide (z a = z (Prefix.ip p))) as [E|Hne].
  - assert (hasZone a = false) as -> by (unfold hasZone; rewrite E; by destruct Hz as [-> | ->]).
    assert (BitLen a = BitLen (Prefix.ip p)) as HB by (unfold BitLen; by rewrite E). rewrite HB, Z.eqb_refl.
    assert (BitLen (Prefix.ip p) =? 0 = false) as -> by (unfold BitLen; by destruct Hz as [-> | ->]). cbn [orb negb].
    unfold Is4. destruct Hz as [Hz|Hz].
    + rewrite bool_decide_true, Z.eqb_eq by congruence. unfold BitLen in Hbits. rewrite Hz in Hbits.
      rewrite contains4 by (done || congruence). naive_solver.
    + rewrite bool_decide_false by congruence. unfold BitLen in Hbits. rewrite Hz in Hbits.
      rewrite contains6 by (done || congruence). naive_solver.
  - split; [|by intros []]. destruct (hasZone a) eqn:Ez; [done|]. unfold BitLen. unfold hasZone in Ez.
    destruct Hz as [Hz|Hz]; rewrite Hz in *; by destruct (z a).
Qed.

(** ** Masking and overlapping *)

Lemma PrefixFrom_wf a b :
  Addr_wf a -> z a = z4 \/ z a = z6noz -> 0 <= b <= BitLen a ->
  Prefix_wf (Prefix.PrefixFrom a b) /\ Prefix.ip (Prefix.PrefixFrom a b) = a /\ Prefix.Bits (Prefix.PrefixFrom a b) = b.
Proof.
  intros Ha Hz Hb.
  assert (withoutZone a = a) as E by (unfold withoutZone, Is6; destruct a as [u zn]; simpl in *; by destruct Hz as [-> | ->]).
  assert (BitLen a <= 128) by (unfold BitLen; by destruct (z a)).
  assert (u8 (u8 b + 1) = b + 1) as Eb by (widths; zlia).
  unfold Prefix.PrefixFrom, Addr_isZero, Prefix_wf, Prefix.Bits. cbn [Prefix.ip Prefix.bitsPlusOne].
  rewrite bool_decide_false by (destruct Hz as [-> | ->]; done). rewrite E, (proj2 (Z.leb_le 0 b)), (proj2 (Z.leb_le b _)), Eb by lia.
  cbn [negb andb]. split_and!; done || lia.
Qed.

Lemma masked4 a b :
  Addr_wf a -> z a = z4 -> 0 <= b <= 32 ->
  let m := mk_Addr (u128_and (addr a) (mask6 (b + 96))) z4 in
  Addr_wf m /\ host_number m = network a b * 2 ^ (32 - b).
Proof.
  intros Ha Ea Hb. destruct (val_v4 a Ha Ea) as (Hh & Hq & Hn & HB). destruct (and_mask6 (addr a) (b + 96) (Addr_wf_ok _ Ha) ltac:(lia)) as [Hok Hval].
  replace (128 - (b + 96)) with (32 - b) in Hval by lia. unfold u128_val at 2 in Hval. rewrite Hh in Hval. rewrite Z.mul_0_l, Z.add_0_l in Hval.
  rewrite (top_v4 (lo (addr a)) (32 - b)) in Hval by (done || lia). replace (32 - (32 - b)) with b in Hval by lia.
  unfold network. rewrite HB, Hn. set (h := lo (addr a) mod 2 ^ 32) in *. pose proof (Z.pow_pos_nonneg 2 (32 - b) ltac:(lia) ltac:(lia)).
  assert (2 ^ b * 2 ^ (32 - b) = 2 ^ 32) as Hpow by (rewrite <- Z.pow_add_r by lia; f_equal; lia).
  assert (0 <= h < 2 ^ 32) by (apply Z.mod_pos_bound; lia).
  pose proof (Z.mul_div_le h (2 ^ (32 - b)) ltac:(lia)). assert (0 <= h / 2 ^ (32 - b)) by (apply Z.div_pos; lia).
  set (q := h / 2 ^ (32 - b)) in *. set (v := u128_and _ _) in *.
  assert (u128_val v = 65535 * 2 ^ 32 + q * 2 ^ (32 - b)) as E by nia.
  assert (0 <= q * 2 ^ (32 - b) < 2 ^ 32) as Hr by nia. set (r := q * 2 ^ (32 - b)) in *. clearbody r.
  assert (hi v = 0 /\ lo v = 65535 * 2 ^ 32 + r) as [Ehi Elo].
  { destruct Hok as [??]. unfold u128_val in E. change (2 ^ 64) with 18446744073709551616 in E.
    change (2 ^ 32) with 4294967296 in *. lia. }
  unfold Addr_wf, host_number, BitLen, u128_val. cbn [addr z]. rewrite Ehi, Elo. change (2 ^ 64) with 18446744073709551616.
  change (2 ^ 32) with 4294967296 in *. split_and!; zlia.
Qed.

Lemma masked6 a b :
  Addr_wf a -> z a = z6noz -> 0 <= b <= 128 ->
  let m := mk_Addr (u128_and (addr a) (mask6 b)) z6noz in
  Addr_wf m /\ host_number m = network a b * 2 ^ (128 - b).
Proof.
  intros Ha Ea Hb. destruct (val_v6 a Ha Ea) as [Hn HB]. destruct (and_mask6 (addr a) b (Addr_wf_ok _ Ha) Hb) as [Hok Hval].
  assert (Addr_wf (mk_Addr (u128_and (addr a) (mask6 b)) z6noz)) as Hwf by (destruct Hok; done). split; [done|].
  rewrite (proj1 (val_v6 _ Hwf eq_refl)). unfold network. rewrite HB, Hn. exact Hval.
Qed.

Lemma of_Addr_spec a b :
  Addr_wf a -> z a = z4 \/ z a = z6noz -> 0 <= b <= BitLen a ->
  exists q, Prefix.of_Addr a b = Ok q /\ Prefix_wf q /\ z (Prefix.ip q) = z a /\ Prefix.Bits q = b /\
    host_number (Prefix.ip q) = network a b * 2 ^ (BitLen a - b).
Proof.
  intros Ha Hz Hb. unfold Prefix.of_Addr. rewrite (proj2 (Z.ltb_ge b 0)) by lia.
  destruct Hz as [Ez|Ez]; rewrite Ez; unfold BitLen in *; rewrite Ez in *.
  - rewrite (proj2 (Z.ltb_ge 32 b)) by lia. destruct (masked4 a b Ha Ez Hb) as [Hwf Hn].
    destruct (PrefixFrom_wf _ b Hwf) as (Hq & Ei & Eb); [by left|unfold BitLen; cbn [z]; lia|].
    eexists. split; [done|]. rewrite Ei. split_and!; done.
  - rewrite (proj2 (Z.ltb_ge 128 b)) by lia. destruct (masked6 a b Ha Ez Hb) as [Hwf Hn].
    destruct (PrefixFrom_wf _ b Hwf) as (Hq & Ei & Eb); [by right|unfold BitLen; cbn [z]; lia|].
    eexists. split; [done|]. rewrite Ei. split_and!; done.
Qed.

Lemma BitLen_z a b : z a = z b -> BitLen a = BitLen b.
Proof. unfold BitLen. by intros ->. Qed.

(** An address is given by its kind and its number. *)
Lemma host_number_inj a b :
  Addr_wf a -> Addr_wf b -> z a = z4 \/ z a = z6noz -> z a = z b -> host_number a = host_number b -> a = b.
Proof.
  intros Ha Hb Hz E Hn. apply Addr_ext; [done|]. apply u128_val_inj; [by apply Addr_wf_ok..|].
  destruct Hz as [Ez|Ez].
  - destruct (val_v4 a Ha Ez) as (Hha & Hqa & Hna & _), (val_v4 b Hb) as (Hhb & Hqb & Hnb & _); [congruence|].
    unfold u128_val. rewrite Hha, Hhb. rewrite Hna, Hnb in Hn. pose proof (Z.div_mod (lo (addr a)) (2 ^ 32) ltac:(lia)).
    pose proof (Z.div_mod (lo (addr b)) (2 ^ 32) ltac:(lia)). lia.
  - destruct (val_v6 a Ha Ez) as [Hna _], (val_v6 b Hb) as [Hnb _]; congruence.
Qed.

Lemma network_masked a q b :
  z (Prefix.ip q) = z a -> host_number (Prefix.ip q) = network a b * 2 ^ (BitLen a - b) -> b <= BitLen a ->
  network (Prefix.ip q) b = network a b.
Proof.
  intros Ez Hn Hb. unfold network at 1. rewrite Hn, (BitLen_z _ _ Ez). apply Z.div_mul. apply Z.pow_nonzero; lia.
Qed.

Lemma Masked_spec p :
  Prefix_wf p ->
  Prefix_wf (Prefix.Masked p) /\ Prefix.Masked (Prefix.Masked p) = Prefix.Masked p /\
  forall a, Addr_wf a -> Prefix.Contains (Prefix.Masked p) a = Prefix.Contains p a.
Proof.
  intros Hp. pose proof Hp as (Hip & Hzp & Hbp).
  destruct (of_Addr_spec (Prefix.ip p) (Prefix.Bits p) Hip Hzp Hbp) as (q & Eq & Hq & Ezq & Ebq & Hnq).
  assert (Prefix.Masked p = q) as -> by (unfold Prefix.Masked; by rewrite Eq).
  pose proof (network_masked _ q _ Ezq Hnq ltac:(lia)) as En. pose proof Hq as (Hiq & Hzq & Hbq).
  split; [done|]. split.
  - destruct (of_Addr_spec (Prefix.ip q) (Prefix.Bits q) Hiq Hzq Hbq) as (r & Er & (Hir & Hzr & _) & Ezr & Ebr & Hnr).
    unfold Prefix.Masked. rewrite Er.
    assert (Prefix.ip r = Prefix.ip q) as Ei.
    { apply host_number_inj; [done..|]. by rewrite Hnr, Hnq, Ebq, En, (BitLen_z _ _ Ezq). }
    unfold Prefix.Bits in Ebr. destruct r, q. simpl in *. f_equal; [done|lia].
  - intros a Ha. apply eq_true_iff_eq. rewrite !Contains_spec by done. by rewrite Ezq, Ebq, En.
Qed.

(** Prefixes overlap when they agree on the bits of the shorter one. *)
Lemma Overlaps_spec p o :
  Prefix_wf p -> Prefix_wf o ->
  let m := Z.min (Prefix.Bits p) (Prefix.Bits o) in
  Prefix.Overlaps p o = true <-> z (Prefix.ip p) = z (Prefix.ip o) /\ network (Prefix.ip p) m = network (Prefix.ip o) m.
Proof.
  intros (Hp & Hzp & Hbp) (Ho & Hzo & Hbo) m. unfold Prefix.Overlaps, Prefix.IsValid.
  rewrite !(proj2 (Z.ltb_lt 0 _)) by (unfold Prefix.Bits in *; lia). cbn [negb orb].
  case_bool_decide as Epo; [by subst|]. destruct (decide (z (Prefix.ip p) = z (Prefix.ip o))) as [Ez|Hne].
  2: { split; [|by intros []]. unfold Is4.
       destruct Hzp as [Hzp|Hzp], Hzo as [Hzo|Hzo]; rewrite Hzp, Hzo in *; done. }
  assert (Is4 (Prefix.ip p) = Is4 (Prefix.ip o)) as -> by (unfold Is4; by rewrite Ez). rewrite eqb_reflx. cbn [negb].
  assert ((if Prefix.Bits p <? Prefix.Bits o then Prefix.Bits p else Prefix.Bits o) = m) as ->
    by (unfold m; destruct (Z.ltb_spec (Prefix.Bits p) (Prefix.Bits o)); lia). cbv zeta.
  pose proof (BitLen_z _ _ Ez) as HB. destruct (Z.eqb_spec m 0) as [E0|Hm].
  { split; [|done]. intros _. split; [done|]. unfold network. rewrite E0, !Z.sub_0_r, !Z.div_small; [done| |];
      apply host_number_bound. }
  destruct (of_Addr_spec (Prefix.ip p) m Hp Hzp ltac:(lia)) as (q & -> & (Hq & _) & Ezq & _ & Hnq).
  destruct (of_Addr_spec (Prefix.ip o) m Ho Hzo ltac:(lia)) as (r & -> & (Hr & _) & Ezr & _ & Hnr).
  rewrite bool_decide_eq_true. split.
  - intros E. split; [done|]. rewrite <- (network_masked _ q m Ezq Hnq), <- (network_masked _ r m Ezr Hnr) by lia.
    by rewrite E.
  - intros [_ En]. apply host_number_inj; [done|done|by rewrite Ezq|congruence|]. by rewrite Hnq, Hnr, En, HB.
Qed.

(** What a netip.Prefix contains.  A valid prefix contains exactly the addresses
    of its own family without a zone that lie in the same network, i.e. whose number
    agrees with that of its address on the first Bits bits (for IPv4 and IPv6, by two
    different computations); Masked is valid, contains the same addresses and is its
    own Masked; and Overlaps holds exactly when some address is in both prefixes. *)
Theorem prefix_contains_exact p o :
  Prefix_wf p -> Prefix_wf o ->
  (forall a, Addr_wf a -> Prefix.Contains p a = true <->
     z a = z (Prefix.ip p) /\ network a (Prefix.Bits p) = network (Prefix.ip p) (Prefix.Bits p)) /\
  (Prefix_wf (Prefix.Masked p) /\ Prefix.Masked (Prefix.Masked p) = Prefix.Masked p /\
   forall a, Addr_wf a -> Prefix.Contains (Prefix.Masked p) a = Prefix.Contains p a) /\
  (Prefix.Overlaps p o = true <->
     exists a, Addr_wf a /\ Prefix.Contains p a = true /\ Prefix.Contains o a = true).
Proof.
  intros Hp Ho. split; [intros a; by apply Contains_spec|]. pose proof Hp as (Hip & Hzp & Hbp).
  pose proof Ho as (Hio & Hzo & Hbo). split.
  - by apply Masked_spec.
  - rewrite Overlaps_spec by done. split.
    + intros [Ez En]. destruct (Z.le_gt_cases (Prefix.Bits p) (Prefix.Bits o)).
      * rewrite Z.min_l in En by lia. exists (Prefix.ip o). rewrite !Contains_spec by done. done.
      * rewrite Z.min_r in En by lia. exists (Prefix.ip p). rewrite !Contains_spec by done. done.
    + intros (a & Ha & [Ez1 En1]%Contains_spec & [Ez2 En2]%Contains_spec); [|done..]. split; [congruence|].
      transitivity (network a (Z.min (Prefix.Bits p) (Prefix.Bits o))).
      * symmetry. eapply network_coarser; [by apply BitLen_z| |exact En1]. rewrite (BitLen_z _ _ Ez1). lia.
      * eapply network_coarser; [by apply BitLen_z| |exact En2]. rewrite (BitLen_z _ _ Ez2). lia.
Qed.

Lemma prefix_contains_exact_witness :
  let p := Prefix.PrefixFrom (AddrFrom4 [10; 1; 2; 3]) 8 in
  let o := Prefix.PrefixFrom (AddrFrom4 [10; 200; 0; 0]) 16 in
  Prefix.Contains p (AddrFrom4 [10; 200; 0; 9]) = true /\ Prefix.Overlaps p o = true.
Proof.
  intros p o.
  destruct (prefix_contains_exact p o) as (Hc & _ & Hov).
  - split; [|split; [by left|lit]]. vm_compute; split_and!; discriminate || done.
  - split; [|split; [by left|lit]]. vm_compute; split_and!; discriminate || done.
  - assert (Addr_wf (AddrFrom4 [10; 200; 0; 9])) as Ha by (vm_compute; split_and!; discriminate || done).
    split; [apply (Hc _ Ha); split; vm_compute; reflexivity|].
    apply Hov. exists (AddrFrom4 [10; 200; 0; 9]). split; [exact Ha|]. split; vm_compute; reflexivity.
Defined.

(** ** Text and binary forms *)

Lemma print_fields_app ip k i zs ze a ret :
  print_fields ip k i zs ze (a ++ ret) = a ++ print_fields ip k i zs ze ret.
Proof.
  revert i ret. induction k as [|k IH]; intros i ret; [done|]. cbn [print_fields].
  destruct (8 <=? i); [done|]. destruct (i =? zs).
  - cbv zeta. rewrite <- app_assoc. destruct (8 <=? ze); [done|]. rewrite !appendHex_app, <- app_assoc. apply IH.
  - rewrite !appendHex_app. destruct (0 <? i); rewrite <- ?app_assoc; apply IH.
Qed.

Lemma appendTo4_app ip b : appendTo4 ip b = b ++ string4 ip.
Proof. unfold string4, appendTo4. by rewrite !appendDecimal_app, <- !app_assoc. Qed.

Lemma appendTo6_app ip b : appendTo6 ip b = b ++ string6 ip.
Proof.
  unfold string6, appendTo6. destruct (longest_run ip 8 0 255 255) as [zs ze].
  pose proof (print_fields_app ip 8 0 zs ze b []) as E. rewrite app_nil_r in E. rewrite E.
  destruct (negb _); [by rewrite <- app_assoc|done].
Qed.

(** Appending the text of an address, and marshalling it, give its String. *)
Lemma AppendTo_String ip b : IsValid ip = true -> AppendTo ip b = b ++ Addr_String ip.
Proof.
  intros Hv. unfold AppendTo, Addr_String, IsValid in *. destruct (z ip) eqn:Ez; [done|by rewrite appendTo4_app| |];
    (destruct (Is4In6 ip); [|by rewrite appendTo6_app]); cbv zeta; rewrite (appendTo4_app _ (b ++ _));
    destruct (negb (bool_decide (Zone ip = []))); by rewrite <- !app_assoc.
Qed.

Lemma MarshalText_String ip : IsValid ip = true -> MarshalText ip = Addr_String ip.
Proof.
  intros Hv. unfold MarshalText, Addr_String, IsValid in *. destruct (z ip) eqn:Ez; [done|done| |];
    (destruct (Is4In6 ip); [|done]); cbv zeta; rewrite appendTo4_app;
    destruct (negb (bool_decide (Zone ip = []))); rewrite <- ?app_assoc; done.
Qed.

Lemma marshal_trailing ip n : marshalBinaryWithTrailingBytes ip n = MarshalBinary ip ++ repeat 0 n.
Proof. unfold marshalBinaryWithTrailingBytes, MarshalBinary. destruct (z ip); rewrite <- ?app_assoc; done. Qed.

Lemma take_len_app {A} (l r : list A) : take (Z.to_nat (len l)) (l ++ r) = l.
Proof. unfold len. by rewrite Nat2Z.id, take_app_length. Qed.

Lemma drop_len_cons {A} (l r : list A) x : drop (Z.to_nat (len l + 1)) (l ++ x :: r) = r.
Proof. unfold len. replace (Z.to_nat (Z.of_nat (length l) + 1)) with (length l + 1)%nat by lia. by rewrite drop_app_add. Qed.

Lemma not_in_decimal c s u : c < 48 \/ 57 < c -> canonical 10 s u -> c ∉ s.
Proof. intros Hc Hs%canonical_decimal Hin. rewrite Forall_forall in Hs. apply Hs in Hin. lia. Qed.

Lemma Prefix_eta p : Prefix_wf p -> Prefix.PrefixFrom (Prefix.ip p) (Prefix.Bits p) = p.
Proof.
  intros (Hip & Hz & Hb). destruct (PrefixFrom_wf _ _ Hip Hz Hb) as (_ & Ei & Eb). unfold Prefix.Bits in *.
  destruct (Prefix.PrefixFrom _ _), p. simpl in *. f_equal; [done|lia].
Qed.

Lemma ParsePrefix_String p : Prefix_wf p -> Prefix.ParsePrefix (Prefix.String p) = Ok p.
Proof.
  intros Hp. pose proof Hp as (Hip & Hz & Hb). assert (BitLen (Prefix.ip p) <= 128) as HB by (unfold BitLen; by destruct (z _)).
  assert (IsValid (Prefix.ip p) = true) as Hv by (unfold IsValid; by destruct Hz as [-> | ->]).
  unfold Prefix.String, Prefix.IsValid. rewrite (proj2 (Z.ltb_lt 0 _)) by (unfold Prefix.Bits in *; lia). cbn [negb].
  assert (canonical 10 (Itoa (Prefix.Bits p)) (Prefix.Bits p)) as Hc.
  { pose proof (Itoa_text (Prefix.Bits p) ltac:(lia)) as Ht. unfold signed_text in Ht.
    by rewrite (proj2 (Z.ltb_ge _ 0)) in Ht by lia. }
  unfold Prefix.ParsePrefix. change (str "/" ++ Itoa (Prefix.Bits p)) with (slash :: Itoa (Prefix.Bits p)).
  rewrite LastIndexByteString_last by (by eapply not_in_decimal; [|exact Hc]; lia).
  pose proof (len_nonneg (Addr_String (Prefix.ip p))). rewrite (proj2 (Z.ltb_ge _ 0)) by lia. cbv zeta.
  rewrite take_len_app, drop_len_cons, ParseAddr_String by done.
  assert (Is6 (Prefix.ip p) && negb (bool_decide (z (Prefix.ip p) = z6noz)) = false) as ->
    by (unfold Is6; by destruct Hz as [-> | ->]).
  assert ((1 <? len (Itoa (Prefix.Bits p))) && ((at_ (Itoa (Prefix.Bits p)) 0 <? 49) || (57 <? at_ (Itoa (Prefix.Bits p)) 0)) = false) as ->.
  { destruct (Z.ltb_spec 1 (len (Itoa (Prefix.Bits p)))) as [Hl|]; [|done]. cbn [andb].
    pose proof (can_lead _ _ _ Hc Hl) as H48. pose proof (canonical_decimal _ _ Hc) as Hd.
    destruct (Itoa (Prefix.Bits p)) as [|c s]; [by destruct (can_nonempty _ _ _ Hc)|]. unfold at_. simpl in *.
    apply Forall_cons in Hd as [Hd _]. by rewrite (proj2 (Z.ltb_ge c 49)), (proj2 (Z.ltb_ge 57 c)) by lia. }
  rewrite Atoi_Itoa by lia. rewrite (proj2 (Z.ltb_ge _ 0)) by lia.
  rewrite (proj2 (Z.ltb_ge _ (Prefix.Bits p))) by (unfold Is6, BitLen in *; destruct Hz as [Hz|Hz]; rewrite Hz in *; simpl; lia).
  cbn [orb]. by rewrite Prefix_eta.
Qed.

Lemma Prefix_binary p : Prefix_wf p -> Prefix.UnmarshalBinary (Prefix.MarshalBinary p) = Ok p.
Proof.
  intros Hp. pose proof Hp as (Hip & Hz & Hb). assert (BitLen (Prefix.ip p) <= 128) as HB by (unfold BitLen; by destruct (z _)).
  assert (withoutZone (Prefix.ip p) = Prefix.ip p) as E
    by (unfold withoutZone, Is6; destruct (Prefix.ip p); simpl in *; by destruct Hz as [-> | ->]).
  unfold Prefix.UnmarshalBinary, Prefix.MarshalBinary. rewrite E, marshal_trailing. cbv zeta. cbn [repeat].
  rewrite len_app. change (len [0]) with 1. rewrite insert_at_end by lia.
  assert (u8 (Prefix.Bits p) = Prefix.Bits p) as -> by (apply u8_byte; unfold is_byte; lia).
  pose proof (len_nonneg (MarshalBinary (Prefix.ip p))). rewrite len_app. change (len [_]) with 1.
  rewrite (proj2 (Z.ltb_ge _ 1)) by lia. replace (len (MarshalBinary (Prefix.ip p)) + 1 - 1) with (len (MarshalBinary (Prefix.ip p))) by lia.
  rewrite take_len_app, unmarshal_marshal, at_mid by done. by rewrite Prefix_eta.
Qed.

(** The form that both families give to an address and a port. *)
Definition host_text (a : Addr) : gostring :=
  if Is4 a then Addr_String a else lbracket :: Addr_String a ++ [rbracket].

Lemma AddrPort_text p :
  IsValid (AddrPort.ip p) = true -> is_u16 (AddrPort.port p) ->
  AddrPort.String p = host_text (AddrPort.ip p) ++ colon :: Uitoa (AddrPort.port p).
Proof.
  intros Hv Hp. unfold AddrPort.String, host_text, Is4, AddrPort.append_port.
  rewrite AppendUint_FormatUint, FormatUint_Uitoa by lia. unfold IsValid in Hv.
  destruct (z (AddrPort.ip p)) eqn:Ez; [done| | |]; cbn [bool_decide decide]; cbn [fmap option_fmap option_map default].
  - unfold Addr_String. rewrite Ez. by rewrite bool_decide_true, <- app_assoc.
  - rewrite bool_decide_false by done. by rewrite <- app_comm_cons, <- app_assoc.
  - rewrite bool_decide_false by done. by rewrite <- app_comm_cons, <- app_assoc.
Qed.

Lemma Addr_String_z4 a : Addr_wf a -> z a = z4 -> exists c s, Addr_String a = c :: s /\ 48 <= c <= 57.
Proof.
  intros Hwf Ez. destruct (Is4_inv a Hwf Ez) as (b & c & d & e & Hb & Hc & Hd & He & ->). unfold Addr_String. rewrite Ez.
  rewrite string4_AddrFrom4 by done. pose proof (dec_digits b Hb) as Hds. pose proof (dec_nonempty b).
  destruct (dec b) as [|x s]; [done|]. apply Forall_cons in Hds as [Hx _]. eexists _, _. split; [|exact Hx]. done.
Qed.

(** Brackets around the address are taken off, and only brackets are. *)
Lemma splitAddrPort_text a port :
  Addr_wf a -> IsValid a = true -> port <> [] -> colon ∉ port ->
  AddrPort.splitAddrPort (host_text a ++ colon :: port) = Ok (Addr_String a, port, negb (Is4 a)).
Proof.
  intros Hwf Hv Hne Hc. unfold AddrPort.splitAddrPort. rewrite LastIndexByteString_last by done.
  pose proof (len_nonneg (host_text a)). destruct (Z.eqb_spec (len (host_text a)) (-1)); [lia|]. cbv zeta.
  rewrite take_len_app, drop_len_cons.
  assert (len port =? 0 = false) as -> by (apply Z.eqb_neq; destruct port; [done|rewrite len_cons; pose proof (len_nonneg port); lia]).
  unfold host_text, Is4. case_bool_decide as Ez.
  - destruct (Addr_String_z4 a Hwf Ez) as (c & s & -> & Hd). rewrite len_cons. pose proof (len_nonneg s).
    destruct (Z.eqb_spec (1 + len s) 0); [lia|]. unfold at_. cbn [nth]. destruct (Z.eqb_spec c lbracket); [lia|]. done.
  - rewrite len_cons, len_app. change (len [rbracket]) with 1. pose proof (len_nonneg (Addr_String a)).
    destruct (Z.eqb_spec (1 + (len (Addr_String a) + 1)) 0); [lia|]. unfold at_ at 1. cbn [nth]. rewrite Z.eqb_refl.
    rewrite (proj2 (Z.ltb_ge _ 2)) by lia. rewrite app_comm_cons, at_mid by (rewrite len_cons; lia). rewrite Z.eqb_refl. cbn [negb orb].
    rewrite <- app_comm_cons. cbn [drop]. replace (1 + (len (Addr_String a) + 1) - 2) with (len (Addr_String a)) by lia.
    by rewrite drop_0, take_len_app.
Qed.

Lemma ParseAddrPort_String p :
  Addr_wf (AddrPort.ip p) -> IsValid (AddrPort.ip p) = true -> is_u16 (AddrPort.port p) ->
  AddrPort.ParseAddrPort (AddrPort.String p) = Ok p.
Proof.
  intros Hwf Hv Hp. pose proof (Uitoa_canonical (AddrPort.port p) ltac:(lia)) as Hc.
  unfold AddrPort.ParseAddrPort. rewrite AddrPort_text, splitAddrPort_text; try done.
  2: apply (can_nonempty _ _ _ Hc). 2: eapply not_in_decimal; [|exact Hc]; lia.
  rewrite (ParseUint_canonical 10 16 _ _ ltac:(lia) ltac:(lia) Hc) by (change (max_val 16) with 65535; lia).
  rewrite ParseAddr_String, negb_involutive by done.
  assert (negb (Is4 (AddrPort.ip p)) && Is4 (AddrPort.ip p) = false) as -> by (by destruct (Is4 _)).
  assert (Is4 (AddrPort.ip p) && Is6 (AddrPort.ip p) = false) as -> by (unfold Is4, Is6; by destruct (z (AddrPort.ip p))).
  assert (u16 (AddrPort.port p) = AddrPort.port p) as -> by (widths; zlia). by destruct p.
Qed.

Lemma AddrPort_binary p :
  Addr_wf (AddrPort.ip p) -> is_u16 (AddrPort.port p) ->
  AddrPort.UnmarshalBinary (AddrPort.MarshalBinary p) = Ok p.
Proof.
  intros Hwf Hp. unfold AddrPort.UnmarshalBinary, AddrPort.MarshalBinary. rewrite marshal_trailing. cbv zeta.
  set (m := MarshalBinary (AddrPort.ip p)).
  assert (take (Z.to_nat (len (m ++ repeat 0 2) - 2)) (m ++ repeat 0 2) = m) as ->.
  { rewrite len_app. change (len (repeat 0 2)) with 2. replace (len m + 2 - 2) with (len m) by lia. apply take_len_app. }
  rewrite len_app.
  assert (len (LittleEndian.AppendUint16 [] (AddrPort.port p)) = 2) as -> by done. pose proof (len_nonneg m).
  rewrite (proj2 (Z.ltb_ge _ 2)) by lia. replace (len m + 2 - 2) with (len m) by lia. rewrite take_len_app.
  unfold m. rewrite unmarshal_marshal by done. fold m.
  assert (drop (Z.to_nat (len m)) (m ++ LittleEndian.AppendUint16 [] (AddrPort.port p)) = LittleEndian.AppendUint16 [] (AddrPort.port p)) as ->
    by (unfold len; by rewrite Nat2Z.id, drop_app_length).
  pose proof (Uint16_Append (ByteOrderLaws := littleEndian_laws) (AddrPort.port p) [] Hp) as E. rewrite app_nil_r in E.
  change (LittleEndian.Uint16 (LittleEndian.AppendUint16 [] (AddrPort.port p)) = Some (AddrPort.port p)) in E. rewrite E. by destruct p.
Qed.

(** The digits that appendDecimal writes are the numeral. *)
Lemma dec_Uitoa x : is_byte x -> dec x = Uitoa x.
Proof.
  intros Hx. assert (forallb (fun x => bool_decide (dec x = Uitoa x)) (map Z.of_nat (seq 0 256)) = true) as H by lit.
  rewrite forallb_forall in H. specialize (H x). rewrite bool_decide_eq_true in H. apply H. apply in_map_iff.
  unfold is_byte in Hx. exists (Z.to_nat x). split; [lia|]. apply in_seq. lia.
Qed.

Lemma Prefix_AppendTo_String p b : Prefix_wf p -> Prefix.AppendTo p b = b ++ Prefix.String p.
Proof.
  intros (Hip & Hz & Hb). assert (BitLen (Prefix.ip p) <= 128) as HB by (unfold BitLen; by destruct (z _)).
  assert (IsValid (Prefix.ip p) = true) as Hv by (unfold IsValid; by destruct Hz as [-> | ->]).
  unfold Prefix.AppendTo, Prefix.String, Prefix.IsValid, Prefix.isZero. rewrite (proj2 (Z.ltb_lt 0 _)) by (unfold Prefix.Bits in *; lia).
  rewrite bool_decide_false by (intros ->; unfold Prefix.Bits in Hb; simpl in Hb; lia). cbn [negb]. cbv zeta.
  assert (u8 (Prefix.Bits p) = Prefix.Bits p) as -> by (apply u8_byte; unfold is_byte; lia).
  rewrite appendDecimal_app, dec_Uitoa by (unfold is_byte; lia).
  assert (Itoa (Prefix.Bits p) = Uitoa (Prefix.Bits p)) as -> by (unfold Itoa; by rewrite (proj2 (Z.ltb_ge _ 0)) by lia).
  assert ((if bool_decide (z (Prefix.ip p) = z4) then appendTo4 (Prefix.ip p) b
           else if Is4In6 (Prefix.ip p) then appendTo4 (Unmap (Prefix.ip p)) (b ++ str "::ffff:") else appendTo6 (Prefix.ip p) b)
          = b ++ Addr_String (Prefix.ip p)) as ->; [|by rewrite <- !app_assoc].
  rewrite <- AppendTo_String by done. unfold AppendTo, Zone. by destruct Hz as [-> | ->].
Qed.

Lemma append_port_text b port : is_u16 port -> AddrPort.append_port b port = b ++ Uitoa port.
Proof. intros Hp. unfold AddrPort.append_port. by rewrite AppendUint_FormatUint, FormatUint_Uitoa by lia. Qed.

Lemma AddrPort_AppendTo_String p b :
  IsValid (AddrPort.ip p) = true -> is_u16 (AddrPort.port p) -> AddrPort.AppendTo p b = b ++ AddrPort.String p.
Proof.
  intros Hv Hp. rewrite AddrPort_text by done. unfold AddrPort.AppendTo, host_text, Is4. set (a := AddrPort.ip p) in *.
  assert (b ++ str "[::ffff:" = (b ++ str "[") ++ str "::ffff:") as -> by (by rewrite <- app_assoc).
  assert (z a <> z0) as Hz by (unfold IsValid in Hv; by destruct (z a)). case_bool_decide as E4.
  - rewrite E4. cbv zeta. rewrite append_port_text by done. unfold Addr_String. rewrite E4.
    by rewrite appendTo4_app, <- !app_assoc.
  - pose proof (AppendTo_String a (b ++ str "[") Hv) as E. unfold AppendTo in E. cbv zeta in E |- *.
    destruct (z a); try done; cbn beta iota in E |- *; rewrite append_port_text by done;
      rewrite E; by rewrite <- ?app_comm_cons, <- !app_assoc.
Qed.

Lemma unmarshal_text_nonempty {A} (zero : result A) (parse : gobytes -> result A) text x :
  parse text = Ok x -> text <> [] -> (if len text =? 0 then zero else parse text) = Ok x.
Proof. intros E Hne. destruct text; [done|]. rewrite len_cons. pose proof (len_nonneg text). by destruct (Z.eqb_spec (1 + len text) 0); [lia|]. Qed.

Lemma text_nonempty (x y : gostring) c : x ++ c :: y <> [].
Proof. by destruct x. Qed.

Lemma Prefix_text_nonempty p : Prefix_wf p -> Prefix.String p <> [].
Proof.
  intros Hp E. pose proof (ParsePrefix_String p Hp) as HP. rewrite E in HP. vm_compute in HP. discriminate.
Qed.

(** Prefixes and address-port pairs survive their text and binary forms.  Every
    valid prefix is read back by ParsePrefix from its String, by UnmarshalText from its
    MarshalText (which prints on its own, and the same) and by UnmarshalBinary from its
    MarshalBinary; and every pair of a valid address (IPv4, IPv6 or IPv6 with any zone)
    and a 16-bit port is read back by ParseAddrPort, UnmarshalText and UnmarshalBinary
    in the same way. *)
Theorem prefix_addrport_round_trip p a port :
  Prefix_wf p -> Addr_wf a -> IsValid a = true -> is_u16 port ->
  let ap := AddrPort.AddrPortFrom a port in
  (Prefix.ParsePrefix (Prefix.String p) = Ok p /\
   Prefix.MarshalText p = Prefix.String p /\ Prefix.UnmarshalText (Prefix.MarshalText p) = Ok p /\
   Prefix.UnmarshalBinary (Prefix.MarshalBinary p) = Ok p) /\
  (AddrPort.ParseAddrPort (AddrPort.String ap) = Ok ap /\
   AddrPort.MarshalText ap = AddrPort.String ap /\ AddrPort.UnmarshalText (AddrPort.MarshalText ap) = Ok ap /\
   AddrPort.UnmarshalBinary (AddrPort.MarshalBinary ap) = Ok ap).
Proof.
  intros Hp Ha Hv Hport ap.
  assert (Prefix.MarshalText p = Prefix.String p) as E1 by (by apply Prefix_AppendTo_String).
  assert (AddrPort.MarshalText ap = AddrPort.String ap) as E2 by (by apply AddrPort_AppendTo_String).
  rewrite E1, E2. split_and!; auto using ParsePrefix_String, Prefix_binary, ParseAddrPort_String, AddrPort_binary.
  - apply unmarshal_text_nonempty; [by apply ParsePrefix_String|]. by apply Prefix_text_nonempty.
  - apply unmarshal_text_nonempty; [by apply ParseAddrPort_String|]. rewrite AddrPort_text by done. apply text_nonempty.
Qed.

Lemma prefix_addrport_round_trip_witness :
  let p := Prefix.PrefixFrom (AddrFrom4 [10; 1; 2; 3]) 8 in
  let a := WithZone (AddrFrom16 IPv6loopback) (str "lo") in
  Prefix.ParsePrefix (Prefix.String p) = Ok p /\
  AddrPort.ParseAddrPort (AddrPort.String (AddrPort.AddrPortFrom a 8080)) = Ok (AddrPort.AddrPortFrom a 8080).
Proof.
  intros p a. destruct (prefix_addrport_round_trip p a 8080) as ((H1 & _) & H2 & _).
  - split; [|split; [by left|lit]]. vm_compute; split_and!; discriminate || done.
  - vm_compute; split_and!; discriminate || done.
  - reflexivity.
  - lia.
  - exact (conj H1 H2).
Defined.
