(* ===== verification/Wire.v ===== *)
(** * friscy-proxy: the wire protocol

    [proxy/main.go]: the message types, the part of each handler that reads a
    request from its stream, and the bytes of an event. *)

From S2P Require Import Prelude ByteOrder GoIO Varint HostPort.

(** ** Message and socket types *)
Definition MsgConnect : Z := 1.
Definition MsgBind : Z := 2.
Definition MsgListen : Z := 3.
Definition MsgSend : Z := 4.
Definition MsgClose : Z := 5.
Definition MsgSendTo : Z := 6.

Definition MsgConnected : Z := 129.
Definition MsgConnectError : Z := 130.
Definition MsgData : Z := 131.
Definition MsgAccept : Z := 132.
Definition MsgClosed : Z := 133.
Definition MsgError : Z := 134.
Definition MsgRecvFrom : Z := 135.

Definition SOCK_STREAM : Z := 1.
Definition SOCK_DGRAM : Z := 2.

(** ** Decimal text

    The verb %d on an unsigned value, with no flags: the base-10 case of
    fmt.fmtInteger ([tools/go-patched/src/fmt/format.go]).  The digits are stored
    from the end of the buffer; [acc] is the part of it already filled.  A uint64
    has at most 20 digits. *)
Fixpoint fmtInteger_loop (fuel : nat) (u : Z) (acc : gostring) : gostring :=
  match fuel with
  | O => acc
  | S fuel =>
      if 10 <=? u then
        let next := u / 10 in
        fmtInteger_loop fuel next (u8 (48 + u - next * 10) :: acc)
      else u8 (48 + u) :: acc
  end.

Definition fmt_decimal (u : Z) : gostring := fmtInteger_loop 20 u [].

(** fmt.Sprintf("%s:%d", host, port) *)
Definition addr_of (host : gostring) (port : Z) : gostring := host ++ str ":" ++ fmt_decimal port.

(** ** Reading a request

    A handler either gets its fields, or gives up (a read failed: it logs and
    returns), or panics. *)
Inductive parsed (A : Type) : Type :=
  | Fields (a : A) (rest : stream)
  | Dropped
  | Panicked.
Arguments Fields {A} a rest.
Arguments Dropped {A}.
Arguments Panicked {A}.

(** [io.ReadFull(stream, buf)] with [len(buf) = n], the handler returning on error. *)
Definition read_full {A} (s : stream) (n : Z) (k : gobytes -> stream -> parsed A) : parsed A :=
  match ReadFull (fuel_for s) s n with
  | Some (s, (buf, None)) => k buf s
  | _ => Dropped
  end.

(** Decoding that indexes a buffer: [None] is a panic. *)
Definition or_panic {A B} (o : option A) (k : A -> parsed B) : parsed B :=
  match o with Some a => k a | None => Panicked end.

(** [binary.BigEndian.Uint32(b[lo:hi])] and its 16-bit sibling. *)
Definition field32 (b : gobytes) (lo hi : Z) : option Z :=
  f ← slice b lo hi; BigEndian.Uint32 f.
Definition field16 (b : gobytes) (lo hi : Z) : option Z :=
  f ← slice b lo hi; BigEndian.Uint16 f.

(** handleStream: the message type. *)
Definition read_msgType (s : stream) : option (Z * stream) :=
  let '(r, (x, err)) := ReadUvarint (byteReader_of s) in
  match err with None => Some (x, inner r) | Some _ => None end.

(** handleConnect: connID (4), sockType (1), hostLen (2), host, port (2).  The
    length of the second buffer, [hostLen+2], is computed in uint16. *)
Definition read_connect (s : stream) : parsed (Z * Z * gostring * Z) :=
  read_full s (4 + 1 + 2) (fun header s =>
  or_panic (field32 header 0 4) (fun connID =>
  or_panic (index header 4) (fun sockType =>
  or_panic (field16 header 5 7) (fun hostLen =>
  read_full s (u16 (hostLen + 2)) (fun hostBuf s =>
  or_panic (slice hostBuf 0 hostLen) (fun host =>
  or_panic (field16 hostBuf hostLen (len hostBuf)) (fun port =>
  Fields (connID, sockType, host, port) s))))))).

(** handleBind: connID (4), sockType (1), port (2). *)
Definition read_bind (s : stream) : parsed (Z * Z * Z) :=
  read_full s (4 + 1 + 2) (fun header s =>
  or_panic (field32 header 0 4) (fun connID =>
  or_panic (index header 4) (fun sockType =>
  or_panic (field16 header 5 7) (fun port =>
  Fields (connID, sockType, port) s)))).

(** handleListen: connID (4), backlog (4, not looked at). *)
Definition read_listen (s : stream) : parsed Z :=
  read_full s 8 (fun header s =>
  or_panic (field32 header 0 4) (fun connID => Fields connID s)).

(** handleSend: connID (4), dataLen (4), data. *)
Definition read_send (s : stream) : parsed (Z * gobytes) :=
  read_full s 8 (fun header s =>
  or_panic (field32 header 0 4) (fun connID =>
  or_panic (field32 header 4 8) (fun dataLen =>
  read_full s dataLen (fun data s => Fields (connID, data) s)))).

(** handleClose: connID (4). *)
Definition read_close (s : stream) : parsed Z :=
  read_full s 4 (fun header s =>
  or_panic (field32 header 0 4) (fun connID => Fields connID s)).

(** ** Events *)

(** A store through a sub-slice [b[lo:hi]] of a buffer, which shares its cells. *)
Definition put_sub (b : gobytes) (lo hi : Z) (put : gobytes -> option gobytes) : option gobytes :=
  sub ← slice b lo hi;
  sub ← put sub;
  Some (take (Z.to_nat lo) b ++ sub ++ drop (Z.to_nat hi) b).

(** The builtin [copy(dst, src)]: as many bytes as both have. *)
Definition copy_into (src dst : gobytes) : option gobytes :=
  let n := Nat.min (length src) (length dst) in
  Some (take n src ++ drop n dst).

(** sendEvent: the header and the data, as they are written to the stream. *)
Definition event_header (msgType connID dataLen : Z) : option gobytes :=
  let header := replicate 9 0 in
  header ← update header 0 msgType;
  header ← put_sub header 1 5 (fun b => BigEndian.PutUint32 b connID);
  put_sub header 5 9 (fun b => BigEndian.PutUint32 b (u32 dataLen)).

Definition event_bytes (msgType connID : Z) (data : gobytes) : option gobytes :=
  header ← event_header msgType connID (len data);
  Some (header ++ (if 0 <? len data then data else [])).

(** handleListen: the payload of MsgAccept. *)
Definition accept_payload (connID newConnID : Z) (remoteAddr : gostring) : option gobytes :=
  let addrBytes := remoteAddr in
  let payload := replicate (Z.to_nat (4 + 4 + 2 + len addrBytes)) 0 in
  payload ← put_sub payload 0 4 (fun b => BigEndian.PutUint32 b connID);
  payload ← put_sub payload 4 8 (fun b => BigEndian.PutUint32 b newConnID);
  payload ← put_sub payload 8 10 (fun b => BigEndian.PutUint16 b (u16 (len addrBytes)));
  put_sub payload 10 (len payload) (copy_into addrBytes).

(** ** The client's side of the protocol (specification)

    The layouts that the comments of the handlers give. *)
Definition be32 (v : Z) : gobytes := BigEndian.AppendUint32 [] v.
Definition be16 (v : Z) : gobytes := BigEndian.AppendUint16 [] v.

Definition connect_request (connID sockType : Z) (host : gostring) (port : Z) : gobytes :=
  be32 connID ++ [sockType] ++ be16 (len host) ++ host ++ be16 port.
Definition bind_request (connID sockType port : Z) : gobytes :=
  be32 connID ++ [sockType] ++ be16 port.
Definition listen_request (connID backlog : Z) : gobytes := be32 connID ++ be32 backlog.
Definition send_request (connID : Z) (data : gobytes) : gobytes :=
  be32 connID ++ be32 (len data) ++ data.
Definition close_request (connID : Z) : gobytes := be32 connID.

(** What a client reads back from an event stream. *)
Definition decode_event (b : gobytes) : option (Z * Z * gobytes) :=
  msgType ← index b 0;
  connID ← field32 b 1 5;
  dataLen ← field32 b 5 9;
  data ← slice b 9 (9 + dataLen);
  Some (msgType, connID, data).

Definition decode_accept (b : gobytes) : option (Z * Z * gostring) :=
  connID ← field32 b 0 4;
  newConnID ← field32 b 4 8;
  addrLen ← field16 b 8 10;
  addr ← slice b 10 (10 + addrLen);
  Some (connID, newConnID, addr).

(** ** Field access in concatenations *)

Lemma field32_at (a b : gobytes) v lo hi :
  is_u32 v -> lo = len a -> hi = len a + 4 -> field32 (a ++ be32 v ++ b) lo hi = Some v.
Proof.
  intros Hv -> ->. unfold field32. rewrite (slice_mid a (be32 v) b) by done.
  cbn [mbind option_bind]. rewrite <- (app_nil_r (be32 v)). exact (Uint32_Append (o:=bigEndian) v [] Hv).
Qed.

Lemma field16_at (a b : gobytes) v lo hi :
  is_u16 v -> lo = len a -> hi = len a + 2 -> field16 (a ++ be16 v ++ b) lo hi = Some v.
Proof.
  intros Hv -> ->. unfold field16. rewrite (slice_mid a (be16 v) b) by done.
  cbn [mbind option_bind]. rewrite <- (app_nil_r (be16 v)). exact (Uint16_Append (o:=bigEndian) v [] Hv).
Qed.

Lemma field32_head v b : is_u32 v -> field32 (be32 v ++ b) 0 4 = Some v.
Proof. intros. by apply (field32_at []). Qed.

(** Reading exactly the bytes that come first on the stream. *)
Lemma read_full_app {A} s (b rest : gobytes) n (k : gobytes -> stream -> parsed A) :
  pending s = b ++ rest -> n = len b ->
  exists s', pending s' = rest /\ fin s' = fin s /\ with_last s' = with_last s /\
    read_full s n k = k b s'.
Proof.
  intros Hp ->. destruct (ReadFull_stream s (len b) (len_nonneg b)) as (s' & Hf & Hw & H).
  rewrite Hp, len_app in H. rewrite decide_True in H by (pose proof (len_nonneg rest); lia).
  destruct H as [HR Hr]. unfold len in HR, Hr. rewrite Nat2Z.id in *.
  rewrite take_app_length in HR. rewrite drop_app_length in Hr.
  exists s'. split_and!; [done..|]. unfold read_full, len. by rewrite HR.
Qed.

(** A read that wants more than the stream holds makes the handler give up. *)
Lemma read_full_short {A} s n (k : gobytes -> stream -> parsed A) :
  len (pending s) < n -> read_full s n k = Dropped.
Proof.
  intros Hn. pose proof (len_nonneg (pending s)) as Hnn.
  destruct (ReadFull_stream s n ltac:(lia)) as (s' & _ & _ & H).
  rewrite decide_False in H by lia. destruct H as [HR _]. unfold read_full. by rewrite HR.
Qed.

Lemma read_full_cases {A} s n (k : gobytes -> stream -> parsed A) :
  0 <= n ->
  (len (pending s) < n /\ read_full s n k = Dropped) \/
  (exists b s', pending s = b ++ pending s' /\ len b = n /\ read_full s n k = k b s').
Proof.
  intros Hn. destruct (decide (len (pending s) < n)) as [Hs|Hs].
  { left. split; [done|]. by apply read_full_short. }
  right.
  assert (len (take (Z.to_nat n) (pending s)) = n) as Hl.
  { unfold len in *. rewrite length_take. lia. }
  destruct (read_full_app s (take (Z.to_nat n) (pending s)) (drop (Z.to_nat n) (pending s)) n k)
    as (s' & Hp & _ & _ & HR); [by rewrite take_drop|done|].
  exists (take (Z.to_nat n) (pending s)), s'. by rewrite Hp, take_drop.
Qed.

(** ** Taking a buffer apart into its fields *)

Lemma split_be32 (b : gobytes) :
  bytes_ok b -> 4 <= len b -> exists v r, is_u32 v /\ b = be32 v ++ r /\ bytes_ok r /\ len r = len b - 4.
Proof.
  intros Hok Hlen. destruct b as [|b0 [|b1 [|b2 [|b3 r]]]]; try (unfold len in Hlen; simpl in Hlen; lia).
  destruct (Append_Uint32 (o:=bigEndian) (b0 :: b1 :: b2 :: b3 :: r)
    (Z.lor (Z.lor (Z.lor b3 (Z.shiftl b2 8)) (Z.shiftl b1 16)) (Z.shiftl b0 24)) Hok eq_refl)
    as [Hu Ha].
  eexists _, r. split; [exact Hu|]. split.
  - match type of Hu with 0 <= ?v < _ => change (be32 v = [b0; b1; b2; b3]) in Ha end. by rewrite Ha.
  - split; [|rewrite !len_cons; lia]. by apply (Forall_drop _ 4) in Hok.
Qed.

Lemma split_be16 (b : gobytes) :
  bytes_ok b -> 2 <= len b -> exists v r, is_u16 v /\ b = be16 v ++ r /\ bytes_ok r /\ len r = len b - 2.
Proof.
  intros Hok Hlen. destruct b as [|b0 [|b1 r]]; try (unfold len in Hlen; simpl in Hlen; lia).
  destruct (Append_Uint16 (o:=bigEndian) (b0 :: b1 :: r) (Z.lor b1 (Z.shiftl b0 8)) Hok eq_refl)
    as [Hu Ha].
  eexists _, r. split; [exact Hu|]. split.
  - match type of Hu with 0 <= ?v < _ => change (be16 v = [b0; b1]) in Ha end. by rewrite Ha.
  - split; [|rewrite !len_cons; lia]. by apply (Forall_drop _ 2) in Hok.
Qed.

Lemma len_be32 v : len (be32 v) = 4. Proof. done. Qed.
Lemma len_be16 v : len (be16 v) = 2. Proof. done. Qed.
#[export] Hint Rewrite len_be32 len_be16 : go.

(** The seven-byte header of Connect and Bind. *)
Lemma split_header7 (b : gobytes) :
  bytes_ok b -> len b = 7 ->
  exists id ty x, is_u32 id /\ is_byte ty /\ is_u16 x /\ b = be32 id ++ [ty] ++ be16 x.
Proof.
  intros Hok Hlen. destruct (split_be32 b Hok ltac:(lia)) as (id & r & Hid & -> & Hr & Hl).
  destruct r as [|ty r]; [change (@len Z []) with 0 in Hl; lia|].
  apply Forall_cons in Hr as [Hty Hr]. rewrite len_cons in Hl.
  destruct (split_be16 r Hr ltac:(lia)) as (x & r' & Hx & -> & _ & Hl').
  destruct r'; [|rewrite len_cons in Hl'; pose proof (len_nonneg r'); lia].
  exists id, ty, x. by rewrite app_nil_r.
Qed.

Lemma header7_fields id ty x :
  is_u32 id -> is_u16 x ->
  field32 (be32 id ++ [ty] ++ be16 x) 0 4 = Some id /\
  index (be32 id ++ [ty] ++ be16 x) 4 = Some ty /\
  field16 (be32 id ++ [ty] ++ be16 x) 5 7 = Some x.
Proof.
  intros Hid Hx. split_and!.
  - by apply (field32_at []).
  - by apply index_mid.
  - rewrite app_assoc, <- (app_nil_r (be16 x)). by apply field16_at.
Qed.

Lemma be32_inj v w r1 r2 :
  is_u32 v -> is_u32 w -> be32 v ++ r1 = be32 w ++ r2 -> v = w /\ r1 = r2.
Proof.
  intros Hv Hw E. apply app_inj_1 in E as [E ->]; [|done].
  pose proof (field32_at [] [] v 0 4 Hv eq_refl eq_refl) as H1.
  pose proof (field32_at [] [] w 0 4 Hw eq_refl eq_refl) as H2.
  rewrite E in H1. split; congruence.
Qed.

Lemma be16_inj v w r1 r2 :
  is_u16 v -> is_u16 w -> be16 v ++ r1 = be16 w ++ r2 -> v = w /\ r1 = r2.
Proof.
  intros Hv Hw E. apply app_inj_1 in E as [E ->]; [|done].
  pose proof (field16_at [] [] v 0 2 Hv eq_refl eq_refl) as H1.
  pose proof (field16_at [] [] w 0 2 Hw eq_refl eq_refl) as H2.
  rewrite E in H1. split; congruence.
Qed.

(** ** What a request reader does

    [decodes layout read]: [read] never panics; it returns the fields of the
    request that comes first on the stream and leaves what follows it; and it
    gives up only when no complete request comes first. *)
Definition decodes {A} (layout : A -> gobytes -> Prop) (read : stream -> parsed A) : Prop :=
  forall s, bytes_ok (pending s) ->
    match read s with
    | Fields a s' => exists b, layout a b /\ pending s = b ++ pending s'
    | Dropped => forall a b rest, layout a b -> pending s <> b ++ rest
    | Panicked => False
    end.

Definition connect_layout : Z * Z * gostring * Z -> gobytes -> Prop :=
  fun '(connID, sockType, host, port) b =>
    b = connect_request connID sockType host port /\
    is_u32 connID /\ is_byte sockType /\ len host <= 65533 /\ is_u16 port.
Definition bind_layout : Z * Z * Z -> gobytes -> Prop :=
  fun '(connID, sockType, port) b =>
    b = bind_request connID sockType port /\ is_u32 connID /\ is_byte sockType /\ is_u16 port.
Definition listen_layout (connID : Z) (b : gobytes) : Prop :=
  is_u32 connID /\ exists backlog, is_u32 backlog /\ b = listen_request connID backlog.
Definition send_layout : Z * gobytes -> gobytes -> Prop :=
  fun '(connID, data) b =>
    b = send_request connID data /\ is_u32 connID /\ is_u32 (len data).
Definition close_layout (connID : Z) (b : gobytes) : Prop :=
  is_u32 connID /\ b = close_request connID.

(** The length of a complete request bounds that of the stream from below. *)
Lemma short_not_prefix {A} (b rest l : list A) : len l < len b -> l <> b ++ rest.
Proof. intros Hl ->. rewrite len_app in Hl. pose proof (len_nonneg rest). lia. Qed.

Lemma bytes_ok_app l1 l2 : bytes_ok (l1 ++ l2) <-> bytes_ok l1 /\ bytes_ok l2.
Proof. apply Forall_app. Qed.

Ltac req_len :=
  unfold connect_request, bind_request, listen_request, send_request, close_request;
  rewrite ?len_app, ?len_be32, ?len_be16, ?len_cons, ?len_nil; try lia.

(** Handlers whose buffers are read in one piece of [n] bytes. *)
Lemma decodes_fixed {A} (layout : A -> gobytes -> Prop) n (k : gobytes -> stream -> parsed A) :
  0 <= n ->
  (forall a b, layout a b -> len b = n) ->
  (forall b s', bytes_ok b -> len b = n -> exists a, layout a b /\ k b s' = Fields a s') ->
  decodes layout (fun s => read_full s n k).
Proof.
  intros Hn Hlen Hk s Hok.
  destruct (read_full_cases s n k Hn) as [[Hs ->]|(b & s' & Hp & Hb & ->)].
  - intros a b rest Hl. apply short_not_prefix. by rewrite (Hlen a b Hl).
  - rewrite Hp in Hok. apply bytes_ok_app in Hok as [Hok _].
    destruct (Hk b s' Hok Hb) as (a & Ha & ->). by exists b.
Qed.

Lemma read_bind_decodes : decodes bind_layout read_bind.
Proof.
  apply decodes_fixed; [done| |].
  - intros [[id ty] port] b [-> _]. req_len.
  - intros b s' Hok Hl. destruct (split_header7 b Hok Hl) as (id & ty & x & Hid & Hty & Hx & ->).
    exists (id, ty, x). split; [done|].
    destruct (header7_fields id ty x Hid Hx) as (-> & Hi & Hx16). cbn [or_panic].
    rewrite Hi. cbn [or_panic]. by rewrite Hx16.
Qed.

Lemma read_listen_decodes : decodes listen_layout read_listen.
Proof.
  apply decodes_fixed; [done| |].
  - intros id b (_ & bl & _ & ->). req_len.
  - intros b s' Hok Hl. destruct (split_be32 b Hok ltac:(lia)) as (id & r & Hid & -> & Hr & Hlr).
    destruct (split_be32 r Hr ltac:(lia)) as (bl & r' & Hbl & -> & _ & Hl').
    destruct r'; [|rewrite len_cons in Hl'; pose proof (len_nonneg r'); lia].
    exists id. split; [split; [done|]; exists bl; by rewrite app_nil_r|].
    by rewrite field32_head.
Qed.

Lemma read_close_decodes : decodes close_layout read_close.
Proof.
  apply decodes_fixed; [done| |].
  - intros id b [_ ->]. req_len.
  - intros b s' Hok Hl. destruct (split_be32 b Hok ltac:(lia)) as (id & r & Hid & -> & _ & Hlr).
    destruct r; [|rewrite len_cons in Hlr; pose proof (len_nonneg r); lia].
    exists id. split; [split; [done|]; by rewrite app_nil_r|].
    by rewrite field32_head.
Qed.

Lemma read_send_decodes : decodes send_layout read_send.
Proof.
  intros s Hok. unfold read_send.
  destruct (read_full_cases s 8 (fun header s =>
    or_panic (field32 header 0 4) (fun connID =>
    or_panic (field32 header 4 8) (fun dataLen =>
    read_full s dataLen (fun data s => Fields (connID, data) s)))) ltac:(lia))
    as [[Hs ->]|(b & s1 & Hp & Hb & ->)].
  { intros [id d] b rest (-> & _). apply short_not_prefix. req_len. pose proof (len_nonneg d). lia. }
  rewrite Hp in Hok. apply bytes_ok_app in Hok as [Hok Hok1].
  destruct (split_be32 b Hok ltac:(lia)) as (id & r & Hid & -> & Hr & Hlr).
  destruct (split_be32 r Hr ltac:(lia)) as (n & r' & Hn & -> & _ & Hl').
  destruct r'; [|rewrite len_cons in Hl'; pose proof (len_nonneg r'); lia].
  rewrite app_nil_r in *. rewrite field32_head by done. cbn [or_panic].
  rewrite <- (app_nil_r (be32 n)). rewrite (field32_at (be32 id) [] n) by done. cbn [or_panic].
  destruct (read_full_cases s1 n (fun data s => Fields (id, data) s) ltac:(lia))
    as [[Hs ->]|(d & s2 & Hp2 & Hd & ->)].
  - intros [id' d] b rest (-> & Hid' & Hd'). rewrite Hp. unfold send_request.
    rewrite <- !app_assoc. intros E. apply be32_inj in E as [_ E]; [|done..].
    apply be32_inj in E as [-> E]; [|done..]. by apply short_not_prefix in E.
  - exists (send_request id d). rewrite Hp, Hp2. unfold send_layout, send_request.
    rewrite Hd, <- !app_assoc. done.
Qed.

(** A connect header whose host length is so large that [hostLen+2] wraps around to 0 or
    1, followed by that many bytes. *)
Definition host_overflow (b : gobytes) : Prop :=
  exists connID sockType hostLen rest,
    b = be32 connID ++ [sockType] ++ be16 hostLen ++ rest /\
    65534 <= hostLen < 65536 /\ hostLen - 65534 <= len rest.

(** The length that a header announces is determined by the bytes. *)
Lemma connect_header_inj id ty n rest id' ty' n' rest' :
  is_u16 n -> is_u16 n' ->
  be32 id ++ [ty] ++ be16 n ++ rest = be32 id' ++ [ty'] ++ be16 n' ++ rest' -> n = n' /\ rest = rest'.
Proof.
  intros Hn Hn' E. apply app_inj_1 in E as [_ E]; [|done]. apply app_inj_1 in E as [_ E]; [|done]. by apply be16_inj in E.
Qed.

(** Connect: the same, except for the two host lengths for which [hostLen+2]
    wraps around. *)
Lemma read_connect_cases s :
  bytes_ok (pending s) ->
  match read_connect s with
  | Fields a s' => exists b, connect_layout a b /\ pending s = b ++ pending s'
  | Dropped => (forall a b rest, connect_layout a b -> pending s <> b ++ rest) /\ ~ host_overflow (pending s)
  | Panicked => host_overflow (pending s)
  end.
Proof.
  intros Hok. unfold read_connect.
  match goal with |- context [read_full s _ ?k] =>
    destruct (read_full_cases s (4 + 1 + 2) k ltac:(lia)) as [[Hs ->]|(b & s1 & Hp & Hb & ->)] end.
  { split.
    - intros [[[id ty] h] p] b rest (-> & _). apply short_not_prefix. req_len. pose proof (len_nonneg h). lia.
    - intros (id & ty & n & rest & E & _). rewrite E, !len_app in Hs. change (len (be32 id)) with 4 in Hs. change (len (be16 n)) with 2 in Hs.
      change (len [ty]) with 1 in Hs. pose proof (len_nonneg rest). lia. }
  rewrite Hp in Hok. apply bytes_ok_app in Hok as [Hok Hok1].
  destruct (split_header7 b Hok Hb) as (id & ty & n & Hid & Hty & Hn & ->).
  destruct (header7_fields id ty n Hid Hn) as (-> & Hi & Hx16). cbn [or_panic].
  rewrite Hi. cbn [or_panic]. rewrite Hx16. cbn [or_panic].
  assert (0 <= u16 (n + 2)) as Hnn by (widths; zlia).
  match goal with |- context [read_full s1 _ ?k] =>
    destruct (read_full_cases s1 (u16 (n + 2)) k Hnn) as [[Hs ->]|(h & s2 & Hp2 & Hh & ->)] end.
  - rewrite Hp. split.
    + intros [[[id' ty'] h] p] b rest (-> & Hid' & _ & Hlen & _). unfold connect_request.
      rewrite <- !app_assoc. intros E. pose proof (len_nonneg h). apply connect_header_inj in E as [-> E]; [|lia..].
      rewrite app_assoc in E. apply short_not_prefix in E; [done|]. req_len. widths. zlia.
    + intros (id' & ty' & n' & rest & E & Hbig & Hrest). rewrite <- !app_assoc in E. apply connect_header_inj in E as [-> E]; [|lia..].
      rewrite E in Hs. revert Hs. widths. zlia.
  - destruct (decide (n <= 65533)) as [Hsmall|Hbig].
    + assert (u16 (n + 2) = n + 2) as Hw by (widths; zlia). rewrite Hw in *.
      rewrite Hp2 in Hok1. apply bytes_ok_app in Hok1 as [Hokh _].
      rewrite <- (take_drop (Z.to_nat n) h) in Hokh. apply bytes_ok_app in Hokh as [_ Hokd].
      assert (len (take (Z.to_nat n) h) = n /\ len (drop (Z.to_nat n) h) = 2) as [Ht Hd].
      { unfold len in *. rewrite length_take, length_drop. lia. }
      destruct (split_be16 _ Hokd ltac:(lia)) as (p & r & Hpt & Hdr & _ & Hr).
      destruct r; [|rewrite len_cons in Hr; pose proof (len_nonneg r); lia].
      set (host := take (Z.to_nat n) h) in *.
      assert (h = host ++ be16 p) as Heq by (unfold host; by rewrite <- (app_nil_r (be16 p)), <- Hdr, take_drop).
      rewrite Heq, <- Ht, slice_app_l. cbn [or_panic].
      rewrite <- (app_nil_r (be16 p)). rewrite (field16_at host [] p); [|done|done|by rewrite app_nil_r, len_app, len_be16].
      cbn [or_panic]. exists (connect_request id ty host p). split; [split_and!; done || lia|].
      rewrite Hp, Hp2, Heq. unfold connect_request. by rewrite Ht, <- !app_assoc.
    + assert (u16 (n + 2) = n - 65534) as Hw by (widths; zlia).
      unfold slice. rewrite decide_False by lia. cbn [or_panic].
      unfold host_overflow. exists id, ty, n, (pending s1). rewrite Hp, <- !app_assoc. split_and!; [done|lia..|].
      rewrite Hp2, len_app. pose proof (len_nonneg (pending s2)). lia.
Qed.

(** ** Events *)

Lemma event_header_layout msgType connID dataLen :
  event_header msgType connID dataLen = Some ([msgType] ++ be32 connID ++ be32 (u32 dataLen)).
Proof. reflexivity. Qed.

Lemma put_sub_app (l a b c b' : gobytes) lo hi put :
  l = a ++ b ++ c -> lo = len a -> hi = len a + len b -> put b = Some b' ->
  put_sub l lo hi put = Some (a ++ b' ++ c).
Proof.
  intros -> -> -> Hput. unfold put_sub. rewrite (slice_mid a b c) by done.
  cbn [mbind option_bind]. rewrite Hput. cbn [mbind option_bind].
  unfold len. rewrite Nat2Z.id, take_app_length.
  replace (Z.to_nat (Z.of_nat (length a) + Z.of_nat (length b))) with (length a + length b)%nat by lia.
  by rewrite <- drop_drop, !drop_app_length.
Qed.

Lemma accept_payload_layout connID newConnID addr :
  accept_payload connID newConnID addr =
  Some (be32 connID ++ be32 newConnID ++ be16 (u16 (len addr)) ++ addr).
Proof.
  unfold accept_payload. pose proof (len_nonneg addr).
  replace (Z.to_nat (4 + 4 + 2 + len addr)) with (4 + (4 + (2 + length addr)))%nat by (unfold len; lia).
  rewrite !replicate_add. set (z := replicate (length addr) 0).
  assert (length z = length addr) as Hz by apply length_replicate.
  set (z10 := be16 (u16 (len addr))).
  rewrite (put_sub_app _ [] (replicate 4 0) (replicate 4 0 ++ replicate 2 0 ++ z) (be32 connID)) by done.
  cbn [mbind option_bind app].
  rewrite (put_sub_app _ (be32 connID) (replicate 4 0) (replicate 2 0 ++ z) (be32 newConnID)) by done.
  cbn [mbind option_bind].
  rewrite (put_sub_app _ (be32 connID ++ be32 newConnID) (replicate 2 0) z z10) by done.
  cbn [mbind option_bind].
  rewrite (put_sub_app _ ((be32 connID ++ be32 newConnID) ++ z10) z [] addr).
  - by rewrite app_nil_r, <- !app_assoc.
  - by rewrite app_nil_r, <- !app_assoc.
  - done.
  - by rewrite app_assoc, (len_app (_ ++ z10)).
  - unfold copy_into. rewrite Hz, Nat.min_id, firstn_all.
    by rewrite drop_ge, app_nil_r by lia.
Qed.

Lemma fmtInteger_loop_digits fuel v acc :
  0 <= v < 10 ^ Z.of_nat fuel -> Forall (fun c => 48 <= c <= 57) acc ->
  Forall (fun c => 48 <= c <= 57) (fmtInteger_loop fuel v acc).
Proof.
  revert v acc. induction fuel as [|fuel IH]; intros v acc Hv Hacc; simpl; [done|].
  destruct (10 <=? v) eqn:E; zbool.
  - rewrite Nat2Z.inj_succ, Z.pow_succ_r in Hv by lia. apply IH.
    + split; [zlia|]. apply Z.div_lt_upper_bound; lia.
    + constructor; [|done]. widths. zlia.
  - constructor; [|done]. widths. zlia.
Qed.

(** ** Messages on a stream *)

Lemma read_msgType_uvarint s x rest :
  stream_wf s -> with_last s = false -> bytes_ok rest -> is_u64 x ->
  pending s = uvarint_bytes x ++ rest ->
  exists s', read_msgType s = Some (x, s') /\ pending s' = rest.
Proof.
  intros Hwf Hl Hr Hx Hp.
  destruct (ReadUvarint_spec (byteReader_of s)) as ([s'] & a & HR & _ & H); [by split|].
  simpl content in H. rewrite Hp, Uvarint_uvarint_bytes in H by done.
  pose proof (uvarint_bytes_length x Hx). destruct H as [H _]. destruct (H ltac:(lia)) as [-> Hc].
  exists s'. unfold read_msgType. rewrite HR. split; [done|]. simpl in Hc. rewrite Hc.
  unfold len. by rewrite Nat2Z.id, drop_app_length.
Qed.

Lemma read_connect_request s connID sockType host port rest :
  bytes_ok (pending s) ->
  connect_layout (connID, sockType, host, port) (connect_request connID sockType host port) ->
  pending s = connect_request connID sockType host port ++ rest ->
  exists s', read_connect s = Fields (connID, sockType, host, port) s' /\ pending s' = rest.
Proof.
  intros Hok Hl Hp. pose proof Hl as (_ & Hid & _ & Hh & Hport).
  pose proof (len_nonneg host). pose proof (read_connect_cases s Hok) as H0.
  destruct (read_connect s) as [[[[id ty] h] p] s'| |].
  - destruct H0 as (b & (-> & Hid' & _ & Hh' & Hp') & E). pose proof (len_nonneg h).
    rewrite Hp in E. unfold connect_request in E. rewrite <- !app_assoc in E.
    apply be32_inj in E as [-> E]; [|done..]. apply (app_inj_1 [sockType] [ty]) in E as [[= ->] E]; [|done].
    apply be16_inj in E as [El E]; [|lia..]. apply len_inj_app in E as [-> E]; [|done].
    apply be16_inj in E as [-> ->]; [|done..]. by exists s'.
  - exfalso. by apply (proj1 H0 _ _ rest Hl).
  - exfalso. destruct H0 as (id & ty & n & r & E & Hn & _). rewrite Hp in E.
    unfold connect_request in E. rewrite <- !app_assoc in E.
    apply app_inj_1 in E as [_ E]; [|done]. apply app_inj_1 in E as [_ E]; [|done].
    apply be16_inj in E as [El _]; lia.
Qed.

Lemma host_overflow_iff b :
  host_overflow b <-> exists connID sockType hostLen rest,
    b = be32 connID ++ [sockType] ++ be16 hostLen ++ rest /\ (hostLen = 65534 \/ hostLen = 65535 /\ rest <> []).
Proof.
  split; intros (id & ty & n & rest & E & Hn); exists id, ty, n, rest; (split; [done|]).
  - destruct (decide (n = 65534)) as [->|Hne]; [by left|]. right. split; [lia|]. intros ->. change (@len Z []) with 0 in Hn. lia.
  - pose proof (len_nonneg rest). destruct Hn as [->|[-> Hne]]; [lia|]. destruct rest; [done|]. rewrite len_cons. pose proof (len_nonneg rest). lia.
Qed.

Lemma read_connect_panics s : bytes_ok (pending s) -> read_connect s = Panicked <-> host_overflow (pending s).
Proof.
  intros Hok. pose proof (read_connect_cases s Hok) as H0. destruct (read_connect s) as [[[[id ty] h] p] s'| |].
  - split; [done|]. intros (id' & ty' & n & r & E & Hn & _). destruct H0 as (b & (-> & _ & _ & Hh & _) & Hp). rewrite Hp in E. unfold connect_request in E.
    rewrite <- !app_assoc in E. pose proof (len_nonneg h). apply connect_header_inj in E as [? _]; lia.
  - by split; [|intros ?; destruct H0].
  - done.
Qed.

(** ** Claims *)

(** [C35] Every request without a host is decoded exactly.  On a stream of bytes,
    the readers of bind, listen, send and close never panic, return the fields of
    the request that comes first and leave the rest of the stream, and give up
    only when no complete request comes first. *)
Theorem requests_decode :
  decodes bind_layout read_bind /\ decodes listen_layout read_listen /\
  decodes send_layout read_send /\ decodes close_layout read_close.
Proof.
  split_and!; [apply read_bind_decodes|apply read_listen_decodes|apply read_send_decodes|
    apply read_close_decodes].
Qed.

(** [C4] What handleConnect does with any bytes.  It gets fields exactly when the connect
    request with these fields comes first, and leaves what follows; it panics exactly when
    the announced host length is 65534, or 65535 with one more byte behind the header, for
    which [hostLen+2] wraps around to 0 and 1; and it gives up on everything else. *)
Theorem connect_decodes_or_panics (s : stream) :
  bytes_ok (pending s) ->
  (forall connID sockType host port rest,
     (exists s', read_connect s = Fields (connID, sockType, host, port) s' /\ pending s' = rest) <->
     pending s = connect_request connID sockType host port ++ rest /\
     is_u32 connID /\ is_byte sockType /\ len host <= 65533 /\ is_u16 port) /\
  (read_connect s = Panicked <->
     exists connID sockType hostLen rest,
       pending s = be32 connID ++ [sockType] ++ be16 hostLen ++ rest /\
       (hostLen = 65534 \/ hostLen = 65535 /\ rest <> [])).
Proof.
  intros Hok. split.
  - intros id ty h p rest. split.
    + intros (s' & E & <-). pose proof (read_connect_cases s Hok) as H0. rewrite E in H0. destruct H0 as (b & (-> & ?) & ?). done.
    + intros [E ?]. by apply read_connect_request.
  - rewrite (read_connect_panics s Hok). apply host_overflow_iff.
Qed.

Lemma connect_decodes_or_panics_witness :
  read_connect (mk_stream [[0; 0; 0; 9]; [1; 255; 254]] EOF false) = Panicked.
Proof.
  apply (connect_decodes_or_panics (mk_stream [[0; 0; 0; 9]; [1; 255; 254]] EOF false)
    ltac:(vm_compute; repeat constructor; discriminate)).
  exists 9, 1, 65534, []. split; [reflexivity|by left].
Defined.

(** A connect message as the client sends it is understood: on a stream that
    carries the varint type and the request, cut into chunks in any way, the
    message type is read as MsgConnect and the handler gets the fields that were
    sent, leaving what follows; the address it dials then splits back into the
    host that was sent and a decimal port, for hosts without colons and
    brackets. *)
Theorem connect_message_understood (s : stream) connID sockType host port rest :
  stream_wf s -> with_last s = false -> bytes_ok (pending s) ->
  is_u32 connID -> is_byte sockType -> len host <= 65533 -> is_u16 port ->
  pending s = AppendUvarint [] MsgConnect ++ connect_request connID sockType host port ++ rest ->
  exists s1 s2,
    read_msgType s = Some (MsgConnect, s1) /\
    read_connect s1 = Fields (connID, sockType, host, port) s2 /\ pending s2 = rest /\
    (colon ∉ host -> no_brackets host ->
     SplitHostPort (addr_of host port) = Some (Ok (host, fmt_decimal port)) /\
     Forall (fun c => 48 <= c <= 57) (fmt_decimal port)).
Proof.
  intros Hwf Hlast Hok Hid Hty Hh Hport Hp.
  rewrite Hp in Hok. apply bytes_ok_app in Hok as [_ Hok].
  destruct (read_msgType_uvarint s MsgConnect (connect_request connID sockType host port ++ rest))
    as (s1 & Hm & Hp1); [done|done|done|done|done|].
  destruct (read_connect_request s1 connID sockType host port rest) as (s2 & Hc & Hp2);
    [by rewrite Hp1|done|done|].
  exists s1, s2. split_and!; [done..|]. intros Hcol Hbr.
  assert (Forall (fun c => 48 <= c <= 57) (fmt_decimal port)) as Hd.
  { apply fmtInteger_loop_digits; [|constructor]. change (10 ^ Z.of_nat 20) with 100000000000000000000. lia. }
  split; [|done]. destruct (SplitHostPort_spec (addr_of host port)) as (r & -> & Hr). f_equal.
  assert (forall c, (c < 48 \/ 57 < c) -> c ∉ fmt_decimal port) as Hnot.
  { intros c Hc' Hin. eapply Forall_forall in Hd; [|exact Hin]. simpl in Hd. lia. }
  apply Hr. split_and!; [apply Hnot; by left + (right; done)|done| |by left].
  split; apply Hnot; right; done.
Qed.

Lemma connect_message_understood_witness :
  let s := mk_stream [[1; 0; 0]; [0; 7; 1; 0; 1; 104]; [1; 187; 99]] EOF false in
  exists s1 s2,
    read_msgType s = Some (MsgConnect, s1) /\
    read_connect s1 = Fields (7, SOCK_STREAM, str "h", 443) s2 /\ pending s2 = [99] /\
    (colon ∉ str "h" -> no_brackets (str "h") ->
     SplitHostPort (addr_of (str "h") 443) = Some (Ok (str "h", fmt_decimal 443)) /\
     Forall (fun c => 48 <= c <= 57) (fmt_decimal 443)).
Proof.
  intros s. apply (connect_message_understood s 7 SOCK_STREAM (str "h") 443 [99]);
    try (vm_compute; repeat constructor; discriminate); reflexivity.
Defined.

(** An event is one message type, one connection id, the length of its data
    and the data: what sendEvent writes is read back by a client as the same
    three fields, and the payload of an accept event as the two ids and the
    address. *)
Theorem events_round_trip msgType connID newConnID (data : gobytes) (addr : gostring) :
  is_u32 connID -> is_u32 newConnID -> is_u32 (len data) -> is_u16 (len addr) ->
  (exists b, event_bytes msgType connID data = Some b /\
     decode_event b = Some (msgType, connID, data) /\ len b = 9 + len data) /\
  (exists b, accept_payload connID newConnID addr = Some b /\
     decode_accept b = Some (connID, newConnID, addr)).
Proof.
  intros Hid Hnew Hd Ha. split.
  - unfold event_bytes. rewrite event_header_layout. cbn [mbind option_bind].
    eexists. split; [done|].
    assert ((if 0 <? len data then data else []) = data) as ->.
    { destruct (0 <? len data) eqn:E; [done|]. zbool. destruct data; [done|].
      rewrite len_cons in E. pose proof (len_nonneg data). lia. }
    assert (u32 (len data) = len data) as -> by (widths; zlia).
    split; [|autorewrite with go; lia]. unfold decode_event.
    rewrite <- !app_assoc. replace (index _ 0) with (Some msgType) by done. cbn [mbind option_bind].
    rewrite (field32_at [msgType] _ connID 1 5 Hid eq_refl eq_refl). cbn [mbind option_bind].
    rewrite (app_assoc [msgType]), (field32_at ([msgType] ++ be32 connID) _ (len data) 5 9 Hd eq_refl eq_refl).
    cbn [mbind option_bind].
    by rewrite app_assoc, (slice_end _ data).
  - rewrite accept_payload_layout. eexists. split; [done|].
    assert (u16 (len addr) = len addr) as -> by (widths; zlia). unfold decode_accept.
    rewrite field32_head by done. cbn [mbind option_bind].
    rewrite (field32_at (be32 connID) _ newConnID 4 8 Hnew eq_refl eq_refl). cbn [mbind option_bind].
    rewrite (app_assoc (be32 connID)), (field16_at (be32 connID ++ be32 newConnID) _ (len addr) 8 10 Ha eq_refl eq_refl).
    cbn [mbind option_bind].
    by rewrite app_assoc, (slice_end _ addr).
Qed.

Lemma events_round_trip_witness :
  (exists b, event_bytes MsgData 5 [10; 20] = Some b /\
     decode_event b = Some (MsgData, 5, [10; 20]) /\ len b = 9 + 2) /\
  (exists b, accept_payload 5 6 (str "1.2.3.4:5") = Some b /\
     decode_accept b = Some (5, 6, str "1.2.3.4:5")).
Proof.
  apply (events_round_trip MsgData 5 6 [10; 20] (str "1.2.3.4:5")); vm_compute; split; congruence.
Defined.
