(* ===== verification/HttpServe.v ===== *)
(** * net/http: answers of the server itself

    [tools/go-patched/src/net/http/server.go]: [Error], [NotFound] and [Redirect], what the
    multiplexer answers when it has no handler to call, [serverHandler], which takes
    [OPTIONS *] from it, and the round of [conn.serve] that reads one request: the answers
    to requests that cannot be read, the Expect header and the call of the handler;
    [StatusText] of status.go and [hexEscapeNonASCII] of http.go.  An answer is a value: the
    headers, the status and the body written. *)

From S2P Require Import Prelude Wire GoIO HostPort Strconv Strings Url UrlParse TextProto PathClean Pattern Routing Mux Bufio TextReader Chunked Transfer ReadRequest.
Local Open Scope go_scope.
Local Set Warnings "-clear-no-such-hyp".

(** ** Responses *)

(** What has been written: the headers set, the status (the first one counts; a
    body written without one means 200) and the body. *)
Record response := mk_response {
  hdr : gmap gostring gostring;
  status : option Z;
  rbody : gobytes;
}.

Definition no_response : response := mk_response ∅ None [].

Definition Header_Set (w : response) (k v : gostring) : response :=
  mk_response (<[k := v]> (hdr w)) (status w) (rbody w).
Definition WriteHeader (w : response) (code : Z) : response :=
  mk_response (hdr w) (Some (default code (status w))) (rbody w).
Definition Write (w : response) (b : gobytes) : response :=
  mk_response (hdr w) (Some (default 200 (status w))) (rbody w ++ b).

Definition StatusOK : Z := 200.
Definition StatusNoContent : Z := 204.
Definition StatusMovedPermanently : Z := 301.
Definition StatusBadRequest : Z := 400.
Definition StatusNotFound : Z := 404.
Definition StatusMethodNotAllowed : Z := 405.
Definition StatusExpectationFailed : Z := 417.
Definition StatusTooManyRequests : Z := 429.
Definition StatusInternalServerError : Z := 500.
Definition StatusNotImplemented : Z := 501.
Definition StatusBadGateway : Z := 502.

Definition StatusText (code : Z) : gostring :=
  if code =? 100 then str "Continue"
  else if code =? 101 then str "Switching Protocols"
  else if code =? 102 then str "Processing"
  else if code =? 103 then str "Early Hints"
  else if code =? 200 then str "OK"
  else if code =? 201 then str "Created"
  else if code =? 202 then str "Accepted"
  else if code =? 203 then str "Non-Authoritative Information"
  else if code =? 204 then str "No Content"
  else if code =? 205 then str "Reset Content"
  else if code =? 206 then str "Partial Content"
  else if code =? 207 then str "Multi-Status"
  else if code =? 208 then str "Already Reported"
  else if code =? 226 then str "IM Used"
  else if code =? 300 then str "Multiple Choices"
  else if code =? 301 then str "Moved Permanently"
  else if code =? 302 then str "Found"
  else if code =? 303 then str "See Other"
  else if code =? 304 then str "Not Modified"
  else if code =? 305 then str "Use Proxy"
  else if code =? 307 then str "Temporary Redirect"
  else if code =? 308 then str "Permanent Redirect"
  else if code =? 400 then str "Bad Request"
  else if code =? 401 then str "Unauthorized"
  else if code =? 402 then str "Payment Required"
  else if code =? 403 then str "Forbidden"
  else if code =? 404 then str "Not Found"
  else if code =? 405 then str "Method Not Allowed"
  else if code =? 406 then str "Not Acceptable"
  else if code =? 407 then str "Proxy Authentication Required"
  else if code =? 408 then str "Request Timeout"
  else if code =? 409 then str "Conflict"
  else if code =? 410 then str "Gone"
  else if code =? 411 then str "Length Required"
  else if code =? 412 then str "Precondition Failed"
  else if code =? 413 then str "Request Entity Too Large"
  else if code =? 414 then str "Request URI Too Long"
  else if code =? 415 then str "Unsupported Media Type"
  else if code =? 416 then str "Requested Range Not Satisfiable"
  else if code =? 417 then str "Expectation Failed"
  else if code =? 418 then str "I'm a teapot"
  else if code =? 421 then str "Misdirected Request"
  else if code =? 422 then str "Unprocessable Entity"
  else if code =? 423 then str "Locked"
  else if code =? 424 then str "Failed Dependency"
  else if code =? 425 then str "Too Early"
  else if code =? 426 then str "Upgrade Required"
  else if code =? 428 then str "Precondition Required"
  else if code =? 429 then str "Too Many Requests"
  else if code =? 431 then str "Request Header Fields Too Large"
  else if code =? 451 then str "Unavailable For Legal Reasons"
  else if code =? 500 then str "Internal Server Error"
  else if code =? 501 then str "Not Implemented"
  else if code =? 502 then str "Bad Gateway"
  else if code =? 503 then str "Service Unavailable"
  else if code =? 504 then str "Gateway Timeout"
  else if code =? 505 then str "HTTP Version Not Supported"
  else if code =? 506 then str "Variant Also Negotiates"
  else if code =? 507 then str "Insufficient Storage"
  else if code =? 508 then str "Loop Detected"
  else if code =? 510 then str "Not Extended"
  else if code =? 511 then str "Network Authentication Required"
  else [].

Definition http_Error (w : response) (msg : gostring) (code : Z) : response :=
  let w := Header_Set w (str "Content-Type") (str "text/plain; charset=utf-8") in
  let w := Header_Set w (str "X-Content-Type-Options") (str "nosniff") in
  let w := WriteHeader w code in
  Write w (msg ++ [10]).

Definition http_NotFound (w : response) : response := http_Error w (str "404 page not found") StatusNotFound.

(** ** Redirections *)

Definition RuneSelf : Z := 128.

(** The loop appends to the buffer what is between two bytes that are not ASCII; in base 16
    AppendInt does not panic. *)
Definition hexEscapeNonASCII (s : gostring) : gostring :=
  flat_map (fun c => if RuneSelf <=? c then 37 :: default [] (FormatInt c 16) else [c]) s.

(** htmlReplacer: each of the strings replaced is one byte. *)
Definition html_replacement (c : Z) : gostring :=
  if c =? 38 then str "&amp;"
  else if c =? 60 then str "&lt;"
  else if c =? 62 then str "&gt;"
  else if c =? 34 then str "&#34;"
  else if c =? 39 then str "&#39;"
  else [c].
Definition htmlEscape (s : gostring) : gostring := flat_map html_replacement s.

(** The address made absolute and clean, if it has no scheme and no host.  [None]: the
    panic of an index, which Clean has none of. *)
Definition redirect_target (oldpath url : gostring) : option gostring :=
  match Parse url with
  | Err _ => Some url
  | Ok u =>
      if bool_decide (Scheme u = []) && bool_decide (Host u = []) then
        let oldpath := if bool_decide (oldpath = []) then [slash] else oldpath in
        let url := if bool_decide (url = []) || negb (at_ url 0 =? slash) then (path_Split oldpath).1 ++ url else url in
        let i := Index url (str "?") in
        let '(url, query) := if negb (i =? -1) then (take (Z.to_nat i) url, drop (Z.to_nat i) url) else (url, []) in
        let trailing := HasSuffix url (str "/") in
        url ← Clean url;
        let url := if trailing && negb (HasSuffix url (str "/")) then url ++ [slash] else url in
        Some (url ++ query)
      else Some url
  end.

Definition http_Redirect (w : response) (r : Request) (url : gostring) (code : Z) : option response :=
  url ← redirect_target (Path (req_URL r)) url;
  let hadCT := bool_decide (is_Some (hdr w !! str "Content-Type")) in
  let w := Header_Set w (str "Location") (hexEscapeNonASCII url) in
  let w := if negb hadCT && (bool_decide (Method r = str "GET") || bool_decide (Method r = str "HEAD"))
           then Header_Set w (str "Content-Type") (str "text/html; charset=utf-8") else w in
  let w := WriteHeader w code in
  Some (if negb hadCT && bool_decide (Method r = str "GET")
        then Write w (str "<a href=" ++ 34 :: htmlEscape url ++ 34 :: 62 :: StatusText code ++ str "</a>." ++ [10; 10])
        else w).

(** ** The answer of a multiplexer

    [h.ServeHTTP(w, r)] for the handler found; [run] calls a registered one. *)
Section Serve.
Context {H A : Type} (run : H -> A) (own : response -> A).

Definition mux_serve (mux : ServeMux H) (r : Request) : option A :=
  a ← ServeHTTP mux r;
  match a with
  | Handler h _ _ => Some (run h)
  | Redirect url _ => w ← http_Redirect no_response r url StatusMovedPermanently; Some (own w)
  | MethodNotAllowed allow =>
      Some (own (http_Error (Header_Set no_response (str "Allow") (Join allow (str ", "))) (StatusText StatusMethodNotAllowed) StatusMethodNotAllowed))
  | NotFound => Some (own (http_NotFound no_response))
  | BadRequest =>
      let w := if ProtoAtLeast r 1 1 then Header_Set no_response (str "Connection") (str "close") else no_response in
      Some (own (WriteHeader w StatusBadRequest))
  end.

(** globalOptionsHandler, the answer to [OPTIONS *].  It reads the body of the request, if
    there is one, and throws it away; [limitHit] tells whether the body is longer than the
    4 kB that it reads, which makes MaxBytesReader ask for a close of the connection. *)
Definition globalOptionsHandler (limitHit : bool) (w : response) : response :=
  let w := Header_Set w (str "Content-Length") (str "0") in
  if limitHit then Header_Set w (str "Connection") (str "close") else w.

(** serverHandler, for a server whose handler is a multiplexer and whose handler of
    [OPTIONS *] is not disabled. *)
Definition serverHandler_ServeHTTP (limitHit : bool) (mux : ServeMux H) (r : Request) : option A :=
  if bool_decide (RequestURI r = str "*") && bool_decide (Method r = str "OPTIONS")
  then Some (own (globalOptionsHandler limitHit no_response))
  else mux_serve mux r.
End Serve.

(** ** One request on a connection *)

(** The status of a handler that wrote nothing. *)
Definition finishRequest (w : response) : response :=
  match status w with None => WriteHeader w StatusOK | Some _ => w end.

Definition expectsContinue (h : Header) : bool := hasToken (Header_get h (str "Expect")) (str "100-continue").

Definition sendExpectationFailed (w : response) : response :=
  let w := Header_Set w (str "Connection") (str "close") in
  let w := WriteHeader w StatusExpectationFailed in
  finishRequest w.

Definition CRLF : gobytes := [return_; newline].
Definition errorHeaders : gobytes :=
  CRLF ++ str "Content-Type: text/plain; charset=utf-8" ++ CRLF ++ str "Connection: close" ++ CRLF ++ CRLF.

Section Conn.
(** Whether an error of the connection is a timeout or a read error of package net. *)
Context (net_read_error : error -> bool).

Definition isCommonNetReadError (err : error) : bool := bool_decide (err = EOF) || net_read_error err.
Definition isUnsupportedTEError (err : error) : bool := match err with unsupportedTEError _ => true | _ => false end.

(** What is written for a request that could not be read; the connection is closed. *)
Definition status_reply (code : Z) (text : gostring) : gobytes :=
  str "HTTP/1.1 " ++ fmt_decimal code ++ str " " ++ StatusText code ++ str ": " ++ text ++ errorHeaders ++
  fmt_decimal code ++ str " " ++ StatusText code ++ str ": " ++ text.

Definition read_error_reply (err : error) : option gobytes :=
  if isUnsupportedTEError err then
    Some (str "HTTP/1.1 " ++ fmt_decimal StatusNotImplemented ++ str " " ++ StatusText StatusNotImplemented ++ errorHeaders ++ str "Unsupported transfer encoding")
  else if isCommonNetReadError err then None
  else match err with
       | statusError code text => Some (status_reply code text)
       | badRequestError text => Some (status_reply StatusBadRequest text)
       | _ => Some (str "HTTP/1.1 " ++ str "400 Bad Request" ++ errorHeaders ++ str "400 Bad Request")
       end.

(** A request that was not read, with the bytes written; or the answer to one that was. *)
Inductive reply :=
  | Unread (text : option gobytes)
  | Answered (w : response).

(** The round of the loop up to [finishRequest], where [serve] is the handler of the
    server; [st] is the state that the handlers share.  The reader that replies 100
    Continue when a body is first read is left out. *)
Definition conn_serve {R S : Type} `{Reader R} (serve : Request -> option (S * response)) (fuel : nat) (remoteAddr lastMethod : gostring)
    (st : S) (b : BufReader R) : option (BufReader R * S * reply) :=
  '(b, r) ← conn_readRequest fuel false remoteAddr lastMethod b;
  match r with
  | Err err => Some (b, st, Unread (read_error_reply err))
  | Ok r =>
      if negb (expectsContinue (req_Header r)) && negb (bool_decide (Header_get (req_Header r) (str "Expect") = []))
      then Some (b, st, Answered (sendExpectationFailed no_response))
      else
        '(st, w) ← serve (req r);
        Some (b, st, Answered (finishRequest w))
  end.
End Conn.

(** A multiplexer whose handlers answer with the text of their pattern. *)
Definition respond (l : list string) (r : Request) : option response :=
  mux_serve (fun s => Write no_response s) id (the_mux l) r.
Definition location (o : option response) : option (Z * gostring) :=
  w ← o; c ← status w; l ← hdr w !! str "Location"; Some (c, l).

(** Where the multiplexer does not do what it promises.  The redirection to the path with a
    slash after it is also tried on a path that ends in a slash: with the pattern [/a/{x}/],
    the answer to a request for [/a/] is a permanent redirection to [/a/], without end.  The
    redirection of an unclean path, which is built from the escaped path, escapes it a
    second time. *)
Example redirects_again :
  location (respond ["/a/{x}/"] (get_request "GET" "h" "/a/")) = Some (301, str "/a/") /\
  location (respond ["/"] (get_request "GET" "h" "/a%20b//c")) = Some (301, str "/a%2520b/c") /\
  location (respond ["/"] (get_request "GET" "h" "/a%2520b/c")) = None.
Proof. split_and!; vm_compute; reflexivity. Qed.

(** A segment of the request that is [*] is taken for the key of the multi wildcard: the less
    specific pattern is chosen, and the value of its wildcard is missing.  A pattern with the
    literal [*] makes requests that do not match it panic, and one with an empty literal
    matches any segment in its place. *)
Example star_segments :
  serve ["/{y}"; "/{x...}"] "GET" "/*" = Some (Handler (str "/{x...}") (pat "/{x...}") []) /\
  serve ["/{y}"; "/{x...}"] "GET" "/a" = Some (Handler (str "/{y}") (pat "/{y}") [str "a"]) /\
  serve ["/*/b"] "GET" "/x" = None /\
  serve ["/a//b"] "GET" "/a/x/b" = Some (Handler (str "/a//b") (pat "/a//b") [str "x"]).
Proof. split_and!; vm_compute; reflexivity. Qed.

(** A segment that is an escaped slash is matched by [{$}] and not by a wildcard. *)
Example escaped_slash :
  serve ["/{x}/b"] "GET" "/%2F/b" = Some NotFound /\ serve ["/{$}"] "GET" "/%2F" = Some (Handler (str "/{$}") (pat "/{$}") []).
Proof. split; vm_compute; reflexivity. Qed.

Definition answer_line (x : option (BufReader stream * unit * reply)) : option (option gobytes + option Z) :=
  match x with
  | Some (_, _, Unread t) => Some (inl (take 12 <$> t))
  | Some (_, _, Answered w) => Some (inr (status w))
  | None => None
  end.

Example conn_examples :
  let run l := answer_line (conn_serve (fun _ => false) (fun _ => Some (tt, no_response)) 300 [] [] tt (NewReader (message l))) in
  run ["GET / HTTP/1.1"; "Host: a"; ""]%string = Some (inr (Some 200)) /\
  run ["GET / HTTP/1.1"; "Host: a"; "Expect: 100-Continue"; ""]%string = Some (inr (Some 200)) /\
  run ["GET / HTTP/1.1"; "Host: a"; "Expect: 200-ok"; ""]%string = Some (inr (Some 417)) /\
  run ["GET / HTTP/1.1"; ""]%string = Some (inl (Some (str "HTTP/1.1 400"))) /\
  run ["POST / HTTP/1.1"; "Host: a"; "Transfer-Encoding: gzip"; ""]%string = Some (inl (Some (str "HTTP/1.1 501"))) /\
  run []%string = Some (inl None).
Proof. split_and!; vm_compute; reflexivity. Qed.
