(* ===== verification/RateLimiter.v ===== *)
(** * friscy-proxy: the rate limiter

    [proxy/main.go], type [RateLimiter] and its methods, with the clock
    difference of [tools/go-patched/src/time/time.go].

    Every method body runs under [rl.mu], so a method is one atomic step on the
    state.  Times are the monotonic readings (int64 nanoseconds) that
    [time.Now] attaches; [now] is read while the lock is held. *)

From S2P Require Import Prelude HostPort.

(** ** time *)
Definition minDuration : Z := - 2 ^ 63.
Definition maxDuration : Z := 2 ^ 63 - 1.

Definition subMono (t u : Z) : Z :=
  let d := s64 (t - u) in
  if (d <? 0) && (u <? t) then maxDuration
  else if (0 <? d) && (t <? u) then minDuration
  else d.

(** [24*time.Hour] in nanoseconds. *)
Definition day : Z := 24 * 3600000000000.

(** ** State *)
Record RateLimiter := mk_RateLimiter {
  ipSessions : gmap gostring Z;      (* current concurrent sessions per IP *)
  ipConnections : gmap gostring Z;   (* connections made today per IP *)
  ipLastReset : gmap gostring Z;     (* when counters were last reset *)
  maxSessions : Z;
  maxConnsPerDay : Z;
}.

(** A missing key of a Go map reads as the zero value. *)
Definition mget (m : gmap gostring Z) (k : gostring) : Z := default 0 (m !! k).

Definition set_sessions (rl : RateLimiter) (m : gmap gostring Z) : RateLimiter :=
  mk_RateLimiter m (ipConnections rl) (ipLastReset rl) (maxSessions rl) (maxConnsPerDay rl).
Definition set_connections (rl : RateLimiter) (m : gmap gostring Z) : RateLimiter :=
  mk_RateLimiter (ipSessions rl) m (ipLastReset rl) (maxSessions rl) (maxConnsPerDay rl).
Definition set_reset (rl : RateLimiter) (m : gmap gostring Z) : RateLimiter :=
  mk_RateLimiter (ipSessions rl) (ipConnections rl) m (maxSessions rl) (maxConnsPerDay rl).

(** ** Operations *)

Definition NewRateLimiter (maxSessions maxConnsPerDay : Z) : RateLimiter :=
  mk_RateLimiter ∅ ∅ ∅ maxSessions maxConnsPerDay.

(** SplitHostPort never panics ([SplitHostPort_spec]). *)
Definition extractIP (addr : gostring) : gostring :=
  match SplitHostPort addr with
  | Some (Ok (host, _)) => host
  | _ => addr
  end.

Definition TryAcquireSession (rl : RateLimiter) (remoteAddr : gostring) : bool * RateLimiter :=
  let ip := extractIP remoteAddr in
  if maxSessions rl <=? mget (ipSessions rl) ip then (false, rl)
  else (true, set_sessions rl (<[ip := mget (ipSessions rl) ip + 1]> (ipSessions rl))).

Definition ReleaseSession (rl : RateLimiter) (remoteAddr : gostring) : RateLimiter :=
  let ip := extractIP remoteAddr in
  let rl :=
    if 0 <? mget (ipSessions rl) ip
    then set_sessions rl (<[ip := mget (ipSessions rl) ip - 1]> (ipSessions rl)) else rl in
  if mget (ipSessions rl) ip =? 0
  then set_sessions rl (delete ip (ipSessions rl)) else rl.

(** The first statement of TryConnection: reset the daily counter if needed. *)
Definition resetDaily (rl : RateLimiter) (now : Z) (ip : gostring) : RateLimiter :=
  let stale :=
    match ipLastReset rl !! ip with
    | None => true
    | Some last => day <? subMono now last
    end in
  if stale then
    set_reset (set_connections rl (<[ip := 0]> (ipConnections rl)))
      (<[ip := now]> (ipLastReset rl))
  else rl.

Definition TryConnection (rl : RateLimiter) (now : Z) (remoteAddr : gostring)
    : bool * RateLimiter :=
  let ip := extractIP remoteAddr in
  let rl := resetDaily rl now ip in
  if maxConnsPerDay rl <=? mget (ipConnections rl) ip then (false, rl)
  else (true, set_connections rl (<[ip := mget (ipConnections rl) ip + 1]> (ipConnections rl))).

(** The sum over [range rl.ipSessions] and the number of keys. *)
Definition Stats (rl : RateLimiter) : Z * Z :=
  (map_fold (fun _ v acc => acc + v) 0 (ipSessions rl), Z.of_nat (size (ipSessions rl))).

(** ** Invariant *)

Record rl_wf (rl : RateLimiter) : Prop := {
  wf_sessions ip n : ipSessions rl !! ip = Some n -> 1 <= n <= maxSessions rl;
  wf_connections ip n : ipConnections rl !! ip = Some n -> 0 <= n <= Z.max 0 (maxConnsPerDay rl);
  wf_reset ip : ipConnections rl !! ip = None <-> ipLastReset rl !! ip = None;
}.

Lemma mget_insert m k v k' : mget (<[k := v]> m) k' = if decide (k = k') then v else mget m k'.
Proof. unfold mget. rewrite lookup_insert. by case_decide. Qed.

Lemma mget_delete m k k' : mget (delete k m) k' = if decide (k = k') then 0 else mget m k'.
Proof. unfold mget. rewrite lookup_delete. by case_decide. Qed.

Lemma mget_sessions_bound rl ip :
  rl_wf rl -> 0 <= mget (ipSessions rl) ip /\
  (mget (ipSessions rl) ip <= maxSessions rl \/ mget (ipSessions rl) ip = 0).
Proof.
  intros H. unfold mget. destruct (ipSessions rl !! ip) as [n|] eqn:E; simpl; [|lia].
  apply (wf_sessions _ H) in E. lia.
Qed.

Lemma NewRateLimiter_wf ms mc : rl_wf (NewRateLimiter ms mc).
Proof. split; simpl; intros; by rewrite ?lookup_empty in *. Qed.

Lemma TryAcquireSession_wf rl addr : rl_wf rl -> rl_wf (TryAcquireSession rl addr).2.
Proof.
  intros H. unfold TryAcquireSession. destruct (_ <=? _) eqn:E; [done|]. zbool. simpl.
  pose proof (mget_sessions_bound rl (extractIP addr) H).
  split; simpl; [|apply H|apply H].
  intros ip n. rewrite lookup_insert. case_decide; [intros [= <-]; lia|apply H].
Qed.

Lemma ReleaseSession_wf rl addr : rl_wf rl -> rl_wf (ReleaseSession rl addr).
Proof.
  intros H. unfold ReleaseSession.
  pose proof (mget_sessions_bound rl (extractIP addr) H).
  destruct (0 <? _) eqn:E1; zbool; simpl.
  - rewrite mget_insert, decide_True by done. destruct (_ =? _) eqn:E2; zbool.
    + split; simpl; [|apply H|apply H]. intros ip n. rewrite delete_insert_eq, lookup_delete.
      case_decide; [done|apply H].
    + split; simpl; [|apply H|apply H]. intros ip n. rewrite lookup_insert.
      case_decide; [intros [= <-]; lia|apply H].
  - destruct (_ =? _); [|done]. split; simpl; [|apply H|apply H].
    intros ip n. rewrite lookup_delete. case_decide; [done|apply H].
Qed.

Lemma resetDaily_wf rl now ip :
  rl_wf rl -> rl_wf (resetDaily rl now ip) /\ is_Some (ipLastReset (resetDaily rl now ip) !! ip).
Proof.
  intros H. unfold resetDaily. destruct (ipLastReset rl !! ip) as [last|] eqn:E; simpl;
    [destruct (_ <? _); simpl; [|by rewrite E]|]; rewrite lookup_insert_eq; (split; [|by eauto]);
    (split; simpl; [apply H| |]; intros k; [intros n; rewrite lookup_insert|rewrite !lookup_insert];
     (case_decide; [|apply H]); [intros [= <-]; lia|done]).
Qed.

Lemma TryConnection_wf rl now addr : rl_wf rl -> rl_wf (TryConnection rl now addr).2.
Proof.
  intros H. unfold TryConnection. set (ip := extractIP addr).
  destruct (resetDaily_wf rl now ip H) as [H' Hs]. set (rl' := resetDaily rl now ip) in *.
  destruct (_ <=? _) eqn:E; [done|]. zbool. simpl. split; simpl; [apply H'| |].
  - intros k n. rewrite lookup_insert. case_decide; [intros [= <-]|apply H'].
    unfold mget in *. destruct (ipConnections rl' !! ip) as [m|] eqn:Em; simpl in *; [|lia].
    apply (wf_connections _ H') in Em. lia.
  - intros k. rewrite lookup_insert. case_decide; [subst k|apply H'].
    split; [done|]. intros En. destruct Hs as [? Hs]. congruence.
Qed.

(** ** Frame: what a call changes *)

Lemma TryAcquireSession_lookup rl addr ip :
  mget (ipSessions (TryAcquireSession rl addr).2) ip =
    mget (ipSessions rl) ip +
    (if (TryAcquireSession rl addr).1 && bool_decide (extractIP addr = ip) then 1 else 0).
Proof.
  unfold TryAcquireSession. destruct (_ <=? _); simpl; [lia|].
  rewrite mget_insert. case_decide; case_bool_decide; subst; done || lia.
Qed.

Lemma ReleaseSession_lookup rl addr ip :
  rl_wf rl ->
  mget (ipSessions (ReleaseSession rl addr)) ip =
    if decide (extractIP addr = ip) then Z.max 0 (mget (ipSessions rl) ip - 1)
    else mget (ipSessions rl) ip.
Proof.
  intros H. pose proof (mget_sessions_bound rl (extractIP addr) H).
  unfold ReleaseSession. destruct (0 <? _) eqn:E1; zbool; simpl.
  - rewrite mget_insert, decide_True by done.
    destruct (_ =? _) eqn:E2; zbool; simpl; rewrite ?mget_delete, ?mget_insert;
      case_decide; subst; try done; lia.
  - rewrite (proj2 (Z.eqb_eq _ _)) by lia. simpl. rewrite mget_delete. case_decide; subst; lia || done.
Qed.

Lemma resetDaily_frame rl now ip :
  ipSessions (resetDaily rl now ip) = ipSessions rl /\
  maxSessions (resetDaily rl now ip) = maxSessions rl /\
  maxConnsPerDay (resetDaily rl now ip) = maxConnsPerDay rl.
Proof. unfold resetDaily. destruct (ipLastReset rl !! ip); [destruct (_ <? _)|]; done. Qed.

Lemma TryConnection_sessions rl now addr :
  ipSessions (TryConnection rl now addr).2 = ipSessions rl /\
  maxSessions (TryConnection rl now addr).2 = maxSessions rl /\
  maxConnsPerDay (TryConnection rl now addr).2 = maxConnsPerDay rl.
Proof.
  unfold TryConnection. destruct (resetDaily_frame rl now (extractIP addr)) as (<- & <- & <-).
  by destruct (_ <=? _).
Qed.

Lemma ReleaseSession_frame rl addr :
  ipConnections (ReleaseSession rl addr) = ipConnections rl /\
  ipLastReset (ReleaseSession rl addr) = ipLastReset rl /\
  maxSessions (ReleaseSession rl addr) = maxSessions rl /\
  maxConnsPerDay (ReleaseSession rl addr) = maxConnsPerDay rl.
Proof. unfold ReleaseSession. destruct (0 <? _); simpl; destruct (_ =? _); done. Qed.

Lemma TryAcquireSession_frame rl addr :
  ipConnections (TryAcquireSession rl addr).2 = ipConnections rl /\
  ipLastReset (TryAcquireSession rl addr).2 = ipLastReset rl /\
  maxSessions (TryAcquireSession rl addr).2 = maxSessions rl /\
  maxConnsPerDay (TryAcquireSession rl addr).2 = maxConnsPerDay rl.
Proof. unfold TryAcquireSession. by destruct (_ <=? _). Qed.

(** ** Traces of calls, in the order in which they take the lock *)

Inductive call : Type :=
  | Acquire (addr : gostring)
  | Release (addr : gostring)
  | Connect (now : Z) (addr : gostring).

(** The state after a call, and whether it was granted (a release always is). *)
Definition exec (rl : RateLimiter) (c : call) : bool * RateLimiter :=
  match c with
  | Acquire addr => TryAcquireSession rl addr
  | Release addr => (true, ReleaseSession rl addr)
  | Connect now addr => TryConnection rl now addr
  end.

Fixpoint run (rl : RateLimiter) (cs : list call) : list (call * bool) * RateLimiter :=
  match cs with
  | [] => ([], rl)
  | c :: cs =>
      let '(g, rl) := exec rl c in
      let '(tr, rl) := run rl cs in ((c, g) :: tr, rl)
  end.

Lemma exec_wf rl c : rl_wf rl -> rl_wf (exec rl c).2.
Proof.
  destruct c; simpl; auto using TryAcquireSession_wf, ReleaseSession_wf, TryConnection_wf.
Qed.

Lemma exec_limits rl c :
  maxSessions (exec rl c).2 = maxSessions rl /\ maxConnsPerDay (exec rl c).2 = maxConnsPerDay rl.
Proof.
  destruct c as [a|a|n a]; simpl.
  - destruct (TryAcquireSession_frame rl a) as (_ & _ & ? & ?). done.
  - destruct (ReleaseSession_frame rl a) as (_ & _ & ? & ?). done.
  - destruct (TryConnection_sessions rl n a) as (_ & ? & ?). done.
Qed.

Lemma run_wf rl cs : rl_wf rl -> rl_wf (run rl cs).2.
Proof.
  revert rl. induction cs as [|c cs IH]; intros rl H; simpl; [done|].
  pose proof (exec_wf rl c H) as H'. destruct (exec rl c) as [g rl']. simpl in H'.
  specialize (IH rl' H'). by destruct (run rl' cs).
Qed.

(** Sessions that a client holds after an annotated trace: granted acquisitions
    less releases. *)
Definition held_step (ip : gostring) (n : Z) (cg : call * bool) : Z :=
  match cg with
  | (Acquire addr, true) => if decide (extractIP addr = ip) then n + 1 else n
  | (Release addr, _) => if decide (extractIP addr = ip) then n - 1 else n
  | _ => n
  end.
Definition held (ip : gostring) (tr : list (call * bool)) : Z := foldl (held_step ip) 0 tr.

(** Every release gives back a session acquired before: no prefix has more
    releases than granted acquisitions. *)
Definition matched (ip : gostring) (tr : list (call * bool)) : Prop :=
  forall k, 0 <= held ip (take k tr).

Lemma run_held rl cs ip n :
  rl_wf rl -> mget (ipSessions rl) ip = n ->
  (forall k, 0 <= foldl (held_step ip) n (take k (run rl cs).1)) ->
  mget (ipSessions (run rl cs).2) ip = foldl (held_step ip) n (run rl cs).1.
Proof.
  revert rl n. induction cs as [|c cs IH]; intros rl n Hwf Hn Hm; simpl in *; [done|].
  pose proof (exec_wf rl c Hwf) as Hwf'.
  assert (0 <= held_step ip n (c, (exec rl c).1) ->
    mget (ipSessions (exec rl c).2) ip = held_step ip n (c, (exec rl c).1)) as Hstep.
  { destruct c as [a|a|now a]; simpl; intros Hpos.
    - rewrite TryAcquireSession_lookup. destruct (TryAcquireSession rl a).1; simpl; [|lia].
      case_decide; [rewrite bool_decide_true by done|rewrite bool_decide_false by done]; lia.
    - rewrite ReleaseSession_lookup by done. case_decide; lia.
    - destruct (TryConnection_sessions rl now a) as [-> _]. by destruct (TryConnection rl now a).1. }
  destruct (exec rl c) as [g rl'] eqn:Ec. simpl in *.
  destruct (run rl' cs) as [tr rl''] eqn:Er. simpl in *.
  specialize (IH rl' (held_step ip n (c, g)) Hwf'). rewrite Er in IH. simpl in IH. apply IH.
  - apply Hstep. specialize (Hm 1%nat). destruct tr; exact Hm.
  - intros k. exact (Hm (S k)).
Qed.

(** ** The daily quota *)

(** Connections granted to a client in an annotated trace. *)
Definition is_grant (ip : gostring) (cg : call * bool) : bool :=
  match cg with
  | (Connect _ addr, true) => bool_decide (extractIP addr = ip)
  | _ => false
  end.
Definition grants (ip : gostring) (tr : list (call * bool)) : Z :=
  len (filter (fun cg => is_grant ip cg = true) tr).

(** The clock readings of the calls. *)
Definition call_time (c : call) : option Z := match c with Connect now _ => Some now | _ => None end.
Definition times (cs : list call) : list Z := omap call_time cs.

Definition is_reading (t : Z) : Prop := 0 <= t < 2 ^ 63.

Lemma subMono_exact t u : is_reading t -> is_reading u -> subMono t u = t - u.
Proof.
  intros. unfold is_reading in *. unfold subMono, s64, maxDuration, minDuration.
  change (2 ^ 63) with 9223372036854775808 in *. change (2 ^ 64) with 18446744073709551616.
  assert ((t - u + 9223372036854775808) mod 18446744073709551616 - 9223372036854775808 = t - u) as -> by zlia.
  destruct (t - u <? 0) eqn:E1, (u <? t) eqn:E2, (0 <? t - u) eqn:E3, (t <? u) eqn:E4; zbool; simpl; lia.
Qed.

(** The counter and the last reset of one client. *)
Definition quota (rl : RateLimiter) (ip : gostring) : Z * option Z :=
  (mget (ipConnections rl) ip, ipLastReset rl !! ip).

Definition stale_at (now : Z) (last : option Z) : bool :=
  match last with None => true | Some l => day <? subMono now l end.

Lemma resetDaily_quota rl now ip ip' :
  quota (resetDaily rl now ip) ip' =
    if decide (ip = ip')
    then if stale_at now (ipLastReset rl !! ip) then (0, Some now) else quota rl ip
    else quota rl ip'.
Proof.
  unfold quota, resetDaily, stale_at.
  destruct (ipLastReset rl !! ip) as [l|] eqn:E; [destruct (day <? subMono now l)|]; simpl;
    rewrite ?mget_insert, ?lookup_insert; case_decide; subst; congruence || done.
Qed.

Lemma TryConnection_quota rl now addr ip :
  let r := TryConnection rl now addr in
  if decide (extractIP addr = ip) then
    let '(c, l) := if stale_at now (ipLastReset rl !! ip) then (0, Some now) else quota rl ip in
    r.1 = (c <? maxConnsPerDay rl) /\ quota r.2 ip = (if r.1 then c + 1 else c, l)
  else quota r.2 ip = quota rl ip.
Proof.
  cbv zeta. unfold TryConnection. destruct (resetDaily_frame rl now (extractIP addr)) as (_ & _ & ->).
  pose proof (resetDaily_quota rl now (extractIP addr) ip) as Hq.
  set (rl' := resetDaily rl now (extractIP addr)) in *.
  case_decide as Hd.
  - subst ip. rewrite <- Hq. unfold quota at 1. destruct (_ <=? _) eqn:E; zbool; simpl.
    + split; [by rewrite (proj2 (Z.ltb_ge _ _)) by lia|done].
    + split; [by rewrite (proj2 (Z.ltb_lt _ _)) by lia|]. unfold quota. simpl.
      by rewrite mget_insert, decide_True.
  - rewrite <- Hq. destruct (_ <=? _); [done|]. unfold quota. simpl.
    by rewrite mget_insert, decide_False.
Qed.

Lemma exec_quota_other rl c ip :
  call_time c = None -> quota (exec rl c).2 ip = quota rl ip.
Proof.
  unfold quota. destruct c as [a|a|n a]; simpl; [| |done]; intros _.
  - by destruct (TryAcquireSession_frame rl a) as (-> & -> & _).
  - by destruct (ReleaseSession_frame rl a) as (-> & -> & _).
Qed.

Lemma grants_cons ip cg tr : grants ip (cg :: tr) = (if is_grant ip cg then 1 else 0) + grants ip tr.
Proof.
  unfold grants. rewrite filter_cons. case_decide as E.
  - rewrite E, len_cons. done.
  - by destruct (is_grant ip cg).
Qed.

(** One call, seen by one client: the quota left after it pays for its grant,
    unless it resets the counter. *)
Lemma exec_quota rl c ip :
  let '(n, l) := quota rl ip in
  let g := if is_grant ip (c, (exec rl c).1) then 1 else 0 in
  let '(n', l') := quota (exec rl c).2 ip in
  (l' = l /\ n' = n + g /\ (g = 1 -> n < maxConnsPerDay rl /\ l <> None)) \/
  (exists now, call_time c = Some now /\ stale_at now l = true /\ l' = Some now /\
     n' = g /\ (g = 1 <-> 0 < maxConnsPerDay rl)).
Proof.
  destruct c as [a|a|now a].
  1,2: rewrite exec_quota_other by done; destruct (quota rl ip) as [n l]; left;
    split_and!; simpl; done || lia.
  cbn [exec]. pose proof (TryConnection_quota rl now a ip) as H. cbv zeta in H.
  replace (is_grant ip (Connect now a, (TryConnection rl now a).1))
    with ((TryConnection rl now a).1 && bool_decide (extractIP a = ip))
    by (by destruct (TryConnection rl now a).1).
  destruct (decide (extractIP a = ip)) as [E|E].
  - rewrite (bool_decide_true _ E). unfold quota at 1.
    destruct (stale_at now (ipLastReset rl !! ip)) eqn:Es; cbv iota in H.
    + destruct H as [H1 H2]. rewrite H2. right. exists now. split_and!; try done.
      * by destruct (TryConnection rl now a).1.
      * rewrite H1. destruct (_ <? _) eqn:El; simpl; zbool; lia.
    + unfold quota at 1 in H. destruct H as [H1 H2]. rewrite H2. left. split_and!; [done| |].
      * destruct (TryConnection rl now a).1; simpl; lia.
      * rewrite H1. intros Hg. split; [destruct (_ <? _) eqn:El; simpl in *; zbool; lia|].
        intros En. by rewrite En in Es.
  - rewrite H. destruct (quota rl ip) as [n l]. left. rewrite (bool_decide_false _ E).
    split_and!; [done| |]; destruct (TryConnection rl now a).1; simpl; lia.
Qed.

(** While no call can find the counter stale, at most the remaining quota is
    granted. *)
Lemma grants_no_reset rl cs ip n l :
  quota rl ip = (n, Some l) -> is_reading l -> n <= Z.max 0 (maxConnsPerDay rl) ->
  Forall (fun t => is_reading t /\ t <= l + day) (times cs) ->
  grants ip (run rl cs).1 <= Z.max 0 (maxConnsPerDay rl) - n.
Proof.
  revert rl n. induction cs as [|c cs IH]; intros rl n Hq Hl Hn Hc.
  { simpl. unfold grants. change (len (filter _ [])) with 0. lia. }
  pose proof (exec_quota rl c ip) as He. rewrite Hq in He.
  pose proof (exec_limits rl c) as [_ Hmax]. simpl.
  destruct (exec rl c) as [g rl'] eqn:Ec. cbn [fst snd] in *.
  destruct (quota rl' ip) as [n' l'] eqn:Hq'.
  assert (Forall (fun t => is_reading t /\ t <= l + day) (times cs)) as Hcs.
  { unfold times in *. simpl in Hc. by destruct (call_time c); [apply Forall_cons in Hc as [_ ?]|]. }
  destruct He as [(-> & -> & Hg)|(now & Ht & Hs & _)].
  - specialize (IH rl' _ Hq' Hl). destruct (run rl' cs) as [tr rl'']. cbn [fst] in *.
    rewrite grants_cons. rewrite Hmax in IH.
    destruct (is_grant ip (c, g)); [specialize (Hg eq_refl)|]; specialize (IH ltac:(lia) Hcs); lia.
  - exfalso. unfold times in Hc. simpl in Hc. rewrite Ht in Hc. apply Forall_cons in Hc as [[Hr Hle] _].
    simpl in Hs. rewrite subMono_exact in Hs by done. zbool. lia.
Qed.

(** In any window of a day the counter of a client is reset at most once, or set
    for the first time. *)
Lemma grants_window rl cs ip n l t0 :
  quota rl ip = (n, l) -> (forall u, l = Some u -> is_reading u) ->
  0 <= n <= Z.max 0 (maxConnsPerDay rl) -> (l = None -> n = 0) ->
  Forall (fun t => is_reading t /\ t0 <= t <= t0 + day) (times cs) ->
  grants ip (run rl cs).1 <=
    (if l then 2 else 1) * Z.max 0 (maxConnsPerDay rl) - n.
Proof.
  revert rl n. induction cs as [|c cs IH]; intros rl n Hq Hl Hn H0 Hc.
  { simpl. unfold grants. change (len (filter _ [])) with 0. destruct l; lia. }
  pose proof (exec_quota rl c ip) as He. rewrite Hq in He.
  pose proof (exec_limits rl c) as [_ Hmax]. simpl.
  destruct (exec rl c) as [g rl'] eqn:Ec. cbn [fst snd] in *.
  destruct (quota rl' ip) as [n' l'] eqn:Hq'.
  assert (Forall (fun t => is_reading t /\ t0 <= t <= t0 + day) (times cs)) as Hcs.
  { unfold times in *. simpl in Hc. by destruct (call_time c); [apply Forall_cons in Hc as [_ ?]|]. }
  destruct He as [(-> & -> & Hg)|(now & Ht & Hs & -> & -> & Hg)].
  - specialize (IH rl' _ Hq' Hl). destruct (run rl' cs) as [tr rl'']. cbn [fst] in *.
    rewrite grants_cons. rewrite Hmax in IH.
    destruct (is_grant ip (c, g)); [destruct (Hg eq_refl) as [? Hne]|];
      specialize (IH ltac:(lia) ltac:(intros En; specialize (H0 En); done || lia) Hcs); destruct l; lia.
  - unfold times in Hc. simpl in Hc. rewrite Ht in Hc. apply Forall_cons in Hc as [[Hr Hle] _].
    pose proof (grants_no_reset rl' cs ip _ now Hq' Hr) as H. rewrite Hmax in H.
    destruct (run rl' cs) as [tr rl'']. cbn [fst] in *. rewrite grants_cons.
    assert (Forall (fun t => is_reading t /\ t <= now + day) (times cs)) as Hcs'.
    { eapply Forall_impl; [exact Hcs|]. simpl. intros t [? ?]. split; [done|lia]. }
    assert ((if is_grant ip (c, g) then 1 else 0) <= Z.max 0 (maxConnsPerDay rl)) as Hle'.
    { destruct (is_grant ip (c, g)); [pose proof (proj1 Hg eq_refl)|]; lia. }
    specialize (H Hle' Hcs'). destruct l; [|specialize (H0 eq_refl)]; lia.
Qed.

(** The call that sets or resets a counter takes one unit of it. *)
Lemma run_started rl cs ip :
  (ipLastReset rl !! ip <> None -> 0 < maxConnsPerDay rl -> 1 <= mget (ipConnections rl) ip) ->
  ipLastReset (run rl cs).2 !! ip <> None -> 0 < maxConnsPerDay rl ->
  1 <= mget (ipConnections (run rl cs).2) ip.
Proof.
  revert rl. induction cs as [|c cs IH]; intros rl H; simpl; [done|].
  pose proof (exec_quota rl c ip) as He. pose proof (exec_limits rl c) as [_ Hmax].
  specialize (IH (exec rl c).2). destruct (exec rl c) as [g rl']. cbn [fst snd] in *.
  rewrite Hmax in IH. destruct (run rl' cs) as [tr rl'']. apply IH. unfold quota in He.
  destruct He as [(E & -> & _)|(now & _ & _ & _ & -> & Hg)].
  - rewrite E. intros Hn Hp. specialize (H Hn Hp). destruct (is_grant ip (c, g)); lia.
  - intros _ Hp. by rewrite (proj2 Hg Hp).
Qed.

Lemma run_readings rl cs :
  (forall ip l, ipLastReset rl !! ip = Some l -> is_reading l) ->
  Forall is_reading (times cs) ->
  forall ip l, ipLastReset (run rl cs).2 !! ip = Some l -> is_reading l.
Proof.
  revert rl. induction cs as [|c cs IH]; intros rl H Hc; simpl; [done|].
  assert (Forall is_reading (times cs)) as Hcs.
  { unfold times in *. simpl in Hc. by destruct (call_time c); [apply Forall_cons in Hc as [_ ?]|]. }
  specialize (IH (exec rl c).2). destruct (exec rl c) as [g rl'] eqn:Ec. cbn [snd] in IH.
  destruct (run rl' cs) as [tr rl'']. apply IH; [|done]. intros ip l Hl.
  pose proof (exec_quota rl c ip) as He. rewrite Ec in He. unfold quota in He. cbn [snd] in He.
  destruct He as [(E & _)|(now & Ht & _ & E & _)]; rewrite E in Hl; [by eapply H|].
  injection Hl as <-. unfold times in Hc. simpl in Hc. rewrite Ht in Hc.
  by apply Forall_cons in Hc as [? _].
Qed.

Lemma run_limits rl cs :
  maxSessions (run rl cs).2 = maxSessions rl /\ maxConnsPerDay (run rl cs).2 = maxConnsPerDay rl.
Proof.
  revert rl. induction cs as [|c cs IH]; intros rl; simpl; [done|].
  pose proof (exec_limits rl c) as [<- <-]. destruct (exec rl c) as [g rl'].
  specialize (IH rl'). by destruct (run rl' cs).
Qed.

(** ** Stats *)

Notation sum_values := (map_fold (fun (_ : gostring) v acc => acc + v) 0).

Lemma sum_values_delete (m : gmap gostring Z) k : sum_values (delete k m) = sum_values m - mget m k.
Proof.
  unfold mget. destruct (m !! k) as [v|] eqn:E; simpl.
  - rewrite (map_fold_delete_L _ _ k v m); [lia| |done]. intros. lia.
  - rewrite delete_id by done. lia.
Qed.

Lemma sum_values_insert (m : gmap gostring Z) k v :
  sum_values (<[k := v]> m) = sum_values m - mget m k + v.
Proof.
  rewrite <- insert_delete_eq, map_fold_insert_L.
  - rewrite sum_values_delete. lia.
  - intros. lia.
  - apply lookup_delete_eq.
Qed.

(** ** Properties *)

(** [C29] The state that the rate limiter can reach is well formed, whatever calls
    are made in whatever order: every stored session count is between 1 and
    maxSessions (an entry that drops to 0 is deleted), every daily count is between 0
    and maxConnsPerDay, and a client has a daily count exactly when it has a reset time.
    So no counter ever overflows. *)
Theorem rate_limiter_invariant ms mc cs :
  let rl := (run (NewRateLimiter ms mc) cs).2 in
  (forall ip n, ipSessions rl !! ip = Some n -> 1 <= n <= ms) /\
  (forall ip n, ipConnections rl !! ip = Some n -> 0 <= n <= Z.max 0 mc) /\
  (forall ip, ipConnections rl !! ip = None <-> ipLastReset rl !! ip = None).
Proof.
  cbv zeta. pose proof (run_wf _ cs (NewRateLimiter_wf ms mc)) as [H1 H2 H3].
  destruct (run_limits (NewRateLimiter ms mc) cs) as [E1 E2]. simpl in E1, E2.
  rewrite E1 in H1. rewrite E2 in H2. done.
Qed.

(** [C27] Concurrent sessions: when releases only give back sessions that were
    granted, the counter of a client is the number of sessions it holds, and this
    never exceeds maxSessions. *)
Theorem session_count_is_held ms mc cs ip :
  matched ip (run (NewRateLimiter ms mc) cs).1 ->
  mget (ipSessions (run (NewRateLimiter ms mc) cs).2) ip = held ip (run (NewRateLimiter ms mc) cs).1 /\
  0 <= held ip (run (NewRateLimiter ms mc) cs).1 <= Z.max 0 ms.
Proof.
  intros Hm. pose proof (run_held (NewRateLimiter ms mc) cs ip 0 (NewRateLimiter_wf ms mc)) as H.
  assert (mget (ipSessions (run (NewRateLimiter ms mc) cs).2) ip =
    held ip (run (NewRateLimiter ms mc) cs).1) as E by (apply H; [done|exact Hm]).
  split; [done|]. rewrite <- E.
  pose proof (mget_sessions_bound _ ip (run_wf _ cs (NewRateLimiter_wf ms mc))) as Hb.
  destruct (run_limits (NewRateLimiter ms mc) cs) as [E1 _]. rewrite E1 in Hb. simpl in Hb. lia.
Qed.

Definition demo_addr (port : string) : gostring := str "203.0.113.7:" ++ str port.

Lemma session_count_is_held_witness :
  let cs := [Acquire (demo_addr "1"); Acquire (demo_addr "2"); Acquire (demo_addr "3");
             Release (demo_addr "1"); Acquire (demo_addr "4")] in
  let ip := str "203.0.113.7" in
  mget (ipSessions (run (NewRateLimiter 2 100) cs).2) ip = held ip (run (NewRateLimiter 2 100) cs).1 /\
  0 <= held ip (run (NewRateLimiter 2 100) cs).1 <= Z.max 0 2.
Proof.
  intros cs ip. apply (session_count_is_held 2 100 cs ip).
  intros [|[|[|[|[|k]]]]]; [vm_compute; discriminate..|].
  rewrite take_ge by (vm_compute; lia). by vm_compute.
Defined.

(** [C28] The daily quota: among calls whose clock readings lie within one window
    of 24 hours, whatever came before and whatever other clients do, a client is granted
    at most 2 * maxConnsPerDay - 1 connections: the counter can be reset once inside the
    window, and the call that started it lies outside. *)
Theorem daily_quota_window ms mc cs0 cs1 ip t0 :
  Forall is_reading (times cs0) ->
  Forall (fun t => is_reading t /\ t0 <= t <= t0 + day) (times cs1) ->
  grants ip (run (run (NewRateLimiter ms mc) cs0).2 cs1).1 <= Z.max 0 (2 * mc - 1).
Proof.
  intros H0 H1. pose proof (run_wf _ cs0 (NewRateLimiter_wf ms mc)) as Hwf.
  pose proof (run_started (NewRateLimiter ms mc) cs0 ip) as Hs.
  assert (forall u, ipLastReset (run (NewRateLimiter ms mc) cs0).2 !! ip = Some u -> is_reading u) as Hr.
  { intros u. apply run_readings; [|done]. simpl. intros ? ?. by rewrite lookup_empty. }
  assert (maxConnsPerDay (run (NewRateLimiter ms mc) cs0).2 = mc) as Em by apply run_limits.
  set (rl := (run (NewRateLimiter ms mc) cs0).2) in *. simpl in Hs. rewrite lookup_empty in Hs.
  assert (0 <= mget (ipConnections rl) ip <= Z.max 0 mc) as Hb.
  { unfold mget. destruct (ipConnections rl !! ip) eqn:E; simpl; [|lia].
    rewrite <- Em. by apply (wf_connections _ Hwf ip). }
  pose proof (grants_window rl cs1 ip _ _ t0 eq_refl Hr) as H. rewrite Em in H.
  assert (ipLastReset rl !! ip = None -> mget (ipConnections rl) ip = 0) as Hz.
  { intros E. unfold mget. by rewrite (proj2 (wf_reset _ Hwf ip) E). }
  specialize (H Hb Hz H1). destruct (ipLastReset rl !! ip); [|lia].
  specialize (Hs ltac:(done) ltac:(done)). lia.
Qed.

(** The bound is reached: with a limit of 3, two grants just before the counter
    turns stale and three just after. *)
Lemma daily_quota_window_witness :
  let cs0 := [Connect 0 (demo_addr "1")] in
  let cs1 := [Connect (day - 2) (demo_addr "2"); Connect (day - 1) (demo_addr "3");
              Connect (day + 1) (demo_addr "4"); Connect (day + 2) (demo_addr "5");
              Connect (day + 3) (demo_addr "6")] in
  grants (str "203.0.113.7") (run (run (NewRateLimiter 3 3) cs0).2 cs1).1 = 5 /\
  grants (str "203.0.113.7") (run (run (NewRateLimiter 3 3) cs0).2 cs1).1 <= Z.max 0 (2 * 3 - 1).
Proof.
  intros cs0 cs1. split; [by vm_compute|].
  apply (daily_quota_window 3 3 cs0 cs1 _ (day - 2)).
  - repeat constructor; vm_compute; discriminate || done.
  - unfold times, cs1, is_reading, day; simpl. repeat constructor; lia.
Defined.

(** Stats: the reported total of sessions goes up by one with every granted
    acquisition, down by one with every release of a held session, and nothing else
    changes it; the reported number of IPs is the number of clients that hold a session. *)
Theorem stats_counts_sessions rl addr now :
  rl_wf rl ->
  (Stats (TryAcquireSession rl addr).2).1 =
    (Stats rl).1 + (if (TryAcquireSession rl addr).1 then 1 else 0) /\
  (Stats (ReleaseSession rl addr)).1 =
    (Stats rl).1 - (if 0 <? mget (ipSessions rl) (extractIP addr) then 1 else 0) /\
  Stats (TryConnection rl now addr).2 = Stats rl /\
  (Stats rl).2 = Z.of_nat (size (filter (fun kv => 0 < kv.2) (ipSessions rl))).
Proof.
  intros H. unfold Stats. split_and!; simpl.
  - unfold TryAcquireSession. destruct (_ <=? _); simpl; [lia|]. rewrite sum_values_insert. lia.
  - pose proof (mget_sessions_bound rl (extractIP addr) H). unfold ReleaseSession.
    destruct (0 <? _) eqn:E; zbool; simpl.
    + rewrite mget_insert, decide_True by done. destruct (_ =? 0) eqn:E2; zbool; simpl.
      * rewrite delete_insert_eq, sum_values_delete. lia.
      * rewrite sum_values_insert. lia.
    + rewrite (proj2 (Z.eqb_eq _ _)) by lia. simpl. rewrite sum_values_delete. lia.
  - by destruct (TryConnection_sessions rl now addr) as [-> _].
  - rewrite map_filter_id; [done|]. intros ip n Hn. simpl. apply (wf_sessions _ H) in Hn. lia.
Qed.

Lemma stats_counts_sessions_witness :
  let rl := (run (NewRateLimiter 2 3) [Acquire (demo_addr "1")]).2 in
  let addr := demo_addr "2" in
  (Stats (TryAcquireSession rl addr).2).1 =
    (Stats rl).1 + (if (TryAcquireSession rl addr).1 then 1 else 0) /\
  (Stats (ReleaseSession rl addr)).1 =
    (Stats rl).1 - (if 0 <? mget (ipSessions rl) (extractIP addr) then 1 else 0) /\
  Stats (TryConnection rl 5 addr).2 = Stats rl /\
  (Stats rl).2 = Z.of_nat (size (filter (fun kv => 0 < kv.2) (ipSessions rl))).
Proof.
  intros rl addr. apply (stats_counts_sessions rl addr 5).
  apply run_wf, NewRateLimiter_wf.
Defined.
