(* ===== verification/SyncMap.v ===== *)
(** * sync.Map

    [tools/go-patched/src/sync/map.go].  The proxy keeps the connections of a
    session in a sync.Map.  Here are its two-level representation (a read-only map
    and a dirty map that share entries) and its methods, each run without
    interference, so that a compare-and-swap succeeds when its test does; and the
    proof that they implement a map. *)

From S2P Require Import Prelude.

Local Set Warnings "-clear-no-such-hyp".

Section SyncMap.
Context {K V : Type} `{Countable K} `{EqDecision V}.

(** ** State *)

(** What the pointer of an entry points to: nil, expunged, or a value. *)
Inductive cell : Type := Nil | Expunged | Val (v : V).

#[export] Instance cell_eq_dec : EqDecision cell.
Proof using EqDecision1. solve_decision. Defined.

(** [read.m] and [read.amended], [dirty] (None is a nil map), [misses]; entries
    are numbered and their pointers live in [cells]. *)
Record Map := mk_Map {
  cells : gmap Z cell;
  next_entry : Z;
  read_m : gmap K Z;
  amended : bool;
  dirty : option (gmap K Z);
  misses : Z;
}.

Definition empty_Map : Map := mk_Map ∅ 0 ∅ false None 0.

Definition set_cells (m : Map) (cs : gmap Z cell) : Map :=
  mk_Map cs (next_entry m) (read_m m) (amended m) (dirty m) (misses m).
Definition set_read (m : Map) (r : gmap K Z) (a : bool) : Map :=
  mk_Map (cells m) (next_entry m) r a (dirty m) (misses m).
Definition set_dirty (m : Map) (d : option (gmap K Z)) : Map :=
  mk_Map (cells m) (next_entry m) (read_m m) (amended m) d (misses m).
Definition set_misses (m : Map) (n : Z) : Map :=
  mk_Map (cells m) (next_entry m) (read_m m) (amended m) (dirty m) n.

(** [e.p.Load()] and [e.p.Store()] *)
Definition cell_at (m : Map) (e : Z) : cell := default Nil (cells m !! e).
Definition set_cell (m : Map) (e : Z) (c : cell) : Map := set_cells m (<[e := c]> (cells m)).

(** ** Entries *)

Definition newEntry (m : Map) (v : V) : Z * Map :=
  (next_entry m, mk_Map (<[next_entry m := Val v]> (cells m)) (next_entry m + 1)
     (read_m m) (amended m) (dirty m) (misses m)).

Definition entry_load (m : Map) (e : Z) : option V :=
  match cell_at m e with Val v => Some v | _ => None end.

Definition tryCompareAndSwap (m : Map) (e : Z) (old new : V) : bool * Map :=
  match cell_at m e with
  | Val v => if decide (v = old) then (true, set_cell m e (Val new)) else (false, m)
  | _ => (false, m)
  end.

Definition unexpungeLocked (m : Map) (e : Z) : bool * Map :=
  match cell_at m e with Expunged => (true, set_cell m e Nil) | _ => (false, m) end.

Definition swapLocked (m : Map) (e : Z) (v : V) : cell * Map := (cell_at m e, set_cell m e (Val v)).

(** [None]: the entry is expunged. *)
Definition tryLoadOrStore (m : Map) (e : Z) (v : V) : option (V * bool) * Map :=
  match cell_at m e with
  | Expunged => (None, m)
  | Val x => (Some (x, true), m)
  | Nil => (Some (v, false), set_cell m e (Val v))
  end.

Definition entry_delete (m : Map) (e : Z) : option V * Map :=
  match cell_at m e with
  | Val v => (Some v, set_cell m e Nil)
  | _ => (None, m)
  end.

Definition trySwap (m : Map) (e : Z) (v : V) : option cell * Map :=
  match cell_at m e with
  | Expunged => (None, m)
  | c => (Some c, set_cell m e (Val v))
  end.

Definition tryExpungeLocked (m : Map) (e : Z) : bool * Map :=
  match cell_at m e with
  | Nil => (true, set_cell m e Expunged)
  | Expunged => (true, m)
  | Val _ => (false, m)
  end.

(** ** Promotion and copying *)

(** The number of keys of a nil map is 0. *)
Definition len_dirty (m : Map) : Z := match dirty m with Some d => Z.of_nat (size d) | None => 0 end.

Definition missLocked (m : Map) : Map :=
  let m := set_misses m (misses m + 1) in
  if misses m <? len_dirty m then m
  else
    let m := set_read m (default ∅ (dirty m)) false in
    set_misses (set_dirty m None) 0.

(** The loop over [read.m], in some order. *)
Fixpoint dirtyLocked_loop (m : Map) (d : gmap K Z) (l : list (K * Z)) : Map * gmap K Z :=
  match l with
  | [] => (m, d)
  | (k, e) :: l =>
      let '(expunged, m) := tryExpungeLocked m e in
      dirtyLocked_loop m (if expunged then d else <[k := e]> d) l
  end.

Definition dirtyLocked (m : Map) : Map :=
  match dirty m with
  | Some _ => m
  | None =>
      let '(m, d) := dirtyLocked_loop m ∅ (map_to_list (read_m m)) in
      set_dirty m (Some d)
  end.

(** ** Methods

    The outer [None] is what the comments of the code rule out: an assignment to a
    nil map, which panics, or an expunged entry where it is known not to be. *)

Definition dirty_insert (m : Map) (k : K) (e : Z) : option Map :=
  d ← dirty m; Some (set_dirty m (Some (<[k := e]> d))).

Definition value_of (c : cell) : option (option V) :=
  match c with Nil => Some None | Val v => Some (Some v) | Expunged => None end.

Definition dirty_lookup (m : Map) (k : K) : option Z := d ← dirty m; d !! k.

(** The entry of a key, promoting the dirty map when it was missed too often. *)
Definition find_entry (m : Map) (k : K) (delete_dirty : bool) : option Z * Map :=
  match read_m m !! k with
  | Some e => (Some e, m)
  | None =>
      if amended m then
        let e := dirty_lookup m k in
        let m := if delete_dirty then set_dirty m (delete k <$> dirty m) else m in
        (e, missLocked m)
      else (None, m)
  end.

Definition Load (m : Map) (k : K) : option V * Map :=
  let '(e, m) := find_entry m k false in
  match e with Some e => (entry_load m e, m) | None => (None, m) end.

Definition LoadAndDelete (m : Map) (k : K) : option V * Map :=
  let '(e, m) := find_entry m k true in
  match e with Some e => entry_delete m e | None => (None, m) end.

Definition Delete (m : Map) (k : K) : Map := (LoadAndDelete m k).2.

(** A key in neither map goes to the dirty map. *)
Definition add_entry (m : Map) (k : K) (v : V) : option Map :=
  let m := if amended m then m else let m := dirtyLocked m in set_read m (read_m m) true in
  let '(e, m) := newEntry m v in
  dirty_insert m k e.

Definition Swap (m : Map) (k : K) (v : V) : option (option V * Map) :=
  match read_m m !! k with
  | Some e =>
      match trySwap m e v with
      | (Some c, m) => prev ← value_of c; Some (prev, m)
      | (None, m) =>
          let '(was, m) := unexpungeLocked m e in
          m ← (if was then dirty_insert m k e else Some m);
          let '(c, m) := swapLocked m e v in
          prev ← value_of c; Some (prev, m)
      end
  | None =>
      match dirty_lookup m k with
      | Some e =>
          let '(c, m) := swapLocked m e v in
          prev ← value_of c; Some (prev, m)
      | None => m ← add_entry m k v; Some (None, m)
      end
  end.

Definition Store (m : Map) (k : K) (v : V) : option Map := '(_, m) ← Swap m k v; Some m.

(** The value and whether it was loaded. *)
Definition LoadOrStore (m : Map) (k : K) (v : V) : option (V * bool * Map) :=
  match read_m m !! k with
  | Some e =>
      match tryLoadOrStore m e v with
      | (Some (actual, loaded), m) => Some (actual, loaded, m)
      | (None, m) =>
          let '(was, m) := unexpungeLocked m e in
          m ← (if was then dirty_insert m k e else Some m);
          let '(r, m) := tryLoadOrStore m e v in
          '(actual, loaded) ← r; Some (actual, loaded, m)
      end
  | None =>
      match dirty_lookup m k with
      | Some e =>
          let '(r, m) := tryLoadOrStore m e v in
          '(actual, loaded) ← r; Some (actual, loaded, missLocked m)
      | None => m ← add_entry m k v; Some (v, false, m)
      end
  end.

Definition CompareAndSwap (m : Map) (k : K) (old new : V) : bool * Map :=
  match read_m m !! k with
  | Some e => tryCompareAndSwap m e old new
  | None =>
      if negb (amended m) then (false, m) else
      match dirty_lookup m k with
      | Some e => let '(swapped, m) := tryCompareAndSwap m e old new in (swapped, missLocked m)
      | None => (false, m)
      end
  end.

Definition CompareAndDelete (m : Map) (k : K) (old : V) : bool * Map :=
  let '(e, m) := find_entry m k false in
  match e with
  | Some e =>
      match cell_at m e with
      | Val v => if decide (v = old) then (true, set_cell m e Nil) else (false, m)
      | _ => (false, m)
      end
  | None => (false, m)
  end.

(** The map that Range walks over. *)
Definition Range_promote (m : Map) : Map :=
  if amended m then set_misses (set_dirty (set_read m (default ∅ (dirty m)) false) None) 0 else m.

(** The loop of Range, for a function [f] with a state of its own that answers
    whether to go on, and that does not call methods of the map. *)
Fixpoint Range_loop {S : Type} (m : Map) (f : K -> V -> S -> S * bool) (l : list (K * Z)) (s : S) : S :=
  match l with
  | [] => s
  | (k, e) :: l =>
      match entry_load m e with
      | None => Range_loop m f l s
      | Some v => let '(s, go_on) := f k v s in if go_on then Range_loop m f l s else s
      end
  end.

Definition Range {S : Type} (m : Map) (f : K -> V -> S -> S * bool) (s : S) : S * Map :=
  let m := Range_promote m in (Range_loop m f (map_to_list (read_m m)) s, m).

(** ** The map it represents *)

Definition value (m : Map) (k : K) : option V :=
  match read_m m !! k with
  | Some e => entry_load m e
  | None => e ← dirty_lookup m k; entry_load m e
  end.

(** [e] is the entry of [k] in one of the maps. *)
Definition is_entry (m : Map) (k : K) (e : Z) : Prop :=
  read_m m !! k = Some e \/ dirty_lookup m k = Some e.

(** The dirty map is there exactly when [amended] is set; it holds every entry of
    the read map that is not expunged, and no expunged one; an entry belongs to one
    key only. *)
Record wf (m : Map) : Prop := {
  wf_amended : amended m = true <-> is_Some (dirty m);
  wf_alloc k e : is_entry m k e -> e < next_entry m;
  wf_inj k1 k2 e : is_entry m k1 e -> is_entry m k2 e -> k1 = k2;
  wf_shared d k e : dirty m = Some d -> read_m m !! k = Some e ->
    (cell_at m e = Expunged /\ d !! k = None) \/ (cell_at m e <> Expunged /\ d !! k = Some e);
  wf_dirty d k e : dirty m = Some d -> d !! k = Some e -> cell_at m e <> Expunged;
  wf_clean k e : dirty m = None -> read_m m !! k = Some e -> cell_at m e <> Expunged;
}.

Definition represents (m : Map) (M : gmap K V) : Prop := wf m /\ forall k, M !! k = value m k.

Lemma cell_at_set m e c e' : cell_at (set_cell m e c) e' = if decide (e' = e) then c else cell_at m e'.
Proof.
  unfold cell_at, set_cell. simpl. case_decide as E; [subst; by rewrite lookup_insert_eq|].
  by rewrite lookup_insert_ne.
Qed.

Lemma entry_load_set m e c e' :
  entry_load (set_cell m e c) e' =
    if decide (e' = e) then match c with Val v => Some v | _ => None end else entry_load m e'.
Proof. unfold entry_load. rewrite cell_at_set. by case_decide. Qed.

Lemma is_entry_dirty m k e d : dirty m = Some d -> d !! k = Some e -> is_entry m k e.
Proof. intros Hd Hk. right. unfold dirty_lookup. by rewrite Hd. Qed.

Lemma value_entry m k e : wf m -> is_entry m k e -> value m k = entry_load m e.
Proof.
  intros Hwf He. unfold value. destruct (read_m m !! k) as [e'|] eqn:Hr.
  - destruct He as [He|He]; [congruence|]. unfold dirty_lookup in He.
    destruct (dirty m) as [d|] eqn:Hd; [|done]. simpl in He.
    destruct (wf_shared _ Hwf d k e' Hd Hr) as [[_ ?]|[_ ?]]; congruence.
  - destruct He as [He|He]; [congruence|]. by rewrite He.
Qed.

(** Promotion changes nothing that can be seen. *)
Lemma promote_represents m M n :
  represents m M -> amended m = true ->
  represents (set_misses (set_dirty (set_read m (default ∅ (dirty m)) false) None) n) M.
Proof.
  intros [Hwf Hv] Ha. destruct (proj1 (wf_amended _ Hwf) Ha) as [d Hd]. rewrite Hd. simpl.
  assert (forall k e, d !! k = Some e -> is_entry m k e) as Hent by (intros; by eapply is_entry_dirty).
  split.
  - split; simpl.
    + split; [done|]. by intros [].
    + intros k e [?|?]; [|done]. simpl in *. eapply wf_alloc; eauto.
    + intros k1 k2 e [?|?] [?|?]; try done. simpl in *. eapply wf_inj; eauto.
    + done.
    + done.
    + intros k e _ Hk. by eapply (wf_dirty _ Hwf).
  - intros k. rewrite Hv. unfold value, dirty_lookup. simpl. rewrite Hd. simpl.
    destruct (read_m m !! k) as [e|] eqn:Hr.
    + destruct (wf_shared _ Hwf d k e Hd Hr) as [[Hc ->]|[_ ->]]; [|done].
      unfold entry_load. by rewrite Hc.
    + by destruct (d !! k).
Qed.

Lemma misses_represents m M n : represents m M -> represents (set_misses m n) M.
Proof. by intros [[] Hv]; split. Qed.

Lemma missLocked_represents m M : represents m M -> amended m = true -> represents (missLocked m) M.
Proof.
  intros Hr Ha. unfold missLocked. cbv zeta. case_match.
  - by apply misses_represents.
  - apply (promote_represents (set_misses m (misses m + 1))); [|done]. by apply misses_represents.
Qed.

(** Writing to the entry of a key is writing to the key. *)
Definition write (M : gmap K V) (k : K) (c : cell) : gmap K V :=
  match c with Val v => <[k := v]> M | _ => delete k M end.

Lemma set_cell_represents m M k e c :
  represents m M -> is_entry m k e -> cell_at m e <> Expunged -> c <> Expunged ->
  represents (set_cell m e c) (write M k c).
Proof.
  intros [Hwf Hv] He Hc Hnc.
  assert (forall e', cell_at (set_cell m e c) e' = Expunged <-> cell_at m e' = Expunged) as Hexp.
  { intros e'. rewrite cell_at_set. case_decide; [by subst|done]. }
  split.
  - destruct Hwf as [H1 H2 H3 H4 H5 H6]. split; simpl; try done; intros *; rewrite Hexp; eauto.
  - intros k'. destruct (decide (k' = k)) as [->|Hne].
    + assert (value (set_cell m e c) k = match c with Val v => Some v | _ => None end) as ->.
      { pose proof (wf_shared _ Hwf) as Hsh. unfold value. simpl.
        destruct (read_m m !! k) as [e'|] eqn:Hr.
        - assert (e' = e) as ->; [|rewrite entry_load_set; by rewrite decide_True].
          destruct He as [He|He]; [congruence|]. unfold dirty_lookup in He.
          destruct (dirty m) as [d|] eqn:Hd; [|done]. simpl in He.
          destruct (Hsh d k e' eq_refl Hr) as [[_ ?]|[_ ?]]; congruence.
        - destruct He as [He|He]; [congruence|]. unfold dirty_lookup in *. simpl. rewrite He. simpl.
          rewrite entry_load_set. by rewrite decide_True. }
      destruct c; simpl; [by rewrite lookup_delete_eq|done|by rewrite lookup_insert_eq].
    + assert (value (set_cell m e c) k' = value m k') as ->.
      { unfold value. simpl. destruct (read_m m !! k') as [e'|] eqn:Hr.
        - rewrite entry_load_set. case_decide; [|done]. subst e'. exfalso. apply Hne.
          eapply (wf_inj _ Hwf); [by left|exact He].
        - change (dirty_lookup (set_cell m e c) k') with (dirty_lookup m k').
          destruct (dirty_lookup m k') as [e'|] eqn:Hd; [|done]. simpl. rewrite entry_load_set. case_decide; [|done]. subst e'. exfalso. apply Hne.
          eapply (wf_inj _ Hwf); [by right|exact He]. }
      rewrite <- Hv. destruct c; simpl; by rewrite ?lookup_delete_ne, ?lookup_insert_ne.
Qed.

(** Writing to an entry that no key has any more is invisible. *)
Lemma set_cell_unreachable m M e c :
  represents m M -> (forall k, ~ is_entry m k e) -> represents (set_cell m e c) M.
Proof.
  intros [Hwf Hv] Hno.
  assert (forall k e', is_entry m k e' -> cell_at (set_cell m e c) e' = cell_at m e') as Hsame.
  { intros k e' He. rewrite cell_at_set. case_decide; [subst|done]. by destruct (Hno k). }
  split.
  - destruct Hwf as [H1 H2 H3 H4 H5 H6]. split; simpl; try done.
    + intros d k e' Hd Hr. rewrite (Hsame k) by (by left). by eapply H4.
    + intros d k e' Hd Hr. rewrite (Hsame k) by (by eapply is_entry_dirty). by eapply H5.
    + intros k e' Hd Hr. rewrite (Hsame k) by (by left). by eapply H6.
  - intros k. rewrite Hv. unfold value, entry_load. simpl. destruct (read_m m !! k) as [e'|] eqn:Hr.
    + rewrite (Hsame k) by (by left). done.
    + change (dirty_lookup (set_cell m e c) k) with (dirty_lookup m k).
      destruct (dirty_lookup m k) as [e'|] eqn:Hd; [|done]. simpl. rewrite (Hsame k) by (by right). done.
Qed.

(** Bringing an expunged entry back: it becomes nil and returns to the dirty map. *)
Lemma unexpunge_represents m M k e :
  represents m M -> read_m m !! k = Some e -> cell_at m e = Expunged ->
  exists m', dirty_insert (set_cell m e Nil) k e = Some m' /\ represents m' M /\
    cell_at m' e = Nil /\ read_m m' = read_m m.
Proof.
  intros [Hwf Hv] Hr Hc.
  destruct (dirty m) as [d|] eqn:Hd; [|by destruct (wf_clean _ Hwf k e)].
  unfold dirty_insert. simpl. rewrite Hd. simpl. eexists. split; [done|].
  set (m' := set_dirty (set_cell m e Nil) (Some (<[k := e]> d))).
  assert (forall e', cell_at m' e' = if decide (e' = e) then Nil else cell_at m e') as Hcell
    by (intros e'; apply (cell_at_set m e Nil e')).
  assert (forall k' e', is_entry m' k' e' -> is_entry m k' e') as Hent.
  { intros k' e' [?|He]; [by left|]. unfold dirty_lookup in He. simpl in He.
    apply lookup_insert_Some in He as [[<- <-]|[_ ?]]; [by left|by eapply is_entry_dirty]. }
  split; [split|split; [rewrite Hcell; by rewrite decide_True|done]].
  - split.
    + simpl. rewrite (wf_amended _ Hwf), Hd. split; eauto.
    + intros. by eapply (wf_alloc _ Hwf), Hent.
    + intros. eapply (wf_inj _ Hwf); by apply Hent.
    + intros d' k' e' [= <-] Hr'. rewrite Hcell. simpl in Hr'.
      destruct (decide (k' = k)) as [->|Hne].
      { simplify_eq. rewrite decide_True, lookup_insert_eq by done. by right. }
      rewrite lookup_insert_ne by done. rewrite decide_False.
      * by eapply (wf_shared _ Hwf).
      * intros ->. apply Hne. by eapply (wf_inj _ Hwf); left.
    + intros d' k' e' [= <-] Hk'. rewrite Hcell. case_decide as E; [done|].
      apply lookup_insert_Some in Hk' as [[_ ?]|[_ ?]]; [congruence|by eapply (wf_dirty _ Hwf)].
    + done.
  - intros k'. rewrite Hv. unfold value, entry_load. simpl. destruct (read_m m !! k') as [e'|] eqn:Hr'.
    + fold (cell_at m' e'). rewrite Hcell. case_decide; [subst; by rewrite Hc|done].
    + unfold dirty_lookup. rewrite Hd. simpl. rewrite lookup_insert_ne by congruence.
      destruct (d !! k') as [e'|] eqn:Hk'; [|done]. simpl. fold (cell_at m' e'). rewrite Hcell.
      case_decide; [|done]. subst e'. exfalso.
      assert (k' = k) as -> by (eapply (wf_inj _ Hwf); [by eapply is_entry_dirty|by left]). congruence.
Qed.

(** The copy of the read map: nil entries are expunged, the others are shared. *)
Lemma dirtyLocked_loop_spec l m d :
  NoDup (l.*1) -> NoDup (l.*2) ->
  let '(m', d') := dirtyLocked_loop m d l in
  next_entry m' = next_entry m /\ read_m m' = read_m m /\
  (forall e, cell_at m' e = if decide (e ∈ l.*2 /\ cell_at m e = Nil) then Expunged else cell_at m e) /\
  (forall k e, (k, e) ∈ l -> d' !! k = match cell_at m e with Val _ => Some e | _ => d !! k end) /\
  (forall k, k ∉ l.*1 -> d' !! k = d !! k).
Proof.
  revert m d. induction l as [|[k e] l IH]; intros m d H1 H2; simpl.
  { split_and!; try done. intros k e Hin. by apply not_elem_of_nil in Hin. }
  simpl in H1, H2. apply NoDup_cons in H1 as [Hk H1], H2 as [He H2].
  destruct (tryExpungeLocked m e) as [b m1] eqn:Et.
  assert (next_entry m1 = next_entry m /\ read_m m1 = read_m m /\
    (forall e', cell_at m1 e' = if decide (e' = e /\ cell_at m e = Nil) then Expunged else cell_at m e') /\
    (b = false <-> exists v, cell_at m e = Val v)) as (Hn & Hrd & Hcell & Hb).
  { unfold tryExpungeLocked in Et. destruct (cell_at m e) as [| |v] eqn:Ec; simplify_eq.
    - split_and!; [done|done| |naive_solver]. intros e'. rewrite cell_at_set.
      destruct (decide (e' = e)); [rewrite decide_True by done|rewrite decide_False by naive_solver]; done.
    - split_and!; [done|done| |naive_solver]. intros e'. by rewrite decide_False by naive_solver.
    - split_and!; [done|done| |naive_solver]. intros e'. by rewrite decide_False by naive_solver. }
  specialize (IH m1 (if b then d else <[k := e]> d) H1 H2).
  destruct (dirtyLocked_loop m1 _ l) as [m' d']. destruct IH as (-> & -> & Hc & Hin & Hout).
  split_and!; [done|done| | |].
  - intros e'. rewrite Hc, Hcell. destruct (decide (e' = e)) as [->|Hne].
    + rewrite (decide_False (P := e ∈ l.*2 /\ _)) by naive_solver.
      destruct (decide (cell_at m e = Nil)).
      * by rewrite !decide_True by (split; [set_solver|done] || done).
      * by rewrite !decide_False by naive_solver.
    + rewrite (decide_False (P := e' = e /\ _)) by naive_solver.
      destruct (decide (e' ∈ l.*2 /\ cell_at m e' = Nil)).
      * by rewrite decide_True by set_solver.
      * by rewrite decide_False by set_solver.
  - intros k' e' [[= -> ->]|Hin']%elem_of_cons.
    + rewrite Hout by done. destruct (cell_at m e) as [| |v] eqn:Ec; destruct b; try done.
      * by destruct (proj1 Hb eq_refl).
      * by destruct (proj1 Hb eq_refl).
      * exfalso. by assert (true = false) by (apply Hb; eauto).
      * by rewrite lookup_insert_eq.
    + rewrite (Hin _ _ Hin'), Hcell.
      assert (e' ∈ l.*2) by (apply (list_elem_of_fmap_2 snd _ _ Hin')).
      assert (k' ∈ l.*1) by (apply (list_elem_of_fmap_2 fst _ _ Hin')).
      rewrite decide_False by (intros [-> _]; done).
      destruct b; [done|]. by rewrite lookup_insert_ne by (intros ->; done).
  - intros k' [Hk' Hout']%not_elem_of_cons. rewrite Hout by done. destruct b; [done|].
    by rewrite lookup_insert_ne.
Qed.

(** With no dirty map, making one and setting [amended] changes nothing that can be
    seen. *)
Lemma dirtyLocked_represents m M :
  represents m M -> dirty m = None ->
  let m' := dirtyLocked m in
  represents (set_read m' (read_m m') true) M /\ read_m m' = read_m m /\
  (forall k, read_m m !! k = None -> dirty_lookup m' k = None).
Proof.
  intros [Hwf Hv] Hd. unfold dirtyLocked. rewrite Hd.
  pose proof (dirtyLocked_loop_spec (map_to_list (read_m m)) m ∅ (NoDup_fst_map_to_list _)) as HL.
  destruct (dirtyLocked_loop m ∅ _) as [m' d'] eqn:El.
  destruct HL as (Hn & Hr & Hc & Hin & Hout).
  { apply NoDup_fmap_2_strong; [|apply NoDup_map_to_list].
    intros [k1 e1] [k2 e2] H1%elem_of_map_to_list H2%elem_of_map_to_list. simpl. intros ->.
    f_equal. by eapply (wf_inj _ Hwf); left. }
  assert (forall k e, read_m m !! k = Some e -> e ∈ (map_to_list (read_m m)).*2) as Hmem.
  { intros k e Hk. apply (list_elem_of_fmap_2 snd _ (k, e)). by apply elem_of_map_to_list. }
  assert (forall k e, d' !! k = Some e -> read_m m !! k = Some e /\ exists v, cell_at m e = Val v) as Hd'.
  { intros k e Hk. destruct (read_m m !! k) as [e'|] eqn:Hr'.
    - rewrite (Hin k e') in Hk by (by apply elem_of_map_to_list).
      destruct (cell_at m e') eqn:Ec; try (by rewrite lookup_empty in Hk). simplify_eq. eauto.
    - rewrite Hout, lookup_empty in Hk; [done|]. intros ([k1 e1] & -> & Hx)%list_elem_of_fmap.
      apply elem_of_map_to_list in Hx. simpl in Hr'. congruence. }
  cbv zeta. split; [|split; [done|]].
  2: { intros k Hk. unfold dirty_lookup. simpl. destruct (d' !! k) eqn:E; [|done].
       apply Hd' in E as [? _]. congruence. }
  split; [split|]; simpl; rewrite ?Hr, ?Hn.
  - split; [eauto|done].
  - intros k e [He|He]; simpl in He; [rewrite ?Hr in He|apply Hd' in He as [He _]]; eapply (wf_alloc _ Hwf); by left.
  - intros k1 k2 e He1 He2. eapply (wf_inj _ Hwf).
    + destruct He1 as [He|He]; simpl in He; [rewrite ?Hr in He|apply Hd' in He as [He _]]; by left.
    + destruct He2 as [He|He]; simpl in He; [rewrite ?Hr in He|apply Hd' in He as [He _]]; by left.
  - intros d k e [= <-] Hk. change (cell_at (set_read _ _ _) e) with (cell_at m' e). rewrite Hc.
    rewrite (Hin k e) by (by apply elem_of_map_to_list).
    pose proof (wf_clean _ Hwf k e Hd Hk). pose proof (Hmem k e Hk).
    destruct (cell_at m e) eqn:Ec; [left|done|right]; case_decide; naive_solver.
  - intros d k e [= <-] Hk. change (cell_at (set_read _ _ _) e) with (cell_at m' e). rewrite Hc.
    apply Hd' in Hk as [Hk [v ->]]. by case_decide as E; [destruct E|].
  - done.
  - intros k. rewrite Hv. unfold value, dirty_lookup. simpl. rewrite ?Hr, Hd. simpl.
    destruct (read_m m !! k) as [e|] eqn:Hk.
    + unfold entry_load. change (cell_at (set_read _ _ _) e) with (cell_at m' e). rewrite Hc.
      case_decide as E; [by destruct E as [_ ->]|done].
    + destruct (d' !! k) as [e|] eqn:Ed; [|done]. apply Hd' in Ed as [? _]. congruence.
Qed.

(** Adding a key that neither map has. *)
Lemma new_entry_represents m M k v d :
  represents m M -> dirty m = Some d -> read_m m !! k = None -> d !! k = None ->
  represents (set_dirty (newEntry m v).2 (Some (<[k := next_entry m]> d))) (<[k := v]> M).
Proof.
  intros [Hwf Hv] Hd Hr Hk. simpl. set (m' := set_dirty _ _).
  assert (forall e, cell_at m' e = if decide (e = next_entry m) then Val v else cell_at m e) as Hc.
  { intros e. unfold cell_at, m'. simpl. case_decide as E; [subst; by rewrite lookup_insert_eq|].
    by rewrite lookup_insert_ne. }
  assert (forall k' e, is_entry m' k' e -> (k' = k /\ e = next_entry m) \/ is_entry m k' e) as Hent.
  { intros k' e [?|He]; [right; by left|]. unfold dirty_lookup in He. simpl in He.
    apply lookup_insert_Some in He as [[<- <-]|[_ ?]]; [by left|right; by eapply is_entry_dirty]. }
  assert (forall k' e, is_entry m k' e -> e <> next_entry m) as Hne
    by (intros k' e He; apply (wf_alloc _ Hwf) in He; lia).
  split; [split|].
  - simpl. rewrite (wf_amended _ Hwf), Hd. split; eauto.
  - intros k' e [[-> ->]|He]%Hent; simpl; [lia|]. apply (wf_alloc _ Hwf) in He. lia.
  - intros k1 k2 e [[-> ->]|He1]%Hent [[-> E2]|He2]%Hent; [done| | |by eapply (wf_inj _ Hwf)].
    + by destruct (Hne k2 (next_entry m)).
    + subst. by destruct (Hne k1 (next_entry m)).
  - intros d' k' e [= <-] Hk'. simpl in Hk'. rewrite Hc, decide_False by (by apply (Hne k'); left).
    rewrite lookup_insert_ne by congruence. by eapply (wf_shared _ Hwf).
  - intros d' k' e [= <-] Hk'. rewrite Hc. case_decide; [done|].
    apply lookup_insert_Some in Hk' as [[_ ?]|[_ ?]]; [congruence|by eapply (wf_dirty _ Hwf)].
  - done.
  - intros k'. unfold value, dirty_lookup, entry_load. simpl. destruct (decide (k' = k)) as [->|Hkk].
    + rewrite Hr, !lookup_insert_eq. simpl. fold m'. by rewrite Hc, decide_True.
    + rewrite !lookup_insert_ne by done. rewrite Hv. unfold value, dirty_lookup, entry_load. rewrite Hd. simpl.
      fold m'. destruct (read_m m !! k') as [e|] eqn:Hr'.
      * by rewrite Hc, decide_False by (by apply (Hne k'); left).
      * destruct (d !! k') as [e|] eqn:Hd'; [|done]. simpl.
        by rewrite Hc, decide_False by (by eapply Hne, is_entry_dirty).
Qed.

Lemma add_entry_represents m M k v :
  represents m M -> read_m m !! k = None -> dirty_lookup m k = None ->
  exists m', add_entry m k v = Some m' /\ represents m' (<[k := v]> M).
Proof.
  intros Hrep Hr Hk. unfold add_entry.
  set (m1 := if amended m then m else _).
  assert (represents m1 M /\ read_m m1 !! k = None /\ exists d, dirty m1 = Some d /\ d !! k = None)
    as (Hrep1 & Hr1 & d & Hd & Hdk).
  { pose proof (wf_amended _ (proj1 Hrep)) as Ham. unfold m1. destruct (amended m) eqn:Ea.
    - destruct (proj1 Ham eq_refl) as [d Hd]. unfold dirty_lookup in Hk. rewrite Hd in Hk. eauto.
    - assert (dirty m = None) as Hd by (destruct (dirty m); [by discriminate (proj2 Ham ltac:(eauto))|done]).
      destruct (dirtyLocked_represents m M Hrep Hd) as (Hrep' & Hread & Hnone).
      split; [exact Hrep'|]. split; [simpl; by rewrite Hread|].
      destruct (proj1 (wf_amended _ (proj1 Hrep')) eq_refl) as [d' Hd'].
      exists d'. split; [exact Hd'|]. specialize (Hnone k Hr). unfold dirty_lookup in Hnone.
      simpl in Hd'. by rewrite Hd' in Hnone. }
  clearbody m1. unfold dirty_insert. simpl. rewrite Hd. simpl. eexists. split; [done|].
  by apply new_entry_represents.
Qed.

(** ** The methods *)

Lemma missLocked_entry m k e : is_entry (missLocked m) k e -> is_entry m k e.
Proof.
  unfold missLocked, is_entry, dirty_lookup. cbv zeta. case_match; [done|]. simpl.
  intros [He|He]; [|done]. right. by destruct (dirty m).
Qed.

Lemma missLocked_dirty_entry m k e :
  read_m m !! k = None -> dirty_lookup m k = Some e -> is_entry (missLocked m) k e.
Proof.
  unfold missLocked, is_entry, dirty_lookup. cbv zeta. intros Hr Hk. case_match; [by right|].
  left. simpl. by destruct (dirty m).
Qed.

Lemma missLocked_cells m : cells (missLocked m) = cells m.
Proof. unfold missLocked. cbv zeta. by case_match. Qed.

Lemma missLocked_load m e : entry_load (missLocked m) e = entry_load m e.
Proof. unfold entry_load, cell_at. by rewrite missLocked_cells. Qed.

Lemma missing m M k :
  represents m M -> read_m m !! k = None -> dirty_lookup m k = None -> M !! k = None.
Proof. intros [_ Hv] Hr Hk. rewrite Hv. unfold value. by rewrite Hr, Hk. Qed.

Lemma clean_dirty m M k : represents m M -> amended m = false -> dirty_lookup m k = None.
Proof.
  intros [Hwf _] Ha. unfold dirty_lookup. destruct (dirty m) eqn:Hd; [|done].
  assert (amended m = true) by (apply (wf_amended _ Hwf); rewrite Hd; eauto). congruence.
Qed.

Lemma dirty_amended m M k e : represents m M -> dirty_lookup m k = Some e -> amended m = true.
Proof. intros Hrep Hk. destruct (amended m) eqn:Ha; [done|]. by rewrite (clean_dirty _ _ _ Hrep Ha) in Hk. Qed.

Lemma entry_value m M k e : represents m M -> is_entry m k e -> M !! k = entry_load m e.
Proof. intros [Hwf Hv] He. rewrite Hv. by apply value_entry. Qed.

Lemma entry_not_expunged m M k e :
  represents m M -> read_m m !! k = None -> dirty_lookup m k = Some e -> cell_at m e <> Expunged.
Proof.
  intros [Hwf _] Hr Hk. unfold dirty_lookup in Hk. destruct (dirty m) as [d|] eqn:Hd; [|done].
  by eapply (wf_dirty _ Hwf).
Qed.

(** Looking a key up finds its entry, or the key is not in the map. *)
Lemma find_entry_represents m M k :
  represents m M ->
  let '(e, m') := find_entry m k false in
  represents m' M /\ match e with Some e => is_entry m' k e | None => M !! k = None end.
Proof.
  intros Hrep. unfold find_entry. destruct (read_m m !! k) as [e|] eqn:Hr; [by split; [|left]|].
  destruct (amended m) eqn:Ha.
  - split; [by apply missLocked_represents|].
    destruct (dirty_lookup m k) as [e|] eqn:Hk; [by apply missLocked_dirty_entry|by eapply missing].
  - split; [done|]. eapply missing; eauto. by eapply clean_dirty.
Qed.

(** Taking a key that the read map does not have out of the dirty map. *)
Lemma dirty_delete_represents m M k :
  represents m M -> read_m m !! k = None -> represents (set_dirty m (delete k <$> dirty m)) (delete k M).
Proof.
  intros [Hwf Hv] Hr. set (m' := set_dirty _ _).
  assert (forall k', dirty_lookup m' k' = if decide (k' = k) then None else dirty_lookup m k') as Hl.
  { intros k'. unfold dirty_lookup. simpl. destruct (dirty m) as [d|]; simpl; [|by case_decide].
    case_decide; [subst; apply lookup_delete_eq|by rewrite lookup_delete_ne]. }
  assert (forall k' e, is_entry m' k' e -> is_entry m k' e) as Hent.
  { intros k' e [?|He]; [by left|right]. rewrite Hl in He. by case_decide. }
  split; [split|].
  - simpl. rewrite (wf_amended _ Hwf). destruct (dirty m); simpl; split; intros []; done || eauto.
  - intros k' e He%Hent. by apply (wf_alloc _ Hwf) in He.
  - intros k1 k2 e H1%Hent H2%Hent. by eapply (wf_inj _ Hwf).
  - simpl. intros d' k' e (d & Hd & ->)%fmap_Some Hk'. rewrite lookup_delete_ne by congruence.
    by apply (wf_shared _ Hwf).
  - simpl. intros d' k' e (d & Hd & ->)%fmap_Some [_ Hk']%lookup_delete_Some.
    by apply (wf_dirty _ Hwf d k').
  - simpl. intros k' e Hd%fmap_None Hk'. by apply (wf_clean _ Hwf k').
  - intros k'. unfold value. rewrite Hl. destruct (decide (k' = k)) as [->|Hne].
    + simpl. by rewrite Hr, lookup_delete_eq.
    + by rewrite lookup_delete_ne.
Qed.

Lemma Load_spec m M k :
  represents m M -> (Load m k).1 = M !! k /\ represents (Load m k).2 M.
Proof.
  intros Hrep. pose proof (find_entry_represents m M k Hrep) as Hf. unfold Load.
  destruct (find_entry m k false) as [[e|] m']; destruct Hf as [Hrep' He]; simpl; [|done].
  split; [|done]. symmetry. by apply entry_value.
Qed.

(** Storing a value, or nil, in the entry of a key that is not expunged. *)
Lemma delete_entry_spec m M k e :
  represents m M -> is_entry m k e ->
  (entry_delete m e).1 = M !! k /\ represents (entry_delete m e).2 (delete k M).
Proof.
  intros Hrep He. pose proof (entry_value _ _ _ _ Hrep He) as Hv. unfold entry_delete, entry_load in *.
  destruct (cell_at m e) as [| |v] eqn:Hc; simpl; try by rewrite delete_id.
  split; [done|]. apply (set_cell_represents m M k e Nil); by rewrite ?Hc.
Qed.

Lemma LoadAndDelete_spec m M k :
  represents m M -> (LoadAndDelete m k).1 = M !! k /\ represents (LoadAndDelete m k).2 (delete k M).
Proof.
  intros Hrep. unfold LoadAndDelete, find_entry. destruct (read_m m !! k) as [e|] eqn:Hr.
  { apply delete_entry_spec; [done|by left]. }
  destruct (amended m) eqn:Ha; [|simpl].
  2: { pose proof (missing _ _ _ Hrep Hr (clean_dirty _ _ k Hrep Ha)) as Hn. by rewrite delete_id. }
  set (m1 := set_dirty m (delete k <$> dirty m)).
  pose proof (dirty_delete_represents m M k Hrep Hr) as Hrep1.
  pose proof (missLocked_represents m1 _ Hrep1 Ha) as Hrep2.
  destruct (dirty_lookup m k) as [e|] eqn:Hk; [|by rewrite (missing m M k)].
  rewrite (entry_value m M k e Hrep (or_intror Hk)).
  assert (cell_at (missLocked m1) e = cell_at m e) as Hc by (unfold cell_at; by rewrite missLocked_cells).
  assert (forall k', ~ is_entry (missLocked m1) k' e) as Hno.
  { intros k' He%missLocked_entry. assert (k' = k) as ->.
    - eapply (wf_inj _ (proj1 Hrep)); [|by right]. destruct He as [He|He]; [by left|right].
      unfold dirty_lookup in *. simpl in He. destruct (dirty m); [|done]. simpl in *.
      by apply lookup_delete_Some in He as [_ ?].
    - destruct He as [He|He]; simpl in He; [congruence|]. unfold dirty_lookup in He. simpl in He.
      destruct (dirty m); [|done]. simpl in He. by rewrite lookup_delete_eq in He. }
  unfold entry_delete, entry_load. rewrite Hc. destruct (cell_at m e); simpl; try done.
  split; [done|]. by apply set_cell_unreachable.
Qed.

(** Swapping a value into the entry of a key. *)
Lemma swap_entry_spec m M k e v :
  represents m M -> is_entry m k e -> cell_at m e <> Expunged ->
  value_of (cell_at m e) = Some (M !! k) /\ represents (set_cell m e (Val v)) (<[k := v]> M).
Proof.
  intros Hrep He Hc. split; [|by apply (set_cell_represents m M k e (Val v))].
  rewrite (entry_value _ _ _ _ Hrep He). unfold entry_load. by destruct (cell_at m e).
Qed.

Lemma Swap_spec m M k v :
  represents m M -> exists m', Swap m k v = Some (M !! k, m') /\ represents m' (<[k := v]> M).
Proof.
  intros Hrep. unfold Swap, swapLocked. destruct (read_m m !! k) as [e|] eqn:Hr.
  - unfold trySwap. destruct (cell_at m e) as [| |x] eqn:Hc.
    1, 3: destruct (swap_entry_spec m M k e v Hrep (or_introl Hr)) as [Hv ?]; [by rewrite Hc|];
      rewrite Hc in Hv; rewrite Hv; eauto.
    unfold unexpungeLocked. rewrite Hc.
    destruct (unexpunge_represents m M k e Hrep Hr Hc) as (m' & -> & Hrep' & Hc' & Hr'). simpl.
    rewrite <- Hr' in Hr.
    destruct (swap_entry_spec m' M k e v Hrep' (or_introl Hr)) as [Hv ?]; [by rewrite Hc'|].
    rewrite Hc' in Hv |- *. rewrite Hv. eauto.
  - destruct (dirty_lookup m k) as [e|] eqn:Hk.
    + destruct (swap_entry_spec m M k e v Hrep (or_intror Hk)) as [Hv ?]; [by eapply entry_not_expunged|].
      rewrite Hv. eauto.
    + destruct (add_entry_represents m M k v Hrep Hr Hk) as (m' & -> & ?). simpl.
      rewrite (missing m M k) by done. eauto.
Qed.

(** What LoadOrStore leaves in a map. *)
Definition load_or_store (M : gmap K V) (k : K) (v : V) : gmap K V :=
  match M !! k with Some _ => M | None => <[k := v]> M end.

Lemma tryLoadOrStore_spec m M k e v :
  represents m M -> is_entry m k e -> cell_at m e <> Expunged ->
  exists m', tryLoadOrStore m e v = (Some (default v (M !! k), bool_decide (is_Some (M !! k))), m') /\
    represents m' (load_or_store M k v) /\ amended m' = amended m.
Proof.
  intros Hrep He Hc. pose proof (entry_value _ _ _ _ Hrep He) as Hv. unfold load_or_store, entry_load, tryLoadOrStore in *.
  rewrite Hv. destruct (cell_at m e) as [| |x] eqn:Ec; [|done|].
  - eexists. split; [done|]. split; [|done]. apply (set_cell_represents m M k e (Val v)); by rewrite ?Ec.
  - by eexists.
Qed.

Lemma LoadOrStore_spec m M k v :
  represents m M ->
  exists m', LoadOrStore m k v = Some (default v (M !! k), bool_decide (is_Some (M !! k)), m') /\
    represents m' (load_or_store M k v).
Proof.
  intros Hrep. unfold LoadOrStore. destruct (read_m m !! k) as [e|] eqn:Hr.
  - destruct (decide (cell_at m e = Expunged)) as [Hc|Hc].
    + unfold tryLoadOrStore at 1. rewrite Hc. unfold unexpungeLocked. rewrite Hc.
      destruct (unexpunge_represents m M k e Hrep Hr Hc) as (m' & -> & Hrep' & Hc' & Hr'). simpl.
      rewrite <- Hr' in Hr.
      destruct (tryLoadOrStore_spec m' M k e v Hrep' (or_introl Hr)) as (m'' & -> & ? & _); [by rewrite Hc'|].
      simpl. eauto.
    + destruct (tryLoadOrStore_spec m M k e v Hrep (or_introl Hr) Hc) as (m' & -> & ? & _). eauto.
  - destruct (dirty_lookup m k) as [e|] eqn:Hk.
    + pose proof (entry_not_expunged _ _ _ _ Hrep Hr Hk) as Hc.
      destruct (tryLoadOrStore_spec m M k e v Hrep (or_intror Hk) Hc) as (m' & -> & ? & Ha). simpl.
      eexists. split; [done|]. apply missLocked_represents; [done|].
      rewrite Ha. by eapply dirty_amended.
    + destruct (add_entry_represents m M k v Hrep Hr Hk) as (m' & -> & ?). simpl.
      unfold load_or_store. rewrite (missing m M k) by done. eauto.
Qed.

Definition compare_and_swap (M : gmap K V) (k : K) (old new : V) : bool * gmap K V :=
  if decide (M !! k = Some old) then (true, <[k := new]> M) else (false, M).

Lemma tryCompareAndSwap_spec m M k e old new :
  represents m M -> is_entry m k e ->
  let '(b, m') := tryCompareAndSwap m e old new in
  b = (compare_and_swap M k old new).1 /\ represents m' (compare_and_swap M k old new).2 /\ amended m' = amended m.
Proof.
  intros Hrep He. pose proof (entry_value _ _ _ _ Hrep He) as Hv.
  unfold tryCompareAndSwap, compare_and_swap, entry_load in *. rewrite Hv.
  destruct (cell_at m e) as [| |x] eqn:Ec; [by rewrite decide_False|by rewrite decide_False|].
  destruct (decide (x = old)) as [->|Hne].
  - rewrite decide_True by done. split_and!; try done.
    apply (set_cell_represents m M k e (Val new)); by rewrite ?Ec.
  - by rewrite decide_False by congruence.
Qed.

Lemma CompareAndSwap_spec m M k old new :
  represents m M ->
  (CompareAndSwap m k old new).1 = (compare_and_swap M k old new).1 /\
  represents (CompareAndSwap m k old new).2 (compare_and_swap M k old new).2.
Proof.
  intros Hrep. unfold CompareAndSwap. destruct (read_m m !! k) as [e|] eqn:Hr.
  { pose proof (tryCompareAndSwap_spec m M k e old new Hrep (or_introl Hr)) as Ht.
    destruct (tryCompareAndSwap m e old new) as [b m']. naive_solver. }
  destruct (dirty_lookup m k) as [e|] eqn:Hk.
  - rewrite (dirty_amended _ _ _ _ Hrep Hk). simpl.
    pose proof (tryCompareAndSwap_spec m M k e old new Hrep (or_intror Hk)) as Ht.
    destruct (tryCompareAndSwap m e old new) as [b m']. destruct Ht as (-> & Ht & Ha). split; [done|].
    apply missLocked_represents; [done|]. rewrite Ha. by eapply dirty_amended.
  - unfold compare_and_swap. rewrite (missing m M k), decide_False by done. by destruct (amended m).
Qed.

Definition compare_and_delete (M : gmap K V) (k : K) (old : V) : bool * gmap K V :=
  if decide (M !! k = Some old) then (true, delete k M) else (false, M).

Lemma CompareAndDelete_spec m M k old :
  represents m M ->
  (CompareAndDelete m k old).1 = (compare_and_delete M k old).1 /\
  represents (CompareAndDelete m k old).2 (compare_and_delete M k old).2.
Proof.
  intros Hrep. pose proof (find_entry_represents m M k Hrep) as Hf.
  unfold CompareAndDelete, compare_and_delete.
  destruct (find_entry m k false) as [[e|] m']; destruct Hf as [Hrep' He]; [|by rewrite He].
  pose proof (entry_value _ _ _ _ Hrep' He) as Hv. unfold entry_load in Hv. rewrite Hv.
  destruct (cell_at m' e) as [| |x] eqn:Ec; [by rewrite decide_False|by rewrite decide_False|].
  destruct (decide (x = old)) as [->|Hne].
  - rewrite decide_True by done. split; [done|].
    apply (set_cell_represents m' M k e Nil); by rewrite ?Ec.
  - by rewrite decide_False by congruence.
Qed.

(** ** Runs

    The operations of a client, run on the representation and on a plain map. *)

Inductive op :=
  | OpLoad (k : K) | OpStore (k : K) (v : V) | OpSwap (k : K) (v : V)
  | OpLoadOrStore (k : K) (v : V) | OpLoadAndDelete (k : K) | OpDelete (k : K)
  | OpCompareAndSwap (k : K) (old new : V) | OpCompareAndDelete (k : K) (old : V).

Inductive answer :=
  | Done | Found (v : option V) | Actual (v : V) (loaded : bool) | Flag (b : bool).

Definition apply_op (m : Map) (o : op) : option (answer * Map) :=
  match o with
  | OpLoad k => let '(r, m) := Load m k in Some (Found r, m)
  | OpStore k v => m ← Store m k v; Some (Done, m)
  | OpSwap k v => '(r, m) ← Swap m k v; Some (Found r, m)
  | OpLoadOrStore k v => '(x, b, m) ← LoadOrStore m k v; Some (Actual x b, m)
  | OpLoadAndDelete k => let '(r, m) := LoadAndDelete m k in Some (Found r, m)
  | OpDelete k => Some (Done, Delete m k)
  | OpCompareAndSwap k old new => let '(b, m) := CompareAndSwap m k old new in Some (Flag b, m)
  | OpCompareAndDelete k old => let '(b, m) := CompareAndDelete m k old in Some (Flag b, m)
  end.

Definition spec_op (M : gmap K V) (o : op) : answer * gmap K V :=
  match o with
  | OpLoad k => (Found (M !! k), M)
  | OpStore k v => (Done, <[k := v]> M)
  | OpSwap k v => (Found (M !! k), <[k := v]> M)
  | OpLoadOrStore k v =>
      (Actual (default v (M !! k)) (bool_decide (is_Some (M !! k))), load_or_store M k v)
  | OpLoadAndDelete k => (Found (M !! k), delete k M)
  | OpDelete k => (Done, delete k M)
  | OpCompareAndSwap k old new => let '(b, M) := compare_and_swap M k old new in (Flag b, M)
  | OpCompareAndDelete k old => let '(b, M) := compare_and_delete M k old in (Flag b, M)
  end.

Fixpoint run_ops (m : Map) (os : list op) : option (list answer * Map) :=
  match os with
  | [] => Some ([], m)
  | o :: os => '(a, m) ← apply_op m o; '(l, m) ← run_ops m os; Some (a :: l, m)
  end.

Fixpoint spec_ops (M : gmap K V) (os : list op) : list answer * gmap K V :=
  match os with
  | [] => ([], M)
  | o :: os => let '(a, M) := spec_op M o in let '(l, M) := spec_ops M os in (a :: l, M)
  end.

(** The entries of the map in the order of Range, until the function stops. *)
Fixpoint visit {S : Type} (f : K -> V -> S -> S * bool) (l : list (K * V)) (s : S) : S :=
  match l with
  | [] => s
  | (k, v) :: l => let '(s, go_on) := f k v s in if go_on then visit f l s else s
  end.

Lemma apply_op_spec m M o :
  represents m M ->
  exists m', apply_op m o = Some ((spec_op M o).1, m') /\ represents m' (spec_op M o).2.
Proof.
  intros Hrep. destruct o as [k|k v|k v|k v|k|k|k old new|k old]; simpl.
  - destruct (Load_spec m M k Hrep). destruct (Load m k). naive_solver.
  - unfold Store. destruct (Swap_spec m M k v Hrep) as (m' & -> & ?). simpl. eauto.
  - destruct (Swap_spec m M k v Hrep) as (m' & -> & ?). simpl. eauto.
  - destruct (LoadOrStore_spec m M k v Hrep) as (m' & -> & ?). simpl. eauto.
  - destruct (LoadAndDelete_spec m M k Hrep). destruct (LoadAndDelete m k). naive_solver.
  - unfold Delete. destruct (LoadAndDelete_spec m M k Hrep). eauto.
  - destruct (CompareAndSwap_spec m M k old new Hrep).
    destruct (CompareAndSwap m k old new), (compare_and_swap M k old new). naive_solver.
  - destruct (CompareAndDelete_spec m M k old Hrep).
    destruct (CompareAndDelete m k old), (compare_and_delete M k old). naive_solver.
Qed.

Lemma run_ops_spec m M os :
  represents m M ->
  exists m', run_ops m os = Some ((spec_ops M os).1, m') /\ represents m' (spec_ops M os).2.
Proof.
  revert m M. induction os as [|o os IH]; intros m M Hrep; simpl; [eauto|].
  destruct (apply_op_spec m M o Hrep) as (m1 & -> & Hrep1). simpl.
  destruct (spec_op M o) as [a M1]. destruct (IH m1 M1 Hrep1) as (m2 & -> & Hrep2). simpl.
  destruct (spec_ops M1 os) as [l M2]. eauto.
Qed.

Lemma empty_represents : represents empty_Map ∅.
Proof.
  split; [split|]; simpl.
  - split; [done|]. by intros [].
  - intros k e [He|He]; by rewrite ?lookup_empty in He.
  - intros k1 k2 e [He|He]; by rewrite ?lookup_empty in He.
  - done.
  - done.
  - intros k e _ He. by rewrite lookup_empty in He.
  - intros k. unfold value. simpl. by rewrite !lookup_empty.
Qed.

Lemma Range_promote_represents m M :
  represents m M -> represents (Range_promote m) M /\ dirty (Range_promote m) = None.
Proof.
  intros Hrep. unfold Range_promote. destruct (amended m) eqn:Ha.
  - split; [by apply promote_represents|done].
  - split; [done|]. destruct (dirty m) eqn:Hd; [|done].
    assert (amended m = true) by (apply (wf_amended _ (proj1 Hrep)); rewrite Hd; eauto). congruence.
Qed.

Lemma Range_loop_visit {S : Type} m (f : K -> V -> S -> S * bool) l s :
  Range_loop m f l s = visit f (omap (fun p => v ← entry_load m p.2; Some (p.1, v)) l) s.
Proof.
  revert s. induction l as [|[k e] l IH]; intros s; simpl; [done|].
  destruct (entry_load m e) as [v|]; simpl; [|by apply IH].
  destruct (f k v s) as [s' []]; [by apply IH|done].
Qed.

Lemma read_entries m M :
  represents m M -> dirty m = None ->
  omap (fun p => v ← entry_load m p.2; Some (p.1, v)) (map_to_list (read_m m)) ≡ₚ map_to_list M.
Proof.
  intros [Hwf Hv] Hd. set (g := fun p : K * Z => _).
  assert (forall l : list (K * Z), NoDup l.*1 -> NoDup (omap g l).*1) as Hnd.
  { induction l as [|[k e] l IH]; simpl; [by constructor|]. intros [Hk Hl]%NoDup_cons.
    destruct (g (k, e)) as [y|] eqn:Hy; simpl; [|by apply IH]. constructor; [|by apply IH].
    unfold g in Hy. simpl in Hy. destruct (entry_load m e); simplify_eq/=.
    intros ([k' v'] & -> & ([k1 e1] & Hin & Hg)%list_elem_of_omap)%list_elem_of_fmap. apply Hk.
    unfold g in Hg. simpl in Hg. destruct (entry_load m e1); simplify_eq/=.
    by apply (list_elem_of_fmap_2 fst _ (k', e1)). }
  apply NoDup_Permutation.
  - eapply NoDup_fmap_1, Hnd, NoDup_fst_map_to_list.
  - apply NoDup_map_to_list.
  - intros [k v]. rewrite elem_of_map_to_list, list_elem_of_omap, Hv. unfold value, dirty_lookup.
    rewrite Hd. simpl. split.
    + intros ([k' e] & Hin%elem_of_map_to_list & Hg). unfold g in Hg. simpl in Hg.
      destruct (entry_load m e) eqn:He; simplify_eq/=. by rewrite Hin.
    + destruct (read_m m !! k) as [e|] eqn:Hr; [|done]. intros He. exists (k, e).
      split; [by apply elem_of_map_to_list|]. unfold g. simpl. by rewrite He.
Qed.

(** [C25] sync.Map implements a map: from the empty map, every sequence of Load,
    Store, Swap, LoadOrStore, LoadAndDelete, Delete, CompareAndSwap and
    CompareAndDelete runs to its end (no assignment to a nil dirty map, no expunged
    entry where the code excludes one) and answers what the same operations on a
    plain finite map answer; promotion of the dirty map, expunging and bringing back
    entries never show. *)
Theorem sync_map_refines (os : list op) :
  exists m, run_ops empty_Map os = Some ((spec_ops ∅ os).1, m) /\ represents m (spec_ops ∅ os).2.
Proof. apply run_ops_spec, empty_represents. Qed.

(** Range, after any operations, calls its function with every pair of the
    map exactly once in some order, up to the pair at which the function asks to
    stop, and leaves the contents of the map as they were. *)
Theorem sync_map_range {S : Type} (os : list op) (f : K -> V -> S -> S * bool) (s : S) :
  exists m l, run_ops empty_Map os = Some ((spec_ops ∅ os).1, m) /\
    l ≡ₚ map_to_list (spec_ops ∅ os).2 /\
    (Range m f s).1 = visit f l s /\ represents (Range m f s).2 (spec_ops ∅ os).2.
Proof.
  destruct (run_ops_spec empty_Map ∅ os empty_represents) as (m & Hrun & Hrep).
  destruct (Range_promote_represents m _ Hrep) as [Hrep' Hd].
  exists m. eexists. split_and!; [done|by apply (read_entries (Range_promote m))| |done].
  apply Range_loop_visit.
Qed.
End SyncMap.
Arguments cell : clear implicits.
Arguments Map K V {_ _}.

(** A key that is deleted, expunged by the copy for another key, and stored again. *)
Example sync_map_expunge_run :
  fst <$> run_ops (K := Z) (V := Z) empty_Map
    [OpStore 1 10; OpLoad 1; OpDelete 1; OpStore 2 20; OpLoad 1; OpSwap 1 11;
     OpLoadOrStore 2 21; OpCompareAndSwap 1 11 12; OpLoadAndDelete 1; OpCompareAndDelete 2 20]
  = Some [Done; Found (Some 10); Done; Done; Found None; Found None;
          Actual 20 true; Flag true; Found (Some 12); Flag true].
Proof. vm_compute. reflexivity. Qed.
