(* ===== verification/Mutex.v ===== *)
(** * sync.Mutex over the runtime's semaphores

    [tools/go-patched/src/sync/mutex.go] and the semaphore functions it calls in
    [tools/go-patched/src/runtime/sema.go].  The rate limiter, a connection and a
    session's stream are guarded by a [sync.Mutex]; the components that use one take
    its contract as a primitive step.  Here is the implementation: the state word,
    [Lock], [TryLock], [lockSlow], [Unlock], [unlockSlow] and the semaphore with its
    queue of parked goroutines, as a machine of goroutines that take turns between
    any two accesses to shared memory.  [MutexInv] has the invariant and the
    theorems.

    A step of a goroutine is one access to shared memory (an atomic operation, a
    read of [m.state], a section under the lock of the semaphore root) with the
    local computation around it.  What the runtime decides is an oracle of the step:
    whether [runtime_canSpin] allows spinning, the clock, which call an idle
    goroutine makes, and whether another address of the same semaphore root has
    waiters. *)

From S2P Require Import Prelude.

Local Open Scope go_scope.

(** ** The state word *)

Definition mutexLocked : Z := 1.
Definition mutexWoken : Z := 2.
Definition mutexStarving : Z := 4.
Definition mutexWaiterShift : Z := 3.
Definition starvationThresholdNs : Z := 1000000.

Definition s32 (x : Z) : Z := (x + 2 ^ 31) mod 2 ^ 32 - 2 ^ 31.

(** The bits [b] of a state word are all clear. *)
Definition clear (state b : Z) : bool := state .& b =? 0.

(** ** Goroutines *)

(** The variables of [lockSlow], without [old] and [new]. *)
Record locals := mk_locals {
  waitStartTime : Z;
  starving : bool;
  awoke : bool;
  iter : Z;
}.

Definition slow_start : locals := mk_locals 0 false false 0.

(** Where a goroutine is.  [Out] and [In] are idle, without and with the mutex. *)
Inductive pc :=
  | Out
  | In
  (* TryLock *)
  | TryLoad
  | TryCAS (old : Z)
  (* Lock and lockSlow *)
  | LockCAS
  | SlowLoad (l : locals)
  | SlowLoop (l : locals) (old : Z)
  | Woken (l : locals)
  | HandoffAdd (delta : Z)
  (* semacquire1 *)
  | AcqTry (l : locals) (lifo : bool)
  | AcqLock (l : locals) (lifo : bool)
  | AcqCheck (l : locals) (lifo : bool)
  | Parked (l : locals) (lifo : bool)
  | Readied (l : locals) (lifo : bool) (ticket : bool)
  (* Unlock and unlockSlow *)
  | UnlockAdd
  | UnlockCAS (old : Z)
  | UnlockLoad
  (* semrelease1 *)
  | RelAdd (handoff : bool)
  | RelNwait (handoff : bool)
  | RelLock (handoff : bool)
  | RelReady (handoff : bool) (s : nat)
  (* the runtime stopped the program *)
  | Throw
  | Fatal.

(** The mutex, the semaphore it waits on (its count, the goroutines queued on its
    address, the number of waiters of its root and the lock of the root), and the
    goroutines. *)
Record machine := mk_machine {
  state : Z;
  sema : Z;
  queue : list nat;
  nwait : Z;
  root_locked : bool;
  gs : list pc;
}.

Definition set_pc (m : machine) (i : nat) (p : pc) : machine :=
  mk_machine (state m) (sema m) (queue m) (nwait m) (root_locked m) (<[i := p]> (gs m)).
Definition set_state (m : machine) (s : Z) : machine :=
  mk_machine s (sema m) (queue m) (nwait m) (root_locked m) (gs m).
Definition set_sema (m : machine) (s : Z) : machine :=
  mk_machine (state m) s (queue m) (nwait m) (root_locked m) (gs m).
Definition set_root (m : machine) (q : list nat) (n : Z) (locked : bool) : machine :=
  mk_machine (state m) (sema m) q n locked (gs m).

Definition new_machine (n : nat) : machine := mk_machine 0 0 [] 0 false (replicate n Out).

(** What the runtime and the client decide. *)
Inductive call := CallLock | CallTryLock | CallUnlock.

Record oracle := mk_oracle {
  canSpin : bool;
  nanotime : Z;
  next_call : call;
  other_waiters : bool;
}.

(** The client's view of a step. *)
Inductive event :=
  | Acquired (i : nat)
  | TryFailed (i : nat)
  | Released (i : nat).

(** [atomic.CompareAndSwapInt32(&m.state, old, new)] *)
Definition cas (m : machine) (old new : Z) : bool * machine :=
  if state m =? old then (true, set_state m new) else (false, m).

(** ** The semaphore *)

(** [cansemacquire]: its retry loop ends with the decrement of a count that is not
    zero, or with a count seen to be zero. *)
Definition cansemacquire (m : machine) : bool * machine :=
  if sema m =? 0 then (false, m) else (true, set_sema m (u32 (sema m - 1))).

(** [root.queue] for the goroutines of one address: at the front for [lifo]. *)
Definition enqueue (q : list nat) (i : nat) (lifo : bool) : list nat :=
  if lifo then i :: q else q ++ [i].

(** [semacquire1] after its first test: the root is locked and the waiter counted. *)
Definition acq_lock (m : machine) (i : nat) (l : locals) (lifo : bool) : option machine :=
  if root_locked m then None
  else Some (set_pc (set_root m (queue m) (u32 (nwait m + 1)) true) i (AcqCheck l lifo)).

(** The second test, under the lock of the root: take the unit, or queue and park. *)
Definition acq_check (m : machine) (i : nat) (l : locals) (lifo : bool) : machine :=
  match cansemacquire m with
  | (true, m) => set_pc (set_root m (queue m) (u32 (nwait m - 1)) false) i (Woken l)
  | (false, m) =>
      set_pc (set_root m (enqueue (queue m) i lifo) (nwait m) false) i (Parked l lifo)
  end.

(** After [goparkunlock]. *)
Definition acq_resume (m : machine) (i : nat) (l : locals) (lifo ticket : bool) : machine :=
  if ticket then set_pc m i (Woken l)
  else match cansemacquire m with
  | (true, m) => set_pc m i (Woken l)
  | (false, m) => set_pc m i (AcqLock l lifo)
  end.

(** [root.nwait.Load() == 0]; the root counts the waiters of other addresses too. *)
Definition no_waiters (m : machine) (o : oracle) : bool := (nwait m =? 0) && negb (other_waiters o).

(** [semrelease1] under the lock of the root: take the first goroutine of the queue
    ([dequeue] clears its ticket). *)
Definition rel_lock (m : machine) (i : nat) (handoff : bool) (o : oracle) : option machine :=
  if root_locked m then None
  else if no_waiters m o then Some (set_pc m i Out)
  else match queue m with
  | [] => Some (set_pc m i Out)
  | s :: q => Some (set_pc (set_root m q (u32 (nwait m - 1)) false) i (RelReady handoff s))
  end.

(** The goroutine found gets a ticket when the unit can be taken for it, and runs. *)
Definition rel_ready (m : machine) (i : nat) (handoff : bool) (s : nat) : option machine :=
  match gs m !! s with
  | Some (Parked l lifo) =>
      let '(ticket, m) := if handoff then cansemacquire m else (false, m) in
      Some (set_pc (set_pc m s (Readied l lifo ticket)) i Out)
  | _ => None
  end.

(** ** lockSlow *)

(** The value [lockSlow] wants to store; [None] throws. *)
Definition lock_new (l : locals) (old : Z) : option Z :=
  let new := old in
  let new := if clear old mutexStarving then new .| mutexLocked else new in
  let new := if clear old (mutexLocked .| mutexStarving) then new
             else s32 (new + (1 << mutexWaiterShift)) in
  let new := if starving l && negb (clear old mutexLocked) then new .| mutexStarving else new in
  if awoke l then if clear new mutexWoken then None else Some (Z.ldiff new mutexWoken)
  else Some new.

Definition can_spin (o : oracle) (old : Z) : bool :=
  (old .& (mutexLocked .| mutexStarving) =? mutexLocked) && canSpin o.

(** One turn of the spinning branch: try to set the woken flag, spin. *)
Definition lock_spin (m : machine) (i : nat) (l : locals) (old : Z) : machine :=
  let '(woke, m) :=
    if negb (awoke l) && clear old mutexWoken && negb (old >> mutexWaiterShift =? 0)
    then cas m old (old .| mutexWoken) else (false, m) in
  set_pc m i (SlowLoad (mk_locals (waitStartTime l) (starving l) (awoke l || woke) (iter l + 1))).

(** The compare-and-swap of the loop and what follows it. *)
Definition lock_try (m : machine) (i : nat) (l : locals) (old now : Z)
    : machine * list event :=
  match lock_new l old with
  | None => (set_pc m i Throw, [])
  | Some new =>
      match cas m old new with
      | (true, m) =>
          if clear old (mutexLocked .| mutexStarving) then (set_pc m i In, [Acquired i])
          else
            let queueLifo := negb (waitStartTime l =? 0) in
            let start := if waitStartTime l =? 0 then now else waitStartTime l in
            (set_pc m i (AcqTry (mk_locals start (starving l) (awoke l) (iter l)) queueLifo), [])
      | (false, m) => (set_pc m i (SlowLoad l), [])
      end
  end.

(** After [runtime_SemacquireMutex]. *)
Definition lock_woken (m : machine) (i : nat) (l : locals) (now : Z) : machine :=
  let starving := starving l || (s64 (now - waitStartTime l) >? starvationThresholdNs) in
  let old := state m in
  if clear old mutexStarving
  then set_pc m i (SlowLoop (mk_locals (waitStartTime l) starving true 0) old)
  else if negb (clear old (mutexLocked .| mutexWoken)) || (old >> mutexWaiterShift =? 0)
  then set_pc m i Throw
  else
    let delta := mutexLocked - (1 << mutexWaiterShift) in
    let delta := if negb starving || (old >> mutexWaiterShift =? 1)
                 then delta - mutexStarving else delta in
    set_pc m i (HandoffAdd delta).

(** ** unlockSlow *)

(** The test of the loop of [unlockSlow]. *)
Definition unlock_loop (old : Z) : pc :=
  if (old >> mutexWaiterShift =? 0)
     || negb (clear old (mutexLocked .| mutexWoken .| mutexStarving))
  then Out else UnlockCAS old.

Definition unlockSlow (new : Z) : pc :=
  if clear (s32 (new + mutexLocked)) mutexLocked then Fatal
  else if clear new mutexStarving then unlock_loop new else RelAdd true.

Definition unlock_add (m : machine) (i : nat) : machine :=
  let new := s32 (state m - mutexLocked) in
  set_pc (set_state m new) i (if new =? 0 then Out else unlockSlow new).

Definition unlock_cas (m : machine) (i : nat) (old : Z) : machine :=
  let new := s32 (old - (1 << mutexWaiterShift)) .| mutexWoken in
  match cas m old new with
  | (true, m) => set_pc m i (RelAdd false)
  | (false, m) => set_pc m i UnlockLoad
  end.

(** ** A step of goroutine [i]

    [None]: it cannot move (it is parked, waits for the lock of the root, or the
    program was stopped). *)
Definition gstep (m : machine) (i : nat) (o : oracle) : option (machine * list event) :=
  let quiet m := Some (m, []) in
  match gs m !! i with
  | None => None
  | Some p =>
      match p with
      | Out =>
          match next_call o with
          | CallLock => quiet (set_pc m i LockCAS)
          | CallTryLock => quiet (set_pc m i TryLoad)
          | CallUnlock => quiet (set_pc m i UnlockAdd)
          end
      | In => match next_call o with CallUnlock => quiet (set_pc m i UnlockAdd) | _ => None end
      | TryLoad =>
          if clear (state m) (mutexLocked .| mutexStarving)
          then quiet (set_pc m i (TryCAS (state m)))
          else Some (set_pc m i Out, [TryFailed i])
      | TryCAS old =>
          match cas m old (old .| mutexLocked) with
          | (true, m) => Some (set_pc m i In, [Acquired i])
          | (false, m) => Some (set_pc m i Out, [TryFailed i])
          end
      | LockCAS =>
          match cas m 0 mutexLocked with
          | (true, m) => Some (set_pc m i In, [Acquired i])
          | (false, m) => quiet (set_pc m i (SlowLoad slow_start))
          end
      | SlowLoad l => quiet (set_pc m i (SlowLoop l (state m)))
      | SlowLoop l old =>
          if can_spin o old then quiet (lock_spin m i l old)
          else Some (lock_try m i l old (nanotime o))
      | AcqTry l lifo =>
          match cansemacquire m with
          | (true, m) => quiet (set_pc m i (Woken l))
          | (false, m) => quiet (set_pc m i (AcqLock l lifo))
          end
      | AcqLock l lifo => m ← acq_lock m i l lifo; quiet m
      | AcqCheck l lifo => quiet (acq_check m i l lifo)
      | Readied l lifo ticket => quiet (acq_resume m i l lifo ticket)
      | Woken l => quiet (lock_woken m i l (nanotime o))
      | HandoffAdd delta =>
          Some (set_pc (set_state m (s32 (state m + delta))) i In, [Acquired i])
      | UnlockAdd => Some (unlock_add m i, [Released i])
      | UnlockCAS old => quiet (unlock_cas m i old)
      | UnlockLoad => quiet (set_pc m i (unlock_loop (state m)))
      | RelAdd handoff => quiet (set_pc (set_sema m (u32 (sema m + 1))) i (RelNwait handoff))
      | RelNwait handoff =>
          if no_waiters m o then quiet (set_pc m i Out)
          else quiet (set_pc m i (RelLock handoff))
      | RelLock handoff => m ← rel_lock m i handoff o; quiet m
      | RelReady handoff s => m ← rel_ready m i handoff s; quiet m
      | Parked _ _ | Throw | Fatal => None
      end
  end.

(** The client unlocks what it locked. *)
Definition disciplined (m : machine) (i : nat) (o : oracle) : Prop :=
  gs m !! i = Some Out -> next_call o <> CallUnlock.

Inductive run (m0 : machine) : list event -> machine -> Prop :=
  | run_nil : run m0 [] m0
  | run_step evs m i o m' ev :
      run m0 evs m -> disciplined m i o -> gstep m i o = Some (m', ev) ->
      run m0 (evs ++ ev) m'.

(** A schedule of a client that keeps to this, executed. *)
Definition misused (m : machine) (i : nat) (o : oracle) : bool :=
  match gs m !! i, next_call o with Some Out, CallUnlock => true | _, _ => false end.

Fixpoint exec (m : machine) (sched : list (nat * oracle)) : option (machine * list event) :=
  match sched with
  | [] => Some (m, [])
  | (i, o) :: sched =>
      if misused m i o then None
      else
        '(m1, e1) ← gstep m i o;
        '(m2, e2) ← exec m1 sched;
        Some (m2, e1 ++ e2)
  end.

(** ** The contract: a lock that one goroutine holds at a time *)

Inductive lock_step : option nat -> event -> option nat -> Prop :=
  | abs_acquire i : lock_step None (Acquired i) (Some i)
  | abs_try_failed h i : lock_step h (TryFailed i) h
  | abs_release i : lock_step (Some i) (Released i) None.

Inductive lock_run : list event -> option nat -> Prop :=
  | lock_run_nil : lock_run [] None
  | lock_run_step evs h e h' : lock_run evs h -> lock_step h e h' -> lock_run (evs ++ [e]) h'.

(** A goroutine holds the mutex from its acquisition to the subtraction of [Unlock]. *)
Definition holding (p : pc) : bool := match p with In | UnlockAdd => true | _ => false end.

(** A goroutine inside a call of [Lock]. *)
Definition locking (p : pc) : bool :=
  match p with
  | LockCAS | SlowLoad _ | SlowLoop _ _ | Woken _ | HandoffAdd _
  | AcqTry _ _ | AcqLock _ _ | AcqCheck _ _ | Parked _ _ | Readied _ _ _ => true
  | _ => false
  end.

(** The goroutines inside a call can bring one of them to acquire the mutex, without
    any new call. *)
Inductive leads (m : machine) : Prop :=
  | leads_now i o m' p :
      gs m !! i = Some p -> p <> Out -> p <> In ->
      gstep m i o = Some (m', [Acquired i]) -> leads m
  | leads_later i o m' ev p :
      gs m !! i = Some p -> p <> Out -> p <> In ->
      gstep m i o = Some (m', ev) -> leads m' -> leads m.
