(* ===== verification/MutexInv.v ===== *)
(** * sync.Mutex: the invariant of its state word, and the theorems

    The goroutines of a machine are counted by where they are; the invariant relates
    the counts to the bits and the waiter count of the state word, to the semaphore
    and to its queue, and every step keeps it.  Mutual exclusion, the absence of
    [throw] and [fatal], and the absence of lost wake-ups follow from the counts. *)

From S2P Require Import Prelude Mutex.

Local Open Scope go_scope.
Local Set Warnings "-clear-no-such-hyp".

(** ** The state word, bit by bit *)

Definition word (L W S : bool) (n : Z) : Z := Z.b2z L + 2 * Z.b2z W + 4 * Z.b2z S + 8 * n.

Lemma low_bits c n : 0 <= c < 8 -> c + 8 * n = Z.lor (Z.shiftl n 3) c.
Proof. intros. rewrite (shiftl_lor_add c n 3) by lia. lia. Qed.

Lemma land_low c n b : 0 <= c < 8 -> 0 <= b < 8 -> Z.land (c + 8 * n) b = Z.land c b.
Proof.
  intros Hc Hb.
  assert (Hland : forall x, Z.land x b = Z.land (x mod 8) b).
  { intros x. change 8 with (2 ^ 3). rewrite <- Z.land_ones by lia. rewrite <- Z.land_assoc.
    f_equal. symmetry. rewrite Z.land_comm, Z.land_ones by lia. apply Z.mod_small. lia. }
  rewrite Hland. f_equal. zlia.
Qed.

Lemma lor_low c n b : 0 <= c < 8 -> 0 <= b < 8 -> Z.lor (c + 8 * n) b = Z.lor c b + 8 * n.
Proof.
  intros Hc Hb. assert (0 <= Z.lor c b < 8).
  { split; [apply Z.lor_nonneg; lia|]. change 8 with (2 ^ 3).
    destruct (decide (Z.lor c b = 0)) as [->|]; [lia|].
    assert (0 <= Z.lor c b) by (apply Z.lor_nonneg; lia).
    apply Z.log2_lt_pow2; [lia|]. rewrite Z.log2_lor by lia.
    apply Z.max_lub_lt.
    - destruct (decide (c = 0)) as [->|]; [done|]. apply Z.log2_lt_pow2; lia.
    - destruct (decide (b = 0)) as [->|]; [done|]. apply Z.log2_lt_pow2; lia. }
  rewrite !low_bits by lia. by rewrite Z.lor_assoc.
Qed.

Lemma ldiff_woken c n : 0 <= c < 8 -> Z.ldiff (c + 8 * n) 2 = Z.ldiff c 2 + 8 * n.
Proof.
  intros Hc. assert (0 <= Z.ldiff c 2 < 8) by
    (assert (c = 0 \/ c = 1 \/ c = 2 \/ c = 3 \/ c = 4 \/ c = 5 \/ c = 6 \/ c = 7)
       as [->|[->|[->|[->|[->|[->|[->| ->]]]]]]] by lia; done).
  rewrite !low_bits by lia. apply Z.bits_inj'. intros k Hk.
  rewrite Z.ldiff_spec, !Z.lor_spec, Z.ldiff_spec, Z.shiftl_spec by lia.
  destruct (decide (k = 1)) as [->|].
  - by rewrite (Z.testbit_neg_r n) by lia.
  - replace (Z.testbit 2 k) with false
      by (change 2 with (2 ^ 1); rewrite Z.pow2_bits_false; [done|lia]).
    by rewrite !andb_true_r.
Qed.

Lemma word_low L W S n : word L W S n = (Z.b2z L + 2 * Z.b2z W + 4 * Z.b2z S) + 8 * n.
Proof. done. Qed.

Lemma low_range L W S : 0 <= Z.b2z L + 2 * Z.b2z W + 4 * Z.b2z S < 8.
Proof. destruct L, W, S; cbn; lia. Qed.

Lemma word_land L W S n b :
  0 <= b < 8 -> Z.land (word L W S n) b = Z.land (Z.b2z L + 2 * Z.b2z W + 4 * Z.b2z S) b.
Proof. intros. rewrite word_low. apply land_low; [apply low_range|done]. Qed.

Lemma word_waiters L W S n : word L W S n >> mutexWaiterShift = n.
Proof.
  unfold mutexWaiterShift. rewrite Z.shiftr_div_pow2 by lia. change (2 ^ 3) with 8.
  pose proof (low_range L W S). unfold word. zlia.
Qed.

Lemma clear_locked L W S n : clear (word L W S n) mutexLocked = negb L.
Proof. unfold clear, mutexLocked. rewrite word_land by lia. by destruct L, W, S. Qed.
Lemma clear_woken L W S n : clear (word L W S n) mutexWoken = negb W.
Proof. unfold clear, mutexWoken. rewrite word_land by lia. by destruct L, W, S. Qed.
Lemma clear_starving L W S n : clear (word L W S n) mutexStarving = negb S.
Proof. unfold clear, mutexStarving. rewrite word_land by lia. by destruct L, W, S. Qed.
Lemma clear_owned L W S n :
  clear (word L W S n) (mutexLocked .| mutexStarving) = negb (L || S).
Proof. unfold clear. rewrite word_land by (vm_compute; split; done). by destruct L, W, S. Qed.
Lemma clear_locked_woken L W S n :
  clear (word L W S n) (mutexLocked .| mutexWoken) = negb (L || W).
Proof. unfold clear. rewrite word_land by (vm_compute; split; done). by destruct L, W, S. Qed.
Lemma clear_all L W S n :
  clear (word L W S n) (mutexLocked .| mutexWoken .| mutexStarving) = negb (L || W || S).
Proof. unfold clear. rewrite word_land by (vm_compute; split; done). by destruct L, W, S. Qed.

Lemma owned_locked L W S n :
  (word L W S n .& (mutexLocked .| mutexStarving) =? mutexLocked) = L && negb S.
Proof. rewrite word_land by (vm_compute; split; done). by destruct L, W, S. Qed.

Lemma set_locked L W S n : word L W S n .| mutexLocked = word true W S n.
Proof.
  rewrite word_low, lor_low by (apply low_range || (vm_compute; split; done)). by destruct L, W, S.
Qed.
Lemma set_woken L W S n : word L W S n .| mutexWoken = word L true S n.
Proof.
  rewrite word_low, lor_low by (apply low_range || (vm_compute; split; done)). by destruct L, W, S.
Qed.
Lemma set_starving L W S n : word L W S n .| mutexStarving = word L W true n.
Proof.
  rewrite word_low, lor_low by (apply low_range || (vm_compute; split; done)). by destruct L, W, S.
Qed.
Lemma reset_woken L W S n : Z.ldiff (word L W S n) mutexWoken = word L false S n.
Proof.
  unfold mutexWoken. rewrite word_low, ldiff_woken by apply low_range. by destruct L, W, S.
Qed.

Lemma word_inj L W S n L' W' S' n' :
  word L W S n = word L' W' S' n' -> L = L' /\ W = W' /\ S = S' /\ n = n'.
Proof.
  unfold word. intros H. destruct L, W, S, L', W', S'; cbn in H;
    first [lia | (repeat split; lia)].
Qed.

Lemma s32_id x : - 2 ^ 31 <= x < 2 ^ 31 -> s32 x = x.
Proof. unfold s32. intros. rewrite Z.mod_small by lia. lia. Qed.

Create HintDb word.
#[export] Hint Rewrite word_waiters clear_locked clear_woken clear_starving clear_owned
  clear_locked_woken clear_all owned_locked set_locked set_woken set_starving reset_woken : word.

(** The word [lockSlow] stores: it never throws when a woken goroutine saw the
    woken bit. *)
Lemma lock_new_word l L W S n :
  (awoke l = true -> W = true) -> 0 <= n < 2 ^ 28 - 1 ->
  lock_new l (word L W S n) =
    Some (word (if S then L else true) (if awoke l then false else W)
      (S || starving l && L) (if L || S then n + 1 else n)).
Proof.
  intros Hw Hn. unfold lock_new. autorewrite with word.
  assert (Hadd : forall L' W' S', s32 (word L' W' S' n + (1 << mutexWaiterShift))
                                  = word L' W' S' (n + 1)).
  { intros. change (1 << mutexWaiterShift) with 8.
    rewrite s32_id; unfold word; destruct L', W', S'; cbn [Z.b2z]; lia. }
  destruct S, L; cbn [negb orb andb]; autorewrite with word; rewrite ?Hadd;
    destruct (starving l); cbn [negb orb andb]; autorewrite with word;
    (destruct (awoke l) eqn:Ha; [rewrite (Hw eq_refl)|]); autorewrite with word; done.
Qed.

(** ** Counting goroutines *)

Fixpoint cnt {A} (f : A -> Z) (l : list A) : Z :=
  match l with [] => 0 | p :: l => f p + cnt f l end.

Lemma cnt_insert {A} (f : A -> Z) l i p p' :
  l !! i = Some p -> cnt f (<[i := p']> l) = cnt f l - f p + f p'.
Proof.
  revert i. induction l as [|q l IH]; intros [|i] Hi; simplify_eq/=; [lia|].
  rewrite (IH i Hi). lia.
Qed.

Lemma cnt_app {A} (f : A -> Z) l1 l2 : cnt f (l1 ++ l2) = cnt f l1 + cnt f l2.
Proof. induction l1 as [|p l1 IH]; cbn [cnt app]; lia. Qed.

Lemma cnt_nonneg {A} (f : A -> Z) l : (forall p, 0 <= f p) -> 0 <= cnt f l.
Proof. intros Hf. induction l as [|p l IH]; cbn [cnt]; [lia|]. specialize (Hf p). lia. Qed.

Lemma cnt_in {A} (f : A -> Z) l i p :
  (forall p, 0 <= f p) -> l !! i = Some p -> f p <= cnt f l.
Proof.
  intros Hf. revert i. induction l as [|q l IH]; intros [|i] Hi; simplify_eq/=.
  - pose proof (cnt_nonneg f l Hf). lia.
  - specialize (IH i Hi). specialize (Hf q). lia.
Qed.

Lemma cnt_le {A} (f g : A -> Z) l : (forall p, f p <= g p) -> cnt f l <= cnt g l.
Proof. intros Hf. induction l as [|p l IH]; cbn [cnt]; [lia|]. specialize (Hf p). lia. Qed.

Lemma cnt_add {A} (f g : A -> Z) l : cnt (fun p => f p + g p) l = cnt f l + cnt g l.
Proof. induction l as [|p l IH]; cbn [cnt]; lia. Qed.

Lemma cnt_length {A} (f : A -> Z) l : (forall p, f p <= 1) -> cnt f l <= len l.
Proof.
  intros Hf. induction l as [|p l IH]; cbn [cnt]; [done|]. rewrite len_cons. specialize (Hf p). lia.
Qed.

(** A positive count has a member. *)
Lemma cnt_pos {A} (f : A -> Z) l : 0 < cnt f l -> exists i p, l !! i = Some p /\ 0 < f p.
Proof.
  induction l as [|p l IH]; cbn [cnt]; [lia|]. intros H. destruct (decide (0 < f p)).
  - by exists 0%nat, p.
  - destruct IH as (i & q & ? & ?); [lia|]. by exists (S i), q.
Qed.

Lemma cnt_one {A} (f : A -> Z) l i j p q :
  (forall p, 0 <= f p) -> cnt f l <= 1 -> l !! i = Some p -> l !! j = Some q ->
  1 <= f p -> 1 <= f q -> i = j.
Proof.
  intros Hf. revert i j. induction l as [|r l IH]; intros [|i] [|j] Hc Hi Hj Hp Hq;
    simplify_eq/=; [done|..].
  - pose proof (cnt_in f l j q Hf Hj). lia.
  - pose proof (cnt_in f l i p Hf Hi). lia.
  - f_equal. apply IH; try done. specialize (Hf r). lia.
Qed.

(** Who holds the mutex; who must clear the woken bit; who was handed a unit of the
    semaphore, and is about to make the mutex its own; who waits for a unit; who is
    about to release one; who is inside the lock of the root. *)
Definition c_hold (p : pc) : Z := Z.b2z (holding p).
Definition c_awoke (p : pc) : Z :=
  match p with SlowLoad l | SlowLoop l _ => Z.b2z (awoke l) | _ => 0 end.
Definition c_got (p : pc) : Z :=
  match p with Woken _ => 1 | Readied _ _ ticket => Z.b2z ticket | _ => 0 end.
Definition c_hadd (p : pc) : Z := match p with HandoffAdd _ => 1 | _ => 0 end.
Definition c_stay (p : pc) : Z := match p with HandoffAdd d => Z.b2z (d =? -7) | _ => 0 end.
Definition c_wait (p : pc) : Z :=
  match p with
  | AcqTry _ _ | AcqLock _ _ | AcqCheck _ _ | Parked _ _ => 1
  | Readied _ _ ticket => 1 - Z.b2z ticket
  | _ => 0
  end.
Definition c_rel (p : pc) : Z := match p with RelAdd _ => 1 | _ => 0 end.
Definition c_check (p : pc) : Z := match p with AcqCheck _ _ => 1 | _ => 0 end.

(** Who will see that an unlocked mutex has waiters; who will see that the count of
    the semaphore is positive; who dequeued goroutine [i]. *)
Definition c_unlocker (p : pc) : Z := match p with UnlockCAS _ | UnlockLoad => 1 | _ => 0 end.
Definition c_waker (p : pc) : Z :=
  match p with
  | AcqTry _ _ | AcqLock _ _ | AcqCheck _ _ => 1
  | Readied _ _ ticket => 1 - Z.b2z ticket
  | RelNwait _ | RelLock _ | RelReady _ _ => 1
  | _ => 0
  end.
Definition c_target (i : nat) (p : pc) : Z :=
  match p with RelReady _ s => Z.b2z (bool_decide (s = i)) | _ => 0 end.
Definition c_parked (p : pc) : Z := match p with Parked _ _ => 1 | _ => 0 end.
Definition occurs (i : nat) (j : nat) : Z := Z.b2z (bool_decide (j = i)).

Definition parked_at (l : list pc) (i : nat) : Z :=
  match l !! i with Some p => c_parked p | None => 0 end.

Lemma parked_insert l i j p p' :
  l !! i = Some p ->
  parked_at (<[i := p']> l) j
  = parked_at l j - occurs j i * c_parked p + occurs j i * c_parked p'.
Proof.
  intros Hi. unfold parked_at, occurs. destruct (decide (i = j)) as [->|].
  - rewrite list_lookup_insert_eq by eauto using lookup_lt_Some. rewrite Hi.
    rewrite bool_decide_true by done. cbn. lia.
  - rewrite list_lookup_insert_ne by done. rewrite bool_decide_false by done. cbn. lia.
Qed.

Lemma occurs_enqueue q i j lifo :
  cnt (occurs j) (enqueue q i lifo) = cnt (occurs j) q + occurs j i.
Proof. unfold enqueue. destruct lifo; [|rewrite cnt_app]; cbn [cnt]; lia. Qed.

Lemma len_enqueue q i lifo : len (enqueue q i lifo) = len q + 1.
Proof. unfold enqueue. destruct lifo; rewrite ?len_app, ?len_cons, ?len_nil; lia. Qed.

(** What a goroutine remembers of the word it read. *)
Definition pc_ok (p : pc) : Prop :=
  match p with
  | TryCAS old => exists W n, old = word false W false n
  | SlowLoad l => starving l = true -> awoke l = true
  | SlowLoop l old =>
      (starving l = true -> awoke l = true) /\
      exists L W S n, old = word L W S n /\ 0 <= n < 2 ^ 28 - 1 /\ (awoke l = true -> W = true)
  | HandoffAdd d => d = -7 \/ d = -11
  | UnlockCAS old => exists n, old = word false false false n /\ 1 <= n < 2 ^ 28 - 1
  | Throw | Fatal => False
  | _ => True
  end.

(** ** The invariant *)

(** In normal mode the woken bit is held by one goroutine or by one unit on its way to
    one; in starvation mode the mutex is held, or its ownership is one unit on its way
    to a waiter. *)
Definition mode_ok (m : machine) (L W S : bool) (n : Z) : Prop :=
  let count f := cnt f (gs m) in
  if S then
    W = false /\ count c_awoke = 0 /\
    sema m + count c_rel + count c_got + count c_hadd = 1 - Z.b2z L /\
    n = count c_wait + count c_got + count c_hadd /\ 1 <= n /\ (0 < count c_stay -> 2 <= n)
  else
    Z.b2z W = sema m + count c_rel + count c_awoke + count c_got /\
    n = count c_wait - sema m - count c_rel /\ 0 <= n /\ count c_hadd = 0.

Record inv_at (m : machine) (L W S : bool) (n : Z) : Prop := {
  inv_word : state m = word L W S n;
  inv_hold : cnt c_hold (gs m) = Z.b2z L;
  inv_mode : mode_ok m L W S n;
  inv_sema : 0 <= sema m;
  inv_unlocker : Z.b2z L + Z.b2z W + Z.b2z S = 0 -> 1 <= n -> 0 < cnt c_unlocker (gs m);
  inv_waker : 0 < sema m -> 0 < len (queue m) -> 0 < cnt c_waker (gs m);
  inv_nwait : nwait m = len (queue m) + cnt c_check (gs m);
  inv_root : cnt c_check (gs m) = Z.b2z (root_locked m);
  inv_park : forall i, cnt (occurs i) (queue m) + cnt (c_target i) (gs m) = parked_at (gs m) i;
  inv_pcs : Forall pc_ok (gs m);
  inv_size : len (gs m) < 2 ^ 28 - 1;
}.

Definition inv (m : machine) : Prop := exists L W S n, inv_at m L W S n.

(** ** Facts the invariant gives *)

(** Bits as numbers. *)
Ltac b2z := repeat match goal with |- context [Z.b2z ?b] => destruct b; cbn [Z.b2z] end; lia.

Lemma counts_nonneg l :
  0 <= cnt c_hold l /\ 0 <= cnt c_awoke l /\ 0 <= cnt c_got l /\ 0 <= cnt c_hadd l /\
  0 <= cnt c_stay l /\ 0 <= cnt c_wait l /\ 0 <= cnt c_rel l /\ 0 <= cnt c_check l /\
  0 <= cnt c_unlocker l /\ 0 <= cnt c_waker l /\ (forall i, 0 <= cnt (c_target i) l) /\
  cnt c_stay l <= cnt c_hadd l /\ cnt c_wait l + cnt c_got l + cnt c_hadd l <= len l.
Proof.
  split_and!; intros;
    lazymatch goal with |- 0 <= _ => apply cnt_nonneg; intros []; cbn; b2z | _ => idtac end.
  - apply cnt_le. intros []; cbn; try done; b2z.
  - rewrite <- !cnt_add. apply cnt_length. intros []; cbn; try done; b2z.
Qed.

Lemma awoke_counted l i p : l !! i = Some p -> c_awoke p <= cnt c_awoke l.
Proof. apply cnt_in. intros []; cbn; b2z. Qed.

Lemma got_counted l i p : l !! i = Some p -> c_got p <= cnt c_got l.
Proof. apply cnt_in. intros []; cbn; b2z. Qed.

Lemma hadd_counted l i p : l !! i = Some p -> c_hadd p <= cnt c_hadd l.
Proof. apply cnt_in. intros []; cbn; b2z. Qed.

Lemma stay_counted l i p : l !! i = Some p -> c_stay p <= cnt c_stay l.
Proof. apply cnt_in. intros []; cbn; b2z. Qed.

Lemma hold_counted l i p : l !! i = Some p -> c_hold p <= cnt c_hold l.
Proof. apply cnt_in. intros []; cbn; b2z. Qed.

Lemma check_counted l i p : l !! i = Some p -> c_check p <= cnt c_check l.
Proof. apply cnt_in. intros []; cbn; b2z. Qed.

Lemma occurs_nonneg i q : 0 <= cnt (occurs i) q.
Proof. apply cnt_nonneg. intros j. unfold occurs. b2z. Qed.

Lemma occurs_elem i q : i ∈ q -> 1 <= cnt (occurs i) q.
Proof.
  induction q as [|j q IH]; [by intros ?%elem_of_nil|]. intros [->|Hin]%elem_of_cons; cbn [cnt].
  - unfold occurs at 1. rewrite bool_decide_true by done. pose proof (occurs_nonneg j q). cbn. lia.
  - pose proof (IH Hin). unfold occurs at 1. destruct (bool_decide _); cbn; lia.
Qed.

(** The queue holds each parked goroutine at most once. *)
Lemma queue_short q l :
  (forall i, cnt (occurs i) q <= parked_at l i) -> len q <= len l.
Proof.
  intros Hq. assert (NoDup q) as Hnd.
  { assert (forall i, cnt (occurs i) q <= 1) as H1.
    { intros i. specialize (Hq i). unfold parked_at in Hq.
      destruct (l !! i) as [[]|]; cbn [c_parked] in Hq; lia. }
    clear Hq. induction q as [|j q IH]; constructor.
    - intros Hin%occurs_elem. specialize (H1 j). cbn [cnt] in H1. unfold occurs at 1 in H1.
      rewrite bool_decide_true in H1 by done. cbn [Z.b2z] in H1. lia.
    - apply IH. intros i. specialize (H1 i). cbn [cnt] in H1. unfold occurs at 1 in H1.
      destruct (bool_decide _); cbn [Z.b2z] in H1; lia. }
  unfold len. apply inj_le. rewrite <- (length_seq (length l) 0).
  apply submseteq_length, NoDup_submseteq; [done|]. intros i Hin%occurs_elem.
  specialize (Hq i). unfold parked_at in Hq. destruct (l !! i) eqn:Hi; [|lia].
  apply lookup_lt_Some in Hi. apply elem_of_seq. lia.
Qed.

Lemma queue_bound m L W S n : inv_at m L W S n -> len (queue m) < 2 ^ 28.
Proof.
  intros H. pose proof (queue_short (queue m) (gs m)) as Hq. pose proof (inv_size _ _ _ _ _ H).
  enough (len (queue m) <= len (gs m)) by lia. apply Hq. intros i.
  pose proof (inv_park _ _ _ _ _ H i). destruct (counts_nonneg (gs m)) as (_&_&_&_&_&_&_&_&_&_&Ht&_).
  specialize (Ht i). lia.
Qed.

(** At most one unit is in the semaphore. *)
Lemma sema_bound m L W S n : inv_at m L W S n -> sema m <= 1.
Proof.
  intros H. pose proof (inv_mode _ _ _ _ _ H) as Hm. pose proof (counts_nonneg (gs m)).
  unfold mode_ok in Hm. destruct S, W, L; cbn [Z.b2z] in *; lia.
Qed.

Lemma waiters_bound m L W S n : inv_at m L W S n -> 0 <= n < 2 ^ 28 - 1.
Proof.
  intros H. pose proof (inv_mode _ _ _ _ _ H) as Hm. pose proof (counts_nonneg (gs m)).
  pose proof (inv_size _ _ _ _ _ H). pose proof (inv_sema _ _ _ _ _ H).
  unfold mode_ok in Hm. destruct S; lia.
Qed.

(** ** Every step keeps the invariant *)

(** The fields of the invariant of a machine in which goroutine [i], at [p], moved. *)
Ltac open_inv H :=
  pose proof (waiters_bound _ _ _ _ _ H); pose proof (sema_bound _ _ _ _ _ H);
  pose proof (queue_bound _ _ _ _ _ H);
  let m := match type of H with inv_at ?m _ _ _ _ => m end in
  pose proof (counts_nonneg (gs m)) as (?&?&?&?&?&?&?&?&?&?&?&?&?);
  pose proof (len_nonneg (queue m));
  destruct H as [Hword Hhold Hmode Hsema Hunl Hwak Hnw Hroot Hpark Hpcs Hsize].

Ltac counts Hi :=
  cbn [state sema queue nwait root_locked gs set_pc set_state set_sema set_root];
  repeat rewrite (cnt_insert _ _ _ _ _ Hi);
  try rewrite (parked_insert _ _ _ _ _ Hi);
  cbn [c_hold c_awoke c_got c_hadd c_stay c_wait c_rel c_check c_unlocker c_waker c_target
       c_parked holding Z.b2z awoke starving negb slow_start Z.eqb Pos.eqb].

Ltac fields Hi :=
  unfold mode_ok in *; destruct_and?;
  try match goal with H : ?W = false |- _ => is_var W; subst W end; cbn [Z.b2z] in *;
  constructor; unfold mode_ok;
  cbn [state sema queue nwait root_locked gs set_pc set_state set_sema set_root Z.b2z];
  intros;
  [ counts Hi; try done
  | counts Hi; try lia
  | counts Hi; split_and?; intros; try done; try lia
  | counts Hi; try lia
  | counts Hi; try lia
  | counts Hi; try lia
  | counts Hi; try lia
  | counts Hi; try lia
  | match goal with H : (forall i, _ = parked_at _ i) |- context [parked_at _ ?j] => specialize (H j) end; counts Hi; try lia
  | counts Hi; try (apply Forall_insert; [done|]); try done
  | cbn [gs set_pc set_state set_sema set_root]; unfold len in *; rewrite ?length_insert; done ].

Lemma step_call m L W S n i p p' :
  inv_at m L W S n -> gs m !! i = Some p ->
  (p = Out /\ (p' = LockCAS \/ p' = TryLoad)) \/ (p = In /\ p' = UnlockAdd) ->
  inv_at (set_pc m i p') L W S n.
Proof.
  intros H Hi Hp. open_inv H. destruct S; destruct Hp as [(-> & [-> | ->])|(-> & ->)]; fields Hi.
Qed.

(** [TryLock] and the first compare-and-swap of [Lock]. *)
Lemma step_try m W n i :
  inv_at m false W false n -> gs m !! i = Some TryLoad ->
  inv_at (set_pc m i (TryCAS (word false W false n))) false W false n.
Proof. intros H Hi. open_inv H. fields Hi. cbn. eauto. Qed.

Lemma step_back m L W S n i p :
  inv_at m L W S n -> gs m !! i = Some p -> p = TryLoad \/ (exists old, p = TryCAS old) ->
  inv_at (set_pc m i Out) L W S n.
Proof. intros H Hi Hp. open_inv H. destruct S; destruct Hp as [->|[? ->]]; fields Hi. Qed.

Lemma step_acquire m W n i p :
  inv_at m false W false n -> gs m !! i = Some p -> p = LockCAS \/ (exists old, p = TryCAS old) ->
  inv_at (set_pc (set_state m (word true W false n)) i In) true W false n.
Proof. intros H Hi Hp. open_inv H. destruct Hp as [->|[? ->]]; fields Hi. Qed.

(** The loop of [lockSlow]. *)
Lemma step_slow m L W S n i :
  inv_at m L W S n -> gs m !! i = Some LockCAS -> inv_at (set_pc m i (SlowLoad slow_start)) L W S n.
Proof. intros H Hi. open_inv H. destruct S; fields Hi. Qed.

Lemma step_load m L W S n i l :
  inv_at m L W S n -> gs m !! i = Some (SlowLoad l) -> pc_ok (SlowLoad l) ->
  inv_at (set_pc m i (SlowLoop l (word L W S n))) L W S n.
Proof.
  intros H Hi Hl.
  pose proof (awoke_counted _ _ _ Hi) as Ha. cbn [c_awoke] in Ha.
  open_inv H. destruct S; fields Hi; (split; [done|]; eexists _, _, _, _; split; [done|]; split; [lia|];
    intros Hw; rewrite Hw in *; cbn [Z.b2z] in *;
    first [lia | destruct W; cbn [Z.b2z] in *; first [done | lia]]).
Qed.

(** Spinning moves the woken bit to the spinning goroutine. *)
Lemma step_spin m L W S n i l old l' :
  inv_at m L W S n -> gs m !! i = Some (SlowLoop l old) ->
  awoke l' = awoke l -> (starving l' = true -> awoke l' = true) ->
  inv_at (set_pc m i (SlowLoad l')) L W S n.
Proof.
  intros H Hi Ha Hl. open_inv H. destruct S; fields Hi; rewrite Ha; lia.
Qed.

Lemma step_spin_woke m n i l old l' :
  inv_at m true false false n -> gs m !! i = Some (SlowLoop l old) ->
  awoke l = false -> awoke l' = true ->
  inv_at (set_pc (set_state m (word true true false n)) i (SlowLoad l')) true true false n.
Proof.
  intros H Hi Ha Ha'. open_inv H. fields Hi; rewrite ?Ha, ?Ha'; cbn [Z.b2z]; first [lia | by intros ?].
Qed.

(** The compare-and-swap of the loop succeeds: the goroutine owns the mutex, or it is
    counted as a waiter. *)
Lemma step_take m W n i l old :
  inv_at m false W false n -> gs m !! i = Some (SlowLoop l old) ->
  (awoke l = true -> W = true) ->
  inv_at (set_pc (set_state m (word true (if awoke l then false else W) false n)) i In)
    true (if awoke l then false else W) false n.
Proof.
  intros H Hi Ha. open_inv H. destruct (awoke l) eqn:El; [rewrite Ha in * by done|];
    fields Hi; rewrite ?El; cbn [Z.b2z]; lia.
Qed.

Lemma step_wait m L W S n i l old l' lifo :
  inv_at m L W S n -> gs m !! i = Some (SlowLoop l old) -> L || S = true ->
  (awoke l = true -> W = true) -> (starving l = true -> awoke l = true) ->
  let W' := if awoke l then false else W in
  let S' := S || starving l && L in
  inv_at (set_pc (set_state m (word (if S then L else true) W' S' (n + 1))) i (AcqTry l' lifo))
    (if S then L else true) W' S' (n + 1).
Proof.
  intros H Hi HLS Ha Hs W' S'. pose proof (awoke_counted _ _ _ Hi) as Hc. cbn [c_awoke] in Hc.
  open_inv H. subst W' S'.
  destruct (awoke l) eqn:El; [rewrite Ha in * by done|]; destruct (starving l) eqn:Es;
    try (by specialize (Hs eq_refl)); destruct S, L; try done; cbn [orb andb] in *;
    fields Hi; rewrite ?El; cbn [Z.b2z]; lia.
Qed.

(** A goroutine that was given a unit reads the word: in normal mode it holds the woken
    bit, in starvation mode the mutex is its own once the word says so. *)
Lemma step_woken m L W S n i l now :
  inv_at m L W S n -> gs m !! i = Some (Woken l) -> inv_at (lock_woken m i l now) L W S n.
Proof.
  intros H Hi. pose proof (got_counted _ _ _ Hi) as Hc. cbn [c_got] in Hc.
  unfold lock_woken. rewrite (inv_word _ _ _ _ _ H). autorewrite with word.
  open_inv H. destruct S; unfold mode_ok in Hmode; cbn [negb].
  - destruct Hmode as (-> & ? & ? & ? & ? & ?). assert (L = false) as -> by
      (destruct L; cbn [Z.b2z] in *; [lia|done]).
    cbn [orb negb]. rewrite (proj2 (Z.eqb_neq n 0)) by lia.
    change (mutexLocked - (1 << mutexWaiterShift)) with (-7).
    destruct (negb _ || (n =? 1)) eqn:Hx; [change (-7 - mutexStarving) with (-11)|].
    + fields Hi. cbn. by right.
    + apply orb_false_iff in Hx as [_ Hx%Z.eqb_neq]. fields Hi. cbn. by left.
  - assert (W = true) as -> by (destruct W; cbn [Z.b2z] in *; [done|lia]).
    fields Hi. cbn. split; [done|]. eexists _, _, _, _. split; [done|]. split; [lia|done].
Qed.

(** The handoff is completed. *)
Lemma step_handoff m L W S n i d :
  inv_at m L W S n -> gs m !! i = Some (HandoffAdd d) -> pc_ok (HandoffAdd d) ->
  inv (set_pc (set_state m (s32 (state m + d))) i In).
Proof.
  intros H Hi Hd. pose proof (hadd_counted _ _ _ Hi) as Hc. cbn [c_hadd] in Hc.
  pose proof (stay_counted _ _ _ Hi) as Hst. cbn [c_stay] in Hst.
  rewrite (inv_word _ _ _ _ _ H). open_inv H.
  destruct S; unfold mode_ok in Hmode; [|lia].
  destruct Hmode as (-> & ? & ? & ? & ? & Hstay). assert (L = false) as -> by
      (destruct L; cbn [Z.b2z] in *; [lia|done]).
  destruct Hd as [-> | ->]; cbn [Z.b2z Z.eqb Pos.eqb] in *.
  - exists true, false, true, (n - 1).
    replace (s32 _) with (word true false true (n - 1)) by (rewrite s32_id; unfold word; cbn; lia).
    fields Hi.
  - exists true, false, false, (n - 1).
    replace (s32 _) with (word true false false (n - 1)) by (rewrite s32_id; unfold word; cbn; lia).
    fields Hi.
Qed.

(** The semaphore. *)
Lemma cansemacquire_cases m L W S n :
  inv_at m L W S n ->
  (sema m = 0 /\ cansemacquire m = (false, m)) \/
  (sema m = 1 /\ cansemacquire m = (true, set_sema m 0)).
Proof.
  intros H. pose proof (sema_bound _ _ _ _ _ H). pose proof (inv_sema _ _ _ _ _ H).
  unfold cansemacquire. destruct (decide (sema m = 0)) as [E|].
  - left. by rewrite E.
  - right. assert (sema m = 1) as E by lia. by rewrite E.
Qed.

Lemma step_unit m L W S n i p l :
  inv_at m L W S n -> gs m !! i = Some p -> sema m = 1 ->
  (exists lifo, p = AcqTry l lifo \/ p = Readied l lifo false) ->
  inv_at (set_pc (set_sema m 0) i (Woken l)) L W S n.
Proof.
  intros H Hi Hone [lifo Hp]. open_inv H. destruct S, Hp as [-> | ->]; fields Hi.
Qed.

Lemma step_no_unit m L W S n i p l lifo :
  inv_at m L W S n -> gs m !! i = Some p -> sema m = 0 ->
  p = AcqTry l lifo \/ p = Readied l lifo false -> inv_at (set_pc m i (AcqLock l lifo)) L W S n.
Proof. intros H Hi Hone Hp. open_inv H. destruct S, Hp as [-> | ->]; fields Hi. Qed.

Lemma step_ticket m L W S n i l lifo :
  inv_at m L W S n -> gs m !! i = Some (Readied l lifo true) ->
  inv_at (set_pc m i (Woken l)) L W S n.
Proof. intros H Hi. open_inv H. destruct S; fields Hi. Qed.

Lemma step_acq_lock m L W S n i l lifo m' :
  inv_at m L W S n -> gs m !! i = Some (AcqLock l lifo) -> acq_lock m i l lifo = Some m' ->
  inv_at m' L W S n.
Proof.
  intros H Hi Hm. unfold acq_lock in Hm. destruct (root_locked m) eqn:Hr; simplify_eq.
  open_inv H. rewrite Hr in *. cbn [Z.b2z] in *.
  destruct S; fields Hi; unfold u32; rewrite ?Z.mod_small; lia.
Qed.

Lemma step_acq_check m L W S n i l lifo :
  inv_at m L W S n -> gs m !! i = Some (AcqCheck l lifo) -> inv_at (acq_check m i l lifo) L W S n.
Proof.
  intros H Hi. pose proof (check_counted _ _ _ Hi) as Hc. cbn [c_check] in Hc.
  unfold acq_check. destruct (cansemacquire_cases _ _ _ _ _ H) as [(Hz & ->)|(Hz & ->)]; open_inv H;
    (assert (root_locked m = true) as Hr by (destruct (root_locked m); cbn [Z.b2z] in *; [done|lia]));
    rewrite Hr in *; cbn [Z.b2z] in *.
  - destruct S; fields Hi; rewrite ?len_enqueue, ?occurs_enqueue; lia.
  - destruct S; fields Hi; unfold u32; rewrite ?Z.mod_small; lia.
Qed.

Lemma step_rel_add m L W S n i handoff :
  inv_at m L W S n -> gs m !! i = Some (RelAdd handoff) ->
  inv_at (set_pc (set_sema m (u32 (sema m + 1))) i (RelNwait handoff)) L W S n.
Proof.
  intros H Hi. pose proof (sema_bound _ _ _ _ _ H). pose proof (inv_sema _ _ _ _ _ H).
  unfold u32. rewrite Z.mod_small by lia. open_inv H. destruct S; fields Hi.
Qed.

Lemma step_rel_done m L W S n i p :
  inv_at m L W S n -> gs m !! i = Some p -> len (queue m) = 0 ->
  (exists handoff, p = RelNwait handoff \/ p = RelLock handoff) ->
  inv_at (set_pc m i Out) L W S n.
Proof. intros H Hi Hq [handoff Hp]. open_inv H. destruct S, Hp as [-> | ->]; fields Hi. Qed.

Lemma step_rel_nwait m L W S n i handoff :
  inv_at m L W S n -> gs m !! i = Some (RelNwait handoff) ->
  inv_at (set_pc m i (RelLock handoff)) L W S n.
Proof. intros H Hi. open_inv H. destruct S; fields Hi. Qed.

Lemma no_waiters_queue m L W S n o :
  inv_at m L W S n -> no_waiters m o = true -> len (queue m) = 0.
Proof.
  intros H [Hz%Z.eqb_eq _]%andb_true_iff. open_inv H. lia.
Qed.

Lemma step_rel_lock m L W S n i handoff o m' :
  inv_at m L W S n -> gs m !! i = Some (RelLock handoff) -> rel_lock m i handoff o = Some m' ->
  inv_at m' L W S n.
Proof.
  intros H Hi Hm. unfold rel_lock in Hm. destruct (root_locked m) eqn:Hr; [done|].
  destruct (no_waiters m o) eqn:Ho.
  { simplify_eq. eapply step_rel_done; eauto using no_waiters_queue. }
  destruct (queue m) as [|s q] eqn:Hq; simplify_eq.
  { eapply step_rel_done; eauto. by rewrite Hq. }
  open_inv H. rewrite Hr, Hq in *. cbn [Z.b2z cnt] in *. rewrite len_cons in *.
  pose proof (len_nonneg q). destruct S; fields Hi; try (unfold u32; rewrite ?Z.mod_small; lia);
    unfold occurs at 1 in Hpark; lia.
Qed.

(** Two goroutines move at once: the one released and the one that releases it. *)
Lemma step_rel_ready m L W S n i handoff s m' :
  inv_at m L W S n -> gs m !! i = Some (RelReady handoff s) -> rel_ready m i handoff s = Some m' ->
  inv_at m' L W S n.
Proof.
  intros H Hi Hm. unfold rel_ready in Hm.
  destruct (gs m !! s) as [p|] eqn:Hs; [|done]. destruct p as [| | | | | | | | | | | |l lifo| | | | | | | | | |]; try done.
  assert (s <> i) by (intros ->; congruence).
  assert (forall q, (<[s := q]> (gs m)) !! i = Some (RelReady handoff s)) as Hi'
    by (intros q; by rewrite list_lookup_insert_ne).
  assert (exists ticket u, m' = set_pc (set_pc (set_sema m u) s (Readied l lifo ticket)) i Out /\
    ((ticket = false /\ u = sema m) \/ (ticket = true /\ sema m = 1 /\ u = 0)))
    as (ticket & u & -> & Hu).
  { destruct handoff; [destruct (cansemacquire_cases _ _ _ _ _ H) as [(Hz & Hc)|(Hz & Hc)];
      rewrite Hc in Hm|]; simplify_eq;
      [exists false, (sema m)|exists true, 0|exists false, (sema m)]; destruct m; cbn; auto. }
  open_inv H. destruct Hu as [(-> & ->)|(-> & Hz & ->)], S; unfold mode_ok in *; destruct_and?;
    constructor; unfold mode_ok; cbn [state sema queue nwait root_locked gs set_pc set_sema];
    intros; try (by repeat apply Forall_insert);
    try (unfold len in *; rewrite !length_insert; done);
    repeat rewrite (cnt_insert _ _ _ _ _ (Hi' _)); repeat rewrite (cnt_insert _ _ _ _ _ Hs);
    try rewrite (parked_insert _ _ _ _ _ (Hi' _)), (parked_insert _ _ _ _ _ Hs), <- Hpark;
    cbn [c_hold c_awoke c_got c_hadd c_stay c_wait c_rel c_check c_unlocker c_waker c_target
         c_parked holding Z.b2z]; unfold occurs; split_and?; try done; lia.
Qed.

(** [Unlock]. *)
Lemma unlock_loop_word L W S n :
  unlock_loop (word L W S n) =
    if (n =? 0) || L || W || S then Out else UnlockCAS (word L W S n).
Proof.
  unfold unlock_loop. autorewrite with word. rewrite negb_involutive, !orb_assoc. done.
Qed.

Lemma step_unlock_load m L W S n i :
  inv_at m L W S n -> gs m !! i = Some UnlockLoad ->
  inv_at (set_pc m i (unlock_loop (word L W S n))) L W S n.
Proof.
  intros H Hi. rewrite unlock_loop_word. open_inv H.
  destruct (decide (n = 0)) as [E|E]; [rewrite E in *|rewrite (proj2 (Z.eqb_neq n 0)) by done];
    destruct L, W, S; cbn [orb Z.eqb]; try (by destruct Hmode); fields Hi; cbn; eauto with lia.
Qed.

Lemma step_unlock_cas m L W S n i old :
  inv_at m L W S n -> gs m !! i = Some (UnlockCAS old) -> pc_ok (UnlockCAS old) ->
  inv (unlock_cas m i old).
Proof.
  intros H Hi (n' & -> & Hn'). unfold unlock_cas, cas. rewrite (inv_word _ _ _ _ _ H).
  destruct (Z.eqb_spec (word L W S n) (word false false false n')) as [E|E].
  - apply word_inj in E as (-> & -> & -> & ->). change (1 << mutexWaiterShift) with 8.
    replace (s32 _) with (word false false false (n' - 1))
      by (rewrite s32_id; unfold word; cbn [Z.b2z]; lia).
    autorewrite with word. exists false, true, false, (n' - 1). open_inv H. fields Hi.
  - exists L, W, S, n. open_inv H. destruct S; fields Hi.
Qed.

Lemma step_unlock_add m L W S n i :
  inv_at m L W S n -> gs m !! i = Some UnlockAdd -> inv (unlock_add m i).
Proof.
  intros H Hi. pose proof (hold_counted _ _ _ Hi) as Hc. cbn [c_hold holding Z.b2z] in Hc.
  assert (L = true) as -> by (pose proof (inv_hold _ _ _ _ _ H); destruct L; cbn [Z.b2z] in *; [done|lia]).
  unfold unlock_add. rewrite (inv_word _ _ _ _ _ H). pose proof (waiters_bound _ _ _ _ _ H).
  replace (s32 (_ - _)) with (word false W S n)
    by (rewrite s32_id; unfold word, mutexLocked; destruct W, S; cbn [Z.b2z]; lia).
  exists false, W, S, n. unfold unlockSlow.
  replace (s32 _) with (word true W S n)
    by (rewrite s32_id; unfold word, mutexLocked; destruct W, S; cbn [Z.b2z]; lia).
  autorewrite with word. cbn [negb]. rewrite unlock_loop_word. open_inv H.
  destruct (Z.eqb_spec (word false W S n) 0) as [E|E].
  { apply (word_inj _ _ _ _ false false false 0) in E as (_ & -> & -> & ->). fields Hi. }
  destruct (decide (n = 0)) as [En|En]; [rewrite En in *|rewrite (proj2 (Z.eqb_neq n 0)) by done];
    destruct S, W; cbn [orb negb Z.eqb]; try (by destruct Hmode); fields Hi; cbn; eauto with lia.
Qed.

(** The loop of [lockSlow] as a whole. *)
Lemma step_slow_loop m L W S n i l old o m' ev :
  inv_at m L W S n -> gs m !! i = Some (SlowLoop l old) -> pc_ok (SlowLoop l old) ->
  gstep m i o = Some (m', ev) -> inv m'.
Proof.
  intros H Hi (Hs & L0 & W0 & S0 & n0 & -> & Hn0 & Hw) Hstep.
  unfold gstep in Hstep. rewrite Hi in Hstep. destruct (can_spin o _) eqn:Hspin.
  - simplify_eq. unfold can_spin in Hspin. rewrite owned_locked in Hspin.
    apply andb_true_iff in Hspin as [[-> ->%negb_true_iff]%andb_true_iff _].
    unfold lock_spin. autorewrite with word. unfold cas. rewrite (inv_word _ _ _ _ _ H).
    destruct (negb (awoke l) && negb W0 && negb (n0 =? 0)) eqn:Hc.
    + apply andb_true_iff in Hc as [[Ha%negb_true_iff ->%negb_true_iff]%andb_true_iff _].
      destruct (Z.eqb_spec (word L W S n) (word true false false n0)) as [E|E].
      * apply word_inj in E as (-> & -> & -> & ->). exists true, true, false, n0.
        eapply step_spin_woke; eauto. cbn. by rewrite orb_true_r.
      * exists L, W, S, n. eapply step_spin; eauto; cbn; rewrite orb_false_r; done.
    + exists L, W, S, n. eapply step_spin; eauto; cbn; rewrite orb_false_r; done.
  - apply (inj Some) in Hstep. unfold lock_try in Hstep. rewrite lock_new_word in Hstep by done.
    unfold cas in Hstep. rewrite (inv_word _ _ _ _ _ H), clear_owned in Hstep.
    destruct (Z.eqb_spec (word L W S n) (word L0 W0 S0 n0)) as [E|E].
    + apply word_inj in E as (<- & <- & <- & <-). destruct (L || S) eqn:HLS; cbn [negb] in Hstep.
      * simplify_eq. eexists _, _, _, _. by eapply step_wait.
      * apply orb_false_iff in HLS as [-> ->]. rewrite andb_false_r in Hstep. simplify_eq.
        eexists _, _, _, _. by eapply step_take.
    + simplify_eq. exists L, W, S, n. eapply step_spin; eauto.
Qed.

Lemma inv_gstep m i o m' ev :
  inv m -> disciplined m i o -> gstep m i o = Some (m', ev) -> inv m'.
Proof.
  intros (L & W & S & n & H) Hd Hstep. destruct (gs m !! i) as [p|] eqn:Hi;
    [|unfold gstep in Hstep; by rewrite Hi in Hstep].
  assert (pc_ok p) as Hp by (eapply Forall_lookup_1; [exact (inv_pcs _ _ _ _ _ H)|done]).
  pose proof Hstep as Hs. unfold gstep, cas in Hs. rewrite Hi, (inv_word _ _ _ _ _ H) in Hs.
  unfold disciplined in Hd.
  destruct p; try done; cbn beta iota zeta in Hs.
  - destruct (next_call o); simplify_eq; try (by specialize (Hd Hi));
      eexists _, _, _, _; eapply step_call; eauto 6.
  - destruct (next_call o); simplify_eq; eexists _, _, _, _; eapply step_call; eauto 6.
  - rewrite clear_owned in Hs. destruct L, S; cbn [orb negb] in Hs; simplify_eq;
      eexists _, _, _, _; eauto using step_try, step_back.
  - destruct Hp as (W0 & n0 & ->).
    destruct (Z.eqb_spec (word L W S n) (word false W0 false n0)) as [E|E]; simplify_eq.
    + apply word_inj in E as (-> & -> & -> & ->). rewrite set_locked.
      eexists _, _, _, _. eapply step_acquire; eauto.
    + eexists _, _, _, _. eapply step_back; eauto.
  - destruct (Z.eqb_spec (word L W S n) 0) as [E|E]; simplify_eq.
    + apply (word_inj _ _ _ _ false false false 0) in E as (-> & -> & -> & ->).
      eexists _, _, _, _. change mutexLocked with (word true false false 0). eapply step_acquire; eauto.
    + eexists _, _, _, _. eapply step_slow; eauto.
  - simplify_eq. eexists _, _, _, _. eapply step_load; eauto.
  - eapply step_slow_loop; eauto.
  - simplify_eq. eexists _, _, _, _. eapply step_woken; eauto.
  - simplify_eq. rewrite <- (inv_word _ _ _ _ _ H). eapply step_handoff; eauto.
  - destruct (cansemacquire_cases _ _ _ _ _ H) as [(Hz & Hc)|(Hz & Hc)]; rewrite Hc in Hs; simplify_eq;
      eexists _, _, _, _; eauto using step_unit, step_no_unit.
  - apply bind_Some in Hs as (m1 & Hm & ?); simplify_eq. eexists _, _, _, _. eapply step_acq_lock; eauto.
  - simplify_eq. eexists _, _, _, _. eapply step_acq_check; eauto.
  - simplify_eq. unfold acq_resume. destruct ticket.
    + eexists _, _, _, _. eapply step_ticket; eauto.
    + destruct (cansemacquire_cases _ _ _ _ _ H) as [(Hz & ->)|(Hz & ->)];
        eexists _, _, _, _; eauto using step_unit, step_no_unit.
  - simplify_eq. eapply step_unlock_add; eauto.
  - simplify_eq. eapply step_unlock_cas; eauto.
  - simplify_eq. eexists _, _, _, _. eapply step_unlock_load; eauto.
  - simplify_eq. eexists _, _, _, _. eapply step_rel_add; eauto.
  - destruct (no_waiters m o) eqn:Ho; simplify_eq; eexists _, _, _, _;
      eauto using step_rel_done, no_waiters_queue, step_rel_nwait.
  - apply bind_Some in Hs as (m1 & Hm & ?); simplify_eq. eexists _, _, _, _. eapply step_rel_lock; eauto.
  - apply bind_Some in Hs as (m1 & Hm & ?); simplify_eq. eexists _, _, _, _. eapply step_rel_ready; eauto.
Qed.

(** ** Reachable machines *)

Lemma cnt_idle f n : f Out = 0 -> cnt f (replicate n Out) = 0.
Proof. intros Hf. induction n as [|n IH]; cbn [replicate cnt]; lia. Qed.

Lemma inv_new n : Z.of_nat n < 2 ^ 28 - 1 -> inv (new_machine n).
Proof.
  intros Hn. exists false, false, false, 0. constructor; unfold mode_ok; cbn;
    rewrite ?cnt_idle by done; try done; try lia.
  - intros i. rewrite cnt_idle by done. unfold parked_at.
    destruct (_ !! i) eqn:Hi; [|done]. by apply lookup_replicate in Hi as [-> _].
  - by apply Forall_replicate.
  - unfold len. by rewrite length_replicate.
Qed.

Lemma run_inv n evs m : Z.of_nat n < 2 ^ 28 - 1 -> run (new_machine n) evs m -> inv m.
Proof. intros Hn. induction 1; eauto using inv_new, inv_gstep. Qed.

Definition holds (m : machine) (i : nat) : Prop := exists p, gs m !! i = Some p /\ holding p = true.

(** How the holders change with a step. *)
Definition hold_after (m : machine) (ev : list event) (j : nat) : Prop :=
  match ev with
  | [Acquired i] => j = i \/ holds m j
  | [Released i] => j <> i /\ holds m j
  | _ => holds m j
  end.

Lemma holds_insert m l i p p' j :
  gs m !! i = Some p -> l = <[i := p']> (gs m) ->
  (exists q, l !! j = Some q /\ holding q = true) <->
  (j = i /\ holding p' = true) \/ (j <> i /\ holds m j).
Proof.
  intros Hi ->. unfold holds. destruct (decide (j = i)) as [->|Hj].
  - rewrite list_lookup_insert_eq by eauto using lookup_lt_Some. naive_solver.
  - rewrite list_lookup_insert_ne by done. naive_solver.
Qed.

(** The step of a goroutine that neither takes nor releases the mutex. *)
Lemma holds_quiet m m' i p p' j :
  gs m !! i = Some p -> gs m' = <[i := p']> (gs m) -> holding p' = holding p ->
  holds m' j <-> holds m j.
Proof.
  intros Hi Hm Hp. unfold holds at 1. rewrite (holds_insert m _ i p p' j Hi Hm), Hp.
  unfold holds. destruct (decide (j = i)) as [->|]; naive_solver.
Qed.

Lemma holds_acquire m m' i p j :
  gs m !! i = Some p -> gs m' = <[i := In]> (gs m) -> holding p = false ->
  holds m' j <-> hold_after m [Acquired i] j.
Proof.
  intros Hi Hm Hp. unfold holds at 1. rewrite (holds_insert m _ i p In j Hi Hm). cbn.
  destruct (decide (j = i)) as [->|]; naive_solver.
Qed.

Lemma holds_release m m' i p' j :
  gs m !! i = Some UnlockAdd -> gs m' = <[i := p']> (gs m) -> holding p' = false ->
  holds m' j <-> hold_after m [Released i] j.
Proof.
  intros Hi Hm Hp. unfold holds at 1. rewrite (holds_insert m _ i _ p' j Hi Hm), Hp. naive_solver.
Qed.

Lemma gs_cansemacquire m b m' : cansemacquire m = (b, m') -> gs m' = gs m.
Proof. unfold cansemacquire. intros. repeat case_match; by simplify_eq. Qed.

Lemma unlock_loop_free old : holding (unlock_loop old) = false.
Proof. unfold unlock_loop. by case_match. Qed.

Lemma step_holds m i o m' ev :
  gstep m i o = Some (m', ev) -> forall j, disciplined m i o -> holds m' j <-> hold_after m ev j.
Proof.
  intros Hs j Hd. unfold gstep in Hs. destruct (gs m !! i) as [p|] eqn:Hi; [|done].
  unfold disciplined in Hd.
  destruct p; try done; cbn beta iota zeta in Hs; unfold cas in Hs.
  - destruct (next_call o); simplify_eq; try (by specialize (Hd Hi));
      by eapply holds_quiet.
  - destruct (next_call o); simplify_eq; by eapply holds_quiet.
  - case_match; simplify_eq; by eapply holds_quiet.
  - destruct (_ =? _); simplify_eq; [by eapply holds_acquire|by eapply holds_quiet].
  - destruct (_ =? _); simplify_eq; [by eapply holds_acquire|by eapply holds_quiet].
  - simplify_eq. by eapply holds_quiet.
  - destruct (can_spin o old); simplify_eq.
    + unfold lock_spin, cas. repeat case_match; simplify_eq; by eapply holds_quiet.
    + unfold lock_try, cas in Hs.
      destruct (lock_new l old); [destruct (_ =? old); [destruct (clear old _)|]|]; simplify_eq;
        first [by eapply holds_acquire | by eapply holds_quiet].
  - simplify_eq. unfold lock_woken. repeat case_match; by eapply holds_quiet.
  - simplify_eq. by eapply holds_acquire.
  - destruct (cansemacquire m) as [b m1] eqn:Hc. apply gs_cansemacquire in Hc.
    destruct b; simplify_eq; (eapply holds_quiet; [done|cbn; by rewrite Hc|done]).
  - apply bind_Some in Hs as (m1 & Hm & ?); simplify_eq. unfold acq_lock in Hm.
    case_match; simplify_eq; by eapply holds_quiet.
  - simplify_eq. unfold acq_check. destruct (cansemacquire m) as [b m1] eqn:Hc.
    apply gs_cansemacquire in Hc. destruct b; (eapply holds_quiet; [done|cbn; by rewrite Hc|done]).
  - simplify_eq. unfold acq_resume. destruct ticket; [by eapply holds_quiet|].
    destruct (cansemacquire m) as [b m1] eqn:Hc. apply gs_cansemacquire in Hc.
    destruct b; (eapply holds_quiet; [done|cbn; by rewrite Hc|done]).
  - simplify_eq. unfold unlock_add. eapply holds_release; [done|reflexivity|].
    unfold unlockSlow. repeat case_match; done || apply unlock_loop_free.
  - simplify_eq. unfold unlock_cas, cas. case_match; repeat case_match; simplify_eq; by eapply holds_quiet.
  - simplify_eq. eapply holds_quiet; [done|reflexivity|apply unlock_loop_free].
  - simplify_eq. by eapply holds_quiet.
  - case_match; simplify_eq; by eapply holds_quiet.
  - apply bind_Some in Hs as (m1 & Hm & ?); simplify_eq. unfold rel_lock in Hm.
    repeat case_match; simplify_eq; by eapply holds_quiet.
  - apply bind_Some in Hs as (m1 & Hm & ?); simplify_eq. unfold rel_ready in Hm.
    destruct (gs m !! s) as [q|] eqn:Hq; [|done].
    destruct q as [| | | | | | | | | | | |l lifo| | | | | | | | | |]; try done.
    assert (s <> i) by (intros ->; congruence).
    destruct (if handoff then _ else _) as [t m1] eqn:Hc.
    assert (gs m1 = gs m) as Hg by (destruct handoff; [by eapply gs_cansemacquire|by simplify_eq]).
    simplify_eq. cbn [hold_after].
    transitivity (holds (set_pc m1 s (Readied l lifo t)) j).
    + eapply (holds_quiet _ _ i (RelReady handoff s)); [cbn|done|done].
      by rewrite Hg, list_lookup_insert_ne.
    + eapply (holds_quiet _ _ s (Parked l lifo)); [done|cbn; by rewrite Hg|done].
Qed.

(** ** The client's contract: refinement *)

Lemma held_once m i j : inv m -> holds m i -> holds m j -> i = j.
Proof.
  intros (L & W & S & n & H) (p & Hi & Hp) (q & Hj & Hq).
  apply (cnt_one c_hold (gs m) i j p q); try done.
  - intros r. unfold c_hold. b2z.
  - rewrite (inv_hold _ _ _ _ _ H). b2z.
  - unfold c_hold. by rewrite Hp.
  - unfold c_hold. by rewrite Hq.
Qed.

Lemma step_events m i o m' ev :
  gstep m i o = Some (m', ev) ->
  ev = [] \/ ev = [TryFailed i] \/ ev = [Acquired i] \/ (ev = [Released i] /\ gs m !! i = Some UnlockAdd).
Proof.
  intros Hs. unfold gstep, lock_try in Hs. repeat case_match; simplify_option_eq; eauto 6.
Qed.

(** The holder of the abstract lock and the holders of the machine. *)
Definition agrees (h : option nat) (m : machine) : Prop := forall j, holds m j <-> h = Some j.

Lemma agrees_step h m i o m' ev :
  inv m -> inv m' -> disciplined m i o -> gstep m i o = Some (m', ev) -> agrees h m ->
  exists h', agrees h' m' /\ (ev = [] /\ h' = h \/ exists e, ev = [e] /\ lock_step h e h').
Proof.
  intros Hinv Hinv' Hd Hs Ha. pose proof (step_holds _ _ _ _ _ Hs) as Hh.
  destruct (step_events _ _ _ _ _ Hs) as [->|[->|[->|(-> & Hi)]]]; cbn [hold_after] in Hh.
  - exists h. split; [|auto]. intros j. by rewrite Hh.
  - exists h. split; [intros j; by rewrite Hh|]. right. eexists. split; [done|constructor].
  - assert (forall j, ~ holds m j) as Hfree.
    { intros j Hj. assert (j = i) as -> by (eapply held_once; [exact Hinv'|..]; apply Hh; auto).
      unfold gstep in Hs. destruct Hj as (p & Hp & Hhold). rewrite Hp in Hs.
      destruct p; try done; cbn in Hs; by destruct (next_call o). }
    assert (h = None) as -> by (destruct h as [j|]; [exfalso; by apply (Hfree j), Ha|done]).
    exists (Some i). split; [|right; eexists; split; [done|constructor]].
    intros j. rewrite Hh by done. specialize (Hfree j). naive_solver.
  - assert (h = Some i) as -> by (apply Ha; eexists; by rewrite Hi).
    exists None. split; [|right; eexists; split; [done|constructor]].
    intros j. rewrite Hh by done. split; [|done]. intros [Hj Hm%Ha]. naive_solver.
Qed.

Lemma run_refines n evs m :
  Z.of_nat n < 2 ^ 28 - 1 -> run (new_machine n) evs m ->
  exists h, lock_run evs h /\ agrees h m.
Proof.
  intros Hn Hr. induction Hr as [|evs m i o m' ev Hr (h & Hl & Ha) Hd Hs].
  - exists None. split; [constructor|]. intros j. split; [|done].
    intros (p & Hp & Hh). by apply lookup_replicate in Hp as [-> _].
  - assert (inv m) as Hm by by eapply run_inv.
    destruct (agrees_step h m i o m' ev) as (h' & Ha' & [[-> ->]|(e & -> & Hstep)]);
      eauto using inv_gstep.
    + exists h. by rewrite app_nil_r.
    + exists h'. split; [by econstructor|done].
Qed.

(** [C18] [sync.Mutex] is a lock.  Let any number of goroutines below 2^28 - 1 call
    [Lock], [TryLock] and, when they hold the mutex, [Unlock], interleaved in any way
    between accesses to memory, with any answers of the scheduler and the clock: the
    acquisitions, failed attempts and releases are a history of a lock that one
    goroutine holds at a time, the goroutines that hold the mutex are the holder of
    that lock (so never two), and neither the "inconsistent mutex state" throws nor the
    "unlock of unlocked mutex" of the code is reached. *)
Theorem mutex_refines_lock n evs m :
  Z.of_nat n < 2 ^ 28 - 1 -> run (new_machine n) evs m ->
  (exists h, lock_run evs h /\ forall i, holds m i <-> h = Some i) /\
  (forall i, gs m !! i <> Some Throw /\ gs m !! i <> Some Fatal).
Proof.
  intros Hn Hr. split; [by eapply run_refines|]. intros i.
  destruct (run_inv n evs m Hn Hr) as (L & W & S & k & H).
  split; intros Hi; by eapply Forall_lookup_1 in Hi; [|exact (inv_pcs _ _ _ _ _ H)].
Qed.

Lemma run_trans m0 e1 m1 e2 m2 : run m0 e1 m1 -> run m1 e2 m2 -> run m0 (e1 ++ e2) m2.
Proof.
  intros H1. induction 1; [by rewrite app_nil_r|]. rewrite app_assoc. by econstructor.
Qed.

Lemma exec_run m sched m' evs : exec m sched = Some (m', evs) -> run m evs m'.
Proof.
  revert m evs. induction sched as [|(i, o) sched IH]; intros m evs He; cbn [exec] in He.
  - simplify_eq. constructor.
  - destruct (misused m i o) eqn:Hm; [done|].
    apply bind_Some in He as ((m1 & e1) & Hs & He). apply bind_Some in He as ((m2 & e2) & Hr & He).
    simplify_eq. eapply run_trans; [|by apply IH]. change e1 with ([] ++ e1).
    econstructor; [constructor| |done]. intros Hi Hc. unfold misused in Hm. by rewrite Hi, Hc in Hm.
Qed.

(** Two goroutines: the second waits for the first and takes over. *)
Definition calm (c : call) : oracle := mk_oracle false 5 c false.
Definition two_goroutines : list (nat * oracle) :=
  [(0, calm CallLock); (0, calm CallLock); (1, calm CallLock)]%nat
  ++ replicate 6 (1%nat, calm CallLock)
  ++ replicate 7 (0%nat, calm CallUnlock)
  ++ replicate 3 (1%nat, calm CallLock).

Lemma mutex_refines_lock_witness :
  exists m, run (new_machine 2) [Acquired 0; Released 0; Acquired 1] m /\
    (exists h, lock_run [Acquired 0; Released 0; Acquired 1] h /\ forall i, holds m i <-> h = Some i) /\
    gs m !! 1%nat = Some In.
Proof.
  destruct (exec (new_machine 2) two_goroutines) as [[m evs]|] eqn:He; [|by vm_compute in He].
  assert (evs = [Acquired 0; Released 0; Acquired 1] /\ gs m !! 1%nat = Some In) as [-> H1].
  { vm_compute in He. by injection He as <- <-. }
  exists m. apply exec_run in He. split; [done|]. split; [|done].
  refine (proj1 (mutex_refines_lock 2 _ m _ He)). vm_compute. reflexivity.
Defined.
