(* ===== verification/MutexLive.v ===== *)
(** * sync.Mutex: no wake-up is lost

    From every reachable machine in which nobody is inside the critical section and a
    goroutine is inside [Lock], the goroutines inside calls can bring one of them to
    acquire the mutex.  Also: what an [Unlock] of an unlocked mutex does, and a
    schedule in which starvation mode does not hand the mutex to the first waiter. *)

From S2P Require Import Prelude Mutex MutexInv.

Local Open Scope go_scope.
Local Set Warnings "-clear-no-such-hyp".

(** The scheduler that does not spin. *)
Definition quiet : oracle := mk_oracle false 0 CallLock false.

(** One more step of goroutine [i], which is at the given place. *)
Ltac advance i Hi := eapply (leads_later _ i quiet); [exact Hi|done|done|unfold gstep; rewrite Hi|].
Ltac at_i := apply list_lookup_insert_eq; eauto using lookup_lt_Some.

(** ** A goroutine that can take a free mutex *)

Lemma lead_loop m W n i l :
  inv_at m false W false n -> gs m !! i = Some (SlowLoop l (state m)) -> leads m.
Proof.
  intros H Hi. pose proof (inv_word _ _ _ _ _ H) as Hw.
  assert (pc_ok (SlowLoop l (state m))) as (Hs & L0 & W0 & S0 & n0 & E & Hn & Ha)
    by (eapply Forall_lookup_1; [exact (inv_pcs _ _ _ _ _ H)|done]).
  rewrite E in Hw. apply word_inj in Hw as (-> & -> & -> & ->).
  eapply (leads_now _ i quiet); [exact Hi|done|done|]. unfold gstep. rewrite Hi.
  unfold can_spin. cbn [canSpin quiet]. rewrite andb_false_r. unfold lock_try.
  rewrite E, lock_new_word by done. unfold cas. rewrite E, Z.eqb_refl, clear_owned. done.
Qed.

Lemma lead_load m W n i l :
  inv_at m false W false n -> gs m !! i = Some (SlowLoad l) -> leads m.
Proof.
  intros H Hi. advance i Hi; [done|].
  assert (pc_ok (SlowLoad l)) by (eapply Forall_lookup_1; [exact (inv_pcs _ _ _ _ _ H)|done]).
  rewrite (inv_word _ _ _ _ _ H).
  eapply (lead_loop _ W n i l); [by eapply step_load|]. cbn. rewrite (inv_word _ _ _ _ _ H). at_i.
Qed.

Lemma lead_retry m W n i l old :
  inv_at m false W false n -> gs m !! i = Some (SlowLoop l old) -> leads m.
Proof.
  intros H Hi. destruct (decide (old = state m)) as [->|Hne]; [by eapply lead_loop|].
  assert (pc_ok (SlowLoop l old)) as (Hs & L0 & W0 & S0 & n0 & E & Hn & Ha)
    by (eapply Forall_lookup_1; [exact (inv_pcs _ _ _ _ _ H)|done]).
  advance i Hi.
  { unfold can_spin. cbn [canSpin quiet]. rewrite andb_false_r. unfold lock_try.
    rewrite E, lock_new_word by done. unfold cas. rewrite <- E.
    rewrite (proj2 (Z.eqb_neq _ _)) by done. done. }
  eapply (lead_load _ W n i l); [by eapply step_spin|]. at_i.
Qed.

Lemma lead_first m W n i :
  inv_at m false W false n -> gs m !! i = Some LockCAS -> leads m.
Proof.
  intros H Hi. destruct (decide (state m = 0)) as [E|E].
  - eapply (leads_now _ i quiet); [exact Hi|done|done|]. unfold gstep, cas. rewrite Hi.
    by rewrite E.
  - advance i Hi; [unfold cas; rewrite (proj2 (Z.eqb_neq _ _)) by done; done|].
    eapply (lead_load _ W n i); [by eapply step_slow|]. at_i.
Qed.

Lemma lead_handoff m i d : gs m !! i = Some (HandoffAdd d) -> leads m.
Proof.
  intros Hi. eapply (leads_now _ i quiet); [exact Hi|done|done|]. unfold gstep. by rewrite Hi.
Qed.

Lemma lead_woken m W S n i l :
  inv_at m false W S n -> gs m !! i = Some (Woken l) -> leads m.
Proof.
  intros H Hi. advance i Hi; [done|]. pose proof (step_woken _ _ _ _ _ _ _ 0 H Hi) as H'.
  assert (forall p', lock_woken m i l 0 = set_pc m i p' ->
    gs (lock_woken m i l 0) !! i = Some p') as Hat by (intros p' ->; at_i).
  cbn [nanotime quiet]. unfold lock_woken in *. rewrite (inv_word _ _ _ _ _ H) in *. autorewrite with word in *.
  destruct S; cbn [negb] in *.
  - destruct (_ || _).
    + exfalso. assert (pc_ok Throw) as []; eapply Forall_lookup_1; [exact (inv_pcs _ _ _ _ _ H')|by apply Hat].
    + eapply lead_handoff. by apply Hat.
  - eapply lead_loop; [exact H'|]. cbn [state set_pc]. rewrite (inv_word _ _ _ _ _ H). by apply Hat.
Qed.

Lemma lead_ticket m W S n i l lifo :
  inv_at m false W S n -> gs m !! i = Some (Readied l lifo true) -> leads m.
Proof.
  intros H Hi. advance i Hi; [done|]. eapply lead_woken; [by eapply step_ticket|]. at_i.
Qed.

(** ** A unit in the semaphore reaches a waiter *)

Section Unit.
Context (m : machine) (W S : bool) (n : Z).
Hypothesis H : inv_at m false W S n.
Hypothesis Hone : sema m = 1.

Lemma lead_try_unit i p l lifo :
  gs m !! i = Some p -> p = AcqTry l lifo \/ p = Readied l lifo false -> leads m.
Proof using H Hone.
  intros Hi Hp. assert (cansemacquire m = (true, set_sema m 0)) as Hc
    by (unfold cansemacquire; by rewrite Hone).
  assert (inv_at (set_pc (set_sema m 0) i (Woken l)) false W S n) as H'
    by (eapply step_unit; eauto).
  assert (gs (set_pc (set_sema m 0) i (Woken l)) !! i = Some (Woken l)) by (cbn; at_i).
  destruct Hp as [-> | ->]; (advance i Hi; [|by eapply lead_woken]).
  - by rewrite Hc.
  - unfold acq_resume. by rewrite Hc.
Qed.

Lemma lead_check i l lifo : gs m !! i = Some (AcqCheck l lifo) -> leads m.
Proof using H Hone.
  intros Hi. pose proof (step_acq_check _ _ _ _ _ _ _ _ H Hi) as H'. advance i Hi; [done|].
  eapply lead_woken; [exact H'|]. unfold acq_check, cansemacquire. rewrite Hone. cbn. at_i.
Qed.

Lemma lead_root : root_locked m = true -> leads m.
Proof using H Hone.
  intros Hr. destruct (cnt_pos c_check (gs m)) as (i & p & Hi & Hp).
  { rewrite (inv_root _ _ _ _ _ H), Hr. done. }
  destruct p; try done. by eapply lead_check.
Qed.

Lemma lead_ready i handoff s : gs m !! i = Some (RelReady handoff s) -> leads m.
Proof using H Hone.
  intros Hi.
  assert (1 <= parked_at (gs m) s) as Hp.
  { rewrite <- (inv_park _ _ _ _ _ H s). pose proof (occurs_nonneg s (queue m)).
    pose proof (cnt_in (c_target s) (gs m) i _ ltac:(intros []; cbn; b2z) Hi) as Ht.
    cbn [c_target] in Ht. rewrite bool_decide_true in Ht by done. cbn [Z.b2z] in Ht. lia. }
  unfold parked_at in Hp. destruct (gs m !! s) as [p|] eqn:Hs; [|lia].
  destruct p as [| | | | | | | | | | | |l lifo| | | | | | | | | |]; cbn in Hp; try lia.
  assert (s <> i) by (intros ->; congruence).
  destruct (rel_ready m i handoff s) as [m'|] eqn:Hm; [|unfold rel_ready in Hm; rewrite Hs in Hm; by repeat case_match].
  pose proof (step_rel_ready _ _ _ _ _ _ _ _ _ H Hi Hm) as H'.
  advance i Hi; [rewrite Hm; done|].
  unfold rel_ready in Hm. rewrite Hs in Hm.
  assert (exists t, gs m' !! s = Some (Readied l lifo t) /\ (t = false -> sema m' = 1)) as (t & Ht & Hu).
  { destruct handoff; unfold cansemacquire in Hm; rewrite ?Hone in Hm; cbn in Hm; simplify_eq;
      [exists true|exists false]; cbn; (split; [rewrite list_lookup_insert_ne by done; at_i|done]). }
  destruct t; [by eapply lead_ticket|]. specialize (Hu eq_refl).
  assert (cansemacquire m' = (true, set_sema m' 0)) as Hc by (unfold cansemacquire; by rewrite Hu).
  advance s Ht; [unfold acq_resume; by rewrite Hc|].
  eapply lead_woken; [eapply step_unit; eauto|]. cbn. at_i.
Qed.

End Unit.

Section Waiter.
Context (m : machine) (W S : bool) (n : Z).
Hypothesis H : inv_at m false W S n.
Hypothesis Hone : sema m = 1.

Lemma lead_acq_lock i l lifo : gs m !! i = Some (AcqLock l lifo) -> leads m.
Proof using H Hone.
  intros Hi. destruct (root_locked m) eqn:Hr; [by eapply lead_root|].
  assert (acq_lock m i l lifo = Some (set_pc (set_root m (queue m) (u32 (nwait m + 1)) true) i (AcqCheck l lifo)))
    as Hm by (unfold acq_lock; by rewrite Hr).
  advance i Hi; [rewrite Hm; done|].
  eapply lead_check; [by eapply step_acq_lock|done|]. cbn. at_i.
Qed.

Lemma lead_rel_lock i handoff :
  gs m !! i = Some (RelLock handoff) -> 0 < len (queue m) -> leads m.
Proof using H Hone.
  intros Hi Hq. destruct (root_locked m) eqn:Hr; [by eapply lead_root|].
  assert (no_waiters m quiet = false) as Hno
    by (destruct (no_waiters m quiet) eqn:E; [|done]; pose proof (no_waiters_queue _ _ _ _ _ _ H E); lia).
  destruct (queue m) as [|s q] eqn:Eq; [done|].
  assert (rel_lock m i handoff quiet
    = Some (set_pc (set_root m q (u32 (nwait m - 1)) false) i (RelReady handoff s))) as Hm
    by (unfold rel_lock; by rewrite Hr, Hno, Eq).
  advance i Hi; [rewrite Hm; done|].
  eapply lead_ready; [by eapply step_rel_lock|done|]. cbn. at_i.
Qed.
End Waiter.

Lemma lead_nwait m W S n i handoff :
  inv_at m false W S n -> sema m = 1 ->
  gs m !! i = Some (RelNwait handoff) -> 0 < len (queue m) -> leads m.
Proof.
  intros H Hone Hi Hq.
  assert (no_waiters m quiet = false) as Hno
    by (destruct (no_waiters m quiet) eqn:E; [|done]; pose proof (no_waiters_queue _ _ _ _ _ _ H E); lia).
  advance i Hi; [rewrite Hno; done|].
  eapply lead_rel_lock; [by eapply step_rel_nwait|done| |done]. cbn. at_i.
Qed.

(** A unit and a waiter. *)
Lemma lead_unit m W S n :
  inv_at m false W S n -> sema m = 1 -> 0 < cnt c_wait (gs m) -> leads m.
Proof.
  intros H Hone Hw. apply cnt_pos in Hw as (i & p & Hi & Hp).
  assert (0 < len (queue m) -> leads m) as Hqueue.
  { intros Hq. destruct (cnt_pos c_waker (gs m)) as (j & q & Hj & Hc).
    { apply (inv_waker _ _ _ _ _ H); lia. }
    destruct q as [| | | | | | | | |l lifo|l lifo|l lifo|l lifo|l lifo []| | | |h|h|h|h s| |]; cbn in Hc; try lia;
      eauto using lead_try_unit, lead_acq_lock, lead_check, lead_nwait, lead_rel_lock, lead_ready. }
  destruct p as [| | | | | | | | |l lifo|l lifo|l lifo|l lifo|l lifo []| | | | | | | | |]; cbn in Hp; try lia;
    eauto using lead_try_unit, lead_acq_lock, lead_check.
  pose proof (inv_park _ _ _ _ _ H i) as Hpark. unfold parked_at in Hpark. rewrite Hi in Hpark.
  cbn [c_parked] in Hpark. destruct (queue m) as [|j q] eqn:Hq.
  - cbn [cnt] in Hpark. destruct (cnt_pos (c_target i) (gs m)) as (j & p & Hj & Ht); [lia|].
    destruct p; cbn in Ht; try lia. by eapply lead_ready.
  - apply Hqueue. rewrite len_cons. pose proof (len_nonneg q). lia.
Qed.

(** ** An unlocked mutex with waiters sends a unit *)

Lemma lead_rel_add m W S n i handoff :
  inv_at m false W S n -> gs m !! i = Some (RelAdd handoff) -> leads m.
Proof.
  intros H Hi. pose proof (step_rel_add _ _ _ _ _ _ _ H Hi) as H'.
  advance i Hi; [done|].
  pose proof (cnt_in c_rel (gs m) i _ ltac:(intros []; cbn; b2z) Hi) as Hr. cbn [c_rel] in Hr.
  pose proof (inv_mode _ _ _ _ _ H) as Hm. pose proof (inv_sema _ _ _ _ _ H).
  pose proof (counts_nonneg (gs m)) as Hc. unfold mode_ok in Hm.
  assert (sema m = 0 /\ 0 < cnt c_wait (gs m)) as [Hz Hw].
  { destruct S; cbn [Z.b2z] in *; [lia|]. destruct W; cbn [Z.b2z] in *; lia. }
  eapply lead_unit; [exact H'|cbn; by rewrite Hz|]. cbn [gs set_pc set_sema].
  rewrite (cnt_insert _ _ _ _ _ Hi). cbn [c_wait]. lia.
Qed.

Lemma lead_unlock_cas m n i :
  inv_at m false false false n -> 1 <= n ->
  gs m !! i = Some (UnlockCAS (word false false false n)) -> leads m.
Proof.
  intros H Hn Hi. pose proof (waiters_bound _ _ _ _ _ H).
  assert (inv_at (unlock_cas m i (word false false false n)) false true false (n - 1)) as H'.
  { unfold unlock_cas, cas. rewrite (inv_word _ _ _ _ _ H), Z.eqb_refl.
    change (1 << mutexWaiterShift) with 8.
    replace (s32 _) with (word false false false (n - 1))
      by (rewrite s32_id; unfold word; cbn [Z.b2z]; lia).
    autorewrite with word. open_inv H. fields Hi. }
  advance i Hi; [done|]. eapply lead_rel_add; [exact H'|].
  unfold unlock_cas, cas. rewrite (inv_word _ _ _ _ _ H), Z.eqb_refl. cbn. at_i.
Qed.

Lemma lead_unlocker m n i p :
  inv_at m false false false n -> 1 <= n -> gs m !! i = Some p -> 0 < c_unlocker p -> leads m.
Proof.
  intros H Hn Hi Hp.
  assert (forall m, inv_at m false false false n -> gs m !! i = Some UnlockLoad -> leads m) as Hload.
  { intros m0 H0 Hi0. pose proof (step_unlock_load _ _ _ _ _ _ H0 Hi0) as H1.
    advance i Hi0; [done|]. rewrite (inv_word _ _ _ _ _ H0), unlock_loop_word in *.
    rewrite (proj2 (Z.eqb_neq n 0)) in * by lia. cbn [orb] in *.
    eapply lead_unlock_cas; [exact H1|done|]. cbn. at_i. }
  destruct p as [| | | | | | | | | | | | | | |old| | | | | | |]; cbn in Hp; try lia; [|by apply (Hload m)].
  assert (pc_ok (UnlockCAS old)) as (n' & -> & Hn')
    by (eapply Forall_lookup_1; [exact (inv_pcs _ _ _ _ _ H)|done]).
  destruct (decide (n' = n)) as [->|Hne]; [by eapply lead_unlock_cas|].
  assert (unlock_cas m i (word false false false n') = set_pc m i UnlockLoad) as E.
  { unfold unlock_cas, cas. rewrite (inv_word _ _ _ _ _ H), (proj2 (Z.eqb_neq _ _)); [done|].
    intros (_&_&_&?)%word_inj. done. }
  advance i Hi; [done|]. rewrite E. apply Hload; [|cbn; at_i].
  open_inv H. fields Hi.
Qed.

(** ** The theorems *)

Lemma lead_free m W S n i p :
  inv_at m false W S n -> gs m !! i = Some p -> locking p = true -> leads m.
Proof.
  intros H Hi Hp. pose proof (counts_nonneg (gs m)) as Hc.
  pose proof (inv_mode _ _ _ _ _ H) as Hm. pose proof (inv_sema _ _ _ _ _ H) as Hz.
  pose proof (sema_bound _ _ _ _ _ H) as Hz'. unfold mode_ok in Hm.
  assert (0 < cnt c_got (gs m) -> leads m) as Hgot.
  { intros (j & q & Hj & Hq)%cnt_pos.
    destruct q as [| | | | | | | | | | | | |? ? []| | | | | | | | |]; cbn in Hq; try lia;
      eauto using lead_woken, lead_ticket. }
  assert (0 < cnt c_rel (gs m) -> leads m) as Hrel.
  { intros (j & q & Hj & Hq)%cnt_pos. destruct q; cbn in Hq; try lia. eauto using lead_rel_add. }
  destruct S; cbn [Z.b2z] in Hm.
  - destruct (decide (0 < cnt c_got (gs m))); [auto|]. destruct (decide (0 < cnt c_rel (gs m))); [auto|].
    destruct (decide (0 < cnt c_hadd (gs m))) as [(j & q & Hj & Hq)%cnt_pos|].
    + destruct q; cbn in Hq; try lia. eauto using lead_handoff.
    + eapply lead_unit; [exact H|lia|lia].
  - assert (0 < cnt c_wait (gs m) -> leads m) as Hwait.
    { intros Hw. destruct (decide (sema m = 1)); [by eapply lead_unit|].
      destruct (decide (0 < cnt c_got (gs m))); [auto|]. destruct (decide (0 < cnt c_rel (gs m))); [auto|].
      destruct (decide (0 < cnt c_awoke (gs m))) as [(j & q & Hj & Hq)%cnt_pos|].
      { destruct q; cbn in Hq; try lia; eauto using lead_load, lead_retry. }
      destruct W; cbn [Z.b2z] in Hm; [lia|].
      destruct (cnt_pos c_unlocker (gs m)) as (j & q & Hj & Hq).
      { apply (inv_unlocker _ _ _ _ _ H); cbn [Z.b2z]; lia. }
      eapply lead_unlocker; [exact H|lia|exact Hj|done]. }
    assert (c_wait p <= cnt c_wait (gs m)) as Hcw
      by (apply (cnt_in _ _ i); [intros []; cbn; b2z|done]).
    destruct p as [| | | | | | | | | | | | |? ? []| | | | | | | | |]; try done; cbn in Hcw;
      eauto using lead_first, lead_load, lead_retry, lead_woken, lead_handoff, lead_ticket with lia.
Qed.

(** [C19] No wake-up of a [sync.Mutex] is lost.  In every machine the goroutines can reach,
    with any interleaving, if none of them is in its critical section and one is inside a
    call of [Lock], asleep or not, then the goroutines that are inside [Lock] and
    [Unlock] can by themselves, without any new call, get to a step in which one of them
    acquires the mutex: a sleeping waiter is always some other goroutine's or some
    semaphore unit's responsibility. *)
Theorem mutex_no_lost_wakeup n evs m i p :
  Z.of_nat n < 2 ^ 28 - 1 -> run (new_machine n) evs m ->
  (forall j, gs m !! j <> Some In) -> gs m !! i = Some p -> locking p = true ->
  leads m.
Proof.
  intros Hn Hr Hfree Hi Hp. destruct (run_inv n evs m Hn Hr) as (L & W & S & k & H).
  destruct L; [|by eapply lead_free].
  destruct (cnt_pos c_hold (gs m)) as (j & q & Hj & Hq); [by rewrite (inv_hold _ _ _ _ _ H)|].
  destruct q; cbn in Hq; try lia; [by specialize (Hfree j)|].
  destruct (step_unlock_add _ _ _ _ _ _ H Hj) as (L' & W' & S' & k' & H').
  assert (cnt c_hold (gs (unlock_add m j)) = 0) as Hz.
  { unfold unlock_add. cbn [gs set_pc set_state]. rewrite (cnt_insert _ _ _ _ _ Hj).
    rewrite (inv_hold _ _ _ _ _ H). unfold c_hold, unlockSlow, unlock_loop.
    repeat case_match; cbn; lia. }
  rewrite (inv_hold _ _ _ _ _ H') in Hz. destruct L'; cbn [Z.b2z] in Hz; [lia|].
  advance j Hj; [done|]. eapply lead_free; [exact H'| |exact Hp].
  unfold unlock_add. cbn [gs set_pc set_state]. rewrite list_lookup_insert_ne; [done|].
  intros ->. rewrite Hj in Hi. by simplify_eq.
Qed.

(** The mutex was released while the second goroutine sleeps. *)
Lemma mutex_no_lost_wakeup_witness :
  exists m, run (new_machine 2) [Acquired 0; Released 0] m /\
    gs m !! 1%nat = Some (Parked (mk_locals 5 false false 0) false) /\ leads m.
Proof.
  destruct (exec (new_machine 2) (take 12 two_goroutines)) as [[m evs]|] eqn:He; [|by vm_compute in He].
  assert (evs = [Acquired 0; Released 0] /\ gs m = [RelAdd false; Parked (mk_locals 5 false false 0) false])
    as [-> H1] by (vm_compute in He; by injection He as <- <-).
  exists m. apply exec_run in He. rewrite H1. split; [done|]. split; [done|].
  refine (mutex_no_lost_wakeup 2 _ m 1 (Parked (mk_locals 5 false false 0) false) _ He _ _ _).
  - vm_compute. reflexivity.
  - intros j. rewrite H1. destruct j as [|[|j]]; done.
  - by rewrite H1.
  - done.
Defined.

(** An [Unlock] of a mutex that is not locked stops the program: whatever the rest
    of the state word, a subtraction that finds the locked bit clear ends in [fatal]. *)
Theorem unlock_unlocked_fatal m i o :
  gs m !! i = Some UnlockAdd -> - 2 ^ 31 <= state m < 2 ^ 31 -> clear (state m) mutexLocked = true ->
  exists m', gstep m i o = Some (m', [Released i]) /\ gs m' !! i = Some Fatal.
Proof.
  intros Hi Hr Hc. unfold gstep. rewrite Hi. eexists. split; [done|]. unfold unlock_add.
  unfold clear, mutexLocked in *. apply Z.eqb_eq in Hc.
  rewrite (Z.land_ones _ 1) in Hc by lia. change (2 ^ 1) with 2 in Hc.
  assert (s32 (s32 (state m - 1) + 1) = state m) as Hback by (unfold s32; zlia).
  assert (s32 (state m - 1) <> 0) as Hne by (intros E; rewrite E in Hback; unfold s32 in Hback; zlia).
  rewrite (proj2 (Z.eqb_neq _ _)) by done. unfold unlockSlow, clear, mutexLocked.
  rewrite Hback, (Z.land_ones _ 1) by lia. change (2 ^ 1) with 2. rewrite Hc. cbn. at_i.
Qed.

(** A waiter woken after 2 ms finds the mutex taken again and starts starvation mode;
    the holder releases, and stops before it looks for a waiter. *)
Definition at_time (t : Z) (c : call) : oracle := mk_oracle false t c false.
Definition starvation : list (nat * oracle) :=
  take 9 two_goroutines ++ replicate 7 (0%nat, calm CallUnlock)
  ++ replicate 4 (0%nat, calm CallLock)
  ++ replicate 6 (1%nat, at_time 2000005 CallLock) ++ replicate 3 (0%nat, calm CallUnlock).

(** [C39] Starvation mode does not always hand the mutex to the first waiter: a goroutine that
    calls [Lock] when the mutex is starving, unlocked and has a queued waiter can take
    the unit that [Unlock] added for the waiter before [semrelease1] gives it away, and
    acquire the mutex while the waiter stays at the front of the queue. *)
Theorem starvation_overtaken :
  exists m m' evs, run (new_machine 3) evs m /\
    clear (state m) mutexStarving = false /\ queue m = [1%nat] /\ gs m !! 2%nat = Some Out /\
    exec m (replicate 7 (2%nat, calm CallLock)) = Some (m', [Acquired 2]) /\
    queue m' = [1%nat] /\ gs m' !! 2%nat = Some In.
Proof.
  destruct (exec (new_machine 3) starvation) as [[m evs]|] eqn:He; [|by vm_compute in He].
  pose proof (exec_run _ _ _ _ He) as Hr. vm_compute in He. injection He as Hm Hev.
  rewrite <- Hm in *. eexists _, _, _. split; [exact Hr|]. repeat (split; [vm_compute; reflexivity|]).
  vm_compute. reflexivity.
Qed.
