(* ===== verification/Resolve.v ===== *)
(** * Resolving the host to dial, and the private-address filter

    [net.LookupIP] and [lookupIPAddr] ([net/lookup.go]), [isDomainName]
    ([net/dnsclient.go]), [parsePort] ([net/port.go]), [LookupPort]
    ([net/lookup.go]), [filterAddrList] and [internetAddrList]
    ([net/ipsock.go]) of [tools/go-patched/src], and [isPrivateAddr] of
    [proxy/main.go].

    The answers of the name service and of the table of service names come from
    outside: they are the parameters [lookupIP] and [lookupPort].  The proxy looks a host
    up when it checks it and again when it dials it; the theorems on both take a
    [lookupIP] for each. *)

From S2P Require Import Prelude ByteOrder GoIO Varint HostPort NetIP NetipAddr Wire.

(** ** Addresses *)
Record IPAddr := mk_IPAddr { ip_IP : IP; ip_Zone : gostring }.

Inductive net_Addr : Type :=
  | TCPAddr (ip : IP) (port : Z) (zone : gostring)
  | UDPAddr (ip : IP) (port : Z) (zone : gostring)
  | IPAddr_ (ip : IPAddr).

Definition addr_IP (a : net_Addr) : IP :=
  match a with TCPAddr ip _ _ => ip | UDPAddr ip _ _ => ip | IPAddr_ ip => ip_IP ip end.

(** ** isDomainName *)
Definition is_letter (c : Z) : bool :=
  ((97 <=? c) && (c <=? 122)) || ((65 <=? c) && (c <=? 90)) || (c =? 95).
Definition is_digit (c : Z) : bool := (48 <=? c) && (c <=? 57).

Fixpoint isDomainName_loop (s : gostring) (last partlen : Z) (nonNumeric : bool) : bool :=
  match s with
  | [] => if (last =? 45) || (63 <? partlen) then false else nonNumeric
  | c :: s =>
      if is_letter c then isDomainName_loop s c (partlen + 1) true
      else if is_digit c then isDomainName_loop s c (partlen + 1) nonNumeric
      else if c =? 45 then
        if last =? 46 then false else isDomainName_loop s c (partlen + 1) true
      else if c =? 46 then
        if (last =? 46) || (last =? 45) then false
        else if (63 <? partlen) || (partlen =? 0) then false
        else isDomainName_loop s c 0 nonNumeric
      else false
  end.

Definition isDomainName (s : gostring) : bool :=
  if bool_decide (s = str ".") then true else
  let l := len s in
  if (l =? 0) || (254 <? l) || ((l =? 254) && negb (bool_decide (last s = Some 46))) then false
  else isDomainName_loop s 46 0 false.

(** ** parsePort

    The loop works in uint32: both [n *= 10] and [n + uint32(d)] wrap around. *)
Definition port_max : Z := 4294967295.
Definition port_cutoff : Z := 1073741824.

Fixpoint parsePort_loop (service : gostring) (n : Z) : option Z :=
  match service with
  | [] => Some n
  | d :: service =>
      if is_digit d then
        let d := d - 48 in
        if port_cutoff <=? n then Some port_max else
        let n := u32 (n * 10) in
        let nn := u32 (n + d) in
        if (nn <? n) || (port_max <? nn) then Some port_max
        else parsePort_loop service nn
      else None
  end.

(** The port and [needsLookup]. *)
Definition parsePort (service : gostring) : Z * bool :=
  match service with
  | [] => (0, false)
  | c :: s =>
      let '(neg, service) :=
        if c =? 43 then (false, s) else if c =? 45 then (true, s) else (false, service) in
      match parsePort_loop service 0 with
      | None => (0, true)
      | Some n =>
          let port :=
            if negb neg && (port_cutoff <=? n) then port_cutoff - 1
            else if neg && (port_cutoff <? n) then port_cutoff
            else n in
          (if neg then - port else port, false)
      end
  end.

Definition one_of (s : gostring) (l : list gostring) : bool := bool_decide (s ∈ l).

Section Resolver.
Context (lookupIP : gostring -> gostring -> result (list IPAddr)).
Context (lookupPort : gostring -> gostring -> result Z).

Definition lookupIPAddr (network host : gostring) : result (list IPAddr) :=
  if bool_decide (host = []) then Err (DNSError (str "no such host") host) else
  match ParseAddr host with
  | Ok ip => Ok [mk_IPAddr (default [] (To16 (AsSlice ip))) (Zone ip)]
  | Err _ => lookupIP network host
  end.

(** net.LookupIP *)
Definition LookupIP (host : gostring) : result (list IP) :=
  match lookupIPAddr (str "ip") host with
  | Err e => Err e
  | Ok addrs => Ok (map ip_IP addrs)
  end.

Definition LookupPort (network service : gostring) : result Z :=
  let '(port, needsLookup) := parsePort service in
  let r :=
    if needsLookup then
      if one_of network [str "tcp"; str "tcp4"; str "tcp6"; str "udp"; str "udp4"; str "udp6"; str "ip"]
      then lookupPort network service
      else if bool_decide (network = []) then lookupPort (str "ip") service
      else Err (AddrError (str "unknown network") network)
    else Ok port in
  match r with
  | Err e => Err e
  | Ok port =>
      if (port <? 0) || (65535 <? port) then Err (AddrError (str "invalid port") service)
      else Ok port
  end.

Definition filterAddrList (filter : option (IPAddr -> bool)) (ips : list IPAddr)
    (inetaddr : IPAddr -> net_Addr) (originalAddr : gostring) : result (list net_Addr) :=
  let addrs := map inetaddr (List.filter (fun ip =>
    match filter with None => true | Some f => f ip end) ips) in
  match addrs with
  | [] => Err (AddrError (str "no suitable address found") originalAddr)
  | _ => Ok addrs
  end.

Definition ipv4only (addr : IPAddr) : bool := bool_decide (To4 (ip_IP addr) <> None).
Definition ipv6only (addr : IPAddr) : bool :=
  (len (ip_IP addr) =? IPv6len) && bool_decide (To4 (ip_IP addr) = None).

(** internetAddrList.  The networks it is called with are the three families,
    each with an optional 4 or 6; the first component of the parse is the pair of
    host and port number.  The outer [None] is the panic of SplitHostPort, which
    never happens ([SplitHostPort_spec]). *)
Definition internetAddrList (net addr : gostring) : option (result (list net_Addr)) :=
  let tcp := one_of net [str "tcp"; str "tcp4"; str "tcp6"] in
  let udp := one_of net [str "udp"; str "udp4"; str "udp6"] in
  hp ←
    (if tcp || udp then
       if bool_decide (addr = []) then Some (Ok ([], 0)) else
       r ← SplitHostPort addr;
       match r with
       | Err e => Some (Err e)
       | Ok (host, port) =>
           match LookupPort net port with
           | Err e => Some (Err e)
           | Ok portnum => Some (Ok (host, portnum))
           end
       end
     else if one_of net [str "ip"; str "ip4"; str "ip6"] then Some (Ok (addr, 0))
     else Some (Err (OtherError (str "unknown network"))));
  match hp with
  | Err e => Some (Err e)
  | Ok (host, portnum) =>
      let inetaddr (ip : IPAddr) :=
        if tcp then TCPAddr (ip_IP ip) portnum (ip_Zone ip)
        else if udp then UDPAddr (ip_IP ip) portnum (ip_Zone ip)
        else IPAddr_ ip in
      if bool_decide (host = []) then Some (Ok [inetaddr (mk_IPAddr [] [])]) else
      match lookupIPAddr net host with
      | Err e => Some (Err e)
      | Ok ips =>
          let ips :=
            match ips with
            | [ip] => if Equal (ip_IP ip) IPv6unspecified
                      then ips ++ [mk_IPAddr IPv4zero []] else ips
            | _ => ips
            end in
          let filter :=
            if bool_decide (last net = Some 52) then Some ipv4only
            else if bool_decide (last net = Some 54) then Some ipv6only
            else None in
          Some (filterAddrList filter ips inetaddr host)
      end
  end.

(** proxy/main.go: the condition of the loop, the function after its lookup, and
    the whole function. *)
Definition blocked_ip (ip : IP) : bool :=
  IsLoopback ip || IsPrivate ip || IsLinkLocalUnicast ip || IsLinkLocalMulticast ip.

Definition private_answer (answer : result (list IP)) : bool :=
  match answer with
  | Err _ => false
  | Ok ips => existsb blocked_ip ips
  end.

Definition isPrivateAddr (host : gostring) : bool := private_answer (LookupIP host).

End Resolver.

Example parsePort_examples :
  parsePort (str "443") = (443, false) /\ parsePort (str "http") = (0, true) /\
  parsePort (str "-2147483648") = (-1073741824, false) /\
  parsePort (str "4294967376") = (80, false).
Proof. done. Qed.

(** ** Ports *)

Lemma parsePort_loop_digit d service n :
  48 <= d <= 57 -> 0 <= n -> n * 10 + (d - 48) < port_cutoff ->
  parsePort_loop (d :: service) n = parsePort_loop service (n * 10 + (d - 48)).
Proof.
  intros Hd Hn Hlt. cbn [parsePort_loop]. unfold is_digit, port_cutoff, port_max in *.
  rewrite (proj2 (Z.leb_le 48 d)), (proj2 (Z.leb_le d 57)) by lia. cbn [andb].
  rewrite (proj2 (Z.leb_gt _ _)) by lia. cbv zeta.
  assert (u32 (n * 10) = n * 10) as -> by (widths; zlia).
  assert (u32 (n * 10 + (d - 48)) = n * 10 + (d - 48)) as -> by (widths; zlia).
  rewrite (proj2 (Z.ltb_ge _ (n * 10))), (proj2 (Z.ltb_ge 4294967295 _)) by lia. done.
Qed.

(** The parser undoes the printer, digit by digit. *)
Lemma parsePort_loop_decimal fuel v acc :
  0 <= v < port_cutoff -> v < 10 ^ Z.of_nat fuel -> fuel <> O ->
  parsePort_loop (fmtInteger_loop fuel v acc) 0 = parsePort_loop acc v.
Proof.
  revert v acc. induction fuel as [|fuel IH]; [done|]. intros v acc Hv Hf _. cbn [fmtInteger_loop].
  unfold port_cutoff in Hv. destruct (10 <=? v) eqn:E; zbool; cbv zeta.
  - rewrite Nat2Z.inj_succ, Z.pow_succ_r in Hf by lia.
    assert (u8 (48 + v - v / 10 * 10) = 48 + v mod 10) as -> by (widths; zlia).
    rewrite IH.
    + rewrite parsePort_loop_digit by (unfold port_cutoff; zlia). f_equal. zlia.
    + unfold port_cutoff. zlia.
    + apply Z.div_lt_upper_bound; lia.
    + intros ->. simpl in Hf. lia.
  - assert (u8 (48 + v) = 48 + v) as -> by (widths; zlia).
    rewrite parsePort_loop_digit by (unfold port_cutoff; lia). f_equal. lia.
Qed.

Lemma fmtInteger_loop_nonempty fuel v acc : fuel <> O -> fmtInteger_loop fuel v acc <> [].
Proof.
  revert v acc. induction fuel as [|fuel IH]; [done|]. intros v acc _. cbn [fmtInteger_loop].
  destruct (10 <=? v); [|done]. cbv zeta. destruct fuel; [done|]. by apply IH.
Qed.

(** A decimal numeral has no sign, so the loop sees all of it. *)
Lemma parsePort_unsigned v :
  0 <= v < 10 ^ 20 ->
  parsePort (fmt_decimal v) =
    match parsePort_loop (fmt_decimal v) 0 with
    | None => (0, true)
    | Some n => (if port_cutoff <=? n then port_cutoff - 1 else n, false)
    end.
Proof.
  intros Hv. pose proof (fmtInteger_loop_digits 20 v [] Hv ltac:(constructor)) as Hd.
  fold (fmt_decimal v) in Hd. unfold parsePort.
  destruct (fmt_decimal v) as [|c s] eqn:E; [by apply fmtInteger_loop_nonempty in E|].
  apply Forall_cons in Hd as [Hc _].
  rewrite (proj2 (Z.eqb_neq c 43)), (proj2 (Z.eqb_neq c 45)) by lia.
  destruct (parsePort_loop (c :: s) 0); [|done]. cbn [negb andb]. done.
Qed.

Lemma parsePort_decimal p : is_u16 p -> parsePort (fmt_decimal p) = (p, false).
Proof.
  intros Hp. rewrite parsePort_unsigned by (change (10 ^ 20) with 100000000000000000000; lia).
  unfold fmt_decimal. rewrite parsePort_loop_decimal;
    [|unfold port_cutoff; lia|change (10 ^ Z.of_nat 20) with 100000000000000000000; lia|done].
  cbn [parsePort_loop]. by rewrite (proj2 (Z.leb_gt _ _)) by (unfold port_cutoff; lia).
Qed.

Lemma LookupPort_decimal lookupPort network p :
  is_u16 p -> LookupPort lookupPort network (fmt_decimal p) = Ok p.
Proof.
  intros Hp. unfold LookupPort. rewrite parsePort_decimal by done. cbv zeta.
  by rewrite (proj2 (Z.ltb_ge p 0)), (proj2 (Z.ltb_ge 65535 p)) by lia.
Qed.

Lemma fmtInteger_loop_step fuel u acc :
  10 <= u ->
  fmtInteger_loop (S fuel) u acc = fmtInteger_loop fuel (u / 10) (u8 (48 + u - u / 10 * 10) :: acc).
Proof. intros Hu. cbn [fmtInteger_loop]. by rewrite (proj2 (Z.leb_le 10 u)). Qed.

(** A number past the range of uint32 by [p >= 10] is read as [p]: the last
    multiplication wraps around below the cutoff. *)
Lemma parsePort_loop_wraps p :
  10 <= p < 65536 -> parsePort_loop (fmt_decimal (4294967296 + p)) 0 = Some p.
Proof.
  intros Hp. unfold fmt_decimal. rewrite fmtInteger_loop_step by lia.
  assert (u8 (48 + (4294967296 + p) - (4294967296 + p) / 10 * 10) = 48 + (6 + p) mod 10) as ->
    by (widths; zlia).
  rewrite parsePort_loop_decimal;
    [|unfold port_cutoff; zlia|change (10 ^ Z.of_nat 19) with 10000000000000000000; zlia|done].
  cbn [parsePort_loop]. unfold is_digit, port_cutoff, port_max.
  rewrite (proj2 (Z.leb_le 48 _)), (proj2 (Z.leb_le _ 57)) by zlia. cbn [andb].
  rewrite (proj2 (Z.leb_gt _ _)) by zlia. cbv zeta.
  assert (u32 ((4294967296 + p) / 10 * 10) = p - (6 + p) mod 10) as -> by (widths; zlia).
  assert (u32 (p - (6 + p) mod 10 + (48 + (6 + p) mod 10 - 48)) = p) as -> by (widths; zlia).
  rewrite (proj2 (Z.ltb_ge p _)), (proj2 (Z.ltb_ge 4294967295 _)) by zlia. done.
Qed.

(** ** Parsed addresses are valid *)

Lemma AsSlice_valid a : z a <> z0 -> valid_ip (AsSlice a).
Proof.
  intros Hz. unfold AsSlice, As16, bePutUint32_bytes, bePutUint64_bytes,
    BigEndian.AppendUint32, BigEndian.AppendUint64, valid_ip.
  destruct (z a); [done|split; [|by left]|split; [|by right]..];
    simpl; repeat constructor; apply u8_is_byte.
Qed.

Lemma To16_valid ip : valid_ip ip -> exists ip', To16 ip = Some ip' /\ valid_ip ip'.
Proof.
  intros H. destruct (valid_ip_inv ip H) as [(a & b & c & d & -> & Hok)|(p & a & b & c & d & -> & Hl & Hp & Hok)].
  - exists (IPv4 a b c d). split; [reflexivity|]. split; [|by right].
    apply Forall_app. split; [lit|done].
  - exists (p ++ [a; b; c; d]). split; [|done]. unfold To16, IPv6len, IPv4len.
    rewrite len_app, Hl. reflexivity.
Qed.

Lemma WithZone_valid a zn : z a = z6noz -> z (WithZone a zn) <> z0.
Proof. unfold WithZone, Is6. intros E. rewrite E. by repeat case_bool_decide. Qed.

Lemma parseIPv4_valid s a : parseIPv4 s = Ok a -> z a <> z0.
Proof.
  unfold parseIPv4. destruct (parseIPv4_loop _ _ _ _ _ _ _ _) as [[[f v] p]|]; [|done].
  destruct (p <? 3); [done|]. by intros [= <-].
Qed.

Lemma parseIPv6_addr_valid inp s zn e a : parseIPv6_addr inp s zn e = Ok a -> z a <> z0.
Proof.
  unfold parseIPv6_addr. destruct (parseIPv6_loop _ _ _ _ _ _) as [[[[ip i] el] r]|]; [|done].
  repeat case_match; intros [= <-]; by apply WithZone_valid.
Qed.

Lemma ParseAddr_valid s a : ParseAddr s = Ok a -> z a <> z0.
Proof.
  unfold ParseAddr. generalize s at 2 as rest. induction rest as [|c rest IH]; simpl; [done|].
  repeat case_match; try done; eauto using parseIPv4_valid.
  unfold parseIPv6. repeat case_match; try done; eauto using parseIPv6_addr_valid;
    intros [= <-]; by apply WithZone_valid.
Qed.

(** ** The filter and the dialled addresses *)

(** The networks of the filter. *)
Definition blocked_nets :=
  loopback_nets ++ private_nets ++ link_local_nets ++ link_local_multicast_nets.

Lemma blocked_ip_nets ip :
  valid_ip ip ->
  blocked_ip ip = in_nets blocked_nets ip.
Proof.
  intros H. unfold blocked_ip, blocked_nets.
  rewrite IsLoopback_nets, IsPrivate_nets, IsLinkLocalUnicast_nets, IsLinkLocalMulticast_nets by done.
  unfold in_nets. by rewrite !existsb_app, !orb_assoc.
Qed.

(** What SplitHostPort answers on the address that the proxy formats. *)
Lemma fmt_decimal_notin port c : is_u16 port -> (c < 48 \/ 57 < c) -> c ∉ fmt_decimal port.
Proof.
  intros Hp Hc Hin.
  assert (Forall (fun c => 48 <= c <= 57) (fmt_decimal port)) as Hd.
  { apply fmtInteger_loop_digits; [|constructor].
    change (10 ^ Z.of_nat 20) with 100000000000000000000. lia. }
  eapply Forall_forall in Hd; [|exact Hin]. simpl in Hd. lia.
Qed.

Lemma SplitHostPort_addr_of s h port :
  is_u16 port -> no_brackets h -> hostport_of (addr_of s port) h (fmt_decimal port) ->
  SplitHostPort (addr_of s port) = Some (Ok (h, fmt_decimal port)).
Proof.
  intros Hp Hh Hs. destruct (SplitHostPort_spec (addr_of s port)) as (r & -> & Hr). f_equal.
  apply Hr. split_and!; [|done| |done].
  - apply fmt_decimal_notin; [done|right; done].
  - split; (apply fmt_decimal_notin; [done|right; done]).
Qed.

Lemma addr_of_nonempty h port : addr_of h port <> [].
Proof. unfold addr_of. by destruct h. Qed.

Section Dial.
Context (lookupIP : gostring -> gostring -> result (list IPAddr)).
Context (lookupPort : gostring -> gostring -> result Z).

(** The addresses that dialling a formatted address may connect to. *)
Lemma internetAddrList_addr_of net s h port :
  net = str "tcp" \/ net = str "udp" -> is_u16 port -> no_brackets h -> h <> [] ->
  hostport_of (addr_of s port) h (fmt_decimal port) ->
  internetAddrList lookupIP lookupPort net (addr_of s port) =
    match lookupIPAddr lookupIP net h with
    | Err e => Some (Err e)
    | Ok ips =>
        let ips := match ips with
          | [ip] => if Equal (ip_IP ip) IPv6unspecified then ips ++ [mk_IPAddr IPv4zero []] else ips
          | _ => ips
          end in
        Some (filterAddrList None ips (fun ip =>
          if bool_decide (net = str "tcp") then TCPAddr (ip_IP ip) port (ip_Zone ip)
          else UDPAddr (ip_IP ip) port (ip_Zone ip)) h)
    end.
Proof.
  intros Hnet Hp Hb Hne Hs. unfold internetAddrList.
  assert (one_of net [str "tcp"; str "tcp4"; str "tcp6"] = bool_decide (net = str "tcp")) as ->
    by (by destruct Hnet as [-> | ->]).
  assert (bool_decide (net = str "tcp") || one_of net [str "udp"; str "udp4"; str "udp6"] = true) as ->
    by (by destruct Hnet as [-> | ->]).
  rewrite (bool_decide_false (addr_of s port = [])) by apply addr_of_nonempty.
  rewrite (SplitHostPort_addr_of s h port) by done. cbn [mbind option_bind].
  rewrite LookupPort_decimal by done. cbn [mbind option_bind].
  rewrite (bool_decide_false (h = [])) by done.
  destruct (lookupIPAddr lookupIP net h) as [ips|e]; [|done].
  by destruct Hnet as [-> | ->].
Qed.

End Dial.

(** The address of the dialler for one answer of the name service. *)
Definition dialled (net : gostring) (port : Z) (ip : IPAddr) : net_Addr :=
  if bool_decide (net = str "tcp") then TCPAddr (ip_IP ip) port (ip_Zone ip)
  else UDPAddr (ip_IP ip) port (ip_Zone ip).

Lemma addr_IP_dialled net port ip : addr_IP (dialled net port ip) = ip_IP ip.
Proof. unfold dialled. by destruct (bool_decide _). Qed.

(** The dialler's list for an answer: the answers in order, and the IPv4
    unspecified address after a single IPv6 one. *)
Lemma internetAddrList_answers lookupIP lookupPort net host port ips :
  net = str "tcp" \/ net = str "udp" -> is_u16 port ->
  host <> [] -> colon ∉ host -> no_brackets host ->
  lookupIPAddr lookupIP net host = Ok ips -> ips <> [] ->
  exists extra, Forall (fun a => ip_IP a = IPv4zero) extra /\
    internetAddrList lookupIP lookupPort net (addr_of host port) =
      Some (Ok (map (dialled net port) (ips ++ extra))).
Proof.
  intros Hnet Hp Hne Hcol Hbr Hl Hips.
  rewrite (internetAddrList_addr_of lookupIP lookupPort net host host port); [|done..|by left].
  rewrite Hl. cbv zeta. fold (dialled net port).
  assert (forall l, l <> [] -> filterAddrList None l (dialled net port) host = Ok (map (dialled net port) l))
    as Hf.
  { intros l Hn. unfold filterAddrList. replace (List.filter _ l) with l.
    - by destruct l.
    - clear Hn. induction l; simpl; congruence. }
  destruct ips as [|i [|j ips]]; [done| |].
  - destruct (Equal _ _).
    + exists [mk_IPAddr IPv4zero []]. split; [by repeat constructor|]. by rewrite <- Hf.
    + exists []. split; [constructor|]. rewrite app_nil_r. by rewrite <- Hf.
  - exists []. split; [constructor|]. rewrite app_nil_r. by rewrite <- Hf.
Qed.

Lemma internetAddrList_inv lookupIP lookupPort net host port addrs :
  net = str "tcp" \/ net = str "udp" -> is_u16 port ->
  host <> [] -> colon ∉ host -> no_brackets host ->
  internetAddrList lookupIP lookupPort net (addr_of host port) = Some (Ok addrs) ->
  exists ips extra, lookupIPAddr lookupIP net host = Ok ips /\
    Forall (fun a => ip_IP a = IPv4zero) extra /\ addrs = map (dialled net port) (ips ++ extra).
Proof.
  intros Hnet Hp Hne Hcol Hbr E. destruct (lookupIPAddr lookupIP net host) as [ips|e] eqn:El.
  - destruct ips as [|i ips].
    { rewrite (internetAddrList_addr_of lookupIP lookupPort net host host port) in E; [|done..|by left].
      by rewrite El in E. }
    destruct (internetAddrList_answers lookupIP lookupPort net host port (i :: ips))
      as (extra & HF & E'); [done..|]. rewrite E' in E. injection E as <-. by eexists _, extra.
  - rewrite (internetAddrList_addr_of lookupIP lookupPort net host host port) in E; [|done..|by left].
    by rewrite El in E.
Qed.

(** The filter judges the answer it was given. *)
Lemma isPrivateAddr_false lookupIP host :
  host <> [] ->
  isPrivateAddr lookupIP host = false <->
  (forall ips, lookupIPAddr lookupIP (str "ip") host = Ok ips ->
     Forall (fun a => blocked_ip (ip_IP a) = false) ips).
Proof.
  intros Hne. unfold isPrivateAddr, private_answer, LookupIP.
  destruct (lookupIPAddr lookupIP (str "ip") host) as [ips|e]; [|by split].
  rewrite <- not_true_iff_false, existsb_exists. split.
  - intros H ? [= <-]. apply Forall_forall. intros a Ha. apply not_true_iff_false. intros Hb.
    apply H. exists (ip_IP a). split; [|done]. apply in_map_iff. exists a. by rewrite <- list_elem_of_In.
  - intros H (ip & Hin & Hb). specialize (H _ eq_refl). apply in_map_iff in Hin as (a & <- & Ha).
    rewrite <- list_elem_of_In in Ha. rewrite Forall_forall in H. specialize (H a Ha). simpl in H. congruence.
Qed.

Lemma lookupIPAddr_name lookupIP net host e :
  host <> [] -> ParseAddr host = Err e -> lookupIPAddr lookupIP net host = lookupIP net host.
Proof. intros Hne He. unfold lookupIPAddr. by rewrite bool_decide_false, He. Qed.

Lemma lookupIPAddr_literal lookupIP net host a :
  host <> [] -> ParseAddr host = Ok a ->
  exists ip, To16 (AsSlice a) = Some ip /\ valid_ip ip /\
    lookupIPAddr lookupIP net host = Ok [mk_IPAddr ip (Zone a)].
Proof.
  intros Hne Ha. unfold lookupIPAddr. rewrite bool_decide_false, Ha by done.
  destruct (To16_valid (AsSlice a)) as (ip & -> & Hv); [by apply AsSlice_valid, (ParseAddr_valid host)|].
  by exists ip.
Qed.

(** ** Claims *)

(** [C5] What the private-address filter guarantees of a plain host.  The proxy
    asks the name service twice, in isPrivateAddr and again when it dials; the two
    answers come from [lookup1] and [lookup2], and nothing relates them.  For a
    non-empty host without colons and brackets that the filter lets through, every
    address that the dialler may connect to has the requested port; and if it lies
    in a loopback, private, link-local or link-local multicast network, then the
    host is no address literal, the address is an answer of the second lookup, and
    it was not among the answers of the first.  So an address literal is never
    dialled into those networks, and neither is a name whose second answer holds
    no address the first did not. *)
Theorem private_filter_sound lookup1 lookup2 lookupPort net host port addrs :
  (forall ips, lookup2 net host = Ok ips -> Forall (fun a => valid_ip (ip_IP a)) ips) ->
  net = str "tcp" \/ net = str "udp" ->
  host <> [] -> colon ∉ host -> no_brackets host -> is_u16 port ->
  isPrivateAddr lookup1 host = false ->
  internetAddrList lookup2 lookupPort net (addr_of host port) = Some (Ok addrs) ->
  Forall (fun a =>
    (exists ip zn, a = TCPAddr ip port zn \/ a = UDPAddr ip port zn) /\
    (in_nets blocked_nets (addr_IP a) = true ->
      (exists e, ParseAddr host = Err e) /\
      (exists ips, lookup2 net host = Ok ips /\ addr_IP a ∈ map ip_IP ips) /\
      (forall ips, lookup1 (str "ip") host = Ok ips -> addr_IP a ∉ map ip_IP ips))) addrs.
Proof.
  intros Hval Hnet Hne Hcol Hbr Hp Hpriv Hadr. rewrite isPrivateAddr_false in Hpriv by done.
  apply internetAddrList_inv in Hadr as (ips & extra & Hl & Hex & ->); [|done..].
  apply Forall_map, Forall_forall. intros ip Hin. rewrite addr_IP_dialled. split.
  { unfold dialled. destruct (bool_decide _); eexists _, _; [by left|by right]. }
  intros Hblk. apply elem_of_app in Hin as [Hin|Hin].
  2:{ rewrite Forall_forall in Hex. specialize (Hex ip Hin). simpl in Hex. rewrite Hex in Hblk. discriminate Hblk. }
  destruct (ParseAddr host) as [a|e] eqn:Ea.
  - destruct (lookupIPAddr_literal lookup2 net host a Hne Ea) as (i & Hi & Hv & E2).
    destruct (lookupIPAddr_literal lookup1 (str "ip") host a Hne Ea) as (i' & Hi' & _ & E1).
    rewrite Hi in Hi'. injection Hi' as <-. rewrite E2 in Hl. injection Hl as <-.
    apply Hpriv, Forall_cons in E1 as [E1 _]. apply list_elem_of_singleton in Hin as ->.
    cbn [ip_IP] in *. rewrite blocked_ip_nets in E1 by done. congruence.
  - rewrite (lookupIPAddr_name _ _ _ _ Hne Ea) in Hl. split_and!; [by eexists| |].
    { exists ips. split; [done|]. apply list_elem_of_In, in_map, list_elem_of_In, Hin. }
    intros ips1 E1 Hbad. rewrite <- (lookupIPAddr_name _ _ _ _ Hne Ea) in E1. apply Hpriv in E1.
    apply list_elem_of_In, in_map_iff in Hbad as (x & Hx & Hxin). rewrite <- list_elem_of_In in Hxin.
    rewrite Forall_forall in E1. specialize (E1 x Hxin). simpl in E1. rewrite Hx in E1.
    specialize (Hval ips Hl). rewrite Forall_forall in Hval.
    rewrite blocked_ip_nets in E1 by (by apply Hval). congruence.
Qed.

(** A name service for the witnesses: one public name, everything else unknown. *)
Definition sample_lookupIP (network host : gostring) : result (list IPAddr) :=
  if bool_decide (host = str "example.org") then Ok [mk_IPAddr (IPv4 93 184 216 34) []]
  else Err (DNSError (str "no such host") host).
Definition sample_lookupPort (network service : gostring) : result Z :=
  Err (DNSError (str "unknown port") service).

Lemma private_filter_sound_witness :
  Forall (fun a =>
    (exists ip zn, a = TCPAddr ip 443 zn \/ a = UDPAddr ip 443 zn) /\
    (in_nets blocked_nets (addr_IP a) = true ->
      (exists e, ParseAddr (str "example.org") = Err e) /\
      (exists ips, sample_lookupIP (str "tcp") (str "example.org") = Ok ips /\ addr_IP a ∈ map ip_IP ips) /\
      (forall ips, sample_lookupIP (str "ip") (str "example.org") = Ok ips -> addr_IP a ∉ map ip_IP ips)))
    [TCPAddr (IPv4 93 184 216 34) 443 []].
Proof.
  apply (private_filter_sound sample_lookupIP sample_lookupIP sample_lookupPort (str "tcp")
    (str "example.org") 443).
  - intros ips. unfold sample_lookupIP. case_bool_decide; intros [= <-]. constructor; [lit|constructor].
  - by left.
  - done.
  - lit.
  - lit.
  - lia.
  - reflexivity.
  - vm_compute. reflexivity.
Defined.

(** [C38] The filter does not survive a name service that changes its answer.  For
    every plain host name that is no address literal: when the filter's lookup
    fails, or answers no address of the filtered networks, the host passes; and
    whatever the dialler's lookup answers then, loopback and private addresses
    too, is what the proxy may connect to, every answer of it, in order, on the
    requested port. *)
Theorem private_filter_rebinding lookup1 lookup2 lookupPort net host port ips e :
  net = str "tcp" \/ net = str "udp" ->
  host <> [] -> colon ∉ host -> no_brackets host -> is_u16 port ->
  ParseAddr host = Err e ->
  (forall ips1, lookup1 (str "ip") host = Ok ips1 ->
     Forall (fun a => valid_ip (ip_IP a) /\ in_nets blocked_nets (ip_IP a) = false) ips1) ->
  lookup2 net host = Ok ips -> ips <> [] ->
  isPrivateAddr lookup1 host = false /\
  exists extra, Forall (fun a => ip_IP a = IPv4zero) extra /\
    internetAddrList lookup2 lookupPort net (addr_of host port) =
      Some (Ok (map (fun ip => if bool_decide (net = str "tcp") then TCPAddr (ip_IP ip) port (ip_Zone ip)
                               else UDPAddr (ip_IP ip) port (ip_Zone ip)) (ips ++ extra))).
Proof.
  intros Hnet Hne Hcol Hbr Hp Ha H1 H2 Hips. split.
  - apply isPrivateAddr_false; [done|]. intros ips1. rewrite (lookupIPAddr_name _ _ _ _ Hne Ha).
    intros E. eapply Forall_impl; [exact (H1 ips1 E)|]. intros x [Hv Hx].
    by rewrite blocked_ip_nets.
  - destruct (internetAddrList_answers lookup2 lookupPort net host port ips) as (extra & HF & E); [done..| |done|].
    { by rewrite (lookupIPAddr_name _ _ _ _ Hne Ha). }
    exists extra. split; [done|exact E].
Qed.

(** A name service that answers the loopback address once the name has passed. *)
Definition rebound_lookupIP (network host : gostring) : result (list IPAddr) :=
  Ok [mk_IPAddr (IPv4 127 0 0 1) []].

Lemma private_filter_rebinding_witness :
  isPrivateAddr sample_lookupIP (str "example.org") = false /\
  exists extra, Forall (fun a => ip_IP a = IPv4zero) extra /\
    internetAddrList rebound_lookupIP sample_lookupPort (str "tcp") (addr_of (str "example.org") 80) =
      Some (Ok (map (fun ip => TCPAddr (ip_IP ip) 80 (ip_Zone ip))
        ([mk_IPAddr (IPv4 127 0 0 1) []] ++ extra))).
Proof.
  eapply (private_filter_rebinding sample_lookupIP rebound_lookupIP sample_lookupPort (str "tcp")
    (str "example.org") 80).
  - by left.
  - done.
  - lit.
  - lit.
  - lia.
  - vm_compute. reflexivity.
  - intros ips1. unfold sample_lookupIP. case_bool_decide; intros [= <-].
    constructor; [split; [lit|reflexivity]|constructor].
  - reflexivity.
  - done.
Defined.

Lemma isDomainName_bracket r : isDomainName (lbracket :: r) = false.
Proof.
  unfold isDomainName. rewrite bool_decide_false by done. cbv zeta.
  destruct (_ || _ || _); [done|]. reflexivity.
Qed.

(** No address literal starts with a bracket. *)
Lemma parseIPv6_addr_bracket inp s zn e : exists err, parseIPv6_addr inp (lbracket :: s) zn e = Err err.
Proof. unfold parseIPv6_addr. eexists. cbn. reflexivity. Qed.

Lemma ParseAddr_bracket r : exists e, ParseAddr (lbracket :: r) = Err e.
Proof.
  unfold ParseAddr. generalize (lbracket :: r) at 2 as rest.
  induction rest as [|c rest IH]; cbn [ParseAddr_loop]; [by eexists|].
  destruct (c =? _); [by eexists|]. destruct (c =? colon); [|destruct (c =? _); [by eexists|done]].
  unfold parseIPv6.
  destruct (IndexByteString_spec (lbracket :: r) 37) as [[_ ->]|(l1 & l2 & E & _ & ->)].
  - cbn [negb andb Z.eqb]. destruct r; apply parseIPv6_addr_bracket.
  - destruct l1 as [|c1 l1]; [done|]. injection E as <- ->.
    rewrite (proj2 (Z.eqb_neq _ (-1))) by (pose proof (len_nonneg (lbracket :: l1)); lia).
    cbn [negb andb]. destruct (bool_decide _); [by eexists|].
    replace (take _ _) with (lbracket :: l1)
      by (unfold len; rewrite Nat2Z.id; symmetry; apply (take_app_length (lbracket :: l1))).
    destruct l1; apply parseIPv6_addr_bracket.
Qed.

(** [C36] The filter is blind to a host in brackets.  With any name service that
    refuses strings that are not domain names, the host [[h]] for an address
    literal [h], a loopback or private one too, passes isPrivateAddr, and the
    address that the proxy formats and dials from it resolves to the address
    [h]. *)
Theorem private_filter_bracket_bypass lookupIP lookupPort net h a port :
  (forall network name, isDomainName name = false -> exists e, lookupIP network name = Err e) ->
  net = str "tcp" \/ net = str "udp" ->
  no_brackets h -> ParseAddr h = Ok a -> is_u16 port ->
  let host := lbracket :: h ++ [rbracket] in
  isPrivateAddr lookupIP host = false /\
  exists x addrs,
    internetAddrList lookupIP lookupPort net (addr_of host port) = Some (Ok (x :: addrs)) /\
    To16 (AsSlice a) = Some (addr_IP x).
Proof.
  intros Hdns Hnet Hbr Ha Hp host. split.
  - unfold isPrivateAddr, private_answer, LookupIP, lookupIPAddr. rewrite bool_decide_false by done.
    destruct (ParseAddr_bracket (h ++ [rbracket])) as (e & He). fold host in He. rewrite He.
    by destruct (Hdns (str "ip") host (isDomainName_bracket _)) as (e' & ->).
  - assert (h <> []) as Hne by (by intros ->).
    rewrite (internetAddrList_addr_of lookupIP lookupPort net host h port); [|done..|].
    2:{ right. unfold addr_of, host. simpl. by rewrite <- app_assoc. }
    unfold lookupIPAddr. rewrite bool_decide_false by done. rewrite Ha. cbv zeta.
    destruct (To16_valid (AsSlice a)) as (ip' & -> & _); [by apply AsSlice_valid, (ParseAddr_valid h)|].
    simpl default. destruct (Equal _ _); eexists _, _; (split; [reflexivity|]);
      by destruct (bool_decide (net = str "tcp")).
Qed.

Lemma private_filter_bracket_bypass_witness :
  isPrivateAddr sample_lookupIP (str "[127.0.0.1]") = false /\
  exists x addrs,
    internetAddrList sample_lookupIP sample_lookupPort (str "tcp") (addr_of (str "[127.0.0.1]") 80)
      = Some (Ok (x :: addrs)) /\
    To16 (AsSlice (AddrFrom4 [127; 0; 0; 1])) = Some (addr_IP x).
Proof.
  apply (private_filter_bracket_bypass sample_lookupIP sample_lookupPort (str "tcp")
    (str "127.0.0.1") (AddrFrom4 [127; 0; 0; 1]) 80).
  - intros network name Hn. unfold sample_lookupIP. case_bool_decide as E; [|by eexists].
    subst name. discriminate Hn.
  - by left.
  - lit.
  - reflexivity.
  - lia.
Defined.

(** Ports.  The decimal port that the proxy formats is parsed back by
    LookupPort to the same number, without the table of service names; but the
    parser works modulo 2^32: the numeral of [2^32 + p] is accepted as port [p],
    for every [p] from 10 up. *)
Theorem port_round_trip_and_wrap lookupPort network p :
  is_u16 p ->
  LookupPort lookupPort network (fmt_decimal p) = Ok p /\
  (10 <= p -> LookupPort lookupPort network (fmt_decimal (4294967296 + p)) = Ok p).
Proof.
  intros Hp. split; [by apply LookupPort_decimal|]. intros H10. unfold LookupPort.
  rewrite parsePort_unsigned by (change (10 ^ 20) with 100000000000000000000; lia).
  rewrite parsePort_loop_wraps by lia.
  rewrite (proj2 (Z.leb_gt _ _)) by (unfold port_cutoff; lia). cbv zeta.
  by rewrite (proj2 (Z.ltb_ge p 0)), (proj2 (Z.ltb_ge 65535 p)) by lia.
Qed.

Lemma port_round_trip_and_wrap_witness :
  LookupPort sample_lookupPort (str "tcp") (str "80") = Ok 80 /\
  LookupPort sample_lookupPort (str "tcp") (str "4294967376") = Ok 80.
Proof.
  destruct (port_round_trip_and_wrap sample_lookupPort (str "tcp") 80) as [H1 H2]; [lia|].
  exact (conj H1 (H2 ltac:(lia))).
Defined.
