(* ===== verification/Proxy.v ===== *)
(** * friscy-proxy: sessions, connections and their goroutines

    [proxy/main.go], from [Server.handleSession] to [Connection.Close].

    Goroutines run the handlers below against a shared world.  A handler is a
    program [prog]: a tree of the operations through which it touches something
    that it shares with other goroutines or with the outside, in the order of the
    source; between two of them a goroutine may be preempted.  What depends only
    on local data (decoding a request, formatting an address) is evaluated in
    place.  [body] gives the program of each function that is started as a
    goroutine or looped in; [perform] gives each operation its meaning; and
    [step] interleaves. *)

From S2P Require Import Prelude ByteOrder GoIO Varint HostPort NetIP NetipAddr RateLimiter Wire Resolve.

(** ** Shared state *)

(** Pointers, sockets and sessions are numbered. *)
Notation ptr := Z (only parsing).
Notation sock := Z (only parsing).

(** A virtual socket.  [locked] is the state of [mu]. *)
Record Connection := mk_Connection {
  id : Z;
  sockType : Z;
  conn : option sock;
  listener : option sock;
  udpConn : option sock;
  closed : bool;
  locked : bool;
}.

Definition new_Connection (id sockType : Z) (conn listener udpConn : option sock) : Connection :=
  mk_Connection id sockType conn listener udpConn false false.

Definition set_conn (c : Connection) (v : option sock) : Connection :=
  mk_Connection (id c) (sockType c) v (listener c) (udpConn c) (closed c) (locked c).
Definition set_closed (c : Connection) (b : bool) : Connection :=
  mk_Connection (id c) (sockType c) (conn c) (listener c) (udpConn c) b (locked c).
Definition set_locked (c : Connection) (b : bool) : Connection :=
  mk_Connection (id c) (sockType c) (conn c) (listener c) (udpConn c) (closed c) b.

(** A client session.  [connections] is the sync.Map; [sent] are the events that
    reached the client, in order: message type, connection id, data. *)
Record Session := mk_Session {
  connections : gmap Z ptr;
  nextConnID : Z;
  remoteIP : gostring;
  sent : list (Z * Z * gobytes);
}.

Definition empty_Session (addr : gostring) : Session := mk_Session ∅ 0 addr [].
Definition set_connections_map (s : Session) (m : gmap Z ptr) : Session :=
  mk_Session m (nextConnID s) (remoteIP s) (sent s).
Definition set_nextConnID (s : Session) (n : Z) : Session :=
  mk_Session (connections s) n (remoteIP s) (sent s).
Definition add_sent (s : Session) (e : Z * Z * gobytes) : Session :=
  mk_Session (connections s) (nextConnID s) (remoteIP s) (sent s ++ [e]).

(** What the proxy did that matters to the outside: looked a host up, was granted
    a connection by the rate limiter, dialled, took a stream from a client. *)
Inductive obs : Type :=
  | Looked (host : gostring) (answer : result (list IP))
  | Granted (sid : Z)
  | Dialed (sid : Z) (sockType : Z) (addr : gostring)
  | Took (sid : Z) (s : stream).

Record world := mk_world {
  heap : gmap ptr Connection;
  next_ptr : ptr;
  open : gset sock;
  next_sock : sock;
  sessions : gmap Z Session;
  next_sid : Z;
  limiter : RateLimiter;
  now : Z;
  log : list obs;
}.

Definition set_heap (w : world) h := mk_world h (next_ptr w) (open w) (next_sock w) (sessions w) (next_sid w) (limiter w) (now w) (log w).
Definition set_open (w : world) o := mk_world (heap w) (next_ptr w) o (next_sock w) (sessions w) (next_sid w) (limiter w) (now w) (log w).
Definition set_sess (w : world) ss := mk_world (heap w) (next_ptr w) (open w) (next_sock w) ss (next_sid w) (limiter w) (now w) (log w).
Definition set_limiter (w : world) rl := mk_world (heap w) (next_ptr w) (open w) (next_sock w) (sessions w) (next_sid w) rl (now w) (log w).
Definition set_now (w : world) t := mk_world (heap w) (next_ptr w) (open w) (next_sock w) (sessions w) (next_sid w) (limiter w) t (log w).
Definition add_log (w : world) (e : obs) := mk_world (heap w) (next_ptr w) (open w) (next_sock w) (sessions w) (next_sid w) (limiter w) (now w) (log w ++ [e]).
Definition alloc (w : world) (c : Connection) : world :=
  mk_world (<[next_ptr w := c]> (heap w)) (next_ptr w + 1) (open w) (next_sock w) (sessions w) (next_sid w) (limiter w) (now w) (log w).
Definition new_sock (w : world) : world :=
  mk_world (heap w) (next_ptr w) ({[next_sock w]} ∪ open w) (next_sock w + 1) (sessions w) (next_sid w) (limiter w) (now w) (log w).
Definition new_sess (w : world) (addr : gostring) : world :=
  mk_world (heap w) (next_ptr w) (open w) (next_sock w)
    (<[next_sid w := empty_Session addr]> (sessions w)) (next_sid w + 1) (limiter w) (now w) (log w).

Definition sess (w : world) (sid : Z) : Session := default (empty_Session []) (sessions w !! sid).
Definition upd_sess (w : world) (sid : Z) (f : Session -> Session) : world :=
  set_sess w (<[sid := f (sess w sid)]> (sessions w)).
Definition upd_conn (w : world) (p : ptr) (c : Connection) : world := set_heap w (<[p := c]> (heap w)).

(** ** Programs *)

(** The functions that run as goroutines or loop. *)
Inductive task : Type :=
  | T_connect (addr : gostring)                          (* the /connect handler *)
  | T_acceptStreams (sid : Z)
  | T_handleStream (sid : Z) (s : stream)
  | T_dial (sid : Z) (p : ptr) (connID sockType : Z) (addr : gostring)
  | T_accept (sid : Z) (p : ptr) (connID : Z)
  | T_readLoop (sid : Z) (p : ptr).

(** Errors of net.Conn.Read: a net.Error that is a timeout, io.EOF, another. *)
Inductive read_error := Timeout | ReadEOF | ReadOther.

Inductive prog : Type :=
  | Done
  | Panic
  | Jump (t : task)
  | Go (t : task) (k : prog)
  (* rate limiter *)
  | AcquireSession (addr : gostring) (k : bool -> prog)
  | ReleaseSess (addr : gostring) (k : prog)
  | TryConn (sid : Z) (k : bool -> prog)
  (* WebTransport *)
  | Upgrade (addr : gostring) (k : option Z -> prog)
  | WaitDone (sid : Z) (k : prog)
  | AcceptStream (sid : Z) (k : option stream -> prog)
  | SendEvent (sid : Z) (msgType connID : Z) (data : gobytes) (k : prog)
  (* the map of connections *)
  | Store (sid : Z) (key : Z) (p : ptr) (k : prog)
  | Load (sid : Z) (key : Z) (k : option ptr -> prog)
  | LoadAndDelete (sid : Z) (key : Z) (k : option ptr -> prog)
  | Delete (sid : Z) (key : Z) (k : prog)
  | RangeKeys (sid : Z) (k : list Z -> prog)
  | NextConnID (sid : Z) (k : Z -> prog)
  (* connections *)
  | Alloc (c : Connection) (k : ptr -> prog)
  | Lock (p : ptr) (k : prog)
  | Unlock (p : ptr) (k : prog)
  | LoadClosed (p : ptr) (k : bool -> prog)
  | SwapClosed (p : ptr) (k : bool -> prog)
  | GetID (p : ptr) (k : Z -> prog)
  | GetConn (p : ptr) (k : option sock -> prog)
  | SetConn (p : ptr) (s : sock) (k : prog)
  | GetListener (p : ptr) (k : option sock -> prog)
  | GetUdpConn (p : ptr) (k : option sock -> prog)
  (* the network *)
  | LookupHost (host : gostring) (k : result (list IP) -> prog)
  | Dial (sid : Z) (sockType : Z) (addr : gostring) (k : sock + gostring -> prog)
  | Listen (sockType port : Z) (k : sock + gostring -> prog)
  | AcceptConn (l : sock) (k : option (sock * gostring) -> prog)
  | ReadSock (s : sock) (k : gobytes * option read_error -> prog)
  | WriteSock (s : sock) (data : gobytes) (k : prog)
  | CloseSock (s : sock) (k : prog).

(** ** The functions *)

(** [if c != nil { c.Close() }] *)
Definition close_opt (v : option sock) (k : prog) : prog :=
  match v with Some s => CloseSock s k | None => k end.

(** Connection.Close *)
Definition Close (p : ptr) (k : prog) : prog :=
  SwapClosed p (fun already =>
    if already then k else
    Lock p (
    GetConn p (fun c => close_opt c (
    GetListener p (fun l => close_opt l (
    GetUdpConn p (fun u => close_opt u (
    Unlock p k)))))))).

(** handleConnect *)
Definition handleConnect (sid : Z) (s : stream) : prog :=
  match read_connect s with
  | Dropped => Done
  | Panicked => Panic
  | Fields (connID, sockType, host, port) _ =>
      let addr := addr_of host port in
      LookupHost host (fun ips =>
        if private_answer ips then
          SendEvent sid MsgConnectError connID (str "connection to private addresses not allowed") Done
        else
          TryConn sid (fun allowed =>
            if negb allowed then
              SendEvent sid MsgConnectError connID (str "daily connection limit exceeded") Done
            else
              Alloc (new_Connection connID sockType None None None) (fun conn =>
              Store sid connID conn (
              Go (T_dial sid conn connID sockType addr) Done))))
  end.

(** The goroutine that handleConnect starts. *)
Definition dial (sid : Z) (conn : ptr) (connID sockType : Z) (addr : gostring) : prog :=
  Dial sid sockType addr (fun r =>
    match r with
    | inr err => SendEvent sid MsgConnectError connID err (Delete sid connID Done)
    | inl netConn =>
        Lock conn (
        LoadClosed conn (fun closed =>
          if closed then CloseSock netConn (Unlock conn Done)
          else
            SetConn conn netConn (
            Unlock conn (
            SendEvent sid MsgConnected connID [] (
            Go (T_readLoop sid conn) Done)))))
    end).

(** handleBind.  The new Connection is not shared until it is stored, so it is
    allocated here with the field that the source assigns to it. *)
Definition handleBind (sid : Z) (s : stream) : prog :=
  match read_bind s with
  | Dropped => Done
  | Panicked => Panic
  | Fields (connID, sockType, port) _ =>
      Listen sockType port (fun r =>
        match r with
        | inr err => SendEvent sid MsgError connID err Done
        | inl l =>
            Alloc (if sockType =? SOCK_STREAM
                   then new_Connection connID sockType None (Some l) None
                   else new_Connection connID sockType None None (Some l)) (fun conn =>
            Store sid connID conn (
            SendEvent sid MsgConnected connID [] Done))
        end)
  end.

(** handleListen *)
Definition handleListen (sid : Z) (s : stream) : prog :=
  match read_listen s with
  | Dropped => Done
  | Panicked => Panic
  | Fields connID _ =>
      Load sid connID (fun v =>
        match v with
        | None => Done
        | Some conn =>
            GetListener conn (fun l =>
              match l with
              | None => Done
              | Some _ => Go (T_accept sid conn connID) Done
              end)
        end)
  end.

(** One round of the accepting goroutine that handleListen starts.  A nil
    listener or an address that does not fit the payload would panic. *)
Definition accept_round (sid : Z) (conn : ptr) (connID : Z) : prog :=
  GetListener conn (fun l =>
    match l with
    | None => Panic
    | Some l =>
        AcceptConn l (fun r =>
          match r with
          | None =>
              LoadClosed conn (fun closed =>
                if closed then Done else Jump (T_accept sid conn connID))
          | Some (netConn, remoteAddr) =>
              NextConnID sid (fun newConnID =>
              Alloc (new_Connection newConnID SOCK_STREAM (Some netConn) None None) (fun newConn =>
              Store sid newConnID newConn (
              match accept_payload connID newConnID remoteAddr with
              | None => Panic
              | Some payload =>
                  SendEvent sid MsgAccept newConnID payload (
                  Go (T_readLoop sid newConn) (
                  Jump (T_accept sid conn connID)))
              end)))
          end)
    end).

(** handleSend *)
Definition handleSend (sid : Z) (s : stream) : prog :=
  match read_send s with
  | Dropped => Done
  | Panicked => Panic
  | Fields (connID, data) _ =>
      Load sid connID (fun v =>
        match v with
        | None => Done
        | Some conn =>
            Lock conn (
            GetConn conn (fun netConn =>
            Unlock conn (
            match netConn with
            | None => Done
            | Some netConn => WriteSock netConn data Done
            end)))
        end)
  end.

(** handleClose *)
Definition handleClose (sid : Z) (s : stream) : prog :=
  match read_close s with
  | Dropped => Done
  | Panicked => Panic
  | Fields connID _ =>
      LoadAndDelete sid connID (fun v =>
        let k := SendEvent sid MsgClosed connID [] Done in
        match v with
        | None => k
        | Some conn => Close conn k
        end)
  end.

(** handleStream *)
Definition handleStream (sid : Z) (s : stream) : prog :=
  match read_msgType s with
  | None => Done
  | Some (msgType, s) =>
      if msgType =? MsgConnect then handleConnect sid s
      else if msgType =? MsgBind then handleBind sid s
      else if msgType =? MsgListen then handleListen sid s
      else if msgType =? MsgSend then handleSend sid s
      else if msgType =? MsgClose then handleClose sid s
      else Done
  end.

(** One round of readLoop.  The bytes that come with an error are dropped. *)
Definition readLoop_round (sid : Z) (conn : ptr) : prog :=
  LoadClosed conn (fun closed =>
    if closed then Done else
    Lock conn (
    GetConn conn (fun netConn =>
    Unlock conn (
    match netConn with
    | None => Done
    | Some netConn =>
        ReadSock netConn (fun '(data, err) =>
          match err with
          | Some Timeout => Jump (T_readLoop sid conn)
          | Some ReadEOF => GetID conn (fun id => SendEvent sid MsgClosed id [] Done)
          | Some ReadOther =>
              LoadClosed conn (fun _ => GetID conn (fun id => SendEvent sid MsgClosed id [] Done))
          | None =>
              if 0 <? len data then
                GetID conn (fun id =>
                SendEvent sid MsgData id data (
                Jump (T_readLoop sid conn)))
              else Jump (T_readLoop sid conn)
          end)
    end)))).

(** One round of acceptStreams: both error branches return. *)
Definition acceptStreams_round (sid : Z) : prog :=
  AcceptStream sid (fun r =>
    match r with
    | None => Done
    | Some stream => Go (T_handleStream sid stream) (Jump (T_acceptStreams sid))
    end).

(** The callback of [connections.Range], over the keys of the map. *)
Fixpoint cleanup (sid : Z) (keys : list Z) (k : prog) : prog :=
  match keys with
  | [] => k
  | key :: keys =>
      Load sid key (fun v =>
        match v with
        | Some conn => Close conn (cleanup sid keys k)
        | None => cleanup sid keys k
        end)
  end.

(** handleSession *)
Definition handleSession (sid : Z) (remoteIP : gostring) : prog :=
  Go (T_acceptStreams sid) (
  WaitDone sid (
  RangeKeys sid (fun keys =>
  cleanup sid keys (
  ReleaseSess remoteIP Done)))).

(** Server.Run: the handler of /connect. *)
Definition connect_handler (addr : gostring) : prog :=
  AcquireSession addr (fun ok =>
    if negb ok then Done else
    Upgrade addr (fun r =>
      match r with
      | None => ReleaseSess addr Done
      | Some sid => handleSession sid addr
      end)).

Definition body (t : task) : prog :=
  match t with
  | T_connect addr => connect_handler addr
  | T_acceptStreams sid => acceptStreams_round sid
  | T_handleStream sid s => handleStream sid s
  | T_dial sid p connID sockType addr => dial sid p connID sockType addr
  | T_accept sid p connID => accept_round sid p connID
  | T_readLoop sid p => readLoop_round sid p
  end.

(** ** The meaning of the operations *)

(** What the outside answers to an operation. *)
Inductive answer : Type :=
  | A_none
  | A_ok (b : bool)
  | A_stream (s : option stream)
  | A_keys (l : list Z)
  | A_lookup (lk : gostring -> gostring -> result (list IPAddr))
  | A_err (msg : gostring)
  | A_peer (addr : gostring)
  | A_read (data : gobytes) (err : option read_error).

(** A stream from a client carries bytes; a read fills at most the 65536 bytes of
    the buffer; Range visits the keys in some order. *)
Definition perform (w : world) (g : prog) (a : answer) : option (world * prog * option task) :=
  match g, a with
  | Jump t, A_none => Some (w, body t, None)
  | Go t k, A_none => Some (w, k, Some t)
  | AcquireSession addr k, A_none =>
      let '(ok, rl) := TryAcquireSession (limiter w) addr in Some (set_limiter w rl, k ok, None)
  | ReleaseSess addr k, A_none => Some (set_limiter w (ReleaseSession (limiter w) addr), k, None)
  | TryConn sid k, A_none =>
      let '(ok, rl) := TryConnection (limiter w) (now w) (remoteIP (sess w sid)) in
      let w := set_limiter w rl in
      Some (if ok then add_log w (Granted sid) else w, k ok, None)
  | Upgrade addr k, A_ok ok =>
      if ok then Some (new_sess w addr, k (Some (next_sid w)), None) else Some (w, k None, None)
  | WaitDone sid k, A_none => Some (w, k, None)
  | AcceptStream sid k, A_stream o =>
      match o with
      | None => Some (w, k None, None)
      | Some s =>
          if decide (bytes_ok (pending s)) then Some (add_log w (Took sid s), k (Some s), None)
          else None
      end
  | SendEvent sid msgType connID data k, A_ok opened =>
      Some (if opened then upd_sess w sid (fun s => add_sent s (msgType, connID, data)) else w, k, None)
  | Store sid key p k, A_none =>
      Some (upd_sess w sid (fun s => set_connections_map s (<[key := p]> (connections s))), k, None)
  | Load sid key k, A_none => Some (w, k (connections (sess w sid) !! key), None)
  | LoadAndDelete sid key k, A_none =>
      Some (upd_sess w sid (fun s => set_connections_map s (delete key (connections s))),
            k (connections (sess w sid) !! key), None)
  | Delete sid key k, A_none =>
      Some (upd_sess w sid (fun s => set_connections_map s (delete key (connections s))), k, None)
  | RangeKeys sid k, A_keys l =>
      if decide (NoDup l /\ list_to_set l = dom (connections (sess w sid))) then Some (w, k l, None)
      else None
  | NextConnID sid k, A_none =>
      let n := u32 (nextConnID (sess w sid) + 1) in
      Some (upd_sess w sid (fun s => set_nextConnID s n), k n, None)
  | Alloc c k, A_none => Some (alloc w c, k (next_ptr w), None)
  | Lock p k, A_none =>
      c ← heap w !! p;
      if locked c then None else Some (upd_conn w p (set_locked c true), k, None)
  | Unlock p k, A_none =>
      c ← heap w !! p; Some (upd_conn w p (set_locked c false), k, None)
  | LoadClosed p k, A_none => c ← heap w !! p; Some (w, k (closed c), None)
  | SwapClosed p k, A_none =>
      c ← heap w !! p; Some (upd_conn w p (set_closed c true), k (closed c), None)
  | GetID p k, A_none => c ← heap w !! p; Some (w, k (id c), None)
  | GetConn p k, A_none => c ← heap w !! p; Some (w, k (conn c), None)
  | SetConn p s k, A_none => c ← heap w !! p; Some (upd_conn w p (set_conn c (Some s)), k, None)
  | GetListener p k, A_none => c ← heap w !! p; Some (w, k (listener c), None)
  | GetUdpConn p k, A_none => c ← heap w !! p; Some (w, k (udpConn c), None)
  | LookupHost host k, A_lookup lk =>
      let ips := LookupIP lk host in Some (add_log w (Looked host ips), k ips, None)
  | Dial sid sockType addr k, A_ok true =>
      Some (new_sock (add_log w (Dialed sid sockType addr)), k (inl (next_sock w)), None)
  | Dial sid sockType addr k, A_err msg =>
      Some (add_log w (Dialed sid sockType addr), k (inr msg), None)
  | Listen sockType port k, A_ok true => Some (new_sock w, k (inl (next_sock w)), None)
  | Listen sockType port k, A_err msg => Some (w, k (inr msg), None)
  | AcceptConn l k, A_peer addr =>
      if decide (l ∈ open w) then Some (new_sock w, k (Some (next_sock w, addr)), None) else None
  | AcceptConn l k, A_none => Some (w, k None, None)
  | ReadSock s k, A_read data err =>
      if decide (len data <= 65536) then Some (w, k (data, err), None) else None
  | WriteSock s data k, A_ok _ => Some (w, k, None)
  | CloseSock s k, A_none => Some (set_open w (open w ∖ {[s]}), k, None)
  | _, _ => None
  end.

(** ** Interleaving

    A goroutine; [origin] is the address of the request for the goroutines in
    which net/http runs the /connect handler. *)
Record goroutine := mk_goroutine { origin : option gostring; code : prog }.

Record config := mk_config { wld : world; gos : list goroutine }.

Definition spawned (t : option task) : list goroutine :=
  match t with Some t => [mk_goroutine None (Jump t)] | None => [] end.

(** A panic in any goroutine ends the process. *)
Definition crashed (c : config) : bool :=
  existsb (fun g => match code g with Panic => true | _ => false end) (gos c).

Inductive step : config -> config -> Prop :=
  | step_run w gs i g a w' k t :
      gs !! i = Some g -> perform w (code g) a = Some (w', k, t) ->
      crashed (mk_config w gs) = false ->
      step (mk_config w gs)
        (mk_config w' (<[i := mk_goroutine (origin g) k]> gs ++ spawned t))
  | step_request w gs addr :
      step (mk_config w gs)
        (mk_config w (gs ++ [mk_goroutine (Some addr) (Jump (T_connect addr))]))
  | step_tick w gs t :
      now w <= t -> step (mk_config w gs) (mk_config (set_now w t) gs).

(** The server just started, with the limits of the command line. *)
Definition initial (maxSessions maxConns now : Z) : config :=
  mk_config (mk_world ∅ 0 ∅ 0 ∅ 0 (NewRateLimiter maxSessions maxConns) now []) [].

Definition reachable (ms mc t0 : Z) : config -> Prop := rtc step (initial ms mc t0).

(** Running a schedule: the goroutine to run and the answer it gets. *)
Inductive move : Type :=
  | Run (i : nat) (a : answer)
  | Request (addr : gostring)
  | Tick (t : Z).

Definition do_move (c : config) (m : move) : option config :=
  match m with
  | Run i a =>
      if crashed c then None else
      g ← gos c !! i;
      '(w', k, t) ← perform (wld c) (code g) a;
      Some (mk_config w' (<[i := mk_goroutine (origin g) k]> (gos c) ++ spawned t))
  | Request addr => Some (mk_config (wld c) (gos c ++ [mk_goroutine (Some addr) (Jump (T_connect addr))]))
  | Tick t => if now (wld c) <=? t then Some (mk_config (set_now (wld c) t) (gos c)) else None
  end.

Fixpoint schedule (c : config) (ms : list move) : option config :=
  match ms with
  | [] => Some c
  | m :: ms => c ← do_move c m; schedule c ms
  end.

Lemma do_move_step c m c' : do_move c m = Some c' -> step c c'.
Proof.
  destruct c as [w gs], m as [i a|addr|t]; simpl.
  - destruct (crashed _) eqn:Hc; [done|]. destruct (gs !! i) as [g|] eqn:Hg; [|done]. simpl.
    destruct (perform w (code g) a) as [[[w' k] t]|] eqn:Hp; [|done]. simpl. intros [= <-].
    by eapply step_run.
  - intros [= <-]. constructor.
  - destruct (_ <=? _) eqn:E; [|done]. zbool. intros [= <-]. by constructor.
Qed.

Lemma schedule_rtc c ms c' : schedule c ms = Some c' -> rtc step c c'.
Proof.
  revert c. induction ms as [|m ms IH]; intros c; simpl.
  - intros [= ->]. apply rtc_refl.
  - destruct (do_move c m) as [c1|] eqn:E; [|done]. simpl. intros H.
    eapply rtc_l; [by apply do_move_step in E|by apply IH].
Qed.
