(* ===== verification/ProxyTyping.v ===== *)
(** * friscy-proxy: what each goroutine may do

    A typing discipline for the programs of [Proxy]: at each point a goroutine
    has a [role], which says which mutex it holds and at what stage of a critical
    section it is, which socket it has opened and not yet stored anywhere, and
    which right or obligation it carries.  [typed] says that the rest of a program
    respects its role, whatever the answers; [body_typed] that every function of
    the proxy does. *)

From S2P Require Import Prelude ByteOrder GoIO Varint HostPort NetIP NetipAddr RateLimiter Wire Resolve Proxy.

Local Set Warnings "-clear-no-such-hyp".

(** ** Roles *)

(** [Held]: holds the mutex of a connection.  [Fresh]: and has seen it not closed.
    [Owe]: has set [closed] and must now close the sockets.  [Closing p n]: holds
    the mutex and has dealt with the first [n] fields.  [Must p s n]: the same, and
    must close [s], found in field [n-1]. *)
Inductive lockstate : Type :=
  | Free
  | Held (p : ptr)
  | Fresh (p : ptr)
  | Owe (p : ptr)
  | Closing (p : ptr) (n : nat)
  | Must (p : ptr) (s : sock) (n : nat).

(** A slot of the session limit; a granted connection; the same once its
    Connection exists; the right to set its [conn]. *)
Inductive token : Type :=
  | TSession (addr : gostring)
  | TGrant (sid : Z)
  | TDial (sid : Z) (p : ptr)
  | TRight (p : ptr).

Record role := mk_role { lk : lockstate; own : option sock; tok : option token }.

Definition idle : role := mk_role Free None None.
Definition set_lk (r : role) (l : lockstate) : role := mk_role l (own r) (tok r).
Definition set_own (r : role) (o : option sock) : role := mk_role (lk r) o (tok r).
Definition set_tok (r : role) (t : option token) : role := mk_role (lk r) (own r) t.

Definition closing_next (p : ptr) (n : nat) (v : option sock) : lockstate :=
  match v with None => Closing p n | Some s => Must p s n end.

(** The socket fields in the order in which Close looks at them. *)
Definition field (c : Connection) (n : nat) : option sock :=
  match n with O => conn c | 1%nat => listener c | 2%nat => udpConn c | _ => None end.

(** ** What a goroutine may rely on

    The parts of connections that never change, and the log, which only grows. *)
Record statics := mk_statics { st_id : Z; st_listener : option sock; st_udpConn : option sock }.
Definition stat (c : Connection) : statics := mk_statics (id c) (listener c) (udpConn c).

Record context := mk_context { ptrs : gmap ptr statics; seen : list obs }.

Definition add_ptr (c : context) (p : ptr) (s : statics) : context :=
  mk_context (<[p := s]> (ptrs c)) (seen c).
Definition add_seen (c : context) (e : obs) : context := mk_context (ptrs c) (seen c ++ [e]).

Definition extends (c c' : context) : Prop := ptrs c ⊆ ptrs c' /\ seen c ⊆ seen c'.

(** A connect message for this host, port and type came in on the session. *)
Definition requested (l : list obs) (sid sockType : Z) (host : gostring) (port : Z) : Prop :=
  exists s s1 s2 connID,
    Took sid s ∈ l /\ read_msgType s = Some (MsgConnect, s1) /\
    read_connect s1 = Fields (connID, sockType, host, port) s2.

(** The address was formatted from a host that a client asked for and that was looked up
    with an answer that holds no blocked address. *)
Definition cleared (l : list obs) (sid sockType : Z) (addr : gostring) : Prop :=
  exists host port answer,
    addr = addr_of host port /\ requested l sid sockType host port /\
    Looked host answer ∈ l /\ private_answer answer = false.

(** A connect message whose host length overflows. *)
Definition overflows (s : stream) : Prop :=
  exists s', read_msgType s = Some (MsgConnect, s') /\ host_overflow (pending s').

(** What a function needs when it starts. *)
Definition task_ok (c : context) (o : option gostring) (t : task) (tk : option token) : Prop :=
  match t with
  | T_connect addr => tk = None /\ o = Some addr
  | T_acceptStreams sid => tk = None
  | T_handleStream sid s => tk = None /\ bytes_ok (pending s) /\ Took sid s ∈ seen c
  | T_dial sid p connID sockType addr =>
      tk = Some (TDial sid p) /\ is_Some (ptrs c !! p) /\ cleared (seen c) sid sockType addr
  | T_accept sid p connID => tk = None /\ exists st, ptrs c !! p = Some st /\ st_listener st <> None
  | T_readLoop sid p => tk = None /\ is_Some (ptrs c !! p)
  end.

(** ** The discipline *)

(** Neither a mutex nor a loose socket: what every operation that may wait for
    the network or for a client requires. *)
Definition free (r : role) : Prop := lk r = Free /\ own r = None.

(** The token after an allocation. *)
Definition alloc_tok (t : option token) (p : ptr) : option token :=
  match t with Some (TGrant sid) => Some (TDial sid p) | t => t end.

Fixpoint typed (c : context) (o : option gostring) (r : role) (g : prog) {struct g} : Prop :=
  match g with
  | Done => free r /\ match tok r with None | Some (TRight _) => True | _ => False end
  | Panic => exists sid s, Took sid s ∈ seen c /\ overflows s
  | Jump t => free r /\ task_ok c o t (tok r)
  | Go t k =>
      free r /\ ((task_ok c None t None /\ typed c o r k) \/
                 (task_ok c None t (tok r) /\ typed c o idle k))
  | AcquireSession addr k =>
      r = idle /\ o = Some addr /\
      typed c o (mk_role Free None (Some (TSession addr))) (k true) /\ typed c o idle (k false)
  | ReleaseSess addr k => r = mk_role Free None (Some (TSession addr)) /\ typed c o idle k
  | TryConn sid k =>
      r = idle /\ typed c o (mk_role Free None (Some (TGrant sid))) (k true) /\ typed c o idle (k false)
  | Upgrade _ k => free r /\ forall v, typed c o r (k v)
  | WaitDone _ k => free r /\ typed c o r k
  | AcceptStream sid k =>
      free r /\ typed c o r (k None) /\
      forall s, bytes_ok (pending s) -> typed (add_seen c (Took sid s)) o r (k (Some s))
  | SendEvent _ _ _ _ k => free r /\ typed c o r k
  | Store _ key p k => free r /\ (exists st, ptrs c !! p = Some st /\ st_id st = key) /\ typed c o r k
  | Load _ key k | LoadAndDelete _ key k =>
      free r /\ typed c o r (k None) /\
      forall c' p st, extends c c' -> ptrs c' !! p = Some st -> st_id st = key -> typed c' o r (k (Some p))
  | Delete _ _ k => free r /\ typed c o r k
  | RangeKeys _ k => free r /\ forall l, typed c o r (k l)
  | NextConnID _ k => lk r = Free /\ forall n, typed c o r (k n)
  | Alloc con k =>
      lk r = Free /\ closed con = false /\ locked con = false /\
      (forall s, own r = Some s <-> exists n, field con n = Some s) /\
      (forall sid, tok r = Some (TGrant sid) -> conn con = None) /\
      forall p, ptrs c !! p = None ->
        typed (add_ptr c p (stat con)) o (mk_role Free None (alloc_tok (tok r) p)) (k p)
  | Lock p k =>
      is_Some (ptrs c !! p) /\
      match lk r with
      | Free => typed c o (set_lk r (Held p)) k
      | Owe q => q = p /\ typed c o (set_lk r (Closing p 0)) k
      | _ => False
      end
  | Unlock p k =>
      match lk r with
      | Held q | Fresh q => q = p /\ typed c o (set_lk r Free) k
      | Closing q n => q = p /\ n = 3%nat /\ typed c o (set_lk r Free) k
      | _ => False
      end
  | LoadClosed p k =>
      is_Some (ptrs c !! p) /\
      match lk r with
      | Free => typed c o r (k true) /\ typed c o r (k false)
      | Held q => q = p /\ typed c o r (k true) /\ typed c o (set_lk r (Fresh p)) (k false)
      | _ => False
      end
  | SwapClosed p k =>
      is_Some (ptrs c !! p) /\ free r /\ typed c o r (k true) /\ typed c o (set_lk r (Owe p)) (k false)
  | GetID p k => free r /\ exists st, ptrs c !! p = Some st /\ typed c o r (k (st_id st))
  | GetConn p k =>
      match lk r with
      | Held q => q = p /\ forall v, typed c o r (k v)
      | Closing q n => q = p /\ n = 0%nat /\ forall v, typed c o (set_lk r (closing_next p 1 v)) (k v)
      | _ => False
      end
  | SetConn p s k =>
      r = mk_role (Fresh p) (Some s) (Some (TRight p)) /\
      typed c o (mk_role (Fresh p) None None) k
  | GetListener p k =>
      exists st, ptrs c !! p = Some st /\
      match lk r with
      | Free => typed c o r (k (st_listener st))
      | Closing q n => q = p /\ n = 1%nat /\
          typed c o (set_lk r (closing_next p 2 (st_listener st))) (k (st_listener st))
      | _ => False
      end
  | GetUdpConn p k =>
      exists st, ptrs c !! p = Some st /\
      match lk r with
      | Closing q n => q = p /\ n = 2%nat /\
          typed c o (set_lk r (closing_next p 3 (st_udpConn st))) (k (st_udpConn st))
      | _ => False
      end
  | LookupHost host k => free r /\ forall a, typed (add_seen c (Looked host a)) o r (k a)
  | Dial sid sockType addr k =>
      free r /\ cleared (seen c) sid sockType addr /\
      exists p, tok r = Some (TDial sid p) /\
        (forall s, typed c o (mk_role Free (Some s) (Some (TRight p))) (k (inl s))) /\
        (forall m, typed c o (mk_role Free None (Some (TRight p))) (k (inr m)))
  | Listen _ _ k =>
      free r /\ (forall s, typed c o (set_own r (Some s)) (k (inl s))) /\ forall m, typed c o r (k (inr m))
  | AcceptConn _ k =>
      free r /\ (forall s a, typed c o (set_own r (Some s)) (k (Some (s, a)))) /\ typed c o r (k None)
  | ReadSock _ k => free r /\ forall x, typed c o r (k x)
  | WriteSock _ _ k => free r /\ typed c o r k
  | CloseSock s k =>
      match lk r with
      | Must p s' n => s' = s /\ typed c o (set_lk r (Closing p n)) k
      | _ => own r = Some s /\ typed c o (set_own r None) k
      end
  end.

(** ** Weakening *)

Lemma extends_refl c : extends c c.
Proof. split; done. Qed.
Lemma extends_trans c1 c2 c3 : extends c1 c2 -> extends c2 c3 -> extends c1 c3.
Proof. intros [??] [??]. split; by etrans. Qed.
Lemma extends_add_seen c e : extends c (add_seen c e).
Proof. split; [done|]. simpl. set_solver. Qed.
Lemma extends_seen c c' e : extends c c' -> extends (add_seen c e) (add_seen c' e).
Proof. intros [??]. split; [done|]. simpl. set_solver. Qed.
Lemma extends_ptr c c' p s : extends c c' -> extends (add_ptr c p s) (add_ptr c' p s).
Proof. intros [??]. split; [|done]. simpl. by apply insert_mono. Qed.

Lemma ptrs_mono c c' p st : extends c c' -> ptrs c !! p = Some st -> ptrs c' !! p = Some st.
Proof. intros [H _] ?. by eapply lookup_weaken. Qed.
Lemma ptrs_is_Some_mono c c' p : extends c c' -> is_Some (ptrs c !! p) -> is_Some (ptrs c' !! p).
Proof. intros H [st Hst]. exists st. by apply (ptrs_mono c). Qed.

Lemma cleared_mono l l' sid ty addr : l ⊆ l' -> cleared l sid ty addr -> cleared l' sid ty addr.
Proof.
  intros Hl (h & p & a & ? & (s & s1 & s2 & id & ? & ? & ?) & ? & ?). exists h, p, a.
  split_and!; [done| |by apply Hl|done]. exists s, s1, s2, id. split_and!; [by apply Hl|done|done].
Qed.

#[export] Hint Resolve extends_refl extends_add_seen extends_seen extends_ptr ptrs_mono
  ptrs_is_Some_mono : proxy.

Lemma task_ok_mono c c' o t tk : extends c c' -> task_ok c o t tk -> task_ok c' o t tk.
Proof.
  intros He. destruct t; simpl; try done.
  - intros (? & ? & ?). split_and!; [done|done|]. by apply He.
  - intros (? & ? & ?). split_and!; [done|eauto with proxy|]. eapply cleared_mono; [apply He|done].
  - intros (? & st & ? & ?). split; [done|]. exists st. eauto with proxy.
  - intros (? & ?). eauto with proxy.
Qed.

Lemma typed_mono cx cx' o r g : extends cx cx' -> typed cx o r g -> typed cx' o r g.
Proof.
  revert cx cx' r. induction g; intros cx cx' r He; simpl.
  - done.
  - intros (sid & s & ? & ?). exists sid, s. split; [by apply He|done].
  - intros [? ?]. eauto using task_ok_mono.
  - intros [? [[? ?]|[? ?]]]; eauto 6 using task_ok_mono.
  - naive_solver.
  - naive_solver.
  - naive_solver.
  - naive_solver.
  - naive_solver.
  - intros (? & ? & Hs). split_and!; eauto. intros s' Hs'. eauto with proxy.
  - naive_solver.
  - intros (? & (st & ? & ?) & ?). split_and!; eauto with proxy.
  - intros (? & ? & Hl). split_and!; eauto. intros. eapply Hl; eauto using extends_trans.
  - intros (? & ? & Hl). split_and!; eauto. intros. eapply Hl; eauto using extends_trans.
  - naive_solver.
  - naive_solver.
  - naive_solver.
  - intros (? & ? & ? & ? & ? & Hp). split_and!; eauto. intros p Hn.
    eapply H; [by apply extends_ptr|]. apply Hp. destruct He as [He _]. by eapply lookup_weaken_None.
  - intros [? Hl]. split; [eauto with proxy|]. destruct (lk r); naive_solver.
  - destruct (lk r); naive_solver.
  - intros [? Hl]. split; [eauto with proxy|]. destruct (lk r); naive_solver.
  - intros (? & ? & ? & ?). split_and!; eauto with proxy.
  - intros (? & st & ? & ?). split; [done|]. exists st. eauto with proxy.
  - destruct (lk r); naive_solver.
  - naive_solver.
  - intros (st & ? & Hl). exists st. split; [eauto with proxy|]. destruct (lk r); naive_solver.
  - intros (st & ? & Hl). exists st. split; [eauto with proxy|]. destruct (lk r); naive_solver.
  - intros [? Hl]. eauto with proxy.
  - intros (? & ? & p & ? & ? & ?). split_and!; [done|eapply cleared_mono; [apply He|done]|]. eauto 8.
  - naive_solver.
  - naive_solver.
  - naive_solver.
  - naive_solver.
  - destruct (lk r); naive_solver.
Qed.

(** ** Every function is typed *)

Lemma Close_typed c o r p k :
  free r -> is_Some (ptrs c !! p) -> typed c o r k -> typed c o r (Close p k).
Proof.
  destruct r as [l w t]. intros [Hl Ho] [st Hst] Hk. simpl in Hl, Ho. subst. cbn.
  split; [eauto|]. split; [done|]. split; [done|]. split; [eauto|]. split; [done|].
  split; [done|]. split; [done|]. intros v.
  assert (typed c o (mk_role (Closing p 1) None t) (GetListener p (fun l => close_opt l (
    GetUdpConn p (fun u => close_opt u (Unlock p k)))))) as H1.
  { cbn. exists st. split; [done|]. split; [done|]. split; [done|].
    assert (typed c o (mk_role (Closing p 2) None t) (GetUdpConn p (fun u => close_opt u (Unlock p k)))) as H2.
    { cbn. exists st. split; [done|]. split; [done|]. split; [done|].
      destruct (st_udpConn st); cbn; split_and!; done. }
    destruct (st_listener st); cbn; [split; [done|]|]; exact H2. }
  destruct v; cbn; [split; [done|]|]; exact H1.
Qed.

(** A reader of bytes delivers bytes. *)
Lemma ReadUvarint_loop_suffix k (r : byteReader stream) i x s :
  pending (inner (ReadUvarint_loop k r i x s).1) `suffix_of` pending (inner r).
Proof.
  revert r i x s. induction k as [|k IH]; intros [st] i x s; simpl; [done|].
  destruct (stream_Read_spec st 1 ltac:(lia)) as (st' & d & e & HR & Hp & _).
  unfold ReadByte, byteReader_ReadByte. simpl. rewrite HR.
  assert (pending st' `suffix_of` pending st) as Hs by (by exists d).
  repeat case_match; simpl; try done. etrans; [apply IH|done].
Qed.

Lemma read_msgType_bytes s x s' :
  read_msgType s = Some (x, s') -> bytes_ok (pending s) -> bytes_ok (pending s').
Proof.
  unfold read_msgType. pose proof (ReadUvarint_loop_suffix 10 (byteReader_of s) 0 0 0) as H.
  fold (ReadUvarint (byteReader_of s)) in H.
  destruct (ReadUvarint (byteReader_of s)) as [[s1] [v [e|]]]; [done|].
  intros [= <- <-]. simpl in *. destruct H as [l ->]. by intros [_ ?]%Forall_app.
Qed.

Lemma handleConnect_typed c o sid s :
  bytes_ok (pending s) ->
  (exists s0, Took sid s0 ∈ seen c /\ read_msgType s0 = Some (MsgConnect, s)) ->
  typed c o idle (handleConnect sid s).
Proof.
  intros Hok (s0 & Ht & Hm). unfold handleConnect. destruct (read_connect s) as [[[[id ty] h] port] s'| |] eqn:Er.
  - cbn. split; [done|]. intros a. destruct (private_answer a) eqn:Ea; cbn; [done|].
    split; [done|]. split; [|done]. split; [done|]. split; [done|]. split; [done|]. split.
    { intros x. split; [done|]. by intros [[|[|[|n]]] ?]. }
    split; [done|]. intros p Hn. split; [done|]. split.
    { exists (mk_statics id None None). by rewrite lookup_insert_eq. }
    split; [done|]. right. split; [|done]. split; [done|]. split.
    + rewrite lookup_insert_eq. eauto.
    + exists h, port, a. split_and!; [done| |set_solver|done]. exists s0, s, s', id. split_and!; [|done..]. set_solver.
  - done.
  - exists sid, s0. split; [done|]. exists s. split; [done|]. by apply read_connect_panics.
Qed.

Lemma handleBind_typed c o sid s : bytes_ok (pending s) -> typed c o idle (handleBind sid s).
Proof.
  intros Hok. unfold handleBind. pose proof (read_bind_decodes s Hok) as Hd.
  destruct (read_bind s) as [[[id ty] port] s'| |]; [|done|done]. clear Hd.
  cbn. split; [done|]. split; [|done]. intros l. split; [done|].
  destruct (ty =? SOCK_STREAM); cbn.
  all: split; [done|]; split; [done|]; split; [|split; [done|]].
  1,3: intros x; split; [intros [= <-]|intros [[|[|[|n]]] E]; simplify_eq/=; done].
  1: by exists 1%nat. 1: by exists 2%nat.
  all: intros p Hn; split; [done|]; split; [|done]; rewrite lookup_insert_eq; eauto.
Qed.

Lemma handleListen_typed c o sid s : bytes_ok (pending s) -> typed c o idle (handleListen sid s).
Proof.
  intros Hok. unfold handleListen. pose proof (read_listen_decodes s Hok) as Hd.
  destruct (read_listen s) as [id s'| |]; [|done|done]. clear Hd.
  cbn. split; [done|]. split; [done|]. intros c' p st He Hst Hid. exists st. split; [done|].
  destruct (st_listener st) eqn:El; cbn; [|done]. split; [done|]. left. split; [|done].
  split; [done|]. exists st. split; [done|]. congruence.
Qed.

Lemma handleSend_typed c o sid s : bytes_ok (pending s) -> typed c o idle (handleSend sid s).
Proof.
  intros Hok. unfold handleSend. pose proof (read_send_decodes s Hok) as Hd.
  destruct (read_send s) as [[id d] s'| |]; [|done|done]. clear Hd.
  cbn. split; [done|]. split; [done|]. intros c' p st He Hst Hid. split; [eauto|].
  split; [done|]. intros [v|]; done.
Qed.

Lemma handleClose_typed c o sid s : bytes_ok (pending s) -> typed c o idle (handleClose sid s).
Proof.
  intros Hok. unfold handleClose. pose proof (read_close_decodes s Hok) as Hd.
  destruct (read_close s) as [id s'| |]; [|done|done]. clear Hd.
  cbn [typed]. split; [done|]. split; [done|]. intros c' p st He Hst Hid.
  apply Close_typed; [done|eauto|done].
Qed.

Lemma handleStream_typed c o sid s :
  bytes_ok (pending s) -> Took sid s ∈ seen c -> typed c o idle (handleStream sid s).
Proof.
  intros Hok Ht. unfold handleStream. destruct (read_msgType s) as [[x s']|] eqn:E; [|done].
  pose proof (read_msgType_bytes s x s' E Hok).
  destruct (x =? MsgConnect) eqn:Ex; zbool.
  { apply handleConnect_typed; [done|]. exists s. by subst. }
  repeat case_match;
    auto using handleBind_typed, handleListen_typed, handleSend_typed, handleClose_typed. done.
Qed.

Lemma cleanup_typed c o r sid keys k :
  free r -> (forall c', extends c c' -> typed c' o r k) -> typed c o r (cleanup sid keys k).
Proof.
  intros Hf. revert c. induction keys as [|key keys IH]; intros c Hk; cbn [cleanup].
  { auto with proxy. }
  cbn [typed]. split; [done|]. split.
  - by apply IH.
  - intros c' p st He Hst Hid. apply Close_typed; [done|eauto|]. apply IH.
    intros c'' He'. apply Hk. by eapply extends_trans.
Qed.

Lemma body_typed c o t tk : task_ok c o t tk -> typed c o (mk_role Free None tk) (body t).
Proof.
  destruct t as [addr|sid|sid s|sid p connID sockType addr|sid p connID|sid p]; cbn [body task_ok].
  - intros [-> ->]. cbn [connect_handler typed]. split; [done|]. split; [done|]. split; [|done].
    cbn [negb typed]. split; [done|]. intros [sid|]; [|done].
    unfold handleSession. cbn [typed]. split; [done|]. left. split; [done|]. split; [done|].
    split; [done|]. intros l. by apply cleanup_typed.
  - intros ->. cbn. split; [done|]. split; [done|]. intros s Hs. split; [done|]. left.
    split; [|done]. split; [done|]. split; [done|]. set_solver.
  - intros (-> & ? & ?). by apply handleStream_typed.
  - intros (-> & Hp & Hc). cbn. split; [done|]. split; [done|]. exists p. split; [done|].
    split; [|done]. intros s. split; [done|]. split; [done|]. split; [done|]. split; [done|].
    split; [done|]. split; [done|]. split; [done|]. split; [done|]. left. done.
  - intros (-> & st & Hst & Hl). cbn. exists st. split; [done|].
    destruct (st_listener st) as [l|] eqn:El; [|done]. cbn. split; [done|]. split.
    2:{ split; [eauto|]. split; [done|]. split; [done|]. split; [done|]. exists st. split; congruence. }
    intros s a. split; [done|]. intros n. split; [done|]. split; [done|]. split; [done|]. split.
    { intros x. split; [intros [= <-]; by exists 0%nat|]. intros [[|[|[|m]]] E]; simplify_eq/=; done. }
    split; [done|]. intros q Hn. split; [done|]. split; [rewrite lookup_insert_eq; eauto|].
    rewrite accept_payload_layout. cbn. split; [done|]. split; [done|]. left.
    split; [split; [done|]; rewrite lookup_insert_eq; eauto|]. split; [done|]. split; [done|].
    exists st. split; [|congruence]. rewrite lookup_insert_ne; [done|]. by intros ->; simplify_eq.
  - intros [-> Hp]. cbn. split; [done|]. split; [done|]. split; [done|]. split; [done|].
    intros [s|]; cbn; [|done]. split; [done|]. split; [done|]. destruct Hp as [st Hst].
    intros [d [[| |]|]]; cbn.
    + split_and!; (done || eauto).
    + split; [done|]. by exists st.
    + split; [eauto|]. split; (split; [done|]; by exists st).
    + destruct (0 <? len d); cbn; [|split_and!; (done || eauto)].
      split; [done|]. exists st. split_and!; (done || eauto).
Qed.
