(* ===== verification/ProxyInv.v ===== *)
(** * friscy-proxy: invariants of every interleaving

    Each step of a typed goroutine has one of a few effects on the shared state
    and on its role ([eff], [perform_eff]).  The invariants of the proxy, over its
    mutexes, sockets, connections, sessions and rate limits, are preserved by every
    effect, hence by every interleaving. *)

From S2P Require Import Prelude ByteOrder GoIO Varint HostPort NetIP NetipAddr RateLimiter Wire Resolve.
From S2P Require Import Proxy ProxyTyping.

Local Set Warnings "-clear-no-such-hyp".

(** ** Effects *)

Definition ctx_of (w : world) : context := mk_context (stat <$> heap w) (log w).

Fixpoint granted (sid : Z) (l : list obs) : Z :=
  match l with
  | [] => 0
  | Granted sid' :: l => (if decide (sid' = sid) then 1 else 0) + granted sid l
  | _ :: l => granted sid l
  end.
Fixpoint dialed (sid : Z) (l : list obs) : Z :=
  match l with
  | [] => 0
  | Dialed sid' _ _ :: l => (if decide (sid' = sid) then 1 else 0) + dialed sid l
  | _ :: l => dialed sid l
  end.

(** Nothing that the invariants below speak of has changed. *)
Record frame (w w' : world) : Prop := {
  frame_heap : heap w' = heap w;
  frame_open : open w' = open w;
  frame_next : next_sock w' = next_sock w;
  frame_sessions : ipSessions (limiter w') = ipSessions (limiter w);
  frame_granted sid : granted sid (log w') = granted sid (log w);
  frame_dialed sid : dialed sid (log w') = dialed sid (log w);
}.

Inductive eff (o : option gostring) (w : world) (r : role) : world -> role -> option role -> Prop :=
  | eff_frame w' : frame w w' -> eff o w r w' r None
  | eff_spawn : free r -> eff o w r w r (Some idle)
  | eff_give : free r -> (forall a, tok r <> Some (TSession a)) -> eff o w r w idle (Some r)
  | eff_lock p c l :
      heap w !! p = Some c -> locked c = false ->
      (lk r = Free /\ l = Held p) \/ (lk r = Owe p /\ l = Closing p 0) ->
      eff o w r (upd_conn w p (set_locked c true)) (set_lk r l) None
  | eff_unlock p c :
      heap w !! p = Some c -> lk r = Held p \/ lk r = Fresh p \/ lk r = Closing p 3 ->
      eff o w r (upd_conn w p (set_locked c false)) (set_lk r Free) None
  | eff_fresh p c :
      heap w !! p = Some c -> lk r = Held p -> closed c = false -> eff o w r w (set_lk r (Fresh p)) None
  | eff_swap p c :
      heap w !! p = Some c -> lk r = Free -> closed c = false ->
      eff o w r (upd_conn w p (set_closed c true)) (set_lk r (Owe p)) None
  | eff_next p c n :
      heap w !! p = Some c -> lk r = Closing p n ->
      eff o w r w (set_lk r (closing_next p (S n) (field c n))) None
  | eff_close_must p s n :
      lk r = Must p s n -> eff o w r (set_open w (open w ∖ {[s]})) (set_lk r (Closing p n)) None
  | eff_close_own s :
      own r = Some s -> eff o w r (set_open w (open w ∖ {[s]})) (set_own r None) None
  | eff_setconn p c s :
      heap w !! p = Some c -> r = mk_role (Fresh p) (Some s) (Some (TRight p)) ->
      eff o w r (upd_conn w p (set_conn c (Some s))) (mk_role (Fresh p) None None) None
  | eff_sock : free r -> eff o w r (new_sock w) (set_own r (Some (next_sock w))) None
  | eff_alloc c :
      lk r = Free -> closed c = false -> locked c = false ->
      (forall s, own r = Some s <-> exists n, field c n = Some s) ->
      (forall sid, tok r = Some (TGrant sid) -> conn c = None) ->
      eff o w r (alloc w c) (mk_role Free None (alloc_tok (tok r) (next_ptr w))) None
  | eff_acquire addr rl :
      r = idle -> o = Some addr -> TryAcquireSession (limiter w) addr = (true, rl) ->
      eff o w r (set_limiter w rl) (mk_role Free None (Some (TSession addr))) None
  | eff_release addr :
      r = mk_role Free None (Some (TSession addr)) ->
      eff o w r (set_limiter w (ReleaseSession (limiter w) addr)) idle None
  | eff_grant sid rl :
      r = idle -> TryConnection (limiter w) (now w) (remoteIP (sess w sid)) = (true, rl) ->
      eff o w r (add_log (set_limiter w rl) (Granted sid)) (mk_role Free None (Some (TGrant sid))) None
  | eff_dial sid ty addr p :
      r = mk_role Free None (Some (TDial sid p)) ->
      eff o w r (add_log w (Dialed sid ty addr)) (mk_role Free None (Some (TRight p))) None
  | eff_dial_sock sid ty addr p :
      r = mk_role Free None (Some (TDial sid p)) ->
      eff o w r (new_sock (add_log w (Dialed sid ty addr)))
        (mk_role Free (Some (next_sock w)) (Some (TRight p))) None.

Lemma granted_app sid l l' : granted sid (l ++ l') = granted sid l + granted sid l'.
Proof. induction l as [|[]]; simpl; lia. Qed.
Lemma dialed_app sid l l' : dialed sid (l ++ l') = dialed sid l + dialed sid l'.
Proof. induction l as [|[]]; simpl; lia. Qed.

Lemma frame_refl w : frame w w.
Proof. by split. Qed.

Lemma frame_sess w ss : frame w (set_sess w ss).
Proof. by split. Qed.

Lemma frame_new_sess w addr : frame w (new_sess w addr).
Proof. by split. Qed.

Lemma frame_log w e :
  match e with Looked _ _ | Took _ _ => True | _ => False end -> frame w (add_log w e).
Proof.
  intros He. split; try done; intros sid; simpl; rewrite ?granted_app, ?dialed_app; destruct e; simpl; lia || done.
Qed.

Lemma ctx_upd_conn w p c c' :
  heap w !! p = Some c -> stat c' = stat c -> ctx_of (upd_conn w p c') = ctx_of w.
Proof.
  intros Hp Hs. unfold ctx_of, upd_conn. simpl. f_equal. rewrite fmap_insert, Hs.
  apply insert_id. by rewrite lookup_fmap, Hp.
Qed.

Lemma ctx_alloc w c : ctx_of (alloc w c) = add_ptr (ctx_of w) (next_ptr w) (stat c).
Proof. unfold ctx_of, alloc, add_ptr. simpl. by rewrite fmap_insert. Qed.

Lemma ctx_ptr w p st : ptrs (ctx_of w) !! p = Some st -> exists c, heap w !! p = Some c /\ st = stat c.
Proof. simpl. rewrite lookup_fmap_Some. naive_solver. Qed.

Lemma set_closed_true c : closed c = true -> set_closed c true = c.
Proof. destruct c. simpl. by intros ->. Qed.

(** Allocation has not handed out the next pointer. *)
Definition ptrs_fresh (w : world) : Prop := forall p, is_Some (heap w !! p) -> p < next_ptr w.

(** Every connection in a map is allocated and has the key as its id. *)
Definition maps_ok (w : world) : Prop :=
  forall sid key p, connections (sess w sid) !! key = Some p ->
    exists c, heap w !! p = Some c /\ id c = key.

(** ** Every operation of a typed program has one of the effects *)

Definition spawn_typed (c : context) (t : option task) (rt : option role) : Prop :=
  match t, rt with
  | None, None => True
  | Some t, Some rt => typed c None rt (Jump t)
  | _, _ => False
  end.

Ltac use_heap p :=
  match goal with
  | H : context [heap ?w !! p] |- _ =>
      let c := fresh "c" in let E := fresh "Hc" in
      destruct (heap w !! p) as [c|] eqn:E; [|done]
  end.

(** The step of a goroutine in role [r] keeps its program typed and has one of the
    effects. *)
Definition effect_of (w : world) (o : option gostring) (r : role) (w' : world) (g' : prog) (t : option task) : Prop :=
  exists r' rt, typed (ctx_of w') o r' g' /\ spawn_typed (ctx_of w') t rt /\ eff o w r w' r' rt.

Lemma effect_frame w o r g' w1 : ctx_of w1 = ctx_of w -> frame w w1 -> typed (ctx_of w) o r g' -> effect_of w o r w1 g' None.
Proof. intros Hx Hf Hg. exists r, None. rewrite Hx. split_and!; [done..|by constructor]. Qed.

Lemma stat_heap w p c st : heap w !! p = Some c -> ptrs (ctx_of w) !! p = Some st -> st = stat c.
Proof. intros Hc Hs. apply ctx_ptr in Hs as (c' & ? & ->). by simplify_eq. Qed.

(** Starting functions, and the rate limiter. *)
Lemma effect_control w o r g a w' g' t :
  match g with Jump _ | Go _ _ | AcquireSession _ _ | ReleaseSess _ _ | TryConn _ _ => True | _ => False end ->
  typed (ctx_of w) o r g -> perform w g a = Some (w', g', t) -> effect_of w o r w' g' t.
Proof.
  intros Hg Ht Hp. destruct g; try done; clear Hg; destruct a; simpl in Hp; try done; cbn [typed] in Ht.
  - (* Jump *) simplify_eq. destruct Ht as [[Hl Ho] Hok]. apply body_typed in Hok.
    eapply effect_frame; [done|apply frame_refl| |done..]. destruct r; simpl in *. by subst.
  - (* Go *) simplify_eq. destruct Ht as [Hf [[Hok Hk]|[Hok Hk]]].
    + exists r, (Some idle). split_and!; [done|done|by constructor].
    + exists idle, (Some r). split_and!; [done|done|constructor; [done|]]. intros a Ha.
      rewrite Ha in Hok. by destruct t0; simpl in Hok; destruct_and?.
  - (* AcquireSession *) destruct Ht as (-> & -> & Ht & Hf).
    destruct (TryAcquireSession (limiter w) addr) as [[|] rl] eqn:E; simplify_eq.
    + eexists _, None. split_and!; [exact Ht|done|]. by apply eff_acquire.
    + unfold TryAcquireSession in E. destruct (_ <=? _); [|done]. simplify_eq.
      eapply effect_frame; [done|by split|exact Hf|done..].
  - (* ReleaseSess *) destruct Ht as (-> & Ht). simplify_eq.
    eexists _, None. split_and!; [exact Ht|done|]. by apply eff_release.
  - (* TryConn *) destruct Ht as (-> & Ht & Hf).
    pose proof (TryConnection_sessions (limiter w) (now w) (remoteIP (sess w sid))) as [Hs _].
    destruct (TryConnection _ _ _) as [[|] rl] eqn:E; simplify_eq.
    + eexists _, None. split_and!; [|done|by eapply eff_grant].
      eapply typed_mono; [|exact Ht]. apply extends_add_seen.
    + eapply effect_frame; [done|by split|exact Hf|done..].
Qed.

(** The transport to the client. *)
Lemma effect_client w o r g a w' g' t :
  match g with Upgrade _ _ | WaitDone _ _ | AcceptStream _ _ | SendEvent _ _ _ _ _ => True | _ => False end ->
  typed (ctx_of w) o r g -> perform w g a = Some (w', g', t) -> effect_of w o r w' g' t.
Proof.
  intros Hg Ht Hp. destruct g; try done; clear Hg; destruct a; simpl in Hp; try done; cbn [typed] in Ht.
  - (* Upgrade *) destruct Ht as [Hf Ht]. destruct b; simplify_eq.
    + eapply effect_frame; [done|apply frame_new_sess|apply Ht|done..].
    + eapply effect_frame; [done|apply frame_refl|apply Ht|done..].
  - (* WaitDone *) simplify_eq. eapply effect_frame; [done|apply frame_refl|apply Ht|done..].
  - (* AcceptStream *) destruct Ht as (Hf & Hn & Hs). destruct s as [s|]; [|simplify_eq].
    + destruct (decide _) as [Hb|]; simplify_eq.
      exists r, None. split_and!; [by apply Hs|done|]. by apply eff_frame, frame_log.
    + eapply effect_frame; [done|apply frame_refl|done..].
  - (* SendEvent *) destruct Ht as [Hf Ht]. simplify_eq.
    destruct b; (eapply effect_frame; [| |exact Ht|done..]); [done|apply frame_sess|done|apply frame_refl].
Qed.

(** The map of connections. *)
Lemma effect_map w o r g a w' g' t :
  match g with Store _ _ _ _ | Load _ _ _ | LoadAndDelete _ _ _ | Delete _ _ _ | RangeKeys _ _ | NextConnID _ _ => True | _ => False end ->
  maps_ok w -> typed (ctx_of w) o r g -> perform w g a = Some (w', g', t) -> effect_of w o r w' g' t.
Proof.
  intros Hg Hmaps Ht Hp. destruct g; try done; clear Hg; destruct a; simpl in Hp; try done; cbn [typed] in Ht.
  - (* Store *) destruct Ht as (Hf & _ & Ht). simplify_eq.
    eapply effect_frame; [|apply frame_sess|exact Ht|done..]; done.
  - (* Load *) destruct Ht as (Hf & Hn & Hs). simplify_eq.
    destruct (connections (sess w' sid) !! key) as [p|] eqn:E;
      (eapply effect_frame; [done|apply frame_refl| |done..]); [|done].
    apply Hmaps in E as (c & Hc & Hid). apply (Hs _ p (stat c)); [apply extends_refl| |exact Hid].
    simpl. rewrite lookup_fmap, Hc. done.
  - (* LoadAndDelete *) destruct Ht as (Hf & Hn & Hs). simplify_eq.
    destruct (connections (sess w sid) !! key) as [p|] eqn:E;
      (eapply effect_frame; [|apply frame_sess| |done..]); [done| |done|done].
    apply Hmaps in E as (c & Hc & Hid). apply (Hs _ p (stat c)); [apply extends_refl| |exact Hid].
    simpl. rewrite lookup_fmap, Hc. done.
  - (* Delete *) destruct Ht as (Hf & Ht). simplify_eq.
    eapply effect_frame; [|apply frame_sess|exact Ht|done..]; done.
  - (* RangeKeys *) destruct Ht as (Hf & Ht). destruct (decide _); simplify_eq.
    eapply effect_frame; [done|apply frame_refl|apply Ht|done..].
  - (* NextConnID *) destruct Ht as (Hf & Ht). simplify_eq.
    eapply effect_frame; [|apply frame_sess|apply Ht|done..]; done.
Qed.

(** Allocation, mutexes and the closed flag. *)
Lemma effect_mutex w o r g a w' g' t :
  match g with Alloc _ _ | Lock _ _ | Unlock _ _ | LoadClosed _ _ | SwapClosed _ _ => True | _ => False end ->
  ptrs_fresh w -> typed (ctx_of w) o r g -> perform w g a = Some (w', g', t) -> effect_of w o r w' g' t.
Proof.
  intros Hg Hfresh Ht Hp. destruct g; try done; clear Hg; destruct a; simpl in Hp; try done; cbn [typed] in Ht.
  - (* Alloc *) destruct Ht as (Hl & Hc & Hk & Ho & Hg & Ht). simplify_eq.
    eexists _, None. split_and!; [|done|by apply eff_alloc]. rewrite ctx_alloc. apply Ht.
    simpl. rewrite lookup_fmap. destruct (heap w !! next_ptr w) eqn:E; [|done].
    specialize (Hfresh (next_ptr w) ltac:(by rewrite E)). lia.
  - (* Lock *) destruct Ht as [_ Ht]. use_heap p. simpl in Hp. destruct (locked c) eqn:El; [done|].
    simplify_eq. destruct (lk r) eqn:Er; try done.
    + eexists _, None. split_and!; [|done|by eapply eff_lock; eauto]. by erewrite ctx_upd_conn.
    + destruct Ht as [-> Ht].
      eexists _, None. split_and!; [|done|by eapply eff_lock; eauto]. by erewrite ctx_upd_conn.
  - (* Unlock *) use_heap p. simpl in Hp. simplify_eq.
    destruct (lk r) eqn:Er; try done; [destruct Ht as [-> Ht]..|destruct Ht as (-> & -> & Ht)];
      (eexists _, None; split_and!; [|done|by eapply eff_unlock; eauto]; by erewrite ctx_upd_conn).
  - (* LoadClosed *) destruct Ht as [_ Ht]. use_heap p. simpl in Hp. simplify_eq.
    destruct (lk r) eqn:Er; try done.
    + eapply effect_frame; [done|apply frame_refl| |done..]. destruct (closed c); apply Ht.
    + destruct Ht as (-> & Ht & Hf). destruct (closed c) eqn:Ec.
      * eapply effect_frame; [done|apply frame_refl|done..].
      * eexists _, None. split_and!; [exact Hf|done|by eapply eff_fresh].
  - (* SwapClosed *) destruct Ht as (_ & [Hl Ho] & Ht & Hf). use_heap p. simpl in Hp. simplify_eq.
    destruct (closed c) eqn:Ec.
    + assert (upd_conn w p (set_closed c true) = w) as ->.
      { rewrite set_closed_true by done. unfold upd_conn. rewrite insert_id by done. by destruct w. }
      by eapply effect_frame; [|apply frame_refl|].
    + eexists _, None. split_and!; [by erewrite ctx_upd_conn|done|by eapply eff_swap].
Qed.

(** The fields of a connection. *)
Lemma effect_field w o r g a w' g' t :
  match g with GetID _ _ | GetConn _ _ | SetConn _ _ _ | GetListener _ _ | GetUdpConn _ _ => True | _ => False end ->
  typed (ctx_of w) o r g -> perform w g a = Some (w', g', t) -> effect_of w o r w' g' t.
Proof.
  intros Hg Ht Hp. destruct g; try done; clear Hg; destruct a; simpl in Hp; try done; cbn [typed] in Ht.
  - (* GetID *) destruct Ht as (Hf & st & Hs & Ht). use_heap p. simpl in Hp. simplify_eq.
    rewrite (stat_heap _ _ _ _ Hc Hs) in Ht. eapply effect_frame; [done|apply frame_refl|done..].
  - (* GetConn *) use_heap p. simpl in Hp. simplify_eq. destruct (lk r) eqn:Er; try done.
    + destruct Ht as [-> Ht]. eapply effect_frame; [done|apply frame_refl|apply Ht|done..].
    + destruct Ht as (-> & -> & Ht). eexists _, None. split_and!; [apply Ht|done|].
      by apply (eff_next _ w' r p c 0).
  - (* SetConn *) use_heap p. simpl in Hp. simplify_eq. destruct Ht as [-> Ht].
    eexists _, None. split_and!; [by erewrite ctx_upd_conn|done|by eapply eff_setconn].
  - (* GetListener *) destruct Ht as (st & Hs & Ht). use_heap p. simpl in Hp. simplify_eq.
    rewrite (stat_heap _ _ _ _ Hc Hs) in Ht. destruct (lk r) eqn:Er; try done.
    + eapply effect_frame; [done|apply frame_refl|done..].
    + destruct Ht as (-> & -> & Ht). eexists _, None. split_and!; [exact Ht|done|].
      by apply (eff_next _ w' r p c 1).
  - (* GetUdpConn *) destruct Ht as (st & Hs & Ht). use_heap p. simpl in Hp. simplify_eq.
    rewrite (stat_heap _ _ _ _ Hc Hs) in Ht. destruct (lk r) eqn:Er; try done.
    destruct Ht as (-> & -> & Ht). eexists _, None. split_and!; [exact Ht|done|].
    by apply (eff_next _ w' r p c 2).
Qed.

(** The network. *)
Lemma effect_network w o r g a w' g' t :
  match g with LookupHost _ _ | Dial _ _ _ _ | Listen _ _ _ | AcceptConn _ _ | ReadSock _ _ | WriteSock _ _ _ | CloseSock _ _ => True | _ => False end ->
  typed (ctx_of w) o r g -> perform w g a = Some (w', g', t) -> effect_of w o r w' g' t.
Proof.
  intros Hg Ht Hp. destruct g; try done; clear Hg; destruct a; simpl in Hp; try done; cbn [typed] in Ht.
  - (* LookupHost *) destruct Ht as (Hf & Ht). simplify_eq.
    exists r, None. split_and!; [apply Ht|done|]. by apply eff_frame, frame_log.
  - (* Dial *) destruct Ht as ([Hl Ho] & _ & p & Hk & Ht & He). destruct b; [|done]. simplify_eq.
    eexists _, None. split_and!; [|done|apply (eff_dial_sock _ _ _ _ _ _ p); destruct r; simpl in *; by subst].
    eapply (typed_mono (ctx_of w)); [apply (extends_add_seen (ctx_of w))|apply Ht].
  - destruct Ht as ([Hl Ho] & _ & p & Hk & Ht & He). simplify_eq.
    eexists _, None. split_and!; [|done|apply (eff_dial _ _ _ _ _ _ p); destruct r; simpl in *; by subst].
    eapply (typed_mono (ctx_of w)); [apply (extends_add_seen (ctx_of w))|apply He].
  - (* Listen *) destruct Ht as (Hf & Ht & He). destruct b; [|done]. simplify_eq.
    eexists _, None. split_and!; [apply Ht|done|by apply eff_sock].
  - destruct Ht as (Hf & Ht & He). simplify_eq.
    eapply effect_frame; [done|apply frame_refl|apply He|done..].
  - (* AcceptConn *) destruct Ht as (Hf & Ht & He). simplify_eq.
    eapply effect_frame; [done|apply frame_refl|done..].
  - destruct Ht as (Hf & Ht & He). destruct (decide _); simplify_eq.
    eexists _, None. split_and!; [apply Ht|done|by apply eff_sock].
  - (* ReadSock *) destruct Ht as (Hf & Ht). destruct (decide _); simplify_eq.
    eapply effect_frame; [done|apply frame_refl|apply Ht|done..].
  - (* WriteSock *) destruct Ht as (Hf & Ht). simplify_eq.
    eapply effect_frame; [done|apply frame_refl|done..].
  - (* CloseSock *) simplify_eq. destruct (lk r) eqn:Er;
      [destruct Ht as [Ho Ht]..|destruct Ht as [-> Ht]];
      [eexists _, None; split_and!; [exact Ht|done|by apply eff_close_own]..|].
    eexists _, None. split_and!; [exact Ht|done|by apply eff_close_must].
Qed.

Lemma perform_eff w o r g a w' g' t :
  ptrs_fresh w -> maps_ok w -> typed (ctx_of w) o r g -> perform w g a = Some (w', g', t) -> effect_of w o r w' g' t.
Proof.
  intros Hfresh Hmaps Ht Hp.
  pose proof (effect_control w o r g a w' g' t) as H1. pose proof (effect_client w o r g a w' g' t) as H2.
  pose proof (effect_map w o r g a w' g' t) as H3. pose proof (effect_mutex w o r g a w' g' t) as H4.
  pose proof (effect_field w o r g a w' g' t) as H5. pose proof (effect_network w o r g a w' g' t) as H6.
  destruct g; first [by destruct a | exact (H1 I Ht Hp) | exact (H2 I Ht Hp) | exact (H3 I Hmaps Ht Hp)
    | exact (H4 I Hfresh Ht Hp) | exact (H5 I Ht Hp) | exact (H6 I Ht Hp)].
Qed.

(** ** Updating the roles *)

Definition upd_roles (rs : list role) (i : nat) (r : role) (rt : option role) : list role :=
  <[i := r]> rs ++ option_list rt.

Section upd_roles.
Context (rs : list role) (i : nat) (r r' : role) (rt : option role) (Hi : rs !! i = Some r).

Lemma upd_at : upd_roles rs i r' rt !! i = Some r'.
Proof.
  unfold upd_roles. rewrite lookup_app_l by (rewrite length_insert; by eapply lookup_lt_Some).
  rewrite list_lookup_insert_eq; [done|]. by eapply lookup_lt_Some.
Qed.

Lemma upd_other j x : j <> i -> rs !! j = Some x -> upd_roles rs i r' rt !! j = Some x.
Proof.
  intros Hj Hx. unfold upd_roles.
  rewrite lookup_app_l by (rewrite length_insert; by eapply lookup_lt_Some).
  by rewrite list_lookup_insert_ne.
Qed.

Lemma upd_new x : rt = Some x -> upd_roles rs i r' rt !! length rs = Some x.
Proof.
  intros Hx. unfold upd_roles. rewrite lookup_app_r by (by rewrite length_insert).
  by rewrite length_insert, Nat.sub_diag, Hx.
Qed.

Lemma upd_inv j x :
  upd_roles rs i r' rt !! j = Some x ->
  (j = i /\ x = r') \/ (j <> i /\ rs !! j = Some x) \/ (j = length rs /\ rt = Some x).
Proof.
  unfold upd_roles. intros [H|[Hl H]]%lookup_app_Some.
  - destruct (decide (j = i)) as [->|Hj].
    + rewrite list_lookup_insert_eq in H by (by eapply lookup_lt_Some). left. by simplify_eq.
    + rewrite list_lookup_insert_ne in H by done. auto.
  - rewrite length_insert in *. destruct rt as [y|] eqn:Ert; [|done]. simpl in H.
    apply list_lookup_singleton_Some in H as [H ->]. right. right. split; [lia|done].
Qed.

(** A property that some role has, and that the changed role keeps. *)
Lemma upd_exists (P : role -> Prop) :
  (P r -> P r' \/ exists x, rt = Some x /\ P x) ->
  (exists j x, rs !! j = Some x /\ P x) -> exists j x, upd_roles rs i r' rt !! j = Some x /\ P x.
Proof.
  intros Hr (j & x & Hj & HP). destruct (decide (j = i)) as [->|Hne].
  - simplify_eq. destruct (Hr HP) as [?|(x' & Hx' & ?)]; [eauto using upd_at|].
    exists (length rs), x'. split; [by apply upd_new|done].
  - eauto using upd_other.
Qed.

(** A property that at most one role has. *)
Lemma upd_unique (P : role -> Prop) :
  (P r' -> P r) -> (forall x, rt = Some x -> P x -> P r) -> (forall x, rt = Some x -> P x -> ~ P r') ->
  (forall j k x y, rs !! j = Some x -> rs !! k = Some y -> P x -> P y -> j = k) ->
  forall j k x y, upd_roles rs i r' rt !! j = Some x -> upd_roles rs i r' rt !! k = Some y ->
    P x -> P y -> j = k.
Proof.
  intros H1 H2 H3 Hu j k x y Hj Hk Px Py.
  apply upd_inv in Hj as [[-> ->]|[[Hji Hj]|[-> Hj]]], Hk as [[-> ->]|[[Hki Hk]|[-> Hk]]];
    try done; try (exfalso; by eapply H3); try by eapply Hu.
  - exfalso. apply Hki. symmetry. eapply Hu; eauto.
  - exfalso. apply Hji. eapply Hu; eauto.
  - exfalso. apply Hji. eapply Hu; eauto.
  - exfalso. apply Hki. symmetry. eapply Hu; eauto.
Qed.

End upd_roles.

(** ** Mutexes *)

Definition holds (r : role) (p : ptr) : Prop :=
  match lk r with Held q | Fresh q | Closing q _ | Must q _ _ => q = p | _ => False end.

(** A mutex is locked exactly when one goroutine holds it. *)
Record locks_ok (w : world) (rs : list role) : Prop := {
  lo_holder i r p : rs !! i = Some r -> holds r p -> exists c, heap w !! p = Some c /\ locked c = true;
  lo_excl p i j r r' : rs !! i = Some r -> rs !! j = Some r' -> holds r p -> holds r' p -> i = j;
  lo_locked p c : heap w !! p = Some c -> locked c = true -> exists i r, rs !! i = Some r /\ holds r p;
}.

Lemma locks_frame w w' rs i r r' rt :
  rs !! i = Some r -> locks_ok w rs ->
  (forall p, holds r' p <-> holds r p) -> (forall x p, rt = Some x -> ~ holds x p) ->
  (forall p c, heap w !! p = Some c -> exists c', heap w' !! p = Some c' /\ locked c' = locked c) ->
  (forall p c', heap w' !! p = Some c' -> locked c' = true -> exists c, heap w !! p = Some c /\ locked c = true) ->
  locks_ok w' (upd_roles rs i r' rt).
Proof.
  intros Hi [Hh He Hl] Hr Ht Hw Hw'. split.
  - intros j x p Hj Hx.
    assert (exists c, heap w !! p = Some c /\ locked c = true) as (c & Hc & Hlc).
    { apply (upd_inv _ _ _ _ _ Hi) in Hj as [[-> ->]|[[_ Hj]|[_ ->]]]; [|by eapply Hh|by edestruct Ht].
      eapply Hh; [exact Hi|]. by apply Hr. }
    destruct (Hw p c Hc) as (c' & ? & ?). exists c'. split; congruence.
  - intros p. apply (upd_unique _ _ _ _ _ Hi (fun x => holds x p)).
    + apply Hr.
    + intros x Hx Hp. by destruct (Ht x p).
    + intros x Hx Hp. by destruct (Ht x p).
    + intros j k x y. apply He.
  - intros p c' Hc' Hlc'. destruct (Hw' p c' Hc' Hlc') as (c & Hc & Hlc).
    apply (upd_exists _ _ _ _ _ Hi (fun x => holds x p)); [|by eapply Hl].
    intros H. left. by apply Hr.
Qed.

Lemma upd_conn_lookup w p c c' q x :
  heap w !! p = Some c -> heap (upd_conn w p c') !! q = Some x ->
  (q = p /\ x = c') \/ (q <> p /\ heap w !! q = Some x).
Proof. intros Hp. simpl. rewrite lookup_insert_Some. naive_solver. Qed.

Lemma set_lk_holds r l p :
  holds (set_lk r l) p <-> match l with Held q | Fresh q | Closing q _ | Must q _ _ => q = p | _ => False end.
Proof. done. Qed.

Lemma holds_free r p : lk r = Free -> ~ holds r p.
Proof. unfold holds. intros ->. tauto. Qed.

(** Heaps that differ in one connection only, with the same mutex. *)
Lemma upd_conn_locks w p c c' :
  heap w !! p = Some c -> locked c' = locked c ->
  (forall q x, heap w !! q = Some x ->
     exists x', heap (upd_conn w p c') !! q = Some x' /\ locked x' = locked x) /\
  (forall q x', heap (upd_conn w p c') !! q = Some x' -> locked x' = true ->
     exists x, heap w !! q = Some x /\ locked x = true).
Proof.
  intros Hp Hl. split.
  - intros q x Hq. simpl. destruct (decide (q = p)) as [->|].
    + exists c'. rewrite lookup_insert_eq. split; congruence.
    + exists x. by rewrite lookup_insert_ne.
  - intros q x' Hq Hx. apply (upd_conn_lookup _ _ _ _ _ _ Hp) in Hq as [[-> ->]|[_ Hq]]; [|eauto].
    exists c. split; congruence.
Qed.

Lemma locks_lock w rs i r p c l :
  rs !! i = Some r -> locks_ok w rs -> heap w !! p = Some c -> locked c = false ->
  (forall q, ~ holds r q) -> (forall q, holds (set_lk r l) q <-> q = p) ->
  locks_ok (upd_conn w p (set_locked c true)) (upd_roles rs i (set_lk r l) None).
Proof.
  intros Hi [Hh He Hl] Hc Hcl Hr Hr'.
  assert (forall j x, rs !! j = Some x -> ~ holds x p) as Hno.
  { intros j x Hj Hx. destruct (Hh j x p Hj Hx) as (c' & ? & ?). congruence. }
  split.
  - intros j x q Hj Hx. destruct (decide (q = p)) as [->|Hq].
    + exists (set_locked c true). simpl. by rewrite lookup_insert_eq.
    + simpl. rewrite lookup_insert_ne by done.
      apply (upd_inv _ _ _ _ _ Hi) in Hj as [[-> ->]|[[_ Hj]|[_ ?]]]; [by apply Hr' in Hx|eauto|done].
  - intros q j k x y Hj Hk Hx Hy.
    apply (upd_inv _ _ _ _ _ Hi) in Hj as [[-> ->]|[[_ Hj]|[_ ?]]],
      Hk as [[-> ->]|[[_ Hk]|[_ ?]]]; try done.
    + apply Hr' in Hx as ->. by destruct (Hno k y).
    + apply Hr' in Hy as ->. by destruct (Hno j x).
    + by eapply He.
  - intros q x Hq Hx. apply (upd_conn_lookup _ _ _ _ _ _ Hc) in Hq as [[-> ->]|[Hne Hq]].
    + exists i, (set_lk r l). split; [by apply (upd_at _ _ r)|by apply Hr'].
    + apply (upd_exists _ _ _ _ _ Hi (fun x => holds x q)); [|by eapply Hl].
      intros H. by destruct (Hr q).
Qed.

Lemma locks_unlock w rs i r p c :
  rs !! i = Some r -> locks_ok w rs -> heap w !! p = Some c -> (forall q, holds r q <-> q = p) ->
  locks_ok (upd_conn w p (set_locked c false)) (upd_roles rs i (set_lk r Free) None).
Proof.
  intros Hi [Hh He Hl] Hc Hr.
  assert (holds r p) as Hrp by (by apply Hr).
  split.
  - intros j x q Hj Hx. apply (upd_inv _ _ _ _ _ Hi) in Hj as [[-> ->]|[[Hji Hj]|[_ ?]]]; [done| |done].
    assert (q <> p) as Hq by (intros ->; apply Hji; by eapply He).
    simpl. rewrite lookup_insert_ne by done. by eapply Hh.
  - intros q. apply (upd_unique _ _ _ _ _ Hi (fun x => holds x q)); try done.
    intros j k x y. apply He.
  - intros q x Hq Hx. apply (upd_conn_lookup _ _ _ _ _ _ Hc) in Hq as [[-> ->]|[Hne Hq]]; [done|].
    apply (upd_exists _ _ _ _ _ Hi (fun x => holds x q)); [|by eapply Hl].
    intros H. apply Hr in H. by subst.
Qed.

Lemma alloc_lookup w c p x :
  ptrs_fresh w -> heap (alloc w c) !! p = Some x ->
  (p = next_ptr w /\ x = c) \/ (p <> next_ptr w /\ heap w !! p = Some x).
Proof. intros _. simpl. rewrite lookup_insert_Some. naive_solver. Qed.

Lemma alloc_old w c p x : ptrs_fresh w -> heap w !! p = Some x -> heap (alloc w c) !! p = Some x.
Proof.
  intros Hf Hp. simpl. rewrite lookup_insert_ne; [done|].
  intros <-. specialize (Hf (next_ptr w) ltac:(by rewrite Hp)). lia.
Qed.

Lemma locks_eff o w rs i r w' r' rt :
  ptrs_fresh w -> rs !! i = Some r -> locks_ok w rs -> eff o w r w' r' rt ->
  locks_ok w' (upd_roles rs i r' rt).
Proof.
  intros Hf Hi Hok He.
  assert (forall w1 r1 rt1, heap w1 = heap w -> (forall p, holds r1 p <-> holds r p) ->
    (forall x p, rt1 = Some x -> ~ holds x p) -> locks_ok w1 (upd_roles rs i r1 rt1)) as Hsame.
  { intros w1 r1 rt1 Hh Hr Ht. eapply locks_frame; [exact Hi|exact Hok|done|done|rewrite Hh; eauto..]. }
  destruct He as [w' Hfr|[Hl _]|[Hl _] Hns|p c l Hc Hcl Hl|p c Hc Hl|p c Hc Hl Hcl|p c Hc Hl Hcl
    |p c n Hc Hl|p s n Hl|s Ho|p c s Hc ->|[Hl _]|c Hl Hcc Hcl Ho Hg|addr rl -> Hor Ha|addr ->|sid rl -> Ha
    |sid ty addr p ->|sid ty addr p ->].
  - by apply Hsame; [apply Hfr|..].
  - apply Hsame; [done|done|]. intros x p [= <-]. by apply holds_free.
  - apply Hsame; [done| |].
    + intros p. pose proof (holds_free r p Hl). pose proof (holds_free idle p eq_refl). tauto.
    + intros x p [= <-]. by apply holds_free.
  - apply locks_lock; [done..| |].
    + unfold holds. destruct Hl as [[-> _]|[-> _]]; tauto.
    + intros q. destruct Hl as [[_ ->]|[_ ->]]; unfold holds; simpl; naive_solver.
  - apply locks_unlock; [done..|]. unfold holds. intros q. destruct Hl as [->|[->| ->]]; naive_solver.
  - apply Hsame; [done| |done]. unfold holds. rewrite Hl. done.
  - eapply locks_frame; [exact Hi|exact Hok| |done|by apply (upd_conn_locks w p c)..].
    unfold holds. rewrite Hl. done.
  - apply Hsame; [done| |done]. unfold holds, closing_next. rewrite Hl. simpl. by destruct (field c n).
  - apply Hsame; [done| |done]. unfold holds. rewrite Hl. done.
  - by apply Hsame.
  - eapply locks_frame; [exact Hi|exact Hok|done|done|by apply (upd_conn_locks w p c)..].
  - by apply Hsame.
  - eapply locks_frame; [exact Hi|exact Hok| |done| |].
    + unfold holds. rewrite Hl. done.
    + intros p x Hp. exists x. split; [by apply alloc_old|done].
    + intros p x Hp Hx. apply alloc_lookup in Hp as [[-> ->]|[_ Hp]]; [congruence|eauto|done].
  - by apply Hsame.
  - by apply Hsame.
  - by apply Hsame.
  - by apply Hsame.
  - by apply Hsame.
Qed.

(** ** The right to set [conn] *)

Definition right_to (r : role) (p : ptr) : Prop :=
  match tok r with Some (TDial _ q) | Some (TRight q) => q = p | _ => False end.

(** It belongs to one goroutine, and [conn] is still nil. *)
Record rights_ok (w : world) (rs : list role) : Prop := {
  ro_conn i r p : rs !! i = Some r -> right_to r p -> exists c, heap w !! p = Some c /\ conn c = None;
  ro_excl p i j r r' : rs !! i = Some r -> rs !! j = Some r' -> right_to r p -> right_to r' p -> i = j;
}.

Lemma rights_frame w w' rs i r r' rt :
  rs !! i = Some r -> rights_ok w rs ->
  (forall p, right_to r' p -> right_to r p) ->
  (forall x p, rt = Some x -> right_to x p -> right_to r p /\ ~ right_to r' p) ->
  (forall p c, heap w !! p = Some c -> conn c = None -> exists c', heap w' !! p = Some c' /\ conn c' = None) ->
  rights_ok w' (upd_roles rs i r' rt).
Proof.
  intros Hi [Hc He] Hr Ht Hw. split.
  - intros j x p Hj Hx.
    assert (exists c, heap w !! p = Some c /\ conn c = None) as (c & ? & ?); [|by eapply Hw].
    apply (upd_inv _ _ _ _ _ Hi) in Hj as [[-> ->]|[[_ Hj]|[_ ->]]]; [|by eapply Hc|].
    + eapply Hc; [exact Hi|by apply Hr].
    + eapply Hc; [exact Hi|by eapply Ht].
  - intros p. apply (upd_unique _ _ _ _ _ Hi (fun x => right_to x p)); eauto.
    + intros x Hx Hp. by eapply Ht.
    + intros x Hx Hp. by eapply Ht.
Qed.

Lemma rights_setconn w rs i r p c s :
  rs !! i = Some r -> rights_ok w rs -> heap w !! p = Some c -> right_to r p ->
  rights_ok (upd_conn w p (set_conn c (Some s))) (upd_roles rs i (mk_role (Fresh p) None None) None).
Proof.
  intros Hi [Hcn He] Hc Hr. split.
  - intros j x q Hj Hx. apply (upd_inv _ _ _ _ _ Hi) in Hj as [[-> ->]|[[Hji Hj]|[_ ?]]]; [done| |done].
    assert (q <> p) as Hq by (intros ->; apply Hji; by eapply He).
    simpl. rewrite lookup_insert_ne by done. by eapply Hcn.
  - intros q. apply (upd_unique _ _ _ _ _ Hi (fun x => right_to x q)); try done. eauto.
Qed.

Lemma rights_alloc w rs i r c :
  ptrs_fresh w -> rs !! i = Some r -> rights_ok w rs ->
  (forall sid, tok r = Some (TGrant sid) -> conn c = None) ->
  rights_ok (alloc w c) (upd_roles rs i (mk_role Free None (alloc_tok (tok r) (next_ptr w))) None).
Proof.
  intros Hf Hi Hok Hg.
  assert (forall p x, heap w !! p = Some x -> conn x = None ->
    exists x', heap (alloc w c) !! p = Some x' /\ conn x' = None) as Hold
    by (intros p x Hp ?; exists x; split; [by apply alloc_old|done]).
  destruct (tok r) as [[a|sid|sid q|q]|] eqn:Ht; simpl;
    try (eapply rights_frame; [exact Hi|exact Hok| |done|exact Hold]; unfold right_to; simpl; by rewrite Ht).
  assert (forall j x, rs !! j = Some x -> ~ right_to x (next_ptr w)) as Hno.
  { intros j x Hj Hx. destruct (ro_conn _ _ Hok _ _ _ Hj Hx) as (y & Hy & _).
    specialize (Hf (next_ptr w) ltac:(by rewrite Hy)). lia. }
  split.
  - intros j x p Hj Hx. apply (upd_inv _ _ _ _ _ Hi) in Hj as [[-> ->]|[[_ Hj]|[_ ?]]]; [| |done].
    + unfold right_to in Hx. simpl in Hx. subst p. exists c. simpl. rewrite lookup_insert_eq.
      split; [done|by eapply Hg].
    + destruct (ro_conn _ _ Hok _ _ _ Hj Hx) as (y & ? & ?). by eapply Hold.
  - intros p j k x y Hj Hk Hx Hy.
    apply (upd_inv _ _ _ _ _ Hi) in Hj as [[-> ->]|[[_ Hj]|[_ ?]]],
      Hk as [[-> ->]|[[_ Hk]|[_ ?]]]; try done.
    + unfold right_to in Hx. simpl in Hx. subst p. by destruct (Hno k y).
    + unfold right_to in Hy. simpl in Hy. subst p. by destruct (Hno j x).
    + by eapply (ro_excl _ _ Hok).
Qed.

Lemma upd_conn_conn w p c c' q x :
  heap w !! p = Some c -> conn c' = conn c -> heap w !! q = Some x -> conn x = None ->
  exists x', heap (upd_conn w p c') !! q = Some x' /\ conn x' = None.
Proof.
  intros Hp Hcc Hq Hx. simpl. destruct (decide (q = p)) as [->|].
  - exists c'. rewrite lookup_insert_eq. split; congruence.
  - exists x. by rewrite lookup_insert_ne.
Qed.

Lemma rights_eff o w rs i r w' r' rt :
  ptrs_fresh w -> rs !! i = Some r -> rights_ok w rs -> eff o w r w' r' rt ->
  rights_ok w' (upd_roles rs i r' rt).
Proof.
  intros Hf Hi Hok He.
  assert (forall w1 r1 rt1, heap w1 = heap w -> (forall p, right_to r1 p -> right_to r p) ->
    (forall x p, rt1 = Some x -> right_to x p -> right_to r p /\ ~ right_to r1 p) ->
    rights_ok w1 (upd_roles rs i r1 rt1)) as Hsame.
  { intros w1 r1 rt1 Hh Hr Ht. eapply rights_frame; [exact Hi|exact Hok|done|done|rewrite Hh; eauto]. }
  assert (forall p c c' l, heap w !! p = Some c -> conn c' = conn c ->
    rights_ok (upd_conn w p c') (upd_roles rs i (set_lk r l) None)) as Hconn.
  { intros p c c' l Hc Hcc. eapply rights_frame; [exact Hi|exact Hok|done|done|].
    intros q x. by apply (upd_conn_conn w p c). }
  destruct He as [w' Hfr|[Hl _]|[Hl _] Hns|p c l Hc Hcl Hl|p c Hc Hl|p c Hc Hl Hcl|p c Hc Hl Hcl
    |p c n Hc Hl|p s n Hl|s Ho|p c s Hc ->|[Hl _]|c Hl Hcc Hcl Ho Hg|addr rl -> Hor Ha|addr ->|sid rl -> Ha
    |sid ty addr p ->|sid ty addr p ->]; try (by apply Hsame); try (by eapply Hconn; [exact Hc|]).
  - by apply Hsame; [apply Hfr|..].
  - apply Hsame; [done|done|]. by intros x p [= <-] ?.
  - apply Hsame; [done|done|]. intros x p [= <-] ?. split; [done|]. unfold right_to. simpl. tauto.
  - by eapply rights_setconn.
  - by apply rights_alloc.
Qed.

(** ** Sockets *)

(** Sockets are numbered below [next_sock], and every open one is in a field of a
    connection or in the hands of a goroutine. *)
Record socks_ok (w : world) (rs : list role) : Prop := {
  so_field p c n s : heap w !! p = Some c -> field c n = Some s -> s < next_sock w;
  so_own i r s : rs !! i = Some r -> own r = Some s -> s < next_sock w;
  so_open s : s ∈ open w ->
    (exists i r, rs !! i = Some r /\ own r = Some s) \/
    (exists p c n, heap w !! p = Some c /\ field c n = Some s);
}.

Lemma socks_step w w' rs i r r' rt :
  rs !! i = Some r -> socks_ok w rs -> next_sock w <= next_sock w' ->
  (forall p c' n s, heap w' !! p = Some c' -> field c' n = Some s ->
     own r = Some s \/ exists c, heap w !! p = Some c /\ field c n = Some s) ->
  (forall s, own r' = Some s -> own r = Some s \/ (s = next_sock w /\ next_sock w < next_sock w')) ->
  (forall x s, rt = Some x -> own x <> Some s) ->
  (forall s, s ∈ open w' -> s ∈ open w \/ own r' = Some s) ->
  (forall s, s ∈ open w' -> own r = Some s ->
     own r' = Some s \/ exists p c n, heap w' !! p = Some c /\ field c n = Some s) ->
  (forall p c n s, heap w !! p = Some c -> field c n = Some s ->
     exists c', heap w' !! p = Some c' /\ field c' n = Some s) ->
  socks_ok w' (upd_roles rs i r' rt).
Proof.
  intros Hi [Hf Ho Hopen] Hnext Hfield Hown Ht Hop Hmove Hkeep. split.
  - intros p c' n s Hp Hs. destruct (Hfield p c' n s Hp Hs) as [H|(c & Hc & Hs')].
    + specialize (Ho i r s Hi H). lia.
    + specialize (Hf p c n s Hc Hs'). lia.
  - intros j x s Hj Hs. apply (upd_inv _ _ _ _ _ Hi) in Hj as [[-> ->]|[[_ Hj]|[_ ->]]].
    + destruct (Hown s Hs) as [H|[-> ?]]; [|lia]. specialize (Ho i r s Hi H). lia.
    + specialize (Ho j x s Hj Hs). lia.
    + by edestruct Ht.
  - intros s Hs. destruct (Hop s Hs) as [Hs'|Hs'].
    2:{ left. exists i, r'. split; [by apply (upd_at _ _ r)|done]. }
    destruct (Hopen s Hs') as [(j & x & Hj & Hx)|(p & c & n & Hp & Hn)].
    + destruct (decide (j = i)) as [->|Hne].
      * simplify_eq. destruct (Hmove s Hs Hx) as [?|?]; [|by right].
        left. exists i, r'. split; [by apply (upd_at _ _ r)|done].
      * left. exists j, x. split; [by apply upd_other|done].
    + right. destruct (Hkeep p c n s Hp Hn) as (c' & ? & ?). eauto.
Qed.

(** Changing one connection without touching its socket fields. *)
Lemma upd_conn_fields w p c c' :
  heap w !! p = Some c -> (forall n, field c' n = field c n) ->
  (forall q x n s, heap (upd_conn w p c') !! q = Some x -> field x n = Some s ->
     exists x', heap w !! q = Some x' /\ field x' n = Some s) /\
  (forall q x n s, heap w !! q = Some x -> field x n = Some s ->
     exists x', heap (upd_conn w p c') !! q = Some x' /\ field x' n = Some s).
Proof.
  intros Hp Hff. split; intros q x n s Hq Hx.
  - apply (upd_conn_lookup _ _ _ _ _ _ Hp) in Hq as [[-> ->]|[_ Hq]]; [|eauto].
    exists c. split; [done|]. by rewrite <- Hff.
  - simpl. destruct (decide (q = p)) as [->|].
    + exists c'. rewrite lookup_insert_eq, Hff. by simplify_eq.
    + exists x. by rewrite lookup_insert_ne.
Qed.

Lemma socks_eff o w rs i r w' r' rt :
  ptrs_fresh w -> rs !! i = Some r -> rights_ok w rs -> socks_ok w rs -> eff o w r w' r' rt ->
  socks_ok w' (upd_roles rs i r' rt).
Proof.
  intros Hf Hi Hr Hok He.
  assert (forall w1 r1 rt1, heap w1 = heap w -> open w1 ⊆ open w -> next_sock w1 = next_sock w ->
    (forall s, own r1 = Some s -> own r = Some s) ->
    (forall s, s ∈ open w1 -> own r = Some s -> own r1 = Some s) ->
    (forall x s, rt1 = Some x -> own x <> Some s) -> socks_ok w1 (upd_roles rs i r1 rt1)) as Hsame.
  { intros w1 r1 rt1 Hh Ho Hn Hr1 Hr2 Ht. eapply socks_step; [exact Hi|exact Hok|lia|..]; rewrite ?Hh; eauto. }
  assert (forall p c c' l, heap w !! p = Some c -> (forall n, field c' n = field c n) ->
    socks_ok (upd_conn w p c') (upd_roles rs i (set_lk r l) None)) as Hconn.
  { intros p c c' l Hc Hff. destruct (upd_conn_fields w p c c' Hc Hff) as [H1 H2].
    eapply socks_step; [exact Hi|exact Hok|done|..]; eauto; done. }
  assert (forall w1 t1, free r -> heap w1 = heap w -> open w1 = {[next_sock w]} ∪ open w ->
    next_sock w1 = next_sock w + 1 ->
    socks_ok w1 (upd_roles rs i (mk_role Free (Some (next_sock w)) t1) None)) as Hnew.
  { intros w1 t1 [_ Hn] Hh Ho Hs. eapply socks_step; [exact Hi|exact Hok|lia|..]; rewrite ?Hh, ?Ho, ?Hs; eauto.
    - intros s [= <-]. right. lia.
    - intros s [->%elem_of_singleton|?]%elem_of_union; auto.
    - intros s _. by rewrite Hn. }
  destruct He as [w' Hfr|[Hl Ho]|[Hl Ho] Hns|p c l Hc Hcl Hl|p c Hc Hl|p c Hc Hl Hcl|p c Hc Hl Hcl
    |p c n Hc Hl|p s n Hl|s Ho|p c s Hc ->|[Hl Ho]|c Hl Hcc Hcl Ho Hg|addr rl -> Hor Ha|addr ->|sid rl -> Ha
    |sid ty addr p ->|sid ty addr p ->]; try (by apply Hsame); try (by apply (Hconn p c));
    try (by apply Hnew).
  - by apply Hsame; [apply Hfr|by rewrite (frame_open _ _ Hfr)|apply Hfr|..].
  - apply Hsame; try done. by intros x s [= <-].
  - apply Hsame; try done; [congruence|]. intros x s [= <-]. congruence.
  - apply Hsame; try done. simpl. set_solver.
  - apply Hsame; simpl; try done; [set_solver|]. intros s' Hs' ?. set_solver.
  - destruct (ro_conn _ _ Hr i _ p Hi eq_refl) as (c1 & Hc1 & Hnil). simplify_eq.
    eapply socks_step; [exact Hi|exact Hok|done|..]; try done; simpl.
    + intros q x n s' Hq Hx. apply lookup_insert_Some in Hq as [[<- <-]|[_ Hq]]; [|eauto].
      destruct n; simpl in Hx; [left; congruence|]. right. exists c. by destruct n as [|[|]].
    + eauto.
    + intros s' _ [= <-]. right. exists p, (set_conn c (Some s)), 0%nat. by rewrite lookup_insert_eq.
    + intros q x n s' Hq Hx. destruct (decide (q = p)) as [->|].
      * exists (set_conn c (Some s)). rewrite lookup_insert_eq. simplify_eq. split; [done|].
        destruct n as [|[|[|]]]; simpl in *; congruence.
      * exists x. by rewrite lookup_insert_ne.
  - unfold set_own. rewrite Hl. by apply Hnew.
  - eapply socks_step; [exact Hi|exact Hok|done|..]; try done.
    + intros p x n s Hp Hx. apply alloc_lookup in Hp as [[-> ->]|[_ Hp]]; [|eauto|done].
      left. apply Ho. eauto.
    + eauto.
    + intros s _ Hs. right. apply Ho in Hs as [n Hn]. exists (next_ptr w), c, n.
      simpl. by rewrite lookup_insert_eq.
    + intros p x n s Hp Hx. exists x. split; [by apply alloc_old|done].
Qed.

(** ** Closing *)

(** The goroutine will still close socket [s], found in field [n] of [p]. *)
Definition will_close (r : role) (p : ptr) (n : nat) (s : sock) : Prop :=
  match lk r with
  | Owe q => q = p
  | Closing q m => q = p /\ (m <= n)%nat
  | Must q s' m => q = p /\ ((m <= n)%nat \/ (m = S n /\ s' = s))
  | _ => False
  end.

(** A connection marked closed has no open socket that nobody will close; and a
    goroutine that holds the mutex and has seen the connection open can only have
    been overtaken by one that is waiting for the mutex to close it. *)
Record closes_ok (w : world) (rs : list role) : Prop := {
  co_close p c n s : heap w !! p = Some c -> closed c = true -> field c n = Some s -> s ∈ open w ->
    exists i r, rs !! i = Some r /\ will_close r p n s;
  co_fresh i r p c : rs !! i = Some r -> lk r = Fresh p -> heap w !! p = Some c -> closed c = true ->
    exists j r', rs !! j = Some r' /\ lk r' = Owe p;
}.

Lemma closes_step w w' rs i r r' rt :
  rs !! i = Some r -> closes_ok w rs ->
  (forall p c' n s, heap w' !! p = Some c' -> closed c' = true -> field c' n = Some s -> s ∈ open w' ->
     will_close r' p n s \/
     exists c, heap w !! p = Some c /\ closed c = true /\ field c n = Some s /\ s ∈ open w /\
       (will_close r p n s -> will_close r' p n s)) ->
  (forall p c' j x, heap w' !! p = Some c' -> closed c' = true ->
     lk r' = Fresh p \/ (j <> i /\ rs !! j = Some x /\ lk x = Fresh p) ->
     lk r' = Owe p \/
     exists c, heap w !! p = Some c /\ closed c = true /\ (lk r = Owe p -> lk r' = Owe p) /\
       (lk r' = Fresh p -> lk r = Fresh p)) ->
  (forall x, rt = Some x -> lk x = Free) ->
  closes_ok w' (upd_roles rs i r' rt).
Proof.
  intros Hi [Hc Hf] Hclose Hfresh Ht. split.
  - intros p c' n s Hp Hcl Hn Hs. destruct (Hclose p c' n s Hp Hcl Hn Hs) as [H|(c & ? & ? & ? & ? & H)].
    { exists i, r'. split; [by apply (upd_at _ _ r)|done]. }
    apply (upd_exists _ _ _ _ _ Hi (fun x => will_close x p n s)); [auto|]. by eapply Hc.
  - intros j x p c' Hj Hx Hp Hcl.
    assert (lk r' = Fresh p \/ (j <> i /\ rs !! j = Some x /\ lk x = Fresh p)) as Hcase.
    { apply (upd_inv _ _ _ _ _ Hi) in Hj as [[-> ->]|[[Hji Hj]|[_ Hrt]]]; [by left|by right|].
      rewrite (Ht x Hrt) in Hx. done. }
    destruct (Hfresh p c' j x Hp Hcl Hcase) as [H|(c & Hc' & Hcl' & Howe & Hfr)].
    { exists i, r'. split; [by apply (upd_at _ _ r)|done]. }
    apply (upd_exists _ _ _ _ _ Hi (fun x => lk x = Owe p)); [auto|].
    destruct Hcase as [H|(_ & Hj' & Hx')]; [|by eapply Hf]. eapply Hf; [exact Hi|by apply Hfr|done..].
Qed.

Lemma field_bound c n s : field c n = Some s -> (n <= 2)%nat.
Proof. destruct n as [|[|[|]]]; simpl; [lia..|done]. Qed.

(** Steps that leave the stage of critical sections alone. *)
Lemma closes_same w w' rs i r r' rt :
  rs !! i = Some r -> closes_ok w rs -> lk r' = lk r ->
  (forall p c' , heap w' !! p = Some c' -> closed c' = true -> exists c, heap w !! p = Some c /\ closed c = true /\
     forall n, field c' n = field c n) ->
  (forall s p c n, heap w !! p = Some c -> field c n = Some s -> s ∈ open w' -> s ∈ open w) ->
  (forall x, rt = Some x -> lk x = Free) ->
  closes_ok w' (upd_roles rs i r' rt).
Proof.
  intros Hi Hok Hl Hw Ho Ht. eapply closes_step; [exact Hi|exact Hok| | |exact Ht].
  - intros p c' n s Hp Hcl Hn Hs. right. destruct (Hw p c' Hp Hcl) as (c & Hc & Hcc & Hff).
    rewrite Hff in Hn. exists c. split_and!; [done..|by eapply Ho|]. unfold will_close. by rewrite Hl.
  - intros p c' j x Hp Hcl _. right. destruct (Hw p c' Hp Hcl) as (c & Hc & Hcc & _).
    exists c. by rewrite Hl.
Qed.

(** The stage changes, the heap does not, or only in a mutex. *)
Lemma closes_stage w w' rs i r l :
  rs !! i = Some r -> closes_ok w rs ->
  (forall p c', heap w' !! p = Some c' -> exists c, heap w !! p = Some c /\ closed c = closed c' /\
     forall n, field c' n = field c n) ->
  open w' ⊆ open w ->
  (forall p c n s, heap w !! p = Some c -> field c n = Some s -> s ∈ open w' ->
     will_close r p n s -> will_close (set_lk r l) p n s) ->
  (forall p, lk r = Owe p -> l = Owe p \/ forall j x, rs !! j = Some x -> lk x <> Fresh p) ->
  (forall p, l = Fresh p -> exists c, heap w !! p = Some c /\ closed c = false) ->
  closes_ok w' (upd_roles rs i (set_lk r l) None).
Proof.
  intros Hi Hok Hw Ho Hwc Howe Hfr. eapply closes_step; [exact Hi|exact Hok| | |done].
  - intros p c' n s Hp Hcl Hn Hs. right. destruct (Hw p c' Hp) as (c & Hc & Hcc & Hff).
    rewrite Hff in Hn. exists c. split_and!; [done|congruence|done|by apply Ho|]. by eapply Hwc.
  - intros p c' j x Hp Hcl Hcase. destruct (Hw p c' Hp) as (c & Hc & Hcc & _). simpl.
    assert (l <> Fresh p) as Hnf.
    { intros Hlf. destruct (Hfr p Hlf) as (c1 & ? & ?). simplify_eq. congruence. }
    right. exists c. split_and!; [done|congruence| |done]. intros Hrow.
    destruct (Howe p Hrow) as [?|Hno]; [done|]. exfalso.
    destruct Hcase as [?|(_ & Hj & Hx)]; [done|]. by eapply Hno.
Qed.

Lemma upd_conn_same w p c c' :
  heap w !! p = Some c -> closed c' = closed c -> (forall n, field c' n = field c n) ->
  forall q x, heap (upd_conn w p c') !! q = Some x -> exists y, heap w !! q = Some y /\
    closed y = closed x /\ forall n, field x n = field y n.
Proof.
  intros Hp Hcl Hff q x Hq. apply (upd_conn_lookup _ _ _ _ _ _ Hp) in Hq as [[-> ->]|[_ Hq]]; eauto.
Qed.

Lemma closes_swap w rs i r p c :
  rs !! i = Some r -> closes_ok w rs -> heap w !! p = Some c -> lk r = Free ->
  closes_ok (upd_conn w p (set_closed c true)) (upd_roles rs i (set_lk r (Owe p)) None).
Proof.
  intros Hi Hok Hc Hl. eapply closes_step; [exact Hi|exact Hok| | |done].
  - intros q x n s Hq Hx Hn Hs. apply (upd_conn_lookup _ _ _ _ _ _ Hc) in Hq as [[-> ->]|[_ Hq]];
      [by left|right]. exists x. split_and!; [done..|]. unfold will_close. by rewrite Hl.
  - intros q x j y Hq Hx _. apply (upd_conn_lookup _ _ _ _ _ _ Hc) in Hq as [[-> ->]|[_ Hq]];
      [by left|right]. exists x. split_and!; [done..| |done]. by rewrite Hl.
Qed.

Lemma closes_setconn w rs i p c s :
  rs !! i = Some (mk_role (Fresh p) (Some s) (Some (TRight p))) -> closes_ok w rs ->
  heap w !! p = Some c ->
  closes_ok (upd_conn w p (set_conn c (Some s))) (upd_roles rs i (mk_role (Fresh p) None None) None).
Proof.
  intros Hi [Hcl Hfr] Hc. split.
  - intros q x n s' Hq Hx Hn Hs'.
    apply (upd_exists _ _ _ _ _ Hi (fun x => will_close x q n s')); [by left|].
    apply (upd_conn_lookup _ _ _ _ _ _ Hc) in Hq as [[-> ->]|[_ Hq]]; [|by eapply Hcl].
    destruct (Hfr i _ p c Hi eq_refl Hc Hx) as (j & y & Hj & Hy).
    exists j, y. split; [done|]. unfold will_close. by rewrite Hy.
  - intros j y q x Hj Hy Hq Hx.
    apply (upd_exists _ _ _ _ _ Hi (fun x => lk x = Owe q)); [by left|].
    assert (exists x0, heap w !! q = Some x0 /\ closed x0 = true) as (x0 & Hx0 & Hcx0).
    { apply (upd_conn_lookup _ _ _ _ _ _ Hc) in Hq as [[-> ->]|[_ Hq]]; eauto. }
    apply (upd_inv _ _ _ _ _ Hi) in Hj as [[-> ->]|[[_ Hj]|[_ ?]]]; [|by eapply Hfr|done].
    simpl in Hy. injection Hy as <-. by eapply (Hfr i).
Qed.

Lemma closes_lock w rs i r p c l :
  rs !! i = Some r -> locks_ok w rs -> closes_ok w rs -> heap w !! p = Some c -> locked c = false ->
  (lk r = Free /\ l = Held p) \/ (lk r = Owe p /\ l = Closing p 0) ->
  closes_ok (upd_conn w p (set_locked c true)) (upd_roles rs i (set_lk r l) None).
Proof.
  intros Hi Hlo Hok Hc Hcl Hl. eapply closes_stage; [exact Hi|exact Hok| |done| | |].
  - by eapply upd_conn_same; [exact Hc|..].
  - intros q x n s _ _ _. unfold will_close. simpl.
    destruct Hl as [[-> ->]|[-> ->]]; [done|]. intros ->. split; [done|lia].
  - intros q Hq. right. intros j x Hj Hx. destruct Hl as [[Hl _]|[Hl _]]; [congruence|].
    assert (q = p) as -> by congruence.
    destruct (lo_holder _ _ Hlo j x p Hj) as (c' & ? & ?); [unfold holds; by rewrite Hx|congruence].
  - intros q ->. by destruct Hl as [[_ ?]|[_ ?]].
Qed.

Lemma closes_eff o w rs i r w' r' rt :
  ptrs_fresh w -> rs !! i = Some r -> locks_ok w rs -> socks_ok w rs -> closes_ok w rs ->
  eff o w r w' r' rt -> closes_ok w' (upd_roles rs i r' rt).
Proof.
  intros Hf Hi Hlo Hso Hok He.
  assert (forall w1 r1 rt1, heap w1 = heap w -> open w1 ⊆ open w -> lk r1 = lk r ->
    (forall x, rt1 = Some x -> lk x = Free) -> closes_ok w1 (upd_roles rs i r1 rt1)) as Hsame.
  { intros w1 r1 rt1 Hh Ho Hl Ht. eapply closes_same; [exact Hi|exact Hok|done| |eauto|done]. rewrite Hh. eauto. }
  assert (forall w1 r1, heap w1 = heap w -> open w1 = {[next_sock w]} ∪ open w -> lk r1 = lk r ->
    closes_ok w1 (upd_roles rs i r1 None)) as Hnew.
  { intros w1 r1 Hh Ho Hl. eapply closes_same; [exact Hi|exact Hok|done|rewrite Hh; eauto| |done].
    intros s p c n Hp Hn. rewrite Ho. intros [->%elem_of_singleton|?]%elem_of_union; [|done].
    pose proof (so_field _ _ Hso p c n _ Hp Hn). lia. }
  destruct He as [w' Hfr|[Hl Ho]|[Hl Ho] Hns|p c l Hc Hcl Hl|p c Hc Hl|p c Hc Hl Hcl|p c Hc Hl Hcl
    |p c n Hc Hl|p s n Hl|s Ho|p c s Hc ->|[Hl Ho]|c Hl Hcc Hcl Ho Hg|addr rl -> Hor Ha|addr ->|sid rl -> Ha
    |sid ty addr p ->|sid ty addr p ->]; try (by apply Hsame); try (by apply Hnew).
  - by apply Hsame; [apply Hfr|by rewrite (frame_open _ _ Hfr)|..].
  - apply Hsame; try done. by intros x [= <-].
  - apply Hsame; try done. by intros x [= <-].
  - by apply closes_lock.
  - eapply closes_stage; [exact Hi|exact Hok|by eapply upd_conn_same; [exact Hc|..]|done| | |done].
    + intros q x n s Hq Hn _. apply field_bound in Hn. unfold will_close.
      destruct Hl as [->|[->| ->]]; simpl; [done|done|]. lia.
    + intros q Hq. destruct Hl as [?|[?|?]]; congruence.
  - eapply closes_stage; [exact Hi|exact Hok|eauto|done| | |].
    + intros q x n s _ _ _. unfold will_close. by rewrite Hl.
    + intros q Hq. congruence.
    + intros q [= <-]. eauto.
  - by apply closes_swap.
  - eapply closes_stage; [exact Hi|exact Hok|eauto|done| | |].
    + intros q x m s Hq Hm _. unfold will_close. rewrite Hl. intros [-> Hle]. simplify_eq.
      unfold closing_next. simpl. destruct (decide (m = n)) as [->|Hne].
      * rewrite Hm. auto.
      * destruct (field c n); (split; [done|]); [left|]; lia.
    + intros q Hq. congruence.
    + intros q. unfold closing_next. by destruct (field c n).
  - eapply closes_stage; [exact Hi|exact Hok|eauto|simpl; set_solver| | |done].
    + intros q x m s' _ _ Hs'. unfold will_close. rewrite Hl. simpl.
      intros [-> [?|[-> ->]]]; [done|]. exfalso. simpl in Hs'. set_solver.
    + intros q Hq. congruence.
  - apply Hsame; try done. simpl. set_solver.
  - by apply closes_setconn.
  - eapply closes_same; [exact Hi|exact Hok|by rewrite Hl| |done|done].
    intros p x Hp Hx. apply alloc_lookup in Hp as [[-> ->]|[_ Hp]]; [congruence|eauto|done].
Qed.

(** ** Counting sessions and granted connections *)

Definition sum (f : role -> Z) (rs : list role) : Z := foldr (fun r acc => f r + acc) 0 rs.

Lemma sum_app f l l' : sum f (l ++ l') = sum f l + sum f l'.
Proof. induction l; simpl; lia. Qed.

Lemma sum_upd f rs i r r' rt :
  rs !! i = Some r ->
  sum f (upd_roles rs i r' rt) = sum f rs - f r + f r' + match rt with Some x => f x | None => 0 end.
Proof.
  intros Hi. unfold upd_roles. rewrite sum_app.
  assert (sum f (<[i := r']> rs) = sum f rs - f r + f r') as ->.
  { revert i Hi. induction rs as [|x rs IH]; intros [|i] Hi; simplify_eq/=; [lia|].
    rewrite (IH i Hi). lia. }
  destruct rt; simpl; lia.
Qed.

(** The session slot of client [ip] that a goroutine holds, and the connection
    granted to session [sid] that it has still to dial. *)
Definition session_of (ip : gostring) (r : role) : Z :=
  match tok r with
  | Some (TSession addr) => if decide (extractIP addr = ip) then 1 else 0
  | _ => 0
  end.
Definition grant_of (sid : Z) (r : role) : Z :=
  match tok r with
  | Some (TGrant s) | Some (TDial s _) => if decide (s = sid) then 1 else 0
  | _ => 0
  end.

Record counts_ok (w : world) (rs : list role) : Prop := {
  co_sessions ip : mget (ipSessions (limiter w)) ip = sum (session_of ip) rs;
  co_grants sid : granted sid (log w) = dialed sid (log w) + sum (grant_of sid) rs;
}.

Lemma sum_nonneg f rs : (forall r, 0 <= f r) -> 0 <= sum f rs.
Proof. intros Hf. induction rs as [|r rs IH]; simpl; [lia|]. specialize (Hf r). lia. Qed.

Lemma session_of_nonneg ip r : 0 <= session_of ip r.
Proof. unfold session_of. repeat case_match; lia. Qed.
Lemma grant_of_nonneg sid r : 0 <= grant_of sid r.
Proof. unfold grant_of. repeat case_match; lia. Qed.

Lemma counts_eff o w rs i r w' r' rt :
  rl_wf (limiter w) -> rs !! i = Some r -> counts_ok w rs -> eff o w r w' r' rt ->
  counts_ok w' (upd_roles rs i r' rt).
Proof.
  intros Hrl Hi [Hs Hg] He.
  assert (forall w1 r1 rt1,
    (forall ip, mget (ipSessions (limiter w1)) ip - mget (ipSessions (limiter w)) ip =
       session_of ip r1 - session_of ip r + match rt1 with Some x => session_of ip x | None => 0 end) ->
    (forall sid, (granted sid (log w1) - granted sid (log w)) - (dialed sid (log w1) - dialed sid (log w)) =
       grant_of sid r1 - grant_of sid r + match rt1 with Some x => grant_of sid x | None => 0 end) ->
    counts_ok w1 (upd_roles rs i r1 rt1)) as Hstep.
  { intros w1 r1 rt1 H1 H2. split.
    - intros ip. rewrite (sum_upd _ _ _ _ _ _ Hi), <- Hs. specialize (H1 ip). lia.
    - intros sid. rewrite (sum_upd _ _ _ _ _ _ Hi). specialize (H2 sid). specialize (Hg sid). lia. }
  assert (forall ip, session_of ip idle = 0) as Hidle by done.
  assert (forall sid, grant_of sid idle = 0) as Hidle' by done.
  destruct He as [w' Hfr|[Hl Ho]|[Hl Ho] Hns|p c l Hc Hcl Hl|p c Hc Hl|p c Hc Hl Hcl|p c Hc Hl Hcl
    |p c n Hc Hl|p s n Hl|s Ho|p c s Hc ->|[Hl Ho]|c Hl Hcc Hcl Ho Hgr|addr rl -> Hor Ha|addr ->|sid rl -> Ha
    |sid ty addr p ->|sid ty addr p ->]; apply Hstep; intros x;
    try (unfold session_of; simpl; lia); try (unfold grant_of; simpl; lia).
  - rewrite (frame_sessions _ _ Hfr). lia.
  - rewrite (frame_granted _ _ Hfr), (frame_dialed _ _ Hfr). lia.
  - unfold session_of. simpl. destruct (tok r) as [[]|]; simpl; lia.
  - unfold grant_of. simpl. destruct (tok r) as [[]|]; simpl; lia.
  - pose proof (TryAcquireSession_lookup (limiter w) addr x) as H. rewrite Ha in H. simpl in *. rewrite H.
    unfold session_of. simpl. case_decide;
      [rewrite bool_decide_true by done|rewrite bool_decide_false by done]; simpl; lia.
  - pose proof (sum_nonneg (session_of x) (upd_roles rs i idle None) (session_of_nonneg x)) as Hnn.
    rewrite (sum_upd _ _ _ _ _ _ Hi), <- Hs in Hnn. unfold session_of in Hnn |- *. simpl in Hnn |- *.
    rewrite ReleaseSession_lookup by done. case_decide; lia.
  - pose proof (TryConnection_sessions (limiter w) (now w) (remoteIP (sess w sid))) as [H _].
    rewrite Ha in H. simpl in *. rewrite H. unfold session_of. simpl. lia.
  - simpl. rewrite granted_app, dialed_app. unfold grant_of. simpl. case_decide; lia.
  - simpl. rewrite granted_app, dialed_app. unfold grant_of. simpl. case_decide; lia.
  - simpl. rewrite granted_app, dialed_app. unfold grant_of. simpl. case_decide; lia.
Qed.

(** ** What single steps keep *)

(** The possible answers to an operation, and the branches of its meaning. *)
Ltac perform_cases a Hp :=
  destruct a; simpl in Hp; try done;
  repeat match type of Hp with
  | (heap ?w !! ?p ≫= _) = _ => destruct (heap w !! p) eqn:?; simpl in Hp; [|done]
  | context [let '(_, _) := ?x in _] => destruct x
  | context [if ?b then _ else _] => destruct b
  | context [match ?o with Some _ => _ | None => _ end] => destruct o
  end; simplify_eq.

Lemma perform_limiter w g a w' g' t :
  rl_wf (limiter w) -> perform w g a = Some (w', g', t) ->
  rl_wf (limiter w') /\ maxSessions (limiter w') = maxSessions (limiter w) /\
  maxConnsPerDay (limiter w') = maxConnsPerDay (limiter w).
Proof.
  intros Hrl Hp.
  pose proof (fun c => exec_wf (limiter w) c Hrl) as Hwf. pose proof (exec_limits (limiter w)) as Hlim.
  destruct g; try (perform_cases a Hp; done); destruct a; simpl in Hp; try done.
  - specialize (Hwf (Acquire addr)). specialize (Hlim (Acquire addr)). simpl in *.
    destruct (TryAcquireSession (limiter w) addr) as [ok rl]. simplify_eq/=. done.
  - simplify_eq. exact (conj (Hwf (Release addr)) (Hlim (Release addr))).
  - specialize (Hwf (Connect (now w) (remoteIP (sess w sid)))).
    specialize (Hlim (Connect (now w) (remoteIP (sess w sid)))). simpl in *.
    destruct (TryConnection _ _ _) as [ok rl]. simplify_eq/=. by destruct ok.
Qed.

(** Connections are never freed and keep their id. *)
Lemma perform_heap w g a w' g' t p c :
  ptrs_fresh w -> perform w g a = Some (w', g', t) -> heap w !! p = Some c ->
  exists c', heap w' !! p = Some c' /\ id c' = id c.
Proof.
  intros Hf Hp Hc.
  assert (forall q x x', heap w !! q = Some x -> id x' = id x ->
    exists c', heap (upd_conn w q x') !! p = Some c' /\ id c' = id c) as Hupd.
  { intros q x x' Hq Hx. simpl. destruct (decide (p = q)) as [->|].
    - rewrite lookup_insert_eq. simplify_eq. eauto.
    - rewrite lookup_insert_ne by done. eauto. }
  destruct g; perform_cases a Hp; eauto.
  exists c. split; [by apply alloc_old|done].
Qed.

Lemma sess_upd w sid f sid' :
  sess (upd_sess w sid f) sid' = if decide (sid' = sid) then f (sess w sid) else sess w sid'.
Proof.
  unfold sess at 1, upd_sess. simpl. case_decide as E; [subst|].
  - by rewrite lookup_insert_eq.
  - by rewrite lookup_insert_ne.
Qed.

(** The entries of the maps after a step are old ones, or the stored one. *)
Lemma perform_entries w o r g a w' g' t sid key p :
  typed (ctx_of w) o r g -> perform w g a = Some (w', g', t) ->
  connections (sess w' sid) !! key = Some p ->
  connections (sess w sid) !! key = Some p \/ (exists c, heap w !! p = Some c /\ id c = key).
Proof.
  intros Ht Hp Hk.
  assert (forall sid0 f, w' = upd_sess w sid0 f ->
    (forall s kk x, connections (f s) !! kk = Some x -> connections s !! kk = Some x \/
       (exists c, heap w !! x = Some c /\ id c = kk)) ->
    connections (sess w sid) !! key = Some p \/ (exists c, heap w !! p = Some c /\ id c = key)) as Hupd.
  { intros sid0 f -> Hf. rewrite sess_upd in Hk. case_decide; [subst|by left]. by apply Hf. }
  destruct g; perform_cases a Hp; auto.
  - unfold sess, new_sess in Hk. simpl in Hk. destruct (decide (sid = next_sid w)) as [->|].
    + rewrite lookup_insert_eq in Hk. simpl in Hk. by rewrite lookup_empty in Hk.
    + rewrite lookup_insert_ne in Hk by done. by left.
  - eapply Hupd; [done|]. simpl. auto.
  - destruct Ht as (_ & (st & Hst & Hid) & _). apply ctx_ptr in Hst as (c & Hc & ->).
    eapply Hupd; [done|]. simpl. intros s kk x. rewrite lookup_insert_Some.
    intros [[<- <-]|[_ ?]]; [right|by left]. eauto.
  - eapply Hupd; [done|]. simpl. intros s kk x. rewrite lookup_delete_Some. intros [_ ?]. by left.
  - eapply Hupd; [done|]. simpl. intros s kk x. rewrite lookup_delete_Some. intros [_ ?]. by left.
  - eapply Hupd; [done|]. simpl. auto.
Qed.

Lemma perform_maps w o r g a w' g' t :
  ptrs_fresh w -> maps_ok w -> typed (ctx_of w) o r g -> perform w g a = Some (w', g', t) -> maps_ok w'.
Proof.
  intros Hf Hm Ht Hp sid key p Hk.
  assert (exists c, heap w !! p = Some c /\ id c = key) as (c & Hc & <-).
  { destruct (perform_entries _ _ _ _ _ _ _ _ _ _ _ Ht Hp Hk) as [H|?]; [by eapply Hm|done]. }
  destruct (perform_heap _ _ _ _ _ _ _ _ Hf Hp Hc) as (c' & ? & ?). eauto.
Qed.

Lemma eff_ptrs o w r w' r' rt : ptrs_fresh w -> eff o w r w' r' rt -> next_ptr w' >= next_ptr w -> ptrs_fresh w'.
Proof.
  intros Hf He Hn p. 
  assert (forall q x, heap w !! q = Some x -> forall x', is_Some (<[q := x']> (heap w) !! p) -> p < next_ptr w) as Hins.
  { intros q x Hq x'. destruct (decide (p = q)) as [->|].
    - intros _. apply Hf. by rewrite Hq.
    - rewrite lookup_insert_ne by done. apply Hf. }
  destruct He; simpl in *; try (by apply Hf); try (intros Hp; eapply Hins in Hp; [|done]; lia).
  - rewrite (frame_heap _ _ H). intros Hp. specialize (Hf p Hp). lia.
  - destruct (decide (p = next_ptr w)) as [->|]; [lia|]. rewrite lookup_insert_ne by done.
    intros Hp. specialize (Hf p Hp). lia.
Qed.

Lemma perform_next w g a w' g' t : perform w g a = Some (w', g', t) -> next_ptr w' >= next_ptr w.
Proof.
  intros Hp. destruct g; perform_cases a Hp; simpl; lia.
Qed.

(** Every lookup in the log is an answer of some name service, and every dialled
    address had been cleared before. *)
Record log_ok (l : list obs) : Prop := {
  lo_looked host a : Looked host a ∈ l -> exists lk, a = LookupIP lk host;
  lo_dialed l1 sid ty addr l2 : l = l1 ++ Dialed sid ty addr :: l2 -> cleared l1 sid ty addr;
}.

Lemma log_add l e :
  log_ok l -> match e with
    | Looked host a => exists lk, a = LookupIP lk host
    | Dialed sid ty addr => cleared l sid ty addr
    | _ => True
    end -> log_ok (l ++ [e]).
Proof.
  intros [H1 H2] He. split.
  - intros host a [?|Hin%list_elem_of_singleton]%elem_of_app; [eauto|]. by subst e.
  - intros l1 sid ty addr l2 E. destruct l2 as [|e' l2 _] using rev_ind.
    + apply app_inj_tail in E as [-> ->]. done.
    + rewrite app_comm_cons, app_assoc in E. apply app_inj_tail in E as [E _]. by apply (H2 l1 sid ty addr l2).
Qed.

Lemma perform_log w o r g a w' g' t :
  log_ok (log w) -> typed (ctx_of w) o r g -> perform w g a = Some (w', g', t) -> log_ok (log w').
Proof.
  intros Hl Ht Hp. destruct g; perform_cases a Hp; simpl; try done; apply log_add; try done.
  - by eexists.
  - apply Ht.
  - apply Ht.
Qed.
