(* ===== verification/ProxyProps.v ===== *)
(** * friscy-proxy: properties of every execution

    The invariants of [ProxyInv] hold in every reachable configuration, and what
    they mean for the proxy. *)

From S2P Require Import Prelude ByteOrder GoIO Varint HostPort NetIP NetipAddr RateLimiter Wire Resolve.
From S2P Require Import Proxy ProxyTyping ProxyInv.

Local Set Warnings "-clear-no-such-hyp".

(** ** The invariant of configurations *)

Definition goroutine_ok (c : context) (g : goroutine) (r : role) : Prop :=
  typed c (origin g) r (code g) /\ forall a, tok r = Some (TSession a) -> origin g = Some a.

Record inv (ms mc : Z) (c : config) (rs : list role) : Prop := {
  inv_gos : Forall2 (goroutine_ok (ctx_of (wld c))) (gos c) rs;
  inv_fresh : ptrs_fresh (wld c);
  inv_maps : maps_ok (wld c);
  inv_locks : locks_ok (wld c) rs;
  inv_rights : rights_ok (wld c) rs;
  inv_socks : socks_ok (wld c) rs;
  inv_closes : closes_ok (wld c) rs;
  inv_limiter : rl_wf (limiter (wld c)) /\ maxSessions (limiter (wld c)) = ms /\
                maxConnsPerDay (limiter (wld c)) = mc;
  inv_counts : counts_ok (wld c) rs;
  inv_log : log_ok (log (wld c));
}.

Lemma inv_initial ms mc t0 : inv ms mc (initial ms mc t0) [].
Proof.
  split; simpl.
  - constructor.
  - intros p. simpl. rewrite lookup_empty. by intros [].
  - intros sid key p. unfold sess. simpl. by rewrite lookup_empty.
  - split; done.
  - split; done.
  - split; simpl; [done|done|set_solver].
  - split; done.
  - split; [apply NewRateLimiter_wf|done].
  - split; done.
  - split; [set_solver|]. by intros [].
Qed.

Lemma perform_extends w g a w' g' t :
  ptrs_fresh w -> perform w g a = Some (w', g', t) -> extends (ctx_of w) (ctx_of w').
Proof.
  intros Hf Hp.
  assert (forall p c c', heap w !! p = Some c -> stat c' = stat c ->
    extends (ctx_of w) (ctx_of (upd_conn w p c'))) as Hupd.
  { intros p c c' Hc Hs. rewrite (ctx_upd_conn w p c c') by done. apply extends_refl. }
  destruct g; perform_cases a Hp; try apply extends_refl; try (eapply Hupd; [done|done]);
    try apply (extends_add_seen (ctx_of w)).
  rewrite ctx_alloc. split; [|done]. simpl. apply insert_subseteq. rewrite lookup_fmap.
  destruct (heap w !! next_ptr w) eqn:E; [|done]. specialize (Hf (next_ptr w) ltac:(by rewrite E)). lia.
Qed.

(** New session slots are taken only by the handler of the request. *)
Lemma eff_origin o w r w' r' rt :
  eff o w r w' r' rt ->
  (forall a, tok r = Some (TSession a) -> o = Some a) ->
  (forall a, tok r' = Some (TSession a) -> o = Some a) /\
  (forall x a, rt = Some x -> tok x <> Some (TSession a)).
Proof.
  destruct 1; intros Ho; (split; [|try done]); simpl; try done; try (by subst; simpl in *; auto).
  - by intros x a [= <-].
  - intros x a [= <-]. auto.
  - intros a. destruct (tok r) as [[]|]; simpl; auto; done.
  - intros a [= <-]. done.
Qed.

(** A goroutine that starts with nothing changes no invariant. *)
Lemma idle_inv (rs : list role) j x : (rs ++ [idle]) !! j = Some x -> rs !! j = Some x \/ x = idle.
Proof.
  intros [?|[_ Hj]]%lookup_app_Some; [by left|right].
  by apply list_lookup_singleton_Some in Hj as [_ <-].
Qed.

Lemma idle_exists (P : role -> Prop) rs :
  (exists i r, rs !! i = Some r /\ P r) -> exists i r, (rs ++ [idle]) !! i = Some r /\ P r.
Proof. intros (i & r & Hi & Hr). exists i, r. split; [by apply lookup_app_l_Some|done]. Qed.

Lemma locks_idle w rs : locks_ok w rs -> locks_ok w (rs ++ [idle]).
Proof.
  intros [H1 H2 H3]. split.
  - intros i r p [?| ->]%idle_inv Hh; [eauto|done].
  - intros p i j r r' [?| ->]%idle_inv [?| ->]%idle_inv Hh Hh'; eauto; done.
  - intros. apply (idle_exists (fun x => holds x p)). eauto.
Qed.

Lemma rights_idle w rs : rights_ok w rs -> rights_ok w (rs ++ [idle]).
Proof.
  intros [H1 H2]. split.
  - intros i r p [?| ->]%idle_inv Hh; [eauto|done].
  - intros p i j r r' [?| ->]%idle_inv [?| ->]%idle_inv Hh Hh'; eauto; done.
Qed.

Lemma socks_idle w rs : socks_ok w rs -> socks_ok w (rs ++ [idle]).
Proof.
  intros [H1 H2 H3]. split.
  - done.
  - intros i r s [?| ->]%idle_inv Hh; [eauto|done].
  - intros s Hs. destruct (H3 s Hs) as [?|?]; [left|by right].
    by apply (idle_exists (fun x => own x = Some s)).
Qed.

Lemma closes_idle w rs : closes_ok w rs -> closes_ok w (rs ++ [idle]).
Proof.
  intros [H1 H2]. split.
  - intros p c n s ????. apply (idle_exists (fun x => will_close x p n s)). eauto.
  - intros i r p c [?| ->]%idle_inv ???; [|done]. apply (idle_exists (fun x => lk x = Owe p)). eauto.
Qed.

Lemma counts_idle w rs : counts_ok w rs -> counts_ok w (rs ++ [idle]).
Proof.
  intros [H1 H2]. split; [intros ip; rewrite H1|intros sid; rewrite H2]; rewrite sum_app; simpl;
    unfold session_of, grant_of; simpl; lia.
Qed.

(** A goroutine takes a step: its role changes, and the function it starts gets one. *)
Lemma inv_run ms mc c rs i g a w' k t :
  inv ms mc c rs -> gos c !! i = Some g -> perform (wld c) (code g) a = Some (w', k, t) ->
  exists r r' rt, rs !! i = Some r /\ spawn_typed (ctx_of w') t rt /\
    inv ms mc (mk_config w' (<[i := mk_goroutine (origin g) k]> (gos c) ++ spawned t)) (upd_roles rs i r' rt).
Proof.
  destruct c as [w gs]. intros [Hg Hfr Hma Hlo Hri Hso Hcl Hli Hco Hlg] Hi Hp. simpl in *.
  destruct (Forall2_lookup_l _ _ _ _ _ Hg Hi) as (r & Hr & Hty & Hor).
  destruct (perform_eff _ _ _ _ _ _ _ _ Hfr Hma Hty Hp) as (r' & rt & Hty' & Hsp & He).
  destruct (eff_origin _ _ _ _ _ _ He Hor) as [Hor' Hort].
  pose proof (perform_extends _ _ _ _ _ _ Hfr Hp) as Hext.
  destruct Hli as (Hwf & <- & <-). destruct (perform_limiter _ _ _ _ _ _ Hwf Hp) as (? & ? & ?).
  exists r, r', rt. split; [done|]. split; [done|]. split; simpl.
  - apply Forall2_app.
    + apply Forall2_insert; [|done]. eapply Forall2_impl; [exact Hg|].
      intros g1 r1 [??]. split; [by eapply typed_mono|done].
    + destruct t, rt; simpl in *; try done. constructor; [|constructor]. split; [done|].
      intros a' Ha'. by destruct (Hort r0 a').
  - eapply eff_ptrs; [exact Hfr|exact He|by eapply perform_next].
  - by eapply perform_maps.
  - by eapply locks_eff.
  - by eapply rights_eff.
  - by eapply socks_eff.
  - by eapply closes_eff.
  - done.
  - eapply counts_eff; [exact Hwf|exact Hr|exact Hco|exact He].
  - by eapply perform_log.
Qed.

Lemma inv_step ms mc c rs c' : inv ms mc c rs -> step c c' -> exists rs', inv ms mc c' rs'.
Proof.
  intros Hinv Hs. destruct Hs as [w gs i g a w' k t Hi Hp _|w gs addr|w gs t Ht].
  - destruct (inv_run _ _ _ _ _ _ _ _ _ _ Hinv Hi Hp) as (r & r' & rt & _ & _ & H). by eexists.
  - destruct Hinv as [Hg Hfr Hma Hlo Hri Hso Hcl Hli Hco Hlg].
    exists (rs ++ [idle]). split; simpl; try done;
      eauto using locks_idle, rights_idle, socks_idle, closes_idle, counts_idle.
    apply Forall2_app; [done|]. constructor; [|constructor]. by split.
  - destruct Hinv as [Hg Hfr Hma Hlo Hri Hso Hcl Hli Hco Hlg]. exists rs. split; simpl; try done.
    + by destruct Hlo; split.
    + by destruct Hri; split.
    + by destruct Hso; split.
    + by destruct Hcl; split.
    + by destruct Hco; split.
Qed.

Lemma inv_reachable ms mc t0 c : reachable ms mc t0 c -> exists rs, inv ms mc c rs.
Proof.
  unfold reachable. intros H. remember (initial ms mc t0) as c0 eqn:E.
  assert (exists rs, inv ms mc c0 rs) as Hinv by (subst; exists []; apply inv_initial).
  clear E. induction H as [|c1 c2 c3 Hs _ IH]; [done|]. apply IH.
  destruct Hinv as [rs Hrs]. by eapply inv_step.
Qed.

(** ** Where a goroutine is *)

(** Not inside Close, a critical section or the registration of a new socket:
    finished, about to start a function, waiting for the network or a client, or
    at the map of connections or the rate limiter. *)
Definition outside (g : prog) : bool :=
  match g with
  | Panic | Lock _ _ | Unlock _ _ | LoadClosed _ _ | GetConn _ _ | SetConn _ _ _ | GetListener _ _
  | GetUdpConn _ _ | CloseSock _ _ | NextConnID _ _ | Alloc _ _ => false
  | _ => true
  end.

(** About to use [conn] of the connection or to release its mutex. *)
Definition in_section (g : prog) (p : ptr) : Prop :=
  match g with
  | Unlock q _ | GetConn q _ | SetConn q _ _ => q = p
  | _ => False
  end.

Lemma outside_free c o r g : typed c o r g -> outside g = true -> free r.
Proof. destruct g; simpl; intros Ht Ho; try done; destruct_and?; by subst. Qed.

Lemma in_section_holds c o r g p : typed c o r g -> in_section g p -> holds r p.
Proof.
  unfold holds. destruct g; simpl; try done; intros Ht ->; try (destruct (lk r); naive_solver).
  by destruct Ht as [-> _].
Qed.

(** The holder of a mutex runs without waiting for anything. *)
Lemma holder_runs w rs o i r g p :
  locks_ok w rs -> rs !! i = Some r -> typed (ctx_of w) o r g -> holds r p ->
  g <> Panic -> exists w' k, perform w g A_none = Some (w', k, None).
Proof.
  intros Hlo Hi Ht Hh Hnp. destruct (lo_holder _ _ Hlo i r p Hi Hh) as (x & Hx & _).
  assert (forall q st, ptrs (ctx_of w) !! q = Some st -> exists y, heap w !! q = Some y) as Hptr.
  { intros q st Hq. apply ctx_ptr in Hq as (y & ? & _). eauto. }
  unfold holds in Hh. destruct (lk r) eqn:El; try done; subst;
    destruct g; simpl in Ht; unfold free in Ht; rewrite ?El in Ht; try done;
    destruct_and?; try congruence; simplify_eq; simpl; rewrite ?Hx; simpl; eauto;
    try (destruct Ht as (st & Hst & Ht); destruct (Hptr _ _ Hst) as (y & ->); simpl; eauto).
  simpl in El. injection El as ->. rewrite Hx. simpl. eauto.
Qed.

Lemma crashed_spec c : crashed c = true <-> exists g, g ∈ gos c /\ code g = Panic.
Proof.
  unfold crashed. rewrite existsb_exists. split.
  - intros (g & Hg & Hp). exists g. split; [by apply list_elem_of_In|]. by destruct (code g).
  - intros (g & Hg & Hp). exists g. split; [by apply list_elem_of_In|]. by rewrite Hp.
Qed.

(** The live /connect handlers of a client. *)
Definition live_handler (ip : gostring) (g : goroutine) : Z :=
  match origin g, code g with
  | _, Done => 0
  | Some a, _ => if decide (extractIP a = ip) then 1 else 0
  | None, _ => 0
  end.
Definition live (ip : gostring) (gs : list goroutine) : Z :=
  foldr (fun g acc => live_handler ip g + acc) 0 gs.

Lemma sessions_live c ip gs rs :
  Forall2 (goroutine_ok c) gs rs -> sum (session_of ip) rs <= live ip gs.
Proof.
  induction 1 as [|g r gs rs [Ht Ho] _ IH]; [done|].
  change (session_of ip r + sum (session_of ip) rs <= live_handler ip g + live ip gs).
  enough (session_of ip r <= live_handler ip g) by lia.
  unfold session_of, live_handler. destruct (tok r) as [[a| | |]|] eqn:Et;
    try (destruct (origin g), (code g); repeat case_decide; lia).
  rewrite (Ho a eq_refl). destruct (code g); try done. simpl in Ht. rewrite Et in Ht.
  by destruct Ht as [_ []].
Qed.

Lemma inv_sessions ms mc c rs ip :
  inv ms mc c rs ->
  0 <= mget (ipSessions (limiter (wld c))) ip <= Z.max 0 ms /\
  mget (ipSessions (limiter (wld c))) ip <= live ip (gos c) /\
  (live ip (gos c) = 0 -> ipSessions (limiter (wld c)) !! ip = None).
Proof.
  intros Hinv.
  pose proof (sessions_live _ ip _ _ (inv_gos _ _ _ _ Hinv)) as Hle.
  destruct (inv_limiter _ _ _ _ Hinv) as (Hwf & Hms & _).
  pose proof (mget_sessions_bound _ ip Hwf) as Hb. rewrite Hms in Hb.
  rewrite (co_sessions _ _ (inv_counts _ _ _ _ Hinv) ip) in *. split_and!; [lia|lia|done|].
  intros H0. destruct (ipSessions _ !! ip) as [n|] eqn:E; [|done].
  pose proof (wf_sessions _ Hwf ip n E).
  pose proof (co_sessions _ _ (inv_counts _ _ _ _ Hinv) ip) as Hc. unfold mget in Hc. rewrite E in Hc.
  simpl in Hc. lia.
Qed.

(** ** Claims *)

(** [C1] Closing leaves no socket behind.  In every execution, at every moment at
    which no goroutine is inside Close, a critical section or the registration of
    a new socket, no mutex of a connection is locked, and every open socket is a
    field of a connection that is not closed: closing a connection while it is
    being dialled, accepted or closed by others never leaks its socket. *)
Theorem closed_connections_release_sockets ms mc t0 c :
  reachable ms mc t0 c ->
  (forall g, g ∈ gos c -> outside (code g) = true) ->
  (forall p x, heap (wld c) !! p = Some x -> locked x = false) /\
  (forall s, s ∈ open (wld c) ->
     exists p x n, heap (wld c) !! p = Some x /\ field x n = Some s /\ closed x = false).
Proof.
  intros Hr Hout. destruct (inv_reachable _ _ _ _ Hr) as [rs Hinv].
  assert (forall i r, rs !! i = Some r -> free r) as Hfree.
  { intros i r Hi. destruct (Forall2_lookup_r _ _ _ _ _ (inv_gos _ _ _ _ Hinv) Hi) as (g & Hg & Ht & _).
    eapply outside_free; [exact Ht|]. apply Hout. by eapply list_elem_of_lookup_2. }
  split.
  - intros p x Hp. destruct (locked x) eqn:El; [|done]. exfalso.
    destruct (lo_locked _ _ (inv_locks _ _ _ _ Hinv) p x Hp El) as (i & r & Hi & Hh).
    destruct (Hfree i r Hi) as [Hl _]. unfold holds in Hh. by rewrite Hl in Hh.
  - intros s Hs. destruct (so_open _ _ (inv_socks _ _ _ _ Hinv) s Hs) as [(i & r & Hi & Ho)|(p & x & n & Hp & Hn)].
    + destruct (Hfree i r Hi) as [_ Hn]. congruence.
    + exists p, x, n. split_and!; [done..|]. destruct (closed x) eqn:Ec; [|done]. exfalso.
      destruct (co_close _ _ (inv_closes _ _ _ _ Hinv) p x n s Hp Ec Hn Hs) as (i & r & Hi & Hw).
      destruct (Hfree i r Hi) as [Hl _]. unfold will_close in Hw. by rewrite Hl in Hw.
Qed.

(** [C6] The mutex of a connection does its work.  At most one goroutine at a time
    is about to read or write the [conn] field or to unlock the mutex, and then the
    mutex is locked (no unlock of an unlocked mutex); and while it is locked and the
    process has not crashed, some goroutine holds it whose next operation needs
    nothing from the outside and no other lock: a held mutex is always on its way to
    be released. *)
Theorem connection_mutex_discipline ms mc t0 c p :
  reachable ms mc t0 c ->
  (forall i j g h, gos c !! i = Some g -> gos c !! j = Some h ->
     in_section (code g) p -> in_section (code h) p -> i = j) /\
  (forall i g, gos c !! i = Some g -> in_section (code g) p ->
     exists x, heap (wld c) !! p = Some x /\ locked x = true) /\
  (forall x, heap (wld c) !! p = Some x -> locked x = true -> crashed c = false ->
     exists i g w' k, gos c !! i = Some g /\ perform (wld c) (code g) A_none = Some (w', k, None) /\
       outside (code g) = false).
Proof.
  intros Hr. destruct (inv_reachable _ _ _ _ Hr) as [rs Hinv]. pose proof (inv_locks _ _ _ _ Hinv) as Hlo.
  assert (forall i g, gos c !! i = Some g -> exists r, rs !! i = Some r /\
    typed (ctx_of (wld c)) (origin g) r (code g)) as Hty.
  { intros i g Hg. destruct (Forall2_lookup_l _ _ _ _ _ (inv_gos _ _ _ _ Hinv) Hg) as (r & ? & ? & _). eauto. }
  split_and!.
  - intros i j g h Hg Hh Sg Sh. destruct (Hty i g Hg) as (r & Hi & Ht), (Hty j h Hh) as (r' & Hj & Ht').
    eapply (lo_excl _ _ Hlo p); eauto using in_section_holds.
  - intros i g Hg Sg. destruct (Hty i g Hg) as (r & Hi & Ht).
    eapply lo_holder; eauto using in_section_holds.
  - intros x Hx Hl Hcr. destruct (lo_locked _ _ Hlo p x Hx Hl) as (i & r & Hi & Hh).
    destruct (Forall2_lookup_r _ _ _ _ _ (inv_gos _ _ _ _ Hinv) Hi) as (g & Hg & Ht & _).
    destruct (holder_runs _ _ _ _ _ _ p Hlo Hi Ht Hh) as (w' & k & Hp).
    { intros Hpan. assert (crashed c = true); [|congruence]. apply crashed_spec.
      exists g. split; [by eapply list_elem_of_lookup_2|done]. }
    exists i, g, w', k. split_and!; [done..|]. destruct (outside (code g)) eqn:Eo; [|done].
    destruct (outside_free _ _ _ _ Ht Eo) as [Hfl _]. unfold holds in Hh. by rewrite Hfl in Hh.
Qed.

(** The map of a session is well typed: every entry is the pointer of an
    allocated connection whose id is the key. *)
Theorem connections_map_sound ms mc t0 c sid key p :
  reachable ms mc t0 c -> connections (sess (wld c) sid) !! key = Some p ->
  exists x, heap (wld c) !! p = Some x /\ id x = key.
Proof.
  intros Hr. destruct (inv_reachable _ _ _ _ Hr) as [rs Hinv]. apply (inv_maps _ _ _ _ Hinv).
Qed.

(** [C2] Session slots.  In every execution the number of sessions counted for a
    client is at most the limit and at most the number of its /connect handlers
    that have not finished: every path of the handler gives its slot back, so a
    client none of whose handlers is running has no entry in the counter. *)
Theorem session_slots_are_returned ms mc t0 c ip :
  reachable ms mc t0 c ->
  0 <= mget (ipSessions (limiter (wld c))) ip <= Z.max 0 ms /\
  mget (ipSessions (limiter (wld c))) ip <= live ip (gos c) /\
  (live ip (gos c) = 0 -> ipSessions (limiter (wld c)) !! ip = None).
Proof.
  intros Hr. destruct (inv_reachable _ _ _ _ Hr) as [rs Hinv]. by eapply inv_sessions.
Qed.

(** [C7] No connection is dialled that was not asked for, checked and paid for.  Before
    every dial in the log of an execution, the client of the session had sent a connect
    message of the same type for a host and a port, the address dialled is formatted from
    them, and a lookup of the host had been logged whose answer, that of the name service
    at that moment, isPrivateAddr let through; and a session dials no more often than the
    rate limiter granted it a connection. *)
Theorem dials_are_checked_and_granted ms mc t0 c :
  reachable ms mc t0 c ->
  (forall l1 sid ty addr l2, log (wld c) = l1 ++ Dialed sid ty addr :: l2 ->
     exists host port lk, addr = addr_of host port /\ requested l1 sid ty host port /\
       Looked host (LookupIP lk host) ∈ l1 /\ isPrivateAddr lk host = false) /\
  (forall sid, dialed sid (log (wld c)) <= granted sid (log (wld c))).
Proof.
  intros Hr. destruct (inv_reachable _ _ _ _ Hr) as [rs Hinv]. split.
  - intros l1 sid ty addr l2 E. destruct (lo_dialed _ (inv_log _ _ _ _ Hinv) _ _ _ _ _ E) as (h & p & a & -> & Hr' & Hl & Hp).
    destruct (lo_looked _ (inv_log _ _ _ _ Hinv) h a) as (lk & ->); [rewrite E; set_solver|]. by exists h, p, lk.
  - intros sid. rewrite (co_grants _ _ (inv_counts _ _ _ _ Hinv) sid).
    pose proof (sum_nonneg (grant_of sid) rs (grant_of_nonneg sid)). lia.
Qed.

(** [C23] The only panic.  If a goroutine of the proxy panics, and the process with it, a
    client had sent a connect message whose header announces a host of 65534 bytes, or of
    65535 bytes with one more byte behind the header; no other input, interleaving or
    network behaviour makes a handler panic. *)
Theorem crash_only_by_overflow ms mc t0 c :
  reachable ms mc t0 c -> crashed c = true ->
  exists sid s s' connID sockType hostLen rest,
    Took sid s ∈ log (wld c) /\ read_msgType s = Some (MsgConnect, s') /\
    pending s' = be32 connID ++ [sockType] ++ be16 hostLen ++ rest /\
    (hostLen = 65534 \/ hostLen = 65535 /\ rest <> []).
Proof.
  intros Hr Hc. destruct (inv_reachable _ _ _ _ Hr) as [rs Hinv].
  apply crashed_spec in Hc as (g & Hg & Hp). apply list_elem_of_lookup_1 in Hg as [i Hi].
  destruct (Forall2_lookup_l _ _ _ _ _ (inv_gos _ _ _ _ Hinv) Hi) as (r & _ & Ht & _).
  rewrite Hp in Ht. destruct Ht as (sid & s & Hs & s' & Hm & (id & ty & n & rest & E & Hn)%host_overflow_iff).
  by exists sid, s, s', id, ty, n, rest.
Qed.

(** ** Executions for the witnesses *)

Definition after (ms : list move) : config := default (initial 3 100 0) (schedule (initial 3 100 0) ms).

Lemma after_reachable ms : reachable 3 100 0 (after ms).
Proof.
  unfold after, reachable. destruct (schedule (initial 3 100 0) ms) as [c|] eqn:E; simpl.
  - by eapply schedule_rtc.
  - apply rtc_refl.
Qed.

Definition demo_client : gostring := str "198.51.100.9:5000".

(** A client opens a session: goroutine 0 waits for its end, 1 accepts streams. *)
Definition session_up : list move :=
  [Request demo_client; Run 0 A_none; Run 0 A_none; Run 0 (A_ok true); Run 0 A_none].

(** A message arrives; its handler is the next goroutine. *)
Definition deliver (b : gobytes) : list move :=
  [Run 1 A_none; Run 1 (A_stream (Some (mk_stream [b] EOF false))); Run 1 A_none].

(** Goroutine 2 handles a connect message for connection 7, 3 dials. *)
Definition connect_up : list move :=
  session_up ++ deliver (1 :: connect_request 7 SOCK_STREAM (str "example.org") 443) ++
  [Run 2 A_none; Run 2 (A_lookup sample_lookupIP); Run 2 A_none; Run 2 A_none; Run 2 A_none; Run 2 A_none;
   Run 3 A_none; Run 3 (A_ok true)].

(** ... sets [conn] and starts to read. *)
Definition connected : list move :=
  connect_up ++ [Run 3 A_none; Run 3 A_none; Run 3 A_none; Run 3 A_none; Run 3 (A_ok true); Run 3 A_none].

(** ... but before it can, goroutine 4 handles a close message for it. *)
Definition closed_while_dialling : list move :=
  connect_up ++ deliver (5 :: close_request 7) ++
  [Run 4 A_none; Run 4 A_none; Run 4 A_none; Run 3 A_none; Run 3 A_none; Run 3 A_none; Run 3 A_none;
   Run 4 A_none; Run 4 A_none; Run 4 A_none; Run 4 A_none; Run 4 A_none; Run 4 (A_ok true)].

Example connected_state :
  open (wld (after connected)) = {[0]} /\
  sent (sess (wld (after connected)) 0) = [(MsgConnected, 7, [])] /\
  log (wld (after connected)) =
    [Took 0 (mk_stream [1 :: connect_request 7 SOCK_STREAM (str "example.org") 443] EOF false);
     Looked (str "example.org") (Ok [IPv4 93 184 216 34]); Granted 0;
     Dialed 0 SOCK_STREAM (str "example.org:443")].
Proof. vm_compute. done. Qed.

Example closed_while_dialling_state :
  open (wld (after closed_while_dialling)) = ∅ /\
  sent (sess (wld (after closed_while_dialling)) 0) = [(MsgClosed, 7, [])] /\
  connections (sess (wld (after closed_while_dialling)) 0) = ∅ /\
  map code (gos (after closed_while_dialling)) !! 3%nat = Some Done.
Proof. vm_compute. done. Qed.

Lemma closed_connections_release_sockets_witness :
  (forall p x, heap (wld (after connected)) !! p = Some x -> locked x = false) /\
  (forall s, s ∈ open (wld (after connected)) ->
     exists p x n, heap (wld (after connected)) !! p = Some x /\ field x n = Some s /\ closed x = false).
Proof.
  apply (closed_connections_release_sockets 3 100 0); [apply after_reachable|].
  intros g Hg. apply list_elem_of_In in Hg. revert g Hg. apply forallb_forall. vm_compute. reflexivity.
Defined.

Lemma connection_mutex_discipline_witness :
  let c := after (connect_up ++ [Run 3 A_none]) in
  exists i g w' k, gos c !! i = Some g /\ perform (wld c) (code g) A_none = Some (w', k, None) /\
    outside (code g) = false.
Proof.
  intros c.
  destruct (connection_mutex_discipline 3 100 0 c 0 (after_reachable _)) as (_ & _ & H).
  destruct (heap (wld c) !! 0) as [x|] eqn:E; [|vm_compute in E; discriminate].
  apply (H x eq_refl); [vm_compute in E; by injection E as <-|vm_compute; reflexivity].
Defined.

Lemma connections_map_sound_witness :
  exists x, heap (wld (after connected)) !! 0 = Some x /\ id x = 7.
Proof.
  apply (connections_map_sound 3 100 0 (after connected) 0 7 0); [apply after_reachable|].
  vm_compute. reflexivity.
Defined.

Lemma session_slots_are_returned_witness :
  let c := after connected in let ip := str "198.51.100.9" in
  mget (ipSessions (limiter (wld c))) ip = 1 /\
  0 <= mget (ipSessions (limiter (wld c))) ip <= Z.max 0 3 /\
  mget (ipSessions (limiter (wld c))) ip <= live ip (gos c) /\
  (live ip (gos c) = 0 -> ipSessions (limiter (wld c)) !! ip = None).
Proof.
  intros c ip. split; [vm_compute; reflexivity|].
  apply (session_slots_are_returned 3 100 0 c ip). apply after_reachable.
Defined.

Lemma dials_are_checked_and_granted_witness :
  exists host port lk, str "example.org:443" = addr_of host port /\
    requested (take 3 (log (wld (after connected)))) 0 SOCK_STREAM host port /\
    Looked host (LookupIP lk host) ∈ take 3 (log (wld (after connected))) /\ isPrivateAddr lk host = false.
Proof.
  apply (proj1 (dials_are_checked_and_granted 3 100 0 (after connected) (after_reachable _))
    (take 3 (log (wld (after connected)))) 0 SOCK_STREAM (str "example.org:443") []).
  vm_compute. reflexivity.
Defined.

(** The message that crashes the proxy: a host length of 65535. *)
Definition crashing_message : gobytes := [1; 0; 0; 0; 1; 1; 255; 255; 0].
Definition crash_run : list move := session_up ++ deliver crashing_message ++ [Run 2 A_none].

Lemma crash_only_by_overflow_witness :
  crashed (after crash_run) = true /\
  exists sid s s' connID sockType hostLen rest,
    Took sid s ∈ log (wld (after crash_run)) /\ read_msgType s = Some (MsgConnect, s') /\
    pending s' = be32 connID ++ [sockType] ++ be16 hostLen ++ rest /\
    (hostLen = 65534 \/ hostLen = 65535 /\ rest <> []).
Proof.
  assert (crashed (after crash_run) = true) as Hc by (vm_compute; reflexivity).
  exact (conj Hc (crash_only_by_overflow 3 100 0 (after crash_run) (after_reachable _) Hc)).
Defined.

(** ** Close by itself *)

(** A goroutine that runs alone, with nothing to wait for. *)
Inductive solo : world -> prog -> world -> prog -> Prop :=
  | solo_refl w g : solo w g w g
  | solo_step w g w1 g1 w2 g2 :
      perform w g A_none = Some (w1, g1, None) -> solo w1 g1 w2 g2 -> solo w g w2 g2.

Definition socks_of (c : Connection) : gset sock :=
  list_to_set (option_list (conn c) ++ option_list (listener c) ++ option_list (udpConn c)).

Lemma solo_close_opt w v k w' g' :
  solo (set_open w (open w ∖ list_to_set (option_list v))) k w' g' -> solo w (close_opt v k) w' g'.
Proof.
  destruct v as [s|]; simpl; intros H.
  - eapply solo_step; [simpl; done|]. by replace ({[s]} ∪ ∅ : gset Z) with ({[s]} : gset Z) in H by set_solver.
  - replace (open w ∖ ∅) with (open w) in H by set_solver. by destruct w.
Qed.

(** [C24] Connection.Close, run by itself on a connection whose mutex is free, always
    comes to its end and returns to its caller; then the connection is closed and its
    mutex free; the first call closes every socket of the connection and nothing
    else; a later call closes nothing. *)
Theorem close_closes_once w p x k :
  heap w !! p = Some x -> locked x = false ->
  exists w', solo w (Close p k) w' k /\
    heap w' = <[p := set_closed x true]> (heap w) /\
    open w' = (if closed x then open w else open w ∖ socks_of x) /\
    sessions w' = sessions w /\ limiter w' = limiter w /\ log w' = log w.
Proof.
  intros Hp Hl. unfold Close. destruct (closed x) eqn:Hc.
  { exists (upd_conn w p (set_closed x true)). split_and!; try done.
    eapply solo_step; [simpl; rewrite Hp; simpl; by rewrite Hc|]. apply solo_refl. }
  eexists. split.
  { eapply solo_step; [simpl; rewrite Hp; simpl; by rewrite Hc|].
    eapply solo_step; [simpl; rewrite lookup_insert_eq; simpl; by rewrite Hl|].
    eapply solo_step; [simpl; rewrite lookup_insert_eq; done|]. apply solo_close_opt.
    eapply solo_step; [simpl; rewrite lookup_insert_eq; done|]. apply solo_close_opt.
    eapply solo_step; [simpl; rewrite lookup_insert_eq; done|]. apply solo_close_opt.
    eapply solo_step; [simpl; rewrite lookup_insert_eq; done|]. apply solo_refl. }
  simpl. split_and!; try done.
  - rewrite !insert_insert_eq. f_equal. destruct x. simpl in *. by subst.
  - unfold socks_of. rewrite !list_to_set_app_L. set_solver.
Qed.

Lemma close_closes_once_witness :
  let w := wld (after connected) in
  let x := new_Connection 7 SOCK_STREAM (Some 0) None None in
  exists w', solo w (Close 0 Done) w' Done /\
    heap w' = <[0 := set_closed x true]> (heap w) /\
    open w' = (if closed x then open w else open w ∖ socks_of x) /\
    sessions w' = sessions w /\ limiter w' = limiter w /\ log w' = log w.
Proof. intros w x. apply (close_closes_once w 0 x Done); vm_compute; reflexivity. Defined.

(** ** Colliding connection ids *)

(** The client binds its connection 1 and listens on it; a peer connects. *)
Definition collision_run : list move :=
  session_up ++ deliver (2 :: bind_request 1 SOCK_STREAM 8080) ++
  [Run 2 A_none; Run 2 (A_ok true); Run 2 A_none; Run 2 A_none; Run 2 (A_ok true)] ++
  deliver (3 :: listen_request 1 5) ++
  [Run 3 A_none; Run 3 A_none; Run 3 A_none; Run 3 A_none;
   Run 4 A_none; Run 4 A_none; Run 4 (A_peer (str "203.0.113.1:9")); Run 4 A_none; Run 4 A_none; Run 4 A_none].

(** [C37] The ids that the proxy gives to accepted connections collide with those
    that the client chooses: both start at 1.  There is an execution in which a
    client's listener, still open and not closed, has lost its entry in the map to the first
    connection that was accepted on it, so that no entry of any session leads to it
    and neither the client nor the cleanup of the session can close it any more. *)
Theorem accepted_id_hides_listener :
  exists c, reachable 3 100 0 c /\ 0 ∈ open (wld c) /\
    heap (wld c) !! 0 = Some (new_Connection 1 SOCK_STREAM None (Some 0) None) /\
    (forall sid key, connections (sess (wld c) sid) !! key <> Some 0) /\
    connections (sess (wld c) 0) !! 1 = Some 1.
Proof.
  exists (after collision_run). split; [apply after_reachable|].
  assert (sessions (wld (after collision_run)) =
    {[0 := mk_Session {[1 := 1]} 1 demo_client [(MsgConnected, 1, [])]]}) as Es by (vm_compute; reflexivity).
  split_and!; [apply (bool_decide_eq_true_1 _); vm_compute; reflexivity|vm_compute; reflexivity| |].
  - intros sid key. unfold sess. rewrite Es. destruct (decide (sid = 0)) as [->|].
    + rewrite lookup_singleton_eq. simpl. rewrite lookup_singleton_Some. naive_solver.
    + rewrite lookup_singleton_ne by done. simpl. by rewrite lookup_empty.
  - vm_compute. reflexivity.
Qed.
