(* ===== verification/ProxyLive.v ===== *)
(** * friscy-proxy: progress

    No goroutine of the proxy waits for ever on another one, and every session can
    come to its end: from every state that the proxy can reach there is a
    continuation in which the clients and the network fall silent, the handlers of
    all sessions run to their last statement, and every session slot has been given
    back.

    The continuation is made of quiet steps: the outside refuses, ends or fails what
    it is asked.  A goroutine at a locked mutex is let through by running the
    holder until it unlocks, which it does without waiting for anything. *)

From S2P Require Import Prelude ByteOrder GoIO Varint HostPort NetIP NetipAddr RateLimiter Wire Resolve.
From S2P Require Import Proxy ProxyTyping ProxyInv ProxyProps.

Local Set Warnings "-clear-no-such-hyp".

(** ** Quiet steps *)

(** The answer of an outside that wants nothing more. *)
Definition quiet (w : world) (g : prog) : answer :=
  match g with
  | Upgrade _ _ => A_ok false
  | AcceptStream _ _ => A_stream None
  | SendEvent _ _ _ _ _ | WriteSock _ _ _ => A_ok true
  | RangeKeys sid _ => A_keys (elements (dom (connections (sess w sid))))
  | LookupHost _ _ => A_lookup (fun _ host => Err (DNSError (str "no such host") host))
  | Dial _ _ _ _ | Listen _ _ _ => A_err (str "refused")
  | ReadSock _ _ => A_read [] (Some ReadEOF)
  | _ => A_none
  end.

Inductive qstep : config -> config -> Prop :=
  | qstep_run c i g w' k t :
      gos c !! i = Some g -> perform (wld c) (code g) (quiet (wld c) (code g)) = Some (w', k, t) ->
      crashed c = false ->
      qstep c (mk_config w' (<[i := mk_goroutine (origin g) k]> (gos c) ++ spawned t)).

Lemma qstep_step c c' : qstep c c' -> step c c'.
Proof. destruct 1 as [[w gs] i g w' k t Hi Hp Hc]. by eapply step_run. Qed.

Lemma qsteps_steps c c' : rtc qstep c c' -> rtc step c c'.
Proof. apply rtc_subrel. intros ? ?. apply qstep_step. Qed.

(** No client has sent the message that makes its handler panic. *)
Definition calm (w : world) : Prop := forall sid s, Took sid s ∈ log w -> ~ overflows s.

Lemma perform_calm w g w' k t : perform w g (quiet w g) = Some (w', k, t) -> calm w -> calm w'.
Proof.
  intros Hp Hc sid s Hin. apply (Hc sid s). revert Hin.
  destruct g; simpl in Hp; try done;
  repeat match type of Hp with
  | (heap ?w !! ?p ≫= _) = _ => destruct (heap w !! p) eqn:?; simpl in Hp; [|done]
  | context [let '(_, _) := ?x in _] => destruct x
  | context [if ?b then _ else _] => destruct b
  end; simplify_eq; simpl; try done; rewrite elem_of_app; (intros [?|Hx]; [done|]); by apply list_elem_of_singleton in Hx.
Qed.

(** Every step but the start of a function leads to a part of the program. *)
Definition part (k g : prog) : Prop := (forall t, g <> Jump t) /\ exists w a w' t, perform w g a = Some (w', k, t).

Lemma part_wf : well_founded part.
Proof.
  intros g. induction g; constructor; intros k' (Hj & w & a & w' & t' & Hp);
    try (exfalso; eapply Hj; reflexivity);
    destruct a; try discriminate Hp; cbn [perform] in Hp;
    repeat match type of Hp with
    | (heap ?w !! ?p ≫= _) = _ => destruct (heap w !! p); cbn in Hp; [|discriminate Hp]
    | context [let '(_, _) := ?x in _] => destruct x
    | context [if ?b then _ else _] => destruct b; try discriminate Hp
    | context [match ?o with Some _ => _ | None => _ end] => destruct o; try discriminate Hp
    end; injection Hp as _ <- _; auto.
Qed.

Section Progress.
Context (ms mc : Z).

(** A state in which the invariants hold and no overflowing message was taken. *)
Definition sound (c : config) (rs : list role) : Prop := inv ms mc c rs /\ calm (wld c).

Lemma sound_role c rs i g :
  sound c rs -> gos c !! i = Some g ->
  exists r, rs !! i = Some r /\ typed (ctx_of (wld c)) (origin g) r (code g) /\ code g <> Panic.
Proof.
  intros [Hinv Hc] Hi. destruct (Forall2_lookup_l _ _ _ _ _ (inv_gos _ _ _ _ Hinv) Hi) as (r & Hr & Hty & _).
  exists r. split_and!; [done..|]. intros Hp. rewrite Hp in Hty. destruct Hty as (sid & s & Hin & Ho).
  exact (Hc sid s Hin Ho).
Qed.

Lemma sound_not_crashed c rs : sound c rs -> crashed c = false.
Proof.
  intros Hs. destruct (crashed c) eqn:E; [|done]. apply crashed_spec in E as (g & Hg & Hp).
  apply list_elem_of_lookup_1 in Hg as [i Hi]. by destruct (sound_role c rs i g Hs Hi) as (r & _ & _ & ?).
Qed.

(** A quiet step keeps a state sound. *)
Lemma sound_run c rs i g w' k t :
  sound c rs -> gos c !! i = Some g -> perform (wld c) (code g) (quiet (wld c) (code g)) = Some (w', k, t) ->
  let c' := mk_config w' (<[i := mk_goroutine (origin g) k]> (gos c) ++ spawned t) in
  qstep c c' /\ exists r r' rt, rs !! i = Some r /\ spawn_typed (ctx_of w') t rt /\ sound c' (upd_roles rs i r' rt).
Proof.
  intros Hs Hi Hp c'. split; [by apply (qstep_run c i g); [| |eapply sound_not_crashed]|].
  destruct Hs as [Hinv Hc]. destruct (inv_run _ _ _ _ _ _ _ _ _ _ Hinv Hi Hp) as (r & r' & rt & Hr & Hsp & Hinv').
  exists r, r', rt. split_and!; [done..|]. split; [done|]. by eapply perform_calm.
Qed.

Lemma gos_run c i g k t j x :
  gos c !! i = Some g -> gos c !! j = Some x ->
  (<[i := mk_goroutine (origin g) k]> (gos c) ++ spawned t) !! j = Some (if decide (j = i) then mk_goroutine (origin g) k else x).
Proof.
  intros Hi Hj. rewrite lookup_app_l by (rewrite length_insert; by eapply lookup_lt_Some).
  case_decide as E; [subst; by rewrite list_lookup_insert_eq by (by eapply lookup_lt_Some)|].
  by rewrite list_lookup_insert_ne.
Qed.

(** What a typed program asks for is answered, unless it is at a locked mutex. *)
Lemma quiet_runs w o r g :
  typed (ctx_of w) o r g -> (forall p, holds r p -> exists x, heap w !! p = Some x) -> g <> Done -> g <> Panic ->
  (exists w' k t, perform w g (quiet w g) = Some (w', k, t)) \/
  (exists p k x, g = Lock p k /\ heap w !! p = Some x /\ locked x = true).
Proof.
  intros Ht Hh Hd Hp. pose proof (fun p => in_section_holds _ _ _ _ p Ht) as Hin.
  assert (forall q, is_Some (ptrs (ctx_of w) !! q) -> exists y, heap w !! q = Some y) as Hptr.
  { intros q [st Hq]. apply ctx_ptr in Hq as (y & ? & _). eauto. }
  assert (forall q, (exists y, heap w !! q = Some y) ->
    forall f : Connection -> world * prog * option task, exists w' k t, (heap w !! q ≫= fun y => Some (f y)) = Some (w', k, t)) as Hop.
  { intros q [y ->] f. cbn. destruct (f y) as [[??]?]. eauto. }
  destruct g; cbn [typed quiet perform] in *; try done; try (left; by eauto).
  all: try (left; repeat match goal with |- context [let '(_, _) := ?x in _] => destruct x end; by eauto).
  all: try (left; apply (Hop p); first [by apply Hh, Hin | naive_solver]).
  - left. rewrite decide_True; [by eauto|]. split; [apply NoDup_elements|apply list_to_set_elements_L].
  - destruct Ht as [Hs _]. destruct (Hptr p Hs) as [y Hy]. rewrite Hy. cbn.
    destruct (locked y) eqn:El; [right; by exists p, g, y|left; by eauto].
Qed.

Lemma sound_runs c rs i g r :
  sound c rs -> gos c !! i = Some g -> rs !! i = Some r -> code g <> Done ->
  (exists w' k t, perform (wld c) (code g) (quiet (wld c) (code g)) = Some (w', k, t)) \/
  (exists p k x, code g = Lock p k /\ heap (wld c) !! p = Some x /\ locked x = true).
Proof.
  intros Hs Hi Hr Hd. destruct (sound_role c rs i g Hs Hi) as (r' & Hr' & Ht & Hp). simplify_eq.
  apply (quiet_runs _ (origin g) r); [done| |done|done]. intros p Hh.
  destruct (lo_holder _ _ (inv_locks _ _ _ _ (proj1 Hs)) i r p Hr Hh) as (x & Hx & _). eauto.
Qed.

Lemma holds_not_free r p : holds r p -> ~ free r.
Proof. unfold holds, free. intros Hh [Hf _]. by rewrite Hf in Hh. Qed.

(** Running the holder of a mutex releases it; the others stay where they are. *)
Lemma holder_releases p g : forall c rs j x r,
  code x = g -> sound c rs -> gos c !! j = Some x -> rs !! j = Some r -> holds r p ->
  exists c' rs', rtc qstep c c' /\ sound c' rs' /\ (exists y, heap (wld c') !! p = Some y /\ locked y = false) /\
    forall i y, i <> j -> gos c !! i = Some y -> gos c' !! i = Some y.
Proof.
  induction (part_wf g) as [g _ IH]. intros c rs j x r <- Hs Hj Hr Hh. pose proof (holds_not_free r p Hh) as Hnf.
  destruct (sound_role c rs j x Hs Hj) as (r0 & Hr0 & Ht & _). simplify_eq.
  assert (code x <> Done) as Hd by (intros E; rewrite E in Ht; apply Hnf, Ht).
  destruct (sound_runs c rs j x r Hs Hj Hr Hd) as [(w' & k & t & Hp)|(q & k & y & E & _)].
  2:{ rewrite E in Ht. destruct Ht as [_ Ht]. unfold holds in Hh. by destruct (lk r). }
  assert (part k (code x)) as Hpart.
  { split; [|by eauto 6]. intros t' E. rewrite E in Ht. apply Hnf, Ht. }
  destruct (sound_run c rs j x w' k t Hs Hj Hp) as (Hq & r1 & r' & rt & Hr1 & Hsp & Hs'). simplify_eq.
  set (c1 := mk_config _ _) in *.
  assert (forall i y, i <> j -> gos c !! i = Some y -> gos c1 !! i = Some y) as Hother.
  { intros i y Hi Hy. unfold c1. cbn [gos]. by rewrite (gos_run c j x k t i y Hj Hy), decide_False. }
  destruct (lo_holder _ _ (inv_locks _ _ _ _ (proj1 Hs)) j r p Hr Hh) as (y & Hy & _).
  destruct (perform_heap _ _ _ _ _ _ p y (inv_fresh _ _ _ _ (proj1 Hs)) Hp Hy) as (y1 & Hy1 & _).
  destruct (locked y1) eqn:El; [|exists c1; eexists; split_and!; [by apply rtc_once|done|by exists y1|done]].
  destruct (lo_locked _ _ (inv_locks _ _ _ _ (proj1 Hs')) p y1 Hy1 El) as (i & r1 & Hi & Hh1).
  apply (upd_inv rs j r r' rt Hr) in Hi as [[-> ->]|[[Hne Hi]|[-> Hrt]]].
  - edestruct (IH k Hpart c1 _ j (mk_goroutine (origin x) k) r' eq_refl Hs') as (c' & rs' & H1 & H2 & H3 & H4);
      [by unfold c1; cbn [gos]; rewrite (gos_run c j x k t j x Hj Hj), decide_True|by eapply upd_at|done|].
    exists c', rs'. split_and!; [by eapply rtc_l|done|done|]. intros i y' Hi Hy'. by apply H4, Hother.
  - by destruct Hne; eapply (lo_excl _ _ (inv_locks _ _ _ _ (proj1 Hs)) p).
  - subst rt. destruct t as [t|]; [|done]. exfalso. eapply (holds_not_free r1 p); [done|]. by destruct Hsp.
Qed.

(** Every goroutine that has not ended can take its next step, after others have. *)
Lemma advance c rs i g :
  sound c rs -> gos c !! i = Some g -> code g <> Done ->
  exists c1 rs1 w' k t, rtc qstep c c1 /\ sound c1 rs1 /\ gos c1 !! i = Some g /\
    perform (wld c1) (code g) (quiet (wld c1) (code g)) = Some (w', k, t).
Proof.
  intros Hs Hi Hd. destruct (sound_role c rs i g Hs Hi) as (r & Hr & Ht & _).
  destruct (sound_runs c rs i g r Hs Hi Hr Hd) as [(w' & k & t & Hp)|(p & k & x & E & Hx & Hl)].
  { exists c, rs, w', k, t. split_and!; [apply rtc_refl|done..]. }
  destruct (lo_locked _ _ (inv_locks _ _ _ _ (proj1 Hs)) p x Hx Hl) as (j & r' & Hj & Hh).
  destruct (Forall2_lookup_r _ _ _ _ _ (inv_gos _ _ _ _ (proj1 Hs)) Hj) as (h & Hh' & _).
  assert (i <> j) as Hij.
  { intros <-. assert (r' = r) as -> by congruence. rewrite E in Ht. destruct Ht as [_ Ht]. unfold holds in Hh. by destruct (lk r). }
  destruct (holder_releases p _ c rs j h r' eq_refl Hs Hh' Hj Hh) as (c1 & rs1 & H1 & H2 & (y & Hy & Hf) & H4).
  exists c1, rs1. rewrite E. cbn [perform quiet]. rewrite Hy. cbn. rewrite Hf.
  eexists _, _, _. split_and!; [done|done|by apply H4|reflexivity].
Qed.

(** ** Handlers *)

(** A program that never starts over and is no loop. *)
Fixpoint jumpless (g : prog) : Prop :=
  match g with
  | Done | Panic => True
  | Jump _ => False
  | Go _ k | ReleaseSess _ k | WaitDone _ k | SendEvent _ _ _ _ k | Store _ _ _ k | Delete _ _ k
  | Lock _ k | Unlock _ k | SetConn _ _ k | WriteSock _ _ k | CloseSock _ k => jumpless k
  | AcquireSession _ k | TryConn _ k | LoadClosed _ k | SwapClosed _ k => forall b, jumpless (k b)
  | Upgrade _ k => forall b, jumpless (k b)
  | AcceptStream _ k => forall b, jumpless (k b)
  | Load _ _ k | LoadAndDelete _ _ k => forall b, jumpless (k b)
  | RangeKeys _ k => forall b, jumpless (k b)
  | NextConnID _ k | Alloc _ k | GetID _ k => forall b, jumpless (k b)
  | GetConn _ k | GetListener _ k | GetUdpConn _ k => forall b, jumpless (k b)
  | LookupHost _ k => forall b, jumpless (k b)
  | Dial _ _ _ k | Listen _ _ k => forall b, jumpless (k b)
  | AcceptConn _ k => forall b, jumpless (k b)
  | ReadSock _ k => forall b, jumpless (k b)
  end.

Lemma jumpless_perform w g a w' k t : jumpless g -> perform w g a = Some (w', k, t) -> jumpless k.
Proof. intros Hj Hp. destruct g; perform_cases a Hp; cbn in Hj; auto; done. Qed.

Lemma Close_jumpless p k : jumpless k -> jumpless (Close p k).
Proof. intros Hk. intros [|]; cbn; [done|]. intros [|] [|] [|]; cbn; done. Qed.

Lemma cleanup_jumpless sid keys k : jumpless k -> jumpless (cleanup sid keys k).
Proof.
  intros Hk. induction keys as [|key keys IH]; [done|]. cbn. intros [p|]; [|done]. by apply Close_jumpless.
Qed.

Lemma connect_jumpless addr : jumpless (connect_handler addr).
Proof. intros [|]; cbn; [|done]. intros [sid|]; cbn; [|done]. intros l. by apply cleanup_jumpless. Qed.

(** The handlers of /connect. *)
Definition handler_shape (g : goroutine) : Prop :=
  match origin g with
  | Some addr => code g = Jump (T_connect addr) \/ jumpless (code g)
  | None => True
  end.

Lemma shape_perform w g a w' k t :
  handler_shape g -> perform w (code g) a = Some (w', k, t) -> handler_shape (mk_goroutine (origin g) k).
Proof.
  unfold handler_shape. cbn [origin code]. destruct (origin g) as [addr|]; [|done]. intros [E|Hj] Hp; right.
  - rewrite E in Hp. destruct a; try discriminate Hp. injection Hp as _ <- _. apply connect_jumpless.
  - by eapply jumpless_perform.
Qed.

Lemma shape_step c c' : Forall handler_shape (gos c) -> step c c' -> Forall handler_shape (gos c').
Proof.
  intros Hc Hs. destruct Hs as [w gs i g a w' k t Hi Hp _|w gs addr|w gs t Ht]; cbn [gos] in *; [| |done].
  - apply Forall_app. split; [|by destruct t; repeat constructor]. apply Forall_insert; [done|].
    eapply shape_perform; [|exact Hp]. by eapply Forall_lookup_1.
  - apply Forall_app. split; [done|]. apply Forall_singleton. by left.
Qed.

Lemma shape_reachable t0 c : reachable ms mc t0 c -> Forall handler_shape (gos c).
Proof.
  unfold reachable. intros H. assert (Forall handler_shape (gos (initial ms mc t0))) as Hi by constructor.
  revert Hi. generalize (initial ms mc t0), H. clear. induction 1 as [|c1 c2 c3 Hs _ IH]; [done|]. eauto using shape_step.
Qed.

(** ** Quiet steps start no handler and revive none *)

Lemma qstep_handlers c c' :
  qstep c c' ->
  (forall j x, gos c !! j = Some x -> exists x', gos c' !! j = Some x' /\ origin x' = origin x /\ (code x = Done -> x' = x)) /\
  (forall j x' addr, gos c' !! j = Some x' -> origin x' = Some addr -> (j < length (gos c))%nat).
Proof.
  destruct 1 as [c i g w' k t Hi Hp _]. cbn [gos]. split.
  - intros j x Hj. rewrite (gos_run c i g k t j x Hi Hj). eexists. split; [reflexivity|].
    case_decide as E; [|done]. subst. assert (g = x) as -> by congruence. split; [done|].
    intros Ed. by rewrite Ed in Hp.
  - intros j x' addr [Hj|[_ Hj]]%lookup_app_Some Ho.
    + apply lookup_lt_Some in Hj. by rewrite length_insert in Hj.
    + destruct t; cbn in Hj; [|done]. apply list_lookup_singleton_Some in Hj as [_ <-]. done.
Qed.

Lemma qsteps_handlers c c' :
  rtc qstep c c' ->
  (forall j x, gos c !! j = Some x -> exists x', gos c' !! j = Some x' /\ origin x' = origin x /\ (code x = Done -> x' = x)) /\
  (forall j x' addr, gos c' !! j = Some x' -> origin x' = Some addr -> (j < length (gos c))%nat).
Proof.
  induction 1 as [c|c1 c2 c3 Hq _ [IH1 IH2]].
  - split; [eauto|]. intros j x' addr Hj _. by eapply lookup_lt_Some.
  - destruct (qstep_handlers _ _ Hq) as [H1 H2]. split.
    + intros j x Hj. destruct (H1 j x Hj) as (x1 & Hj1 & Ho1 & Hd1). destruct (IH1 j x1 Hj1) as (x2 & Hj2 & Ho2 & Hd2).
      exists x2. split_and!; [done|congruence|]. intros Hd. rewrite <- (Hd1 Hd). apply Hd2. by rewrite (Hd1 Hd).
    + intros j x' addr Hj Ho. pose proof (IH2 j x' addr Hj Ho) as Hlt. apply lookup_lt_is_Some in Hlt as [x1 Hj1].
      eapply (H2 j x1 addr); [done|]. destruct (IH1 j x1 Hj1) as (x2 & Hj2 & Ho2 & _). congruence.
Qed.

Lemma Done_or_not g : g = Done \/ g <> Done.
Proof. destruct g; auto. Qed.

(** A program without jumps can be run to its end. *)
Lemma jumpless_ends g : forall c rs i x,
  code x = g -> jumpless g -> sound c rs -> gos c !! i = Some x ->
  exists c' rs', rtc qstep c c' /\ sound c' rs' /\ gos c' !! i = Some (mk_goroutine (origin x) Done).
Proof.
  induction (part_wf g) as [g _ IH]. intros c rs i x <- Hj Hs Hi.
  destruct (Done_or_not (code x)) as [Ed|Hd].
  { exists c, rs. split_and!; [apply rtc_refl|done|]. rewrite <- Ed. by destruct x. }
  destruct (advance c rs i x Hs Hi Hd) as (c1 & rs1 & w' & k & t & H1 & Hs1 & Hi1 & Hp).
  destruct (sound_run c1 rs1 i x w' k t Hs1 Hi1 Hp) as (Hq & r & r' & rt & _ & _ & Hs2).
  assert (part k (code x)) as Hpart.
  { split; [|by eauto 6]. intros t' E. by rewrite E in Hj. }
  destruct (IH k Hpart _ _ i (mk_goroutine (origin x) k) eq_refl (jumpless_perform _ _ _ _ _ _ Hj Hp) Hs2)
    as (c' & rs' & H3 & H4 & H5).
  { cbn [gos]. by rewrite (gos_run c1 i x k t i x Hi1 Hi1), decide_True. }
  exists c', rs'. split_and!; [|done|done]. etrans; [exact H1|]. by eapply rtc_l.
Qed.

Lemma handler_ends c rs i x addr :
  handler_shape x -> origin x = Some addr -> sound c rs -> gos c !! i = Some x ->
  exists c' rs', rtc qstep c c' /\ sound c' rs' /\ gos c' !! i = Some (mk_goroutine (Some addr) Done).
Proof.
  unfold handler_shape. intros Hsh Ho Hs Hi. rewrite Ho in Hsh. destruct Hsh as [E|Hj].
  - destruct (sound_run c rs i x (wld c) (connect_handler addr) None Hs Hi) as (Hq & r & r' & rt & _ & _ & Hs2); [by rewrite E|].
    destruct (jumpless_ends (connect_handler addr) _ _ i (mk_goroutine (origin x) (connect_handler addr)) eq_refl
      (connect_jumpless addr) Hs2) as (c' & rs' & H1 & H2 & H3).
    { cbn [gos]. by rewrite (gos_run c i x _ None i x Hi Hi), decide_True. }
    exists c', rs'. split_and!; [by eapply rtc_l|done|]. by rewrite <- Ho.
  - rewrite <- Ho. by apply (jumpless_ends (code x) c rs i x).
Qed.

(** All handlers can be run to their end, one after the other. *)
Lemma all_handlers_end n c rs :
  Forall handler_shape (gos c) -> sound c rs ->
  exists c' rs', rtc qstep c c' /\ sound c' rs' /\
    forall j x addr, (j < n)%nat -> gos c' !! j = Some x -> origin x = Some addr -> code x = Done.
Proof.
  intros Hsh Hs. induction n as [|n (c1 & rs1 & H1 & Hs1 & Hd)].
  { exists c, rs. split_and!; [apply rtc_refl|done|]. intros. lia. }
  assert (Forall handler_shape (gos c1)) as Hsh1.
  { clear -Hsh H1. induction H1 as [|c1 c2 c3 Hq _ IH]; [done|]. apply IH. eapply shape_step; [done|by apply qstep_step]. }
  destruct (gos c1 !! n) as [x|] eqn:Hn; [|exists c1, rs1; split_and!; [done..|]; intros j x addr Hj Hx; assert (j <> n) by congruence; by eapply (Hd j); [lia|]].
  destruct (origin x) as [addr|] eqn:Ho.
  - destruct (handler_ends c1 rs1 n x addr ltac:(by eapply Forall_lookup_1) Ho Hs1 Hn) as (c2 & rs2 & H2 & Hs2 & Hn2).
    exists c2, rs2. split_and!; [by etrans|done|]. intros j y a Hj Hy Ha.
    destruct (decide (j = n)) as [->|Hne]; [by simplify_eq|].
    destruct (qsteps_handlers _ _ H2) as [Hkeep Hold]. pose proof (Hold j y a Hy Ha) as Hlt.
    apply lookup_lt_is_Some in Hlt as [y1 Hy1]. destruct (Hkeep j y1 Hy1) as (y2 & Hy2 & Ho2 & Hd2).
    assert (y2 = y) as -> by congruence. pose proof (Hd j y1 a ltac:(lia) Hy1 ltac:(congruence)) as E. by rewrite (Hd2 E).
  - exists c1, rs1. split_and!; [done..|]. intros j y a Hj Hy Ha. destruct (decide (j = n)) as [->|Hne]; [congruence|].
    eapply (Hd j); [lia|done..].
Qed.
End Progress.

Lemma live_none ip gs :
  (forall j x addr, gs !! j = Some x -> origin x = Some addr -> code x = Done) -> live ip gs = 0.
Proof.
  intros H. induction gs as [|x gs IH]; [done|]. change (live_handler ip x + live ip gs = 0).
  rewrite IH by (intros j y addr Hj; apply (H (S j)), Hj). unfold live_handler.
  destruct (origin x) as [addr|] eqn:Ho; [by rewrite (H 0%nat x addr eq_refl Ho)|by destruct (code x)].
Qed.

(** ** Claims *)

(** [C3] Nothing in the proxy waits for ever, and every session slot can be got back.  In
    every state that the proxy can reach without a client having sent the message that
    crashes it: each goroutine that has not ended can take its next step, at once or
    after the holder of a mutex has run on and released it; and there is a continuation
    without new requests after which every handler of /connect has ended and the rate
    limiter counts no session of anyone. *)
Theorem proxy_live ms mc t0 c :
  reachable ms mc t0 c -> calm (wld c) ->
  (forall i g, gos c !! i = Some g -> code g <> Done ->
     exists c1 a w' k t, rtc qstep c c1 /\ gos c1 !! i = Some g /\ crashed c1 = false /\
       perform (wld c1) (code g) a = Some (w', k, t)) /\
  (exists c', rtc qstep c c' /\ reachable ms mc t0 c' /\
     (forall g addr, g ∈ gos c' -> origin g = Some addr -> code g = Done) /\
     forall ip, ipSessions (limiter (wld c')) !! ip = None).
Proof.
  intros Hr Hc. destruct (inv_reachable _ _ _ _ Hr) as [rs Hinv]. assert (sound ms mc c rs) as Hs by done. split.
  - intros i g Hi Hd. destruct (advance ms mc c rs i g Hs Hi Hd) as (c1 & rs1 & w' & k & t & H1 & H2 & H3 & H4).
    exists c1, (quiet (wld c1) (code g)), w', k, t. split_and!; [done|done|by eapply sound_not_crashed|done].
  - destruct (all_handlers_end ms mc (length (gos c)) c rs (shape_reachable ms mc t0 c Hr) Hs) as (c' & rs' & H1 & [Hinv' Hc'] & Hd).
    assert (forall j x addr, gos c' !! j = Some x -> origin x = Some addr -> code x = Done) as Hall.
    { intros j x addr Hj Ho. eapply (Hd j); [|done..]. by eapply (proj2 (qsteps_handlers c c' H1)). }
    exists c'. split_and!; [done|by unfold reachable in *; etrans; [exact Hr|apply qsteps_steps]| |].
    + intros g addr [j Hj]%list_elem_of_lookup_1 Ho. eauto.
    + intros ip. apply (inv_sessions _ _ _ _ ip Hinv'). by apply live_none.
Qed.

Lemma proxy_live_witness :
  exists c', rtc qstep (after connected) c' /\
    (forall g addr, g ∈ gos c' -> origin g = Some addr -> code g = Done) /\
    ipSessions (limiter (wld c')) !! str "198.51.100.9" = None.
Proof.
  destruct (proxy_live 3 100 0 (after connected) (after_reachable _)) as [_ (c' & H1 & _ & H2 & H3)].
  - intros sid s Hin. apply list_elem_of_In in Hin. vm_compute in Hin.
    repeat (destruct Hin as [Hin|Hin]; [first [discriminate Hin | injection Hin as <- <-]|]); [|contradiction].
    intros (s' & Hm & Hp). vm_compute in Hm. injection Hm as <-. apply read_connect_panics in Hp; [vm_compute in Hp; discriminate Hp|].
    apply (bool_decide_unpack _). vm_compute. exact I.
  - exists c'. split; [exact H1|]. split; [exact H2|apply H3].
Defined.
