(* ===== verification/Server.v ===== *)
(** * friscy-proxy: the server and its HTTP API

    [proxy/main.go]: [NewServer], the origin check of [Run], [corsHeaders], the handlers
    [handleDockerPull] and [handleDockerSearch], and the routes of [RunAPIServer] through
    the multiplexer of net/http, up to the bytes of a request on a connection; [URL.Query]
    of [tools/go-patched/src/net/url/url.go], and what [http.Get] does with an address before
    it sends anything.

    The container registry, the parser of image references and the HTTP client behind a
    parsed address are parameters. *)

From S2P Require Import Prelude GoIO HostPort Strings Url UrlParse TextProto PathClean Pattern Routing Mux Bufio TextReader Chunked Transfer ReadRequest HttpServe RateLimiter.

Local Set Warnings "-clear-no-such-hyp".

(** ** Server *)

(** [allowedOrigins]: nil, or a map from string to bool. *)
Record Server := mk_Server {
  certFile : gostring;
  keyFile : gostring;
  listen : gostring;
  allowedOrigins : option (gmap gostring bool);
}.

Definition NewServer (listen certFile keyFile : gostring) (origins : list gostring) : Server :=
  mk_Server certFile keyFile listen
    (if 0 <? len origins
     then Some (foldl (fun m o => <[o := true]> m) ∅ origins)
     else None).

(** The function CheckOrigin of Run, on the headers of the request.  Without the header the
    origin is empty.  A missing key of a map reads as false. *)
Definition CheckOrigin (s : Server) (header : MIMEHeader) : bool :=
  match allowedOrigins s with
  | None => true
  | Some m => let origin := MIME_Get header (str "Origin") in default false (m !! origin)
  end.

(** ** The Docker API *)

Definition corsHeaders (w : response) : response :=
  Header_Set w (str "Access-Control-Expose-Headers") (str "Content-Length, X-Image-Name").

(** [r.URL.Query()], which drops the error, and [r.URL.Query().Get(key)]. *)
Definition Query (r : Request) : Values := (ParseQuery (RawQuery (req_URL r))).1.
Definition query (r : Request) (key : gostring) : gostring := Get (Query r) key.

(** ** http.Get

    The request is made before anything is sent: the address is parsed and an empty port
    is dropped. *)
Definition hasPort (s : gostring) : bool := LastIndexByteString s rbracket <? LastIndexByteString s colon.
Definition removeEmptyPort (host : gostring) : gostring :=
  if hasPort host then TrimSuffix host (str ":") else host.
Definition NewRequest_URL (url : gostring) : result URL :=
  match Parse url with
  | Err err => Err err
  | Ok u => Ok (with_authority u (User u) (removeEmptyPort (Host u)))
  end.

Section Docker.
Context {Ref Image : Type}.
(** name.ParseReference; remote.Image for an architecture (the OS is always
    linux); crane.Export: the bytes written and the error. *)
Context (ParseReference : gostring -> Ref + gostring).
Context (remote_Image : Ref -> gostring -> Image + gostring).
Context (Export : Image -> gobytes * option gostring).
(** The HTTP client, once it has a request: the body of the answer, as far as it could be
    copied; the text of an error. *)
Context (client_Do : URL -> gobytes + gostring).
Context (error_text : error -> gostring).

(** The requests that the client is given, and the outcome. *)
Definition http_Get (url : gostring) : list URL * (gobytes + gostring) :=
  match NewRequest_URL url with
  | Err err => ([], inr (error_text err))
  | Ok u => ([u], client_Do u)
  end.

Definition handleDockerPull (rl : RateLimiter) (now : Z) (r : Request) : RateLimiter * response :=
  let w := corsHeaders no_response in
  if bool_decide (Method r = str "OPTIONS") then (rl, WriteHeader w StatusNoContent) else
  let imageRef := query r (str "image") in
  if bool_decide (imageRef = []) then
    (rl, http_Error w (str "missing ?image= parameter") StatusBadRequest) else
  match ParseReference imageRef with
  | inr err => (rl, http_Error w (str "invalid image reference: " ++ err) StatusBadRequest)
  | inl ref =>
      let '(ok, rl) := TryConnection rl now (RemoteAddr r) in
      if negb ok then (rl, http_Error w (str "daily pull limit exceeded") StatusTooManyRequests) else
      let pulled :=
        match remote_Image ref (str "riscv64") with
        | inl img => inl (img, str "riscv64")
        | inr _ =>
            match remote_Image ref (str "amd64") with
            | inl img => inl (img, str "amd64")
            | inr err => inr err
            end
        end in
      match pulled with
      | inr err =>
          (rl, http_Error w (str "failed to pull image: " ++ err) StatusInternalServerError)
      | inl (img, architecture) =>
          let w := Header_Set w (str "Content-Type") (str "application/x-tar") in
          let w := Header_Set w (str "X-Image-Name") imageRef in
          let w := Header_Set w (str "X-Image-Arch") architecture in
          let '(tar, _) := Export img in
          (rl, Write w tar)
      end
  end.

(** The address asked, and the part of it after the question mark. *)
Definition search_query (q : gostring) : gostring := str "query=" ++ q ++ str "&page_size=20".
Definition search_url (q : gostring) : gostring :=
  str "https://hub.docker.com/v2/search/repositories/?" ++ search_query q.

(** The requests made on the way, and the answer. *)
Definition handleDockerSearch (r : Request) : list URL * response :=
  let w := corsHeaders no_response in
  if bool_decide (Method r = str "OPTIONS") then ([], WriteHeader w StatusNoContent) else
  let q := query r (str "q") in
  if bool_decide (q = []) then ([], http_Error w (str "missing ?q= parameter") StatusBadRequest) else
  let '(asked, resp) := http_Get (search_url q) in
  match resp with
  | inr err => (asked, http_Error w (str "search failed: " ++ err) StatusBadGateway)
  | inl body => (asked, Write (Header_Set w (str "Content-Type") (str "application/json")) body)
  end.

Definition health (w : response) : response := Write w (str "ok").

(** RunAPIServer: the routes, and the answer to a request. *)
Inductive endpoint := Pull | Search | Health.

Definition api_mux : option (ServeMux endpoint) :=
  register_all NewServeMux [(str "/pull", Pull); (str "/search", Search); (str "/health", Health)].

(** The limiter after the request, the searches it made and the answer, through the handler
    that net/http puts before the multiplexer; [limitHit] is that of
    [globalOptionsHandler]. *)
Definition api_serve (limitHit : bool) (rl : RateLimiter) (now : Z) (r : Request) : option (RateLimiter * list URL * response) :=
  mux ← api_mux;
  serverHandler_ServeHTTP (fun e =>
    match e with
    | Pull => let '(rl, w) := handleDockerPull rl now r in (rl, [], w)
    | Search => let '(asked, w) := handleDockerSearch r in (rl, asked, w)
    | Health => (rl, [], health no_response)
    end) (fun w => (rl, [], w)) limitHit mux r.


End Docker.

(** ** Claims *)

Lemma NewServer_origins (l : list gostring) (m : gmap gostring bool) (o : gostring) :
  default false (foldl (fun m o => <[o := true]> m) m l !! o) = true <->
  o ∈ l \/ default false (m !! o) = true.
Proof.
  revert m. induction l as [|x l IH]; intros m; simpl.
  { set_solver. }
  rewrite IH, elem_of_cons. destruct (decide (o = x)) as [->|].
  - rewrite lookup_insert_eq. simpl. naive_solver.
  - rewrite lookup_insert_ne by done. naive_solver.
Qed.

(** The origin check accepts exactly the configured origins, and every origin
    when none is configured. *)
Lemma CheckOrigin_NewServer listen cert key origins header :
  CheckOrigin (NewServer listen cert key origins) header = true <-> origins = [] \/ MIME_Get header (str "Origin") ∈ origins.
Proof.
  unfold CheckOrigin, NewServer. cbn [allowedOrigins]. generalize (MIME_Get header (str "Origin")). intros origin. destruct origins as [|o l].
  - split; [by left|done].
  - rewrite (proj2 (Z.ltb_lt _ _)) by (rewrite len_cons; pose proof (len_nonneg l); lia).
    rewrite NewServer_origins, lookup_empty. simpl. naive_solver.
Qed.

Lemma served_response (rl : RateLimiter) (arch image : gostring) (tar : gobytes) :
  let w := Write (Header_Set (Header_Set (Header_Set (corsHeaders no_response) (str "Content-Type")
    (str "application/x-tar")) (str "X-Image-Name") image) (str "X-Image-Arch") arch) tar in
  rl = rl /\ status w = Some 200 /\ rbody w = tar /\ hdr w !! str "X-Image-Arch" = Some arch /\
  hdr w !! str "X-Image-Name" = Some image.
Proof.
  cbn [Write hdr Header_Set]. rewrite lookup_insert_eq, lookup_insert_ne, lookup_insert_eq by done. done.
Qed.

(** [C40] A pull spends the quota of its client exactly when it goes to the registry.
    A preflight request, a missing or an invalid reference is answered without
    touching the rate limiter; otherwise the limiter is asked once, for the address
    of the request; when it refuses, the registry is not asked and the answer is
    429; when it agrees, the answer is the export of the riscv64 image, or of the
    amd64 image when there is none, with the architecture it names, or 500 when
    there is neither. *)
Theorem pull_spends_quota_once {Ref Image : Type} (ParseReference : gostring -> Ref + gostring)
    (remote_Image : Ref -> gostring -> Image + gostring) (Export : Image -> gobytes * option gostring)
    rl now r :
  let '(rl', w) := handleDockerPull ParseReference remote_Image Export rl now r in
  let served img arch :=
    status w = Some 200 /\ rbody w = (Export img).1 /\
    hdr w !! str "X-Image-Arch" = Some arch /\ hdr w !! str "X-Image-Name" = Some (query r (str "image")) in
  if bool_decide (Method r = str "OPTIONS") then rl' = rl /\ status w = Some 204 else
  match ParseReference (query r (str "image")) with
  | inr _ => rl' = rl /\ status w = Some 400
  | inl ref =>
      if bool_decide (query r (str "image") = []) then rl' = rl /\ status w = Some 400 else
      rl' = (TryConnection rl now (RemoteAddr r)).2 /\
      if (TryConnection rl now (RemoteAddr r)).1 then
        match remote_Image ref (str "riscv64"), remote_Image ref (str "amd64") with
        | inl img, _ => served img (str "riscv64")
        | inr _, inl img => served img (str "amd64")
        | inr _, inr _ => status w = Some 500
        end
      else status w = Some 429
  end.
Proof.
  unfold handleDockerPull. case_bool_decide; [done|].
  destruct (bool_decide (query r (str "image") = [])) eqn:Eq.
  { destruct (ParseReference _); done. }
  destruct (ParseReference _) as [ref|err]; [|done].
  destruct (TryConnection rl now (RemoteAddr r)) as [[|] rl'] eqn:Et; cbn [negb fst snd]; [|done].
  destruct (remote_Image ref (str "riscv64")) as [img|e1].
  { destruct (Export img) as [tar e]. exact (served_response rl' (str "riscv64") _ tar). }
  destruct (remote_Image ref (str "amd64")) as [img|e2]; [|done].
  destruct (Export img) as [tar e]. exact (served_response rl' (str "amd64") _ tar).
Qed.










(** ** Routing *)

Definition leaf_node (p : pattern) (e : endpoint) : routingNode endpoint := Node (Some (p, e)) empty_mapping None.
Definition api_paths : routingNode endpoint :=
  Node None (mk_mapping [(str "pull", leaf_node (pat "/pull") Pull); (str "search", leaf_node (pat "/search") Search);
                         (str "health", leaf_node (pat "/health") Health)] None) None.
Definition api_tree : routingNode endpoint := Node None empty_mapping (Some (Node None empty_mapping (Some api_paths))).

Lemma api_mux_tree : exists mux, api_mux = Some mux /\ mux_tree mux = api_tree.
Proof. eexists. split; vm_compute; reflexivity. Qed.

Lemma leaf_match fuel p e path ms :
  (length path <= fuel)%nat ->
  matchPath fuel (Some (leaf_node p e)) path ms = Some (if decide (path = []) then Some (p, e, ms) else None).
Proof.
  intros Hf. destruct path as [|c path]; [by destruct fuel|]. destruct fuel as [|fuel]; [cbn in Hf; lia|].
  cbn [matchPath]. destruct (firstSegment (c :: path)) as [seg rest]. rewrite decide_False by done.
  assert (findChild (leaf_node p e) seg = None) as -> by (unfold findChild; by destruct (bool_decide _)).
  assert (forall ms, matchPath fuel (None : option (routingNode endpoint)) rest ms = Some None) as Hn by (by destruct fuel).
  rewrite Hn. cbn [mbind option_bind leaf_node emptyChild]. rewrite Hn. by destruct (negb _).
Qed.

(** The endpoint of a path, by its segments. *)
Definition endpoint_of (xs : list gostring) : option (pattern * endpoint) :=
  if decide (xs = [str "pull"]) then Some (pat "/pull", Pull)
  else if decide (xs = [str "search"]) then Some (pat "/search", Search)
  else if decide (xs = [str "health"]) then Some (pat "/health", Health)
  else None.

Lemma endpoint_long x y xs : endpoint_of (x :: y :: xs) = None.
Proof. unfold endpoint_of. by rewrite !decide_False. Qed.

Lemma endpoint_single x : endpoint_of [x] = c ← findChild api_paths x; leaf c.
Proof.
  unfold endpoint_of, findChild. destruct (bool_decide_reflect (x = [])) as [->|Hne]; [done|]. unfold mapping_find.
  cbn [api_paths children map_m map_s find_slice]. repeat destruct (decide (_ = x)) as [<-|?]; [reflexivity..|].
  by rewrite !decide_False by congruence.
Qed.

Lemma api_child x c : findChild api_paths x = Some c -> exists p e, c = leaf_node p e.
Proof.
  unfold findChild, mapping_find. cbn [api_paths children map_m map_s find_slice emptyChild]. destruct (bool_decide (x = [])); [done|].
  repeat destruct (decide (_ = x)) as [<-|?]; intros; simplify_eq; eauto.
Qed.

Lemma api_match path :
  match_path (Some api_paths) path = Some ('(p, e) ← endpoint_of (segs_of path); Some (p, e, [])).
Proof.
  unfold match_path. destruct (decide (path = [])) as [->|Hne]; [by vm_compute|].
  pose proof (firstSegment_shorter path Hne) as Hlt. rewrite (segs_of_cons path Hne).
  destruct path as [|c path]; [done|]. cbn [length matchPath]. cbn [length] in Hlt. clear Hne.
  destruct (firstSegment (c :: path)) as [seg rest]. cbn [fst snd] in *. set (fuel := length path) in *.
  assert (forall ms, matchPath fuel (None : option (routingNode endpoint)) rest ms = Some None) as Hn by (by destruct fuel).
  assert (matchPath fuel (findChild api_paths seg) rest [] =
    Some ('(p, e) ← endpoint_of (seg :: segs_of rest); Some (p, e, []))) as ->.
  { destruct rest as [|d rest].
    - change (segs_of []) with (@nil gostring). rewrite endpoint_single.
      destruct (findChild api_paths seg) as [n|] eqn:En; [|apply Hn]. destruct (api_child _ _ En) as (p & e & ->). by rewrite leaf_match by lia.
    - rewrite (segs_of_cons (d :: rest)), endpoint_long by done. destruct (findChild api_paths seg) as [n|] eqn:En; [|apply Hn].
      destruct (api_child _ _ En) as (p & e & ->). by rewrite leaf_match by lia. }
  cbn [mbind option_bind]. destruct (endpoint_of _) as [[p e]|]; cbn [mbind option_bind]; [done|].
  change (emptyChild api_paths) with (None : option (routingNode endpoint)). rewrite Hn. by destruct (negb _).
Qed.

Lemma api_tree_match host method path :
  tree_match api_tree host method path = Some ('(p, e) ← endpoint_of (segs_of path); Some (p, e, [])).
Proof.
  assert (forall path, match_path (None : option (routingNode endpoint)) path = Some None) as Hn by (intros; unfold match_path; by destruct (length _)).
  unfold tree_match. assert (forall k, k <> [] -> findChild api_tree k = None) as Hk by (intros k Hk; unfold findChild; by rewrite bool_decide_false).
  assert (matchMethodAndPath (emptyChild api_tree) method path = Some ('(p, e) ← endpoint_of (segs_of path); Some (p, e, []))) as ->.
  { cbn [api_tree emptyChild matchMethodAndPath]. set (n := Node None empty_mapping (Some api_paths)).
    assert (forall k, match_path (findChild n k) path =
      if decide (k = []) then Some ('(p, e) ← endpoint_of (segs_of path); Some (p, e, [])) else Some None) as Hf.
    { intros k. unfold findChild. destruct (decide (k = [])) as [->|]; [apply api_match|]. rewrite bool_decide_false by done. apply Hn. }
    rewrite !Hf. change (match_path (emptyChild n) path) with (match_path (Some api_paths) path). rewrite api_match, (decide_False (P := str "GET" = [])) by done.
    destruct (decide (method = [])), (bool_decide (method = str "HEAD")), (endpoint_of (segs_of path)) as [[? ?]|]; reflexivity. }
  destruct (bool_decide_reflect (host = [])) as [->|Hne]; cbn [negb]; [by destruct (_ ≫= _)|].
  rewrite Hk by done. reflexivity.
Qed.

Lemma redirect_target_some oldpath url : is_Some (redirect_target oldpath url).
Proof.
  unfold redirect_target. destruct (Parse url) as [u|]; [|by eexists]. destruct (_ && _); [|by eexists]. cbv zeta.
  destruct (if negb _ then _ else _) as [x q]. rewrite Clean_clean_spec. cbn [mbind option_bind]. by eexists.
Qed.

Lemma http_Redirect_some w r url code :
  status w = None -> exists w', http_Redirect w r url code = Some w' /\ status w' = Some code.
Proof.
  intros Hw. unfold http_Redirect. destruct (redirect_target_some (Path (req_URL r)) url) as [t ->]. cbn [mbind option_bind].
  eexists. split; [done|]. destruct (negb _ && _), (negb _ && _); cbn; by rewrite Hw.
Qed.

(** A trailing slash leads to no endpoint. *)
Lemma endpoint_slash path : endpoint_of (segs_of (path ++ [slash])) = None.
Proof.
  destruct (decide (path = [])) as [->|Hne]; [by vm_compute|]. destruct (decide (path = [slash])) as [->|Hns]; [by vm_compute|].
  rewrite segs_of_cons by (by destruct path). rewrite firstSegment_slash by done. cbn [fst snd].
  rewrite (segs_of_cons (_ ++ [slash])) by (by destruct (firstSegment path).2). apply endpoint_long.
Qed.

Lemma api_redirect mux host method path u :
  mux_tree mux = api_tree ->
  matchOrRedirect mux host method path u = Some ('(p, e) ← endpoint_of (segs_of path); Some (p, e, []), None).
Proof.
  intros Ht. unfold matchOrRedirect. rewrite Ht, !api_tree_match, endpoint_slash. cbn [mbind option_bind exactMatch].
  destruct (exactMatch _ _); [done|]. by destruct u.
Qed.

Lemma api_no_methods mux host path : mux_tree mux = api_tree -> mux_matchingMethods mux host path = Some [].
Proof.
  intros Ht. unfold mux_matchingMethods. rewrite Ht.
  assert (forall path, tree_matchingMethods api_tree host path ∅ = Some ∅) as Hm.
  { intros x. unfold tree_matchingMethods. destruct (bool_decide_reflect (host = [])); cbn [negb mbind option_bind]; [reflexivity|].
    unfold findChild. by rewrite bool_decide_false by done. }
  rewrite !Hm. cbn [mbind option_bind]. rewrite Hm. reflexivity.
Qed.

(** Where a request with a given method and address ends up. *)
Definition api_outcome {Ref Image : Type} (ParseReference : gostring -> Ref + gostring)
    (remote_Image : Ref -> gostring -> Image + gostring) (Export : Image -> gobytes * option gostring)
    client_Do error_text (limitHit : bool) rl now r (rl' : RateLimiter) (asked : list URL) (w : response) : Prop :=
  let path := EscapedPath (req_URL r) in
  if decide (RequestURI r = str "*") then
    rl' = rl /\ asked = [] /\
    if decide (Method r = str "OPTIONS") then w = globalOptionsHandler limitHit no_response else status w = Some 400
  else if decide (Method r = str "CONNECT" \/ cleanPath path = Some path) then
    match snd <$> endpoint_of (segs_of path) with
    | Some Pull => (rl', w) = handleDockerPull ParseReference remote_Image Export rl now r /\ asked = []
    | Some Search => rl' = rl /\ (asked, w) = handleDockerSearch client_Do error_text r
    | Some Health => rl' = rl /\ asked = [] /\ status w = Some 200 /\ rbody w = str "ok"
    | None => rl' = rl /\ asked = [] /\ status w = Some 404
    end
  else rl' = rl /\ asked = [] /\ status w = Some 301.

(** What the multiplexer finds. *)
Lemma api_findHandler mux r :
  mux_tree mux = api_tree ->
  let path := EscapedPath (req_URL r) in
  findHandler mux r = Some (
    if decide (Method r = str "CONNECT" \/ cleanPath path = Some path) then
      match endpoint_of (segs_of path) with Some (p, e) => Handler e p [] | None => NotFound end
    else Redirect (String_ (path_URL (default [] (cleanPath path)) (RawQuery (req_URL r))))
           (match endpoint_of (segs_of (default [] (cleanPath path))) with Some (p, _) => pat_str p | None => [] end)).
Proof.
  intros Ht path. unfold findHandler. fold path. assert (forall host, answer_of mux host path ('(p, e) ← endpoint_of (segs_of path); Some (p, e, [])) =
    Some match endpoint_of (segs_of path) with Some (p, e) => Handler e p [] | None => NotFound end) as Ha.
  { intros host. destruct (endpoint_of (segs_of path)) as [[p e]|]; [done|]. cbn [mbind option_bind answer_of].
    rewrite api_no_methods by done. reflexivity. }
  destruct (bool_decide_reflect (Method r = str "CONNECT")) as [Hc|Hc].
  - rewrite decide_True by (by left). rewrite !api_redirect by done. cbn [mbind option_bind]. apply Ha.
  - destruct (stripHostPort_some (req_Host r)) as [host ->]. destruct (cleanPath_some path) as [p Hp]. rewrite Hp.
    cbn [mbind option_bind from_option id]. rewrite api_redirect by done. cbn [mbind option_bind].
    destruct (bool_decide_reflect (p = path)) as [->|Hne]; cbn [negb].
    + rewrite decide_True by (by right). apply Ha.
    + rewrite decide_False by (intros [?|[= ?]]; done). by destruct (endpoint_of (segs_of p)) as [[? ?]|].
Qed.

Lemma api_serve_outcome {Ref Image : Type} (ParseReference : gostring -> Ref + gostring)
    (remote_Image : Ref -> gostring -> Image + gostring) (Export : Image -> gobytes * option gostring)
    client_Do error_text limitHit rl now r :
  exists rl' asked w, api_serve ParseReference remote_Image Export client_Do error_text limitHit rl now r = Some (rl', asked, w) /\
    api_outcome ParseReference remote_Image Export client_Do error_text limitHit rl now r rl' asked w.
Proof.
  unfold api_outcome, api_serve, serverHandler_ServeHTTP. destruct api_mux_tree as (mux & -> & Ht). cbn [mbind option_bind].
  destruct (decide (RequestURI r = str "*")) as [Hu|Hu].
  - rewrite (bool_decide_true (RequestURI r = _)) by done. cbn [andb]. destruct (decide (Method r = str "OPTIONS")) as [Hm|Hm].
    + rewrite bool_decide_true by done. by eexists _, _, _.
    + rewrite bool_decide_false by done. unfold mux_serve, ServeHTTP. rewrite bool_decide_true by done. cbn [mbind option_bind].
      destruct (ProtoAtLeast r 1 1); by eexists _, _, _.
  - rewrite (bool_decide_false (RequestURI r = _)) by done. cbn [andb]. unfold mux_serve, ServeHTTP.
    rewrite bool_decide_false, api_findHandler by done. cbn [mbind option_bind]. destruct (decide (_ \/ _)).
    + destruct (endpoint_of (segs_of (EscapedPath (req_URL r)))) as [[p []]|]; cbn [fmap option_fmap option_map snd].
      * destruct (handleDockerPull _ _ _ rl now r) as [rl' w]. by eexists _, _, _.
      * destruct (handleDockerSearch client_Do error_text r) as [asked w]. by eexists _, _, _.
      * by eexists _, _, _.
      * by eexists _, _, _.
    + edestruct (http_Redirect_some no_response r) as (w & -> & Hw); [done|]. cbn [mbind option_bind]. by eexists _, _, _.
Qed.

(** [C8] The API server answers every request, and never with a panic.  A request for the
    target [*] is answered by the server itself, an OPTIONS with a length of 0 and any other
    with 400.  Otherwise a request whose path is not clean is redirected, unless it is a
    CONNECT; and the path decides, whatever the method and the host: its one segment,
    unescaped, is [pull], [search] or [health] and the answer is that of the handler, or the
    answer is 404.  Only [/pull] can change the rate limiter and only [/search] asks Docker
    Hub. *)
Theorem api_routes {Ref Image : Type} (ParseReference : gostring -> Ref + gostring)
    (remote_Image : Ref -> gostring -> Image + gostring) (Export : Image -> gobytes * option gostring)
    client_Do error_text limitHit rl now r :
  let path := EscapedPath (req_URL r) in
  exists rl' asked w, api_serve ParseReference remote_Image Export client_Do error_text limitHit rl now r = Some (rl', asked, w) /\
    if decide (RequestURI r = str "*") then
      rl' = rl /\ asked = [] /\
      if decide (Method r = str "OPTIONS") then
        hdr w !! str "Content-Length" = Some (str "0") /\ status w = None /\ rbody w = []
      else status w = Some 400
    else if decide (Method r = str "CONNECT" \/ cleanPath path = Some path) then
      match snd <$> endpoint_of (segs_of path) with
      | Some Pull => (rl', w) = handleDockerPull ParseReference remote_Image Export rl now r /\ asked = []
      | Some Search => rl' = rl /\ (asked, w) = handleDockerSearch client_Do error_text r
      | Some Health => rl' = rl /\ asked = [] /\ status w = Some 200 /\ rbody w = str "ok"
      | None => rl' = rl /\ asked = [] /\ status w = Some 404
      end
    else rl' = rl /\ asked = [] /\ status w = Some 301.
Proof.
  intros path. destruct (api_serve_outcome ParseReference remote_Image Export client_Do error_text limitHit rl now r) as (rl' & asked & w & HS & HO).
  exists rl', asked, w. split; [exact HS|]. unfold api_outcome in HO. fold path in HO. destruct (decide (RequestURI r = str "*")); [|exact HO].
  destruct HO as (-> & -> & HO). split_and!; [done..|]. destruct (decide (Method r = str "OPTIONS")); [|done]. subst w.
  unfold globalOptionsHandler. destruct limitHit; (split_and!; [|reflexivity..]); cbn [HttpServe.hdr Header_Set].
  - by rewrite lookup_insert_ne, lookup_insert_eq.
  - by rewrite lookup_insert_eq.
Qed.





(** ** The address of a search *)

Definition search_base : gostring := str "https://hub.docker.com/v2/search/repositories/".

Lemma search_parse qs :
  qs <> [] ->
  parse (search_base ++ question :: qs) false =
  if stringContainsCTLByte qs then Err (OtherError (str "net/url: invalid control character in URL"))
  else Ok (mk_URL (str "https") [] None (str "hub.docker.com") (str "/v2/search/repositories/") [] false false qs [] []).
Proof.
  intros Hne. unfold parse.
  assert (stringContainsCTLByte (search_base ++ question :: qs) = stringContainsCTLByte qs) as ->.
  { unfold stringContainsCTLByte. rewrite existsb_app. reflexivity. }
  destruct (stringContainsCTLByte qs); [done|]. rewrite !bool_decide_false by done. cbn [andb].
  change (getScheme (search_base ++ question :: qs)) with (Ok (str "https", str "//hub.docker.com/v2/search/repositories/" ++ question :: qs)).
  cbv beta iota zeta. rewrite split_query_at; [|by apply (bool_decide_unpack _); vm_compute|done].
  reflexivity.
Qed.

Lemma search_url_split q :
  search_url q = search_base ++ question :: search_query q.
Proof. reflexivity. Qed.

(** [C17] A search only ever asks hub.docker.com.  Whatever the text of q, the address that
    http.Get makes of it is an error or an https address of hub.docker.com, without a
    user, with the path of the search service.  Its query is the text pasted, but only up
    to a [#]: what follows, and with it the page size, is a fragment and is not sent.
    It is an error exactly when there is a control character before the [#] or a malformed
    escape after it. *)
Theorem search_stays_on_host q :
  let '(qs, frag, _) := Cut (search_query q) (str "#") in
  match NewRequest_URL (search_url q) with
  | Ok u => Scheme u = str "https" /\ Host u = str "hub.docker.com" /\ User u = None /\ Opaque u = [] /\
            Path u = str "/v2/search/repositories/" /\ RawQuery u = qs /\
            stringContainsCTLByte qs = false /\ unescape frag encodeFragment = Ok (Fragment u)
  | Err _ => stringContainsCTLByte qs = true \/ exists e, unescape frag encodeFragment = Err e
  end /\
  (hash_ ∉ q -> qs = search_query q /\ frag = []).
Proof.
  assert (hash_ ∉ search_base ++ [question]) as Hb by (apply (bool_decide_unpack _); vm_compute; done).
  unfold NewRequest_URL, Parse. rewrite search_url_split. change (str "#") with [hash_].
  assert (exists qs frag ok, Cut (search_query q) [hash_] = (qs, frag, ok) /\ Cut (search_base ++ question :: search_query q) [hash_] = (search_base ++ question :: qs, frag, ok) /\
    qs <> [] /\ (hash_ ∉ q -> qs = search_query q /\ frag = [])) as (qs & frag & ok & -> & -> & Hne & Hno).
  { destruct (Cut_byte hash_ (search_query q)) as [[Hn ->]|(a & b & E & Hn & ->)].
    - exists (search_query q), [], false. split_and!; try done. rewrite cons_middle, app_assoc.
      destruct (Cut_byte hash_ ((search_base ++ [question]) ++ search_query q)) as [[_ ->]|(a & b & E & _ & _)]; [done|exfalso].
      assert (hash_ ∈ (search_base ++ [question]) ++ search_query q) as Hin by (rewrite E; set_solver). apply elem_of_app in Hin. tauto.
    - exists a, b, true. split_and!; [done| |intros ->; by injection E|].
      + rewrite E. rewrite (cons_middle question search_base (a ++ _)), (cons_middle question search_base a), !app_assoc. apply Cut_at. rewrite elem_of_app. tauto.
      + intros Hq. exfalso. assert (hash_ ∈ search_query q) as Hin by (rewrite E; set_solver). unfold search_query in Hin.
        rewrite !elem_of_app in Hin. assert (hash_ ∉ str "query=" /\ hash_ ∉ str "&page_size=20") as [? ?] by (split; apply (bool_decide_unpack _); vm_compute; done). tauto. }
  split; [|done]. rewrite search_parse by done. destruct (stringContainsCTLByte qs); [by left|].
  destruct (bool_decide_reflect (frag = [])) as [->|Hf]; [done|].
  unfold setFragment. destruct (unescape frag encodeFragment) as [f|e]; [done|]. right. by exists e.
Qed.
