(* ===== verification/Main.v ===== *)
(** * friscy-proxy: start-up

    [proxy/main.go], [main]: the flags, the rate limiter and the server that it makes of
    them.  It ends where the listeners start, which is input and output. *)

From S2P Require Import Prelude Strconv Strings Url TextProto Flags RateLimiter Server.

(** ** main *)

(** The values that main reads through the pointers that flag.String and flag.Int gave. *)
Definition deref_string (p : nat) : M gostring := fun st =>
  match cells st !! p with Some (C_string s) => Ret (s, st) | _ => Panicked [] end.
Definition deref_int (p : nat) : M Z := fun st =>
  match cells st !! p with Some (C_int i) => Ret (i, st) | _ => Panicked [] end.

Definition origin_list (origins : gostring) : list gostring :=
  if bool_decide (origins = []) then [] else map TrimSpace (Split origins (str ",")).

(** Up to the servers: what they are started with. *)
Definition main (arguments : list gostring) : M (Server * RateLimiter) :=
  listen ← String_ (str "listen") (str ":4433") (str "Address to listen on");
  certFile ← String_ (str "cert") (str "cert.pem") (str "TLS certificate file");
  keyFile ← String_ (str "key") (str "key.pem") (str "TLS key file");
  maxSessions ← Int (str "max-sessions") 3 (str "Max concurrent sessions per IP");
  maxConns ← Int (str "max-conns") 100 (str "Max outbound connections per IP per day");
  origins ← String_ (str "origins") (str "") (str "Comma-separated allowed origins (empty = allow all)");
  Parse arguments ;;
  ms ← deref_int maxSessions; mc ← deref_int maxConns;
  origins ← deref_string origins;
  listen ← deref_string listen; certFile ← deref_string certFile; keyFile ← deref_string keyFile;
  mret (NewServer listen certFile keyFile (origin_list origins), NewRateLimiter ms mc).

(** The process, started as [arg0] with [arguments]. *)
Definition start (arg0 : gostring) (arguments : list gostring) : outcome (Server * RateLimiter * rt) :=
  main arguments (mk_rt [] (CommandLine arg0)).

Example main_example :
  match start (str "friscy-proxy") [str "-max-sessions"; str "5"; str "-origins=https://a.example, https://b.example"] with
  | Ret (srv, rl, _) =>
      RateLimiter.maxSessions rl = 5 /\ maxConnsPerDay rl = 100 /\ listen srv = str ":4433" /\
      CheckOrigin srv (MIME_Add ∅ (str "origin") (str "https://b.example")) = true /\
      CheckOrigin srv (MIME_Add ∅ (str "origin") (str "https://c.example")) = false
  | _ => False
  end.
Proof. vm_compute. repeat split. Qed.

(** ** The configuration *)

(** The definitions of main, and the state in which the command line is parsed. *)
Definition main_defs : M (nat * nat * nat * nat * nat * nat) :=
  listen ← String_ (str "listen") (str ":4433") (str "Address to listen on");
  certFile ← String_ (str "cert") (str "cert.pem") (str "TLS certificate file");
  keyFile ← String_ (str "key") (str "key.pem") (str "TLS key file");
  maxSessions ← Int (str "max-sessions") 3 (str "Max concurrent sessions per IP");
  maxConns ← Int (str "max-conns") 100 (str "Max outbound connections per IP per day");
  origins ← String_ (str "origins") (str "") (str "Comma-separated allowed origins (empty = allow all)");
  mret (listen, certFile, keyFile, maxSessions, maxConns, origins).

Definition ready (arg0 : gostring) : rt :=
  match main_defs (mk_rt [] (CommandLine arg0)) with Ret (_, st) => st | _ => mk_rt [] (CommandLine arg0) end.

Definition main_flags : gmap gostring Flag := formal (fs (ready [])).

(** The rest of main, from the pointers. *)
Definition configure (st : rt) : outcome (Server * RateLimiter * rt) :=
  (ms ← deref_int 3; mc ← deref_int 4; origins ← deref_string 5;
   listen ← deref_string 0; certFile ← deref_string 1; keyFile ← deref_string 2;
   mret (NewServer listen certFile keyFile (origin_list origins), NewRateLimiter ms mc)) st.

Lemma main_defs_ready arg0 : main_defs (mk_rt [] (CommandLine arg0)) = Ret (0, 1, 2, 3, 4, 5, ready arg0)%nat.
Proof. vm_compute. reflexivity. Qed.

Ltac step_define :=
  match goal with |- context [define ?k ?c ?n ?u ?st] => destruct (define k c n u st) as [[? ?]|?|?|?|]; [|done..] end.

Lemma start_ready arg0 arguments :
  start arg0 arguments =
  match Parse arguments (ready arg0) with
  | Ret (_, st) => configure st
  | Exit code => Exit code
  | Panicked why => Panicked why
  | PanickedErr e => PanickedErr e
  | OutOfFuel => OutOfFuel
  end.
Proof.
  pose proof (main_defs_ready arg0) as H. unfold start, main. unfold main_defs in H. unfold String_, Int in *.
  unfold mbind, M_bind, mret, M_ret in *. revert H. generalize (ready arg0). intros st.
  repeat step_define. intros [= -> -> -> -> -> -> ->]. by destruct (Parse arguments st) as [[? ?]|?|?|?|].
Qed.

(** The value of a setting: the last one on the command line, or the default. *)
Definition string_setting (name def : gostring) (ss : list (gostring * gostring)) : gostring :=
  default def (last_value name ss).
Definition int_setting (name : gostring) (def : Z) (ss : list (gostring * gostring)) : Z :=
  match last_value name ss with Some v => (ParseInt v 0 64).1 | None => def end.

Lemma main_defs_ops arg0 :
  exists ops, Forall op_typed ops /\ run_ops ops (mk_rt [] (CommandLine arg0)) = Ret (tt, ready arg0).
Proof.
  exists [Define K_string (C_string (str ":4433")) (str "listen") (str "Address to listen on");
    Define K_string (C_string (str "cert.pem")) (str "cert") (str "TLS certificate file");
    Define K_string (C_string (str "key.pem")) (str "key") (str "TLS key file");
    Define K_int (C_int 3) (str "max-sessions") (str "Max concurrent sessions per IP");
    Define K_int (C_int 100) (str "max-conns") (str "Max outbound connections per IP per day");
    Define K_string (C_string (str "")) (str "origins") (str "Comma-separated allowed origins (empty = allow all)")].
  split; [|vm_compute; reflexivity]. rewrite !Forall_cons, Forall_nil. cbn [op_typed cell_typed]. lia.
Qed.

Lemma ready_spec arg0 :
  rt_wf (ready arg0) /\ formal (fs (ready arg0)) = main_flags /\ errorHandling (fs (ready arg0)) = ExitOnError.
Proof.
  split; [|split; reflexivity]. destruct (main_defs_ops arg0) as (ops & Ht & Hr).
  pose proof (run_ops_wf ops _ Ht (NewFlagSet_wf arg0 ExitOnError)) as H. unfold CommandLine in Hr. by rewrite Hr in H.
Qed.

Lemma ready_cells arg0 :
  cells (ready arg0) =
  [C_string (str ":4433"); C_string (str "cert.pem"); C_string (str "key.pem"); C_int 3; C_int 100; C_string []].
Proof. vm_compute. reflexivity. Qed.

Section Settings.
Context (r : rt) (r_wf : rt_wf r) (r_flags : formal (fs r) = main_flags).
Context (arguments : list gostring) (ss : list (gostring * gostring)) (rest : list gostring).

(** The state that Parse leaves. *)
Definition parsed_state : rt := with_args (apply_settings (mk_rt (cells r) (set_parsed (fs r) arguments)) ss) rest.

Lemma parsed_cell name flag :
  main_flags !! name = Some flag ->
  cells parsed_state !! vptr (FValue flag) =
  match last_value name ss with
  | Some v => Some (decode (vkind (FValue flag)) v).1
  | None => cells r !! vptr (FValue flag)
  end.
Proof.
  intros Hl. destruct r_wf as [Hf Ho Ha]. rewrite <- r_flags in Hl.
  apply (apply_settings_cell (mk_rt (cells r) (set_parsed (fs r) arguments)) ss name flag); [by constructor|done].
Qed.

Lemma deref_string_setting name usage p d def :
  main_flags !! name = Some (mk_Flag name usage (mk_Value K_string p) d) ->
  cells r !! p = Some (C_string def) -> deref_string p parsed_state = Ret (string_setting name def ss, parsed_state).
Proof.
  intros Hl Hc. pose proof (parsed_cell _ _ Hl) as H. cbn [FValue vptr vkind decode fst] in H.
  unfold deref_string, string_setting. rewrite H. destruct (last_value name ss); [done|]. by rewrite Hc.
Qed.

Lemma deref_int_setting name usage p d def :
  main_flags !! name = Some (mk_Flag name usage (mk_Value K_int p) d) ->
  cells r !! p = Some (C_int def) -> deref_int p parsed_state = Ret (int_setting name def ss, parsed_state).
Proof.
  intros Hl Hc. pose proof (parsed_cell _ _ Hl) as H. cbn [FValue vptr vkind decode fst] in H.
  unfold deref_int, int_setting. rewrite H. destruct (last_value name ss) as [v|]; [|by rewrite Hc].
  unfold intValue_Set, intSize. by destruct (ParseInt v 0 64).
Qed.

Context (r_cells : cells r =
  [C_string (str ":4433"); C_string (str "cert.pem"); C_string (str "key.pem"); C_int 3; C_int 100; C_string []]).

Lemma configure_settings :
  configure parsed_state =
  Ret (NewServer (string_setting (str "listen") (str ":4433") ss) (string_setting (str "cert") (str "cert.pem") ss)
         (string_setting (str "key") (str "key.pem") ss) (origin_list (string_setting (str "origins") [] ss)),
       NewRateLimiter (int_setting (str "max-sessions") 3 ss) (int_setting (str "max-conns") 100 ss), parsed_state).
Proof using r_wf r_flags r_cells.
  unfold configure, mbind, M_bind.
  erewrite (deref_int_setting (str "max-sessions") _ 3 _ 3); [|vm_compute; reflexivity|by rewrite r_cells].
  erewrite (deref_int_setting (str "max-conns") _ 4 _ 100); [|vm_compute; reflexivity|by rewrite r_cells].
  erewrite (deref_string_setting (str "origins") _ 5 _ []); [|vm_compute; reflexivity|by rewrite r_cells].
  erewrite (deref_string_setting (str "listen") _ 0); [|vm_compute; reflexivity|by rewrite r_cells].
  erewrite (deref_string_setting (str "cert") _ 1); [|vm_compute; reflexivity|by rewrite r_cells].
  erewrite (deref_string_setting (str "key") _ 2); [|vm_compute; reflexivity|by rewrite r_cells]. reflexivity.
Qed.
End Settings.

(** The command line is parsed in the ready state. *)
Lemma start_outcome arg0 arguments :
  (forall ss rest, cmdline main_flags arguments ss rest ->
     exists st,
     start arg0 arguments =
     Ret (NewServer (string_setting (str "listen") (str ":4433") ss) (string_setting (str "cert") (str "cert.pem") ss)
            (string_setting (str "key") (str "key.pem") ss) (origin_list (string_setting (str "origins") [] ss)),
          NewRateLimiter (int_setting (str "max-sessions") 3 ss) (int_setting (str "max-conns") 100 ss), st)) /\
  (forall code, fails main_flags arguments code -> start arg0 arguments = Exit code).
Proof.
  rewrite start_ready. destruct (ready_spec arg0) as (Hw & Hm & He). pose proof (ready_cells arg0) as Hc.
  revert Hw Hm He Hc. generalize (ready arg0). intros r Hw Hm He Hc.
  unfold Parse, modify_fs, mbind, M_bind. set (r1 := mk_rt (cells r) (set_parsed (fs r) arguments)).
  split.
  - intros ss rest Hcmd. rewrite (Parse_loop_cmdline main_flags arguments ss rest Hcmd (S (length arguments)) r1);
      [|exact Hm|done|lia].
    eexists. by apply configure_settings.
  - intros code Hf. by rewrite (Parse_loop_fails main_flags arguments code Hf (S (length arguments)) r1); [|exact Hm|done|lia|].
Qed.

(** ** Claims *)

(** [C30] The server runs with the configuration of its command line.  For every list of
    arguments: if it is a command line of the six flags with values of their types,
    the server and the rate limiter are made from the last value given for each flag or
    its default, and the origins are the pieces between the commas without the space
    around them; otherwise the process exits, with 0 for a request for help and with 2
    for everything else, before anything is started.  It never panics. *)
Theorem main_configures arg0 arguments :
  (forall ss rest, cmdline main_flags arguments ss rest ->
     exists st,
     start arg0 arguments =
     Ret (NewServer (string_setting (str "listen") (str ":4433") ss) (string_setting (str "cert") (str "cert.pem") ss)
            (string_setting (str "key") (str "key.pem") ss) (origin_list (string_setting (str "origins") [] ss)),
          NewRateLimiter (int_setting (str "max-sessions") 3 ss) (int_setting (str "max-conns") 100 ss), st)) /\
  (forall code, fails main_flags arguments code -> start arg0 arguments = Exit code) /\
  ((exists ss rest, cmdline main_flags arguments ss rest) \/ exists code, (code = 0 \/ code = 2) /\ fails main_flags arguments code).
Proof.
  destruct (start_outcome arg0 arguments) as [H1 H2]. split; [done|split; [done|]].
  destruct (cmdline_or_fails main_flags arguments) as [H|(code & H)]; [by left|right]. exists code. split; [|done].
  clear -H. induction H; auto.
Qed.

(** [C31] The origins of the command line are the origins that are admitted.  Of a server
    started with a value for -origins, the origin check admits exactly the pieces
    between the commas, without the space around them, in the header Origin, and every
    origin when the value is empty or was not given.  A piece that is blank, as after a trailing comma,
    admits the requests that have no origin. *)
Theorem origins_are_admitted arg0 arguments ss rest :
  cmdline main_flags arguments ss rest ->
  let origins := string_setting (str "origins") [] ss in
  exists srv rl st, start arg0 arguments = Ret (srv, rl, st) /\
  forall header, CheckOrigin srv header = true <->
    origins = [] \/ exists piece, piece ∈ Split origins (str ",") /\ MIME_Get header (str "Origin") = TrimSpace piece.
Proof.
  intros Hc origins. destruct (start_outcome arg0 arguments) as [H _]. destruct (H ss rest Hc) as [st ->].
  eexists _, _, st. split; [reflexivity|]. intros header. rewrite CheckOrigin_NewServer.
  fold origins. unfold origin_list. case_bool_decide as E; [by rewrite E; split; [left|left]|]. rewrite list_elem_of_fmap.
  pose proof (Split_nonempty origins (str ",") ltac:(done)) as Hs. split.
  - intros [Hn|(piece & E' & Hp)]; [by apply fmap_nil_inv in Hn|]. right. eauto.
  - intros [?|(piece & Hp & E')]; [done|]. right. eauto.
Qed.

Lemma origins_are_admitted_witness :
  exists srv rl st,
  start (str "friscy-proxy") [str "-origins"; str "https://a.example , "] = Ret (srv, rl, st) /\
  CheckOrigin srv (MIME_Add ∅ (str "ORIGIN") (str "https://a.example")) = true /\ CheckOrigin srv ∅ = true /\
  CheckOrigin srv (MIME_Add ∅ (str "ORIGIN") (str "https://b.example")) = false.
Proof.
  destruct (origins_are_admitted (str "friscy-proxy") [str "-origins"; str "https://a.example , "]
    [(str "origins", str "https://a.example , ")] []) as (srv & rl & st & Hs & Ho).
  - eapply (cmd_flag _ _ (str "origins") (str "https://a.example , ") []); [|vm_compute; reflexivity|constructor; constructor].
    eapply flag_next; [by left|vm_compute; reflexivity|reflexivity|]. split; [by eexists _, _|lit].
  - exists srv, rl, st. split; [exact Hs|]. split; [|split].
    + apply Ho. right. exists (str "https://a.example "). split; [apply list_elem_of_In; vm_compute; auto|vm_compute; reflexivity].
    + apply Ho. right. exists (str " "). split; [apply list_elem_of_In; vm_compute; auto|vm_compute; reflexivity].
    + destruct (CheckOrigin srv (MIME_Add ∅ (str "ORIGIN") (str "https://b.example"))) eqn:E; [exfalso|reflexivity].
      apply Ho in E as [E|(piece & Hp & E)]; [discriminate E|]. apply list_elem_of_In in Hp.
      vm_compute in Hp. destruct Hp as [<-|[<-|[]]]; vm_compute in E; discriminate E.
Defined.
